(* ===== verification/_CoqProject ===== *)
-Q . S2P
Prelude.v
Region.v
Registers.v
Mode.v
Traps.v
CSRFields.v
CSRegisters.v
Instruction.v
Parser.v
Encode.v
HartState.v
Bus.v
RvI.v
RvM.v
RvSystem.v
TrapSpec.v
Isa.v
Machine.v
MachineSpec.v
InstrSpec.v
MachineProps.v
ExecEnv.v
Pvm.v
Interpreter.v
Program.v
Loader.v
Boot.v
MirAst.v
MirGas.v
MirStack.v
MirCompare.v
MirExtern.v
MirSerial.v
MirCtx.v
MirTypes.v
MirTcInstr.v
MirTypecheck.v
MirOps.v
MirInterp.v
MirTyping.v
MirSerialProps.v
MirSound.v
MirTcSound.v
MirSafety.v
MirGasProps.v
MirContract.v
MirBigMap.v
MirStorageSpec.v
MirDump.v
MirPack.v
MirOpsProps.v
MirConcrete.v
SdkPath.v
SdkStore.v
SdkHost.v
SdkRuntime.v
SdkMock.v
SdkStorage.v
SdkTxn.v
SdkProps.v
EvmSafeStorage.v
EvmIndexable.v
EvmRlp.v
EvmLinkedList.v
EvmConcrete.v
EvmProps.v
EvmAccount.v
EvmTx.v
EvmStorage.v
EvmInbox.v
EvmChunks.v
EvmFees.v
EvmApply.v
EvmGasPrice.v
EvmSamples.v
EvmLedgerProps.v
EvmInboxProps.v
EvmDelayed.v
EvmBlueprint.v
EvmSequencerProps.v
