(* ===== verification/Prelude.v ===== *)
(** * The Rust virtual machines of Octez

    A verification library for the Rust code of the repository.  It models three
    programs.

    The RISC-V virtual machine under [src/src/risc_v]: the state of the machine and its
    storage ([interpreter/src/state_backend], [machine_state]), the instruction parser
    ([parser.rs]), the instructions ([interpreter/]), traps, the main loop
    ([machine_state.rs]), the execution environment ([exec_env]), the interpreter
    ([lib.rs]), the proof-generating virtual machine ([pvm/src/state.rs]), and loading and
    booting a program ([kernel_loader], [program.rs], [devicetree.rs]).

    The Michelson runtime under [src/contrib/mir/src]: values and types ([ast.rs], [ast/]),
    gas ([gas.rs]), stacks ([stack.rs]), the binary format ([serializer/]), the context and
    its big maps ([context.rs], [ast/big_map.rs]), the typechecker ([typechecker.rs],
    [typechecker/]) and the interpreter ([interpreter.rs]).

    The smart rollup kernels: the storage of the kernel SDK under [src/src/kernel_sdk]
    (paths, host functions, the mock host, the runtime, transactional storage) and what the
    Etherlink kernel builds on it under [src/etherlink/kernel_evm]: the safe storage of
    blocks, indexed storages and linked lists, the accounts, the transactions with their
    encodings and signatures, the inbox of the proxy mode, fees, the validity of
    transactions, the price of gas, the statistics of levels, upgrades and events, and the
    delayed inbox and the blueprints of the sequencer mode.

    ** How the parts interact

    A [Pvm] or an [Interpreter] owns a machine and an execution environment.  A step of the
    machine takes a pending interrupt, fetches an instruction from the bus, runs it on the
    hart (registers, control registers, mode) and the bus, and turns an exception into a
    trap; an environment call leaves the machine for the environment, which answers or
    traps it back.  Booting loads an executable into a program, a map of segments, and
    copies it to the main memory.

    A Michelson script is typechecked to instructions, which the interpreter runs on a stack
    of values in a context; both charge the gas counter of the context, and both may read
    the big map storage.  [UNPACK] and [CONTRACT] call the typechecker from the interpreter.
    After a run the big maps of the result are dumped to the storage.

    A kernel uses the durable storage through the trait [Runtime], which the SDK implements
    over the host functions, and the mock host implements these over a tree of nodes.  A
    transactional storage copies its tree for every transaction.  The Etherlink kernel
    applies a block through a runtime that redirects every path below [/tmp], and promotes
    or reverts the world state there; its queues are linked lists of encoded values.  The
    inbox parses external messages to transactions, putting together those that come in
    chunks; a transaction is checked against the account of its caller, pays for its gas
    before the execution, is repaid what it did not use, and then pays its fees, which are
    burned or go to the sequencer.  The accounts of its receipt enter an index.  In the
    sequencer mode the transactions come in blueprints, which the sequencer signs and sends
    in chunks, and from the delayed inbox, a linked list whose transactions the sequencer
    names by their hashes; when it ignores them for too long, they are forced into the next
    blueprints.

    ** Conventions

    An unsigned integer of [w] bits is a [Z] in [[0, 2^w)], with [wrap] and [sint] for the
    casts and the [checked_*] operations where the code panics on overflow.  In the machine
    a function that can panic returns an [option], one that returns a [Result] on
    [&mut self] is a [comp]: it ends with a value or an error, each with the state it
    leaves, or panics.  In the Michelson runtime a computation is an [M S E A]: it returns a
    result, an error or a panic with its reason, or stops at a bound, with the state it
    leaves.  Traits are classes, with their laws in a class of their own where a client
    relies on them ([TrapContextOk], [EnvironmentOk], [MemoryLaws], [FieldLaws],
    [LayoutOk], [StorageLaws], [StorageSound], [StorageReturns], [RuntimeLaws]).  Libraries that are not in
    the repository are classes of operations: [Goblin] (the executable parser), [FdtWriter]
    (the device tree writer), [Extern] (hashes, signatures, curves and number encoding of
    the Michelson runtime, with [ExternSound] and [ZarithFormat] for what the theorems rely
    on), [RlpLib], [RlpScalars] and [HexLib] (the encodings of the Etherlink kernel),
    [KeccakLib] and [Secp] (its hash and signatures), [SoftFloat] (its floating-point
    arithmetic), [TezosKeys] (the keys and signatures of the sequencer), [U256Lib] (the
    conversion of bytes to 256-bit integers), each with a class of laws; [RlpSize] bounds
    the length of an encoding.  The byte order of the machine the code runs on is the class [Host]; the size of
    the main memory is [MainMemoryLayout].

    ** Files of the RISC-V machine

    - [Prelude]: machine integers, results, computations and their total-correctness
      judgement, the bit-level and range automation ([bits_split], [solve_range], hint
      database [rust_range]), byte lists.
    - [Region]: elements, regions, cells, the byte region ([state_backend.rs],
      [state_backend/region.rs]), refining plain lists.
    - [Registers], [Mode], [Traps], [CSRFields], [CSRegisters], [HartState], [Bus]: the
      state and its operations ([machine_state/*.rs], [traps.rs]), each with its
      well-formedness and the lemmas on its reads and writes.
    - [Instruction], [Parser], [Encode]: instructions, the parser, and the reference
      encoder of the instruction set manual with both round trips.
    - [RvI], [RvM], [RvSystem]: the instructions on registers and hart
      ([interpreter/rv*.rs]); [Isa]: the reference arithmetic on mathematical integers.
    - [TrapSpec] (modules [TrapSpec], [CsrSpec]): what traps, returns and control register accesses do.
    - [Machine]: fetch, dispatch, interrupts, exceptions, [step], [step_many];
      [MachineSpec], [InstrSpec] (with [StepSpec]): the specifications of instructions and steps;
      [MachineProps]: the properties of the machine.
    - [ExecEnv], [Pvm], [Interpreter]: the environment, and the two drivers.
    - [Program], [Loader], [Boot]: programs, the loader, booting.

    ** Files of the Michelson runtime

    - [MirAst] (with [MirEq]): primitives, Micheline, types, values, instructions, and their
      decidable equality; [MirGas]: computations, the gas counter and every cost;
      [MirStack]: the vector-backed stack, shown to refine the list with the top first that
      the other files use; [MirCompare]: the order on values, sets and maps.
    - [MirExtern]: addresses, keys, signatures and scalars; [MirSerial]: conversion to
      Micheline, encoding and decoding; [MirCtx]: context, big maps, in-memory storage;
      [MirBigMap]: collecting and dumping big maps.
    - [MirTypes], [MirTcInstr], [MirTypecheck]: type properties and the parser of types, one
      definition per instruction of the typechecker, values, lambdas and scripts.
    - [MirOps], [MirInterp]: one definition per instruction of the interpreter, blocks,
      contracts.
    - [MirTyping]: the type system as relations, apart from the typechecker, and in [MirOrder]
      that the order is total, and sorted maps; [MirSerialProps]: the decoder is total; [MirPack]: the
      decoder inverts the encoder.
    - [MirSound] (with [MirSoundOps]), [MirSafety]: instructions keep the types;
      [MirTcSound] (with [MirTcValues]): the typechecker is sound for the relations.
    - [MirGasProps] (with [MirTermination], [MirInterpGas]): gas bounds typechecking and
      interpretation; [MirContract]: the theorems on typechecked contracts.
    - [MirStorageSpec], [MirDump]: what a storage promises, the in-memory storage, dumping;
      [MirOpsProps]: results of single instructions; [MirConcrete]: a concrete runtime on
      which the theorems are applied.

    ** Files of the kernel storage

    - [SdkPath]: paths, their validation and the grammar it decides; [SdkStore]: the tree of
      nodes of the mock store, with subtrees and updates as reference functions; [SdkHost]:
      error codes, the interface of host functions, the handlers of the in-memory store, the
      mock host; [SdkRuntime]: the class [Runtime], its implementation over host functions,
      and [RuntimeLaws], what a runtime promises about the tree it shows; [SdkMock]: the mock
      host keeps the promise, and in [SdkOps] sequences of storage operations.
    - [SdkStorage]: layers and transactions; [SdkTxn]: the stack of trees they refine;
      [SdkProps]: the properties of the SDK.
    - [EvmSafeStorage]: the runtime below [/tmp], an instance of the laws; [EvmIndexable],
      [EvmRlp], [EvmLinkedList]: indexed storages, stored values, linked lists with the
      sequence they refine; [EvmConcrete]: concrete encodings; [EvmProps]: the properties.

    ** Files of the Etherlink kernel

    - [EvmAccount]: the accounts of [account_storage.rs], and in [EvmLedger] a map of records
      and the operations on accounts as operations on it.
    - [EvmTx]: transactions, their encodings and signatures ([tx_common.rs],
      [tx_signature.rs], [access_list.rs]); [EvmInbox]: the transactions of the inbox, the
      parser and the handler of the proxy mode ([inbox.rs], [parsing.rs]).
    - [EvmStorage]: the accessors of [storage.rs]; [EvmChunks]: the storage of a chunked
      transaction as a map from indices to data, and in [EvmLevels] the statistics of levels.
    - [EvmFees]: fees and their application ([fees.rs]); [EvmApply]: validity of transactions
      and payment of gas ([apply.rs], [handler.rs]); [EvmGasPrice]: the tick backlog and the
      base fee ([gas_price.rs]).
    - [EvmDelayed]: events and upgrades ([event.rs], [upgrade.rs], [fallback_upgrade.rs]) and
      the delayed inbox ([delayed_inbox.rs]), with the sequence of transactions it stands
      for; [EvmBlueprint]: blueprints, their chunks and storage ([blueprint.rs],
      [sequencer_blueprint.rs], [blueprint_storage.rs]), forced blueprints
      ([stage_one.rs]), the messages of the sequencer ([parsing.rs], [inbox.rs]).
    - [EvmSamples]: concrete libraries and transactions; [EvmLedgerProps], [EvmInboxProps],
      [EvmSequencerProps]: the properties.

    ** What the theorems show

    The machine.  The parser is inverse to the reference encoder in both directions.  Every
    arithmetic instruction computes the reference result; loads, stores and branches do what
    the manual says on every branch, faults included.  Exceptions are precise, traps enter
    and [MRET]/[SRET] undo them, privilege only rises through traps.  A step keeps the
    invariant of the machine and panics only for two named reasons; every state reachable
    from a reset is well-formed.  Control registers always hold values their field rules
    allow.  The batched drivers compute what single steps do.  Loading an executable places
    its segments on any memory that keeps the promise of the trait, and a program agrees
    with the flat memory; booting puts the image in the main memory.

    Michelson.  What the typechecker accepts is well typed, and well-typed code keeps the
    types of the stack: a script that typechecks ends with a storage of its storage type and
    well-typed operations, or with an error.  Panics are confined: which ones are left
    depends on the instructions that the code and its inputs use, and without [UNPACK],
    [CONTRACT] and [TICKET] nothing panics once the inputs have typechecked; how these three,
    and [DIG] and [DUG] in the typechecker, come to a panic is shown in [MirOpsProps]
    ([dig_by_stack_length] and what follows it).  Typechecking and interpretation
    terminate, within a number of steps bounded by the gas.  Comparison is a total order;
    decoding inverts encoding; dumping big maps keeps what they hold, gives each an id of
    its own and removes the ones that are gone; maps, tickets, amounts, number conversions
    and type properties behave as specified.

    Kernel storage.  Path validation decides the grammar of paths.  On the mock host, every
    sequence of storage operations leaves the tree the reference functions give, and a value
    written in chunks reads back.  A transactional storage refines a stack of trees, on any
    runtime that keeps the promises.  The safe storage keeps them too, so that a block
    changes nothing outside [/tmp] until it is promoted.  Indexed storages are lists and
    linked lists are queues, where every element is served, as long as the last but one
    element is not removed; [removal_loses_elements] shows what happens then, on any list of
    at least three elements.

    Etherlink.  The stored accounts are a map of records.  Encodings of transactions are
    exact in both directions, and the signer of a transaction is recovered from what is
    sent.  A chunked transaction enters the inbox once, when its last chunk comes
    ([misplaced_chunk_drops_the_transaction]: unless a chunk comes with the index of another
    one first).
    What a transaction pays is what is burned and what the sequencer gets; a valid
    transaction can pay for itself.  The index of accounts holds each account once.  The
    price of gas returns to its minimum.  The average block time is always zero
    ([average_block_time_is_zero]), though [current_timestamp] is documented to add it.
    Delayed transactions that have timed out are all forced, in order, into the next
    blueprints; a blueprint of the sequencer is put together from the chunks it signed,
    whatever the order in which they come and whatever others send, and takes the delayed
    transactions it names out of the delayed inbox.  A forced blueprint, and its
    transactions, are lost when chunks with its number were there before
    ([delayed_transactions_can_be_lost]), and known transactions when an unknown hash
    follows them ([unknown_hash_loses_known_transactions]).  A message with a number of more
    than 32 bytes, signed or not, makes the kernel panic ([oversized_number_panics]).

    The operators of 256-bit integers that panic on overflow, their conversion from too many
    bytes, and the arithmetic of machine integers in the kernel, are partial functions whose
    failure is a panic.  Log messages
    are left out: they change no state.

    ** Fuel

    [Pvm.step_many_accum] and [Interpreter.run_accum] recurse on the steps left: one more
    unit of fuel than the steps is enough, and the theorems hold for every larger fuel.  The
    typechecker and the interpreter of Michelson take a bound on the nesting of calls and on
    the iterations of loops; every call and every iteration costs gas, so that a bound above
    the gas that is left is never reached ([typechecking_terminates],
    [interpretation_terminates]).  The decoder takes the number of bytes as its bound.  Reading a value
    in chunks takes its size as the bound, and writing it its length: every round handles at
    least one byte.  [force_blueprints] takes a bound on its rounds; each takes a
    transaction from the delayed inbox, so that one more than their number is enough.

    ** Not modelled

    The placement of regions in the backing storage ([alloc.rs], [layout.rs],
    [memory_backend.rs]: unsafe pointer arithmetic), the printing of instructions, the
    memory of the third-party emulator in [kernel_loader], the sandbox and the
    demonstration kernels (front ends).  Of the Michelson runtime, the text syntax, which is
    generated by [logos] and [lalrpop], the printing to base58, the test runner, and the
    arenas, which only carry allocations.  Of the kernel SDK, the
    reads of the data availability layer, the debug output and the message encodings, which
    are derived by macros; of the Etherlink kernel, the execution of transactions, which is
    mostly a third-party interpreter, the encodings of blocks and receipts, the internal
    messages of the inbox, which need the message encodings of the SDK, and the simulation. *)

From stdpp Require Export base tactics option list numbers gmap.
From Stdlib Require Export ZArith Lia.
From Stdlib Require Import Btauto.

#[export] Set Default Proof Using "Type".

Open Scope Z_scope.

(** ** Machine integers

    An unsigned [w]-bit integer is a [Z] in [[0, 2^w)], a signed one a [Z] in
    [[-2^(w-1), 2^(w-1))].  Rust's [as] casts are [wrap] (to an unsigned type)
    and [sint] (to a signed type). *)

(** [x as uW], and the result of the [wrapping_*] operations. *)
Definition wrap (w z : Z) : Z := z mod 2 ^ w.

(** [x as iW]. *)
Definition sint (w z : Z) : Z :=
  if wrap w z <? 2 ^ (w - 1) then wrap w z else wrap w z - 2 ^ w.

Definition in_u (w z : Z) : Prop := 0 <= z < 2 ^ w.

Definition in_s (w z : Z) : Prop := - 2 ^ (w - 1) <= z < 2 ^ (w - 1).

(** [!x] on [uW]. *)
Definition unot (w x : Z) : Z := wrap w (Z.lnot x).

(** [x << n] on [uW] for a literal [n < W]. *)
Definition ushl (w x n : Z) : Z := wrap w (Z.shiftl x n).

(** [a + b] on [uW] with overflow checks: [None] is the panic. *)
Definition checked_add (w a b : Z) : option Z :=
  if a + b <? 2 ^ w then Some (a + b) else None.

(** [a - b] on an unsigned type with overflow checks. *)
Definition checked_sub (a b : Z) : option Z :=
  if b <=? a then Some (a - b) else None.

(** [x << n] on [uW] with overflow checks: the shift amount must be below [W]. *)
Definition checked_shl (w x n : Z) : option Z :=
  if (0 <=? n) && (n <? w) then Some (ushl w x n) else None.

(** [x >> n] with overflow checks; [Z.shiftr] is the logical shift on a
    nonnegative [x] and the arithmetic one on a negative [x]. *)
Definition checked_shr (w x n : Z) : option Z :=
  if (0 <=? n) && (n <? w) then Some (Z.shiftr x n) else None.

Definition saturating_sub (a b : Z) : Z := Z.max 0 (a - b).

(** [x.bit(i)] and [x.set_bit(i, b)] of the [Twiddle] bit operations. *)
Definition get_bit (x i : Z) : bool := Z.testbit x i.

Definition set_bit (x i : Z) (b : bool) : Z :=
  if b then Z.setbit x i else Z.clearbit x i.

(** A Rust [match] of an integer against constants, first arm first. *)
Fixpoint switch {A} (x : Z) (arms : list (Z * A)) (default : A) : A :=
  match arms with
  | [] => default
  | (k, a) :: arms => if x =? k then a else switch x arms default
  end.

(** ** Results and stateful computations

    [Ok]/[Err] are Rust's [Result].  A function that only can panic returns an
    [option], [None] being the panic.  A function on [&mut self] that returns a
    [Result] is a [comp]: it ends with a value or an error, each with the state
    it leaves, or panics. *)
Inductive result (A E : Type) : Type :=
| Ok (a : A)
| Err (e : E).
Arguments Ok {A E} a.
Arguments Err {A E} e.

Inductive outcome (S E A : Type) : Type :=
| Ret (a : A) (s : S)
| Throw (e : E) (s : S)
| Panic.
Arguments Ret {S E A} a s.
Arguments Throw {S E A} e s.
Arguments Panic {S E A}.

Definition comp (S E A : Type) : Type := S -> outcome S E A.

Definition comp_ret {S E A} (a : A) : comp S E A := fun s => Ret a s.

Definition comp_throw {S E A} (e : E) : comp S E A := fun s => Throw e s.

Definition comp_bind {S E A B} (c : comp S E A) (k : A -> comp S E B) : comp S E B :=
  fun s => match c s with
           | Ret a s => k a s
           | Throw e s => Throw e s
           | Panic => Panic
           end.

(** A panicking computation that does not touch the state. *)
Definition comp_lift {S E A} (o : option A) : comp S E A :=
  fun s => match o with Some a => Ret a s | None => Panic end.

Definition comp_get {S E} : comp S E S := fun s => Ret s s.

Definition comp_put {S E} (s : S) : comp S E unit := fun _ => Ret tt s.

Declare Scope rust_scope.
Delimit Scope rust_scope with rust.
Notation "'let!' x := c 'in' k" := (comp_bind c (fun x => k))
  (at level 10, x pattern, c at level 200, k at level 200) : rust_scope.
Notation "c ;;; k" := (comp_bind c (fun _ => k))
  (at level 199, right associativity) : rust_scope.
Notation "'let?' x := c 'in' k" :=
  (match c with Some x => k | None => None end)
  (at level 10, x pattern, c at level 200, k at level 200) : rust_scope.
Open Scope rust_scope.

(** The total-correctness judgement on computations: from a state in [P] the
    computation does not panic, a value leaves a state in [Q] and an error a state
    in [R]. *)
Definition total {S E A} (P : S -> Prop) (c : comp S E A)
    (Q : A -> S -> Prop) (R : E -> S -> Prop) : Prop :=
  forall s, P s ->
    match c s with
    | Ret a s' => Q a s'
    | Throw e s' => R e s'
    | Panic => False
    end.

Lemma total_ret {S E A} (P : S -> Prop) (a : A) (Q : A -> S -> Prop) (R : E -> S -> Prop) :
  (forall s, P s -> Q a s) -> total P (comp_ret a) Q R.
Proof. intros H s Hs. by apply H. Qed.

Lemma total_throw {S E A} (P : S -> Prop) (e : E) (Q : A -> S -> Prop) (R : E -> S -> Prop) :
  (forall s, P s -> R e s) -> total P (comp_throw e) Q R.
Proof. intros H s Hs. by apply H. Qed.

Lemma total_bind {S E A B} (P : S -> Prop) (c : comp S E A) (k : A -> comp S E B) Q' Q R :
  total P c Q' R -> (forall a, total (Q' a) (k a) Q R) -> total P (comp_bind c k) Q R.
Proof.
  intros Hc Hk s Hs. specialize (Hc s Hs). unfold comp_bind. destruct (c s); try done.
  by apply Hk.
Qed.

(** Reading the state: the continuation knows the state it starts from. *)
Lemma total_get {S E B} (P : S -> Prop) (k : S -> comp S E B) Q R :
  (forall s, P s -> total (fun s' => s' = s) (k s) Q R) -> total P (comp_bind comp_get k) Q R.
Proof. intros Hk s Hs. by apply (Hk s Hs s). Qed.

Lemma total_lift {S E A B} (P : S -> Prop) (o : option A) (k : A -> comp S E B) a Q R :
  o = Some a -> total P (k a) Q R -> total P (comp_bind (comp_lift o) k) Q R.
Proof. intros -> Hk s Hs. by apply Hk. Qed.

Lemma total_put {S E} (P : S -> Prop) (s' : S) (Q : unit -> S -> Prop) (R : E -> S -> Prop) :
  Q tt s' -> total P (comp_put s') Q R.
Proof. intros H s _. apply H. Qed.

Lemma total_conseq {S E A} (P P' : S -> Prop) (c : comp S E A) (Q Q' : A -> S -> Prop)
    (R R' : E -> S -> Prop) :
  total P' c Q' R' -> (forall s, P s -> P' s) -> (forall a s, Q' a s -> Q a s) ->
  (forall e s, R' e s -> R e s) -> total P c Q R.
Proof.
  intros Hc HP HQ HR s Hs. specialize (Hc s (HP s Hs)). destruct (c s); auto.
Qed.

(** ** Integer lemmas and the bit-level tactic *)

Lemma pow2_pos w : 0 <= w -> 0 < 2 ^ w.
Proof. intros. by apply Z.pow_pos_nonneg. Qed.

Lemma wrap_range w z : 0 <= w -> in_u w (wrap w z).
Proof. intros. apply Z.mod_pos_bound. by apply pow2_pos. Qed.

Lemma wrap_small w z : in_u w z -> wrap w z = z.
Proof. apply Z.mod_small. Qed.

Lemma wrap_wrap w z : wrap w (wrap w z) = wrap w z.
Proof. apply Zmod_mod. Qed.

(** Rewriting under [wrap]: addition and subtraction only see the residues. *)
Lemma wrap_add_l w a b : wrap w (wrap w a + b) = wrap w (a + b).
Proof. apply Zplus_mod_idemp_l. Qed.

Lemma wrap_add_r w a b : wrap w (a + wrap w b) = wrap w (a + b).
Proof. apply Zplus_mod_idemp_r. Qed.

Lemma pow2_half w : 0 < w -> 2 ^ w = 2 * 2 ^ (w - 1).
Proof. intros. rewrite <- Z.pow_succ_r by lia. f_equal. lia. Qed.

Lemma sint_range w z : 0 < w -> in_s w (sint w z).
Proof.
  intros Hw. pose proof (wrap_range w z ltac:(lia)) as H.
  pose proof (pow2_half w Hw). pose proof (pow2_pos (w - 1) ltac:(lia)).
  unfold sint, in_s, in_u in *. case_match eqn:E; lia.
Qed.

Lemma sint_mod w z : 0 < w -> wrap w (sint w z) = wrap w z.
Proof.
  intros Hw. unfold sint. case_match; [apply wrap_wrap |].
  unfold wrap. rewrite Zminus_mod, Z_mod_same_full, Z.sub_0_r, !Zmod_mod. done.
Qed.

Lemma sint_wrap w z : sint w (wrap w z) = sint w z.
Proof. unfold sint. by rewrite wrap_wrap. Qed.

Lemma sint_small w z : 0 < w -> in_s w z -> sint w z = z.
Proof.
  intros Hw H. pose proof (pow2_half w Hw) as E.
  pose proof (pow2_pos (w - 1) ltac:(lia)) as P. unfold in_s in H.
  unfold sint, wrap. destruct (decide (0 <= z)).
  - rewrite Z.mod_small by lia. case_match; lia.
  - rewrite <- (Z_mod_plus_full z 1), Z.mul_1_l, Z.mod_small by lia.
    case_match eqn:F; lia.
Qed.

(** The only signed integer of a residue class is its [sint]. *)
Lemma sint_unique w a b : 0 < w -> in_s w a -> wrap w a = wrap w b -> a = sint w b.
Proof. intros Hw Ha E. rewrite <- sint_wrap, <- E, sint_wrap. symmetry. by apply sint_small. Qed.

Lemma wrap_testbit w z i :
  0 <= w -> 0 <= i -> Z.testbit (wrap w z) i = (i <? w) && Z.testbit z i.
Proof.
  intros. unfold wrap. destruct (Z.ltb_spec i w).
  - by rewrite Z.mod_pow2_bits_low by lia.
  - by rewrite Z.mod_pow2_bits_high by lia.
Qed.

Lemma testbit_high w z i : in_u w z -> 0 <= w <= i -> Z.testbit z i = false.
Proof. intros H ?. rewrite <- (wrap_small w z H), wrap_testbit by lia. by rewrite (proj2 (Z.ltb_ge i w)) by lia. Qed.

Lemma sint_testbit w z i :
  0 < w -> 0 <= i ->
  Z.testbit (sint w z) i = Z.testbit z (if i <? w then i else w - 1).
Proof.
  intros Hw Hi. pose proof (wrap_range w z ltac:(lia)) as HR. unfold in_u in HR.
  pose proof (pow2_half w Hw) as E. pose proof (pow2_pos (w - 1) ltac:(lia)) as P.
  assert (Htop : Z.testbit z (w - 1) = negb (wrap w z <? 2 ^ (w - 1))).
  { transitivity (Z.testbit (wrap w z) (w - 1)).
    { rewrite wrap_testbit by lia. by rewrite (proj2 (Z.ltb_lt (w - 1) w)) by lia. }
    destruct (Z.ltb_spec (wrap w z) (2 ^ (w - 1))); cbn.
    - apply testbit_high with (w - 1); unfold in_u; lia.
    - rewrite Z.testbit_true by lia.
      replace (wrap w z / 2 ^ (w - 1)) with 1; [done |].
      apply Z.div_unique with (wrap w z - 2 ^ (w - 1)); lia. }
  unfold sint. destruct (Z.ltb_spec (wrap w z) (2 ^ (w - 1))) as [L | L].
  - rewrite wrap_testbit by lia. destruct (Z.ltb_spec i w); cbn; [done |].
    by rewrite Htop.
  - destruct (Z.ltb_spec i w) as [C | C].
    + rewrite <- (Z.mod_pow2_bits_low _ w) by lia.
      replace ((wrap w z - 2 ^ w) mod 2 ^ w) with (wrap w z).
      * rewrite wrap_testbit by lia. by rewrite (proj2 (Z.ltb_lt _ _) C).
      * unfold wrap. rewrite Zminus_mod, Z_mod_same_full, Z.sub_0_r, !Zmod_mod. done.
    + rewrite Htop.
      replace (wrap w z - 2 ^ w) with (Z.lnot (2 ^ w - 1 - wrap w z)) by (unfold Z.lnot; lia).
      rewrite Z.lnot_spec by lia.
      rewrite (testbit_high w); [done | unfold in_u; lia | lia].
Qed.

Lemma ones_testbit n i : 0 <= n -> Z.testbit (Z.ones n) i = (0 <=? i) && (i <? n).
Proof.
  intros. destruct (Z.leb_spec 0 i).
  - rewrite Z.testbit_ones_nonneg by lia. done.
  - by rewrite Z.testbit_neg_r by lia.
Qed.

Lemma shiftl_testbit x n i :
  0 <= i -> Z.testbit (Z.shiftl x n) i = Z.testbit x (i - n).
Proof. apply Z.shiftl_spec. Qed.

Lemma ushl_testbit w x n i :
  0 <= w -> 0 <= i ->
  Z.testbit (ushl w x n) i = (i <? w) && Z.testbit x (i - n).
Proof. intros. unfold ushl. rewrite wrap_testbit, shiftl_testbit by lia. done. Qed.

Lemma unot_testbit w x i :
  0 <= w -> 0 <= i ->
  Z.testbit (unot w x) i = (i <? w) && negb (Z.testbit x i).
Proof. intros. unfold unot. rewrite wrap_testbit, Z.lnot_spec by lia. done. Qed.

Create Rewrite HintDb rust_bits.
#[export] Hint Rewrite Z.land_spec Z.lor_spec Z.lxor_spec Z.ldiff_spec Z.bits_0 : rust_bits.
#[export] Hint Rewrite wrap_testbit ushl_testbit unot_testbit sint_testbit ones_testbit
  shiftl_testbit Z.shiftr_spec Z.lnot_spec using lia : rust_bits.

(** One case split on a comparison with the bit index, or a bit outside the
    range of a word. *)
Ltac bits_split :=
  match goal with
  | |- context [?a <? ?b] =>
      first [ rewrite (proj2 (Z.ltb_lt a b)) by lia
            | rewrite (proj2 (Z.ltb_ge a b)) by lia
            | destruct (Z.ltb_spec a b) ]
  | |- context [?a <=? ?b] =>
      first [ rewrite (proj2 (Z.leb_le a b)) by lia
            | rewrite (proj2 (Z.leb_gt a b)) by lia
            | destruct (Z.leb_spec a b) ]
  | |- context [Z.testbit ?x ?i] => rewrite (Z.testbit_neg_r x i) by lia
  | H : in_u ?w ?x |- context [Z.testbit ?x ?i] => rewrite (testbit_high w x i H) by lia
  | |- context [Z.testbit ?x (?i - ?k)] =>
      tryif (assert (0 <= i - k) by lia) then fail else destruct (Z.ltb_spec (i - k) 0)
  end.

Ltac bits_norm :=
  rewrite ?andb_false_l, ?andb_false_r, ?andb_true_l, ?andb_true_r,
    ?orb_false_l, ?orb_false_r, ?orb_true_l, ?orb_true_r.

(** Normal form of the bits in the goal, with the case splits it needs. *)
Ltac bits_auto :=
  repeat (progress (autorewrite with rust_bits; bits_norm; try bits_split; cbn [negb]));
  try first [ reflexivity | btauto | (f_equal; lia) | (repeat f_equal; lia) | (exfalso; lia) ].

(** Equality of two integers built from bit operations, bit by bit. *)
Ltac bitblast := apply Z.bits_inj'; intros ?i ?Hi; bits_auto.

Lemma land_range w x y : 0 <= w -> in_u w x -> in_u w (Z.land x y).
Proof.
  intros Hw H. rewrite <- (wrap_small w x H).
  replace (Z.land (wrap w x) y) with (wrap w (Z.land x y)) by bitblast.
  by apply wrap_range.
Qed.

Lemma land_range_r w x y : 0 <= w -> in_u w y -> in_u w (Z.land x y).
Proof. rewrite Z.land_comm. apply land_range. Qed.

Lemma lor_range w x y : 0 <= w -> in_u w x -> in_u w y -> in_u w (Z.lor x y).
Proof.
  intros Hw Hx Hy. replace (Z.lor x y) with (wrap w (Z.lor x y)) by bitblast.
  by apply wrap_range.
Qed.

Lemma lxor_range w x y : 0 <= w -> in_u w x -> in_u w y -> in_u w (Z.lxor x y).
Proof.
  intros Hw Hx Hy. replace (Z.lxor x y) with (wrap w (Z.lxor x y)) by bitblast.
  by apply wrap_range.
Qed.

Lemma shiftr_range w x n : 0 <= w -> 0 <= n -> in_u w x -> in_u w (Z.shiftr x n).
Proof.
  intros Hw Hn Hx. replace (Z.shiftr x n) with (wrap w (Z.shiftr x n)).
  - by apply wrap_range.
  - bitblast.
Qed.

Lemma unot_range w x : 0 <= w -> in_u w (unot w x).
Proof. apply wrap_range. Qed.

Lemma ushl_range w x n : 0 <= w -> in_u w (ushl w x n).
Proof. apply wrap_range. Qed.

Lemma land_ldiff_add x m : Z.land x m + Z.ldiff x m = x.
Proof.
  pose proof (Z.add_lor_land (Z.land x m) (Z.ldiff x m)) as H.
  replace (Z.lor (Z.land x m) (Z.ldiff x m)) with x in H by bitblast.
  replace (Z.land (Z.land x m) (Z.ldiff x m)) with 0 in H by bitblast. lia.
Qed.

Lemma land_le x m : 0 <= x -> 0 <= Z.land x m <= x.
Proof.
  intros Hx. pose proof (land_ldiff_add x m) as H.
  assert (0 <= Z.ldiff x m) by (apply Z.ldiff_nonneg; lia).
  assert (0 <= Z.land x m) by (apply Z.land_nonneg; lia). lia.
Qed.

Create HintDb rust_range.
#[export] Hint Resolve land_range lor_range lxor_range shiftr_range unot_range ushl_range
  wrap_range : rust_range.
#[export] Hint Extern 1 (0 <= _) => lia : rust_range.
#[export] Hint Extern 1 (0 < _) => lia : rust_range.
#[export] Hint Extern 2 (in_u _ _) => (unfold in_u; lia) : rust_range.

(** Ranges of closed terms. *)
Ltac range_compute :=
  unfold in_u; split; [vm_compute; discriminate | vm_compute; reflexivity].

Ltac solve_range := eauto 10 with rust_range.

(** ** Little-endian byte strings *)

(** The [n] bytes of [z], least significant first. *)
Fixpoint le_bytes (n : nat) (z : Z) : list Z :=
  match n with
  | O => []
  | S n => wrap 8 z :: le_bytes n (Z.shiftr z 8)
  end.

Fixpoint le_value (bs : list Z) : Z :=
  match bs with
  | [] => 0
  | b :: bs => b + 2 ^ 8 * le_value bs
  end.

Lemma length_le_bytes n z : length (le_bytes n z) = n.
Proof. revert z. induction n; intros; cbn; auto. Qed.

Lemma le_value_bytes n z : le_value (le_bytes n z) = wrap (8 * Z.of_nat n) z.
Proof.
  revert z. induction n as [|n IH]; intros z; cbn [le_bytes le_value].
  - unfold wrap. by rewrite Z.mul_0_r, Z.mod_1_r.
  - rewrite IH. unfold wrap. rewrite Z.shiftr_div_pow2 by lia.
    replace (8 * Z.of_nat (S n)) with (8 + 8 * Z.of_nat n) by lia.
    rewrite Z.pow_add_r by lia. rewrite Z.rem_mul_r; [done | lia |].
    pose proof (pow2_pos (8 * Z.of_nat n) ltac:(lia)). lia.
Qed.

Lemma le_bytes_ok n z : Forall (in_u 8) (le_bytes n z).
Proof. revert z. induction n; intros; cbn; constructor; auto. by apply wrap_range. Qed.

Lemma le_value_range bs : Forall (in_u 8) bs -> in_u (8 * Z.of_nat (length bs)) (le_value bs).
Proof.
  induction 1 as [|b bs Hb _ IH]; cbn [le_value length]; [unfold in_u; lia |].
  replace (8 * Z.of_nat (S (length bs))) with (8 + 8 * Z.of_nat (length bs)) by lia.
  unfold in_u in *. rewrite Z.pow_add_r by lia. lia.
Qed.

Lemma le_bytes_value bs : Forall (in_u 8) bs -> le_bytes (length bs) (le_value bs) = bs.
Proof.
  induction 1 as [|b bs Hb _ IH]; cbn [le_value length le_bytes]; [done |]. f_equal.
  - unfold wrap. rewrite Z.mul_comm, Z_mod_plus_full. by apply Z.mod_small.
  - rewrite Z.shiftr_div_pow2, Z.mul_comm, Z.div_add by lia.
    by rewrite (Z.div_small b), Z.add_0_l.
Qed.

Lemma le_bytes_lookup n z i :
  (i < n)%nat -> le_bytes n z !! i = Some (wrap 8 (Z.shiftr z (8 * Z.of_nat i))).
Proof.
  revert z i. induction n as [|n IH]; intros z i H; [lia |]. destruct i as [|i]; cbn.
  - done.
  - rewrite IH, Z.shiftr_shiftr by lia. do 3 f_equal. lia.
Qed.

(** The byte string of a value determines the bytes of its truncations. *)
Lemma le_bytes_take m n z : (m <= n)%nat -> take m (le_bytes n z) = le_bytes m z.
Proof.
  revert n z. induction m as [|m IH]; intros [|n] z H; cbn; [done | done | lia |].
  f_equal. apply IH. lia.
Qed.

Lemma le_bytes_wrap n z : le_bytes n (wrap (8 * Z.of_nat n) z) = le_bytes n z.
Proof.
  rewrite <- le_value_bytes.
  pose proof (le_bytes_value (le_bytes n z) (le_bytes_ok n z)) as H.
  by rewrite length_le_bytes in H.
Qed.

(** ** Arrays *)

(** [for i in 0..n { a.write(i, 0) }] on an [n]-element array. *)
Lemma fold_insert_zero n (l : list Z) :
  length l = n -> fold_left (fun r i => <[i := 0]> r) (seq 0 n) l = replicate n 0.
Proof.
  intros Hn. apply list_eq. intros i.
  assert (H : forall k s (l : list Z) i, (s + k <= length l)%nat ->
    fold_left (fun r i => <[i := 0]> r) (seq s k) l !! i
    = if decide (s <= i < s + k)%nat then Some 0 else l !! i).
  { clear. induction k as [|k IH]; intros s l i Hl; cbn [seq fold_left].
    - case_decide; [lia | done].
    - rewrite IH by (rewrite length_insert; lia). repeat case_decide; try lia; try done.
      + assert (i = s) as -> by lia. rewrite list_lookup_insert_eq by lia. done.
      + by rewrite list_lookup_insert_ne by lia. }
  rewrite H by lia. case_decide.
  - symmetry. apply lookup_replicate_2. lia.
  - rewrite (lookup_ge_None_2 l) by lia. symmetry. apply lookup_ge_None_2.
    rewrite length_replicate. lia.
Qed.
