(* ===== verification/Region.v ===== *)
(** State backend regions ([src/src/risc_v/interpreter/src/state_backend.rs],
    [state_backend/region.rs]): the element conversions of [Elem], the
    fixed-length [Region]s behind the register files, [Cell]s and the byte-addressed
    [DynRegion] behind the main memory.  Every [Region] is shown to refine a plain
    list of its elements, which is what the register files are modelled on. *)

From S2P Require Import Prelude.

(** Endianness of the machine the interpreter runs on. *)
Inductive endian := LittleEndian | BigEndian.

(** ** Elements *)
Module Elem.

(** The trait [Elem]: conversions between a value and its stored form.
    [elem_ok] delimits the values of the Rust type. *)
Class Elem (E : Type) := {
  elem_ok : E -> Prop;
  to_stored : E -> E;
  from_stored : E -> E;
  from_to_stored : forall x, elem_ok x -> from_stored (to_stored x) = x;
  stored_ok : forall x, elem_ok x -> elem_ok (to_stored x)
}.

(** [uN::to_le] and [uN::from_le] for an [n]-byte integer: the identity on a
    little-endian host, a byte swap on a big-endian one. *)
Definition swap_bytes (n : nat) (x : Z) : Z := le_value (rev (le_bytes n x)).

Definition to_le (host : endian) (n : nat) (x : Z) : Z :=
  match host with LittleEndian => x | BigEndian => swap_bytes n x end.

Lemma swap_bytes_ok n x : in_u (8 * Z.of_nat n) (swap_bytes n x).
Proof.
  unfold swap_bytes. pose proof (le_value_range (rev (le_bytes n x))) as H.
  rewrite length_rev, length_le_bytes in H. apply H.
  apply List.Forall_rev, le_bytes_ok.
Qed.

Lemma swap_bytes_involutive n x :
  in_u (8 * Z.of_nat n) x -> swap_bytes n (swap_bytes n x) = x.
Proof.
  intros H. unfold swap_bytes.
  assert (Hb : Forall (in_u 8) (rev (le_bytes n x))) by apply List.Forall_rev, le_bytes_ok.
  pose proof (le_bytes_value _ Hb) as E. rewrite length_rev, length_le_bytes in E.
  rewrite E, rev_involutive, le_value_bytes. by apply wrap_small.
Qed.

(** [impl_elem_prim!] for an unsigned [n]-byte integer. *)
#[export, program] Instance prim_elem (host : endian) (n : nat) : Elem Z := {
  elem_ok := in_u (8 * Z.of_nat n);
  to_stored := to_le host n;
  from_stored := to_le host n
}.
Next Obligation. intros [] n x H; cbn; [done | by apply swap_bytes_involutive]. Qed.
Next Obligation. intros [] n x H; cbn; [done | apply swap_bytes_ok]. Qed.

(** [impl Elem for FValue] stores the raw bits. *)
#[export, program] Instance fvalue_elem : Elem Z | 100 := {
  elem_ok := in_u 64;
  to_stored := fun x => x;
  from_stored := fun x => x
}.
Solve All Obligations with done.

(** [impl Elem for [E; LEN]] converts every element. *)
#[export, program] Instance array_elem {E} (el : Elem E) : Elem (list E) := {
  elem_ok := Forall elem_ok;
  to_stored := map to_stored;
  from_stored := map from_stored
}.
Next Obligation.
  intros E el l H. cbn. rewrite map_map. induction H as [|x l Hx _ IH]; cbn; [done |].
  by rewrite from_to_stored, IH.
Qed.
Next Obligation.
  intros E el l H. cbn. apply Forall_map. apply (Forall_impl _ _ _ H).
  intros. by apply stored_ok.
Qed.

End Elem.
Export Elem.

(** ** Regions *)
Module Region.

Section Region.
Context {E : Type} `{Elem E}.

(** [impl Region for [E; LEN]]: a region holds the stored elements.  An index
    or a slice out of bounds panics. *)
Local Abbreviation region := (list E).

Definition read (r : region) (index : nat) : option E := from_stored <$> r !! index.

Definition read_all (r : region) : list E := map from_stored r.

(** [read_some(offset, buffer)] with [n = buffer.len()]; the result is the
    filled buffer. *)
Definition read_some (r : region) (offset n : nat) : option (list E) :=
  if (offset + n <=? length r)%nat
  then Some (map from_stored (take n (drop offset r))) else None.

Definition write (r : region) (index : nat) (value : E) : option region :=
  if (index <? length r)%nat then Some (<[index := to_stored value]> r) else None.

(** [copy_from_slice] panics when the lengths differ. *)
Definition write_all (r : region) (value : list E) : option region :=
  if (length value =? length r)%nat then Some (map to_stored value) else None.

Definition write_some (r : region) (index : nat) (buffer : list E) : option region :=
  if (index + length buffer <=? length r)%nat
  then Some (take index r ++ map to_stored buffer ++ drop (index + length buffer) r)
  else None.

Definition replace (r : region) (index : nat) (value : E) : option (E * region) :=
  let value := to_stored value in
  match r !! index with
  | Some old => Some (from_stored old, <[index := value]> r)
  | None => None
  end.

(** [impl Region for &T]: writing through a shared reference panics. *)
Definition ro_write (r : region) (index : nat) (value : E) : option region := None.

(** [Cell]: a region of one element. *)
Definition cell_read (r : region) : option E := read r 0.

Definition cell_write (r : region) (value : E) : option region := write r 0 value.

(** The elements a region holds, as its users see them. *)
Definition contents (r : region) : list E := map from_stored r.

Lemma contents_length r : length (contents r) = length r.
Proof. apply length_map. Qed.

Lemma contents_lookup r i : contents r !! i = from_stored <$> r !! i.
Proof. unfold contents. apply list_lookup_fmap. Qed.

Lemma contents_insert r i v :
  elem_ok v -> contents (<[i := to_stored v]> r) = <[i := v]> (contents r).
Proof.
  intros Hv. unfold contents. change (map from_stored) with (fmap (M := list) from_stored).
  rewrite list_fmap_insert. by rewrite from_to_stored.
Qed.

Lemma contents_map_to_stored l : Forall elem_ok l -> contents (map to_stored l) = l.
Proof.
  intros Hl. unfold contents. rewrite map_map.
  induction Hl as [|x l Hx _ IH]; cbn; [done |]. by rewrite from_to_stored, IH.
Qed.

(** Refinement of plain lists: every operation of a region acts on [contents]
    as the list operation it stands for, on either host, and panics exactly
    when the list index or slice is out of range. *)
Lemma write_refines r i v :
  elem_ok v ->
  contents <$> write r i v
  = (if decide (i < length (contents r))%nat then Some (<[i := v]> (contents r)) else None).
Proof.
  intros Hv. unfold write. rewrite contents_length.
  destruct (Nat.ltb_spec i (length r)); case_decide; try lia; cbn; [|done].
  by rewrite contents_insert.
Qed.

Lemma write_some_refines r i l :
  Forall elem_ok l ->
  contents <$> write_some r i l
  = (if decide (i + length l <= length (contents r))%nat
     then Some (take i (contents r) ++ l ++ drop (i + length l) (contents r)) else None).
Proof.
  intros Hl. unfold write_some. rewrite contents_length.
  destruct (Nat.leb_spec (i + length l) (length r)); case_decide; try lia; cbn; [|done].
  pose proof (contents_map_to_stored l Hl) as El. unfold contents in *.
  by rewrite !map_app, firstn_map, skipn_map, El.
Qed.

Lemma replace_refines r i v :
  elem_ok v ->
  prod_map id contents <$> replace r i v
  = (old ← contents r !! i; Some (old, <[i := v]> (contents r))).
Proof.
  intros Hv. unfold replace. rewrite contents_lookup.
  destruct (r !! i); cbn; [|done]. by rewrite contents_insert.
Qed.

End Region.
End Region.

(** ** Dynamic regions *)
Module DynRegion.

(** [impl DynRegion for [u8; LEN]]: the bytes of the region by address, 0 where
    nothing was written (the backing storage is allocated zeroed). *)
Abbreviation bytes := (gmap Z Z).

Definition get (m : bytes) (a : Z) : Z := default 0 (m !! a).

(** [n] consecutive bytes from [address]. *)
Fixpoint read_bytes (m : bytes) (address : Z) (n : nat) : list Z :=
  match n with
  | O => []
  | S n => get m address :: read_bytes m (address + 1) n
  end.

Fixpoint write_bytes (m : bytes) (address : Z) (bs : list Z) : bytes :=
  match bs with
  | [] => m
  | b :: bs => write_bytes (<[address := b]> m) (address + 1) bs
  end.

(** The memory representation of an [n]-byte integer on the host: the accesses
    go through raw pointers and do not convert to the stored form. *)
Definition host_bytes (host : endian) (n : nat) (v : Z) : list Z :=
  match host with LittleEndian => le_bytes n v | BigEndian => rev (le_bytes n v) end.

Definition host_value (host : endian) (bs : list Z) : Z :=
  match host with LittleEndian => le_value bs | BigEndian => le_value (rev bs) end.

Section DynRegion.
Context (host : endian) (LEN : Z).

(** [read::<E>(address)] for an [n]-byte [E]; the assertion panics out of bounds. *)
Definition dyn_read (m : bytes) (n : nat) (address : Z) : option Z :=
  if address + Z.of_nat n <=? LEN then Some (host_value host (read_bytes m address n)) else None.

Definition dyn_write (m : bytes) (n : nat) (address value : Z) : option bytes :=
  if address + Z.of_nat n <=? LEN
  then Some (write_bytes m address (host_bytes host n value)) else None.

(** [write_all::<u8>]: the only element type the interpreter uses it at. *)
Definition dyn_write_all (m : bytes) (address : Z) (values : list Z) : option bytes :=
  if address + Z.of_nat (length values) <=? LEN
  then Some (write_bytes m address values) else None.

End DynRegion.

Lemma length_read_bytes m a n : length (read_bytes m a n) = n.
Proof. revert a. induction n; intros; cbn; auto. Qed.

Lemma get_insert m a b c : get (<[a := b]> m) c = if decide (a = c) then b else get m c.
Proof. unfold get. rewrite lookup_insert. by case_decide. Qed.

Lemma get_write_bytes bs : forall m a c,
  get (write_bytes m a bs) c
  = if decide (a <= c < a + Z.of_nat (length bs))
    then bs !!! Z.to_nat (c - a) else get m c.
Proof.
  induction bs as [|b bs IH]; intros m a c; cbn [write_bytes length].
  - case_decide; [lia | done].
  - rewrite IH, get_insert. repeat case_decide; try lia; subst.
    + replace (Z.to_nat (c - a)) with (S (Z.to_nat (c - (a + 1)))) by lia. done.
    + by replace (Z.to_nat (c - c)) with 0%nat by lia.
Qed.

(** Reading inside a written block gives the block's bytes. *)
Lemma read_write_bytes_inside bs m a k n :
  (k + n <= length bs)%nat ->
  read_bytes (write_bytes m a bs) (a + Z.of_nat k) n = take n (drop k bs).
Proof.
  revert k. induction n as [|n IH]; intros k Hk; cbn [read_bytes]; [done |].
  replace (a + Z.of_nat k + 1) with (a + Z.of_nat (S k)) by lia.
  rewrite IH by lia. rewrite get_write_bytes, decide_True by lia.
  replace (Z.to_nat (a + Z.of_nat k - a)) with k by lia.
  destruct (lookup_lt_is_Some_2 bs k ltac:(lia)) as [b Hb].
  rewrite (drop_S bs b k Hb). cbn. by rewrite (list_lookup_total_correct _ _ _ Hb).
Qed.

(** A write does not change the bytes outside it. *)
Lemma read_write_bytes_outside bs m a c n :
  c + Z.of_nat n <= a \/ a + Z.of_nat (length bs) <= c ->
  read_bytes (write_bytes m a bs) c n = read_bytes m c n.
Proof.
  revert c. induction n as [|n IH]; intros c Hc; cbn [read_bytes]; [done |].
  rewrite IH by lia. by rewrite get_write_bytes, decide_False by lia.
Qed.

Lemma host_value_bytes host n v : host_value host (host_bytes host n v) = wrap (8 * Z.of_nat n) v.
Proof. destruct host; cbn; rewrite ?rev_involutive; apply le_value_bytes. Qed.

Lemma length_host_bytes host n v : length (host_bytes host n v) = n.
Proof. destruct host; cbn; rewrite ?length_rev; apply length_le_bytes. Qed.

End DynRegion.
