(* ===== verification/Registers.v ===== *)
(** Register files ([src/src/risc_v/interpreter/src/machine_state/registers.rs]):
    the integer registers with the hard-wired zero, the floating-point registers,
    and the parsers of register indices. *)

From S2P Require Import Prelude.

Module Registers.

(** Integer register index. *)
Inductive XRegister : Type :=
| x0
| x1
| x2
| x3
| x4
| x5
| x6
| x7
| x8
| x9
| x10
| x11
| x12
| x13
| x14
| x15
| x16
| x17
| x18
| x19
| x20
| x21
| x22
| x23
| x24
| x25
| x26
| x27
| x28
| x29
| x30
| x31.

#[export] Instance XRegister_eq_dec : EqDecision XRegister.
Proof. solve_decision. Defined.

(** ABI register names. *)
Definition zero : XRegister := x0.
Definition ra : XRegister := x1.
Definition sp : XRegister := x2.
Definition gp : XRegister := x3.
Definition tp : XRegister := x4.
Definition t0 : XRegister := x5.
Definition t1 : XRegister := x6.
Definition t2 : XRegister := x7.
Definition s0 : XRegister := x8.
Definition fp : XRegister := x8.
Definition s1 : XRegister := x9.
Definition a0 : XRegister := x10.
Definition a1 : XRegister := x11.
Definition a2 : XRegister := x12.
Definition a3 : XRegister := x13.
Definition a4 : XRegister := x14.
Definition a5 : XRegister := x15.
Definition a6 : XRegister := x16.
Definition a7 : XRegister := x17.
Definition s2 : XRegister := x18.
Definition s3 : XRegister := x19.
Definition s4 : XRegister := x20.
Definition s5 : XRegister := x21.
Definition s6 : XRegister := x22.
Definition s7 : XRegister := x23.
Definition s8 : XRegister := x24.
Definition s9 : XRegister := x25.
Definition s10 : XRegister := x26.
Definition s11 : XRegister := x27.
Definition t3 : XRegister := x28.
Definition t4 : XRegister := x29.
Definition t5 : XRegister := x30.
Definition t6 : XRegister := x31.

(** [parse_xregister]: [None] is the panic on an invalid index. *)
Definition parse_xregister (r : Z) : option XRegister :=
  match r with
  | 0 => Some x0
  | 1 => Some x1
  | 2 => Some x2
  | 3 => Some x3
  | 4 => Some x4
  | 5 => Some x5
  | 6 => Some x6
  | 7 => Some x7
  | 8 => Some x8
  | 9 => Some x9
  | 10 => Some x10
  | 11 => Some x11
  | 12 => Some x12
  | 13 => Some x13
  | 14 => Some x14
  | 15 => Some x15
  | 16 => Some x16
  | 17 => Some x17
  | 18 => Some x18
  | 19 => Some x19
  | 20 => Some x20
  | 21 => Some x21
  | 22 => Some x22
  | 23 => Some x23
  | 24 => Some x24
  | 25 => Some x25
  | 26 => Some x26
  | 27 => Some x27
  | 28 => Some x28
  | 29 => Some x29
  | 30 => Some x30
  | 31 => Some x31
  | _ => None
  end.

Definition is_zero (reg : XRegister) : bool := bool_decide (reg = x0).

(** [reg as usize]: the index into the 31-element array, with the dummy index
    of [x0]. *)
Definition xindex (reg : XRegister) : Z :=
  match reg with
  | x0 => 65535
  | x1 => 0
  | x2 => 1
  | x3 => 2
  | x4 => 3
  | x5 => 4
  | x6 => 5
  | x7 => 6
  | x8 => 7
  | x9 => 8
  | x10 => 9
  | x11 => 10
  | x12 => 11
  | x13 => 12
  | x14 => 13
  | x15 => 14
  | x16 => 15
  | x17 => 16
  | x18 => 17
  | x19 => 18
  | x20 => 19
  | x21 => 20
  | x22 => 21
  | x23 => 22
  | x24 => 23
  | x25 => 24
  | x26 => 25
  | x27 => 26
  | x28 => 27
  | x29 => 28
  | x30 => 29
  | x31 => 30
  end.

(** The values of the 31 stored registers. *)
Record XRegisters : Type := mkXRegisters { xregs : list Z }.

Definition xread (self : XRegisters) (reg : XRegister) : Z :=
  if is_zero reg then 0 else xregs self !!! Z.to_nat (xindex reg).

Definition xwrite (self : XRegisters) (reg : XRegister) (val : Z) : XRegisters :=
  if is_zero reg then self else mkXRegisters (<[Z.to_nat (xindex reg) := val]> (xregs self)).

(** [for i in 0..31 { self.registers.write(i, 0) }] *)
Definition xreset (self : XRegisters) : XRegisters :=
  mkXRegisters (fold_left (fun r i => <[i := 0]> r) (seq 0 31) (xregs self)).

(** Floating-point register index. *)
Inductive FRegister : Type :=
| f0
| f1
| f2
| f3
| f4
| f5
| f6
| f7
| f8
| f9
| f10
| f11
| f12
| f13
| f14
| f15
| f16
| f17
| f18
| f19
| f20
| f21
| f22
| f23
| f24
| f25
| f26
| f27
| f28
| f29
| f30
| f31.

#[export] Instance FRegister_eq_dec : EqDecision FRegister.
Proof. solve_decision. Defined.

Definition parse_fregister (r : Z) : option FRegister :=
  match r with
  | 0 => Some f0
  | 1 => Some f1
  | 2 => Some f2
  | 3 => Some f3
  | 4 => Some f4
  | 5 => Some f5
  | 6 => Some f6
  | 7 => Some f7
  | 8 => Some f8
  | 9 => Some f9
  | 10 => Some f10
  | 11 => Some f11
  | 12 => Some f12
  | 13 => Some f13
  | 14 => Some f14
  | 15 => Some f15
  | 16 => Some f16
  | 17 => Some f17
  | 18 => Some f18
  | 19 => Some f19
  | 20 => Some f20
  | 21 => Some f21
  | 22 => Some f22
  | 23 => Some f23
  | 24 => Some f24
  | 25 => Some f25
  | 26 => Some f26
  | 27 => Some f27
  | 28 => Some f28
  | 29 => Some f29
  | 30 => Some f30
  | 31 => Some f31
  | _ => None
  end.

Definition findex (reg : FRegister) : nat :=
  match reg with
  | f0 => 0
  | f1 => 1
  | f2 => 2
  | f3 => 3
  | f4 => 4
  | f5 => 5
  | f6 => 6
  | f7 => 7
  | f8 => 8
  | f9 => 9
  | f10 => 10
  | f11 => 11
  | f12 => 12
  | f13 => 13
  | f14 => 14
  | f15 => 15
  | f16 => 16
  | f17 => 17
  | f18 => 18
  | f19 => 19
  | f20 => 20
  | f21 => 21
  | f22 => 22
  | f23 => 23
  | f24 => 24
  | f25 => 25
  | f26 => 26
  | f27 => 27
  | f28 => 28
  | f29 => 29
  | f30 => 30
  | f31 => 31
  end.

(** The raw 64-bit values of the 32 floating-point registers. *)
Record FRegisters : Type := mkFRegisters { fregs : list Z }.

Definition fread (self : FRegisters) (reg : FRegister) : Z := fregs self !!! findex reg.

Definition fwrite (self : FRegisters) (reg : FRegister) (val : Z) : FRegisters :=
  mkFRegisters (<[findex reg := val]> (fregs self)).

Definition freset (self : FRegisters) : FRegisters :=
  mkFRegisters (fold_left (fun r i => <[i := 0]> r) (seq 0 32) (fregs self)).

(** The instruction field that encodes a register. *)
Definition xcode (reg : XRegister) : Z :=
  match reg with
  | x0 => 0
  | x1 => 1
  | x2 => 2
  | x3 => 3
  | x4 => 4
  | x5 => 5
  | x6 => 6
  | x7 => 7
  | x8 => 8
  | x9 => 9
  | x10 => 10
  | x11 => 11
  | x12 => 12
  | x13 => 13
  | x14 => 14
  | x15 => 15
  | x16 => 16
  | x17 => 17
  | x18 => 18
  | x19 => 19
  | x20 => 20
  | x21 => 21
  | x22 => 22
  | x23 => 23
  | x24 => 24
  | x25 => 25
  | x26 => 26
  | x27 => 27
  | x28 => 28
  | x29 => 29
  | x30 => 30
  | x31 => 31
  end.

Definition fcode (reg : FRegister) : Z := Z.of_nat (findex reg).

(** Well-formedness: the arrays have their declared length and hold 64-bit
    values. *)
Definition xregs_wf (self : XRegisters) : Prop :=
  length (xregs self) = 31%nat /\ Forall (in_u 64) (xregs self).

Definition fregs_wf (self : FRegisters) : Prop :=
  length (fregs self) = 32%nat /\ Forall (in_u 64) (fregs self).

(** ** Lemmas *)

Lemma is_zero_true reg : is_zero reg = true <-> reg = x0.
Proof. apply bool_decide_eq_true. Qed.

(** Every register but [x0] has an index inside the array. *)
Lemma xindex_lt reg : reg <> x0 -> 0 <= xindex reg < 31.
Proof. destruct reg; cbn; intros; try congruence; lia. Qed.

Lemma xindex_inj r1 r2 : xindex r1 = xindex r2 -> r1 = r2.
Proof. destruct r1; destruct r2; cbn; intros H; try reflexivity; discriminate H. Qed.

Lemma findex_lt reg : (findex reg < 32)%nat.
Proof. destruct reg; cbn; lia. Qed.

Lemma parse_xcode reg : parse_xregister (xcode reg) = Some reg.
Proof. by destruct reg. Qed.

Lemma xcode_range reg : in_u 5 (xcode reg).
Proof. destruct reg; unfold in_u; cbn; lia. Qed.

(** Every 5-bit field parses, to the register it encodes. *)
Lemma parse_xregister_total r : in_u 5 r -> exists reg, parse_xregister r = Some reg /\ xcode reg = r.
Proof.
  intros H. unfold in_u in H. change (2 ^ 5) with 32 in H.
  assert (Hr : In r (map Z.of_nat (seq 0 32))).
  { apply in_map_iff. exists (Z.to_nat r). split; [lia |]. apply in_seq. lia. }
  cbn in Hr. repeat (destruct Hr as [<- | Hr]; [eexists; split; reflexivity |]). done.
Qed.

(** The length-and-range invariant of an array. *)
Lemma Forall_insert_in_u w (l : list Z) i v :
  Forall (in_u w) l -> in_u w v -> Forall (in_u w) (<[i := v]> l).
Proof. apply Forall_insert. Qed.

Lemma xread_range x reg : xregs_wf x -> in_u 64 (xread x reg).
Proof.
  intros [Hl Hf]. unfold xread. destruct (is_zero reg) eqn:E; [unfold in_u; lia |].
  assert (reg <> x0) by (intros ->; done).
  destruct (lookup_lt_is_Some_2 (xregs x) (Z.to_nat (xindex reg))) as [v Hv].
  { pose proof (xindex_lt reg ltac:(done)). lia. }
  rewrite (list_lookup_total_correct _ _ _ Hv). by apply (Forall_lookup_1 _ _ _ _ Hf Hv).
Qed.

Lemma xwrite_wf x reg v : xregs_wf x -> in_u 64 v -> xregs_wf (xwrite x reg v).
Proof.
  intros [Hl Hf] Hv. unfold xwrite. destruct (is_zero reg); [done |].
  split; cbn; [by rewrite length_insert | by apply Forall_insert].
Qed.

#[export] Hint Resolve xread_range xwrite_wf : rust_range.

(** Reads after a write. *)
Lemma xread_xwrite x r1 r2 v :
  xregs_wf x ->
  xread (xwrite x r1 v) r2 = if decide (r1 = r2 /\ r2 <> x0) then v else xread x r2.
Proof.
  intros [Hl Hf]. unfold xread, xwrite. destruct (is_zero r2) eqn:E2.
  { apply is_zero_true in E2 as ->. case_decide; [by destruct_and! |done]. }
  assert (H2 : r2 <> x0) by (intros ->; done).
  destruct (is_zero r1) eqn:E1.
  { apply is_zero_true in E1 as ->. case_decide; [by destruct_and! |done]. }
  cbn [xregs]. pose proof (xindex_lt r2 H2). case_decide as D.
  - destruct D as [-> _]. by rewrite list_lookup_total_insert_eq by lia.
  - rewrite list_lookup_total_insert_ne; [done |]. intros Hx. apply D. split; [|done].
    assert (H1 : r1 <> x0) by (intros ->; done). pose proof (xindex_lt r1 H1).
    apply xindex_inj. lia.
Qed.

(** A reset leaves every integer register at 0. *)
Lemma xreset_spec x : xregs_wf x -> xreset x = mkXRegisters (replicate 31 0).
Proof. intros [Hl _]. unfold xreset. by rewrite fold_insert_zero. Qed.

Lemma freset_spec f : fregs_wf f -> freset f = mkFRegisters (replicate 32 0).
Proof. intros [Hl _]. unfold freset. by rewrite fold_insert_zero. Qed.

Lemma xreset_wf x : xregs_wf x -> xregs_wf (xreset x).
Proof.
  intros H. rewrite xreset_spec by done. split; cbn [xregs]; [done |].
  apply Forall_replicate. unfold in_u. lia.
Qed.

Lemma freset_wf f : fregs_wf f -> fregs_wf (freset f).
Proof.
  intros H. rewrite freset_spec by done. split; cbn [fregs]; [done |].
  apply Forall_replicate. unfold in_u. lia.
Qed.

End Registers.
Export Registers.
