(* ===== verification/Mode.v ===== *)
(** Privilege modes ([src/src/risc_v/interpreter/src/machine_state/mode.rs] and the
    [Privilege] of [machine_state/csregisters.rs]): the modes a hart runs in, the
    cell that stores the mode as a byte, and the modes a trap can be taken to. *)

From S2P Require Import Prelude.

Module Mode.

(** Privilege required to access a CSR. *)
Inductive Privilege : Type :=
| Unprivileged
| PSupervisor
| PHypervisor
| PMachine.

(** The discriminants, which the derived ordering compares. *)
Definition privilege_code (p : Privilege) : Z :=
  match p with
  | Unprivileged => 0
  | PSupervisor => 1
  | PHypervisor => 2
  | PMachine => 3
  end.

Definition privilege_lt (p q : Privilege) : bool := privilege_code p <? privilege_code q.

(** Modes the hardware state can be in when running code. *)
Inductive Mode : Type :=
| User
| Supervisor
| Machine.

#[export] Instance Mode_eq_dec : EqDecision Mode.
Proof. solve_decision. Defined.

(** [mode as u8]. *)
Definition mode_code (m : Mode) : Z :=
  match m with
  | User => 0
  | Supervisor => 1
  | Machine => 3
  end.

(** The derived [PartialOrd] on modes. *)
Definition mode_le (m n : Mode) : bool := mode_code m <=? mode_code n.

Definition mode_privilege (m : Mode) : Privilege :=
  match m with
  | User => Unprivileged
  | Supervisor => PSupervisor
  | Machine => PMachine
  end.

(** [TryFrom<u8> for Mode]. *)
Definition mode_try_from (value : Z) : result Mode unit :=
  match value with
  | 0 => Ok User
  | 1 => Ok Supervisor
  | 3 => Ok Machine
  | _ => Err tt
  end.

(** [ModeCell]: the byte that stores the mode.  [read] unwraps the conversion
    and panics on a byte that is no mode. *)
Definition mode_write (cell : Z) (mode : Mode) : Z := mode_code mode.

Definition mode_read (cell : Z) : option Mode :=
  match mode_try_from cell with
  | Ok m => Some m
  | Err _ => None
  end.

Definition mode_reset (cell : Z) : Z := mode_write cell Machine.

(** Modes the hardware state can trap into. *)
Inductive TrapMode : Type :=
| TSupervisor
| TMachine.

#[export] Instance TrapMode_eq_dec : EqDecision TrapMode.
Proof. solve_decision. Defined.

Definition as_mode (t : TrapMode) : Mode :=
  match t with
  | TSupervisor => Supervisor
  | TMachine => Machine
  end.

(** The byte holds a mode. *)
Definition mode_wf (cell : Z) : Prop := is_Some (mode_read cell).

Lemma mode_read_code m : mode_read (mode_code m) = Some m.
Proof. by destruct m. Qed.

Lemma mode_read_write cell m : mode_read (mode_write cell m) = Some m.
Proof. apply mode_read_code. Qed.

Lemma mode_code_inj m n : mode_code m = mode_code n -> m = n.
Proof. destruct m, n; cbn; congruence || lia. Qed.

Lemma mode_write_wf cell m : mode_wf (mode_write cell m).
Proof. eexists. apply mode_read_write. Qed.

(** The byte is determined by the mode it reads as. *)
Lemma mode_read_Some cell m : mode_read cell = Some m -> cell = mode_code m.
Proof.
  unfold mode_read, mode_try_from. intros H.
  destruct cell as [|p|]; [by simplify_eq/= | | done].
  destruct p as [[|[]|]|[|[]|]|]; by simplify_eq/=.
Qed.

End Mode.
Export Mode.
