(* ===== verification/Traps.v ===== *)
(** Traps ([src/src/risc_v/interpreter/src/traps.rs]): exceptions, interrupts,
    the exceptions left to the execution environment, and the [TrapContext]
    interface through which the hart takes either kind of trap. *)

From S2P Require Import Prelude.

Module Traps.

(** Exceptions handled by the execution environment. *)
Inductive EnvironException : Type :=
| EEnvCallFromUMode
| EEnvCallFromSMode
| EEnvCallFromMMode.

#[export] Instance EnvironException_eq_dec : EqDecision EnvironException.
Proof. solve_decision. Defined.

(** RISC-V exceptions; the access faults carry the faulting address. *)
Inductive Exception : Type :=
| InstructionAccessFault (addr : Z)
| IllegalInstruction
| Breakpoint
| LoadAccessFault (addr : Z)
| StoreAccessFault (addr : Z)
| EnvCallFromUMode
| EnvCallFromSMode
| EnvCallFromMMode.

#[export] Instance Exception_eq_dec : EqDecision Exception.
Proof. solve_decision. Defined.

Definition as_exception (e : EnvironException) : Exception :=
  match e with
  | EEnvCallFromUMode => EnvCallFromUMode
  | EEnvCallFromSMode => EnvCallFromSMode
  | EEnvCallFromMMode => EnvCallFromMMode
  end.

(** [TryFrom<&Exception> for EnvironException]. *)
Definition environ_try_from (e : Exception) : result EnvironException unit :=
  match e with
  | EnvCallFromUMode => Ok EEnvCallFromUMode
  | EnvCallFromSMode => Ok EEnvCallFromSMode
  | EnvCallFromMMode => Ok EEnvCallFromMMode
  | Breakpoint
  | IllegalInstruction
  | InstructionAccessFault _
  | LoadAccessFault _
  | StoreAccessFault _ => Err tt
  end.

(** RISC-V interrupts. *)
Inductive Interrupt : Type :=
| SupervisorSoftware
| MachineSoftware
| SupervisorTimer
| MachineTimer
| SupervisorExternal
| MachineExternal.

#[export] Instance Interrupt_eq_dec : EqDecision Interrupt.
Proof. solve_decision. Defined.

Definition exception_code_const (i : Interrupt) : Z :=
  match i with
  | SupervisorSoftware => 1
  | MachineSoftware => 3
  | SupervisorTimer => 5
  | MachineTimer => 7
  | SupervisorExternal => 9
  | MachineExternal => 11
  end.

(** Bitmask of all supervisor interrupts. *)
Definition SUPERVISOR_BIT_MASK : Z :=
  Z.lor (Z.lor (ushl 64 1 (exception_code_const SupervisorSoftware))
               (ushl 64 1 (exception_code_const SupervisorTimer)))
        (ushl 64 1 (exception_code_const SupervisorExternal)).

(** Bitmask of all machine interrupts. *)
Definition MACHINE_BIT_MASK : Z :=
  Z.lor (Z.lor (ushl 64 1 (exception_code_const MachineSoftware))
               (ushl 64 1 (exception_code_const MachineTimer)))
        (ushl 64 1 (exception_code_const MachineExternal)).

Inductive TrapKind : Type :=
| KInterrupt
| KException.

(** The trait [TrapContext]; [trap_handler_address] can panic on overflow. *)
Class TrapContext (TC : Type) := {
  xtval : TC -> Z;
  exception_code : TC -> Z;
  xcause : TC -> Z;
  trap_handler_address : TC -> Z -> option Z;
  kind : TrapKind
}.

Definition exc_code (e : Exception) : Z :=
  match e with
  | InstructionAccessFault _ => 1
  | IllegalInstruction => 2
  | Breakpoint => 3
  | LoadAccessFault _ => 5
  | StoreAccessFault _ => 7
  | EnvCallFromUMode => 8
  | EnvCallFromSMode => 9
  | EnvCallFromMMode => 11
  end.

Definition exc_xtval (e : Exception) : Z :=
  match e with
  | IllegalInstruction
  | Breakpoint
  | EnvCallFromUMode
  | EnvCallFromSMode
  | EnvCallFromMMode => 0
  | InstructionAccessFault addr => addr
  | LoadAccessFault addr => addr
  | StoreAccessFault addr => addr
  end.

Definition exc_handler_address (xtvec_val : Z) : Z := Z.land xtvec_val (unot 64 3).

#[export] Instance exception_context : TrapContext Exception := {
  xtval := exc_xtval;
  exception_code := exc_code;
  xcause := exc_code;
  trap_handler_address := fun _ xtvec_val => Some (exc_handler_address xtvec_val);
  kind := KException
}.

Definition int_xcause (i : Interrupt) : Z :=
  Z.lor (ushl 64 1 (64 - 1)) (exception_code_const i).

(** Direct and vectored trap vectors; the final sum is checked. *)
Definition int_handler_address (i : Interrupt) (xtvec_val : Z) : option Z :=
  let xtvec_mode := Z.land xtvec_val 3 in
  let xtvec_base := Z.land xtvec_val (unot 64 3) in
  let handler_offset := if xtvec_mode =? 1 then 4 * exception_code_const i else 0 in
  checked_add 64 xtvec_base handler_offset.

#[export] Instance interrupt_context : TrapContext Interrupt := {
  xtval := fun _ => 0;
  exception_code := exception_code_const;
  xcause := int_xcause;
  trap_handler_address := int_handler_address;
  kind := KInterrupt
}.

(** What the hart relies on of a trap source: the cause and the trap value are
    64-bit values, the code is a bit index of the delegation registers, and a
    handler address is a 64-bit value. *)
Class TrapContextOk (TC : Type) `{TrapContext TC} (valid : TC -> Prop) := {
  xtval_range : forall t, valid t -> in_u 64 (xtval t);
  xcause_range : forall t, in_u 64 (xcause t);
  exception_code_range : forall t, 0 <= exception_code t < 16;
  trap_handler_range : forall t v a,
    in_u 64 v -> trap_handler_address t v = Some a -> in_u 64 a;
  trap_handler_total : forall t v,
    in_u 64 v -> v < 2 ^ 64 - 64 -> is_Some (trap_handler_address t v)
}.

(** The exceptions whose faulting address is a 64-bit address. *)
Definition exception_valid (e : Exception) : Prop := in_u 64 (exc_xtval e).

#[export] Instance exception_context_ok : TrapContextOk Exception exception_valid.
Proof.
  split.
  - done.
  - intros []; range_compute.
  - intros []; cbn; lia.
  - intros t v a Hv [= <-]. unfold exc_handler_address. solve_range.
  - intros t v Hv _. by eexists.
Qed.

#[export] Instance interrupt_context_ok : TrapContextOk Interrupt (fun _ => True).
Proof.
  split.
  - intros. cbn. unfold in_u. lia.
  - intros []; range_compute.
  - intros []; cbn; lia.
  - cbn. unfold int_handler_address, checked_add. intros t v a Hv H.
    case_match eqn:E; [|done]. injection H as <-.
    pose proof (land_le v (unot 64 3)). unfold in_u in *.
    destruct (_ =? 1), t; cbn [exception_code_const] in *; lia.
  - cbn. unfold int_handler_address, checked_add. intros t v Hv Hb.
    pose proof (land_le v (unot 64 3)). unfold in_u in *.
    rewrite (proj2 (Z.ltb_lt _ _)); [done |]. destruct (_ =? 1), t; cbn [exception_code_const] in *; lia.
Qed.

(** Converting an environment exception back and forth. *)
Lemma environ_as_exception e : environ_try_from (as_exception e) = Ok e.
Proof. by destruct e. Qed.

Lemma environ_try_from_Ok e ee : environ_try_from e = Ok ee -> e = as_exception ee.
Proof. destruct e; cbn; intros [= <-]; done. Qed.

End Traps.
Export Traps.
