(* ===== verification/CSRFields.v ===== *)
(** Fields of control and status registers
    ([src/src/risc_v/interpreter/src/machine_state/csregisters/fields.rs],
    [xstatus.rs] and [satp.rs]): the [FieldValue] interface, the getters and
    setters the [create_field!] macro generates, the fields of [mstatus],
    [sstatus], [mnstatus] and [satp], and their WARL rules. *)

From S2P Require Import Prelude.

Module Fields.

(** [ones(n)]: the bitmask formed of [n] ones, [0 < n <= 64]. *)
Definition ones (n : Z) : Z := Z.shiftr (2 ^ 64 - 1) (64 - n).

(** The trait [FieldValue]. *)
Class FieldValue (F : Type) := {
  field_new : Z -> F;
  raw_bits : F -> Z
}.

(** [create_get_field!] *)
Definition get_field {F} `{FieldValue F} (offset width mstatus : Z) : F :=
  field_new (Z.land (Z.shiftr mstatus offset) (ones width)).

(** [create_set_field!] *)
Definition set_field {F} `{FieldValue F} (offset width mstatus : Z) (new_value : F) : Z :=
  let field_bits := Z.land (raw_bits new_value) (ones width) in
  let mstatus := Z.land mstatus (unot 64 (ushl 64 (ones width) offset)) in
  Z.lor mstatus (ushl 64 field_bits offset).

(** [impl FieldValue for UnsignedValue] *)
Record UnsignedValue := mkUnsignedValue { uv_bits : Z }.

#[export] Instance unsigned_field : FieldValue UnsignedValue := {
  field_new := mkUnsignedValue;
  raw_bits := uv_bits
}.

(** The bits of a register between [offset] and [offset + width]. *)
Definition raw_get (offset width x : Z) : Z := Z.land (Z.shiftr x offset) (Z.ones width).

Lemma ones_spec n : 0 < n <= 64 -> ones n = Z.ones n.
Proof. intros. unfold ones. change (2 ^ 64 - 1) with (Z.ones 64). bitblast. Qed.

Lemma raw_get_testbit o w x i :
  0 <= o -> 0 <= w -> 0 <= i ->
  Z.testbit (raw_get o w x) i = (i <? w) && Z.testbit x (i + o).
Proof. intros. unfold raw_get. bits_auto. Qed.

Lemma raw_get_range o w x : 0 <= w -> in_u w (raw_get o w x).
Proof. intros. unfold raw_get. rewrite Z.land_ones by lia. by apply wrap_range. Qed.

Section Field.
Context {F : Type} `{FieldValue F}.

Lemma get_field_raw o w x : 0 < w <= 64 -> get_field (F := F) o w x = field_new (raw_get o w x).
Proof. intros. unfold get_field. by rewrite ones_spec. Qed.

(** A written field holds the written bits; every other bit is kept. *)
Lemma set_field_testbit o w x (v : F) i :
  0 <= o -> 0 < w -> o + w <= 64 -> in_u 64 x -> 0 <= i ->
  Z.testbit (set_field o w x v) i
  = if (o <=? i) && (i <? o + w) then Z.testbit (raw_bits v) (i - o) else Z.testbit x i.
Proof.
  intros. unfold set_field. rewrite ones_spec by lia.
  bits_auto.
Qed.

Lemma set_field_range o w x (v : F) :
  in_u 64 x -> in_u 64 (set_field o w x v).
Proof. intros. unfold set_field. solve_range. Qed.

Lemma raw_get_set_eq o w x (v : F) :
  0 <= o -> 0 < w -> o + w <= 64 -> in_u 64 x -> in_u w (raw_bits v) ->
  raw_get o w (set_field o w x v) = raw_bits v.
Proof.
  intros. apply Z.bits_inj'; intros i Hi. rewrite raw_get_testbit by lia.
  rewrite set_field_testbit by (done || lia). bits_auto.
Qed.

Lemma raw_get_set_ne o w o' w' x (v : F) :
  0 <= o -> 0 < w -> o + w <= 64 -> 0 <= o' -> 0 <= w' -> in_u 64 x ->
  o' + w' <= o \/ o + w <= o' ->
  raw_get o' w' (set_field o w x v) = raw_get o' w' x.
Proof.
  intros. apply Z.bits_inj'; intros i Hi. rewrite !raw_get_testbit by lia.
  rewrite set_field_testbit by (done || lia). bits_auto.
Qed.

End Field.

#[export] Hint Resolve set_field_range : rust_range.

End Fields.
Export Fields.

(** ** The status registers ([xstatus.rs]) *)
Module Xstatus.

#[export] Instance bool_field : FieldValue bool := {
  field_new := fun value => Z.land value 1 =? 1;
  raw_bits := Z.b2z
}.

Inductive MPPValue : Type := MPP_User | MPP_Supervisor | MPP_Machine.

#[export] Instance MPPValue_eq_dec : EqDecision MPPValue.
Proof. solve_decision. Defined.

(** The default of each [switch] below stands for the [unreachable!] arm: the
    masked value is always one of the listed ones. *)
#[export] Instance mpp_field : FieldValue MPPValue := {
  field_new := fun value =>
    switch (Z.land value 3)
      [(0, MPP_User); (1, MPP_Supervisor); (3, MPP_Machine); (2, MPP_User)] MPP_User;
  raw_bits := fun v =>
    match v with MPP_User => 0 | MPP_Supervisor => 1 | MPP_Machine => 3 end
}.

Inductive SPPValue : Type := SPP_User | SPP_Supervisor.

#[export] Instance SPPValue_eq_dec : EqDecision SPPValue.
Proof. solve_decision. Defined.

#[export] Instance spp_field : FieldValue SPPValue := {
  field_new := fun value => switch (Z.land value 1) [(0, SPP_User); (1, SPP_Supervisor)] SPP_User;
  raw_bits := fun v => match v with SPP_User => 0 | SPP_Supervisor => 1 end
}.

Inductive XLenValue : Type := MXL32 | MXL64 | MXL128.

#[export] Instance XLenValue_eq_dec : EqDecision XLenValue.
Proof. solve_decision. Defined.

#[export] Instance xlen_field : FieldValue XLenValue := {
  field_new := fun value =>
    switch (Z.land value 3) [(1, MXL32); (2, MXL64); (3, MXL128); (0, MXL64)] MXL64;
  raw_bits := fun v => match v with MXL32 => 1 | MXL64 => 2 | MXL128 => 3 end
}.

Inductive ExtensionValue : Type := Off | Initial | Clean | Dirty.

#[export] Instance ExtensionValue_eq_dec : EqDecision ExtensionValue.
Proof. solve_decision. Defined.

#[export] Instance extension_field : FieldValue ExtensionValue := {
  field_new := fun value =>
    switch (Z.land value 3) [(0, Off); (1, Initial); (2, Clean); (3, Dirty)] Off;
  raw_bits := fun v => match v with Off => 0 | Initial => 1 | Clean => 2 | Dirty => 3 end
}.

(** MSTATUS, SSTATUS and MNSTATUS fields: the constant, the getter and the
    setter [create_field!] generates for each. *)
Definition SD : Z * Z := (63, 1).
Definition MBE : Z * Z := (37, 1).
Definition SBE : Z * Z := (36, 1).
Definition SXL : Z * Z := (34, 2).
Definition UXL : Z * Z := (32, 2).
Definition TSR : Z * Z := (22, 1).
Definition TW : Z * Z := (21, 1).
Definition TVM : Z * Z := (20, 1).
Definition MXR : Z * Z := (19, 1).
Definition SUM : Z * Z := (18, 1).
Definition MPRV : Z * Z := (17, 1).
Definition XS : Z * Z := (15, 2).
Definition FS : Z * Z := (13, 2).
Definition MPP : Z * Z := (11, 2).
Definition VS : Z * Z := (9, 2).
Definition SPP : Z * Z := (8, 1).
Definition MPIE : Z * Z := (7, 1).
Definition UBE : Z * Z := (6, 1).
Definition SPIE : Z * Z := (5, 1).
Definition MIE : Z * Z := (3, 1).
Definition SIE : Z * Z := (1, 1).
Definition MNPP : Z * Z := (11, 2).
Definition MNPV : Z * Z := (7, 1).
Definition NMIE : Z * Z := (3, 1).
Definition get_SD (mstatus : Z) : bool := get_field 63 1 mstatus.
Definition get_MBE (mstatus : Z) : bool := get_field 37 1 mstatus.
Definition get_SBE (mstatus : Z) : bool := get_field 36 1 mstatus.
Definition get_SXL (mstatus : Z) : XLenValue := get_field 34 2 mstatus.
Definition get_UXL (mstatus : Z) : XLenValue := get_field 32 2 mstatus.
Definition get_TSR (mstatus : Z) : bool := get_field 22 1 mstatus.
Definition get_TW (mstatus : Z) : bool := get_field 21 1 mstatus.
Definition get_TVM (mstatus : Z) : bool := get_field 20 1 mstatus.
Definition get_MXR (mstatus : Z) : bool := get_field 19 1 mstatus.
Definition get_SUM (mstatus : Z) : bool := get_field 18 1 mstatus.
Definition get_MPRV (mstatus : Z) : bool := get_field 17 1 mstatus.
Definition get_XS (mstatus : Z) : ExtensionValue := get_field 15 2 mstatus.
Definition get_FS (mstatus : Z) : ExtensionValue := get_field 13 2 mstatus.
Definition get_MPP (mstatus : Z) : MPPValue := get_field 11 2 mstatus.
Definition get_VS (mstatus : Z) : ExtensionValue := get_field 9 2 mstatus.
Definition get_SPP (mstatus : Z) : SPPValue := get_field 8 1 mstatus.
Definition get_MPIE (mstatus : Z) : bool := get_field 7 1 mstatus.
Definition get_UBE (mstatus : Z) : bool := get_field 6 1 mstatus.
Definition get_SPIE (mstatus : Z) : bool := get_field 5 1 mstatus.
Definition get_MIE (mstatus : Z) : bool := get_field 3 1 mstatus.
Definition get_SIE (mstatus : Z) : bool := get_field 1 1 mstatus.
Definition get_MNPP (mstatus : Z) : MPPValue := get_field 11 2 mstatus.
Definition get_MNPV (mstatus : Z) : bool := get_field 7 1 mstatus.
Definition get_NMIE (mstatus : Z) : bool := get_field 3 1 mstatus.
Definition set_SD (mstatus : Z) (new_value : bool) : Z := set_field 63 1 mstatus new_value.
Definition set_MBE (mstatus : Z) (new_value : bool) : Z := set_field 37 1 mstatus new_value.
Definition set_SBE (mstatus : Z) (new_value : bool) : Z := set_field 36 1 mstatus new_value.
Definition set_SXL (mstatus : Z) (new_value : XLenValue) : Z := set_field 34 2 mstatus new_value.
Definition set_UXL (mstatus : Z) (new_value : XLenValue) : Z := set_field 32 2 mstatus new_value.
Definition set_TSR (mstatus : Z) (new_value : bool) : Z := set_field 22 1 mstatus new_value.
Definition set_TW (mstatus : Z) (new_value : bool) : Z := set_field 21 1 mstatus new_value.
Definition set_TVM (mstatus : Z) (new_value : bool) : Z := set_field 20 1 mstatus new_value.
Definition set_MXR (mstatus : Z) (new_value : bool) : Z := set_field 19 1 mstatus new_value.
Definition set_SUM (mstatus : Z) (new_value : bool) : Z := set_field 18 1 mstatus new_value.
Definition set_MPRV (mstatus : Z) (new_value : bool) : Z := set_field 17 1 mstatus new_value.
Definition set_XS (mstatus : Z) (new_value : ExtensionValue) : Z := set_field 15 2 mstatus new_value.
Definition set_FS (mstatus : Z) (new_value : ExtensionValue) : Z := set_field 13 2 mstatus new_value.
Definition set_MPP (mstatus : Z) (new_value : MPPValue) : Z := set_field 11 2 mstatus new_value.
Definition set_VS (mstatus : Z) (new_value : ExtensionValue) : Z := set_field 9 2 mstatus new_value.
Definition set_SPP (mstatus : Z) (new_value : SPPValue) : Z := set_field 8 1 mstatus new_value.
Definition set_MPIE (mstatus : Z) (new_value : bool) : Z := set_field 7 1 mstatus new_value.
Definition set_UBE (mstatus : Z) (new_value : bool) : Z := set_field 6 1 mstatus new_value.
Definition set_SPIE (mstatus : Z) (new_value : bool) : Z := set_field 5 1 mstatus new_value.
Definition set_MIE (mstatus : Z) (new_value : bool) : Z := set_field 3 1 mstatus new_value.
Definition set_SIE (mstatus : Z) (new_value : bool) : Z := set_field 1 1 mstatus new_value.
Definition set_MNPP (mstatus : Z) (new_value : MPPValue) : Z := set_field 11 2 mstatus new_value.
Definition set_MNPV (mstatus : Z) (new_value : bool) : Z := set_field 7 1 mstatus new_value.
Definition set_NMIE (mstatus : Z) (new_value : bool) : Z := set_field 3 1 mstatus new_value.

Definition field_mask (field_data : Z * Z) : Z := ushl 64 (ones field_data.2) field_data.1.

Definition SSTATUS_FIELDS_MASK : Z :=
  Z.lor (Z.lor (Z.lor (Z.lor (Z.lor (Z.lor (Z.lor (Z.lor (Z.lor (Z.lor
    (field_mask SD) (field_mask UXL)) (field_mask MXR)) (field_mask SUM)) (field_mask XS))
    (field_mask FS)) (field_mask VS)) (field_mask SPP)) (field_mask UBE)) (field_mask SPIE))
    (field_mask SIE).

Definition MSTATUS_FIELDS_MASK : Z :=
  Z.lor (Z.lor (Z.lor (Z.lor (Z.lor (Z.lor (Z.lor (Z.lor (Z.lor (Z.lor
    SSTATUS_FIELDS_MASK (field_mask MBE)) (field_mask SBE)) (field_mask SXL)) (field_mask TSR))
    (field_mask TW)) (field_mask TVM)) (field_mask MPRV)) (field_mask MPP)) (field_mask MPIE))
    (field_mask MIE).

Definition apply_warl_sstatus (mstatus : Z) : Z :=
  let xs := get_XS mstatus in
  let vs := get_VS mstatus in
  let fs := get_FS mstatus in
  let mstatus :=
    set_SD mstatus (bool_decide (xs = Dirty) || bool_decide (fs = Dirty) || bool_decide (vs = Dirty)) in
  set_UXL mstatus MXL64.

Definition apply_warl_mstatus (mstatus : Z) : Z :=
  let mstatus := apply_warl_sstatus mstatus in
  let mstatus := set_SXL mstatus MXL64 in
  let mpp := get_MPP mstatus in
  set_MPP mstatus mpp.

Definition apply_warl_mnstatus (mnstatus : Z) : Z :=
  let mnstatus := set_MNPV mnstatus false in
  let mnstatus := set_NMIE mnstatus true in
  let mnpp := get_MNPP mnstatus in
  set_MNPP mnstatus mnpp.

Definition sstatus_from_mstatus (mstatus : Z) : Z := Z.land mstatus SSTATUS_FIELDS_MASK.

Create HintDb csr_fields.

(** The laws of a field type: its raw bits fit the field and read back. *)
Class FieldLaws (F : Type) `{FieldValue F} (width : Z) := {
  raw_bits_range : forall v : F, in_u width (raw_bits v);
  new_raw_bits : forall v : F, field_new (raw_bits v) = v
}.

#[export] Instance bool_laws : FieldLaws bool 1.
Proof. split; intros []; (range_compute || reflexivity). Qed.

#[export] Instance mpp_laws : FieldLaws MPPValue 2.
Proof. split; intros []; (range_compute || reflexivity). Qed.

#[export] Instance spp_laws : FieldLaws SPPValue 1.
Proof. split; intros []; (range_compute || reflexivity). Qed.

#[export] Instance xlen_laws : FieldLaws XLenValue 2.
Proof. split; intros []; (range_compute || reflexivity). Qed.

#[export] Instance extension_laws : FieldLaws ExtensionValue 2.
Proof. split; intros []; (range_compute || reflexivity). Qed.

(** Reading a field back after writing it, and after writing another field. *)
Lemma get_set_eq {F} `{FL : FieldLaws F w} o x (v : F) :
  0 <= o -> 0 < w -> o + w <= 64 -> in_u 64 x -> get_field o w (set_field o w x v) = v.
Proof.
  intros. rewrite get_field_raw by lia. rewrite raw_get_set_eq; try done.
  - apply new_raw_bits.
  - apply raw_bits_range.
Qed.

Lemma get_set_ne {F G} `{FieldValue F} `{FieldValue G} o w o' w' x (v : F) :
  0 <= o -> 0 < w -> o + w <= 64 -> 0 <= o' -> 0 < w' <= 64 -> in_u 64 x ->
  o' + w' <= o \/ o + w <= o' ->
  get_field (F := G) o' w' (set_field o w x v) = get_field o' w' x.
Proof. intros. rewrite !get_field_raw by lia. by rewrite raw_get_set_ne by (done || lia). Qed.

#[export] Hint Unfold get_SD set_SD get_MBE set_MBE get_SBE set_SBE get_SXL set_SXL get_UXL set_UXL get_TSR set_TSR : csr_fields.
#[export] Hint Unfold get_TW set_TW get_TVM set_TVM get_MXR set_MXR get_SUM set_SUM get_MPRV set_MPRV get_XS set_XS : csr_fields.
#[export] Hint Unfold get_FS set_FS get_MPP set_MPP get_VS set_VS get_SPP set_SPP get_MPIE set_MPIE get_UBE set_UBE : csr_fields.
#[export] Hint Unfold get_SPIE set_SPIE get_MIE set_MIE get_SIE set_SIE get_MNPP set_MNPP get_MNPV set_MNPV get_NMIE set_NMIE : csr_fields.

(** Evaluate a getter over a chain of setters. *)
Ltac field_step :=
  first [ rewrite get_set_eq by (first [lia | solve_range])
        | rewrite get_set_ne by (first [lia | solve_range]) ].
Ltac fields_simpl := autounfold with csr_fields in *; repeat field_step.

(** Bits of a chain of setters. *)
Ltac fields_bits :=
  autounfold with csr_fields in *;
  repeat (rewrite set_field_testbit by (first [lia | solve_range]));
  bits_auto.

(** The masks, as lists of field positions. *)
Lemma field_mask_testbit o w i :
  0 <= o -> 0 < w -> o + w <= 64 -> 0 <= i ->
  Z.testbit (field_mask (o, w)) i = (o <=? i) && (i <? o + w).
Proof. intros. unfold field_mask; cbn [fst snd]. rewrite ones_spec by lia. bits_auto. Qed.

Lemma SSTATUS_FIELDS_MASK_range : in_u 64 SSTATUS_FIELDS_MASK.
Proof. range_compute. Qed.
#[export] Hint Resolve SSTATUS_FIELDS_MASK_range : rust_range.

Lemma apply_warl_sstatus_range x : in_u 64 x -> in_u 64 (apply_warl_sstatus x).
Proof. intros. unfold apply_warl_sstatus. autounfold with csr_fields. solve_range. Qed.

Lemma apply_warl_mstatus_range x : in_u 64 x -> in_u 64 (apply_warl_mstatus x).
Proof.
  intros H. apply apply_warl_sstatus_range in H. unfold apply_warl_mstatus.
  autounfold with csr_fields. solve_range.
Qed.

Lemma apply_warl_mnstatus_range x : in_u 64 x -> in_u 64 (apply_warl_mnstatus x).
Proof. intros. unfold apply_warl_mnstatus. autounfold with csr_fields. solve_range. Qed.

#[export] Hint Resolve apply_warl_sstatus_range apply_warl_mstatus_range
  apply_warl_mnstatus_range : rust_range.

(** The state-dirty summary bit that [apply_warl_sstatus] writes. *)
Definition dirty (x : Z) : bool :=
  bool_decide (get_XS x = Dirty) || bool_decide (get_FS x = Dirty) || bool_decide (get_VS x = Dirty).

Lemma testbit_b2z b i : 0 <= i -> Z.testbit (Z.b2z b) i = b && (i =? 0).
Proof.
  intros. destruct b; cbn; [|by rewrite Z.bits_0].
  destruct (Z.eqb_spec i 0) as [-> |]; [done |]. apply testbit_high with 1; unfold in_u; lia.
Qed.

(** The two-bit constant 2 of the XLEN fields. *)
Lemma testbit_2 i : Z.testbit 2 i = (i =? 1).
Proof.
  destruct (Z.eqb_spec i 1) as [-> |]; [done |]. destruct (decide (i < 0)).
  - by rewrite Z.testbit_neg_r.
  - destruct (decide (i = 0)) as [-> |]; [done |]. apply testbit_high with 2; unfold in_u; lia.
Qed.

(** The bits the WARL rule of [sstatus] fixes, all others being kept. *)
Lemma apply_warl_sstatus_testbit x i :
  in_u 64 x -> 0 <= i ->
  Z.testbit (apply_warl_sstatus x) i
  = if (63 <=? i) && (i <? 64) then dirty x
    else if (32 <=? i) && (i <? 34) then (i - 32 =? 1) else Z.testbit x i.
Proof.
  intros. unfold apply_warl_sstatus. fold (dirty x). autounfold with csr_fields.
  repeat (rewrite set_field_testbit by (first [lia | solve_range])).
  cbn [raw_bits bool_field xlen_field]. rewrite testbit_2.
  repeat (bits_norm; try bits_split; cbn [negb]); try done; try lia.
  replace i with 63 by lia. cbn. destruct (dirty x); done.
Qed.

(** [dirty] only looks at the XS, FS and VS fields. *)
Lemma dirty_ext x y :
  raw_get 15 2 x = raw_get 15 2 y -> raw_get 13 2 x = raw_get 13 2 y ->
  raw_get 9 2 x = raw_get 9 2 y -> dirty x = dirty y.
Proof.
  intros H1 H2 H3. unfold dirty. autounfold with csr_fields.
  rewrite !get_field_raw by lia. by rewrite H1, H2, H3.
Qed.

Lemma raw_get_ext o w x y :
  0 <= o -> 0 <= w ->
  (forall i, o <= i < o + w -> Z.testbit x i = Z.testbit y i) -> raw_get o w x = raw_get o w y.
Proof.
  intros Ho Hw H. apply Z.bits_inj'; intros i Hi. rewrite !raw_get_testbit by lia.
  destruct (Z.ltb_spec i w); [|done]. by rewrite H by lia.
Qed.

(** Agreement on the low 32 bits is enough for [dirty]. *)
Lemma dirty_low x y :
  (forall i, 9 <= i < 17 -> Z.testbit x i = Z.testbit y i) -> dirty x = dirty y.
Proof. intros H. apply dirty_ext; apply raw_get_ext; try lia; intros; apply H; lia. Qed.

Lemma dirty_warl_sstatus x : in_u 64 x -> dirty (apply_warl_sstatus x) = dirty x.
Proof.
  intros Hx. apply dirty_low. intros i Hi. rewrite apply_warl_sstatus_testbit by (done || lia).
  bits_auto.
Qed.

Lemma apply_warl_sstatus_idem x :
  in_u 64 x -> apply_warl_sstatus (apply_warl_sstatus x) = apply_warl_sstatus x.
Proof.
  intros Hx. apply Z.bits_inj'; intros i Hi.
  rewrite apply_warl_sstatus_testbit by (solve_range || lia).
  rewrite dirty_warl_sstatus by done. rewrite apply_warl_sstatus_testbit by (done || lia).
  repeat (bits_norm; try bits_split; cbn [negb]); done.
Qed.

(** The MPP field after the WARL rule: 2 is read as [User]. *)
Definition mpp_fix (x : Z) : Z := raw_bits (get_MPP x).

Lemma mpp_fix_raw x : mpp_fix x = let m := raw_get 11 2 x in if m =? 2 then 0 else m.
Proof.
  unfold mpp_fix. autounfold with csr_fields. rewrite get_field_raw by lia.
  pose proof (raw_get_range 11 2 x ltac:(lia)) as H. unfold in_u in H.
  set (m := raw_get 11 2 x) in *.
  assert (E : m = 0 \/ m = 1 \/ m = 2 \/ m = 3) by lia.
  by destruct E as [-> | [-> | [-> | ->]]].
Qed.

Lemma mpp_fix_range x : in_u 2 (mpp_fix x).
Proof. unfold mpp_fix. apply raw_bits_range. Qed.

Lemma get_MPP_ext x y : raw_get 11 2 x = raw_get 11 2 y -> get_MPP x = get_MPP y.
Proof. intros H. autounfold with csr_fields. rewrite !get_field_raw by lia. by rewrite H. Qed.

Lemma apply_warl_mstatus_testbit x i :
  in_u 64 x -> 0 <= i ->
  Z.testbit (apply_warl_mstatus x) i
  = if (63 <=? i) && (i <? 64) then dirty x
    else if (32 <=? i) && (i <? 34) then (i - 32 =? 1)
    else if (34 <=? i) && (i <? 36) then (i - 34 =? 1)
    else if (11 <=? i) && (i <? 13) then Z.testbit (mpp_fix x) (i - 11)
    else Z.testbit x i.
Proof.
  intros Hx Hi. unfold apply_warl_mstatus.
  assert (E : get_MPP (set_SXL (apply_warl_sstatus x) MXL64) = get_MPP x).
  { autounfold with csr_fields. rewrite get_set_ne by (first [lia | solve_range]).
    apply get_MPP_ext, raw_get_ext; try lia. intros j Hj.
    rewrite apply_warl_sstatus_testbit by (done || lia). bits_auto. }
  rewrite E. unfold mpp_fix. autounfold with csr_fields.
  repeat (rewrite set_field_testbit by (first [lia | solve_range])).
  rewrite apply_warl_sstatus_testbit by (done || lia).
  cbn [raw_bits xlen_field]. rewrite testbit_2.
  repeat (bits_norm; try bits_split; cbn [negb]); (done || lia).
Qed.

Lemma mpp_fix_warl x : in_u 64 x -> mpp_fix (apply_warl_mstatus x) = mpp_fix x.
Proof.
  intros Hx. rewrite (mpp_fix_raw (apply_warl_mstatus x)).
  replace (raw_get 11 2 (apply_warl_mstatus x)) with (mpp_fix x).
  - cbn zeta. rewrite (mpp_fix_raw x). cbn zeta.
    destruct (raw_get 11 2 x =? 2) eqn:E; [done |]. by rewrite E.
  - pose proof (mpp_fix_range x) as Hr. apply Z.bits_inj'; intros i Hi.
    rewrite raw_get_testbit, apply_warl_mstatus_testbit by (done || lia).
    repeat (bits_norm; try bits_split; cbn [negb]); try done; try lia. f_equal; lia.
Qed.

Lemma dirty_warl_mstatus x : in_u 64 x -> dirty (apply_warl_mstatus x) = dirty x.
Proof.
  intros Hx. apply dirty_ext; apply raw_get_ext; try lia; intros i Hi;
    rewrite apply_warl_mstatus_testbit by (done || lia); bits_auto.
Qed.

Lemma apply_warl_mstatus_idem x :
  in_u 64 x -> apply_warl_mstatus (apply_warl_mstatus x) = apply_warl_mstatus x.
Proof.
  intros Hx. apply Z.bits_inj'; intros i Hi.
  rewrite apply_warl_mstatus_testbit by (solve_range || lia).
  rewrite dirty_warl_mstatus, mpp_fix_warl by done.
  rewrite apply_warl_mstatus_testbit by (done || lia).
  repeat (bits_norm; try bits_split; cbn [negb]); done.
Qed.

End Xstatus.
Export Xstatus.

(** ** Address translation and protection ([satp.rs]) *)
Module Satp.

Definition SATP_MODE_OFFSET : Z := 60.
Definition MODE_BARE : Z := 0.
Definition MODE_SV39 : Z := 8.
Definition MODE_SV48 : Z := 9.
Definition MODE_SV57 : Z := 10.

Definition DEFAULT_VALUE : Z := ushl 64 MODE_BARE SATP_MODE_OFFSET.

Inductive SvLength : Type := Sv39 | Sv48 | Sv57.

Inductive TranslationAlgorithm : Type := Bare | Sv (l : SvLength).

Definition enc (t : TranslationAlgorithm) : Z :=
  match t with
  | Bare => MODE_BARE
  | Sv Sv39 => MODE_SV39
  | Sv Sv48 => MODE_SV48
  | Sv Sv57 => MODE_SV57
  end.

(** The values 1-7 and 11-15 have no translation algorithm. *)
#[export] Instance translation_field : FieldValue (option TranslationAlgorithm) := {
  field_new := fun value =>
    switch (Z.land value 15)
      [(MODE_BARE, Some Bare); (MODE_SV39, Some (Sv Sv39)); (MODE_SV48, Some (Sv Sv48));
       (MODE_SV57, Some (Sv Sv57))] None;
  raw_bits := fun t => match t with None => 0 | Some algorithm => enc algorithm end
}.

Definition get_MODE (satp : Z) : option TranslationAlgorithm := get_field SATP_MODE_OFFSET 4 satp.
Definition set_MODE (satp : Z) (v : option TranslationAlgorithm) : Z :=
  set_field SATP_MODE_OFFSET 4 satp v.
Definition get_ASID (satp : Z) : UnsignedValue := get_field 44 16 satp.
Definition set_ASID (satp : Z) (v : UnsignedValue) : Z := set_field 44 16 satp v.
Definition get_PPN (satp : Z) : UnsignedValue := get_field 0 44 satp.
Definition set_PPN (satp : Z) (v : UnsignedValue) : Z := set_field 0 44 satp v.

Lemma get_MODE_default : get_MODE DEFAULT_VALUE = Some Bare.
Proof. reflexivity. Qed.

End Satp.

