(* ===== verification/CSRegisters.v ===== *)
(** Control and status registers
    ([src/src/risc_v/interpreter/src/machine_state/csregisters.rs]): the register
    enumeration, privilege and write checks, the WPRI, WLRL and WARL field rules,
    the shadow registers [sstatus], [sip] and [sie], interrupt enabling, trap
    delegation and reset. *)

From S2P Require Import Prelude Mode Traps CSRFields.

Module CSR.

(** CSR index, in declaration order. *)
Inductive CSRegister : Type :=
| fflags | frm | fcsr | cycle | time | instret | hpmcounter3 | hpmcounter4 | hpmcounter5
| hpmcounter6 | hpmcounter7 | hpmcounter8 | hpmcounter9 | hpmcounter10 | hpmcounter11
| hpmcounter12 | hpmcounter13 | hpmcounter14 | hpmcounter15 | hpmcounter16 | hpmcounter17
| hpmcounter18 | hpmcounter19 | hpmcounter20 | hpmcounter21 | hpmcounter22 | hpmcounter23
| hpmcounter24 | hpmcounter25 | hpmcounter26 | hpmcounter27 | hpmcounter28 | hpmcounter29
| hpmcounter30 | hpmcounter31 | sstatus | sie | stvec | scounteren | senvcfg | sscratch | sepc
| scause | stval | sip | satp | scontext | hstatus | hedeleg | hideleg | hie | hcounteren
| hgeie | htval | hip | hvip | htinst | hgeip | henvcfg | hgatp | hcontext | htimedelta
| vsstatus | vsie | vstvec | vsscratch | vsepc | vscause | vstval | vsip | vsatp | mvendorid
| marchid | mimpid | mhartid | mconfigptr | mstatus | misa | medeleg | mideleg | mie | mtvec
| mcounteren | mscratch | mepc | mcause | mtval | mip | mtinst | mtval2 | menvcfg | mseccfg
| pmpcfg0 | pmpcfg2 | pmpcfg4 | pmpcfg6 | pmpcfg8 | pmpcfg10 | pmpcfg12 | pmpcfg14 | pmpaddr0
| pmpaddr1 | pmpaddr2 | pmpaddr3 | pmpaddr4 | pmpaddr5 | pmpaddr6 | pmpaddr7 | pmpaddr8
| pmpaddr9 | pmpaddr10 | pmpaddr11 | pmpaddr12 | pmpaddr13 | pmpaddr14 | pmpaddr15 | pmpaddr16
| pmpaddr17 | pmpaddr18 | pmpaddr19 | pmpaddr20 | pmpaddr21 | pmpaddr22 | pmpaddr23 | pmpaddr24
| pmpaddr25 | pmpaddr26 | pmpaddr27 | pmpaddr28 | pmpaddr29 | pmpaddr30 | pmpaddr31 | pmpaddr32
| pmpaddr33 | pmpaddr34 | pmpaddr35 | pmpaddr36 | pmpaddr37 | pmpaddr38 | pmpaddr39 | pmpaddr40
| pmpaddr41 | pmpaddr42 | pmpaddr43 | pmpaddr44 | pmpaddr45 | pmpaddr46 | pmpaddr47 | pmpaddr48
| pmpaddr49 | pmpaddr50 | pmpaddr51 | pmpaddr52 | pmpaddr53 | pmpaddr54 | pmpaddr55 | pmpaddr56
| pmpaddr57 | pmpaddr58 | pmpaddr59 | pmpaddr60 | pmpaddr61 | pmpaddr62 | pmpaddr63 | mnscratch
| mnepc | mncause | mnstatus | mcycle | minstret | mhpmcounter3 | mhpmcounter4 | mhpmcounter5
| mhpmcounter6 | mhpmcounter7 | mhpmcounter8 | mhpmcounter9 | mhpmcounter10 | mhpmcounter11
| mhpmcounter12 | mhpmcounter13 | mhpmcounter14 | mhpmcounter15 | mhpmcounter16 | mhpmcounter17
| mhpmcounter18 | mhpmcounter19 | mhpmcounter20 | mhpmcounter21 | mhpmcounter22 | mhpmcounter23
| mhpmcounter24 | mhpmcounter25 | mhpmcounter26 | mhpmcounter27 | mhpmcounter28 | mhpmcounter29
| mhpmcounter30 | mhpmcounter31 | mcountinhibit | mhpmevent3 | mhpmevent4 | mhpmevent5
| mhpmevent6 | mhpmevent7 | mhpmevent8 | mhpmevent9 | mhpmevent10 | mhpmevent11 | mhpmevent12
| mhpmevent13 | mhpmevent14 | mhpmevent15 | mhpmevent16 | mhpmevent17 | mhpmevent18
| mhpmevent19 | mhpmevent20 | mhpmevent21 | mhpmevent22 | mhpmevent23 | mhpmevent24
| mhpmevent25 | mhpmevent26 | mhpmevent27 | mhpmevent28 | mhpmevent29 | mhpmevent30
| mhpmevent31 | tselect | tdata1 | tdata2 | tdata3 | tcontrol | mcontext | dcsr | dpc
| dscratch0 | dscratch1.

(** [self as usize]: the discriminants. *)
Definition csr_code (r : CSRegister) : Z :=
  match r with
  | fflags => 0x001 | frm => 0x002 | fcsr => 0x003 | cycle => 0xC00 | time => 0xC01
  | instret => 0xC02 | hpmcounter3 => 0xC03 | hpmcounter4 => 0xC04 | hpmcounter5 => 0xC05
  | hpmcounter6 => 0xC06 | hpmcounter7 => 0xC07 | hpmcounter8 => 0xC08 | hpmcounter9 => 0xC09
  | hpmcounter10 => 0xC0A | hpmcounter11 => 0xC0B | hpmcounter12 => 0xC0C
  | hpmcounter13 => 0xC0D | hpmcounter14 => 0xC0E | hpmcounter15 => 0xC0F
  | hpmcounter16 => 0xC10 | hpmcounter17 => 0xC11 | hpmcounter18 => 0xC12
  | hpmcounter19 => 0xC13 | hpmcounter20 => 0xC14 | hpmcounter21 => 0xC15
  | hpmcounter22 => 0xC16 | hpmcounter23 => 0xC17 | hpmcounter24 => 0xC18
  | hpmcounter25 => 0xC19 | hpmcounter26 => 0xC1A | hpmcounter27 => 0xC1B
  | hpmcounter28 => 0xC1C | hpmcounter29 => 0xC1D | hpmcounter30 => 0xC1E
  | hpmcounter31 => 0xC1F | sstatus => 0x100 | sie => 0x104 | stvec => 0x105
  | scounteren => 0x106 | senvcfg => 0x10A | sscratch => 0x140 | sepc => 0x141
  | scause => 0x142 | stval => 0x143 | sip => 0x144 | satp => 0x180 | scontext => 0x5A8
  | hstatus => 0x600 | hedeleg => 0x602 | hideleg => 0x603 | hie => 0x604 | hcounteren => 0x606
  | hgeie => 0x607 | htval => 0x643 | hip => 0x644 | hvip => 0x645 | htinst => 0x64A
  | hgeip => 0xE12 | henvcfg => 0x60A | hgatp => 0x680 | hcontext => 0x6A8
  | htimedelta => 0x605 | vsstatus => 0x200 | vsie => 0x204 | vstvec => 0x205
  | vsscratch => 0x240 | vsepc => 0x241 | vscause => 0x242 | vstval => 0x243 | vsip => 0x244
  | vsatp => 0x280 | mvendorid => 0xF11 | marchid => 0xF12 | mimpid => 0xF13 | mhartid => 0xF14
  | mconfigptr => 0xF15 | mstatus => 0x300 | misa => 0x301 | medeleg => 0x302
  | mideleg => 0x303 | mie => 0x304 | mtvec => 0x305 | mcounteren => 0x306 | mscratch => 0x340
  | mepc => 0x341 | mcause => 0x342 | mtval => 0x343 | mip => 0x344 | mtinst => 0x34A
  | mtval2 => 0x34B | menvcfg => 0x30A | mseccfg => 0x747 | pmpcfg0 => 0x3A0 | pmpcfg2 => 0x3A2
  | pmpcfg4 => 0x3A4 | pmpcfg6 => 0x3A6 | pmpcfg8 => 0x3A8 | pmpcfg10 => 0x3AA
  | pmpcfg12 => 0x3AC | pmpcfg14 => 0x3AE | pmpaddr0 => 0x3B0 | pmpaddr1 => 0x3B1
  | pmpaddr2 => 0x3B2 | pmpaddr3 => 0x3B3 | pmpaddr4 => 0x3B4 | pmpaddr5 => 0x3B5
  | pmpaddr6 => 0x3B6 | pmpaddr7 => 0x3B7 | pmpaddr8 => 0x3B8 | pmpaddr9 => 0x3B9
  | pmpaddr10 => 0x3BA | pmpaddr11 => 0x3BB | pmpaddr12 => 0x3BC | pmpaddr13 => 0x3BD
  | pmpaddr14 => 0x3BE | pmpaddr15 => 0x3BF | pmpaddr16 => 0x3C0 | pmpaddr17 => 0x3C1
  | pmpaddr18 => 0x3C2 | pmpaddr19 => 0x3C3 | pmpaddr20 => 0x3C4 | pmpaddr21 => 0x3C5
  | pmpaddr22 => 0x3C6 | pmpaddr23 => 0x3C7 | pmpaddr24 => 0x3C8 | pmpaddr25 => 0x3C9
  | pmpaddr26 => 0x3CA | pmpaddr27 => 0x3CB | pmpaddr28 => 0x3CC | pmpaddr29 => 0x3CD
  | pmpaddr30 => 0x3CE | pmpaddr31 => 0x3CF | pmpaddr32 => 0x3D0 | pmpaddr33 => 0x3D1
  | pmpaddr34 => 0x3D2 | pmpaddr35 => 0x3D3 | pmpaddr36 => 0x3D4 | pmpaddr37 => 0x3D5
  | pmpaddr38 => 0x3D6 | pmpaddr39 => 0x3D7 | pmpaddr40 => 0x3D8 | pmpaddr41 => 0x3D9
  | pmpaddr42 => 0x3DA | pmpaddr43 => 0x3DB | pmpaddr44 => 0x3DC | pmpaddr45 => 0x3DD
  | pmpaddr46 => 0x3DE | pmpaddr47 => 0x3DF | pmpaddr48 => 0x3E0 | pmpaddr49 => 0x3E1
  | pmpaddr50 => 0x3E2 | pmpaddr51 => 0x3E3 | pmpaddr52 => 0x3E4 | pmpaddr53 => 0x3E5
  | pmpaddr54 => 0x3E6 | pmpaddr55 => 0x3E7 | pmpaddr56 => 0x3E8 | pmpaddr57 => 0x3E9
  | pmpaddr58 => 0x3EA | pmpaddr59 => 0x3EB | pmpaddr60 => 0x3EC | pmpaddr61 => 0x3ED
  | pmpaddr62 => 0x3EE | pmpaddr63 => 0x3EF | mnscratch => 0x740 | mnepc => 0x741
  | mncause => 0x742 | mnstatus => 0x744 | mcycle => 0xB00 | minstret => 0xB02
  | mhpmcounter3 => 0xB03 | mhpmcounter4 => 0xB04 | mhpmcounter5 => 0xB05
  | mhpmcounter6 => 0xB06 | mhpmcounter7 => 0xB07 | mhpmcounter8 => 0xB08
  | mhpmcounter9 => 0xB09 | mhpmcounter10 => 0xB0A | mhpmcounter11 => 0xB0B
  | mhpmcounter12 => 0xB0C | mhpmcounter13 => 0xB0D | mhpmcounter14 => 0xB0E
  | mhpmcounter15 => 0xB0F | mhpmcounter16 => 0xB10 | mhpmcounter17 => 0xB11
  | mhpmcounter18 => 0xB12 | mhpmcounter19 => 0xB13 | mhpmcounter20 => 0xB14
  | mhpmcounter21 => 0xB15 | mhpmcounter22 => 0xB16 | mhpmcounter23 => 0xB17
  | mhpmcounter24 => 0xB18 | mhpmcounter25 => 0xB19 | mhpmcounter26 => 0xB1A
  | mhpmcounter27 => 0xB1B | mhpmcounter28 => 0xB1C | mhpmcounter29 => 0xB1D
  | mhpmcounter30 => 0xB1E | mhpmcounter31 => 0xB1F | mcountinhibit => 0x320
  | mhpmevent3 => 0x323 | mhpmevent4 => 0x324 | mhpmevent5 => 0x325 | mhpmevent6 => 0x326
  | mhpmevent7 => 0x327 | mhpmevent8 => 0x328 | mhpmevent9 => 0x329 | mhpmevent10 => 0x32A
  | mhpmevent11 => 0x32B | mhpmevent12 => 0x32C | mhpmevent13 => 0x32D | mhpmevent14 => 0x32E
  | mhpmevent15 => 0x32F | mhpmevent16 => 0x330 | mhpmevent17 => 0x331 | mhpmevent18 => 0x332
  | mhpmevent19 => 0x333 | mhpmevent20 => 0x334 | mhpmevent21 => 0x335 | mhpmevent22 => 0x336
  | mhpmevent23 => 0x337 | mhpmevent24 => 0x338 | mhpmevent25 => 0x339 | mhpmevent26 => 0x33A
  | mhpmevent27 => 0x33B | mhpmevent28 => 0x33C | mhpmevent29 => 0x33D | mhpmevent30 => 0x33E
  | mhpmevent31 => 0x33F | tselect => 0x7A0 | tdata1 => 0x7A1 | tdata2 => 0x7A2
  | tdata3 => 0x7A3 | tcontrol => 0x7A5 | mcontext => 0x7A8 | dcsr => 0x7B0 | dpc => 0x7B1
  | dscratch0 => 0x7B2 | dscratch1 => 0x7B3
  end.

(** [CSRegister::iter()]. *)
Definition CSRegister_iter : list CSRegister :=
  [fflags; frm; fcsr; cycle; time; instret; hpmcounter3; hpmcounter4; hpmcounter5; hpmcounter6;
   hpmcounter7; hpmcounter8; hpmcounter9; hpmcounter10; hpmcounter11; hpmcounter12;
   hpmcounter13; hpmcounter14; hpmcounter15; hpmcounter16; hpmcounter17; hpmcounter18;
   hpmcounter19; hpmcounter20; hpmcounter21; hpmcounter22; hpmcounter23; hpmcounter24;
   hpmcounter25; hpmcounter26; hpmcounter27; hpmcounter28; hpmcounter29; hpmcounter30;
   hpmcounter31; sstatus; sie; stvec; scounteren; senvcfg; sscratch; sepc; scause; stval; sip;
   satp; scontext; hstatus; hedeleg; hideleg; hie; hcounteren; hgeie; htval; hip; hvip; htinst;
   hgeip; henvcfg; hgatp; hcontext; htimedelta; vsstatus; vsie; vstvec; vsscratch; vsepc;
   vscause; vstval; vsip; vsatp; mvendorid; marchid; mimpid; mhartid; mconfigptr; mstatus;
   misa; medeleg; mideleg; mie; mtvec; mcounteren; mscratch; mepc; mcause; mtval; mip; mtinst;
   mtval2; menvcfg; mseccfg; pmpcfg0; pmpcfg2; pmpcfg4; pmpcfg6; pmpcfg8; pmpcfg10; pmpcfg12;
   pmpcfg14; pmpaddr0; pmpaddr1; pmpaddr2; pmpaddr3; pmpaddr4; pmpaddr5; pmpaddr6; pmpaddr7;
   pmpaddr8; pmpaddr9; pmpaddr10; pmpaddr11; pmpaddr12; pmpaddr13; pmpaddr14; pmpaddr15;
   pmpaddr16; pmpaddr17; pmpaddr18; pmpaddr19; pmpaddr20; pmpaddr21; pmpaddr22; pmpaddr23;
   pmpaddr24; pmpaddr25; pmpaddr26; pmpaddr27; pmpaddr28; pmpaddr29; pmpaddr30; pmpaddr31;
   pmpaddr32; pmpaddr33; pmpaddr34; pmpaddr35; pmpaddr36; pmpaddr37; pmpaddr38; pmpaddr39;
   pmpaddr40; pmpaddr41; pmpaddr42; pmpaddr43; pmpaddr44; pmpaddr45; pmpaddr46; pmpaddr47;
   pmpaddr48; pmpaddr49; pmpaddr50; pmpaddr51; pmpaddr52; pmpaddr53; pmpaddr54; pmpaddr55;
   pmpaddr56; pmpaddr57; pmpaddr58; pmpaddr59; pmpaddr60; pmpaddr61; pmpaddr62; pmpaddr63;
   mnscratch; mnepc; mncause; mnstatus; mcycle; minstret; mhpmcounter3; mhpmcounter4;
   mhpmcounter5; mhpmcounter6; mhpmcounter7; mhpmcounter8; mhpmcounter9; mhpmcounter10;
   mhpmcounter11; mhpmcounter12; mhpmcounter13; mhpmcounter14; mhpmcounter15; mhpmcounter16;
   mhpmcounter17; mhpmcounter18; mhpmcounter19; mhpmcounter20; mhpmcounter21; mhpmcounter22;
   mhpmcounter23; mhpmcounter24; mhpmcounter25; mhpmcounter26; mhpmcounter27; mhpmcounter28;
   mhpmcounter29; mhpmcounter30; mhpmcounter31; mcountinhibit; mhpmevent3; mhpmevent4;
   mhpmevent5; mhpmevent6; mhpmevent7; mhpmevent8; mhpmevent9; mhpmevent10; mhpmevent11;
   mhpmevent12; mhpmevent13; mhpmevent14; mhpmevent15; mhpmevent16; mhpmevent17; mhpmevent18;
   mhpmevent19; mhpmevent20; mhpmevent21; mhpmevent22; mhpmevent23; mhpmevent24; mhpmevent25;
   mhpmevent26; mhpmevent27; mhpmevent28; mhpmevent29; mhpmevent30; mhpmevent31; tselect;
   tdata1; tdata2; tdata3; tcontrol; mcontext; dcsr; dpc; dscratch0; dscratch1].

(** [TryFromPrimitive]: the register with this discriminant, if any. *)
Definition try_parse_csregister (r : Z) : option CSRegister :=
  List.find (fun reg => csr_code reg =? r) CSRegister_iter.

Definition MXLEN : Z := 64.
Definition SXLEN : Z := MXLEN.
Definition MXL_ENCODING : Z := 2.

Definition between (a b x : Z) : bool := (a <=? x) && (x <=? b).

(** [CSRegister::privilege]: [None] is the [unreachable!] arm. *)
Definition csr_privilege (r : CSRegister) : option Privilege :=
  let c := csr_code r in
  if between 0x000 0x0FF c || between 0x400 0x4FF c || between 0x800 0x8FF c
     || between 0xC00 0xC7F c || between 0xC80 0xCBF c || between 0xCC0 0xCFF c
  then Some Unprivileged
  else if between 0x100 0x1FF c || between 0x500 0x57F c || between 0x580 0x5BF c
     || between 0x5C0 0x5FF c || between 0x900 0x97F c || between 0x980 0x9BF c
     || between 0x9C0 0x9FF c || between 0xD00 0xD7F c || between 0xD80 0xDBF c
     || between 0xDC0 0xDFF c
  then Some PSupervisor
  else if between 0x200 0x2FF c || between 0x600 0x67F c || between 0x680 0x6BF c
     || between 0x6C0 0x6FF c || between 0xA00 0xA7F c || between 0xA80 0xABF c
     || between 0xAC0 0xAFF c || between 0xE00 0xE7F c || between 0xE80 0xEBF c
     || between 0xEC0 0xEFF c
  then Some PHypervisor
  else if between 0x300 0x3FF c || between 0x700 0x77F c || between 0x780 0x79F c
     || between 0x7A0 0x7AF c || between 0x7B0 0x7BF c || between 0x7C0 0x7FF c
     || between 0xB00 0xB7F c || between 0xB80 0xBBF c || between 0xBC0 0xBFF c
     || between 0xF00 0xF7F c || between 0xF80 0xFBF c || between 0xFC0 0xFFF c
  then Some PMachine
  else None.

Definition is_read_only (r : CSRegister) : bool :=
  Z.land (Z.shiftr (csr_code r) 10) 3 =? 3.

(** *** WPRI fields *)
Definition WPRI_MASK_EMPTY : Z := 2 ^ 64 - 1.

Definition WPRI_MASK_MSTATUS : Z :=
  unot 64 (Z.lor (Z.lor (Z.lor (Z.lor (ushl 64 (ones 1) 0) (ushl 64 (ones 1) 2))
    (ushl 64 (ones 1) 4)) (ushl 64 (ones 9) 23)) (ushl 64 (ones 25) 38)).

Definition WPRI_MASK_MENVCFG : Z :=
  unot 64 (Z.lor (ushl 64 (ones 3) 1) (ushl 64 (ones 54) 8)).

Definition WPRI_MASK_MSECCFG : Z :=
  unot 64 (Z.lor (ushl 64 (ones 5) 3) (ushl 64 (ones (MXLEN - 10)) 10)).

Definition WPRI_MASK_SSTATUS : Z :=
  unot 64 (Z.lor (Z.lor (Z.lor (Z.lor (Z.lor (Z.lor (ushl 64 (ones 1) 0) (ushl 64 (ones 3) 2))
    (ushl 64 (ones 1) 7)) (ushl 64 (ones 2) 11)) (ushl 64 (ones 1) 17)) (ushl 64 (ones 12) 20))
    (ushl 64 (ones 29) 34)).

Definition WPRI_MASK_SENVCFG : Z :=
  unot 64 (Z.lor (ushl 64 (ones 3) 1) (ushl 64 (ones (SXLEN - 8)) 8)).

Definition WPRI_MASK_MNCAUSE : Z := unot 64 (ushl 64 (ones 1) (MXLEN - 1)).

Definition WPRI_MASK_MNSTATUS : Z :=
  unot 64 (Z.lor (Z.lor (Z.lor (ushl 64 (ones 3) 0) (ushl 64 (ones 3) 4)) (ushl 64 (ones 3) 8))
    (ushl 64 (ones (MXLEN - 13)) 13)).

Definition wpri_mask (r : CSRegister) : Z :=
  match r with
  | mstatus => WPRI_MASK_MSTATUS
  | menvcfg => WPRI_MASK_MENVCFG
  | mseccfg => WPRI_MASK_MSECCFG
  | sstatus => WPRI_MASK_SSTATUS
  | senvcfg => WPRI_MASK_SENVCFG
  | mncause => WPRI_MASK_MNCAUSE
  | mnstatus => WPRI_MASK_MNSTATUS
  | _ => WPRI_MASK_EMPTY
  end.

Definition clear_wpri_fields (r : CSRegister) (new_value : Z) : Z :=
  Z.land new_value (wpri_mask r).

(** *** WLRL fields *)
Definition INTERRUPT_BIT : Z := ushl 64 1 (64 - 1).

Definition WLRL_MCAUSE_VALUES : list Z :=
  [Z.lor INTERRUPT_BIT 1; Z.lor INTERRUPT_BIT 3; Z.lor INTERRUPT_BIT 5; Z.lor INTERRUPT_BIT 7;
   Z.lor INTERRUPT_BIT 9; Z.lor INTERRUPT_BIT 11;
   0; 1; 2; 3; 4; 5; 6; 7; 8; 9; 11; 12; 13; 15].

Definition WLRL_SCAUSE_VALUES : list Z :=
  [Z.lor INTERRUPT_BIT 1; Z.lor INTERRUPT_BIT 5; Z.lor INTERRUPT_BIT 9;
   0; 1; 2; 3; 4; 5; 6; 7; 8; 9; 12; 13; 15].

Definition legal_values (r : CSRegister) : list Z :=
  match r with
  | mcause => WLRL_MCAUSE_VALUES
  | scause => WLRL_SCAUSE_VALUES
  | _ => []
  end.

Definition is_legal (r : CSRegister) (new_value : Z) : bool :=
  let lv := legal_values r in
  match lv with [] => true | _ => existsb (Z.eqb new_value) lv end.

(** *** WARL fields *)
Definition WARL_MISA_VALUE : Z :=
  let MXL_MASK := ushl 64 MXL_ENCODING 62 in
  let ATOMIC_EXT := ushl 64 1 0 in
  let COMPRESSED_EXT := ushl 64 1 2 in
  let DOUBLE_EXT := ushl 64 1 3 in
  let SINGLE_EXT := ushl 64 1 5 in
  let RV64I_ISA_EXT := ushl 64 1 8 in
  let MULT_DIV_EXT := ushl 64 1 12 in
  let SUPERVISOR_EXT := ushl 64 1 18 in
  let USER_EXT := ushl 64 1 20 in
  Z.lor (Z.lor (Z.lor (Z.lor (Z.lor (Z.lor (Z.lor (Z.lor (Z.lor MXL_MASK ATOMIC_EXT)
    COMPRESSED_EXT) DOUBLE_EXT) SINGLE_EXT) SINGLE_EXT) RV64I_ISA_EXT) MULT_DIV_EXT)
    SUPERVISOR_EXT) USER_EXT.

Definition WARL_MASK_MEDELEG : Z :=
  unot 64 (Z.lor (Z.lor (Z.lor (ushl 64 (ones 1) 10) (ushl 64 (ones 1) 11))
    (ushl 64 (ones 1) 14)) (ushl 64 (ones (MXLEN - 16)) 16)).

Definition WARL_MASK_MIDELEG : Z :=
  unot 64 (Z.lor (Z.lor (Z.lor (Z.lor (Z.lor (Z.lor (Z.lor (ushl 64 (ones 1) 0)
    (ushl 64 (ones 1) 2)) (ushl 64 (ones 1) 4)) (ushl 64 (ones 1) 6)) (ushl 64 (ones 1) 8))
    (ushl 64 (ones 1) 10)) (ushl 64 (ones 4) 12)) (ushl 64 (ones (MXLEN - 16)) 16)).

Definition WARL_MASK_XTVEC : Z := unot 64 (ushl 64 (ones 1) 1).

Definition WARL_MASK_MIP_MIE : Z := Z.lor MACHINE_BIT_MASK SUPERVISOR_BIT_MASK.

Definition WARL_MASK_SIP_SIE : Z := SUPERVISOR_BIT_MASK.

Definition WARL_MASK_XEPC : Z := unot 64 1.

(** [None]: no update must take place. *)
Definition transform_warl_fields (r : CSRegister) (new_value : Z) : option Z :=
  match r with
  | misa => Some WARL_MISA_VALUE
  | medeleg => Some (Z.land new_value WARL_MASK_MEDELEG)
  | mideleg => Some (Z.land new_value WARL_MASK_MIDELEG)
  | mtvec | stvec => Some (Z.land new_value WARL_MASK_XTVEC)
  | mip | mie => Some (Z.land new_value WARL_MASK_MIP_MIE)
  | sip | sie => Some (Z.land new_value WARL_MASK_SIP_SIE)
  | mepc | sepc | mnepc => Some (Z.land new_value WARL_MASK_XEPC)
  | satp =>
      match Satp.get_MODE new_value with
      | None => None
      | Some (Satp.Sv _) => Some new_value
      | Some Satp.Bare => Some Satp.DEFAULT_VALUE
      end
  | mstatus => Some (apply_warl_mstatus new_value)
  | sstatus => Some (apply_warl_sstatus new_value)
  | mnstatus => Some (apply_warl_mnstatus new_value)
  | _ => Some new_value
  end.

Definition make_value_writable (r : CSRegister) (value : Z) : option Z :=
  let value := clear_wpri_fields r value in
  match transform_warl_fields r value with
  | None => None
  | Some value => if is_legal r value then Some value else None
  end.

(** *** Default values *)
Definition FFLAGS_DEFAULT : Z := 0.
Definition FRM_DEFAULT : Z := 0.

Definition MSTATUS_DEFAULT : Z :=
  let m := 0 in
  let m := set_SIE m false in
  let m := set_MIE m false in
  let m := set_SPIE m false in
  let m := set_MPIE m false in
  let m := set_SPP m SPP_Supervisor in
  let m := set_MPP m MPP_Supervisor in
  let m := set_UBE m false in
  let m := set_SBE m false in
  let m := set_MBE m false in
  let m := set_VS m Initial in
  let m := set_FS m Initial in
  let m := set_XS m Initial in
  let m := set_SD m false in
  let m := set_UXL m MXL64 in
  let m := set_SXL m MXL64 in
  let m := set_MPRV m false in
  let m := set_SUM m true in
  let m := set_MXR m false in
  let m := set_TVM m false in
  let m := set_TW m false in
  set_TSR m false.

(** [CSRegister::default_value] *)
Definition default_value (r : CSRegister) : Z :=
  match r with
  | mnscratch => 0
  | mnepc => 0
  | mnstatus => apply_warl_mnstatus 0
  | mncause => ushl 64 (ones 1) 31
  | cycle | time | instret | mcycle | minstret => 0
  | hpmcounter3 | hpmcounter4 | hpmcounter5 | hpmcounter6 | hpmcounter7 | hpmcounter8
  | hpmcounter9 | hpmcounter10 | hpmcounter11 | hpmcounter12 | hpmcounter13 | hpmcounter14
  | hpmcounter15 | hpmcounter16 | hpmcounter17 | hpmcounter18 | hpmcounter19 | hpmcounter20
  | hpmcounter21 | hpmcounter22 | hpmcounter23 | hpmcounter24 | hpmcounter25 | hpmcounter26
  | hpmcounter27 | hpmcounter28 | hpmcounter29 | hpmcounter30 | hpmcounter31 | mhpmcounter3
  | mhpmcounter4 | mhpmcounter5 | mhpmcounter6 | mhpmcounter7 | mhpmcounter8 | mhpmcounter9
  | mhpmcounter10 | mhpmcounter11 | mhpmcounter12 | mhpmcounter13 | mhpmcounter14
  | mhpmcounter15 | mhpmcounter16 | mhpmcounter17 | mhpmcounter18 | mhpmcounter19
  | mhpmcounter20 | mhpmcounter21 | mhpmcounter22 | mhpmcounter23 | mhpmcounter24
  | mhpmcounter25 | mhpmcounter26 | mhpmcounter27 | mhpmcounter28 | mhpmcounter29
  | mhpmcounter30 | mhpmcounter31 => 0
  | mhpmevent3 | mhpmevent4 | mhpmevent5 | mhpmevent6 | mhpmevent7 | mhpmevent8 | mhpmevent9
  | mhpmevent10 | mhpmevent11 | mhpmevent12 | mhpmevent13 | mhpmevent14 | mhpmevent15
  | mhpmevent16 | mhpmevent17 | mhpmevent18 | mhpmevent19 | mhpmevent20 | mhpmevent21
  | mhpmevent22 | mhpmevent23 | mhpmevent24 | mhpmevent25 | mhpmevent26 | mhpmevent27
  | mhpmevent28 | mhpmevent29 | mhpmevent30 | mhpmevent31 => 0
  | mcountinhibit => 0
  | scounteren | mcounteren => ones 32
  | fflags => FFLAGS_DEFAULT
  | frm => FRM_DEFAULT
  | fcsr => Z.land FFLAGS_DEFAULT (ushl 64 FRM_DEFAULT 5)
  | pmpcfg0 | pmpcfg2 | pmpcfg4 | pmpcfg6 | pmpcfg8 | pmpcfg10 | pmpcfg12 | pmpcfg14 => 0
  | pmpaddr0 | pmpaddr1 | pmpaddr2 | pmpaddr3 | pmpaddr4 | pmpaddr5 | pmpaddr6 | pmpaddr7
  | pmpaddr8 | pmpaddr9 | pmpaddr10 | pmpaddr11 | pmpaddr12 | pmpaddr13 | pmpaddr14 | pmpaddr15
  | pmpaddr16 | pmpaddr17 | pmpaddr18 | pmpaddr19 | pmpaddr20 | pmpaddr21 | pmpaddr22
  | pmpaddr23 | pmpaddr24 | pmpaddr25 | pmpaddr26 | pmpaddr27 | pmpaddr28 | pmpaddr29
  | pmpaddr30 | pmpaddr31 | pmpaddr32 | pmpaddr33 | pmpaddr34 | pmpaddr35 | pmpaddr36
  | pmpaddr37 | pmpaddr38 | pmpaddr39 | pmpaddr40 | pmpaddr41 | pmpaddr42 | pmpaddr43
  | pmpaddr44 | pmpaddr45 | pmpaddr46 | pmpaddr47 | pmpaddr48 | pmpaddr49 | pmpaddr50
  | pmpaddr51 | pmpaddr52 | pmpaddr53 | pmpaddr54 | pmpaddr55 | pmpaddr56 | pmpaddr57
  | pmpaddr58 | pmpaddr59 | pmpaddr60 | pmpaddr61 | pmpaddr62 | pmpaddr63 => 0
  | mhartid => 0
  | mvendorid => 0
  | marchid => 0
  | mimpid => 0
  | misa => WARL_MISA_VALUE
  | mscratch | sscratch => 0
  | sstatus => sstatus_from_mstatus MSTATUS_DEFAULT
  | mstatus => MSTATUS_DEFAULT
  | stvec | mtvec => 0
  | sie | mie => 0
  | satp => Satp.DEFAULT_VALUE
  | scause | mcause => 0
  | sepc | mepc => 0
  | stval | mtval | mtval2 => 0
  | sip | mip => 0
  | mtinst => 0
  | senvcfg | menvcfg => 0
  | mconfigptr => 0
  | medeleg => ones MXLEN
  | mideleg => ones MXLEN
  | mseccfg => 0
  | scontext => 0
  | hstatus => 0
  | hedeleg => 0
  | hideleg => 0
  | hie => 0
  | hcounteren => 0
  | hgeie => 0
  | htval => 0
  | hip => 0
  | hvip => 0
  | htinst => 0
  | hgeip => 0
  | henvcfg => 0
  | hgatp => 0
  | hcontext => 0
  | htimedelta => 0
  | vsstatus => 0
  | vsie => 0
  | vstvec => 0
  | vsscratch => 0
  | vsepc => 0
  | vscause => 0
  | vstval => 0
  | vsip => 0
  | vsatp => 0
  | tselect => 0
  | tdata1 => 0
  | tdata2 => 0
  | tdata3 => 0
  | tcontrol => 0
  | mcontext => 0
  | dcsr => 0
  | dpc => 0
  | dscratch0 => 0
  | dscratch1 => 0
  end.

(** *** Access checks *)
Definition check_privilege (reg : CSRegister) (mode : Mode) : option (result unit Exception) :=
  let? p := csr_privilege reg in
  Some (if privilege_lt (mode_privilege mode) p then Err IllegalInstruction else Ok tt).

Definition check_write (reg : CSRegister) : result unit Exception :=
  if is_read_only reg then Err IllegalInstruction else Ok tt.

(** ** The register file *)

(** The 4096 register values. *)
Record CSRegisters : Type := mkCSRegisters { csrs : list Z }.

(** [self.registers.read(reg as usize)] and [self.registers.write(reg as usize, v)]. *)
Definition raw_read (self : CSRegisters) (reg : CSRegister) : Z :=
  csrs self !!! Z.to_nat (csr_code reg).

Definition raw_write (self : CSRegisters) (reg : CSRegister) (v : Z) : CSRegisters :=
  mkCSRegisters (<[Z.to_nat (csr_code reg) := v]> (csrs self)).

Definition transform_write (self : CSRegisters) (reg : CSRegister) (value : Z) : CSRegister * Z :=
  match reg with
  | sstatus =>
      let ms := raw_read self mstatus in
      let sstatus_only := sstatus_from_mstatus value in
      let mstatus_only := Z.land ms (unot 64 SSTATUS_FIELDS_MASK) in
      (mstatus, Z.lor sstatus_only mstatus_only)
  | sip =>
      let mip_val := raw_read self mip in
      let sip_only := Z.land value WARL_MASK_SIP_SIE in
      let mip_only := Z.land mip_val (unot 64 WARL_MASK_SIP_SIE) in
      (mip, Z.lor sip_only mip_only)
  | sie =>
      let mie_val := raw_read self mie in
      let sie_only := Z.land value WARL_MASK_SIP_SIE in
      let mie_only := Z.land mie_val (unot 64 WARL_MASK_SIP_SIE) in
      (mie, Z.lor sie_only mie_only)
  | _ => (reg, value)
  end.

(** The register that holds the ground truth of [reg]. *)
Definition source_register (reg : CSRegister) : CSRegister :=
  match reg with
  | sstatus => mstatus
  | sip => mip
  | sie => mie
  | reg => reg
  end.

Definition transform_read (self : CSRegisters) (reg : CSRegister)
    (source_reg_value : option Z) : Z :=
  let source_reg_value :=
    match source_reg_value with
    | Some v => v
    | None => raw_read self (source_register reg)
    end in
  match reg with
  | sstatus => sstatus_from_mstatus source_reg_value
  | sip => Z.land source_reg_value WARL_MASK_SIP_SIE
  | sie => Z.land source_reg_value WARL_MASK_SIP_SIE
  | _ => source_reg_value
  end.

Definition csr_write (self : CSRegisters) (reg : CSRegister) (value : Z) : CSRegisters :=
  match make_value_writable reg value with
  | Some value =>
      let '(reg, value) := transform_write self reg value in
      raw_write self reg value
  | None => self
  end.

Definition csr_read (self : CSRegisters) (reg : CSRegister) : Z :=
  transform_read self reg None.

Definition csr_replace_value (self : CSRegisters) (reg : CSRegister) (value : Z) :
    Z * CSRegisters :=
  match make_value_writable reg value with
  | Some value =>
      let '(upd_reg, value) := transform_write self reg value in
      let old_value := raw_read self upd_reg in
      let self := raw_write self upd_reg value in
      (transform_read self reg (Some old_value), self)
  | None => (csr_read self reg, self)
  end.

Definition csr_set_bits (self : CSRegisters) (reg : CSRegister) (bits : Z) : Z * CSRegisters :=
  let old_value := csr_read self reg in
  let new_value := Z.lor old_value bits in
  (old_value, csr_write self reg new_value).

Definition csr_clear_bits (self : CSRegisters) (reg : CSRegister) (bits : Z) : Z * CSRegisters :=
  let old_value := csr_read self reg in
  let new_value := Z.land old_value (unot 64 bits) in
  (old_value, csr_write self reg new_value).

(** Mask of the interrupts that can be taken in [current_mode]. *)
Definition possible_interrupts (self : CSRegisters) (current_mode : Mode) : Z :=
  let ms := csr_read self mstatus in
  let ie_machine := if get_MIE ms then csr_read self mie else 0 in
  let ie_supervisor := if get_SIE ms then csr_read self sie else 0 in
  match current_mode with
  | User => Z.lor SUPERVISOR_BIT_MASK MACHINE_BIT_MASK
  | Supervisor => Z.lor ie_supervisor MACHINE_BIT_MASK
  | Machine => ie_machine
  end.

Definition get_trap_mode {TC} `{TrapContext TC} (self : CSRegisters) (trap_source : TC)
    (current_mode : Mode) : TrapMode :=
  if mode_le current_mode Supervisor then
    let deleg := match kind (TC := TC) with KInterrupt => mideleg | KException => medeleg end in
    let deleg_val := csr_read self deleg in
    if get_bit deleg_val (exception_code trap_source) then TSupervisor else TMachine
  else TMachine.

Definition get_trap_handler {TC} `{TrapContext TC} (self : CSRegisters) (trap_source : TC)
    (trap_mode : TrapMode) : option Z :=
  let xtvec := csr_read self (match trap_mode with TSupervisor => stvec | TMachine => mtvec end) in
  trap_handler_address trap_source xtvec.

Definition csr_reset (self : CSRegisters) : CSRegisters :=
  let self := mkCSRegisters (fold_left (fun r i => <[i := 0]> r) (seq 0 4096) (csrs self)) in
  fold_left (fun self reg => csr_write self reg (default_value reg)) CSRegister_iter self.


(** ** Enumeration lemmas *)

Lemma csr_code_range r : 0 <= csr_code r < 4096.
Proof. destruct r; cbn; lia. Qed.

Lemma try_parse_csr_code r : try_parse_csregister (csr_code r) = Some r.
Proof. by destruct r. Qed.

Lemma csr_code_inj r1 r2 : csr_code r1 = csr_code r2 -> r1 = r2.
Proof.
  intros H. pose proof (try_parse_csr_code r1) as E. rewrite H, try_parse_csr_code in E. by injection E.
Qed.

#[export] Instance CSRegister_eq_dec : EqDecision CSRegister.
Proof.
  intros r1 r2. destruct (decide (csr_code r1 = csr_code r2)) as [E | E].
  - left. by apply csr_code_inj.
  - right. congruence.
Defined.

Lemma try_parse_csregister_Some c r : try_parse_csregister c = Some r -> csr_code r = c.
Proof. intros H. apply find_some in H as [_ H]. by apply Z.eqb_eq. Qed.

Lemma CSRegister_iter_complete r : In r CSRegister_iter.
Proof.
  pose proof (try_parse_csr_code r) as H. unfold try_parse_csregister in H.
  apply find_some in H as [H _]. done.
Qed.

(** The [unreachable!] arm of [privilege] is unreachable. *)
Lemma csr_privilege_total r : is_Some (csr_privilege r).
Proof. destruct r; eexists; reflexivity. Qed.

(** ** The register file as an array *)
Definition csrs_wf (c : CSRegisters) : Prop :=
  length (csrs c) = 4096%nat /\ Forall (in_u 64) (csrs c).

Lemma raw_read_range c r : csrs_wf c -> in_u 64 (raw_read c r).
Proof.
  intros [Hl Hf]. unfold raw_read. pose proof (csr_code_range r).
  destruct (lookup_lt_is_Some_2 (csrs c) (Z.to_nat (csr_code r)) ltac:(lia)) as [v Hv].
  rewrite (list_lookup_total_correct _ _ _ Hv). by apply (Forall_lookup_1 _ _ _ _ Hf Hv).
Qed.

Lemma raw_write_wf c r v : csrs_wf c -> in_u 64 v -> csrs_wf (raw_write c r v).
Proof.
  intros [Hl Hf] Hv. split; cbn; [by rewrite length_insert | by apply Forall_insert].
Qed.

Lemma raw_read_write c r1 r2 v :
  csrs_wf c ->
  raw_read (raw_write c r1 v) r2 = if decide (r1 = r2) then v else raw_read c r2.
Proof.
  intros [Hl _]. unfold raw_read, raw_write; cbn [csrs].
  pose proof (csr_code_range r1). pose proof (csr_code_range r2). case_decide as D.
  - subst. by rewrite list_lookup_total_insert_eq by lia.
  - rewrite list_lookup_total_insert_ne; [done |]. intros E. apply D, csr_code_inj. lia.
Qed.

#[export] Hint Resolve raw_read_range raw_write_wf : rust_range.

(** ** The write filter *)

Lemma wpri_mask_range r : in_u 64 (wpri_mask r).
Proof. destruct r; range_compute. Qed.

Lemma clear_wpri_range r v : in_u 64 v -> in_u 64 (clear_wpri_fields r v).
Proof. intros. unfold clear_wpri_fields. solve_range. Qed.

Lemma WARL_MISA_VALUE_range : in_u 64 WARL_MISA_VALUE.
Proof. range_compute. Qed.

#[export] Hint Resolve clear_wpri_range WARL_MISA_VALUE_range : rust_range.

Lemma transform_warl_range r v v' :
  in_u 64 v -> transform_warl_fields r v = Some v' -> in_u 64 v'.
Proof.
  intros Hv H. destruct r; cbn [transform_warl_fields] in H; try (injection H as <-; solve_range).
  destruct (Satp.get_MODE v) as [[|l]|]; [| | done]; injection H as <-; [range_compute | done].
Qed.

(** [make_value_writable] only lets 64-bit values through. *)
Lemma make_value_writable_range r v v' :
  in_u 64 v -> make_value_writable r v = Some v' -> in_u 64 v'.
Proof.
  intros Hv H. unfold make_value_writable in H.
  destruct (transform_warl_fields r (clear_wpri_fields r v)) eqn:E; [|done].
  apply transform_warl_range in E; [|solve_range]. case_match; [|done]. by injection H as <-.
Qed.

(** A value a register may hold: the write filter keeps it as it is. *)
Definition csr_legal (r : CSRegister) (v : Z) : Prop :=
  in_u 64 v /\ make_value_writable r v = Some v.

#[export] Instance csr_legal_dec r v : Decision (csr_legal r v).
Proof. unfold csr_legal, in_u. apply _. Defined.

(** Bits of a mask under a filter: [(v & m) & m = v & m]. *)
Lemma land_idem v m : Z.land (Z.land v m) m = Z.land v m.
Proof. rewrite <- Z.land_assoc. by rewrite Z.land_diag. Qed.

Lemma land_full v : in_u 64 v -> Z.land v WPRI_MASK_EMPTY = v.
Proof. intros. change WPRI_MASK_EMPTY with (Z.ones 64). bitblast. Qed.

(** The bits [apply_warl_mstatus] sets are not reserved. *)
Lemma WPRI_MASK_MSTATUS_testbit i :
  0 <= i -> Z.testbit WPRI_MASK_MSTATUS i
  = (i <? 64) && negb ((i <? 1) || ((2 <=? i) && (i <? 3)) || ((4 <=? i) && (i <? 5))
      || ((23 <=? i) && (i <? 32)) || ((38 <=? i) && (i <? 63))).
Proof. intros. unfold WPRI_MASK_MSTATUS. rewrite !ones_spec by lia. bits_auto. Qed.

Lemma WPRI_MASK_SSTATUS_testbit i :
  0 <= i -> Z.testbit WPRI_MASK_SSTATUS i
  = (i <? 64) && negb ((i <? 1) || ((2 <=? i) && (i <? 5)) || ((7 <=? i) && (i <? 8))
      || ((11 <=? i) && (i <? 13)) || ((17 <=? i) && (i <? 18)) || ((20 <=? i) && (i <? 32))
      || ((34 <=? i) && (i <? 63))).
Proof. intros. unfold WPRI_MASK_SSTATUS. rewrite !ones_spec by lia. bits_auto. Qed.

Lemma land_mask_warl_mstatus v :
  in_u 64 v ->
  Z.land (apply_warl_mstatus (Z.land v WPRI_MASK_MSTATUS)) WPRI_MASK_MSTATUS
  = apply_warl_mstatus (Z.land v WPRI_MASK_MSTATUS).
Proof.
  intros Hv. apply Z.bits_inj'; intros i Hi. rewrite Z.land_spec.
  rewrite apply_warl_mstatus_testbit by (solve_range || lia).
  rewrite Z.land_spec, WPRI_MASK_MSTATUS_testbit by lia.
  repeat (bits_norm; try bits_split; cbn [negb]); done.
Qed.

Lemma land_mask_warl_sstatus v :
  in_u 64 v ->
  Z.land (apply_warl_sstatus (Z.land v WPRI_MASK_SSTATUS)) WPRI_MASK_SSTATUS
  = apply_warl_sstatus (Z.land v WPRI_MASK_SSTATUS).
Proof.
  intros Hv. apply Z.bits_inj'; intros i Hi. rewrite Z.land_spec.
  rewrite apply_warl_sstatus_testbit by (solve_range || lia).
  rewrite Z.land_spec, WPRI_MASK_SSTATUS_testbit by lia.
  repeat (bits_norm; try bits_split; cbn [negb]); done.
Qed.

Lemma apply_warl_mnstatus_testbit x i :
  in_u 64 x -> 0 <= i ->
  Z.testbit (apply_warl_mnstatus x) i
  = if (11 <=? i) && (i <? 13) then Z.testbit (mpp_fix x) (i - 11)
    else if (3 <=? i) && (i <? 4) then true
    else if (7 <=? i) && (i <? 8) then false else Z.testbit x i.
Proof.
  intros Hx Hi. unfold apply_warl_mnstatus.
  assert (E : get_MNPP (set_NMIE (set_MNPV x false) true) = get_MPP x) by by fields_simpl.
  rewrite E. unfold mpp_fix. autounfold with csr_fields.
  repeat (rewrite set_field_testbit by (first [lia | solve_range])).
  cbn [raw_bits bool_field Z.b2z].
  repeat (bits_norm; try bits_split; cbn [negb]); try done; try lia.
  - by replace (i - 3) with 0 by lia.
  - by rewrite Z.bits_0.
Qed.

Lemma WPRI_MASK_MNSTATUS_testbit i :
  0 <= i -> Z.testbit WPRI_MASK_MNSTATUS i
  = (i <? 64) && negb ((i <? 3) || ((4 <=? i) && (i <? 7)) || ((8 <=? i) && (i <? 11))
      || (13 <=? i)).
Proof.
  intros. unfold WPRI_MASK_MNSTATUS. change (MXLEN - 13) with 51.
  rewrite !ones_spec by lia. bits_auto.
Qed.

Lemma land_mask_warl_mnstatus v :
  in_u 64 v ->
  Z.land (apply_warl_mnstatus (Z.land v WPRI_MASK_MNSTATUS)) WPRI_MASK_MNSTATUS
  = apply_warl_mnstatus (Z.land v WPRI_MASK_MNSTATUS).
Proof.
  intros Hv. apply Z.bits_inj'; intros i Hi. rewrite Z.land_spec.
  rewrite apply_warl_mnstatus_testbit by (solve_range || lia).
  rewrite Z.land_spec, WPRI_MASK_MNSTATUS_testbit by lia.
  repeat (bits_norm; try bits_split; cbn [negb]); done.
Qed.

Lemma apply_warl_mnstatus_idem x :
  in_u 64 x -> apply_warl_mnstatus (apply_warl_mnstatus x) = apply_warl_mnstatus x.
Proof.
  intros Hx. apply Z.bits_inj'; intros i Hi.
  assert (E : mpp_fix (apply_warl_mnstatus x) = mpp_fix x).
  { rewrite <- (mpp_fix_warl x Hx), !(mpp_fix_raw (_ _)). cbn zeta.
    rewrite (raw_get_ext 11 2 (apply_warl_mnstatus x) (apply_warl_mstatus x)); [done | lia | lia |].
    intros j Hj. rewrite apply_warl_mnstatus_testbit, apply_warl_mstatus_testbit by (done || lia).
    bits_auto. }
  rewrite apply_warl_mnstatus_testbit by (solve_range || lia).
  rewrite E, apply_warl_mnstatus_testbit by (done || lia).
  repeat (bits_norm; try bits_split; cbn [negb]); done.
Qed.

Lemma is_legal_empty r v : legal_values r = [] -> is_legal r v = true.
Proof. unfold is_legal. by intros ->. Qed.

(** The WARL rule of [satp] keeps what it let through. *)
Lemma satp_warl_idem v v' :
  transform_warl_fields satp v = Some v' -> transform_warl_fields satp v' = Some v'.
Proof.
  cbn [transform_warl_fields]. destruct (Satp.get_MODE v) as [[|l]|] eqn:E; intros H;
    [| | done]; injection H as <-; [reflexivity |]. by rewrite E.
Qed.

(** Filtering twice is filtering once, in every register. *)
Lemma make_value_writable_idem r v v' :
  in_u 64 v -> make_value_writable r v = Some v' -> csr_legal r v'.
Proof.
  intros Hv H. pose proof (make_value_writable_range r v v' Hv H) as Hv'. split; [done |].
  revert H. unfold make_value_writable, clear_wpri_fields.
  destruct r; cbn [wpri_mask];
    try (rewrite (land_full v), (land_full v') by done);
    cbn [transform_warl_fields]; rewrite ?is_legal_empty by done;
    try (intros H; injection H as <-);
    try done; try (by rewrite ?land_idem).
  all: try (intros H; case_match eqn:E; [|done]; injection H as <-; by rewrite E).
  - by rewrite land_mask_warl_sstatus, apply_warl_sstatus_idem by solve_range.
  - intros H.
    destruct (transform_warl_fields satp v) as [w|] eqn:E; cbn [transform_warl_fields] in E;
      rewrite E in H; [|done]. rewrite is_legal_empty in H by done. injection H as <-.
    apply satp_warl_idem in E. cbn [transform_warl_fields] in E. rewrite E.
    by rewrite is_legal_empty.
  - by rewrite land_mask_warl_mstatus, apply_warl_mstatus_idem by solve_range.
  - by rewrite land_mask_warl_mnstatus, apply_warl_mnstatus_idem by solve_range.
Qed.

(** ** The field invariant of the register file *)

(** The registers that are views of another one have no storage of their own. *)
Definition is_shadow (r : CSRegister) : bool :=
  match r with sstatus | sip | sie => true | _ => false end.

(** Every stored register holds a value its field rules allow. *)
Definition csr_inv (c : CSRegisters) : Prop :=
  csrs_wf c /\ forall r, is_shadow r = false -> csr_legal r (raw_read c r).

Lemma dirty_mask v : in_u 64 v -> dirty (Z.land v WPRI_MASK_MSTATUS) = dirty v.
Proof.
  intros. apply dirty_ext; apply raw_get_ext; try lia; intros i Hi;
    rewrite Z.land_spec, WPRI_MASK_MSTATUS_testbit by lia; bits_auto.
Qed.

Lemma mpp_fix_ext x y :
  (forall i, 11 <= i < 13 -> Z.testbit x i = Z.testbit y i) -> mpp_fix x = mpp_fix y.
Proof. intros H. rewrite !mpp_fix_raw. by rewrite (raw_get_ext 11 2 x y) by (lia || done). Qed.

Lemma mpp_fix_mask v : in_u 64 v -> mpp_fix (Z.land v WPRI_MASK_MSTATUS) = mpp_fix v.
Proof.
  intros. apply mpp_fix_ext. intros i Hi.
  rewrite Z.land_spec, WPRI_MASK_MSTATUS_testbit by lia. bits_auto.
Qed.

(** The bits of a legal [mstatus]: SD summarises XS, FS and VS, UXL and SXL are
    2, MPP is not 2, and the reserved bits are 0. *)
Definition mstatus_bit (m i : Z) : bool :=
  if (63 <=? i) && (i <? 64) then dirty m
  else if (32 <=? i) && (i <? 34) then (i - 32 =? 1)
  else if (34 <=? i) && (i <? 36) then (i - 34 =? 1)
  else if (11 <=? i) && (i <? 13) then Z.testbit (mpp_fix m) (i - 11)
  else Z.testbit m i && Z.testbit WPRI_MASK_MSTATUS i.

Lemma filter_mstatus_testbit m i :
  in_u 64 m -> 0 <= i ->
  Z.testbit (apply_warl_mstatus (Z.land m WPRI_MASK_MSTATUS)) i = mstatus_bit m i.
Proof.
  intros Hm Hi. rewrite apply_warl_mstatus_testbit by (solve_range || lia).
  by rewrite dirty_mask, mpp_fix_mask, Z.land_spec by done.
Qed.

Lemma legal_mstatus_iff m :
  csr_legal mstatus m <-> in_u 64 m /\ forall i, 0 <= i -> Z.testbit m i = mstatus_bit m i.
Proof.
  unfold csr_legal, make_value_writable, clear_wpri_fields.
  cbn [wpri_mask transform_warl_fields]. rewrite is_legal_empty by done.
  split; intros [Hm H]; (split; [done |]).
  - intros i Hi. injection H as H. by rewrite <- filter_mstatus_testbit, H.
  - f_equal. apply Z.bits_inj'; intros i Hi. by rewrite filter_mstatus_testbit, H.
Qed.

Lemma SSTATUS_FIELDS_MASK_testbit i :
  0 <= i -> Z.testbit SSTATUS_FIELDS_MASK i
  = ((63 <=? i) && (i <? 64)) || ((32 <=? i) && (i <? 34)) || ((18 <=? i) && (i <? 20))
    || ((13 <=? i) && (i <? 17)) || ((8 <=? i) && (i <? 11)) || ((5 <=? i) && (i <? 7))
    || ((1 <=? i) && (i <? 2)).
Proof.
  intros. unfold SSTATUS_FIELDS_MASK. rewrite !Z.lor_spec.
  unfold SD, UXL, MXR, SUM, XS, FS, VS, SPP, UBE, SPIE, SIE.
  rewrite !field_mask_testbit by lia. bits_auto.
Qed.

(** Merging a filtered [sstatus] into a legal [mstatus] gives a legal [mstatus]. *)
Lemma merge_sstatus_legal m v :
  in_u 64 v -> csr_legal mstatus m ->
  csr_legal mstatus
    (Z.lor (Z.land (apply_warl_sstatus (Z.land v WPRI_MASK_SSTATUS)) SSTATUS_FIELDS_MASK)
           (Z.land m (unot 64 SSTATUS_FIELDS_MASK))).
Proof.
  intros Hv Hm. set (v' := apply_warl_sstatus _).
  assert (Hv' : in_u 64 v') by (unfold v'; solve_range).
  apply legal_mstatus_iff in Hm as [Hmr Hm]. apply legal_mstatus_iff.
  set (n := Z.lor _ _).
  assert (Hn : forall i, 0 <= i ->
    Z.testbit n i = if Z.testbit SSTATUS_FIELDS_MASK i then Z.testbit v' i else Z.testbit m i).
  { intros i Hi. unfold n. rewrite Z.lor_spec, !Z.land_spec, unot_testbit by lia.
    destruct (Z.testbit SSTATUS_FIELDS_MASK i); bits_auto. }
  assert (Hb : forall i, 0 <= i -> Z.testbit v' i
    = if (63 <=? i) && (i <? 64) then dirty v'
      else if (32 <=? i) && (i <? 34) then (i - 32 =? 1)
      else Z.testbit v i && Z.testbit WPRI_MASK_SSTATUS i).
  { intros i Hi. unfold v'. rewrite dirty_warl_sstatus by solve_range.
    by rewrite apply_warl_sstatus_testbit, Z.land_spec by (solve_range || lia). }
  split; [unfold n; solve_range |]. intros i Hi.
  assert (Hd : dirty n = dirty v').
  { apply dirty_ext; apply raw_get_ext; try lia; intros j Hj;
      rewrite Hn, SSTATUS_FIELDS_MASK_testbit by lia; bits_auto. }
  assert (Hp : mpp_fix n = mpp_fix m).
  { apply mpp_fix_ext. intros j Hj. rewrite Hn, SSTATUS_FIELDS_MASK_testbit by lia. bits_auto. }
  unfold mstatus_bit. rewrite Hd, Hp, (Hn i Hi), (Hm i Hi). unfold mstatus_bit.
  rewrite SSTATUS_FIELDS_MASK_testbit, WPRI_MASK_MSTATUS_testbit by lia.
  rewrite Hb, WPRI_MASK_SSTATUS_testbit by lia.
  repeat (bits_norm; try bits_split; cbn [negb]); done.
Qed.

(** Replacing the bits of a submask keeps a value inside the mask. *)
Lemma merge_masked_legal m v S M :
  Z.land S M = S -> Z.land m M = m ->
  Z.land (Z.lor (Z.land v S) (Z.land m (unot 64 S))) M
  = Z.lor (Z.land v S) (Z.land m (unot 64 S)).
Proof.
  intros HS Hm. apply Z.bits_inj'; intros i Hi.
  assert (HSi : Z.testbit S i && Z.testbit M i = Z.testbit S i) by by rewrite <- Z.land_spec, HS.
  assert (Hmi : Z.testbit m i && Z.testbit M i = Z.testbit m i) by by rewrite <- Z.land_spec, Hm.
  autorewrite with rust_bits. destruct (Z.testbit S i), (Z.testbit M i), (Z.testbit m i);
    cbn in *; try done; bits_auto.
Qed.

Lemma legal_mip_mie r m :
  r = mip \/ r = mie -> csr_legal r m <-> in_u 64 m /\ Z.land m WARL_MASK_MIP_MIE = m.
Proof.
  intros Hr. unfold csr_legal, make_value_writable, clear_wpri_fields.
  destruct Hr as [-> | ->]; cbn [wpri_mask transform_warl_fields]; rewrite is_legal_empty by done;
    split; intros [H1 H2]; (split; [done |]); rewrite land_full in * by done; congruence.
Qed.

(** Legality of the value [transform_write] stores, in the register it goes to. *)
Lemma transform_write_legal c r v :
  csr_inv c -> csr_legal r v ->
  let '(r', v') := transform_write c r v in is_shadow r' = false /\ csr_legal r' v'.
Proof.
  intros [Hw Hc] Hv. destruct (is_shadow r) eqn:E.
  - assert (Hm := Hc mstatus eq_refl). assert (Hip := Hc mip eq_refl).
    assert (Hie := Hc mie eq_refl). destruct r; try discriminate E; cbn [transform_write].
    + split; [done |]. destruct Hv as [Hvr Hv].
      unfold make_value_writable, clear_wpri_fields in Hv.
      cbn [wpri_mask transform_warl_fields] in Hv. rewrite is_legal_empty in Hv by done.
      injection Hv as Hv. rewrite <- Hv at 1. by apply merge_sstatus_legal.
    + split; [done |]. destruct Hv as [Hvr _]. apply legal_mip_mie; [by right |].
      apply legal_mip_mie in Hie as [Hr H]; [|by right].
      split; [solve_range |]. by apply merge_masked_legal.
    + split; [done |]. destruct Hv as [Hvr _]. apply legal_mip_mie; [by left |].
      apply legal_mip_mie in Hip as [Hr H]; [|by left].
      split; [solve_range |]. by apply merge_masked_legal.
  - replace (transform_write c r v) with (r, v) by (destruct r; done). done.
Qed.

Lemma raw_write_inv c r v :
  csr_inv c -> is_shadow r = false -> csr_legal r v -> csr_inv (raw_write c r v).
Proof.
  intros [Hw Hc] Hs Hv. split; [apply raw_write_wf; [done | apply Hv] |].
  intros r' Hr'. rewrite raw_read_write by done. case_decide; subst; auto.
Qed.

Lemma csr_write_inv c r v : csr_inv c -> in_u 64 v -> csr_inv (csr_write c r v).
Proof.
  intros Hc Hv. unfold csr_write. destruct (make_value_writable r v) as [v'|] eqn:E; [|done].
  apply make_value_writable_idem in E; [|done].
  pose proof (transform_write_legal c r v' Hc E) as H.
  destruct (transform_write c r v') as [r2 v2]. destruct H. by apply raw_write_inv.
Qed.

Lemma csr_read_range c r : csrs_wf c -> in_u 64 (csr_read c r).
Proof.
  intros H. unfold csr_read, transform_read.
  pose proof (raw_read_range c (source_register r) H). destruct r; try done; solve_range.
Qed.

Lemma csr_replace_inv c r v :
  csr_inv c -> in_u 64 v ->
  csr_inv (csr_replace_value c r v).2 /\ in_u 64 (csr_replace_value c r v).1.
Proof.
  intros Hc Hv. pose proof (csr_write_inv c r v Hc Hv) as Hw.
  unfold csr_replace_value, csr_write in *.
  destruct (make_value_writable r v) as [v'|] eqn:E.
  - destruct (transform_write c r v') as [r2 v2]. cbn [fst snd]. split; [done |].
    unfold transform_read. pose proof (raw_read_range c r2 (proj1 Hc)). destruct r; try done; solve_range.
  - split; [done | apply csr_read_range, Hc].
Qed.

(** A reset establishes the invariant, whatever the file held. *)
Lemma csr_reset_value c :
  csrs_wf c -> csr_reset c = csr_reset (mkCSRegisters (replicate 4096 0)).
Proof.
  intros [Hl _]. unfold csr_reset; cbn [csrs].
  assert (H : forall l : list Z, length l = 4096%nat ->
    fold_left (fun r i => <[i := 0]> r) (seq 0 4096) l = replicate 4096 0).
  { intros l Hn. by apply fold_insert_zero. }
  rewrite (H (csrs c) Hl). rewrite (H (replicate 4096 0)); [done |]. apply length_replicate.
Qed.

Lemma csr_write_wf c r v : csrs_wf c -> in_u 64 v -> csrs_wf (csr_write c r v).
Proof.
  intros Hc Hv. unfold csr_write. destruct (make_value_writable r v) as [v'|] eqn:E; [|done].
  apply make_value_writable_range in E; [|done].
  assert (H : in_u 64 (transform_write c r v').2).
  { pose proof (fun r => raw_read_range c r Hc). destruct r; cbn [transform_write snd]; solve_range. }
  destruct (transform_write c r v') as [r2 v2]. by apply raw_write_wf.
Qed.

Lemma default_value_range r : in_u 64 (default_value r).
Proof. destruct r; range_compute. Qed.

Lemma csr_reset_wf c : csrs_wf c -> csrs_wf (csr_reset c).
Proof.
  intros [Hl Hf]. unfold csr_reset. rewrite fold_insert_zero by done.
  assert (H : csrs_wf (mkCSRegisters (replicate 4096 0))).
  { split; cbn [csrs]; [apply length_replicate |]. apply Forall_replicate. unfold in_u. lia. }
  revert H. generalize (mkCSRegisters (replicate 4096 0)) CSRegister_iter.
  intros c' l. revert c'. induction l as [|r l IH]; intros c' H; cbn [fold_left]; [done |].
  apply IH, csr_write_wf; [done | apply default_value_range].
Qed.

(** Legality of all stored registers of a file, as a computation. *)
Definition csr_legal_all (c : CSRegisters) : bool :=
  forallb (fun r => is_shadow r || bool_decide (csr_legal r (raw_read c r))) CSRegister_iter.

Lemma csr_legal_all_spec c r :
  csr_legal_all c = true -> is_shadow r = false -> csr_legal r (raw_read c r).
Proof.
  intros H Hr. unfold csr_legal_all in H. rewrite forallb_forall in H.
  specialize (H r (CSRegister_iter_complete r)). rewrite Hr in H.
  by apply bool_decide_eq_true in H.
Qed.

Definition csr_after_reset : CSRegisters := csr_reset (mkCSRegisters (replicate 4096 0)).

Lemma csr_reset_legal : csr_legal_all csr_after_reset = true.
Proof. vm_compute. reflexivity. Qed.

Lemma csr_reset_inv c : csrs_wf c -> csr_inv (csr_reset c).
Proof.
  intros Hc. split; [by apply csr_reset_wf |]. intros r Hr. rewrite csr_reset_value by done.
  fold csr_after_reset. by apply csr_legal_all_spec; [apply csr_reset_legal |].
Qed.

(** ** Reads after writes *)

(** The bits a filtered [sstatus] can have are those of the shadow mask. *)
Lemma sstatus_filter_mask v :
  in_u 64 v ->
  Z.land (apply_warl_sstatus (Z.land v WPRI_MASK_SSTATUS)) SSTATUS_FIELDS_MASK
  = apply_warl_sstatus (Z.land v WPRI_MASK_SSTATUS).
Proof.
  intros Hv. apply Z.bits_inj'; intros i Hi. rewrite Z.land_spec.
  rewrite apply_warl_sstatus_testbit by (solve_range || lia).
  rewrite Z.land_spec, WPRI_MASK_SSTATUS_testbit, SSTATUS_FIELDS_MASK_testbit by lia.
  repeat (bits_norm; try bits_split; cbn [negb]); done.
Qed.

Lemma merge_land_mask a m S : Z.land (Z.lor (Z.land a S) (Z.land m (unot 64 S))) S = Z.land a S.
Proof.
  apply Z.bits_inj'; intros i Hi. autorewrite with rust_bits.
  destruct (Z.testbit S i); bits_auto.
Qed.

(** A register reads back as the value its filter let through, or unchanged
    when the filter refused the write. *)
Lemma csr_read_write_eq c r v :
  csrs_wf c -> in_u 64 v ->
  csr_read (csr_write c r v) r = default (csr_read c r) (make_value_writable r v).
Proof.
  intros Hc Hv. unfold csr_write. destruct (make_value_writable r v) as [v'|] eqn:E; [|done].
  cbn [default]. unfold csr_read, transform_read.
  destruct (is_shadow r) eqn:S.
  - destruct r; try discriminate S; cbn [transform_write source_register];
      rewrite raw_read_write, decide_True by done;
      unfold sstatus_from_mstatus; rewrite merge_land_mask;
      unfold make_value_writable, clear_wpri_fields in E;
      cbn [wpri_mask transform_warl_fields] in E; rewrite is_legal_empty in E by done;
      injection E as <-; rewrite ?land_idem; [by apply sstatus_filter_mask | done | done].
  - replace (transform_write c r v') with (r, v') by (destruct r; done).
    replace (source_register r) with r by (destruct r; done).
    rewrite raw_read_write, decide_True by done. destruct r; done.
Qed.

(** A write does not change a register with another ground truth. *)
Lemma csr_read_write_ne c r r' v :
  csrs_wf c -> source_register r <> source_register r' ->
  csr_read (csr_write c r v) r' = csr_read c r'.
Proof.
  intros Hc Hne. unfold csr_write. destruct (make_value_writable r v) as [v'|]; [|done].
  assert (H : (transform_write c r v').1 = source_register r) by (destruct r; done).
  destruct (transform_write c r v') as [r2 v2]. cbn in H. subst r2.
  unfold csr_read, transform_read. by rewrite raw_read_write, decide_False.
Qed.

(** Writing the supervisor view of the status register keeps the machine-only
    fields. *)
Lemma sstatus_write_frame c v :
  csrs_wf c ->
  Z.land (csr_read (csr_write c sstatus v) mstatus) (unot 64 SSTATUS_FIELDS_MASK)
  = Z.land (csr_read c mstatus) (unot 64 SSTATUS_FIELDS_MASK).
Proof.
  intros Hc. unfold csr_write. destruct (make_value_writable sstatus v) as [v'|] eqn:E; [|done].
  unfold csr_read, transform_read. cbn [transform_write source_register].
  rewrite raw_read_write, decide_True by done. apply Z.bits_inj'; intros i Hi.
  unfold sstatus_from_mstatus. autorewrite with rust_bits.
  destruct (Z.testbit SSTATUS_FIELDS_MASK i); bits_auto.
Qed.

Lemma possible_interrupts_range c m : csrs_wf c -> in_u 64 (possible_interrupts c m).
Proof.
  intros Hc. unfold possible_interrupts. pose proof (fun r => csr_read_range c r Hc).
  assert (in_u 64 MACHINE_BIT_MASK) by range_compute.
  assert (in_u 64 SUPERVISOR_BIT_MASK) by range_compute.
  assert (in_u 64 0) by range_compute.
  destruct m; repeat case_match; solve_range.
Qed.

#[export] Hint Resolve csr_write_inv csr_read_range csr_write_wf : rust_range.

(** Traps are delegated only from the modes below [Machine]. *)
Lemma get_trap_mode_ge {TC} `{TrapContext TC} c (t : TC) m :
  mode_le m (as_mode (get_trap_mode c t m)) = true.
Proof. unfold get_trap_mode. destruct m; cbn; try done; case_match; done. Qed.

End CSR.
Export CSR.
