(* ===== verification/Instruction.v ===== *)
(** Parsed instructions
    ([src/src/risc_v/interpreter/src/parser/instruction.rs]): the argument records
    of the instruction formats, the instruction type and the instruction width. *)

From S2P Require Import Prelude Registers CSRegisters.

Module Instruction.

Record RTypeArgs : Type := mkR { r_rd : XRegister; r_rs1 : XRegister; r_rs2 : XRegister }.

Record ITypeArgs : Type := mkI { i_rd : XRegister; i_rs1 : XRegister; i_imm : Z }.

Record SBTypeArgs : Type := mkSB { sb_rs1 : XRegister; sb_rs2 : XRegister; sb_imm : Z }.

Record UJTypeArgs : Type := mkUJ { uj_rd : XRegister; uj_imm : Z }.

Record CsrArgs : Type := mkCsr { csr_rd : XRegister; csr_rs1 : XRegister; csr_csr : CSRegister }.

Record CsriArgs : Type := mkCsri { csri_rd : XRegister; csri_imm : Z; csri_csr : CSRegister }.

Record FenceSet : Type := mkFenceSet { fs_i : bool; fs_o : bool; fs_r : bool; fs_w : bool }.

Record FenceArgs : Type := mkFence { pred : FenceSet; succ : FenceSet }.

(** RISC-V parsed instructions. *)
Inductive Instr : Type :=
(* RV64I R-type instructions *)
| Add (args : RTypeArgs)
| Sub (args : RTypeArgs)
| Xor (args : RTypeArgs)
| Or (args : RTypeArgs)
| And (args : RTypeArgs)
| Sll (args : RTypeArgs)
| Srl (args : RTypeArgs)
| Sra (args : RTypeArgs)
| Slt (args : RTypeArgs)
| Sltu (args : RTypeArgs)
| Addw (args : RTypeArgs)
| Subw (args : RTypeArgs)
| Sllw (args : RTypeArgs)
| Srlw (args : RTypeArgs)
| Sraw (args : RTypeArgs)
(* RV64I I-type instructions *)
| Addi (args : ITypeArgs)
| Addiw (args : ITypeArgs)
| Xori (args : ITypeArgs)
| Ori (args : ITypeArgs)
| Andi (args : ITypeArgs)
| Slli (args : ITypeArgs)
| Srli (args : ITypeArgs)
| Srai (args : ITypeArgs)
| Slliw (args : ITypeArgs)
| Srliw (args : ITypeArgs)
| Sraiw (args : ITypeArgs)
| Slti (args : ITypeArgs)
| Sltiu (args : ITypeArgs)
| Lb (args : ITypeArgs)
| Lh (args : ITypeArgs)
| Lw (args : ITypeArgs)
| Lbu (args : ITypeArgs)
| Lhu (args : ITypeArgs)
| Lwu (args : ITypeArgs)
| Ld (args : ITypeArgs)
| Fence (args : FenceArgs)
| FenceTso (args : FenceArgs)
| Ecall
| Ebreak
(* RV64I S-type instructions *)
| Sb (args : SBTypeArgs)
| Sh (args : SBTypeArgs)
| Sw (args : SBTypeArgs)
| Sd (args : SBTypeArgs)
(* RV64I B-type instructions *)
| Beq (args : SBTypeArgs)
| Bne (args : SBTypeArgs)
| Blt (args : SBTypeArgs)
| Bge (args : SBTypeArgs)
| Bltu (args : SBTypeArgs)
| Bgeu (args : SBTypeArgs)
(* RV64I U-type instructions *)
| Lui (args : UJTypeArgs)
| Auipc (args : UJTypeArgs)
(* RV64I jump instructions *)
| Jal (args : UJTypeArgs)
| Jalr (args : ITypeArgs)
(* RV64M division instructions *)
| Rem (args : RTypeArgs)
| Remu (args : RTypeArgs)
| Remw (args : RTypeArgs)
| Remuw (args : RTypeArgs)
(* Zicsr instructions *)
| Csrrw (args : CsrArgs)
| Csrrs (args : CsrArgs)
| Csrrc (args : CsrArgs)
| Csrrwi (args : CsriArgs)
| Csrrsi (args : CsriArgs)
| Csrrci (args : CsriArgs)
(* Zifencei instructions *)
| FenceI
(* Privileged instructions *)
| Mret
| Sret
| Mnret
| Wfi
| Unknown (instr : Z)
| UnknownCompressed (instr : Z).

(** [Instr::width]: the width of the instruction in bytes. *)
Definition width (i : Instr) : Z :=
  match i with
  | UnknownCompressed _ => 2
  | _ => 4
  end.

End Instruction.
Export Instruction.
