(* ===== verification/Parser.v ===== *)
(** The instruction parser ([src/src/risc_v/interpreter/src/parser.rs]): bit
    extraction, immediates, the decision tree of the uncompressed instructions,
    and the iterators that parse a block of bytes. *)

From S2P Require Import Prelude Registers CSRFields CSRegisters Instruction.

Module Parser.

(** ** Fields *)
Definition bits (bytes pos n : Z) : Z := Z.land (Z.shiftr bytes pos) (Z.shiftr (2 ^ 32 - 1) (32 - n)).

Definition bit (bytes pos : Z) : bool := negb (Z.land bytes (ushl 32 1 pos) =? 0).

Definition opcode (instr : Z) : Z := bits instr 0 7.
Definition funct3 (instr : Z) : Z := bits instr 12 3.
Definition funct7 (instr : Z) : Z := bits instr 25 7.
Definition rd (instr : Z) : option XRegister := parse_xregister (bits instr 7 5).
Definition rs1_bits (instr : Z) : Z := bits instr 15 5.
Definition rs1 (instr : Z) : option XRegister := parse_xregister (rs1_bits instr).
Definition rs2_bits (instr : Z) : Z := bits instr 20 5.
Definition rs2 (instr : Z) : option XRegister := parse_xregister (rs2_bits instr).
Definition imm_11_6 (instr : Z) : Z := ushl 32 (bits instr 26 6) 1.
Definition fm (instr : Z) : Z := bits instr 28 4.
Definition csr (instr : Z) : option CSRegister := try_parse_csregister (bits instr 20 12).

(** ** Immediates *)
Definition parse_i_imm (instr : Z) : Z := Z.shiftr (sint 32 (Z.land instr 0xFFF00000)) 20.

Definition parse_s_imm (instr : Z) : Z :=
  let instr_31_25 := sint 32 (Z.land instr 0xFE000000) in
  let instr_11_7 := sint 32 (Z.land instr 0x00000F80) in
  Z.lor (Z.shiftr instr_31_25 20) (Z.shiftr instr_11_7 7).

Definition parse_b_imm (instr : Z) : Z :=
  let instr_31 := sint 32 (Z.land instr 0x80000000) in
  let instr_7 := sint 32 (Z.land instr 0x00000080) in
  let instr_30_25 := sint 32 (Z.land instr 0x7E000000) in
  let instr_11_8 := sint 32 (Z.land instr 0x00000F00) in
  Z.lor (Z.lor (Z.lor (Z.shiftr instr_31 19) (sint 32 (Z.shiftl instr_7 4)))
    (Z.shiftr instr_30_25 20)) (Z.shiftr instr_11_8 7).

Definition parse_u_imm (instr : Z) : Z := sint 32 (Z.land instr 0xFFFFF000).

Definition parse_j_imm (instr : Z) : Z :=
  let instr_31 := sint 32 (Z.land instr 0x80000000) in
  let instr_19_12 := sint 32 (Z.land instr 0x000FF000) in
  let instr_20 := sint 32 (Z.land instr 0x00100000) in
  let instr_30_21 := sint 32 (Z.land instr 0x7FE00000) in
  Z.lor (Z.lor (Z.lor (Z.shiftr instr_31 11) instr_19_12) (Z.shiftr instr_20 9))
    (Z.shiftr instr_30_21 20).

(** ** Instruction formats (the [*_instr!] macros) *)
Definition r_instr (c : RTypeArgs -> Instr) (instr : Z) : option Instr :=
  let? d := rd instr in let? s1 := rs1 instr in let? s2 := rs2 instr in
  Some (c (mkR d s1 s2)).

Definition i_instr (c : ITypeArgs -> Instr) (instr : Z) : option Instr :=
  let? d := rd instr in let? s1 := rs1 instr in Some (c (mkI d s1 (parse_i_imm instr))).

Definition s_instr (c : SBTypeArgs -> Instr) (instr : Z) : option Instr :=
  let? s1 := rs1 instr in let? s2 := rs2 instr in Some (c (mkSB s1 s2 (parse_s_imm instr))).

Definition b_instr (c : SBTypeArgs -> Instr) (instr : Z) : option Instr :=
  let? s1 := rs1 instr in let? s2 := rs2 instr in Some (c (mkSB s1 s2 (parse_b_imm instr))).

Definition u_instr (c : UJTypeArgs -> Instr) (instr : Z) : option Instr :=
  let? d := rd instr in Some (c (mkUJ d (parse_u_imm instr))).

Definition j_instr (c : UJTypeArgs -> Instr) (instr : Z) : option Instr :=
  let? d := rd instr in Some (c (mkUJ d (parse_j_imm instr))).

Definition fence_instr (c : FenceArgs -> Instr) (instr : Z) : option Instr :=
  Some (c (mkFence
    (mkFenceSet (bit instr 27) (bit instr 26) (bit instr 25) (bit instr 24))
    (mkFenceSet (bit instr 23) (bit instr 22) (bit instr 21) (bit instr 20)))).

Definition csr_instr (c : CsrArgs -> Instr) (instr : Z) : option Instr :=
  match csr instr with
  | Some r => let? d := rd instr in let? s1 := rs1 instr in Some (c (mkCsr d s1 r))
  | None => Some (Unknown instr)
  end.

Definition csri_instr (c : CsriArgs -> Instr) (instr : Z) : option Instr :=
  match csr instr with
  | Some r => let? d := rd instr in Some (c (mkCsri d (bits instr 15 5) r))
  | None => Some (Unknown instr)
  end.

(** ** Constants *)
Definition OP_ARITH : Z := 0x33.
Definition OP_ARITH_W : Z := 0x3B.
Definition OP_ARITH_I : Z := 0x13.
Definition OP_LOAD : Z := 0x03.
Definition OP_ARITH_IW : Z := 0x1B.
Definition OP_SYNCH : Z := 0x0F.
Definition OP_SYS : Z := 0x73.
Definition OP_STORE : Z := 0x23.
Definition OP_BRANCH : Z := 0x63.
Definition OP_LUI : Z := 0x37.
Definition OP_AUIPC : Z := 0x17.
Definition OP_JAL : Z := 0x6F.
Definition OP_JALR : Z := 0x67.
Definition F3_0 : Z := 0.
Definition F3_1 : Z := 1.
Definition F3_2 : Z := 2.
Definition F3_3 : Z := 3.
Definition F3_4 : Z := 4.
Definition F3_5 : Z := 5.
Definition F3_6 : Z := 6.
Definition F3_7 : Z := 7.
Definition F7_0 : Z := 0.
Definition F7_1 : Z := 1.
Definition F7_8 : Z := 0x08.
Definition F7_20 : Z := 0x20.
Definition F7_24 : Z := 0x18.
Definition F7_56 : Z := 0x38.
Definition RS1_0 : Z := 0.
Definition RS2_0 : Z := 0.
Definition RS2_1 : Z := 1.
Definition RS2_2 : Z := 2.
Definition RS2_5 : Z := 5.
Definition FM_0 : Z := 0.
Definition FM_8 : Z := 8.

(** ** The decision tree *)

Definition parse_arith (instr : Z) : option Instr :=
  let unknown := Some (Unknown instr) in
  switch (funct3 instr)
    [(F3_0, switch (funct7 instr) [(F7_0, r_instr Add instr); (F7_20, r_instr Sub instr)] unknown);
     (F3_4, switch (funct7 instr) [(F7_0, r_instr Xor instr)] unknown);
     (F3_6, switch (funct7 instr) [(F7_0, r_instr Or instr); (F7_1, r_instr Rem instr)] unknown);
     (F3_7, switch (funct7 instr) [(F7_0, r_instr And instr); (F7_1, r_instr Remu instr)] unknown);
     (F3_1, switch (funct7 instr) [(F7_0, r_instr Sll instr)] unknown);
     (F3_5, switch (funct7 instr) [(F7_0, r_instr Srl instr); (F7_20, r_instr Sra instr)] unknown);
     (F3_2, switch (funct7 instr) [(F7_0, r_instr Slt instr)] unknown);
     (F3_3, switch (funct7 instr) [(F7_0, r_instr Sltu instr)] unknown)]
    unknown.

Definition parse_arith_w (instr : Z) : option Instr :=
  let unknown := Some (Unknown instr) in
  switch (funct3 instr)
    [(F3_0, switch (funct7 instr) [(F7_0, r_instr Addw instr); (F7_20, r_instr Subw instr)] unknown);
     (F3_1, r_instr Sllw instr);
     (F3_5, switch (funct7 instr) [(F7_0, r_instr Srlw instr); (F7_20, r_instr Sraw instr)] unknown);
     (F3_6, switch (funct7 instr) [(F7_1, r_instr Remw instr)] unknown);
     (F3_7, switch (funct7 instr) [(F7_1, r_instr Remuw instr)] unknown)]
    unknown.

Definition parse_arith_i (instr : Z) : option Instr :=
  let unknown := Some (Unknown instr) in
  switch (funct3 instr)
    [(F3_0, i_instr Addi instr);
     (F3_4, i_instr Xori instr);
     (F3_6, i_instr Ori instr);
     (F3_7, i_instr Andi instr);
     (F3_1, switch (imm_11_6 instr) [(F7_0, i_instr Slli instr)] unknown);
     (F3_5, switch (imm_11_6 instr) [(F7_0, i_instr Srli instr); (F7_20, i_instr Srai instr)] unknown);
     (F3_2, i_instr Slti instr);
     (F3_3, i_instr Sltiu instr)]
    unknown.

Definition parse_load (instr : Z) : option Instr :=
  switch (funct3 instr)
    [(F3_0, i_instr Lb instr); (F3_1, i_instr Lh instr); (F3_2, i_instr Lw instr);
     (F3_3, i_instr Ld instr); (F3_4, i_instr Lbu instr); (F3_5, i_instr Lhu instr);
     (F3_6, i_instr Lwu instr)]
    (Some (Unknown instr)).

Definition parse_arith_iw (instr : Z) : option Instr :=
  let unknown := Some (Unknown instr) in
  switch (funct3 instr)
    [(F3_0, i_instr Addiw instr);
     (F3_1, switch (imm_11_6 instr) [(F7_0, i_instr Slliw instr)] unknown);
     (F3_5, switch (imm_11_6 instr) [(F7_0, i_instr Srliw instr); (F7_20, i_instr Sraiw instr)] unknown)]
    unknown.

Definition parse_synch (instr : Z) : option Instr :=
  let unknown := Some (Unknown instr) in
  switch (funct3 instr)
    [(F3_0, switch (fm instr) [(FM_0, fence_instr Fence instr); (FM_8, fence_instr FenceTso instr)] unknown);
     (F3_1, Some FenceI)]
    unknown.

(** The pair match on [(rs2_bits(instr), funct7(instr))], arm by arm. *)
Definition parse_sys_priv (instr : Z) : option Instr :=
  let sel r f := (rs2_bits instr =? r) && (funct7 instr =? f) in
  if sel RS2_0 F7_0 then Some Ecall
  else if sel RS2_1 F7_0 then Some Ebreak
  else if sel RS2_2 F7_8 then Some Sret
  else if sel RS2_2 F7_24 then Some Mret
  else if sel RS2_2 F7_56 then Some Mnret
  else if sel RS2_5 F7_8 then Some Wfi
  else Some (Unknown instr).

Definition parse_sys (instr : Z) : option Instr :=
  let unknown := Some (Unknown instr) in
  switch (funct3 instr)
    [(F3_0, switch (rs1_bits instr) [(RS1_0, parse_sys_priv instr)] unknown);
     (F3_1, csr_instr Csrrw instr);
     (F3_2, csr_instr Csrrs instr);
     (F3_3, csr_instr Csrrc instr);
     (F3_5, csri_instr Csrrwi instr);
     (F3_6, csri_instr Csrrsi instr);
     (F3_7, csri_instr Csrrci instr)]
    unknown.

Definition parse_store (instr : Z) : option Instr :=
  switch (funct3 instr)
    [(F3_0, s_instr Sb instr); (F3_1, s_instr Sh instr); (F3_2, s_instr Sw instr);
     (F3_3, s_instr Sd instr)]
    (Some (Unknown instr)).

Definition parse_branch (instr : Z) : option Instr :=
  switch (funct3 instr)
    [(F3_0, b_instr Beq instr); (F3_1, b_instr Bne instr); (F3_4, b_instr Blt instr);
     (F3_5, b_instr Bge instr); (F3_6, b_instr Bltu instr); (F3_7, b_instr Bgeu instr)]
    (Some (Unknown instr)).

(** [parse_uncompressed_instruction]; [None] is a panic of the register parser. *)
Definition parse_uncompressed_instruction (instr : Z) : option Instr :=
  switch (opcode instr)
    [(OP_ARITH, parse_arith instr);
     (OP_ARITH_W, parse_arith_w instr);
     (OP_ARITH_I, parse_arith_i instr);
     (OP_LOAD, parse_load instr);
     (OP_ARITH_IW, parse_arith_iw instr);
     (OP_SYNCH, parse_synch instr);
     (OP_SYS, parse_sys instr);
     (OP_STORE, parse_store instr);
     (OP_BRANCH, parse_branch instr);
     (OP_LUI, u_instr Lui instr);
     (OP_AUIPC, u_instr Auipc instr);
     (OP_JAL, j_instr Jal instr);
     (OP_JALR, switch (funct3 instr) [(F3_0, i_instr Jalr instr)] (Some (Unknown instr)))]
    (Some (Unknown instr)).

Definition parse_compressed_instruction (bytes : Z) : Instr := UnknownCompressed bytes.

(** [parse(bytes, more)]: [more] is what the closure returns; it is only looked
    at for a 4-byte instruction. *)
Definition parse {E} (bytes : Z) (more : result Z E) : option (result Instr E) :=
  if negb (Z.land bytes 3 =? 3) then Some (Ok (parse_compressed_instruction bytes))
  else
    match more with
    | Err e => Some (Err e)
    | Ok upper =>
        let combined := Z.lor (ushl 32 upper 16) bytes in
        let? i := parse_uncompressed_instruction combined in Some (Ok i)
    end.

(** ** Parsing blocks *)

Fixpoint u16_iter_from_u8_iter (iter : list Z) : list Z :=
  match iter with
  | lower :: upper :: iter => (lower + 2 ^ 8 * upper) :: u16_iter_from_u8_iter iter
  | _ => []
  end.

(** The iterator ends at the first item that does not parse: the end of the
    input, or a 4-byte instruction cut in the middle. *)
Fixpoint instr_iter_from_u16_iter (iter : list Z) : option (list Instr) :=
  match iter with
  | [] => Some []
  | h :: rest =>
      if negb (Z.land h 3 =? 3) then
        match parse h (Err tt) with
        | Some (Ok i) => let? l := instr_iter_from_u16_iter rest in Some (i :: l)
        | Some (Err _) => Some []
        | None => None
        end
      else
        match rest with
        | [] => Some []
        | u :: rest =>
            match parse (E := unit) h (Ok u) with
            | Some (Ok i) => let? l := instr_iter_from_u16_iter rest in Some (i :: l)
            | Some (Err _) => Some []
            | None => None
            end
        end
  end.

Definition parse_block (bytes : list Z) : option (list Instr) :=
  instr_iter_from_u16_iter (u16_iter_from_u8_iter bytes).

(** [parse_block(&contents[range])]: the slice panics out of range. *)
Definition parse_segment (contents : list Z) (first last : nat) : option (list Instr) :=
  if (first <=? last)%nat && (last <=? length contents)%nat
  then parse_block (take (last - first) (drop first contents)) else None.
(** ** Fields, bit by bit *)

Lemma bits_raw x p n : 0 <= p -> 0 < n <= 32 -> bits x p n = raw_get p n x.
Proof.
  intros. unfold bits, raw_get. f_equal. change (2 ^ 32 - 1) with (Z.ones 32). bitblast.
Qed.

Lemma bits_range x p n : 0 <= p -> 0 < n <= 32 -> in_u n (bits x p n).
Proof. intros. rewrite bits_raw by lia. apply raw_get_range. lia. Qed.

Lemma bits_testbit x p n i :
  0 <= p -> 0 < n <= 32 -> 0 <= i -> Z.testbit (bits x p n) i = (i <? n) && Z.testbit x (i + p).
Proof. intros. rewrite bits_raw by lia. apply raw_get_testbit; lia. Qed.

(** [low] below [high], with [w] bits for [low]. *)
Definition cat (w low high : Z) : Z := low + 2 ^ w * high.

Lemma cat_testbit w low high i :
  0 <= w -> in_u w low -> 0 <= i ->
  Z.testbit (cat w low high) i = if i <? w then Z.testbit low i else Z.testbit high (i - w).
Proof.
  intros Hw Hl Hi. unfold cat.
  replace (low + 2 ^ w * high) with (Z.lor low (Z.shiftl high w)).
  - rewrite Z.lor_spec, shiftl_testbit by lia. bits_auto.
  - pose proof (Z.add_lor_land low (Z.shiftl high w)) as E.
    replace (Z.land low (Z.shiftl high w)) with 0 in E
      by (apply Z.bits_inj'; intros j Hj; destruct (decide (j < w)); bits_auto).
    rewrite Z.shiftl_mul_pow2 in * by lia. lia.
Qed.

Lemma raw_get_cat_low w low high p n :
  0 <= p -> 0 <= n -> p + n <= w -> in_u w low -> raw_get p n (cat w low high) = raw_get p n low.
Proof.
  intros. apply Z.bits_inj'; intros i Hi. repeat rewrite raw_get_testbit by lia.
  destruct (Z.ltb_spec i n); cbn; [|done]. rewrite cat_testbit by (done || lia). bits_auto.
Qed.

Lemma raw_get_cat_high w low high p n :
  0 <= w <= p -> 0 <= n -> in_u w low -> raw_get p n (cat w low high) = raw_get (p - w) n high.
Proof.
  intros. apply Z.bits_inj'; intros i Hi. repeat rewrite raw_get_testbit by lia.
  rewrite cat_testbit by (done || lia). bits_auto.
Qed.

(** A field that spans both parts. *)
Lemma raw_get_cat_span w low high p n :
  0 <= p < w -> w < p + n -> in_u w low ->
  raw_get p n (cat w low high) = cat (w - p) (raw_get p (w - p) low) (raw_get 0 (n - (w - p)) high).
Proof.
  intros. apply Z.bits_inj'; intros i Hi.
  rewrite cat_testbit by (lia || (apply raw_get_range; lia)).
  destruct (Z.ltb_spec i (w - p)); repeat rewrite raw_get_testbit by lia;
    rewrite cat_testbit by (done || lia); bits_auto.
Qed.

Lemma raw_get_raw_get p n q m x :
  0 <= p -> 0 <= n -> 0 <= q -> p + n <= m -> raw_get p n (raw_get q m x) = raw_get (q + p) n x.
Proof.
  intros. apply Z.bits_inj'; intros i Hi. repeat rewrite raw_get_testbit by lia. bits_auto.
Qed.

Lemma raw_get_sint p n w x :
  0 <= p -> 0 <= n -> 0 < w -> p + n <= w -> raw_get p n (sint w x) = raw_get p n x.
Proof.
  intros. apply Z.bits_inj'; intros i Hi. repeat rewrite raw_get_testbit by lia. bits_auto.
Qed.

Lemma raw_get_all n x : 0 <= n -> in_u n x -> raw_get 0 n x = x.
Proof. intros. unfold raw_get. rewrite Z.shiftr_0_r, Z.land_ones by lia. by apply wrap_small. Qed.

Lemma raw_get_wrap n x : 0 <= n -> raw_get 0 n x = wrap n x.
Proof. intros. unfold raw_get. by rewrite Z.shiftr_0_r, Z.land_ones by lia. Qed.

Lemma cat_range w n low high :
  0 <= w <= n -> in_u w low -> in_u (n - w) high -> in_u n (cat w low high).
Proof.
  unfold in_u, cat. intros Hw Hl Hh. replace n with (w + (n - w)) by lia.
  rewrite Z.pow_add_r by lia. nia.
Qed.

(** Splitting a field into its low and high part loses nothing. *)
Lemma cat_raw_get w n p q x :
  0 <= w -> 0 <= n -> 0 <= p -> q = p + w ->
  cat w (raw_get p w x) (raw_get q n x) = raw_get p (w + n) x.
Proof.
  intros ? ? ? ->. apply Z.bits_inj'; intros i Hi.
  rewrite cat_testbit by (lia || (apply raw_get_range; lia)).
  destruct (Z.ltb_spec i w); repeat rewrite raw_get_testbit by lia; bits_auto.
Qed.

(** *** Immediates as the fields they are assembled from *)
Ltac imm_blast :=
  unfold parse_i_imm, parse_s_imm, parse_b_imm, parse_u_imm, parse_j_imm;
  change 0xFFF00000 with (Z.shiftl (Z.ones 12) 20);
  change 0xFE000000 with (Z.shiftl (Z.ones 7) 25);
  change 0x00000F80 with (Z.shiftl (Z.ones 5) 7);
  change 0x80000000 with (Z.shiftl (Z.ones 1) 31);
  change 0x00000080 with (Z.shiftl (Z.ones 1) 7);
  change 0x7E000000 with (Z.shiftl (Z.ones 6) 25);
  change 0x00000F00 with (Z.shiftl (Z.ones 4) 8);
  change 0xFFFFF000 with (Z.shiftl (Z.ones 20) 12);
  change 0x000FF000 with (Z.shiftl (Z.ones 8) 12);
  change 0x00100000 with (Z.shiftl (Z.ones 1) 20);
  change 0x7FE00000 with (Z.shiftl (Z.ones 10) 21);
  apply Z.bits_inj'; intros i Hi;
  repeat (progress (autorewrite with rust_bits; bits_norm; try bits_split;
    repeat rewrite cat_testbit by (lia || (apply bits_range; lia) || range_compute);
    repeat rewrite bits_testbit by lia; cbn [negb]));
  try first [ reflexivity | (f_equal; lia) | (repeat f_equal; lia) | (exfalso; lia) ].

Lemma parse_i_imm_fields x : parse_i_imm x = sint 12 (bits x 20 12).
Proof. imm_blast. Qed.

Lemma parse_s_imm_fields x : parse_s_imm x = sint 12 (cat 5 (bits x 7 5) (bits x 25 7)).
Proof. imm_blast. Qed.

Lemma parse_b_imm_fields x :
  parse_b_imm x
  = sint 13 (cat 1 0 (cat 4 (bits x 8 4) (cat 6 (bits x 25 6) (cat 1 (bits x 7 1) (bits x 31 1))))).
Proof. imm_blast. Qed.

Lemma parse_u_imm_fields x : parse_u_imm x = sint 32 (cat 12 0 (bits x 12 20)).
Proof. imm_blast. Qed.

Lemma parse_j_imm_fields x :
  parse_j_imm x
  = sint 21 (cat 1 0 (cat 10 (bits x 21 10) (cat 1 (bits x 20 1) (cat 8 (bits x 12 8) (bits x 31 1))))).
Proof. imm_blast. Qed.

End Parser.
Export Parser.
