(* ===== verification/Encode.v ===== *)
(** The instruction encoder, as a specification of the parser: the RISC-V formats
    laid out as fields, the words the parser accepts for each instruction, and the
    two round trips between words and instructions.  Nothing in the program
    encodes instructions; this file states what [parse_uncompressed_instruction]
    of [src/src/risc_v/interpreter/src/parser.rs] is meant to invert. *)

From S2P Require Import Prelude Registers CSRFields CSRegisters Instruction Parser.

Module Encode.

(** The six fields of a 32-bit instruction word, least significant first. *)
Definition word5 (op d f3 s1 s2 f7 : Z) : Z :=
  cat 7 op (cat 5 d (cat 3 f3 (cat 5 s1 (cat 5 s2 f7)))).

Definition enc_r (op f3 f7 : Z) (a : RTypeArgs) : Z :=
  word5 op (xcode (r_rd a)) f3 (xcode (r_rs1 a)) (xcode (r_rs2 a)) f7.

Definition enc_i (op f3 : Z) (a : ITypeArgs) : Z :=
  word5 op (xcode (i_rd a)) f3 (xcode (i_rs1 a)) (raw_get 0 5 (i_imm a)) (raw_get 5 7 (i_imm a)).

Definition enc_s (op f3 : Z) (a : SBTypeArgs) : Z :=
  word5 op (raw_get 0 5 (sb_imm a)) f3 (xcode (sb_rs1 a)) (xcode (sb_rs2 a)) (raw_get 5 7 (sb_imm a)).

Definition enc_b (op f3 : Z) (a : SBTypeArgs) : Z :=
  word5 op (cat 1 (raw_get 11 1 (sb_imm a)) (raw_get 1 4 (sb_imm a))) f3
    (xcode (sb_rs1 a)) (xcode (sb_rs2 a)) (cat 6 (raw_get 5 6 (sb_imm a)) (raw_get 12 1 (sb_imm a))).

Definition enc_u (op : Z) (a : UJTypeArgs) : Z :=
  word5 op (xcode (uj_rd a)) (raw_get 12 3 (uj_imm a)) (raw_get 15 5 (uj_imm a))
    (raw_get 20 5 (uj_imm a)) (raw_get 25 7 (uj_imm a)).

Definition enc_j (op : Z) (a : UJTypeArgs) : Z :=
  word5 op (xcode (uj_rd a)) (raw_get 12 3 (uj_imm a)) (raw_get 15 5 (uj_imm a))
    (cat 1 (raw_get 11 1 (uj_imm a)) (raw_get 1 4 (uj_imm a)))
    (cat 6 (raw_get 5 6 (uj_imm a)) (raw_get 20 1 (uj_imm a))).

Definition enc_csr (f3 : Z) (a : CsrArgs) : Z :=
  word5 OP_SYS (xcode (csr_rd a)) f3 (xcode (csr_rs1 a))
    (raw_get 0 5 (csr_code (csr_csr a))) (raw_get 5 7 (csr_code (csr_csr a))).

Definition enc_csri (f3 : Z) (a : CsriArgs) : Z :=
  word5 OP_SYS (xcode (csri_rd a)) f3 (csri_imm a)
    (raw_get 0 5 (csr_code (csri_csr a))) (raw_get 5 7 (csr_code (csri_csr a))).

(** The four bits of a fence set, [w] least significant. *)
Definition enc_fence_set (f : FenceSet) : Z :=
  Z.b2z (fs_w f) + 2 * Z.b2z (fs_r f) + 4 * Z.b2z (fs_o f) + 8 * Z.b2z (fs_i f).

Definition fence_hi (fm : Z) (a : FenceArgs) : Z :=
  cat 4 (enc_fence_set (succ a)) (cat 4 (enc_fence_set (pred a)) fm).

Definition enc_fence (fm : Z) (a : FenceArgs) : Z :=
  word5 OP_SYNCH 0 F3_0 0 (raw_get 0 5 (fence_hi fm a)) (raw_get 5 7 (fence_hi fm a)).

Definition encode (i : Instr) : Z :=
  match i with
  | Add a => enc_r OP_ARITH F3_0 F7_0 a
  | Sub a => enc_r OP_ARITH F3_0 F7_20 a
  | Xor a => enc_r OP_ARITH F3_4 F7_0 a
  | Or a => enc_r OP_ARITH F3_6 F7_0 a
  | And a => enc_r OP_ARITH F3_7 F7_0 a
  | Sll a => enc_r OP_ARITH F3_1 F7_0 a
  | Srl a => enc_r OP_ARITH F3_5 F7_0 a
  | Sra a => enc_r OP_ARITH F3_5 F7_20 a
  | Slt a => enc_r OP_ARITH F3_2 F7_0 a
  | Sltu a => enc_r OP_ARITH F3_3 F7_0 a
  | Addw a => enc_r OP_ARITH_W F3_0 F7_0 a
  | Subw a => enc_r OP_ARITH_W F3_0 F7_20 a
  | Sllw a => enc_r OP_ARITH_W F3_1 F7_0 a
  | Srlw a => enc_r OP_ARITH_W F3_5 F7_0 a
  | Sraw a => enc_r OP_ARITH_W F3_5 F7_20 a
  | Rem a => enc_r OP_ARITH F3_6 F7_1 a
  | Remu a => enc_r OP_ARITH F3_7 F7_1 a
  | Remw a => enc_r OP_ARITH_W F3_6 F7_1 a
  | Remuw a => enc_r OP_ARITH_W F3_7 F7_1 a
  | Addi a => enc_i OP_ARITH_I F3_0 a
  | Addiw a => enc_i OP_ARITH_IW F3_0 a
  | Xori a => enc_i OP_ARITH_I F3_4 a
  | Ori a => enc_i OP_ARITH_I F3_6 a
  | Andi a => enc_i OP_ARITH_I F3_7 a
  | Slli a => enc_i OP_ARITH_I F3_1 a
  | Srli a => enc_i OP_ARITH_I F3_5 a
  | Srai a => enc_i OP_ARITH_I F3_5 a
  | Slliw a => enc_i OP_ARITH_IW F3_1 a
  | Srliw a => enc_i OP_ARITH_IW F3_5 a
  | Sraiw a => enc_i OP_ARITH_IW F3_5 a
  | Slti a => enc_i OP_ARITH_I F3_2 a
  | Sltiu a => enc_i OP_ARITH_I F3_3 a
  | Lb a => enc_i OP_LOAD F3_0 a
  | Lh a => enc_i OP_LOAD F3_1 a
  | Lw a => enc_i OP_LOAD F3_2 a
  | Ld a => enc_i OP_LOAD F3_3 a
  | Lbu a => enc_i OP_LOAD F3_4 a
  | Lhu a => enc_i OP_LOAD F3_5 a
  | Lwu a => enc_i OP_LOAD F3_6 a
  | Jalr a => enc_i OP_JALR F3_0 a
  | Sb a => enc_s OP_STORE F3_0 a
  | Sh a => enc_s OP_STORE F3_1 a
  | Sw a => enc_s OP_STORE F3_2 a
  | Sd a => enc_s OP_STORE F3_3 a
  | Beq a => enc_b OP_BRANCH F3_0 a
  | Bne a => enc_b OP_BRANCH F3_1 a
  | Blt a => enc_b OP_BRANCH F3_4 a
  | Bge a => enc_b OP_BRANCH F3_5 a
  | Bltu a => enc_b OP_BRANCH F3_6 a
  | Bgeu a => enc_b OP_BRANCH F3_7 a
  | Lui a => enc_u OP_LUI a
  | Auipc a => enc_u OP_AUIPC a
  | Jal a => enc_j OP_JAL a
  | Csrrw a => enc_csr F3_1 a
  | Csrrs a => enc_csr F3_2 a
  | Csrrc a => enc_csr F3_3 a
  | Csrrwi a => enc_csri F3_5 a
  | Csrrsi a => enc_csri F3_6 a
  | Csrrci a => enc_csri F3_7 a
  | Fence a => enc_fence FM_0 a
  | FenceTso a => enc_fence FM_8 a
  | FenceI => word5 OP_SYNCH 0 F3_1 0 0 0
  | Ecall => word5 OP_SYS 0 F3_0 RS1_0 RS2_0 F7_0
  | Ebreak => word5 OP_SYS 0 F3_0 RS1_0 RS2_1 F7_0
  | Sret => word5 OP_SYS 0 F3_0 RS1_0 RS2_2 F7_8
  | Mret => word5 OP_SYS 0 F3_0 RS1_0 RS2_2 F7_24
  | Mnret => word5 OP_SYS 0 F3_0 RS1_0 RS2_2 F7_56
  | Wfi => word5 OP_SYS 0 F3_0 RS1_0 RS2_5 F7_8
  | Unknown instr => instr
  | UnknownCompressed instr => instr
  end.

(** The instructions a word can carry: immediates in the range of their format. *)
Definition encodable (i : Instr) : Prop :=
  match i with
  | Addi a | Addiw a | Xori a | Ori a | Andi a | Slti a | Sltiu a | Lb a | Lh a | Lw a | Ld a |
  Lbu a | Lhu a | Lwu a | Jalr a => in_s 12 (i_imm a)
  | Slli a | Srli a | Slliw a | Srliw a => in_u 6 (i_imm a)
  | Srai a | Sraiw a => in_u 6 (i_imm a - 2 ^ 10)
  | Sb a | Sh a | Sw a | Sd a => in_s 12 (sb_imm a)
  | Beq a | Bne a | Blt a | Bge a | Bltu a | Bgeu a => in_s 13 (sb_imm a) /\ Z.testbit (sb_imm
  a) 0 = false
  | Lui a | Auipc a => in_s 32 (uj_imm a) /\ raw_get 0 12 (uj_imm a) = 0
  | Jal a => in_s 21 (uj_imm a) /\ Z.testbit (uj_imm a) 0 = false
  | Csrrwi a | Csrrsi a | Csrrci a => in_u 5 (csri_imm a)
  | Unknown _ | UnknownCompressed _ => False
  | _ => True
  end.

(** The instructions whose word is determined: the parser leaves unread the
    [funct7] of [Sllw], the registers of the fences, all of [FenceI] but its
    opcode and [funct3], and the [rd] of the argumentless system instructions. *)
Definition strict (i : Instr) : bool :=
  match i with
  | Sllw _ | Fence _ | FenceTso _ | FenceI => false
  | Ecall | Ebreak | Sret | Mret | Mnret | Wfi => false
  | Unknown _ | UnknownCompressed _ => false
  | _ => true
  end.

(** ** The fields of an encoded word *)

Ltac side :=
  try done; try lia;
  repeat first [ apply xcode_range | apply raw_get_range; lia | apply cat_range; [lia | |]
               | range_compute | progress cbn ];
  try done; try lia.

Section Word5.
Context (op d f3 s1 s2 f7 : Z).
Context (Hop : in_u 7 op) (Hd : in_u 5 d) (H3 : in_u 3 f3) (H1 : in_u 5 s1) (H2 : in_u 5 s2)
  (H7 : in_u 7 f7).

Ltac field := intros; unfold word5;
  repeat (rewrite raw_get_cat_high by side); repeat (rewrite raw_get_cat_low by side);
  try (rewrite raw_get_all by side); f_equal; lia.

Lemma word5_op : raw_get 0 7 (word5 op d f3 s1 s2 f7) = op.
Proof using All. unfold word5. rewrite raw_get_cat_low by side. by apply raw_get_all. Qed.

(** A field inside one of the other five. *)
Lemma word5_d p n :
  7 <= p -> 0 <= n -> p + n <= 12 -> raw_get p n (word5 op d f3 s1 s2 f7) = raw_get (p - 7) n d.
Proof using All. field. Qed.

Lemma word5_f3 p n :
  12 <= p -> 0 <= n -> p + n <= 15 -> raw_get p n (word5 op d f3 s1 s2 f7) = raw_get (p - 12) n f3.
Proof using All. field. Qed.

Lemma word5_s1 p n :
  15 <= p -> 0 <= n -> p + n <= 20 -> raw_get p n (word5 op d f3 s1 s2 f7) = raw_get (p - 15) n s1.
Proof using All. field. Qed.

Lemma word5_s2 p n :
  20 <= p -> 0 <= n -> p + n <= 25 -> raw_get p n (word5 op d f3 s1 s2 f7) = raw_get (p - 20) n s2.
Proof using All. field. Qed.

Lemma word5_f7 p n :
  25 <= p -> 0 <= n -> raw_get p n (word5 op d f3 s1 s2 f7) = raw_get (p - 25) n f7.
Proof using All. field. Qed.

(** Fields that span several of them, as they are assembled. *)
Lemma word5_hi : raw_get 20 12 (word5 op d f3 s1 s2 f7) = cat 5 s2 f7.
Proof using All.
  unfold word5. repeat (rewrite raw_get_cat_high by side). by rewrite raw_get_all by side.
Qed.

Lemma word5_hi20 :
  raw_get 12 20 (word5 op d f3 s1 s2 f7) = cat 3 f3 (cat 5 s1 (cat 5 s2 f7)).
Proof using All.
  unfold word5. repeat (rewrite raw_get_cat_high by side). by rewrite raw_get_all by side.
Qed.

Lemma word5_21_10 :
  raw_get 21 10 (word5 op d f3 s1 s2 f7) = cat 4 (raw_get 1 4 s2) (raw_get 0 6 f7).
Proof using All.
  unfold word5. repeat (rewrite raw_get_cat_high by side). by rewrite raw_get_cat_span by side.
Qed.

Lemma word5_12_8 : raw_get 12 8 (word5 op d f3 s1 s2 f7) = cat 3 f3 s1.
Proof using All.
  unfold word5. repeat (rewrite raw_get_cat_high by side). rewrite raw_get_cat_span by side.
  cbn -[raw_get cat]. rewrite raw_get_cat_low by side. by rewrite !raw_get_all by side.
Qed.

Lemma word5_range : in_u 32 (word5 op d f3 s1 s2 f7).
Proof using All. unfold word5. repeat (apply cat_range; side). Qed.
End Word5.

(** Every word is made of its six fields. *)
Lemma word5_split w :
  in_u 32 w ->
  word5 (raw_get 0 7 w) (raw_get 7 5 w) (raw_get 12 3 w) (raw_get 15 5 w) (raw_get 20 5 w)
    (raw_get 25 7 w) = w.
Proof.
  intros H. unfold word5. repeat rewrite cat_raw_get by lia. by apply raw_get_all.
Qed.

(** ** What the parser reads in an encoded word *)
Section ParseWord5.
Context (op d f3 s1 s2 f7 : Z).
Context (Hop : in_u 7 op) (Hd : in_u 5 d) (H3 : in_u 3 f3) (H1 : in_u 5 s1) (H2 : in_u 5 s2)
  (H7 : in_u 7 f7).

Lemma opcode_word5 : opcode (word5 op d f3 s1 s2 f7) = op.
Proof using All. unfold opcode. rewrite bits_raw by lia. by apply word5_op. Qed.

Lemma funct3_word5 : funct3 (word5 op d f3 s1 s2 f7) = f3.
Proof using All.
  unfold funct3. rewrite bits_raw, word5_f3 by side. by apply raw_get_all.
Qed.

Lemma funct7_word5 : funct7 (word5 op d f3 s1 s2 f7) = f7.
Proof using All.
  unfold funct7. rewrite bits_raw, word5_f7 by side. by apply raw_get_all.
Qed.

Lemma rd_word5 r : d = xcode r -> rd (word5 op d f3 s1 s2 f7) = Some r.
Proof using All.
  intros E. unfold rd. rewrite bits_raw, word5_d, raw_get_all by side. rewrite E. apply parse_xcode.
Qed.

Lemma rs1_bits_word5 : rs1_bits (word5 op d f3 s1 s2 f7) = s1.
Proof using All. unfold rs1_bits. rewrite bits_raw, word5_s1 by side. by apply raw_get_all. Qed.

Lemma rs2_bits_word5 : rs2_bits (word5 op d f3 s1 s2 f7) = s2.
Proof using All. unfold rs2_bits. rewrite bits_raw, word5_s2 by side. by apply raw_get_all. Qed.

Lemma rs1_word5 r : s1 = xcode r -> rs1 (word5 op d f3 s1 s2 f7) = Some r.
Proof using All. intros E. unfold rs1. rewrite rs1_bits_word5, E. apply parse_xcode. Qed.

Lemma rs2_word5 r : s2 = xcode r -> rs2 (word5 op d f3 s1 s2 f7) = Some r.
Proof using All. intros E. unfold rs2. rewrite rs2_bits_word5, E. apply parse_xcode. Qed.

Lemma imm_11_6_word5 : imm_11_6 (word5 op d f3 s1 s2 f7) = 2 * raw_get 1 6 f7.
Proof using All.
  unfold imm_11_6, ushl. rewrite bits_raw, word5_f7 by side.
  pose proof (raw_get_range 1 6 f7 ltac:(lia)) as R. unfold in_u in R.
  rewrite Z.shiftl_mul_pow2 by lia. change (26 - 25) with 1. rewrite wrap_small; unfold in_u; lia.
Qed.

(** The twelve high bits hold [imm]. *)
Lemma hi_word5 imm :
  s2 = raw_get 0 5 imm -> f7 = raw_get 5 7 imm ->
  bits (word5 op d f3 s1 s2 f7) 20 12 = wrap 12 imm.
Proof using All.
  intros E2 E7. rewrite bits_raw, word5_hi by side. rewrite E2, E7, cat_raw_get by lia.
  by apply raw_get_wrap.
Qed.

Lemma csr_word5 r :
  s2 = raw_get 0 5 (csr_code r) -> f7 = raw_get 5 7 (csr_code r) ->
  Parser.csr (word5 op d f3 s1 s2 f7) = Some r.
Proof using All.
  intros E2 E7. unfold Parser.csr. rewrite (hi_word5 (csr_code r)) by done.
  pose proof (csr_code_range r). rewrite wrap_small by (unfold in_u; lia). apply try_parse_csr_code.
Qed.

Lemma i_imm_word5 imm :
  s2 = raw_get 0 5 imm -> f7 = raw_get 5 7 imm -> in_s 12 imm ->
  parse_i_imm (word5 op d f3 s1 s2 f7) = imm.
Proof using All.
  intros E2 E7 Hi. rewrite parse_i_imm_fields, (hi_word5 imm), sint_wrap by done.
  by apply sint_small.
Qed.

Lemma s_imm_word5 imm :
  d = raw_get 0 5 imm -> f7 = raw_get 5 7 imm -> in_s 12 imm ->
  parse_s_imm (word5 op d f3 s1 s2 f7) = imm.
Proof using All.
  intros Ed E7 Hi. rewrite parse_s_imm_fields, !bits_raw by lia.
  rewrite word5_d, word5_f7 by side. rewrite !raw_get_all by side.
  rewrite Ed, E7, cat_raw_get, raw_get_wrap, sint_wrap by lia. by apply sint_small.
Qed.

(** Reading back a slice of an immediate through the fields it was put in. *)
Ltac slices := repeat first
  [ rewrite raw_get_raw_get by lia | rewrite raw_get_cat_low by side
  | rewrite raw_get_cat_high by side ].

Ltac word5_slices := repeat match goal with
  | |- context [raw_get ?p ?n (word5 _ _ _ _ _ _)] =>
      first [ rewrite (word5_d op d f3 s1 s2 f7 Hop Hd H3 H1 H2 H7 p n) by lia
            | rewrite (word5_s2 op d f3 s1 s2 f7 Hop Hd H3 H1 H2 H7 p n) by lia
            | rewrite (word5_f7 op d f3 s1 s2 f7 Hop Hd H3 H1 H2 H7 p n) by lia ]
  end.

Lemma b_imm_word5 imm :
  d = cat 1 (raw_get 11 1 imm) (raw_get 1 4 imm) ->
  f7 = cat 6 (raw_get 5 6 imm) (raw_get 12 1 imm) ->
  in_s 13 imm -> raw_get 0 1 imm = 0 ->
  parse_b_imm (word5 op d f3 s1 s2 f7) = imm.
Proof using All.
  intros Ed E7 Hi H0. rewrite parse_b_imm_fields, !bits_raw by lia.
  word5_slices. rewrite Ed, E7. slices.
  cbn -[raw_get cat]. rewrite <- H0 at 1. repeat rewrite cat_raw_get by lia.
  rewrite raw_get_wrap, sint_wrap by lia. by apply sint_small.
Qed.

Lemma u_imm_word5 imm :
  f3 = raw_get 12 3 imm -> s1 = raw_get 15 5 imm -> s2 = raw_get 20 5 imm ->
  f7 = raw_get 25 7 imm -> in_s 32 imm -> raw_get 0 12 imm = 0 ->
  parse_u_imm (word5 op d f3 s1 s2 f7) = imm.
Proof using All.
  intros E3 E1 E2 E7 Hi H0. rewrite parse_u_imm_fields, bits_raw, word5_hi20 by side.
  rewrite E3, E1, E2, E7, <- H0. repeat rewrite cat_raw_get by lia.
  rewrite raw_get_wrap, sint_wrap by lia. by apply sint_small.
Qed.

Lemma j_imm_word5 imm :
  f3 = raw_get 12 3 imm -> s1 = raw_get 15 5 imm ->
  s2 = cat 1 (raw_get 11 1 imm) (raw_get 1 4 imm) ->
  f7 = cat 6 (raw_get 5 6 imm) (raw_get 20 1 imm) -> in_s 21 imm -> raw_get 0 1 imm = 0 ->
  parse_j_imm (word5 op d f3 s1 s2 f7) = imm.
Proof using All.
  intros E3 E1 E2 E7 Hi H0. rewrite parse_j_imm_fields, !bits_raw by lia.
  rewrite word5_21_10, word5_12_8 by side. word5_slices. rewrite E3, E1, E2, E7. slices.
  cbn -[raw_get cat]. rewrite <- H0 at 1. repeat rewrite cat_raw_get by lia.
  rewrite raw_get_wrap, sint_wrap by lia. by apply sint_small.
Qed.
End ParseWord5.

Lemma raw_get_0_1 x : Z.testbit x 0 = false <-> raw_get 0 1 x = 0.
Proof.
  rewrite raw_get_wrap by lia. unfold wrap. change (2 ^ 1) with 2. rewrite <- Z.bit0_mod.
  by destruct (Z.testbit x 0).
Qed.

(** ** The formats, read back *)
Section Formats.
Context (op f3 f7 : Z) (Hop : in_u 7 op) (H3 : in_u 3 f3) (H7 : in_u 7 f7).

Lemma r_instr_enc c a : r_instr c (enc_r op f3 f7 a) = Some (c a).
Proof using All.
  destruct a as [d s1 s2]. unfold r_instr, enc_r; cbn [r_rd r_rs1 r_rs2].
  by rewrite (rd_word5 _ _ _ _ _ _) with (r := d), (rs1_word5 _ _ _ _ _ _) with (r := s1),
    (rs2_word5 _ _ _ _ _ _) with (r := s2) by side.
Qed.

Lemma i_instr_enc c a : in_s 12 (i_imm a) -> i_instr c (enc_i op f3 a) = Some (c a).
Proof using All.
  destruct a as [d s1 imm]. unfold i_instr, enc_i; cbn [i_rd i_rs1 i_imm]. intros Hi.
  by rewrite (rd_word5 _ _ _ _ _ _) with (r := d), (rs1_word5 _ _ _ _ _ _) with (r := s1),
    (i_imm_word5 _ _ _ _ _ _) with (imm := imm) by side.
Qed.

Lemma s_instr_enc c a : in_s 12 (sb_imm a) -> s_instr c (enc_s op f3 a) = Some (c a).
Proof using All.
  destruct a as [s1 s2 imm]. unfold s_instr, enc_s; cbn [sb_rs1 sb_rs2 sb_imm]. intros Hi.
  by rewrite (rs1_word5 _ _ _ _ _ _) with (r := s1), (rs2_word5 _ _ _ _ _ _) with (r := s2),
    (s_imm_word5 _ _ _ _ _ _) with (imm := imm) by side.
Qed.

Lemma b_instr_enc c a :
  in_s 13 (sb_imm a) -> Z.testbit (sb_imm a) 0 = false -> b_instr c (enc_b op f3 a) = Some (c a).
Proof using All.
  destruct a as [s1 s2 imm]. unfold b_instr, enc_b; cbn [sb_rs1 sb_rs2 sb_imm]. intros Hi H0.
  apply raw_get_0_1 in H0.
  by rewrite (rs1_word5 _ _ _ _ _ _) with (r := s1), (rs2_word5 _ _ _ _ _ _) with (r := s2),
    (b_imm_word5 _ _ _ _ _ _) with (imm := imm) by side.
Qed.

Lemma u_instr_enc c a :
  in_s 32 (uj_imm a) -> raw_get 0 12 (uj_imm a) = 0 -> u_instr c (enc_u op a) = Some (c a).
Proof using All.
  destruct a as [d imm]. unfold u_instr, enc_u; cbn [uj_rd uj_imm]. intros Hi H0.
  by rewrite (rd_word5 _ _ _ _ _ _) with (r := d),
    (u_imm_word5 _ _ _ _ _ _) with (imm := imm) by side.
Qed.

Lemma j_instr_enc c a :
  in_s 21 (uj_imm a) -> Z.testbit (uj_imm a) 0 = false -> j_instr c (enc_j op a) = Some (c a).
Proof using All.
  destruct a as [d imm]. unfold j_instr, enc_j; cbn [uj_rd uj_imm]. intros Hi H0.
  apply raw_get_0_1 in H0.
  by rewrite (rd_word5 _ _ _ _ _ _) with (r := d),
    (j_imm_word5 _ _ _ _ _ _) with (imm := imm) by side.
Qed.

Lemma csr_instr_enc c a : csr_instr c (enc_csr f3 a) = Some (c a).
Proof using All.
  destruct a as [d s1 r]. unfold csr_instr, enc_csr; cbn [csr_rd csr_rs1 csr_csr].
  by rewrite (csr_word5 _ _ _ _ _ _) with (r := r), (rd_word5 _ _ _ _ _ _) with (r := d),
    (rs1_word5 _ _ _ _ _ _) with (r := s1) by side.
Qed.

Lemma csri_instr_enc c a : in_u 5 (csri_imm a) -> csri_instr c (enc_csri f3 a) = Some (c a).
Proof using All.
  destruct a as [d imm r]. unfold csri_instr, enc_csri; cbn [csri_rd csri_imm csri_csr]. intros Hi.
  change (fun x => bits x 15 5) with rs1_bits. fold (rs1_bits (word5 OP_SYS (xcode d) f3 imm
    (raw_get 0 5 (csr_code r)) (raw_get 5 7 (csr_code r)))).
  by rewrite (csr_word5 _ _ _ _ _ _) with (r := r), (rd_word5 _ _ _ _ _ _) with (r := d),
    rs1_bits_word5 by side.
Qed.
End Formats.

(** The decision tree, driven by the fields of the word. *)
Ltac parse_table :=
  unfold parse_uncompressed_instruction, parse_arith, parse_arith_w, parse_arith_i, parse_load,
    parse_arith_iw, parse_store, parse_branch, parse_sys;
  repeat match goal with
  | H : opcode ?w = _ |- context [opcode ?w] => rewrite H
  | H : funct3 ?w = _ |- context [funct3 ?w] => rewrite H
  | H : funct7 ?w = _ |- context [funct7 ?w] => rewrite H
  | H : imm_11_6 ?w = _ |- context [imm_11_6 ?w] => rewrite H
  end.

Ltac parse_fields :=
  unfold enc_r, enc_i, enc_s, enc_b, enc_u, enc_j, enc_csr, enc_csri;
  match goal with
  | |- context [parse_uncompressed_instruction ?w] =>
      match w with word5 ?op ?d ?f3 ?s1 ?s2 ?f7 =>
        pose proof (opcode_word5 op d f3 s1 s2 f7 ltac:(side) ltac:(side) ltac:(side) ltac:(side)
          ltac:(side) ltac:(side));
        pose proof (funct3_word5 op d f3 s1 s2 f7 ltac:(side) ltac:(side) ltac:(side) ltac:(side)
          ltac:(side) ltac:(side));
        pose proof (funct7_word5 op d f3 s1 s2 f7 ltac:(side) ltac:(side) ltac:(side) ltac:(side)
          ltac:(side) ltac:(side));
        pose proof (imm_11_6_word5 op d f3 s1 s2 f7 ltac:(side) ltac:(side) ltac:(side) ltac:(side)
          ltac:(side) ltac:(side));
        generalize dependent w
      end
  end.

(** The shift type of an immediate shift. *)
Lemma shift_type imm :
  in_u 6 imm -> 2 * raw_get 1 6 (raw_get 5 7 imm) = 0.
Proof.
  intros H. rewrite raw_get_raw_get by lia. replace (raw_get (5 + 1) 6 imm) with 0; [done |].
  apply Z.bits_inj'; intros i Hi. rewrite raw_get_testbit by lia. bits_auto.
Qed.

Lemma shift_type_arith imm :
  in_u 6 (imm - 2 ^ 10) -> 2 * raw_get 1 6 (raw_get 5 7 imm) = F7_20.
Proof.
  intros H. rewrite raw_get_raw_get by lia. replace imm with (cat 6 (imm - 2 ^ 10) 16) by (unfold cat; lia).
  by rewrite raw_get_cat_high by (done || lia).
Qed.

Lemma in_u6_s12 imm : in_u 6 imm -> in_s 12 imm.
Proof. unfold in_u, in_s. lia. Qed.

Lemma in_u6_arith_s12 imm : in_u 6 (imm - 2 ^ 10) -> in_s 12 imm.
Proof. unfold in_u, in_s. lia. Qed.

(** The fences are finitely many words. *)
Lemma parse_encode_fence a :
  parse_uncompressed_instruction (encode (Fence a)) = Some (Fence a)
  /\ parse_uncompressed_instruction (encode (FenceTso a)) = Some (FenceTso a).
Proof. destruct a as [[[] [] [] []] [[] [] [] []]]; split; vm_compute; reflexivity. Qed.

Ltac parse_encode_case :=
  match goal with
  | |- parse_uncompressed_instruction (enc_r ?op ?f3 ?f7 ?a) = Some (?c _) =>
      pose proof (r_instr_enc op f3 f7 ltac:(side) ltac:(side) ltac:(side) c a) as E
  | H : _ |- parse_uncompressed_instruction (enc_i ?op ?f3 ?a) = Some (?c _) =>
      pose proof (i_instr_enc op f3 F7_0 ltac:(side) ltac:(side) ltac:(side) c a
        ltac:(first [exact H | apply in_u6_s12, H | apply in_u6_arith_s12, H])) as E;
      try first [apply shift_type_arith in H | apply shift_type in H]
  | H : _ |- parse_uncompressed_instruction (enc_s ?op ?f3 ?a) = Some (?c _) =>
      pose proof (s_instr_enc op f3 F7_0 ltac:(side) ltac:(side) ltac:(side) c a H) as E
  | H : _ /\ _ |- parse_uncompressed_instruction (enc_b ?op ?f3 ?a) = Some (?c _) =>
      pose proof (b_instr_enc op f3 F7_0 ltac:(side) ltac:(side) ltac:(side) c a (proj1 H) (proj2 H)) as E
  | H : _ /\ _ |- parse_uncompressed_instruction (enc_u ?op ?a) = Some (?c _) =>
      pose proof (u_instr_enc op F3_0 F7_0 ltac:(side) ltac:(side) ltac:(side) c a (proj1 H) (proj2 H)) as E
  | H : _ /\ _ |- parse_uncompressed_instruction (enc_j ?op ?a) = Some (?c _) =>
      pose proof (j_instr_enc op F3_0 F7_0 ltac:(side) ltac:(side) ltac:(side) c a (proj1 H) (proj2 H)) as E
  | |- parse_uncompressed_instruction (enc_csr ?f3 ?a) = Some (?c _) =>
      pose proof (csr_instr_enc OP_SYS f3 F7_0 ltac:(side) ltac:(side) ltac:(side) c a) as E
  | H : _ |- parse_uncompressed_instruction (enc_csri ?f3 ?a) = Some (?c _) =>
      pose proof (csri_instr_enc OP_SYS f3 F7_0 ltac:(side) ltac:(side) ltac:(side) c a H) as E
  end;
  match goal with E : _ = Some _ |- _ => revert E; parse_fields; intros ?w ? ? ? ? E end;
  parse_table;
  repeat match goal with H : 2 * _ = _ |- _ => rewrite H end;
  match goal with E : _ = Some _ |- _ => exact E end.

Lemma parse_encode i :
  encodable i -> parse_uncompressed_instruction (encode i) = Some i.
Proof.
  intros H. destruct i; cbn [encodable] in H;
    lazymatch goal with
    | |- _ = Some (Fence ?a) => exact (proj1 (parse_encode_fence a))
    | |- _ = Some (FenceTso ?a) => exact (proj2 (parse_encode_fence a))
    | H : False |- _ => destruct H
    | _ => cbn [encode]
    end;
    lazymatch goal with
    | |- parse_uncompressed_instruction (word5 _ _ _ _ _ _) = _ => vm_compute; reflexivity
    | _ => parse_encode_case
    end.
Qed.

(** ** Inversion of the formats *)
Section Inversion.
Context (w : Z) (Hw : in_u 32 w).

Lemma bits_total p : 0 <= p -> exists r, parse_xregister (bits w p 5) = Some r /\ xcode r = raw_get p 5 w.
Proof using All. intros. rewrite bits_raw by lia. apply parse_xregister_total, raw_get_range. lia. Qed.

Lemma word5_fields d s1 s2 f7 :
  d = raw_get 7 5 w -> s1 = raw_get 15 5 w -> s2 = raw_get 20 5 w -> f7 = raw_get 25 7 w ->
  word5 (opcode w) d (funct3 w) s1 s2 f7 = w.
Proof using All.
  intros -> -> -> ->. unfold opcode, funct3. rewrite !bits_raw by lia. by apply word5_split.
Qed.

Ltac regs := repeat match goal with
  | |- context [parse_xregister (bits w ?p 5)] =>
      let r := fresh "r" in let E := fresh "E" in let F := fresh "F" in
      destruct (bits_total p ltac:(lia)) as (r & E & F); rewrite E
  end.

Lemma r_instr_inv c :
  exists a, r_instr c w = Some (c a) /\ enc_r (opcode w) (funct3 w) (funct7 w) a = w.
Proof using All.
  unfold r_instr, rd, rs1, rs2, rs1_bits, rs2_bits. regs. eexists; split; [done |].
  unfold enc_r; cbn [r_rd r_rs1 r_rs2]. by apply word5_fields.
Qed.

Lemma i_instr_inv c :
  exists a, i_instr c w = Some (c a) /\ enc_i (opcode w) (funct3 w) a = w
    /\ i_imm a = sint 12 (raw_get 20 12 w).
Proof using All.
  unfold i_instr, rd, rs1, rs1_bits. regs. eexists; split; [done |].
  unfold enc_i; cbn [i_rd i_rs1 i_imm]. rewrite parse_i_imm_fields, bits_raw by lia. split; [|done].
  apply word5_fields; try done; rewrite raw_get_sint, raw_get_raw_get by lia; done.
Qed.

Lemma s_instr_inv c :
  exists a, s_instr c w = Some (c a) /\ enc_s (opcode w) (funct3 w) a = w /\ in_s 12 (sb_imm a).
Proof using All.
  unfold s_instr, rs1, rs2, rs1_bits, rs2_bits. regs. eexists; split; [done |].
  unfold enc_s; cbn [sb_rs1 sb_rs2 sb_imm].
  rewrite parse_s_imm_fields, !bits_raw by lia. split; [|apply sint_range; lia].
  apply word5_fields; try done; rewrite raw_get_sint by lia.
  - by rewrite raw_get_cat_low, raw_get_raw_get by side.
  - by rewrite raw_get_cat_high, raw_get_raw_get by side.
Qed.

Ltac slices := repeat first
  [ rewrite raw_get_raw_get by lia | rewrite raw_get_cat_low by side
  | rewrite raw_get_cat_high by side ]; cbn -[raw_get cat].

Lemma b_instr_inv c :
  exists a, b_instr c w = Some (c a) /\ enc_b (opcode w) (funct3 w) a = w
    /\ in_s 13 (sb_imm a) /\ Z.testbit (sb_imm a) 0 = false.
Proof using All.
  unfold b_instr, rs1, rs2, rs1_bits, rs2_bits. regs. eexists; split; [done |].
  unfold enc_b; cbn [sb_rs1 sb_rs2 sb_imm].
  rewrite parse_b_imm_fields, !bits_raw by lia. split; [|split; [apply sint_range; lia |]].
  - apply word5_fields; try done; repeat rewrite raw_get_sint by lia; slices;
      rewrite cat_raw_get by lia; done.
  - rewrite raw_get_0_1, raw_get_sint by lia. by slices.
Qed.

Lemma u_instr_inv c :
  exists a, u_instr c w = Some (c a) /\ enc_u (opcode w) a = w
    /\ in_s 32 (uj_imm a) /\ raw_get 0 12 (uj_imm a) = 0.
Proof using All.
  unfold u_instr, rd. regs. eexists; split; [done |]. unfold enc_u; cbn [uj_rd uj_imm].
  rewrite parse_u_imm_fields, !bits_raw by lia. split; [|split; [apply sint_range; lia |]].
  - repeat rewrite raw_get_sint by lia; slices.
    etransitivity; [|exact (word5_split w Hw)]. by f_equal.
  - rewrite raw_get_sint by lia. by slices.
Qed.

Lemma j_instr_inv c :
  exists a, j_instr c w = Some (c a) /\ enc_j (opcode w) a = w
    /\ in_s 21 (uj_imm a) /\ Z.testbit (uj_imm a) 0 = false.
Proof using All.
  unfold j_instr, rd. regs. eexists; split; [done |]. unfold enc_j; cbn [uj_rd uj_imm].
  rewrite parse_j_imm_fields, !bits_raw by lia. split; [|split; [apply sint_range; lia |]].
  - repeat rewrite raw_get_sint by lia; slices. repeat rewrite cat_raw_get by lia.
    etransitivity; [|exact (word5_split w Hw)]. f_equal; try done.
  - rewrite raw_get_0_1, raw_get_sint by lia. by slices.
Qed.

Lemma csr_fields r :
  Parser.csr w = Some r ->
  raw_get 0 5 (csr_code r) = raw_get 20 5 w /\ raw_get 5 7 (csr_code r) = raw_get 25 7 w.
Proof using All.
  unfold Parser.csr. intros H. rewrite (try_parse_csregister_Some _ _ H), bits_raw by lia.
  split; rewrite raw_get_raw_get by lia; done.
Qed.

Lemma csr_instr_inv c :
  opcode w = OP_SYS ->
  csr_instr c w = Some (Unknown w)
  \/ exists a, csr_instr c w = Some (c a) /\ enc_csr (funct3 w) a = w.
Proof using All.
  intros Ho. unfold csr_instr, rd, rs1, rs1_bits. destruct (Parser.csr w) as [r|] eqn:Er; [right | by left].
  apply csr_fields in Er as [E5 E7]. regs. eexists; split; [done |].
  unfold enc_csr; cbn [csr_rd csr_rs1 csr_csr]. rewrite <- Ho. by apply word5_fields.
Qed.

Lemma csri_instr_inv c :
  opcode w = OP_SYS ->
  csri_instr c w = Some (Unknown w)
  \/ exists a, csri_instr c w = Some (c a) /\ enc_csri (funct3 w) a = w /\ in_u 5 (csri_imm a).
Proof using All.
  intros Ho. unfold csri_instr, rd. destruct (Parser.csr w) as [r|] eqn:Er; [right | by left].
  apply csr_fields in Er as [E5 E7]. regs. eexists; split; [done |].
  unfold enc_csri; cbn [csri_rd csri_imm csri_csr]. split; [|apply bits_range; lia].
  rewrite <- Ho. by apply word5_fields.
Qed.

(** The immediate of a shift, from the shift type. *)
Lemma shift_imm a :
  imm_11_6 w = F7_0 -> i_imm a = sint 12 (raw_get 20 12 w) -> in_u 6 (i_imm a).
Proof using All.
  intros Ht ->. pose proof (raw_get_range 20 6 w ltac:(lia)) as R.
  pose proof (raw_get_range 26 6 w ltac:(lia)) as R'. unfold in_u in *.
  revert Ht. unfold imm_11_6, ushl. rewrite bits_raw, Z.shiftl_mul_pow2 by lia.
  rewrite wrap_small by (unfold in_u; lia). unfold F7_0. intros Ht.
  rewrite <- (cat_raw_get 6 6 20 26) by lia. unfold cat.
  rewrite sint_small by (unfold in_s; lia). lia.
Qed.

Lemma shift_imm_arith a :
  imm_11_6 w = F7_20 -> i_imm a = sint 12 (raw_get 20 12 w) -> in_u 6 (i_imm a - 2 ^ 10).
Proof using All.
  intros Ht ->. pose proof (raw_get_range 20 6 w ltac:(lia)) as R.
  pose proof (raw_get_range 26 6 w ltac:(lia)) as R'. unfold in_u in *.
  revert Ht. unfold imm_11_6, ushl. rewrite bits_raw, Z.shiftl_mul_pow2 by lia.
  rewrite wrap_small by (unfold in_u; lia). unfold F7_20. intros Ht.
  rewrite <- (cat_raw_get 6 6 20 26) by lia. unfold cat.
  rewrite sint_small by (unfold in_s; lia). lia.
Qed.

(** What the parser makes of a word. *)
Definition parsed_ok (o : option Instr) : Prop :=
  o = Some (Unknown w)
  \/ exists i, o = Some i /\ encodable i /\ (strict i = true -> encode i = w).

Lemma parsed_unknown : parsed_ok (Some (Unknown w)).
Proof using Type. by left. Qed.

Lemma parsed_loose i : encodable i -> strict i = false -> parsed_ok (Some i).
Proof using Type. intros H E. right. exists i. rewrite E. done. Qed.

Lemma parsed_r c :
  (forall a, encodable (c a)) ->
  (forall a, strict (c a) = true -> encode (c a) = enc_r (opcode w) (funct3 w) (funct7 w) a) ->
  parsed_ok (r_instr c w).
Proof using All.
  intros He Hc. destruct (r_instr_inv c) as (a & -> & E). right. exists (c a).
  split; [done | split; [done |]]. intros S. by rewrite Hc, E.
Qed.

Lemma parsed_i c :
  (forall a, i_imm a = sint 12 (raw_get 20 12 w) -> encodable (c a)) ->
  (forall a, encode (c a) = enc_i (opcode w) (funct3 w) a) ->
  parsed_ok (i_instr c w).
Proof using All.
  intros He Hc. destruct (i_instr_inv c) as (a & -> & E & Hi). right. exists (c a).
  rewrite Hc, E. auto.
Qed.

Lemma parsed_s c :
  (forall a, in_s 12 (sb_imm a) -> encodable (c a)) ->
  (forall a, encode (c a) = enc_s (opcode w) (funct3 w) a) -> parsed_ok (s_instr c w).
Proof using All.
  intros He Hc. destruct (s_instr_inv c) as (a & -> & E & Hi). right. exists (c a).
  rewrite Hc, E. auto.
Qed.

Lemma parsed_b c :
  (forall a, in_s 13 (sb_imm a) /\ Z.testbit (sb_imm a) 0 = false -> encodable (c a)) ->
  (forall a, encode (c a) = enc_b (opcode w) (funct3 w) a) -> parsed_ok (b_instr c w).
Proof using All.
  intros He Hc. destruct (b_instr_inv c) as (a & -> & E & Hi). right. exists (c a).
  rewrite Hc, E. auto.
Qed.

Lemma parsed_csr c :
  opcode w = OP_SYS -> (forall a, encodable (c a)) ->
  (forall a, encode (c a) = enc_csr (funct3 w) a) -> parsed_ok (csr_instr c w).
Proof using All.
  intros Ho He Hc. destruct (csr_instr_inv c Ho) as [-> | (a & -> & E)]; [by left | right].
  exists (c a). rewrite Hc, E. auto.
Qed.

Lemma parsed_csri c :
  opcode w = OP_SYS -> (forall a, in_u 5 (csri_imm a) -> encodable (c a)) ->
  (forall a, encode (c a) = enc_csri (funct3 w) a) -> parsed_ok (csri_instr c w).
Proof using All.
  intros Ho He Hc. destruct (csri_instr_inv c Ho) as [-> | (a & -> & E & Hi)]; [by left | right].
  exists (c a). rewrite Hc, E. auto.
Qed.

(** One leaf of the decision tree. *)
Ltac leaf :=
  lazymatch goal with
  | |- parsed_ok (Some (Unknown w)) => apply parsed_unknown
  | |- parsed_ok (Some _) => by apply parsed_loose
  | |- parsed_ok (fence_instr _ w) => by apply parsed_loose
  | |- parsed_ok (r_instr _ w) => apply parsed_r; cbn [encodable strict encode]; [done | intros a; try done; congruence]
  | |- parsed_ok (i_instr _ w) => apply parsed_i; cbn [encodable encode];
      [intros a Hi; first [by apply shift_imm | by apply shift_imm_arith | rewrite Hi; apply sint_range; lia]
      | congruence]
  | |- parsed_ok (s_instr _ w) => apply parsed_s; cbn [encodable encode]; [done | congruence]
  | |- parsed_ok (b_instr _ w) => apply parsed_b; cbn [encodable encode]; [done | congruence]
  | |- parsed_ok (csr_instr _ w) => apply parsed_csr; cbn [encodable encode]; [done | done | congruence]
  | |- parsed_ok (csri_instr _ w) => apply parsed_csri; cbn [encodable encode]; [done | done | congruence]
  end.

Ltac split_switch := cbn [switch]; repeat match goal with
  | |- context [if ?x =? ?k then _ else _] => destruct (Z.eqb_spec x k)
  end.

Lemma parsed_sys : opcode w = OP_SYS -> parsed_ok (parse_sys w).
Proof using All.
  intros Ho. unfold parse_sys. split_switch; try leaf.
  unfold parse_sys_priv. repeat case_match; leaf.
Qed.

Lemma parsed_arith : opcode w = OP_ARITH -> parsed_ok (parse_arith w).
Proof using All. intros Ho. unfold parse_arith. split_switch; leaf. Qed.

Lemma parsed_arith_w : opcode w = OP_ARITH_W -> parsed_ok (parse_arith_w w).
Proof using All. intros Ho. unfold parse_arith_w. split_switch; leaf. Qed.

Lemma parsed_arith_i : opcode w = OP_ARITH_I -> parsed_ok (parse_arith_i w).
Proof using All. intros Ho. unfold parse_arith_i. split_switch; leaf. Qed.

Lemma parsed_arith_iw : opcode w = OP_ARITH_IW -> parsed_ok (parse_arith_iw w).
Proof using All. intros Ho. unfold parse_arith_iw. split_switch; leaf. Qed.

Lemma parsed_word : parsed_ok (parse_uncompressed_instruction w).
Proof using All.
  unfold parse_uncompressed_instruction. split_switch;
    try first [ by apply parsed_sys | by apply parsed_arith | by apply parsed_arith_w
              | by apply parsed_arith_i | by apply parsed_arith_iw ];
    unfold parse_load, parse_synch, parse_store, parse_branch; split_switch; try leaf.
  - destruct (u_instr_inv Lui) as (a & -> & E & Hi). right. exists (Lui a).
    cbn [encodable encode]. split; [done | split; [done | congruence]].
  - destruct (u_instr_inv Auipc) as (a & -> & E & Hi). right. exists (Auipc a).
    cbn [encodable encode]. split; [done | split; [done | congruence]].
  - destruct (j_instr_inv Jal) as (a & -> & E & Hi). right. exists (Jal a).
    cbn [encodable encode]. split; [done | split; [done | congruence]].
Qed.
End Inversion.

(** ** The round trips *)

(** C22: the word of an encodable instruction parses to that
    instruction. *)
Theorem decode_encode i :
  encodable i ->
  parse_uncompressed_instruction (encode i) = Some i.
Proof. apply parse_encode. Qed.

Lemma decode_encode_witness :
  encodable (Beq (mkSB x10 x11 (-4096)))
  /\ parse_uncompressed_instruction (encode (Beq (mkSB x10 x11 (-4096)))) = Some (Beq (mkSB x10 x11 (-4096))).
Proof.
  assert (H : encodable (Beq (mkSB x10 x11 (-4096)))) by (cbn; unfold in_s; lia).
  split; [exact H | apply decode_encode; exact H].
Defined.

(** C23: every 32-bit word parses, without panic, and what it
    parses to is either [Unknown] of that word or an encodable instruction; but
    for the instructions with unread fields, its encoding is the word again, so no
    two words parse to the same instruction. *)
Theorem encode_decode w :
  in_u 32 w ->
  exists i, parse_uncompressed_instruction w = Some i
    /\ (i = Unknown w \/ (encodable i /\ (strict i = true -> encode i = w))).
Proof.
  intros Hw. destruct (parsed_word w Hw) as [H | (i & H & Hi)]; eauto.
Qed.

Lemma encode_decode_witness :
  in_u 32 0xFE0518E3
  /\ exists i, parse_uncompressed_instruction 0xFE0518E3 = Some i
    /\ (i = Unknown 0xFE0518E3 \/ (encodable i /\ (strict i = true -> encode i = 0xFE0518E3))).
Proof.
  assert (H : in_u 32 0xFE0518E3) by (unfold in_u; lia).
  split; [exact H | apply encode_decode; exact H].
Defined.

End Encode.
Export Encode.
