(* ===== verification/HartState.v ===== *)
(** The hart state
    ([src/src/risc_v/interpreter/src/machine_state/hart_state.rs]): the registers, the
    mode and the program counter of the hart, its reset, and taking a trap. *)

From S2P Require Import Prelude Registers Mode Traps CSRFields CSRegisters.

Module Hart.

Record HartState : Type := mkHart {
  xregisters : XRegisters;
  fregisters : FRegisters;
  csregisters : CSRegisters;
  mode : Z;
  pc : Z
}.

Definition with_xregisters (h : HartState) (x : XRegisters) : HartState :=
  mkHart x (fregisters h) (csregisters h) (mode h) (pc h).

Definition with_csregisters (h : HartState) (c : CSRegisters) : HartState :=
  mkHart (xregisters h) (fregisters h) c (mode h) (pc h).

Definition with_mode (h : HartState) (m : Z) : HartState :=
  mkHart (xregisters h) (fregisters h) (csregisters h) m (pc h).

Definition with_pc (h : HartState) (a : Z) : HartState :=
  mkHart (xregisters h) (fregisters h) (csregisters h) (mode h) a.

(** The register accesses of the instructions, on the hart. *)
Definition xget (h : HartState) (r : XRegister) : Z := xread (xregisters h) r.

Definition xset (h : HartState) (r : XRegister) (v : Z) : HartState :=
  with_xregisters h (xwrite (xregisters h) r v).

Definition hcsr_write (h : HartState) (r : CSRegister) (v : Z) : HartState :=
  with_csregisters h (csr_write (csregisters h) r v).

Definition hcsr_read (h : HartState) (r : CSRegister) : Z := csr_read (csregisters h) r.

(** [HartState::reset]. *)
Definition hart_reset (h : HartState) (pc : Z) : HartState :=
  mkHart (xreset (xregisters h)) (freset (fregisters h)) (csr_reset (csregisters h))
    (mode_reset (mode h)) pc.

(** The registers of the trap: vector, return address, cause and value. *)
Definition trap_registers (trap_mode : TrapMode) : CSRegister * CSRegister * CSRegister * CSRegister :=
  match trap_mode with
  | TSupervisor => (stvec, sepc, scause, stval)
  | TMachine => (mtvec, mepc, mcause, mtval)
  end.

(** The status register for the trap handler; [None] is the [unreachable!] of a
    trap from M-mode to S-mode. *)
Definition trap_mstatus (trap_mode : TrapMode) (current_mode : Mode) (ms : Z) : option Z :=
  match trap_mode with
  | TSupervisor =>
      let interrupts_enabled := get_SIE ms in
      let ms := set_SPIE ms interrupts_enabled in
      let ms := set_SIE ms false in
      match current_mode with
      | User => Some (set_SPP ms SPP_User)
      | Supervisor => Some (set_SPP ms SPP_Supervisor)
      | Machine => None
      end
  | TMachine =>
      let interrupts_enabled := get_MIE ms in
      let ms := set_MPIE ms interrupts_enabled in
      let ms := set_MIE ms false in
      Some (set_MPP ms
        match current_mode with
        | User => MPP_User
        | Supervisor => MPP_Supervisor
        | Machine => MPP_Machine
        end)
  end.

(** [take_trap_from_mode]: the new state and the address of the handler. *)
Definition take_trap_from_mode {TC} `{TrapContext TC} (h : HartState) (trap_source : TC)
    (current_mode : Mode) (return_pc : Z) : option (Z * HartState) :=
  let trap_mode := get_trap_mode (csregisters h) trap_source current_mode in
  let '(xtvec_reg, xepc_reg, xcause_reg, xtval_reg) := trap_registers trap_mode in
  let h := hcsr_write h xepc_reg return_pc in
  let h := hcsr_write h xcause_reg (xcause trap_source) in
  let h := hcsr_write h xtval_reg (xtval trap_source) in
  let? ms := trap_mstatus trap_mode current_mode (hcsr_read h mstatus) in
  let h := hcsr_write h mstatus ms in
  let h := with_mode h (mode_write (mode h) (as_mode trap_mode)) in
  let? handler := trap_handler_address trap_source (hcsr_read h xtvec_reg) in
  Some (handler, h).

Definition take_trap {TC} `{TrapContext TC} (h : HartState) (trap_source : TC) (return_pc : Z) :
    option (Z * HartState) :=
  let? m := mode_read (mode h) in
  take_trap_from_mode h trap_source m return_pc.

(** ** Well-formedness *)

(** The types of the state: sizes and widths, and a mode byte that is a mode. *)
Record hart_wf (h : HartState) : Prop := {
  wf_x : xregs_wf (xregisters h);
  wf_f : fregs_wf (fregisters h);
  wf_csr : csrs_wf (csregisters h);
  wf_mode : mode_wf (mode h);
  wf_pc : in_u 64 (pc h)
}.

(** The invariant of a hart that went through a reset: well-formed, and every
    control register holds a value its write filter lets through. *)
Definition hart_inv (h : HartState) : Prop := hart_wf h /\ csr_inv (csregisters h).

Lemma hart_reset_inv h a : hart_wf h -> in_u 64 a -> hart_inv (hart_reset h a).
Proof.
  intros [Hx Hf Hc Hm Hp] Ha. unfold hart_inv, hart_reset.
  split; [split; cbn [xregisters fregisters csregisters mode pc] | cbn [csregisters]].
  - apply xreset_wf, Hx.
  - apply freset_wf, Hf.
  - apply csr_reset_wf, Hc.
  - apply mode_write_wf.
  - exact Ha.
  - apply csr_reset_inv, Hc.
Qed.

Lemma xset_inv h r v : hart_inv h -> in_u 64 v -> hart_inv (xset h r v).
Proof. intros [[Hx Hf Hc Hm Hp] Hi] Hv. split; [split |]; try done. by apply xwrite_wf. Qed.

Lemma hcsr_write_inv h r v : hart_inv h -> in_u 64 v -> hart_inv (hcsr_write h r v).
Proof.
  intros [[Hx Hf Hc Hm Hp] Hi] Hv. split; [split |]; try done; cbn.
  - by apply csr_write_wf.
  - by apply csr_write_inv.
Qed.

Lemma with_mode_inv h m : hart_inv h -> hart_inv (with_mode h (mode_write (mode h) m)).
Proof. intros [[Hx Hf Hc Hm Hp] Hi]. split; [split |]; try done; cbn. apply mode_write_wf. Qed.

Lemma with_pc_inv h a : hart_inv h -> in_u 64 a -> hart_inv (with_pc h a).
Proof. intros [[Hx Hf Hc Hm Hp] Hi] Ha. split; [split |]; done. Qed.

Lemma xget_range h r : hart_inv h -> in_u 64 (xget h r).
Proof. intros H. apply xread_range, H. Qed.

Lemma hcsr_read_range h r : hart_inv h -> in_u 64 (hcsr_read h r).
Proof. intros H. apply csr_read_range, H. Qed.

Lemma pc_range h : hart_inv h -> in_u 64 (pc h).
Proof. intros H. apply H. Qed.

Lemma set_field_u64 {F} `{FieldValue F} o w x (v : F) : in_u 64 x -> in_u 64 (set_field o w x v).
Proof. intros. unfold set_field. solve_range. Qed.

#[export] Hint Resolve xset_inv hcsr_write_inv with_mode_inv with_pc_inv xget_range
  hcsr_read_range pc_range : rust_range.

Lemma trap_mstatus_range tm m v v' :
  in_u 64 v -> trap_mstatus tm m v = Some v' -> in_u 64 v'.
Proof.
  intros Hv H. unfold trap_mstatus in H. autounfold with csr_fields in H.
  destruct tm; [destruct m; try done |]; injection H as <-; repeat apply set_field_u64; done.
Qed.

(** A trap to S-mode never comes from M-mode, so [unreachable!] is. *)
Lemma trap_mstatus_total {TC} `{TrapContext TC} c (t : TC) m v :
  is_Some (trap_mstatus (get_trap_mode c t m) m v).
Proof.
  pose proof (get_trap_mode_ge c t m) as G. unfold trap_mstatus.
  destruct (get_trap_mode c t m), m; try discriminate G; eexists; reflexivity.
Qed.

Section TakeTrap.
Context {TC : Type} `{TrapContext TC} {valid : TC -> Prop} `{!TrapContextOk TC valid}.

Lemma take_trap_inv h (t : TC) rpc a h' :
  hart_inv h -> valid t -> in_u 64 rpc -> take_trap h t rpc = Some (a, h') ->
  hart_inv h' /\ in_u 64 a.
Proof using TrapContextOk0.
  intros Hh Ht Hr. unfold take_trap, take_trap_from_mode.
  destruct (mode_read (mode h)) as [m|]; [|done].
  destruct (trap_registers _) as [[[xtvec xepc] xc] xv].
  set (h1 := hcsr_write (hcsr_write (hcsr_write h _ _) _ _) _ _).
  assert (H1 : hart_inv h1).
  { unfold h1. repeat apply hcsr_write_inv; try done; [apply xcause_range | by apply xtval_range]. }
  destruct (trap_mstatus _ _ _) as [ms|] eqn:Em; [|done].
  apply trap_mstatus_range in Em; [|by apply hcsr_read_range].
  set (h2 := with_mode _ _).
  assert (H2 : hart_inv h2) by (apply with_mode_inv; by apply hcsr_write_inv).
  destruct (trap_handler_address t _) as [a'|] eqn:Ea; [|done]. intros [= <- <-].
  split; [done |]. apply (trap_handler_range t _ _) in Ea; [done | by apply hcsr_read_range].
Qed.
End TakeTrap.

(** ** What a trap does *)

Lemma writable_epc r v :
  r = mepc \/ r = sepc -> in_u 64 v -> make_value_writable r v = Some (Z.land v WARL_MASK_XEPC).
Proof.
  intros Hr Hv. unfold make_value_writable, clear_wpri_fields.
  destruct Hr as [-> | ->]; cbn [wpri_mask transform_warl_fields]; rewrite is_legal_empty by done;
    by rewrite land_full.
Qed.

Lemma writable_tval r v : r = mtval \/ r = stval -> in_u 64 v -> make_value_writable r v = Some v.
Proof.
  intros Hr Hv. unfold make_value_writable, clear_wpri_fields.
  destruct Hr as [-> | ->]; cbn [wpri_mask transform_warl_fields]; rewrite is_legal_empty by done;
    by rewrite land_full.
Qed.

Lemma writable_mstatus v :
  make_value_writable mstatus v = Some (apply_warl_mstatus (Z.land v WPRI_MASK_MSTATUS)).
Proof.
  unfold make_value_writable, clear_wpri_fields. cbn [wpri_mask transform_warl_fields].
  by rewrite is_legal_empty.
Qed.

(** The status fields the trap logic uses pass the filter of [mstatus]. *)
Lemma mstatus_filter_field {F} `{FieldValue F} o w v :
  0 <= o -> 0 < w <= 64 -> in_u 64 v ->
  (forall i, o <= i < o + w -> (i < 11 \/ 13 <= i < 23) /\ Z.testbit WPRI_MASK_MSTATUS i = true) ->
  get_field (F := F) o w (apply_warl_mstatus (Z.land v WPRI_MASK_MSTATUS)) = get_field o w v.
Proof.
  intros Ho Hw Hv Hi. rewrite !get_field_raw by lia. f_equal. apply raw_get_ext; try lia.
  intros i R. destruct (Hi i R) as [Hb Hm]. rewrite filter_mstatus_testbit by (done || lia).
  unfold mstatus_bit. rewrite Hm, andb_true_r. bits_auto.
Qed.

Lemma mstatus_filter_MPP v :
  in_u 64 v -> get_MPP (apply_warl_mstatus (Z.land v WPRI_MASK_MSTATUS)) = get_MPP v.
Proof.
  intros Hv.
  assert (H : mpp_fix (apply_warl_mstatus (Z.land v WPRI_MASK_MSTATUS)) = mpp_fix v)
    by (rewrite mpp_fix_warl by solve_range; by apply mpp_fix_mask).
  unfold mpp_fix in H. apply (f_equal (field_new (F := MPPValue))) in H.
  by rewrite !(new_raw_bits (width := 2)) in H.
Qed.

(** *** The privilege stack, abstractly: the fields of the status register that
    traps push to and trap returns pop from. *)
Record Status : Type := mkStatus {
  st_SIE : bool;
  st_MIE : bool;
  st_SPIE : bool;
  st_MPIE : bool;
  st_SPP : SPPValue;
  st_MPP : MPPValue;
  st_MPRV : bool;
  st_TSR : bool
}.

Definition status (ms : Z) : Status :=
  mkStatus (get_SIE ms) (get_MIE ms) (get_SPIE ms) (get_MPIE ms) (get_SPP ms) (get_MPP ms)
    (get_MPRV ms) (get_TSR ms).

Definition hart_status (h : HartState) : Status := status (hcsr_read h mstatus).

Definition mpp_of (m : Mode) : MPPValue :=
  match m with User => MPP_User | Supervisor => MPP_Supervisor | Machine => MPP_Machine end.

Definition spp_of (m : Mode) : SPPValue :=
  match m with User => SPP_User | _ => SPP_Supervisor end.

(** Taking a trap to [tm] from [m] pushes the mode and the interrupt enable. *)
Definition push_status (tm : TrapMode) (m : Mode) (s : Status) : Status :=
  match tm with
  | TSupervisor =>
      mkStatus false (st_MIE s) (st_SIE s) (st_MPIE s) (spp_of m) (st_MPP s) (st_MPRV s) (st_TSR s)
  | TMachine =>
      mkStatus (st_SIE s) false (st_SPIE s) (st_MIE s) (st_SPP s) (mpp_of m) (st_MPRV s) (st_TSR s)
  end.

(** The filter of [mstatus] keeps these fields. *)
Lemma status_filter v :
  in_u 64 v -> status (apply_warl_mstatus (Z.land v WPRI_MASK_MSTATUS)) = status v.
Proof.
  intros Hv. unfold status. rewrite mstatus_filter_MPP by done.
  autounfold with csr_fields.
  repeat rewrite mstatus_filter_field; try done; try lia;
    intros i Hi; (split; [lia |]); rewrite WPRI_MASK_MSTATUS_testbit by lia; bits_auto.
Qed.

Lemma status_write c v :
  csrs_wf c -> in_u 64 v -> status (csr_read (csr_write c mstatus v) mstatus) = status v.
Proof.
  intros Hc Hv. rewrite csr_read_write_eq, writable_mstatus by done. by apply status_filter.
Qed.

Lemma trap_mstatus_status tm m v v' :
  in_u 64 v -> trap_mstatus tm m v = Some v' -> status v' = push_status tm m (status v).
Proof.
  intros Hv H. unfold trap_mstatus in H. unfold status, push_status, spp_of, mpp_of.
  destruct tm; [destruct m; try done |]; injection H as <-;
    f_equal; autounfold with csr_fields;
    repeat first [ rewrite get_set_eq by (lia || (repeat apply set_field_u64; done))
                 | rewrite get_set_ne by (lia || (repeat apply set_field_u64; done)) ]; done.
Qed.

(** Reads through a chain of writes to control registers. *)
Ltac csr_chain :=
  repeat first
    [ rewrite csr_read_write_ne by (first [ discriminate | solve_range ])
    | rewrite csr_read_write_eq by (first [ discriminate | solve_range ]) ].

Section TrapSpec.
Context {TC : Type} `{TrapContext TC} {valid : TC -> Prop} `{!TrapContextOk TC valid}.

(** The whole effect of a trap: the general registers and the program counter
    are kept, the mode is the trap mode, the privilege stack is pushed, the
    return address (with its lowest bit cleared) and the trap value are stored, the
    cause is stored if the cause register admits it, and the handler address comes
    from the trap vector. *)
Lemma take_trap_spec h (t : TC) rpc m a h' :
  hart_inv h -> valid t -> in_u 64 rpc -> mode_read (mode h) = Some m ->
  take_trap h t rpc = Some (a, h') ->
  let tm := get_trap_mode (csregisters h) t m in
  let '(xtvec_reg, xepc_reg, xcause_reg, xtval_reg) := trap_registers tm in
  xregisters h' = xregisters h /\ fregisters h' = fregisters h /\ pc h' = pc h
  /\ mode_read (mode h') = Some (as_mode tm)
  /\ hart_status h' = push_status tm m (hart_status h)
  /\ hcsr_read h' xepc_reg = Z.land rpc WARL_MASK_XEPC
  /\ hcsr_read h' xtval_reg = xtval t
  /\ hcsr_read h' xcause_reg
     = default (hcsr_read h xcause_reg) (make_value_writable xcause_reg (xcause t))
  /\ trap_handler_address t (hcsr_read h xtvec_reg) = Some a.
Proof using TrapContextOk0.
  intros [Hw Hi] Ht Hr Hm. unfold take_trap, take_trap_from_mode. rewrite Hm.
  cbn zeta. set (tm := get_trap_mode _ _ _).
  pose proof (xtval_range t Ht) as Hv. pose proof (xcause_range t) as Hc.
  pose proof (wf_csr h Hw) as Wc.
  destruct (trap_registers tm) as [[[xtvec xepc] xc] xv] eqn:Er.
  set (h1 := hcsr_write (hcsr_write (hcsr_write h _ _) _ _) _ _).
  assert (W1 : csrs_wf (csregisters h1)) by (cbn; solve_range).
  assert (E1 : hcsr_read h1 mstatus = hcsr_read h mstatus).
  { unfold h1, hcsr_read, hcsr_write; cbn [csregisters with_csregisters].
    destruct tm; injection Er as <- <- <- <-; by csr_chain. }
  destruct (trap_mstatus _ _ _) as [ms|] eqn:Em; [|done].
  assert (Rm : in_u 64 ms) by (eapply trap_mstatus_range, Em; rewrite E1; by apply csr_read_range).
  apply trap_mstatus_status in Em; [|rewrite E1; by apply csr_read_range].
  destruct (trap_handler_address t _) as [a'|] eqn:Ea; [|done]. intros [= <- <-].
  split; [done |]. split; [done |]. split; [done |].
  split; [apply mode_read_write |].
  split; [unfold hart_status; rewrite <- E1, <- Em; by apply status_write |].
  revert Ea. unfold h1, hcsr_read, hcsr_write; cbn [csregisters with_csregisters with_mode].
  destruct tm; injection Er as <- <- <- <-; csr_chain; intros Ea.
  all: split; [by rewrite writable_epc by auto |].
  all: split; [by rewrite writable_tval by auto | done].
Qed.

(** A trap is always taken, unless its handler address overflows. *)
Lemma take_trap_total h (t : TC) rpc m :
  hart_inv h -> valid t -> in_u 64 rpc -> mode_read (mode h) = Some m ->
  let '(xtvec_reg, _, _, _) := trap_registers (get_trap_mode (csregisters h) t m) in
  is_Some (trap_handler_address t (hcsr_read h xtvec_reg)) ->
  is_Some (take_trap h t rpc).
Proof using TrapContextOk0.
  intros [Hw Hi] Ht Hr Hm. unfold take_trap, take_trap_from_mode. rewrite Hm. cbn zeta.
  pose proof (trap_mstatus_total (csregisters h) t m) as T. set (tm := get_trap_mode _ _ _) in *.
  pose proof (xtval_range t Ht) as Hv. pose proof (xcause_range t) as Hc.
  pose proof (wf_csr h Hw) as Wc.
  destruct (trap_registers tm) as [[[xtvec xepc] xc] xv] eqn:Er. intros [a Ha].
  destruct (T (hcsr_read (hcsr_write (hcsr_write (hcsr_write h xepc rpc) xc (xcause t)) xv (xtval t))
    mstatus)) as [ms Em]. rewrite Em.
  revert Ha. unfold hcsr_read, hcsr_write; cbn [csregisters with_csregisters with_mode].
  destruct tm; injection Er as <- <- <- <-; csr_chain; intros ->; by eexists.
Qed.
End TrapSpec.

(** Which causes the cause registers record. *)
Lemma exception_cause_legal tm e v :
  environ_try_from e = Err tt ->
  default v (make_value_writable (trap_registers tm).1.2 (xcause e)) = xcause e.
Proof. destruct tm, e; cbn [environ_try_from]; intros E; try discriminate E; reflexivity. Qed.

Definition is_machine_interrupt (i : Interrupt) : bool :=
  match i with MachineSoftware | MachineTimer | MachineExternal => true | _ => false end.

Lemma interrupt_cause_legal tm i v :
  default v (make_value_writable (trap_registers tm).1.2 (xcause i))
  = if match tm with TSupervisor => is_machine_interrupt i | TMachine => false end then v else xcause i.
Proof. destruct tm, i; reflexivity. Qed.

End Hart.
Export Hart.
