(* ===== verification/Bus.v ===== *)
(** The bus ([src/src/risc_v/interpreter/src/machine_state/bus.rs], [bus/devices.rs]
    and [bus/main_memory.rs]): address spaces, the placeholder devices, the main
    memory, and the reads and writes that are routed to them.

    An access carries the size of its element type in bytes; the value is the
    unsigned integer its bytes stand for on the host. *)

From S2P Require Import Prelude Region.

Module Bus.

Inductive OutOfBounds : Type := outOfBounds.

(** The byte order of the machine the interpreter runs on. *)
Class Host := host : endian.

(** The trait [MainMemoryLayout]: the number of bytes of the main memory. *)
Class MainMemoryLayout := { BYTES : Z }.

Definition Sizes (bytes : Z) : MainMemoryLayout := {| BYTES := bytes |}.
Definition M1K : MainMemoryLayout := Sizes 1024.
Definition M1G : MainMemoryLayout := Sizes (1024 * 1024 * 1024).
Definition M4G : MainMemoryLayout := Sizes (4 * 1024 * 1024 * 1024).

(** Length of the devices address space. *)
Definition DEVICES_ADDRESS_SPACE_LENGTH : Z := 2 * 1024 * 1024 * 1024.

Inductive AddressSpace : Type :=
| ASDevices
| ASMainMemory
| ASOutOfBounds.

#[export] Instance AddressSpace_eq_dec : EqDecision AddressSpace.
Proof. solve_decision. Defined.

Definition locate `{MainMemoryLayout} (addr : Z) : AddressSpace * Z :=
  if addr <? DEVICES_ADDRESS_SPACE_LENGTH then (ASDevices, addr)
  else
    let mem_addr := saturating_sub addr DEVICES_ADDRESS_SPACE_LENGTH in
    let mem_size := BYTES in
    if mem_addr <? mem_size then (ASMainMemory, mem_addr)
    else
      let oob_addr := saturating_sub mem_addr mem_size in
      (ASOutOfBounds, oob_addr).

(** [AddressSpace::start]; the sum can overflow. *)
Definition start `{MainMemoryLayout} (s : AddressSpace) : option Z :=
  match s with
  | ASDevices => Some 0
  | ASMainMemory => Some DEVICES_ADDRESS_SPACE_LENGTH
  | ASOutOfBounds => checked_add 64 DEVICES_ADDRESS_SPACE_LENGTH BYTES
  end.

(** [start_of_main_memory]: [AddressSpace::MainMemory.start()]. *)
Definition start_of_main_memory : Z := DEVICES_ADDRESS_SPACE_LENGTH.

(** ** Devices *)

(** The one placeholder byte. *)
Record Devices : Type := mkDevices { _placeholder : list Z }.

Definition devices_reset (d : Devices) : Devices := mkDevices (<[0%nat := 0]> (_placeholder d)).

Definition devices_read (d : Devices) (size : nat) (addr : Z) : result Z OutOfBounds :=
  Err outOfBounds.

Definition devices_write (size : nat) (addr value : Z) : comp Devices OutOfBounds unit :=
  comp_throw outOfBounds.

Definition devices_write_all (addr : Z) (values : list Z) : comp Devices OutOfBounds unit :=
  comp_throw outOfBounds.

(** ** Main memory *)
Record MainMemory : Type := mkMainMemory { data : DynRegion.bytes }.

Section Memory.
Context `{Host} `{MainMemoryLayout}.

(** [for i in 0..L::BYTES { self.data.write(i, 0u8) }] *)
Definition memory_reset (m : MainMemory) : option MainMemory :=
  let? d := fold_left (fun o i => let? d := o in DynRegion.dyn_write host BYTES d 1 i 0)
    (seqZ 0 BYTES) (Some (data m)) in
  Some (mkMainMemory d).

Definition memory_read (m : MainMemory) (size : nat) (addr : Z) : option (result Z OutOfBounds) :=
  let? end_ := checked_add 64 addr (Z.of_nat size) in
  if BYTES <? end_ then Some (Err outOfBounds)
  else let? v := DynRegion.dyn_read host BYTES (data m) size addr in Some (Ok v).

Definition memory_write (size : nat) (addr value : Z) : comp MainMemory OutOfBounds unit :=
  let! end_ := comp_lift (checked_add 64 addr (Z.of_nat size)) in
  if BYTES <? end_ then comp_throw outOfBounds
  else
    let! m := comp_get in
    let! d := comp_lift (DynRegion.dyn_write host BYTES (data m) size addr value) in
    comp_put (mkMainMemory d).

(** [write_all::<u8>]. *)
Definition memory_write_all (addr : Z) (values : list Z) : comp MainMemory OutOfBounds unit :=
  let! end_ := comp_lift (checked_add 64 addr (Z.of_nat (length values))) in
  if BYTES <? end_ then comp_throw outOfBounds
  else
    let! m := comp_get in
    let! d := comp_lift (DynRegion.dyn_write_all BYTES (data m) addr values) in
    comp_put (mkMainMemory d).

End Memory.

(** ** The bus *)
Record Bus : Type := mkBus { devices : Devices; memory : MainMemory }.

(** Running an operation of a component on the bus. *)
Definition on_devices {A} (c : comp Devices OutOfBounds A) : comp Bus OutOfBounds A :=
  fun b => match c (devices b) with
           | Ret a d => Ret a (mkBus d (memory b))
           | Throw e d => Throw e (mkBus d (memory b))
           | Panic => Panic
           end.

Definition on_memory {A} (c : comp MainMemory OutOfBounds A) : comp Bus OutOfBounds A :=
  fun b => match c (memory b) with
           | Ret a m => Ret a (mkBus (devices b) m)
           | Throw e m => Throw e (mkBus (devices b) m)
           | Panic => Panic
           end.

Section Ops.
Context `{Host} `{MainMemoryLayout}.

Definition bus_reset (b : Bus) : option Bus :=
  let? m := memory_reset (memory b) in
  Some (mkBus (devices_reset (devices b)) m).

Definition bus_read (b : Bus) (size : nat) (addr : Z) : option (result Z OutOfBounds) :=
  let '(addr_space, local_address) := locate addr in
  match addr_space with
  | ASDevices => Some (devices_read (devices b) size local_address)
  | ASMainMemory => memory_read (memory b) size local_address
  | ASOutOfBounds => Some (Err outOfBounds)
  end.

Definition bus_write (size : nat) (addr value : Z) : comp Bus OutOfBounds unit :=
  let '(addr_space, local_address) := locate addr in
  match addr_space with
  | ASDevices => on_devices (devices_write size local_address value)
  | ASMainMemory => on_memory (memory_write size local_address value)
  | ASOutOfBounds => comp_throw outOfBounds
  end.

Definition bus_write_all (addr : Z) (values : list Z) : comp Bus OutOfBounds unit :=
  let! end_addr := comp_lift (checked_add 64 addr
    (saturating_sub (Z.of_nat (length values)) 1)) in
  let '(addr_space, local_addr) := locate addr in
  let '(end_addr_space, _) := locate end_addr in
  if negb (bool_decide (addr_space = end_addr_space)) then comp_throw outOfBounds
  else
    match addr_space with
    | ASDevices => on_devices (devices_write_all local_addr values)
    | ASMainMemory => on_memory (memory_write_all local_addr values)
    | ASOutOfBounds => comp_throw outOfBounds
    end.

End Ops.

(** ** The flat memory the bus implements *)

(** The layouts of the program are far below the address space of the host. *)
Class LayoutOk (ML : MainMemoryLayout) : Prop := BYTES_range : 0 < BYTES <= 2 ^ 62.

#[export] Instance M1K_ok : LayoutOk M1K.
Proof. unfold LayoutOk; cbn; lia. Qed.
#[export] Instance M1G_ok : LayoutOk M1G.
Proof. unfold LayoutOk; cbn; lia. Qed.
#[export] Instance M4G_ok : LayoutOk M4G.
Proof. unfold LayoutOk; cbn; lia. Qed.

(** The byte a bus address stands for. *)
Definition byte_at (b : Bus) (addr : Z) : Z :=
  DynRegion.get (data (memory b)) (addr - start_of_main_memory).

(** [size] bytes from [addr] lie in the main memory. *)
Definition mapped `{MainMemoryLayout} (addr size : Z) : bool :=
  (start_of_main_memory <=? addr) && (addr + size <=? start_of_main_memory + BYTES).

Definition bus_wf (b : Bus) : Prop :=
  length (_placeholder (devices b)) = 1%nat /\ forall a, in_u 8 (byte_at b a).

(** The bus after storing [bs] at [addr]. *)
Definition store_bytes (b : Bus) (addr : Z) (bs : list Z) : Bus :=
  mkBus (devices b)
    (mkMainMemory (DynRegion.write_bytes (data (memory b)) (addr - start_of_main_memory) bs)).

Definition load_bytes (b : Bus) (addr : Z) (n : nat) : list Z :=
  DynRegion.read_bytes (data (memory b)) (addr - start_of_main_memory) n.

Section Spec.
Context `{Host} `{ML : MainMemoryLayout} `{!LayoutOk ML}.

Lemma locate_spec addr :
  in_u 64 addr ->
  locate addr =
    if mapped addr 1 then (ASMainMemory, addr - start_of_main_memory)
    else if addr <? start_of_main_memory then (ASDevices, addr)
    else (ASOutOfBounds, addr - start_of_main_memory - BYTES).
Proof using LayoutOk0.
  intros Ha. pose proof BYTES_range as R. unfold in_u in Ha.
  unfold locate, mapped, saturating_sub, start_of_main_memory, DEVICES_ADDRESS_SPACE_LENGTH.
  repeat (case_match; try lia); f_equal; lia.
Qed.

Lemma mapped_spec addr size :
  mapped addr size = true <->
  start_of_main_memory <= addr /\ addr + size <= start_of_main_memory + BYTES.
Proof using Type. unfold mapped. rewrite andb_true_iff, Z.leb_le, Z.leb_le. done. Qed.

Lemma bus_read_spec b size addr :
  in_u 64 addr -> 0 < Z.of_nat size <= 2 ^ 62 ->
  bus_read b size addr
  = Some (if mapped addr (Z.of_nat size)
          then Ok (DynRegion.host_value host (load_bytes b addr size)) else Err outOfBounds).
Proof using LayoutOk0.
  intros Ha Hs. pose proof BYTES_range as R. unfold bus_read. rewrite locate_spec by done.
  unfold mapped, memory_read, checked_add, DynRegion.dyn_read, load_bytes, in_u in *.
  repeat (case_match; simplify_eq; try lia); done.
Qed.

Lemma bus_write_spec b size addr v :
  in_u 64 addr -> 0 < Z.of_nat size <= 2 ^ 62 ->
  bus_write size addr v b
  = if mapped addr (Z.of_nat size)
    then Ret tt (store_bytes b addr (DynRegion.host_bytes host size v))
    else Throw outOfBounds b.
Proof using LayoutOk0.
  intros Ha Hs. pose proof BYTES_range as R. unfold bus_write. rewrite locate_spec by done.
  unfold mapped, on_memory, memory_write, comp_bind, comp_lift, comp_get, comp_put, comp_throw,
    checked_add, DynRegion.dyn_write, store_bytes, in_u in *.
  destruct b as [d m]; cbn [devices memory].
  repeat (case_match; simplify_eq; try lia); done.
Qed.

Lemma bus_write_all_spec b addr bs :
  in_u 64 addr -> 0 < Z.of_nat (length bs) <= 2 ^ 62 ->
  addr + Z.of_nat (length bs) <= 2 ^ 64 ->
  bus_write_all addr bs b
  = if mapped addr (Z.of_nat (length bs)) then Ret tt (store_bytes b addr bs)
    else Throw outOfBounds b.
Proof using LayoutOk0.
  intros Ha Hs He. pose proof BYTES_range as R. unfold bus_write_all, comp_bind, comp_lift.
  unfold checked_add, saturating_sub.
  rewrite (proj2 (Z.ltb_lt _ _)) by lia.
  rewrite !locate_spec by (unfold in_u in *; lia).
  unfold mapped, on_memory, memory_write_all, comp_bind, comp_lift, comp_get, comp_put, comp_throw,
    checked_add, DynRegion.dyn_write_all, store_bytes, in_u in *.
  destruct b as [d m]; cbn [devices memory].
  repeat (case_match; simplify_eq; try lia); try done; try (by exfalso; lia).
Qed.
End Spec.

Lemma byte_at_store b addr bs a :
  byte_at (store_bytes b addr bs) a
  = if decide (addr <= a < addr + Z.of_nat (length bs))
    then bs !!! Z.to_nat (a - addr) else byte_at b a.
Proof.
  unfold byte_at, store_bytes; cbn [memory data]. rewrite DynRegion.get_write_bytes.
  replace (a - start_of_main_memory - (addr - start_of_main_memory)) with (a - addr) by lia.
  repeat case_decide; (done || lia).
Qed.

Lemma load_store_inside b addr bs k n :
  (k + n <= length bs)%nat ->
  load_bytes (store_bytes b addr bs) (addr + Z.of_nat k) n = take n (drop k bs).
Proof.
  intros Hk. unfold load_bytes, store_bytes; cbn [memory data].
  replace (addr + Z.of_nat k - start_of_main_memory)
    with (addr - start_of_main_memory + Z.of_nat k) by lia.
  by apply DynRegion.read_write_bytes_inside.
Qed.

Lemma load_store_same b addr bs : load_bytes (store_bytes b addr bs) addr (length bs) = bs.
Proof.
  pose proof (load_store_inside b addr bs 0 (length bs) ltac:(lia)) as E.
  rewrite Z.add_0_r in E. by rewrite E, drop_0, firstn_all.
Qed.

Lemma load_store_outside b addr bs a n :
  a + Z.of_nat n <= addr \/ addr + Z.of_nat (length bs) <= a ->
  load_bytes (store_bytes b addr bs) a n = load_bytes b a n.
Proof.
  intros Hd. unfold load_bytes, store_bytes; cbn [memory data].
  apply DynRegion.read_write_bytes_outside. lia.
Qed.

Lemma host_bytes_ok h n v : Forall (in_u 8) (DynRegion.host_bytes h n v).
Proof.
  destruct h; cbn; [|apply Forall_rev]; apply le_bytes_ok.
Qed.

Lemma load_bytes_ok b addr n : bus_wf b -> Forall (in_u 8) (load_bytes b addr n).
Proof.
  intros [_ Hb]. unfold load_bytes. revert addr. induction n as [|n IH]; intros addr; cbn.
  - constructor.
  - constructor; [apply (Hb addr) |].
    replace (addr - start_of_main_memory + 1) with (addr + 1 - start_of_main_memory) by lia. apply IH.
Qed.

Lemma store_bytes_wf b addr bs : bus_wf b -> Forall (in_u 8) bs -> bus_wf (store_bytes b addr bs).
Proof.
  intros [Hd Hb] Hs. split; [done |]. intros a. rewrite byte_at_store. case_decide; [|apply Hb].
  destruct (lookup_lt_is_Some_2 bs (Z.to_nat (a - addr)) ltac:(lia)) as [v Hv].
  rewrite (list_lookup_total_correct _ _ _ Hv). by eapply Forall_lookup_1.
Qed.

Lemma host_value_range h bs :
  Forall (in_u 8) bs -> in_u (8 * Z.of_nat (length bs)) (DynRegion.host_value h bs).
Proof.
  intros Hb. destruct h; cbn; [by apply le_value_range |].
  rewrite <- length_rev. apply le_value_range. by apply Forall_rev.
Qed.

Section Reset.
Context `{Host} `{ML : MainMemoryLayout} `{!LayoutOk ML}.

Lemma memory_reset_fold l : forall d : DynRegion.bytes,
  Forall (fun i => 0 <= i < BYTES) l ->
  exists d', fold_left (fun o i => let? d := o in DynRegion.dyn_write host BYTES d 1 i 0) l (Some d) = Some d'
    /\ forall a, DynRegion.get d' a = if decide (a ∈ l) then 0 else DynRegion.get d a.
Proof using Type.
  induction l as [|i l IH]; intros d Hl; cbn [fold_left].
  - exists d. split; [done |]. intros a. rewrite decide_False; [done |]. apply not_elem_of_nil.
  - apply Forall_cons in Hl as [Hi Hl]. unfold DynRegion.dyn_write at 2.
    rewrite (proj2 (Z.leb_le _ _)) by lia.
    destruct (IH (DynRegion.write_bytes d i (DynRegion.host_bytes host 1 0)) Hl) as (d' & E & G).
    exists d'. split; [done |]. intros a. rewrite G, DynRegion.get_write_bytes.
    rewrite DynRegion.length_host_bytes.
    destruct (decide (a ∈ l)); [by rewrite decide_True by (by right) |].
    destruct (decide (a = i)) as [-> | Hn].
    + rewrite !decide_True by (lia || by left). rewrite Z.sub_diag. by destruct host.
    + rewrite !decide_False; [done | | lia]. intros [?|?]%elem_of_cons; done.
Qed.

(** A reset clears every byte of the memory. *)
Lemma bus_reset_spec b :
  bus_wf b ->
  exists b', bus_reset b = Some b' /\ bus_wf b' /\ devices b' = mkDevices [0]
    /\ forall a, byte_at b' a = if mapped a 1 then 0 else byte_at b a.
Proof using Type.
  intros [Hd Hb]. unfold bus_reset, memory_reset.
  destruct (memory_reset_fold (seqZ 0 BYTES) (data (memory b))) as (d' & -> & G).
  { apply Forall_forall. intros i Hi. apply elem_of_seqZ in Hi. lia. }
  assert (E : devices_reset (devices b) = mkDevices [0]).
  { unfold devices_reset. by destruct (_placeholder (devices b)) as [|x [|]]. }
  rewrite E.
  assert (B : forall a, byte_at (mkBus (mkDevices [0]) (mkMainMemory d')) a
              = if mapped a 1 then 0 else byte_at b a).
  { intros a. unfold byte_at; cbn [memory data]. rewrite G. unfold mapped.
    case_decide as Hi; rewrite elem_of_seqZ in Hi; repeat case_match; (done || lia). }
  eexists. split; [done |]. split; [split |].
  - done.
  - intros a. rewrite B. case_match; [unfold in_u; lia | apply Hb].
  - done.
Qed.
End Reset.

(** ** The bus as a byte memory *)

(** A load of the bytes just stored returns the stored
    value truncated to its width, on either byte order of the host. *)
Theorem bus_read_after_write `{Host} `{ML : MainMemoryLayout} `{!LayoutOk ML} b b' size addr v :
  in_u 64 addr -> 0 < Z.of_nat size <= 8 -> bus_write size addr v b = Ret tt b' ->
  bus_read b' size addr = Some (Ok (wrap (8 * Z.of_nat size) v)).
Proof.
  intros Ha Hs Hw. rewrite bus_write_spec in Hw by (done || lia). rewrite bus_read_spec by (done || lia).
  destruct (mapped addr (Z.of_nat size)); [|done]. injection Hw as <-.
  pose proof (load_store_same b addr (DynRegion.host_bytes host size v)) as E.
  rewrite DynRegion.length_host_bytes in E. by rewrite E, DynRegion.host_value_bytes.
Qed.

Lemma bus_read_after_write_witness :
  let _ : Host := LittleEndian in let _ := M1K in
  let b := mkBus (mkDevices [0]) (mkMainMemory ∅) in
  exists b', bus_write 4 0x80000010 0x1122334455 b = Ret tt b'
    /\ bus_read b' 4 0x80000010 = Some (Ok 0x22334455).
Proof.
  cbn zeta. eexists. split; [vm_compute; reflexivity |].
  apply (@bus_read_after_write LittleEndian M1K _
    (mkBus (mkDevices [0]) (mkMainMemory ∅)) _ 4 0x80000010 0x1122334455);
    [unfold in_u; lia | lia | vm_compute; reflexivity].
Defined.

(** A store does not change what a load of a disjoint range
    returns, and neither a load nor a store that faults changes the memory. *)
Theorem bus_write_frame `{Host} `{ML : MainMemoryLayout} `{!LayoutOk ML} b size addr v size' addr' :
  in_u 64 addr -> in_u 64 addr' -> 0 < Z.of_nat size <= 8 -> 0 < Z.of_nat size' <= 8 ->
  addr' + Z.of_nat size' <= addr \/ addr + Z.of_nat size <= addr' ->
  match bus_write size addr v b with
  | Ret _ b' => bus_read b' size' addr' = bus_read b size' addr'
  | Throw _ b' => b' = b
  | Panic => False
  end.
Proof.
  intros Ha Ha' Hs Hs' Hd. rewrite bus_write_spec by (done || lia).
  destruct (mapped addr (Z.of_nat size)); [|done]. rewrite !bus_read_spec by (done || lia).
  rewrite load_store_outside; [done |]. by rewrite DynRegion.length_host_bytes.
Qed.

Lemma bus_write_frame_witness :
  let _ : Host := LittleEndian in let _ := M1K in
  let b := mkBus (mkDevices [0]) (mkMainMemory ∅) in
  match bus_write 4 0x80000010 7 b with
  | Ret _ b' => bus_read b' 2 0x80000014 = bus_read b 2 0x80000014
  | Throw _ b' => b' = b
  | Panic => False
  end.
Proof.
  apply (@bus_write_frame LittleEndian M1K _); unfold in_u; lia.
Defined.

End Bus.
Export Bus.
