(* ===== verification/RvI.v ===== *)
(** The base integer instructions on the registers of the hart
    ([src/src/risc_v/interpreter/src/interpreter/rv32i.rs] and the register
    instructions of [interpreter/rv64i.rs]).

    An instruction whose shift or addition is checked for overflow returns an
    [option], [None] being the panic. *)

From S2P Require Import Prelude Registers Mode Traps CSRFields CSRegisters HartState.

Module RvI.

(** ** RV32I on the registers *)

Definition run_addi (self : XRegisters) (imm : Z) (rs1 rd : XRegister) : XRegisters :=
  let rval := xread self rs1 in
  let result := wrap 64 (rval + wrap 64 imm) in
  xwrite self rd result.

Definition run_add (self : XRegisters) (rs1 rs2 rd : XRegister) : XRegisters :=
  let lhs := xread self rs1 in
  let rhs := xread self rs2 in
  xwrite self rd (wrap 64 (lhs + rhs)).

Definition run_sub (self : XRegisters) (rs1 rs2 rd : XRegister) : XRegisters :=
  let lhs := xread self rs1 in
  let rhs := xread self rs2 in
  xwrite self rd (wrap 64 (lhs - rhs)).

Definition run_lui (self : XRegisters) (imm : Z) (rd : XRegister) : XRegisters :=
  xwrite self rd (wrap 64 imm).

Definition run_andi (self : XRegisters) (imm : Z) (rs1 rd : XRegister) : XRegisters :=
  xwrite self rd (Z.land (xread self rs1) (wrap 64 imm)).

Definition run_ori (self : XRegisters) (imm : Z) (rs1 rd : XRegister) : XRegisters :=
  xwrite self rd (Z.lor (xread self rs1) (wrap 64 imm)).

Definition run_xori (self : XRegisters) (imm : Z) (rs1 rd : XRegister) : XRegisters :=
  xwrite self rd (Z.lxor (xread self rs1) (wrap 64 imm)).

Definition run_and (self : XRegisters) (rs1 rs2 rd : XRegister) : XRegisters :=
  xwrite self rd (Z.land (xread self rs1) (xread self rs2)).

Definition run_or (self : XRegisters) (rs1 rs2 rd : XRegister) : XRegisters :=
  xwrite self rd (Z.lor (xread self rs1) (xread self rs2)).

Definition run_xor (self : XRegisters) (rs1 rs2 rd : XRegister) : XRegisters :=
  xwrite self rd (Z.lxor (xread self rs1) (xread self rs2)).

Definition run_slti (self : XRegisters) (imm : Z) (rs1 rd : XRegister) : XRegisters :=
  xwrite self rd (if sint 64 (xread self rs1) <? imm then 1 else 0).

Definition run_sltiu (self : XRegisters) (imm : Z) (rs1 rd : XRegister) : XRegisters :=
  xwrite self rd (if xread self rs1 <? wrap 64 imm then 1 else 0).

Definition run_slt (self : XRegisters) (rs1 rs2 rd : XRegister) : XRegisters :=
  xwrite self rd (if sint 64 (xread self rs1) <? sint 64 (xread self rs2) then 1 else 0).

Definition run_sltu (self : XRegisters) (rs1 rs2 rd : XRegister) : XRegisters :=
  xwrite self rd (if xread self rs1 <? xread self rs2 then 1 else 0).

(** ** RV64I on the registers *)

Definition run_addiw (self : XRegisters) (imm : Z) (rs1 rd : XRegister) : XRegisters :=
  let rval := xread self rs1 in
  let result := wrap 64 (rval + wrap 64 imm) in
  xwrite self rd (wrap 64 (sint 32 result)).

Definition run_addw (self : XRegisters) (rs1 rs2 rd : XRegister) : XRegisters :=
  let lhs := xread self rs1 in
  let rhs := xread self rs2 in
  xwrite self rd (wrap 64 (sint 32 (wrap 64 (lhs + rhs)))).

Definition run_subw (self : XRegisters) (rs1 rs2 rd : XRegister) : XRegisters :=
  let lhs := xread self rs1 in
  let rhs := xread self rs2 in
  xwrite self rd (wrap 64 (sint 32 (wrap 64 (lhs - rhs)))).

Definition run_slli (self : XRegisters) (imm : Z) (rs1 rd : XRegister) : option XRegisters :=
  let? result := checked_shl 64 (xread self rs1) imm in
  Some (xwrite self rd result).

Definition run_srli (self : XRegisters) (imm : Z) (rs1 rd : XRegister) : option XRegisters :=
  let? result := checked_shr 64 (xread self rs1) imm in
  Some (xwrite self rd result).

Definition run_srai (self : XRegisters) (imm : Z) (rs1 rd : XRegister) : option XRegisters :=
  let sh_amt := Z.land imm 0x3F in
  let? result := checked_shr 64 (sint 64 (xread self rs1)) sh_amt in
  Some (xwrite self rd (wrap 64 result)).

Definition run_slliw (self : XRegisters) (imm : Z) (rs1 rd : XRegister) : option XRegisters :=
  let? result := checked_shl 64 (xread self rs1) imm in
  Some (xwrite self rd (wrap 64 (sint 32 result))).

Definition run_srliw (self : XRegisters) (imm : Z) (rs1 rd : XRegister) : option XRegisters :=
  let? result := checked_shr 32 (wrap 32 (xread self rs1)) imm in
  Some (xwrite self rd (wrap 64 (sint 32 result))).

Definition run_sraiw (self : XRegisters) (imm : Z) (rs1 rd : XRegister) : option XRegisters :=
  let sh_amt := Z.land imm 0x1F in
  let? result := checked_shr 32 (sint 32 (xread self rs1)) sh_amt in
  Some (xwrite self rd (wrap 64 result)).

Definition run_sll (self : XRegisters) (rs1 rs2 rd : XRegister) : option XRegisters :=
  let sh_amt := Z.land (xread self rs2) 0x3F in
  let? result := checked_shl 64 (xread self rs1) sh_amt in
  Some (xwrite self rd result).

Definition run_srl (self : XRegisters) (rs1 rs2 rd : XRegister) : option XRegisters :=
  let sh_amt := Z.land (xread self rs2) 0x3F in
  let? result := checked_shr 64 (xread self rs1) sh_amt in
  Some (xwrite self rd result).

Definition run_sra (self : XRegisters) (rs1 rs2 rd : XRegister) : option XRegisters :=
  let sh_amt := Z.land (xread self rs2) 0x3F in
  let? result := checked_shr 64 (sint 64 (xread self rs1)) sh_amt in
  Some (xwrite self rd (wrap 64 result)).

Definition run_sllw (self : XRegisters) (rs1 rs2 rd : XRegister) : option XRegisters :=
  let sh_amt := Z.land (xread self rs2) 0x1F in
  let? result := checked_shl 64 (xread self rs1) sh_amt in
  Some (xwrite self rd (wrap 64 (sint 32 result))).

Definition run_srlw (self : XRegisters) (rs1 rs2 rd : XRegister) : option XRegisters :=
  let sh_amt := Z.land (xread self rs2) 0x1F in
  let? result := checked_shr 32 (wrap 32 (xread self rs1)) sh_amt in
  Some (xwrite self rd (wrap 64 (sint 32 result))).

Definition run_sraw (self : XRegisters) (rs1 rs2 rd : XRegister) : option XRegisters :=
  let sh_amt := Z.land (xread self rs2) 0x1F in
  let? result := checked_shr 32 (sint 32 (xread self rs1)) sh_amt in
  Some (xwrite self rd (wrap 64 result)).

(** ** RV32I on the hart *)

Definition run_auipc (self : HartState) (imm : Z) (rd : XRegister) : HartState :=
  let rval := wrap 64 (pc self + wrap 64 imm) in
  xset self rd rval.

Definition run_ebreak (self : HartState) : Exception := Breakpoint.

(** [None]: the mode cell does not hold a mode. *)
Definition run_ecall (self : HartState) : option Exception :=
  let? m := mode_read (mode self) in
  Some match m with
       | User => EnvCallFromUMode
       | Supervisor => EnvCallFromSMode
       | Machine => EnvCallFromMMode
       end.

Definition run_jalr_impl (INSTR_WIDTH : Z) (self : HartState) (imm : Z) (rs1 rd : XRegister) :
    Z * HartState :=
  let return_address := wrap 64 (pc self + INSTR_WIDTH) in
  let target_address := Z.land (wrap 64 (xget self rs1 + wrap 64 imm)) (unot 64 1) in
  let self := xset self rd return_address in
  (target_address, self).

Definition run_jalr : HartState -> Z -> XRegister -> XRegister -> Z * HartState := run_jalr_impl 4.

Definition run_jal_impl (INSTR_WIDTH : Z) (self : HartState) (imm : Z) (rd : XRegister) :
    Z * HartState :=
  let current_pc := pc self in
  let return_address := wrap 64 (current_pc + INSTR_WIDTH) in
  let self := xset self rd return_address in
  (wrap 64 (current_pc + wrap 64 imm), self).

Definition run_jal : HartState -> Z -> XRegister -> Z * HartState := run_jal_impl 4.

Definition run_beq_impl (INSTR_WIDTH : Z) (self : HartState) (imm : Z) (rs1 rs2 : XRegister) : Z :=
  let current_pc := pc self in
  if xget self rs1 =? xget self rs2 then wrap 64 (current_pc + wrap 64 imm)
  else wrap 64 (current_pc + INSTR_WIDTH).

Definition run_beq : HartState -> Z -> XRegister -> XRegister -> Z := run_beq_impl 4.

Definition run_bne_impl (INSTR_WIDTH : Z) (self : HartState) (imm : Z) (rs1 rs2 : XRegister) : Z :=
  let current_pc := pc self in
  if negb (xget self rs1 =? xget self rs2) then wrap 64 (current_pc + wrap 64 imm)
  else wrap 64 (current_pc + INSTR_WIDTH).

Definition run_bne : HartState -> Z -> XRegister -> XRegister -> Z := run_bne_impl 4.

Definition run_bge (self : HartState) (imm : Z) (rs1 rs2 : XRegister) : Z :=
  let current_pc := pc self in
  let lhs := sint 64 (xget self rs1) in
  let rhs := sint 64 (xget self rs2) in
  if rhs <=? lhs then wrap 64 (current_pc + wrap 64 imm) else wrap 64 (current_pc + 4).

Definition run_bgeu (self : HartState) (imm : Z) (rs1 rs2 : XRegister) : Z :=
  let current_pc := pc self in
  let lhs := xget self rs1 in
  let rhs := xget self rs2 in
  if rhs <=? lhs then wrap 64 (current_pc + wrap 64 imm) else wrap 64 (current_pc + 4).

Definition run_blt (self : HartState) (imm : Z) (rs1 rs2 : XRegister) : Z :=
  let current_pc := pc self in
  let lhs := sint 64 (xget self rs1) in
  let rhs := sint 64 (xget self rs2) in
  if lhs <? rhs then wrap 64 (current_pc + wrap 64 imm) else wrap 64 (current_pc + 4).

Definition run_bltu (self : HartState) (imm : Z) (rs1 rs2 : XRegister) : Z :=
  let current_pc := pc self in
  let lhs := xget self rs1 in
  let rhs := xget self rs2 in
  if lhs <? rhs then wrap 64 (current_pc + wrap 64 imm) else wrap 64 (current_pc + 4).

End RvI.
Export RvI.
