(* ===== verification/RvM.v ===== *)
(** The remainder instructions
    ([src/src/risc_v/interpreter/src/interpreter/rv32m.rs] and [interpreter/rv64m.rs]).
    Rust's [%] truncates towards zero, like [Z.rem]. *)

From S2P Require Import Prelude Registers.

Module RvM.

Definition run_rem (self : XRegisters) (rs1 rs2 rd : XRegister) : XRegisters :=
  let rval1 := sint 64 (xread self rs1) in
  let rval2 := sint 64 (xread self rs2) in
  let result :=
    if rval2 =? 0 then rval1
    else if (rval2 =? -1) && (rval1 =? - 2 ^ 63) then 0
    else Z.rem rval1 rval2 in
  xwrite self rd (wrap 64 result).

Definition run_remu (self : XRegisters) (rs1 rs2 rd : XRegister) : XRegisters :=
  let rval1 := xread self rs1 in
  let rval2 := xread self rs2 in
  let result := if rval2 =? 0 then rval1 else Z.rem rval1 rval2 in
  xwrite self rd result.

Definition run_remw (self : XRegisters) (rs1 rs2 rd : XRegister) : XRegisters :=
  let rval1 := sint 32 (xread self rs1) in
  let rval2 := sint 32 (xread self rs2) in
  let result :=
    if rval2 =? 0 then rval1
    else if (rval2 =? -1) && (rval1 =? - 2 ^ 31) then 0
    else Z.rem rval1 rval2 in
  xwrite self rd (wrap 64 result).

Definition run_remuw (self : XRegisters) (rs1 rs2 rd : XRegister) : XRegisters :=
  let rval1 := wrap 32 (xread self rs1) in
  let rval2 := wrap 32 (xread self rs2) in
  let result := if rval2 =? 0 then rval1 else Z.rem rval1 rval2 in
  xwrite self rd (wrap 64 (sint 32 result)).

End RvM.
Export RvM.
