(* ===== verification/RvSystem.v ===== *)
(** The system instructions on the hart: the control register instructions
    ([src/src/risc_v/interpreter/src/interpreter/rv64zicsr.rs]) and the trap returns
    ([interpreter/rv64priv.rs]). *)

From S2P Require Import Prelude Registers Mode Traps CSRFields CSRegisters HartState.

Module RvSystem.

(** A [Result] inside a computation on the hart, and a panicking one. *)
Definition lift_result {S A E} (r : result A E) : comp S E A :=
  match r with Ok a => comp_ret a | Err e => comp_throw e end.

Definition lift_option_result {S A E} (o : option (result A E)) : comp S E A :=
  let! r := comp_lift o in lift_result r.

(** ** Zicsr *)

Definition csr_replace (csr : CSRegister) (value : Z) (rd : XRegister) : comp HartState Exception unit :=
  let! self := comp_get in
  let! m := comp_lift (mode_read (mode self)) in
  lift_option_result (check_privilege csr m) ;;;
  lift_result (check_write csr) ;;;
  if is_zero rd then comp_put (hcsr_write self csr value)
  else
    let '(old, c) := csr_replace_value (csregisters self) csr value in
    comp_put (xset (with_csregisters self c) rd old).

Definition run_csrrw (csr : CSRegister) (rs1 rd : XRegister) : comp HartState Exception unit :=
  let! self := comp_get in
  csr_replace csr (xget self rs1) rd.

Definition run_csrrwi (csr : CSRegister) (imm : Z) (rd : XRegister) : comp HartState Exception unit :=
  csr_replace csr (Z.land imm 0x1F) rd.

Definition run_csrrs (csr : CSRegister) (rs1 rd : XRegister) : comp HartState Exception unit :=
  let! self := comp_get in
  let! m := comp_lift (mode_read (mode self)) in
  lift_option_result (check_privilege csr m) ;;;
  if is_zero rs1 then comp_put (xset self rd (hcsr_read self csr))
  else
    lift_result (check_write csr) ;;;
    let value := xget self rs1 in
    let '(old, c) := csr_set_bits (csregisters self) csr value in
    comp_put (xset (with_csregisters self c) rd old).

Definition run_csrrsi (csr : CSRegister) (imm : Z) (rd : XRegister) : comp HartState Exception unit :=
  let imm := Z.land imm 0x1F in
  let! self := comp_get in
  let! m := comp_lift (mode_read (mode self)) in
  lift_option_result (check_privilege csr m) ;;;
  if imm =? 0 then comp_put (xset self rd (hcsr_read self csr))
  else
    lift_result (check_write csr) ;;;
    let '(old, c) := csr_set_bits (csregisters self) csr imm in
    comp_put (xset (with_csregisters self c) rd old).

Definition run_csrrc (csr : CSRegister) (rs1 rd : XRegister) : comp HartState Exception unit :=
  let! self := comp_get in
  let! m := comp_lift (mode_read (mode self)) in
  lift_option_result (check_privilege csr m) ;;;
  if is_zero rs1 then comp_put (xset self rd (hcsr_read self csr))
  else
    lift_result (check_write csr) ;;;
    let value := xget self rs1 in
    let '(old, c) := csr_clear_bits (csregisters self) csr value in
    comp_put (xset (with_csregisters self c) rd old).

Definition run_csrrci (csr : CSRegister) (imm : Z) (rd : XRegister) : comp HartState Exception unit :=
  let imm := Z.land imm 0x1F in
  let! self := comp_get in
  let! m := comp_lift (mode_read (mode self)) in
  lift_option_result (check_privilege csr m) ;;;
  if imm =? 0 then comp_put (xset self rd (hcsr_read self csr))
  else
    lift_result (check_write csr) ;;;
    let '(old, c) := csr_clear_bits (csregisters self) csr imm in
    comp_put (xset (with_csregisters self c) rd old).

(** ** Trap returns *)

(** [MRET]: the address to continue at. *)
Definition run_mret : comp HartState Exception Z :=
  let! self := comp_get in
  let! m := comp_lift (mode_read (mode self)) in
  match m with
  | User | Supervisor => comp_throw IllegalInstruction
  | Machine =>
      let ms := hcsr_read self mstatus in
      let prev_privilege := get_MPP ms in
      let prev_mie := get_MPIE ms in
      let ms := set_MIE ms prev_mie in
      let ms := set_MPIE ms true in
      let ms := set_MPP ms MPP_User in
      let ms := if bool_decide (prev_privilege = MPP_Machine) then ms else set_MPRV ms false in
      let self := hcsr_write self mstatus ms in
      let self := with_mode self (mode_write (mode self)
        match prev_privilege with
        | MPP_User => User
        | MPP_Supervisor => Supervisor
        | MPP_Machine => Machine
        end) in
      comp_put self ;;;
      comp_ret (hcsr_read self mepc)
  end.

Definition run_sret : comp HartState Exception Z :=
  let! self := comp_get in
  let! m := comp_lift (mode_read (mode self)) in
  match m with
  | User => comp_throw IllegalInstruction
  | Supervisor | Machine =>
      let ms := hcsr_read self mstatus in
      if get_TSR ms then comp_throw IllegalInstruction
      else
        let prev_privilege := get_SPP ms in
        let prev_sie := get_SPIE ms in
        let ms := set_SIE ms prev_sie in
        let ms := set_SPIE ms true in
        let ms := set_SPP ms SPP_User in
        let ms := set_MPRV ms false in
        let self := hcsr_write self mstatus ms in
        let self := with_mode self (mode_write (mode self)
          match prev_privilege with
          | SPP_User => User
          | SPP_Supervisor => Supervisor
          end) in
        comp_put self ;;;
        comp_ret (hcsr_read self sepc)
  end.

(** ** The system instructions keep the invariant and do not panic *)

(** Judgement shared by the instructions of the hart: the invariant is kept on
    both exits, values are in [Q], errors carry 64-bit addresses. *)
Definition hart_total {A} (c : comp HartState Exception A) (Q : A -> Prop) : Prop :=
  total hart_inv c (fun a h => hart_inv h /\ Q a) (fun e h => hart_inv h /\ exception_valid e).

Lemma exception_valid_illegal : exception_valid IllegalInstruction.
Proof. unfold exception_valid, in_u. cbn. lia. Qed.

(** The common prefix of the control register instructions: the mode is read and
    the privilege is checked. *)
Lemma checked_total {A} csr h (k : unit -> comp HartState Exception A) Q :
  hart_inv h ->
  total (fun h' => h' = h) (k tt) (fun a h => hart_inv h /\ Q a)
    (fun e h => hart_inv h /\ exception_valid e) ->
  total (fun h' => h' = h)
    (let! m := comp_lift (mode_read (mode h)) in
     let! u := lift_option_result (check_privilege csr m) in k u)
    (fun a h => hart_inv h /\ Q a) (fun e h => hart_inv h /\ exception_valid e).
Proof.
  intros Hh Hk. destruct (wf_mode h (proj1 Hh)) as [m Hm]. eapply total_lift; [exact Hm |].
  intros h' ->. unfold comp_bind, lift_option_result, check_privilege, comp_lift.
  destruct (csr_privilege_total csr) as [p ->]. destruct (privilege_lt _ _).
  - split; [done | apply exception_valid_illegal].
  - by apply Hk.
Qed.

(** The check of a read-only register. *)
Lemma writable_total {A} csr h (k : unit -> comp HartState Exception A) Q :
  hart_inv h ->
  total (fun h' => h' = h) (k tt) (fun a h => hart_inv h /\ Q a)
    (fun e h => hart_inv h /\ exception_valid e) ->
  total (fun h' => h' = h) (let! u := lift_result (check_write csr) in k u)
    (fun a h => hart_inv h /\ Q a) (fun e h => hart_inv h /\ exception_valid e).
Proof.
  intros Hh Hk h' ->. unfold comp_bind, check_write. destruct (is_read_only csr).
  - split; [done | apply exception_valid_illegal].
  - by apply Hk.
Qed.

Lemma with_csr_xset_inv h c rd v :
  hart_inv h -> csr_inv c -> in_u 64 v -> hart_inv (xset (with_csregisters h c) rd v).
Proof.
  intros [[Hx Hf Hc Hm Hp] Hi] Hc' Hv. apply xset_inv; [|done].
  split; [split |]; try done. apply Hc'.
Qed.

Lemma csr_set_bits_inv c r v :
  csr_inv c -> in_u 64 v -> csr_inv (csr_set_bits c r v).2 /\ in_u 64 (csr_set_bits c r v).1.
Proof.
  intros Hc Hv. pose proof (csr_read_range c r (proj1 Hc)). cbn. split; [|done].
  apply csr_write_inv; [done | solve_range].
Qed.

Lemma csr_clear_bits_inv c r v :
  csr_inv c -> in_u 64 v -> csr_inv (csr_clear_bits c r v).2 /\ in_u 64 (csr_clear_bits c r v).1.
Proof.
  intros Hc Hv. pose proof (csr_read_range c r (proj1 Hc)). cbn. split; [|done].
  apply csr_write_inv; [done | solve_range].
Qed.

Lemma imm5_range imm : in_u 64 (Z.land imm 0x1F).
Proof. apply land_range_r; [lia | range_compute]. Qed.

Lemma csr_replace_total csr v rd : in_u 64 v -> hart_total (csr_replace csr v rd) (fun _ => True).
Proof.
  intros Hv. apply total_get; intros h Hh. apply checked_total; [done |].
  apply writable_total; [done |]. destruct (is_zero rd).
  - apply total_put. split; [by apply hcsr_write_inv | done].
  - destruct (csr_replace_inv (csregisters h) csr v (proj2 Hh) Hv) as [H1 H2].
    destruct (csr_replace_value _ _ _) as [old c]. apply total_put.
    split; [by apply with_csr_xset_inv | done].
Qed.

(** The read-modify-write instructions, over the operation they apply. *)
Lemma csr_modify_total (op : CSRegisters -> CSRegister -> Z -> Z * CSRegisters) csr (skip : bool)
    (value : HartState -> Z) rd :
  (forall c v, csr_inv c -> in_u 64 v -> csr_inv (op c csr v).2 /\ in_u 64 (op c csr v).1) ->
  (forall h, hart_inv h -> in_u 64 (value h)) ->
  hart_total
    (let! self := comp_get in
     let! m := comp_lift (mode_read (mode self)) in
     lift_option_result (check_privilege csr m) ;;;
     if skip then comp_put (xset self rd (hcsr_read self csr))
     else lift_result (check_write csr) ;;;
          let '(old, c) := op (csregisters self) csr (value self) in
          comp_put (xset (with_csregisters self c) rd old)) (fun _ => True).
Proof.
  intros Hop Hv. apply total_get; intros h Hh. apply checked_total; [done |]. destruct skip.
  - apply total_put. split; [|done]. apply xset_inv; [done | by apply hcsr_read_range].
  - apply writable_total; [done |].
    destruct (Hop (csregisters h) (value h) (proj2 Hh) (Hv h Hh)) as [H1 H2].
    destruct (op _ _ _) as [old c]. apply total_put. split; [by apply with_csr_xset_inv | done].
Qed.

Lemma run_csrrw_total csr rs1 rd : hart_total (run_csrrw csr rs1 rd) (fun _ => True).
Proof.
  intros h Hh. by apply (csr_replace_total csr (xget h rs1) rd (xget_range h rs1 Hh) h).
Qed.

Lemma run_csrrwi_total csr imm rd : hart_total (run_csrrwi csr imm rd) (fun _ => True).
Proof. apply csr_replace_total, imm5_range. Qed.

Lemma run_csrrs_total csr rs1 rd : hart_total (run_csrrs csr rs1 rd) (fun _ => True).
Proof.
  apply (csr_modify_total csr_set_bits csr (is_zero rs1) (fun h => xget h rs1) rd).
  - intros. by apply csr_set_bits_inv.
  - intros. by apply xget_range.
Qed.

Lemma run_csrrc_total csr rs1 rd : hart_total (run_csrrc csr rs1 rd) (fun _ => True).
Proof.
  apply (csr_modify_total csr_clear_bits csr (is_zero rs1) (fun h => xget h rs1) rd).
  - intros. by apply csr_clear_bits_inv.
  - intros. by apply xget_range.
Qed.

Lemma run_csrrsi_total csr imm rd : hart_total (run_csrrsi csr imm rd) (fun _ => True).
Proof.
  apply (csr_modify_total csr_set_bits csr (Z.land imm 0x1F =? 0) (fun _ => Z.land imm 0x1F) rd).
  - intros. by apply csr_set_bits_inv.
  - intros. apply imm5_range.
Qed.

Lemma run_csrrci_total csr imm rd : hart_total (run_csrrci csr imm rd) (fun _ => True).
Proof.
  apply (csr_modify_total csr_clear_bits csr (Z.land imm 0x1F =? 0) (fun _ => Z.land imm 0x1F) rd).
  - intros. by apply csr_clear_bits_inv.
  - intros. apply imm5_range.
Qed.

Lemma run_mret_total : hart_total run_mret (in_u 64).
Proof.
  apply total_get; intros h Hh. destruct (wf_mode h (proj1 Hh)) as [m Hm].
  eapply total_lift; [exact Hm |].
  assert (Hi : hart_inv h /\ exception_valid IllegalInstruction)
    by (split; [done | apply exception_valid_illegal]).
  destruct m; [by intros h' -> | by intros h' -> |]. intros h' _. unfold comp_bind, comp_put, comp_ret.
  pose proof (hcsr_read_range h mstatus Hh) as Hs.
  set (h2 := with_mode _ _). assert (H2 : hart_inv h2).
  { apply with_mode_inv, hcsr_write_inv; [done |]. autounfold with csr_fields.
    case_match; repeat apply set_field_u64; done. }
  split; [done | by apply hcsr_read_range].
Qed.

Lemma run_sret_total : hart_total run_sret (in_u 64).
Proof.
  apply total_get; intros h Hh. destruct (wf_mode h (proj1 Hh)) as [m Hm].
  eapply total_lift; [exact Hm |].
  assert (Hi : hart_inv h /\ exception_valid IllegalInstruction)
    by (split; [done | apply exception_valid_illegal]).
  pose proof (hcsr_read_range h mstatus Hh) as Hs.
  assert (H2 : forall m', hart_inv (with_mode (hcsr_write h mstatus
      (set_MPRV (set_SPP (set_SPIE (set_SIE (hcsr_read h mstatus) (get_SPIE (hcsr_read h mstatus))) true)
        SPP_User) false)) (mode_write (mode h) m'))).
  { intros m'. apply (with_mode_inv (hcsr_write h mstatus _)), hcsr_write_inv; [done |].
    autounfold with csr_fields. repeat apply set_field_u64; done. }
  intros h' ->. destruct m; [done | |]; cbv zeta;
    (destruct (get_TSR (hcsr_read h mstatus)); [done |]);
    (split; [apply H2 | apply hcsr_read_range, H2]).
Qed.

End RvSystem.
Export RvSystem.
