(* ===== verification/TrapSpec.v ===== *)
(** Traps and trap returns: entering a trap and returning from it with [MRET] or
    [SRET] restores the mode, the interrupt enable and the program counter; traps do
    not lower the privilege; accesses to control registers are checked. *)

From S2P Require Import Prelude Registers Mode Traps CSRFields CSRegisters HartState RvSystem.

Module TrapSpec.

(** ** Popping the privilege stack *)

Definition mode_of_mpp (p : MPPValue) : Mode :=
  match p with MPP_User => User | MPP_Supervisor => Supervisor | MPP_Machine => Machine end.

Definition mode_of_spp (p : SPPValue) : Mode :=
  match p with SPP_User => User | SPP_Supervisor => Supervisor end.

Definition pop_m (s : Status) : Status :=
  mkStatus (st_SIE s) (st_MPIE s) (st_SPIE s) true (st_SPP s) MPP_User
    (if bool_decide (st_MPP s = MPP_Machine) then st_MPRV s else false) (st_TSR s).

Definition pop_s (s : Status) : Status :=
  mkStatus (st_SPIE s) (st_MIE s) true (st_MPIE s) SPP_User (st_MPP s) false (st_TSR s).

Ltac status_fields :=
  f_equal; autounfold with csr_fields;
  repeat first [ rewrite get_set_eq by (lia || (repeat apply set_field_u64; done))
               | rewrite get_set_ne by (lia || (repeat apply set_field_u64; done)) ]; try done.

Lemma run_mret_spec h :
  hart_inv h -> mode_read (mode h) = Some Machine ->
  exists h', run_mret h = Ret (hcsr_read h mepc) h'
    /\ mode_read (mode h') = Some (mode_of_mpp (st_MPP (hart_status h)))
    /\ hart_status h' = pop_m (hart_status h)
    /\ xregisters h' = xregisters h /\ fregisters h' = fregisters h /\ pc h' = pc h.
Proof.
  intros Hh Hm. unfold run_mret, comp_bind, comp_get, comp_lift. rewrite Hm.
  pose proof (hcsr_read_range h mstatus Hh) as Hs. pose proof (wf_csr h (proj1 Hh)) as Wc. cbv zeta.
  set (v := hcsr_read h mstatus) in *. set (v' := if bool_decide _ then _ else _).
  assert (Hv' : in_u 64 v').
  { unfold v'. autounfold with csr_fields. case_match; repeat apply set_field_u64; done. }
  unfold comp_put, comp_ret. eexists. split.
  { f_equal. unfold hcsr_read, hcsr_write; cbn [csregisters with_csregisters with_mode].
    apply csr_read_write_ne; [done | discriminate]. }
  change (st_MPP (hart_status h)) with (get_MPP v).
  split; [cbn [mode with_mode]; rewrite mode_read_write; by destruct (get_MPP v) |].
  split; [|done]. unfold hart_status, hcsr_read, hcsr_write; cbn [csregisters with_csregisters with_mode].
  rewrite status_write by done. fold (hcsr_read h mstatus). fold v. unfold v', status, pop_m.
  destruct (bool_decide (get_MPP v = MPP_Machine)) eqn:E;
    cbn [st_SIE st_MIE st_SPIE st_MPIE st_SPP st_MPP st_MPRV st_TSR]; rewrite E; status_fields.
Qed.

Lemma run_sret_spec h m :
  hart_inv h -> mode_read (mode h) = Some m -> m <> User -> st_TSR (hart_status h) = false ->
  exists h', run_sret h = Ret (hcsr_read h sepc) h'
    /\ mode_read (mode h') = Some (mode_of_spp (st_SPP (hart_status h)))
    /\ hart_status h' = pop_s (hart_status h)
    /\ xregisters h' = xregisters h /\ fregisters h' = fregisters h /\ pc h' = pc h.
Proof.
  intros Hh Hm Hu Ht. unfold run_sret, comp_bind, comp_get, comp_lift. rewrite Hm.
  pose proof (hcsr_read_range h mstatus Hh) as Hs. pose proof (wf_csr h (proj1 Hh)) as Wc.
  change (st_TSR (hart_status h)) with (get_TSR (hcsr_read h mstatus)) in Ht.
  set (v := hcsr_read h mstatus) in *. set (v' := set_MPRV (set_SPP (set_SPIE (set_SIE v (get_SPIE v)) true) SPP_User) false).
  assert (Hv' : in_u 64 v').
  { unfold v'. autounfold with csr_fields. repeat apply set_field_u64; done. }
  assert (R : (let h' := with_mode (hcsr_write h mstatus v') (mode_write (mode (hcsr_write h mstatus v'))
                 (mode_of_spp (get_SPP v))) in
               (comp_put h' ;;; comp_ret (hcsr_read h' sepc)) h)
    = Ret (E := Exception) (hcsr_read h sepc) (with_mode (hcsr_write h mstatus v')
        (mode_write (mode (hcsr_write h mstatus v')) (mode_of_spp (get_SPP v))))).
  { cbv zeta. unfold comp_bind, comp_put, comp_ret. f_equal.
    unfold hcsr_read, hcsr_write; cbn [csregisters with_csregisters with_mode].
    apply csr_read_write_ne; [done | discriminate]. }
  eexists. split.
  { destruct m; [done | |]; cbv zeta; fold v; rewrite Ht; exact R. }
  split; [apply mode_read_write |]. split; [|done].
  unfold hart_status, hcsr_read, hcsr_write; cbn [csregisters with_csregisters with_mode].
  rewrite status_write by done. fold (hcsr_read h mstatus). fold v. unfold v', status, pop_s.
  cbn [st_SIE st_MIE st_SPIE st_MPIE st_SPP st_MPP st_MPRV st_TSR]. status_fields.
Qed.

(** ** A sample hart for the witnesses *)
Definition zero_hart : HartState :=
  mkHart (mkXRegisters (replicate 31 0)) (mkFRegisters (replicate 32 0))
    (mkCSRegisters (replicate 4096 0)) 0 0.

Lemma zero_hart_wf : hart_wf zero_hart.
Proof.
  split; cbn [zero_hart xregisters fregisters csregisters mode pc].
  - split; cbn [xregs]; [apply length_replicate | apply Forall_replicate; unfold in_u; lia].
  - split; cbn [fregs]; [apply length_replicate | apply Forall_replicate; unfold in_u; lia].
  - split; cbn [csrs]; [apply length_replicate | apply Forall_replicate; unfold in_u; lia].
  - by eexists.
  - unfold in_u. lia.
Qed.

Definition boot_hart : HartState := hart_reset zero_hart 0x80000000.

Lemma boot_hart_inv : hart_inv boot_hart.
Proof. apply hart_reset_inv; [apply zero_hart_wf | unfold in_u; lia]. Qed.

(** The same hart in another mode. *)
Definition boot_hart_in (m : Mode) : HartState := with_mode boot_hart (mode_write (mode boot_hart) m).

Lemma boot_hart_in_inv m : hart_inv (boot_hart_in m).
Proof. apply with_mode_inv, boot_hart_inv. Qed.

Lemma boot_hart_in_mode m : mode_read (mode (boot_hart_in m)) = Some m.
Proof. apply mode_read_write. Qed.

(** ** Traps *)

(** C29: taking an exception that is not for the environment always
    succeeds.  It keeps the general registers and the program counter, enters the
    delegated mode, pushes the mode and the interrupt enable on the status register,
    stores the return address (with its lowest bit cleared), the cause and the trap
    value, and returns the base address of the trap vector. *)
Theorem exception_trap_entry h e rpc m :
  hart_inv h -> exception_valid e -> environ_try_from e = Err tt -> in_u 64 rpc ->
  mode_read (mode h) = Some m ->
  let tm := get_trap_mode (csregisters h) e m in
  let '(xtvec_reg, xepc_reg, xcause_reg, xtval_reg) := trap_registers tm in
  exists h', take_trap h e rpc = Some (exc_handler_address (hcsr_read h xtvec_reg), h')
    /\ hart_inv h'
    /\ xregisters h' = xregisters h /\ fregisters h' = fregisters h /\ pc h' = pc h
    /\ mode_read (mode h') = Some (as_mode tm)
    /\ hart_status h' = push_status tm m (hart_status h)
    /\ hcsr_read h' xepc_reg = Z.land rpc WARL_MASK_XEPC
    /\ hcsr_read h' xcause_reg = exc_code e
    /\ hcsr_read h' xtval_reg = exc_xtval e.
Proof.
  intros Hh He Hn Hr Hm. cbv zeta.
  pose proof (take_trap_total h e rpc m Hh He Hr Hm) as T.
  pose proof (fun a h' => take_trap_spec h e rpc m a h' Hh He Hr Hm) as S. cbv zeta in S.
  pose proof (exception_cause_legal (get_trap_mode (csregisters h) e m) e) as L.
  destruct (trap_registers _) as [[[xtvec xepc] xc] xv]. destruct T as [[a h'] T]; [by eexists |].
  specialize (S a h' T) as (S1 & S2 & S3 & S4 & S5 & S6 & S7 & S8 & S9). injection S9 as <-.
  pose proof (take_trap_inv h e rpc _ h' Hh He Hr T) as [Hi _]. exists h'.
  repeat (split; [done |]). split; [|done]. rewrite S8. by apply L.
Qed.

Lemma exception_trap_entry_witness :
  let h := boot_hart_in User in
  let tm := get_trap_mode (csregisters h) (LoadAccessFault 16) User in
  let '(xtvec_reg, xepc_reg, xcause_reg, xtval_reg) := trap_registers tm in
  exists h', take_trap h (LoadAccessFault 16) 0x80000005
      = Some (exc_handler_address (hcsr_read h xtvec_reg), h')
    /\ hart_inv h'
    /\ xregisters h' = xregisters h /\ fregisters h' = fregisters h /\ pc h' = pc h
    /\ mode_read (mode h') = Some (as_mode tm)
    /\ hart_status h' = push_status tm User (hart_status h)
    /\ hcsr_read h' xepc_reg = Z.land 0x80000005 WARL_MASK_XEPC
    /\ hcsr_read h' xcause_reg = exc_code (LoadAccessFault 16)
    /\ hcsr_read h' xtval_reg = exc_xtval (LoadAccessFault 16).
Proof.
  exact (exception_trap_entry (boot_hart_in User) (LoadAccessFault 16) 0x80000005 User
    (boot_hart_in_inv User) ltac:(unfold exception_valid, in_u; cbn; lia) eq_refl
    ltac:(unfold in_u; lia) (boot_hart_in_mode User)).
Defined.

Lemma boot_breakpoint m :
  exists a h', take_trap (boot_hart_in m) Breakpoint 0x80000004 = Some (a, h').
Proof.
  assert (V : exception_valid Breakpoint) by (unfold exception_valid, in_u; cbn; lia).
  pose proof (take_trap_total (boot_hart_in m) Breakpoint 0x80000004 m (boot_hart_in_inv m) V
    ltac:(unfold in_u; lia) (boot_hart_in_mode m)) as T.
  destruct (trap_registers _) as [[[]]]. destruct T as [[a h'] T]; [by eexists | by exists a, h'].
Qed.

(** C30: after a trap to M-mode, [MRET] returns to the interrupted
    address (with its lowest bit cleared) in the interrupted mode, with the interrupt
    enable it had; the M-mode entry of the privilege stack is then the default one. *)
Theorem mret_after_trap {TC} `{TrapContext TC} {valid : TC -> Prop} `{!TrapContextOk TC valid}
    h (t : TC) rpc m a h' :
  hart_inv h -> valid t -> in_u 64 rpc -> mode_read (mode h) = Some m ->
  get_trap_mode (csregisters h) t m = TMachine -> take_trap h t rpc = Some (a, h') ->
  exists h'', run_mret h' = Ret (Z.land rpc WARL_MASK_XEPC) h''
    /\ mode_read (mode h'') = Some m
    /\ (let s := hart_status h in
        hart_status h'' = mkStatus (st_SIE s) (st_MIE s) (st_SPIE s) true (st_SPP s) MPP_User
          (if bool_decide (m = Machine) then st_MPRV s else false) (st_TSR s))
    /\ xregisters h'' = xregisters h /\ fregisters h'' = fregisters h.
Proof.
  intros Hh Ht Hr Hm Htm E.
  pose proof (take_trap_spec h t rpc m a h' Hh Ht Hr Hm E) as S. cbv zeta in S.
  rewrite Htm in S. cbn [trap_registers] in S. destruct S as (S1 & S2 & S3 & S4 & S5 & S6 & _).
  pose proof (take_trap_inv h t rpc a h' Hh Ht Hr E) as [Hi _].
  destruct (run_mret_spec h' Hi S4) as (h'' & R1 & R2 & R3 & R4 & R5 & _).
  exists h''. rewrite R1, S6. split; [done |].
  rewrite R2, R3, R4, R5, S5, S1, S2. cbv zeta.
  unfold push_status, pop_m; cbn [st_SIE st_MIE st_SPIE st_MPIE st_SPP st_MPP st_MPRV st_TSR].
  by destruct m.
Qed.

Lemma mret_after_trap_witness :
  exists a h' h'', take_trap (boot_hart_in Machine) Breakpoint 0x80000004 = Some (a, h')
    /\ run_mret h' = Ret (Z.land 0x80000004 WARL_MASK_XEPC) h''
    /\ mode_read (mode h'') = Some Machine.
Proof.
  destruct (boot_breakpoint Machine) as (a & h' & E).
  destruct (mret_after_trap (valid := exception_valid) (boot_hart_in Machine) Breakpoint 0x80000004 Machine a h'
    (boot_hart_in_inv Machine) ltac:(unfold exception_valid, in_u; cbn; lia)
    ltac:(unfold in_u; lia) (boot_hart_in_mode Machine) eq_refl E) as (h'' & R & Hm & _).
  exists a, h', h''. split; [exact E | split; [exact R | exact Hm]].
Defined.

(** After a trap delegated to S-mode, [SRET] (when it is not itself
    trapped by [TSR]) returns to the interrupted address in the interrupted mode, with
    the supervisor interrupt enable it had; [MPRV] is cleared. *)
Theorem sret_after_trap {TC} `{TrapContext TC} {valid : TC -> Prop} `{!TrapContextOk TC valid}
    h (t : TC) rpc m a h' :
  hart_inv h -> valid t -> in_u 64 rpc -> mode_read (mode h) = Some m ->
  get_trap_mode (csregisters h) t m = TSupervisor -> st_TSR (hart_status h) = false ->
  take_trap h t rpc = Some (a, h') ->
  exists h'', run_sret h' = Ret (Z.land rpc WARL_MASK_XEPC) h''
    /\ mode_read (mode h'') = Some m
    /\ (let s := hart_status h in
        hart_status h'' = mkStatus (st_SIE s) (st_MIE s) true (st_MPIE s) SPP_User (st_MPP s) false false)
    /\ xregisters h'' = xregisters h /\ fregisters h'' = fregisters h.
Proof.
  intros Hh Ht Hr Hm Htm Htsr E.
  pose proof (take_trap_spec h t rpc m a h' Hh Ht Hr Hm E) as S. cbv zeta in S.
  pose proof (get_trap_mode_ge (csregisters h) t m) as G.
  rewrite Htm in S, G. cbn [trap_registers] in S. destruct S as (S1 & S2 & S3 & S4 & S5 & S6 & _).
  pose proof (take_trap_inv h t rpc a h' Hh Ht Hr E) as [Hi _].
  destruct (run_sret_spec h' Supervisor Hi S4 ltac:(done)) as (h'' & R1 & R2 & R3 & R4 & R5 & _).
  { by rewrite S5. }
  exists h''. rewrite R1, S6. split; [done |].
  rewrite R2, R3, R4, R5, S5, S1, S2. cbv zeta.
  unfold push_status, pop_s; cbn [st_SIE st_MIE st_SPIE st_MPIE st_SPP st_MPP st_MPRV st_TSR].
  rewrite Htsr. by destruct m.
Qed.

(** The reset delegates everything it can to S-mode. *)
Lemma boot_delegates m :
  m <> Machine -> get_trap_mode (csregisters (boot_hart_in m)) Breakpoint m = TSupervisor.
Proof. destruct m; [vm_compute; reflexivity | vm_compute; reflexivity | done]. Qed.

Lemma boot_TSR m : st_TSR (hart_status (boot_hart_in m)) = false.
Proof. destruct m; vm_compute; reflexivity. Qed.

Lemma sret_after_trap_witness :
  exists a h' h'', take_trap (boot_hart_in User) Breakpoint 0x80000004 = Some (a, h')
    /\ run_sret h' = Ret (Z.land 0x80000004 WARL_MASK_XEPC) h''
    /\ mode_read (mode h'') = Some User.
Proof.
  destruct (boot_breakpoint User) as (a & h' & E).
  destruct (sret_after_trap (valid := exception_valid) (boot_hart_in User) Breakpoint 0x80000004 User a h'
    (boot_hart_in_inv User) ltac:(unfold exception_valid, in_u; cbn; lia)
    ltac:(unfold in_u; lia) (boot_hart_in_mode User) (boot_delegates User ltac:(done)) (boot_TSR User) E)
    as (h'' & R & Hm & _).
  exists a, h', h''. split; [exact E | split; [exact R | exact Hm]].
Defined.

(** A trap is taken in a mode at least as privileged as the
    interrupted one, whatever the delegation registers hold. *)
Theorem trap_never_lowers_privilege {TC} `{TrapContext TC} {valid : TC -> Prop} `{!TrapContextOk TC valid}
    h (t : TC) rpc m a h' :
  hart_inv h -> valid t -> in_u 64 rpc -> mode_read (mode h) = Some m ->
  take_trap h t rpc = Some (a, h') ->
  exists m', mode_read (mode h') = Some m' /\ mode_le m m' = true.
Proof.
  intros Hh Ht Hr Hm E. pose proof (take_trap_spec h t rpc m a h' Hh Ht Hr Hm E) as S. cbv zeta in S.
  destruct (trap_registers _) as [[[]]]. destruct S as (_ & _ & _ & S & _).
  eexists. split; [exact S | apply get_trap_mode_ge].
Qed.

Lemma trap_never_lowers_privilege_witness :
  exists a h' m', take_trap (boot_hart_in Supervisor) Breakpoint 0x80000004 = Some (a, h')
    /\ mode_read (mode h') = Some m' /\ mode_le Supervisor m' = true.
Proof.
  destruct (boot_breakpoint Supervisor) as (a & h' & E).
  destruct (trap_never_lowers_privilege (valid := exception_valid) (boot_hart_in Supervisor) Breakpoint
    0x80000004 Supervisor a h' (boot_hart_in_inv Supervisor)
    ltac:(unfold exception_valid, in_u; cbn; lia) ltac:(unfold in_u; lia)
    (boot_hart_in_mode Supervisor) E) as (m' & Hm & Hle).
  exists a, h', m'. split; [exact E | split; [exact Hm | exact Hle]].
Defined.

(** A machine interrupt that [mideleg] delegates to S-mode is
    taken without recording its cause: [scause] keeps the cause of an earlier trap. *)
Theorem delegated_machine_interrupt_keeps_scause h i rpc m a h' :
  hart_inv h -> in_u 64 rpc -> mode_read (mode h) = Some m ->
  is_machine_interrupt i = true -> get_trap_mode (csregisters h) i m = TSupervisor ->
  take_trap h i rpc = Some (a, h') -> hcsr_read h' scause = hcsr_read h scause.
Proof.
  intros Hh Hr Hm Hi Htm E. pose proof (take_trap_spec h i rpc m a h' Hh I Hr Hm E) as S. cbv zeta in S.
  rewrite Htm in S. cbn [trap_registers] in S. destruct S as (_ & _ & _ & _ & _ & _ & _ & S & _).
  rewrite S. pose proof (interrupt_cause_legal TSupervisor i (hcsr_read h scause)) as L.
  cbn [trap_registers fst snd] in L. by rewrite L, Hi.
Qed.

Lemma delegated_machine_interrupt_keeps_scause_witness :
  exists a h', take_trap (boot_hart_in Supervisor) MachineTimer 0x80000004 = Some (a, h')
    /\ hcsr_read h' scause = hcsr_read (boot_hart_in Supervisor) scause.
Proof.
  destruct (take_trap (boot_hart_in Supervisor) MachineTimer 0x80000004) as [[a h']|] eqn:E.
  - exists a, h'. split; [reflexivity |].
    apply (delegated_machine_interrupt_keeps_scause (boot_hart_in Supervisor) MachineTimer 0x80000004
      Supervisor a h' (boot_hart_in_inv Supervisor) ltac:(unfold in_u; lia)
      (boot_hart_in_mode Supervisor) eq_refl); [vm_compute; reflexivity | exact E].
  - exfalso. vm_compute in E. discriminate E.
Defined.

End TrapSpec.
Export TrapSpec.

(** The control registers as the rest of the machine sees them: reads after writes,
    the legality of the stored values, and the checked accesses of the Zicsr
    instructions. *)
Module CsrSpec.

(** [replace] is a read followed by a write. *)
Lemma csr_replace_read_write c r v : csr_replace_value c r v = (csr_read c r, csr_write c r v).
Proof.
  unfold csr_replace_value, csr_write. destruct (make_value_writable r v) as [v'|]; [|done].
  destruct r; reflexivity.
Qed.

(** Whether an access from mode [m] is refused. *)
Definition refused (csr : CSRegister) (m : Mode) (writes : bool) : bool :=
  match csr_privilege csr with
  | Some p => privilege_lt (mode_privilege m) p || (writes && is_read_only csr)
  | None => true
  end.

(** The outcome of a checked access that replaces the register by [f old]. *)
Definition access (csr : CSRegister) (m : Mode) (rd : XRegister) (update : option (Z -> Z)) (h : HartState) :
    outcome HartState Exception unit :=
  if refused csr m (match update with Some _ => true | None => false end) then Throw IllegalInstruction h
  else
    let old := hcsr_read h csr in
    let h := match update with Some f => hcsr_write h csr (f old) | None => h end in
    Ret tt (xset h rd old).

Lemma xset_zero h v : xset h x0 v = h.
Proof. by destruct h. Qed.

Lemma csr_replace_access csr v rd h m :
  mode_read (mode h) = Some m -> csr_replace csr v rd h = access csr m rd (Some (fun _ => v)) h.
Proof.
  intros Hm. unfold csr_replace, access, refused, comp_bind, comp_get, comp_lift, lift_option_result,
    check_privilege, check_write. rewrite Hm.
  destruct (csr_privilege_total csr) as [p ->]. unfold comp_bind, comp_lift.
  destruct (privilege_lt _ _); [done |]. cbn [orb andb lift_result comp_ret].
  destruct (is_read_only csr); [done |]. cbn [lift_result comp_ret].
  destruct (is_zero rd) eqn:Z.
  - apply is_zero_true in Z as ->. by rewrite xset_zero.
  - by rewrite csr_replace_read_write.
Qed.

(** The read-modify-write instructions, over the operation they apply. *)
Lemma csr_modify_access (op : CSRegisters -> CSRegister -> Z -> Z * CSRegisters) (f : Z -> Z -> Z) csr
    (skip : bool) (value : HartState -> Z) rd h m :
  (forall c v, op c csr v = (csr_read c csr, csr_write c csr (f (csr_read c csr) v))) ->
  mode_read (mode h) = Some m ->
  (let! self := comp_get in
   let! m := comp_lift (mode_read (mode self)) in
   lift_option_result (check_privilege csr m) ;;;
   if skip then comp_put (xset self rd (hcsr_read self csr))
   else lift_result (check_write csr) ;;;
        let '(old, c) := op (csregisters self) csr (value self) in
        comp_put (xset (with_csregisters self c) rd old)) h
  = access csr m rd (if skip then None else Some (fun old => f old (value h))) h.
Proof.
  intros Hop Hm. unfold access, refused, comp_bind, comp_get, comp_lift, lift_option_result,
    check_privilege, check_write. rewrite Hm.
  destruct (csr_privilege_total csr) as [p ->]. unfold comp_bind, comp_lift.
  destruct (privilege_lt _ _); [done |]. cbn [orb lift_result comp_ret].
  destruct skip; [done |]. cbn [andb]. destruct (is_read_only csr); [done |].
  cbn [lift_result comp_ret]. by rewrite Hop.
Qed.

(** The six control register instructions are one checked
    access each.  An access is refused, as an illegal instruction and with the hart
    untouched, when the mode lacks the privilege of the register or when it would write
    a read-only one; otherwise [rd] gets the old value and the register the new one:
    the operand, or the old value with the bits of the operand set or cleared.  Setting
    and clearing with [x0] or a zero immediate only read. *)
Theorem csr_instructions_access h m csr rs1 imm rd :
  mode_read (mode h) = Some m ->
  let v := xget h rs1 in
  let i := Z.land imm 0x1F in
  let reads (b : bool) (f : Z -> Z) := if b then None else Some f in
  run_csrrw csr rs1 rd h = access csr m rd (Some (fun _ => v)) h
  /\ run_csrrs csr rs1 rd h = access csr m rd (reads (is_zero rs1) (fun old => Z.lor old v)) h
  /\ run_csrrc csr rs1 rd h = access csr m rd (reads (is_zero rs1) (fun old => Z.land old (unot 64 v))) h
  /\ run_csrrwi csr imm rd h = access csr m rd (Some (fun _ => i)) h
  /\ run_csrrsi csr imm rd h = access csr m rd (reads (i =? 0) (fun old => Z.lor old i)) h
  /\ run_csrrci csr imm rd h = access csr m rd (reads (i =? 0) (fun old => Z.land old (unot 64 i))) h.
Proof.
  intros Hm. cbv zeta. split_and!.
  - by apply csr_replace_access.
  - by apply (csr_modify_access csr_set_bits Z.lor csr (is_zero rs1) (fun h => xget h rs1)).
  - by apply (csr_modify_access csr_clear_bits (fun o v => Z.land o (unot 64 v)) csr (is_zero rs1)
      (fun h => xget h rs1)).
  - by apply csr_replace_access.
  - by apply (csr_modify_access csr_set_bits Z.lor csr _ (fun _ => Z.land imm 0x1F)).
  - by apply (csr_modify_access csr_clear_bits (fun o v => Z.land o (unot 64 v)) csr _
      (fun _ => Z.land imm 0x1F)).
Qed.

Lemma csr_instructions_access_witness :
  run_csrrw mscratch x5 x6 (boot_hart_in User) = Throw IllegalInstruction (boot_hart_in User).
Proof.
  exact (proj1 (csr_instructions_access (boot_hart_in User) User mscratch x5 0 x6
    (boot_hart_in_mode User))).
Defined.

(** A value that passed the filter of a register passes it
    unchanged a second time, so that writing back what was read is harmless. *)
Theorem csr_filter_idempotent r v v' :
  in_u 64 v -> make_value_writable r v = Some v' ->
  in_u 64 v' /\ make_value_writable r v' = Some v'.
Proof. intros Hv E. exact (make_value_writable_idem r v v' Hv E). Qed.

Lemma csr_filter_idempotent_witness :
  make_value_writable mtvec 0x80000007 = Some 0x80000005
  /\ in_u 64 0x80000005 /\ make_value_writable mtvec 0x80000005 = Some 0x80000005.
Proof.
  split; [vm_compute; reflexivity |].
  apply (csr_filter_idempotent mtvec 0x80000007); [unfold in_u; lia | vm_compute; reflexivity].
Defined.

(** A reset leaves in every control register a value its
    field rules allow, and every write keeps it so. *)
Theorem csr_reset_and_writes_legal c ws :
  csrs_wf c -> Forall (fun w => in_u 64 w.2) ws ->
  csr_inv (fold_left (fun c w => csr_write c w.1 w.2) ws (csr_reset c)).
Proof.
  intros Hc Hw. assert (Hi : csr_inv (csr_reset c)) by by apply csr_reset_inv.
  revert Hi. generalize (csr_reset c). induction Hw as [|w ws H _ IH]; intros c' Hc'; cbn [fold_left].
  - done.
  - by apply IH, csr_write_inv.
Qed.

Lemma csr_reset_and_writes_legal_witness :
  csr_inv (fold_left (fun c w => csr_write c w.1 w.2) [(mstatus, 2 ^ 64 - 1); (sstatus, 0); (misa, 7)]
    (csr_reset (csregisters zero_hart))).
Proof.
  apply (csr_reset_and_writes_legal (csregisters zero_hart)).
  - apply (wf_csr _ zero_hart_wf).
  - repeat (constructor; [unfold in_u; cbn; lia |]). constructor.
Defined.

(** A register reads back as the value its filter let
    through, or as before when the filter refused it; a register with another ground
    truth reads as before; writing [sstatus] keeps the machine-only fields of
    [mstatus]. *)
Theorem csr_read_after_write c r r' v :
  csrs_wf c -> in_u 64 v ->
  csr_read (csr_write c r v) r = default (csr_read c r) (make_value_writable r v)
  /\ (source_register r <> source_register r' -> csr_read (csr_write c r v) r' = csr_read c r')
  /\ Z.land (csr_read (csr_write c sstatus v) mstatus) (unot 64 SSTATUS_FIELDS_MASK)
     = Z.land (csr_read c mstatus) (unot 64 SSTATUS_FIELDS_MASK).
Proof.
  intros Hc Hv. split; [by apply csr_read_write_eq |].
  split; [by apply csr_read_write_ne | by apply sstatus_write_frame].
Qed.

Lemma csr_read_after_write_witness :
  let c := csregisters zero_hart in
  csr_read (csr_write c mepc 0x80000003) mepc = 0x80000002
  /\ csr_read (csr_write c mepc 0x80000003) sepc = csr_read c sepc.
Proof.
  pose proof (csr_read_after_write (csregisters zero_hart) mepc sepc 0x80000003
    (wf_csr _ zero_hart_wf) ltac:(unfold in_u; lia)) as (E & F & _).
  cbv zeta. split; [rewrite E; vm_compute; reflexivity | apply F; discriminate].
Defined.

End CsrSpec.
Export CsrSpec.
