(* ===== verification/Isa.v ===== *)
(** The arithmetic of the RISC-V manual on signed 64-bit values, as a reference for
    the register instructions of [RvI] and [RvM]: every instruction writes the
    two's complement encoding of the reference result. *)

From S2P Require Import Prelude Registers Instruction CSRFields Parser RvI RvM.

Module Isa.

Inductive AluOp : Type :=
| ADD | SUB | XOR | OR | AND | SLL | SRL | SRA | SLT | SLTU
| ADDW | SUBW | SLLW | SRLW | SRAW | REM | REMU | REMW | REMUW.

(** The result of an operation on the signed values of its operands: the [W]
    operations work on the low 32 bits and sign-extend, the shifts use the low six
    (or five) bits of the second operand, a remainder by zero is the dividend. *)
Definition isa_alu (op : AluOp) (a b : Z) : Z :=
  match op with
  | ADD => sint 64 (a + b)
  | SUB => sint 64 (a - b)
  | XOR => Z.lxor a b
  | OR => Z.lor a b
  | AND => Z.land a b
  | SLL => sint 64 (a * 2 ^ (b mod 64))
  | SRL => sint 64 ((a mod 2 ^ 64) / 2 ^ (b mod 64))
  | SRA => a / 2 ^ (b mod 64)
  | SLT => Z.b2z (a <? b)
  | SLTU => Z.b2z (a mod 2 ^ 64 <? b mod 2 ^ 64)
  | ADDW => sint 32 (a + b)
  | SUBW => sint 32 (a - b)
  | SLLW => sint 32 (a * 2 ^ (b mod 32))
  | SRLW => sint 32 ((a mod 2 ^ 32) / 2 ^ (b mod 32))
  | SRAW => sint 32 a / 2 ^ (b mod 32)
  | REM => if b =? 0 then a else Z.rem a b
  | REMU => if b =? 0 then a else sint 64 ((a mod 2 ^ 64) mod (b mod 2 ^ 64))
  | REMW => let a := sint 32 a in let b := sint 32 b in if b =? 0 then a else Z.rem a b
  | REMUW =>
      sint 32 (if b mod 2 ^ 32 =? 0 then a else (a mod 2 ^ 32) mod (b mod 2 ^ 32))
  end.

(** The operation of a register instruction, and of an immediate one. *)
Definition r_op (i : Instr) : option (AluOp * RTypeArgs) :=
  match i with
  | Add a => Some (ADD, a) | Sub a => Some (SUB, a) | Xor a => Some (XOR, a)
  | Or a => Some (OR, a) | And a => Some (AND, a) | Sll a => Some (SLL, a)
  | Srl a => Some (SRL, a) | Sra a => Some (SRA, a) | Slt a => Some (SLT, a)
  | Sltu a => Some (SLTU, a) | Addw a => Some (ADDW, a) | Subw a => Some (SUBW, a)
  | Sllw a => Some (SLLW, a) | Srlw a => Some (SRLW, a) | Sraw a => Some (SRAW, a)
  | Rem a => Some (REM, a) | Remu a => Some (REMU, a) | Remw a => Some (REMW, a)
  | Remuw a => Some (REMUW, a)
  | _ => None
  end.

Definition i_op (i : Instr) : option (AluOp * ITypeArgs) :=
  match i with
  | Addi a => Some (ADD, a) | Addiw a => Some (ADDW, a) | Xori a => Some (XOR, a)
  | Ori a => Some (OR, a) | Andi a => Some (AND, a) | Slli a => Some (SLL, a)
  | Srli a => Some (SRL, a) | Srai a => Some (SRA, a) | Slliw a => Some (SLLW, a)
  | Srliw a => Some (SRLW, a) | Sraiw a => Some (SRAW, a) | Slti a => Some (SLT, a)
  | Sltiu a => Some (SLTU, a)
  | _ => None
  end.

(** ** The casts, arithmetically *)

Lemma wrap_sint64 x : wrap 64 (sint 64 x) = wrap 64 x.
Proof. by apply sint_mod. Qed.

(** A 32-bit residue only depends on the 64-bit one. *)
Lemma wrap_wrap_le n m x : 0 <= n <= m -> wrap n (wrap m x) = wrap n x.
Proof. intros. bitblast. Qed.

Lemma sint_eq w x y : wrap w x = wrap w y -> sint w x = sint w y.
Proof. unfold sint. by intros ->. Qed.

Lemma sint32_wrap64 x : sint 32 (wrap 64 x) = sint 32 x.
Proof. apply sint_eq. by apply wrap_wrap_le. Qed.

Lemma sint32_sint64 x : sint 32 (sint 64 x) = sint 32 x.
Proof. rewrite <- sint32_wrap64, wrap_sint64. apply sint32_wrap64. Qed.

Lemma wrap_add a b w : wrap w (wrap w a + wrap w b) = wrap w (a + b).
Proof. by rewrite wrap_add_l, wrap_add_r. Qed.

Lemma wrap_mul_l w a b : wrap w (wrap w a * b) = wrap w (a * b).
Proof. apply Zmult_mod_idemp_l. Qed.

Lemma sint_add64 a b : wrap 64 (sint 64 a + sint 64 b) = wrap 64 (a + b).
Proof. rewrite <- wrap_add. by rewrite !wrap_sint64, wrap_add. Qed.

Lemma sint_sub64 a b : wrap 64 (sint 64 a - sint 64 b) = wrap 64 (a - b).
Proof.
  unfold wrap. rewrite Zminus_mod. fold (wrap 64 (sint 64 a)) (wrap 64 (sint 64 b)).
  rewrite !wrap_sint64. unfold wrap. by rewrite <- Zminus_mod.
Qed.

Lemma land_63 x : Z.land x 0x3F = x mod 64.
Proof. change 0x3F with (Z.ones 6). by rewrite Z.land_ones. Qed.

Lemma land_31 x : Z.land x 0x1F = x mod 32.
Proof. change 0x1F with (Z.ones 5). by rewrite Z.land_ones. Qed.

(** The low bits do not depend on the signedness. *)
Lemma sint64_mod_pow2 n x : 0 <= n <= 64 -> sint 64 x mod 2 ^ n = x mod 2 ^ n.
Proof.
  intros. change (wrap n (sint 64 x) = wrap n x).
  by rewrite <- (wrap_wrap_le n 64), wrap_sint64, wrap_wrap_le.
Qed.

Lemma sint64_mod64 x : sint 64 x mod 64 = x mod 64.
Proof. exact (sint64_mod_pow2 6 x ltac:(lia)). Qed.

Lemma sint64_mod32 x : sint 64 x mod 32 = x mod 32.
Proof. exact (sint64_mod_pow2 5 x ltac:(lia)). Qed.

Lemma sint_zero_iff w x : 0 < w -> in_u w x -> (sint w x =? 0) = (x =? 0).
Proof.
  intros Hw Hx. pose proof (sint_mod w x Hw) as E. rewrite (wrap_small w x Hx) in E.
  destruct (Z.eqb_spec (sint w x) 0) as [E0 | E0], (Z.eqb_spec x 0) as [F0 | F0]; try done.
  - rewrite E0 in E. unfold wrap in E. rewrite Z.mod_0_l in E; [congruence |].
    pose proof (pow2_pos w ltac:(lia)). lia.
  - destruct E0. subst x. apply sint_small; [done |]. unfold in_s.
    pose proof (pow2_pos (w - 1) ltac:(lia)). lia.
Qed.

Create Rewrite HintDb isa_casts.
#[export] Hint Rewrite wrap_sint64 sint32_wrap64 sint32_sint64 sint_add64 sint_sub64 sint64_mod64
  sint64_mod32 land_63 land_31 sint_wrap : isa_casts.

(** ** The operations on encoded values *)
Section Values.
Context (a b : Z) (Ha : in_u 64 a) (Hb : in_u 64 b).
Abbreviation sa := (sint 64 a).
Abbreviation sb := (sint 64 b).

Lemma add_value : wrap 64 (a + b) = wrap 64 (isa_alu ADD sa sb).
Proof using All. cbn. by autorewrite with isa_casts. Qed.

Lemma sub_value : wrap 64 (a - b) = wrap 64 (isa_alu SUB sa sb).
Proof using All. cbn. by autorewrite with isa_casts. Qed.

Lemma xor_value : Z.lxor a b = wrap 64 (isa_alu XOR sa sb).
Proof using All. cbn [isa_alu]. bitblast. Qed.

Lemma or_value : Z.lor a b = wrap 64 (isa_alu OR sa sb).
Proof using All. cbn [isa_alu]. bitblast. Qed.

Lemma and_value : Z.land a b = wrap 64 (isa_alu AND sa sb).
Proof using All. cbn [isa_alu]. bitblast. Qed.

Lemma sll_value : ushl 64 a (b mod 64) = wrap 64 (isa_alu SLL sa sb).
Proof using All.
  pose proof (Z.mod_pos_bound b 64). cbn [isa_alu]. autorewrite with isa_casts.
  unfold ushl. rewrite Z.shiftl_mul_pow2 by lia. rewrite <- wrap_mul_l.
  by rewrite <- (wrap_mul_l 64 (sint 64 a)), wrap_sint64.
Qed.

Lemma srl_value : Z.shiftr a (b mod 64) = wrap 64 (isa_alu SRL sa sb).
Proof using All.
  pose proof (Z.mod_pos_bound b 64). cbn [isa_alu]. autorewrite with isa_casts.
  rewrite sint64_mod_pow2 by lia. rewrite <- Z.shiftr_div_pow2 by lia.
  change (a mod 2 ^ 64) with (wrap 64 a). rewrite (wrap_small 64 a Ha).
  symmetry. apply wrap_small. apply shiftr_range; (done || lia).
Qed.

Lemma sra_value : wrap 64 (Z.shiftr sa (b mod 64)) = wrap 64 (isa_alu SRA sa sb).
Proof using All.
  pose proof (Z.mod_pos_bound b 64). cbn [isa_alu]. autorewrite with isa_casts.
  by rewrite <- Z.shiftr_div_pow2 by lia.
Qed.

Lemma slt_value : (if sa <? sb then 1 else 0) = wrap 64 (isa_alu SLT sa sb).
Proof using All. cbn. by destruct (_ <? _). Qed.

Lemma sltu_value : (if a <? b then 1 else 0) = wrap 64 (isa_alu SLTU sa sb).
Proof using All.
  cbn [isa_alu]. rewrite !sint64_mod_pow2 by lia.
  change (a mod 2 ^ 64) with (wrap 64 a). change (b mod 2 ^ 64) with (wrap 64 b).
  rewrite (wrap_small 64 a Ha), (wrap_small 64 b Hb). by destruct (_ <? _).
Qed.

Lemma addw_value : wrap 64 (sint 32 (wrap 64 (a + b))) = wrap 64 (isa_alu ADDW sa sb).
Proof using All.
  cbn [isa_alu]. rewrite <- (sint32_wrap64 (sa + sb)). by autorewrite with isa_casts.
Qed.

Lemma subw_value : wrap 64 (sint 32 (wrap 64 (a - b))) = wrap 64 (isa_alu SUBW sa sb).
Proof using All.
  cbn [isa_alu]. rewrite <- (sint32_wrap64 (sa - sb)). by autorewrite with isa_casts.
Qed.

Lemma sllw_value : wrap 64 (sint 32 (ushl 64 a (b mod 32))) = wrap 64 (isa_alu SLLW sa sb).
Proof using All.
  pose proof (Z.mod_pos_bound b 32). cbn [isa_alu]. autorewrite with isa_casts.
  unfold ushl. rewrite sint32_wrap64, Z.shiftl_mul_pow2 by lia. f_equal. apply sint_eq.
  rewrite <- (wrap_wrap_le 32 64 (sa * _)) by lia. rewrite <- (wrap_mul_l 64 sa), wrap_sint64.
  by rewrite wrap_mul_l, wrap_wrap_le by lia.
Qed.

Lemma srlw_value :
  wrap 64 (sint 32 (Z.shiftr (wrap 32 a) (b mod 32))) = wrap 64 (isa_alu SRLW sa sb).
Proof using All.
  pose proof (Z.mod_pos_bound b 32). cbn [isa_alu]. autorewrite with isa_casts.
  rewrite sint64_mod_pow2 by lia. by rewrite Z.shiftr_div_pow2 by lia.
Qed.

Lemma sraw_value : wrap 64 (Z.shiftr (sint 32 a) (b mod 32)) = wrap 64 (isa_alu SRAW sa sb).
Proof using All.
  pose proof (Z.mod_pos_bound b 32). cbn [isa_alu]. autorewrite with isa_casts.
  by rewrite <- Z.shiftr_div_pow2 by lia.
Qed.

(** The overflowing remainder is zero without a case of its own. *)
Lemma rem_overflow x : Z.rem x (-1) = 0.
Proof using Type. change (-1) with (- (1)). rewrite Z.rem_opp_r by lia. apply Z.rem_1_r. Qed.

Lemma rem_value :
  wrap 64 (if sb =? 0 then sa else if (sb =? -1) && (sa =? - 2 ^ 63) then 0 else Z.rem sa sb)
  = wrap 64 (isa_alu REM sa sb).
Proof using All.
  cbn [isa_alu]. destruct (sb =? 0); [done |]. case_match eqn:E; [|done].
  apply andb_true_iff in E as [E%Z.eqb_eq _]. by rewrite E, rem_overflow.
Qed.

Lemma remu_value : (if b =? 0 then a else Z.rem a b) = wrap 64 (isa_alu REMU sa sb).
Proof using All.
  cbn [isa_alu]. rewrite sint_zero_iff by (done || lia).
  destruct (Z.eqb_spec b 0) as [|Hn].
  - rewrite wrap_sint64. symmetry. by apply wrap_small.
  - rewrite wrap_sint64, !sint64_mod_pow2 by lia.
    change (a mod 2 ^ 64) with (wrap 64 a). change (b mod 2 ^ 64) with (wrap 64 b).
    rewrite (wrap_small 64 a Ha), (wrap_small 64 b Hb). unfold in_u in *.
    rewrite Z.rem_mod_nonneg by lia. symmetry. apply wrap_small.
    pose proof (Z.mod_pos_bound a b). unfold in_u. lia.
Qed.

Lemma remw_value :
  wrap 64 (if sint 32 b =? 0 then sint 32 a
           else if (sint 32 b =? -1) && (sint 32 a =? - 2 ^ 31) then 0
           else Z.rem (sint 32 a) (sint 32 b))
  = wrap 64 (isa_alu REMW sa sb).
Proof using All.
  cbn [isa_alu]. cbv zeta. rewrite !sint32_sint64. destruct (sint 32 b =? 0); [done |].
  case_match eqn:E; [|done].
  apply andb_true_iff in E as [E%Z.eqb_eq _]. by rewrite E, rem_overflow.
Qed.

Lemma remuw_value :
  wrap 64 (sint 32 (if wrap 32 b =? 0 then wrap 32 a else Z.rem (wrap 32 a) (wrap 32 b)))
  = wrap 64 (isa_alu REMUW sa sb).
Proof using All.
  cbn [isa_alu]. rewrite !sint64_mod_pow2 by lia. change (a mod 2 ^ 32) with (wrap 32 a).
  change (b mod 2 ^ 32) with (wrap 32 b). destruct (Z.eqb_spec (wrap 32 b) 0).
  - by rewrite sint_wrap, sint32_sint64.
  - pose proof (wrap_range 32 a ltac:(lia)). pose proof (wrap_range 32 b ltac:(lia)).
    unfold in_u in *. by rewrite Z.rem_mod_nonneg by lia.
Qed.

Lemma isa_alu_range op : in_u 64 (wrap 64 (isa_alu op sa sb)).
Proof using Type. apply wrap_range. lia. Qed.
End Values.

(** Immediates are their own signed value. *)
Lemma sint64_imm imm : in_s 12 imm -> sint 64 (wrap 64 imm) = imm.
Proof. intros H. rewrite sint_wrap. apply sint_small; [lia |]. unfold in_s in *. lia. Qed.

End Isa.
Export Isa.
