(* ===== verification/Machine.v ===== *)
(** The machine ([src/src/risc_v/interpreter/src/machine_state.rs], with the loads and
    stores of [interpreter/rv64i.rs] and the no-ops of [rv32i.rs], [rv64priv.rs] and
    [rv64zifencei.rs]): fetching, running one instruction, taking interrupts and
    exceptions, single and multiple steps. *)

From S2P Require Import Prelude Region Registers Mode Traps CSRFields CSRegisters Instruction Parser HartState Bus RvI RvM RvSystem.

Module Machine.

Record MachineState : Type := mkMachine { hart : HartState; bus : Bus }.

(** How to modify the program counter. *)
Inductive ProgramCounterUpdate : Type :=
| Set_ (address : Z)
| Add_ (width : Z).

Record StepManyResult : Type := mkStepManyResult {
  smr_steps : nat;
  smr_exception : option EnvironException
}.

Definition with_hart (m : MachineState) (h : HartState) : MachineState := mkMachine h (bus m).

(** Running an operation of the hart on the machine. *)
Definition on_hart {E A} (c : comp HartState E A) : comp MachineState E A :=
  fun m => match c (hart m) with
           | Ret a h => Ret a (with_hart m h)
           | Throw e h => Throw e (with_hart m h)
           | Panic => Panic
           end.

Definition on_xregisters (f : XRegisters -> option XRegisters) : comp MachineState Exception unit :=
  fun m => match f (xregisters (hart m)) with
           | Some x => Ret tt (with_hart m (with_xregisters (hart m) x))
           | None => Panic
           end.

Section Machine.
Context `{Host} `{ML : MainMemoryLayout}.

(** [MachineState::reset]. *)
Definition machine_reset (m : MachineState) : option MachineState :=
  let h := hart_reset (hart m) start_of_main_memory in
  let? b := bus_reset (bus m) in
  Some (mkMachine h b).

(** ** Loads and stores *)

(** [read_from_bus::<T>] for a [size]-byte [T], as an unsigned value. *)
Definition read_from_bus (size : nat) (imm : Z) (rs1 : XRegister) : comp MachineState Exception Z :=
  fun m =>
    let address := wrap 64 (xget (hart m) rs1 + wrap 64 imm) in
    match bus_read (bus m) size address with
    | Some (Ok v) => Ret v m
    | Some (Err _) => Throw (LoadAccessFault address) m
    | None => Panic
    end.

Definition write_register (rd : XRegister) (v : Z) : comp MachineState Exception unit :=
  fun m => Ret tt (with_hart m (xset (hart m) rd v)).

Definition run_ld (imm : Z) (rs1 rd : XRegister) : comp MachineState Exception unit :=
  let! value := read_from_bus 8 imm rs1 in
  write_register rd (wrap 64 (sint 64 value)).

Definition run_lw (imm : Z) (rs1 rd : XRegister) : comp MachineState Exception unit :=
  let! value := read_from_bus 4 imm rs1 in
  write_register rd (wrap 64 (sint 32 value)).

Definition run_lh (imm : Z) (rs1 rd : XRegister) : comp MachineState Exception unit :=
  let! value := read_from_bus 2 imm rs1 in
  write_register rd (wrap 64 (sint 16 value)).

Definition run_lb (imm : Z) (rs1 rd : XRegister) : comp MachineState Exception unit :=
  let! value := read_from_bus 1 imm rs1 in
  write_register rd (wrap 64 (sint 8 value)).

Definition run_lwu (imm : Z) (rs1 rd : XRegister) : comp MachineState Exception unit :=
  let! value := read_from_bus 4 imm rs1 in
  write_register rd value.

Definition run_lhu (imm : Z) (rs1 rs2 : XRegister) : comp MachineState Exception unit :=
  let! value := read_from_bus 2 imm rs1 in
  write_register rs2 value.

Definition run_lbu (imm : Z) (rs1 rs2 : XRegister) : comp MachineState Exception unit :=
  let! value := read_from_bus 1 imm rs1 in
  write_register rs2 value.

Definition write_to_bus (size : nat) (imm : Z) (rs1 : XRegister) (value : Z) :
    comp MachineState Exception unit :=
  fun m =>
    let address := wrap 64 (xget (hart m) rs1 + wrap 64 imm) in
    match bus_write size address value (bus m) with
    | Ret _ b => Ret tt (mkMachine (hart m) b)
    | Throw _ b => Throw (StoreAccessFault address) (mkMachine (hart m) b)
    | Panic => Panic
    end.

Definition run_sd (imm : Z) (rs1 rs2 : XRegister) : comp MachineState Exception unit :=
  let! m := comp_get in write_to_bus 8 imm rs1 (xget (hart m) rs2).

Definition run_sw (imm : Z) (rs1 rs2 : XRegister) : comp MachineState Exception unit :=
  let! m := comp_get in write_to_bus 4 imm rs1 (wrap 32 (xget (hart m) rs2)).

Definition run_sh (imm : Z) (rs1 rs2 : XRegister) : comp MachineState Exception unit :=
  let! m := comp_get in write_to_bus 2 imm rs1 (wrap 16 (xget (hart m) rs2)).

Definition run_sb (imm : Z) (rs1 rs2 : XRegister) : comp MachineState Exception unit :=
  let! m := comp_get in write_to_bus 1 imm rs1 (wrap 8 (xget (hart m) rs2)).

(** The no-ops of a single hart without an instruction cache. *)
Definition run_fence (pred succ : FenceSet) : comp MachineState Exception unit := comp_ret tt.

Definition run_fencei : comp MachineState Exception unit := comp_ret tt.

Definition run_wfi : comp MachineState Exception unit := comp_ret tt.

(** ** Fetch *)
Definition fetch_instr (m : MachineState) (pc : Z) : option (result Instr Exception) :=
  let? half_instr := bus_read (bus m) 2 pc in
  match half_instr with
  | Err _ => Some (Err (InstructionAccessFault pc))
  | Ok half_instr =>
      (* the closure, run only for an uncompressed instruction *)
      let? more :=
        (if Z.land half_instr 3 =? 3 then
           let? pc2 := checked_add 64 pc 2 in bus_read (bus m) 2 pc2
         else Some (Err outOfBounds)) in
      let? i := parse half_instr more in
      match i with
      | Ok i => Some (Ok i)
      | Err _ => Some (Err (InstructionAccessFault pc))
      end
  end.

(** ** The [run_*_instr!] macros *)
Definition run_r_type_instr (instr : Instr) (args : RTypeArgs)
    (run_fn : XRegisters -> XRegister -> XRegister -> XRegister -> option XRegisters) :
    comp MachineState Exception ProgramCounterUpdate :=
  on_xregisters (fun x => run_fn x (r_rs1 args) (r_rs2 args) (r_rd args)) ;;;
  comp_ret (Add_ (width instr)).

Definition run_i_type_instr (instr : Instr) (args : ITypeArgs)
    (run_fn : XRegisters -> Z -> XRegister -> XRegister -> option XRegisters) :
    comp MachineState Exception ProgramCounterUpdate :=
  on_xregisters (fun x => run_fn x (i_imm args) (i_rs1 args) (i_rd args)) ;;;
  comp_ret (Add_ (width instr)).

Definition run_b_type_instr (args : SBTypeArgs)
    (run_fn : HartState -> Z -> XRegister -> XRegister -> Z) :
    comp MachineState Exception ProgramCounterUpdate :=
  let! m := comp_get in
  comp_ret (Set_ (run_fn (hart m) (sb_imm args) (sb_rs1 args) (sb_rs2 args))).

Definition run_load_instr (instr : Instr) (args : ITypeArgs)
    (run_fn : Z -> XRegister -> XRegister -> comp MachineState Exception unit) :
    comp MachineState Exception ProgramCounterUpdate :=
  run_fn (i_imm args) (i_rs1 args) (i_rd args) ;;; comp_ret (Add_ (width instr)).

Definition run_store_instr (instr : Instr) (args : SBTypeArgs)
    (run_fn : Z -> XRegister -> XRegister -> comp MachineState Exception unit) :
    comp MachineState Exception ProgramCounterUpdate :=
  run_fn (sb_imm args) (sb_rs1 args) (sb_rs2 args) ;;; comp_ret (Add_ (width instr)).

Definition run_csr_instr (instr : Instr) (args : CsrArgs)
    (run_fn : CSRegister -> XRegister -> XRegister -> comp HartState Exception unit) :
    comp MachineState Exception ProgramCounterUpdate :=
  on_hart (run_fn (csr_csr args) (csr_rs1 args) (csr_rd args)) ;;; comp_ret (Add_ (width instr)).

Definition run_csr_imm_instr (instr : Instr) (args : CsriArgs)
    (run_fn : CSRegister -> Z -> XRegister -> comp HartState Exception unit) :
    comp MachineState Exception ProgramCounterUpdate :=
  on_hart (run_fn (csri_csr args) (wrap 64 (csri_imm args)) (csri_rd args)) ;;;
  comp_ret (Add_ (width instr)).

Definition run_xret_instr (run_fn : comp HartState Exception Z) :
    comp MachineState Exception ProgramCounterUpdate :=
  let! a := on_hart run_fn in comp_ret (Set_ a).

(** Functions that cannot panic, among those that can. *)
Definition ok3 {S A B C D} (f : S -> A -> B -> C -> D) : S -> A -> B -> C -> option D :=
  fun s a b c => Some (f s a b c).

(** ** Running one instruction *)
Definition run_instr (instr : Instr) : comp MachineState Exception ProgramCounterUpdate :=
  match instr with
  (* RV64I R-type instructions *)
  | Add args => run_r_type_instr instr args (ok3 run_add)
  | Sub args => run_r_type_instr instr args (ok3 run_sub)
  | Xor args => run_r_type_instr instr args (ok3 run_xor)
  | Or args => run_r_type_instr instr args (ok3 run_or)
  | And args => run_r_type_instr instr args (ok3 run_and)
  | Sll args => run_r_type_instr instr args run_sll
  | Srl args => run_r_type_instr instr args run_srl
  | Sra args => run_r_type_instr instr args run_sra
  | Slt args => run_r_type_instr instr args (ok3 run_slt)
  | Sltu args => run_r_type_instr instr args (ok3 run_sltu)
  | Addw args => run_r_type_instr instr args (ok3 run_addw)
  | Subw args => run_r_type_instr instr args (ok3 run_subw)
  | Sllw args => run_r_type_instr instr args run_sllw
  | Srlw args => run_r_type_instr instr args run_srlw
  | Sraw args => run_r_type_instr instr args run_sraw
  (* RV64I I-type instructions *)
  | Addi args => run_i_type_instr instr args (ok3 run_addi)
  | Addiw args => run_i_type_instr instr args (ok3 run_addiw)
  | Xori args => run_i_type_instr instr args (ok3 run_xori)
  | Ori args => run_i_type_instr instr args (ok3 run_ori)
  | Andi args => run_i_type_instr instr args (ok3 run_andi)
  | Slli args => run_i_type_instr instr args run_slli
  | Srli args => run_i_type_instr instr args run_srli
  | Srai args => run_i_type_instr instr args run_srai
  | Slliw args => run_i_type_instr instr args run_slliw
  | Srliw args => run_i_type_instr instr args run_srliw
  | Sraiw args => run_i_type_instr instr args run_sraiw
  | Slti args => run_i_type_instr instr args (ok3 run_slti)
  | Sltiu args => run_i_type_instr instr args (ok3 run_sltiu)
  | Lb args => run_load_instr instr args run_lb
  | Lh args => run_load_instr instr args run_lh
  | Lw args => run_load_instr instr args run_lw
  | Lbu args => run_load_instr instr args run_lbu
  | Lhu args => run_load_instr instr args run_lhu
  | Lwu args => run_load_instr instr args run_lwu
  | Ld args => run_load_instr instr args run_ld
  | Fence args => run_fence (pred args) (succ args) ;;; comp_ret (Add_ (width instr))
  | FenceTso _ => comp_throw IllegalInstruction
  | Ecall => let! m := comp_get in let! e := comp_lift (run_ecall (hart m)) in comp_throw e
  | Ebreak => let! m := comp_get in comp_throw (run_ebreak (hart m))
  (* RV64I S-type instructions *)
  | Sb args => run_store_instr instr args run_sb
  | Sh args => run_store_instr instr args run_sh
  | Sw args => run_store_instr instr args run_sw
  | Sd args => run_store_instr instr args run_sd
  (* RV64I B-type instructions *)
  | Beq args => run_b_type_instr args run_beq
  | Bne args => run_b_type_instr args run_bne
  | Blt args => run_b_type_instr args run_blt
  | Bge args => run_b_type_instr args run_bge
  | Bltu args => run_b_type_instr args run_bltu
  | Bgeu args => run_b_type_instr args run_bgeu
  (* RV64I U-type instructions *)
  | Lui args =>
      on_xregisters (fun x => Some (run_lui x (uj_imm args) (uj_rd args))) ;;;
      comp_ret (Add_ (width instr))
  | Auipc args =>
      let! m := comp_get in
      comp_put (with_hart m (run_auipc (hart m) (uj_imm args) (uj_rd args))) ;;;
      comp_ret (Add_ (width instr))
  (* RV64I jump instructions *)
  | Jal args =>
      let! m := comp_get in
      let '(a, h) := run_jal (hart m) (uj_imm args) (uj_rd args) in
      comp_put (with_hart m h) ;;; comp_ret (Set_ a)
  | Jalr args =>
      let! m := comp_get in
      let '(a, h) := run_jalr (hart m) (i_imm args) (i_rs1 args) (i_rd args) in
      comp_put (with_hart m h) ;;; comp_ret (Set_ a)
  (* RV64M multiplication and division instructions *)
  | Rem args => run_r_type_instr instr args (ok3 run_rem)
  | Remu args => run_r_type_instr instr args (ok3 run_remu)
  | Remw args => run_r_type_instr instr args (ok3 run_remw)
  | Remuw args => run_r_type_instr instr args (ok3 run_remuw)
  (* Zicsr instructions *)
  | Csrrw args => run_csr_instr instr args run_csrrw
  | Csrrs args => run_csr_instr instr args run_csrrs
  | Csrrc args => run_csr_instr instr args run_csrrc
  | Csrrwi args => run_csr_imm_instr instr args run_csrrwi
  | Csrrsi args => run_csr_imm_instr instr args run_csrrsi
  | Csrrci args => run_csr_imm_instr instr args run_csrrci
  (* Zifencei instructions *)
  | FenceI => run_fencei ;;; comp_ret (Add_ (width instr))
  (* Privileged instructions *)
  | Mret => run_xret_instr run_mret
  | Sret => run_xret_instr run_sret
  | Mnret => comp_throw IllegalInstruction
  | Wfi => run_wfi ;;; comp_ret (Add_ (width instr))
  | Unknown _ => comp_throw IllegalInstruction
  | UnknownCompressed _ => comp_throw IllegalInstruction
  end.

Definition run_instr_at (instr_pc : Z) : comp MachineState Exception ProgramCounterUpdate :=
  let! m := comp_get in
  let! instr := lift_option_result (fetch_instr m instr_pc) in
  run_instr instr.

(** ** Interrupts and exceptions *)

(** The interrupts from the highest to the lowest priority. *)
Definition interrupt_priority : list Interrupt :=
  [MachineExternal; MachineSoftware; MachineTimer;
   SupervisorExternal; SupervisorSoftware; SupervisorTimer].

(** [None] outside is the panic of the mode cell. *)
Definition get_pending_interrupt (m : MachineState) : option (option Interrupt) :=
  let? current_mode := mode_read (mode (hart m)) in
  let possible := possible_interrupts (csregisters (hart m)) current_mode in
  if possible =? 0 then Some None
  else
    let mip_val := hcsr_read (hart m) mip in
    let active_interrupts := Z.land mip_val possible in
    Some (find (fun i => get_bit active_interrupts (exception_code i)) interrupt_priority).

Definition address_on_interrupt (interrupt : Interrupt) : comp MachineState EnvironException Z :=
  let! m := comp_get in
  let current_pc := pc (hart m) in
  let mip_val := hcsr_read (hart m) mip in
  let h := hcsr_write (hart m) mip (set_bit mip_val (exception_code interrupt) false) in
  let! ah := comp_lift (take_trap h interrupt current_pc) in
  comp_put (with_hart m ah.2) ;;;
  comp_ret ah.1.

Definition address_on_exception (exception : Exception) (current_pc : Z) :
    comp MachineState EnvironException Z :=
  let! m := comp_get in
  match environ_try_from exception with
  | Ok exc => comp_put (with_hart m (with_pc (hart m) current_pc)) ;;; comp_throw exc
  | Err _ =>
      let! ah := comp_lift (take_trap (hart m) exception current_pc) in
      comp_put (with_hart m ah.2) ;;;
      comp_ret ah.1
  end.

(** ** Steps *)

(** The address of the instruction to run, after a pending interrupt. *)
Definition next_instr_pc : comp MachineState EnvironException Z :=
  let! m := comp_get in
  let! pending := comp_lift (get_pending_interrupt m) in
  match pending with
  | None => comp_ret (pc (hart m))
  | Some interrupt => address_on_interrupt interrupt
  end.

(** The [match instr_result]: an exception becomes the address of its handler. *)
Definition pc_update_at (instr_pc : Z) : comp MachineState EnvironException ProgramCounterUpdate :=
  fun m =>
    match run_instr_at instr_pc m with
    | Ret upd m => Ret upd m
    | Throw exc m => (let! a := address_on_exception exc instr_pc in comp_ret (Set_ a)) m
    | Panic => Panic
    end.

Definition update_pc (instr_pc : Z) (upd : ProgramCounterUpdate) : comp MachineState EnvironException unit :=
  let! m := comp_get in
  match upd with
  | Set_ address => comp_put (with_hart m (with_pc (hart m) address))
  | Add_ w =>
      let! a := comp_lift (checked_add 64 instr_pc w) in
      comp_put (with_hart m (with_pc (hart m) a))
  end.

Definition step : comp MachineState EnvironException unit :=
  let! instr_pc := next_instr_pc in
  let! upd := pc_update_at instr_pc in
  update_pc instr_pc upd.

(** [step_many]: the closure [should_continue] has a state of its own; [None] is
    a panic. *)
Fixpoint step_many_from {C} (steps_done left_ : nat) (should_continue : C -> MachineState -> bool * C)
    (c : C) (m : MachineState) : option (StepManyResult * C * MachineState) :=
  match left_ with
  | O => Some (mkStepManyResult steps_done None, c, m)
  | S left_ =>
      let '(continue, c) := should_continue c m in
      if continue then
        match step m with
        | Ret _ m => step_many_from (S steps_done) left_ should_continue c m
        | Throw e m => Some (mkStepManyResult steps_done (Some e), c, m)
        | Panic => None
        end
      else Some (mkStepManyResult steps_done None, c, m)
  end.

Definition step_many {C} (max : nat) (should_continue : C -> MachineState -> bool * C)
    (c : C) (m : MachineState) : option (StepManyResult * C * MachineState) :=
  step_many_from 0 max should_continue c m.

End Machine.

End Machine.
Export Machine.
