(* ===== verification/MachineSpec.v ===== *)
(** The machine against the instruction set: register instructions compute the
    reference arithmetic of [Isa], loads and stores access the bytes of the bus,
    branches and jumps go where the manual says, and every instruction keeps the
    invariant of the machine and does not panic. *)

From S2P Require Import Prelude Region Registers Mode Traps CSRFields CSRegisters Instruction Parser Encode HartState Bus RvI RvM RvSystem Isa Machine.

Module MachineSpec.

(** The invariant of a machine that went through a reset. *)
Definition machine_inv (m : MachineState) : Prop := hart_inv (hart m) /\ bus_wf (bus m).

Section Spec.
Context `{Host} `{ML : MainMemoryLayout} `{!LayoutOk ML}.

(** ** Register instructions *)

Lemma checked_shl_ok w x n : 0 <= n < w -> checked_shl w x n = Some (ushl w x n).
Proof using Type. intros. unfold checked_shl. repeat bits_split. done. Qed.

Lemma checked_shr_ok w x n : 0 <= n < w -> checked_shr w x n = Some (Z.shiftr x n).
Proof using Type. intros. unfold checked_shr. repeat bits_split. done. Qed.

(** The register written by an arithmetic instruction. *)
Definition alu_result (m : MachineState) (op : AluOp) (rd rs1 : XRegister) (b : Z) : MachineState :=
  with_hart m (xset (hart m) rd (wrap 64 (isa_alu op (sint 64 (xget (hart m) rs1)) b))).

Ltac alu_start :=
  unfold run_r_type_instr, run_i_type_instr, on_xregisters, ok3, alu_result, comp_bind, comp_ret, xset, xget;
  cbv beta iota zeta.

Ltac shift_amount :=
  first [ rewrite checked_shl_ok by (first [apply Z.mod_pos_bound; lia | lia])
        | rewrite checked_shr_ok by (first [apply Z.mod_pos_bound; lia | lia]) ].

Lemma run_r_isa i op args m :
  machine_inv m -> r_op i = Some (op, args) ->
  run_instr i m
  = Ret (Add_ 4) (alu_result m op (r_rd args) (r_rs1 args) (sint 64 (xget (hart m) (r_rs2 args)))).
Proof using Type.
  intros [[Hw _] _] E. pose proof (xread_range (xregisters (hart m)) (r_rs1 args) (wf_x _ Hw)) as Ha.
  pose proof (xread_range (xregisters (hart m)) (r_rs2 args) (wf_x _ Hw)) as Hb.
  destruct i; try discriminate E; injection E as <- ->; cbn [run_instr]; alu_start; cbn [width].
  - unfold run_add. cbv zeta. by rewrite add_value.
  - unfold run_sub. cbv zeta. by rewrite sub_value.
  - unfold run_xor. by rewrite xor_value.
  - unfold run_or. by rewrite or_value.
  - unfold run_and. by rewrite and_value.
  - unfold run_sll. cbv zeta. rewrite land_63. shift_amount. by rewrite sll_value.
  - unfold run_srl. cbv zeta. rewrite land_63. shift_amount. by rewrite srl_value.
  - unfold run_sra. cbv zeta. rewrite land_63. shift_amount. by rewrite sra_value.
  - unfold run_slt. by rewrite slt_value.
  - unfold run_sltu. by rewrite sltu_value.
  - unfold run_addw. cbv zeta. by rewrite addw_value.
  - unfold run_subw. cbv zeta. by rewrite subw_value.
  - unfold run_sllw. cbv zeta. rewrite land_31.
    rewrite checked_shl_ok by (pose proof (Z.mod_pos_bound (xread (xregisters (hart m)) (r_rs2 args)) 32); lia).
    by rewrite sllw_value.
  - unfold run_srlw. cbv zeta. rewrite land_31. shift_amount. by rewrite srlw_value.
  - unfold run_sraw. cbv zeta. rewrite land_31. shift_amount. by rewrite sraw_value.
  - unfold run_rem. cbv zeta. by rewrite rem_value.
  - unfold run_remu. cbv zeta. by rewrite remu_value.
  - unfold run_remw. cbv zeta. by rewrite remw_value.
  - unfold run_remuw. cbv zeta. by rewrite remuw_value.
Qed.

(** The immediates the instruction set gives a meaning: those of the encodable
    instructions, with the word shifts below 32. *)
Definition imm_defined (i : Instr) : Prop :=
  encodable i /\ match i with Slliw a | Srliw a => i_imm a < 32 | _ => True end.

Lemma run_i_isa i op args m :
  machine_inv m -> i_op i = Some (op, args) -> imm_defined i ->
  run_instr i m = Ret (Add_ 4) (alu_result m op (i_rd args) (i_rs1 args) (i_imm args)).
Proof using Type.
  intros [[Hw _] _] E [He Hd].
  pose proof (xread_range (xregisters (hart m)) (i_rs1 args) (wf_x _ Hw)) as Ha.
  assert (Hi : in_s 12 (i_imm args)).
  { destruct i; try discriminate E; injection E as <- ->; cbn [encodable] in He;
      first [exact He | by apply in_u6_s12 | by apply in_u6_arith_s12]. }
  pose proof (sint64_imm _ Hi) as Es. set (imm := i_imm args) in *.
  pose proof (wrap_range 64 imm ltac:(lia)) as Hb. set (b := wrap 64 imm) in *.
  assert (E64 : b mod 64 = imm mod 64) by (rewrite <- Es; by rewrite sint64_mod64).
  assert (E32 : b mod 32 = imm mod 32) by (rewrite <- Es; by rewrite sint64_mod32).
  destruct i; try discriminate E; injection E as <- ->; cbn [run_instr]; alu_start; cbn [width];
    fold imm; cbn [encodable] in He; try fold imm in He; try fold imm in Hd; unfold in_u in He.
  - unfold run_addi. cbv zeta. fold b. by rewrite add_value, Es.
  - unfold run_addiw. cbv zeta. fold b. by rewrite addw_value, Es.
  - unfold run_xori. fold b. by rewrite xor_value, Es.
  - unfold run_ori. fold b. by rewrite or_value, Es.
  - unfold run_andi. fold b. by rewrite and_value, Es.
  - unfold run_slli. shift_amount. rewrite <- (Z.mod_small imm 64) at 1 by lia.
    by rewrite <- E64, sll_value, Es.
  - unfold run_srli. shift_amount. rewrite <- (Z.mod_small imm 64) at 1 by lia.
    by rewrite <- E64, srl_value, Es.
  - unfold run_srai. cbv zeta. rewrite land_63, <- E64. shift_amount. by rewrite sra_value, Es.
  - unfold run_slliw. shift_amount. rewrite <- (Z.mod_small imm 32) at 1 by lia.
    by rewrite <- E32, sllw_value, Es.
  - unfold run_srliw. shift_amount. rewrite <- (Z.mod_small imm 32) at 1 by lia.
    by rewrite <- E32, srlw_value, Es.
  - unfold run_sraiw. cbv zeta. rewrite land_31, <- E32. shift_amount. by rewrite sraw_value, Es.
  - unfold run_slti. rewrite <- Es at 1. by rewrite slt_value, Es.
  - unfold run_sltiu. fold b. by rewrite sltu_value, Es.
Qed.

(** ** Every instruction keeps the invariant and does not panic *)

Definition upd_ok (u : ProgramCounterUpdate) : Prop :=
  match u with Set_ a => in_u 64 a | Add_ w => w = 4 end.

(** The judgement of the instructions: the invariant on both exits, 64-bit
    addresses in the updates and in the faults. *)
Definition instr_total {A} (c : comp MachineState Exception A) (Q : A -> Prop) : Prop :=
  total machine_inv c (fun a m => machine_inv m /\ Q a)
    (fun e m => machine_inv m /\ exception_valid e).

Lemma instr_ret {A} (a : A) (Q : A -> Prop) : Q a -> instr_total (comp_ret a) Q.
Proof using Type. intros Hq m Hm. done. Qed.

Lemma instr_illegal {A} (Q : A -> Prop) : instr_total (comp_throw IllegalInstruction) Q.
Proof using Type. intros m Hm. split; [done | apply exception_valid_illegal]. Qed.

Lemma instr_bind {A B} (c : comp MachineState Exception A) (k : A -> comp MachineState Exception B) Q' Q :
  instr_total c Q' -> (forall a, Q' a -> instr_total (k a) Q) -> instr_total (comp_bind c k) Q.
Proof using Type.
  intros Hc Hk. eapply total_bind; [apply Hc |]. intros a m [Hm Ha]. by apply Hk.
Qed.

Lemma instr_on_hart {A} (c : comp HartState Exception A) Q : hart_total c Q -> instr_total (on_hart c) Q.
Proof using Type.
  intros Hc m [Hh Hb]. specialize (Hc (hart m) Hh). unfold on_hart.
  destruct (c (hart m)); [| |done]; destruct Hc; split; done.
Qed.

Lemma with_hart_inv m h : machine_inv m -> hart_inv h -> machine_inv (with_hart m h).
Proof using Type. intros [_ Hb] Hh. done. Qed.

Lemma alu_result_inv m op rd rs1 b : machine_inv m -> machine_inv (alu_result m op rd rs1 b).
Proof using Type.
  intros Hm. apply with_hart_inv; [done |]. apply xset_inv; [apply Hm | apply wrap_range; lia].
Qed.

(** *** Loads and stores *)

(** The address of an access. *)
Definition access_address (m : MachineState) (imm : Z) (rs1 : XRegister) : Z :=
  wrap 64 (xget (hart m) rs1 + imm).

Lemma access_address_range m imm rs1 : in_u 64 (access_address m imm rs1).
Proof using Type. apply wrap_range. lia. Qed.

Lemma read_from_bus_spec size imm rs1 m :
  0 < Z.of_nat size <= 8 ->
  read_from_bus size imm rs1 m
  = (let a := access_address m imm rs1 in
     if mapped a (Z.of_nat size)
     then Ret (DynRegion.host_value host (load_bytes (bus m) a size)) m
     else Throw (LoadAccessFault a) m).
Proof using LayoutOk0.
  intros Hs. unfold read_from_bus. rewrite wrap_add_r. fold (access_address m imm rs1).
  cbv zeta. rewrite bus_read_spec by (apply access_address_range || lia). by destruct (mapped _ _).
Qed.

Lemma write_to_bus_spec size imm rs1 v m :
  0 < Z.of_nat size <= 8 ->
  write_to_bus size imm rs1 v m
  = (let a := access_address m imm rs1 in
     if mapped a (Z.of_nat size)
     then Ret tt (mkMachine (hart m) (store_bytes (bus m) a (DynRegion.host_bytes host size v)))
     else Throw (StoreAccessFault a) m).
Proof using LayoutOk0.
  intros Hs. unfold write_to_bus. rewrite wrap_add_r. fold (access_address m imm rs1).
  cbv zeta. rewrite bus_write_spec by (apply access_address_range || lia).
  destruct (mapped _ _); [done |]. by destruct m.
Qed.

Lemma read_from_bus_total size imm rs1 :
  0 < Z.of_nat size <= 8 -> instr_total (read_from_bus size imm rs1) (in_u (8 * Z.of_nat size)).
Proof using LayoutOk0.
  intros Hs m Hm. rewrite read_from_bus_spec by done. cbv zeta. destruct (mapped _ _).
  - split; [done |]. rewrite <- (DynRegion.length_read_bytes (data (memory (bus m)))
      (access_address m imm rs1 - start_of_main_memory) size) at 1.
    apply host_value_range, load_bytes_ok, Hm.
  - split; [done |]. apply access_address_range.
Qed.

Lemma write_to_bus_total size imm rs1 v :
  0 < Z.of_nat size <= 8 -> instr_total (write_to_bus size imm rs1 v) (fun _ => True).
Proof using LayoutOk0.
  intros Hs m Hm. rewrite write_to_bus_spec by done. cbv zeta. destruct (mapped _ _).
  - split; [|done]. split; [apply Hm |]. apply store_bytes_wf; [apply Hm | apply host_bytes_ok].
  - split; [done |]. apply access_address_range.
Qed.

Lemma write_register_total rd v : in_u 64 v -> instr_total (write_register rd v) (fun _ => True).
Proof using Type.
  intros Hv m Hm. split; [|done]. apply with_hart_inv; [done |]. by apply xset_inv; [apply Hm |].
Qed.

Lemma load_total size imm rs1 rd (f : Z -> Z) :
  0 < Z.of_nat size <= 8 -> (forall v, in_u (8 * Z.of_nat size) v -> in_u 64 (f v)) ->
  instr_total (let! v := read_from_bus size imm rs1 in write_register rd (f v)) (fun _ => True).
Proof using LayoutOk0.
  intros Hs Hf. eapply instr_bind; [by apply read_from_bus_total |]. intros v Hv.
  by apply write_register_total, Hf.
Qed.

Lemma store_total size imm rs1 (f : MachineState -> Z) :
  0 < Z.of_nat size <= 8 ->
  instr_total (let! m := comp_get in write_to_bus size imm rs1 (f m)) (fun _ => True).
Proof using LayoutOk0.
  intros Hs m Hm. by apply (write_to_bus_total size imm rs1 (f m) Hs m Hm).
Qed.

Lemma in_u_weaken w w' v : 0 <= w <= w' -> in_u w v -> in_u w' v.
Proof using Type.
  intros Hw Hv. unfold in_u in *. pose proof (Z.pow_le_mono_r 2 w w' ltac:(lia) ltac:(lia)). lia.
Qed.

(** The instructions that run without panic: what the parser produces, but for
    [Srliw] with a shift amount above 31. *)
Definition runnable (i : Instr) : Prop :=
  match i with
  | Unknown _ | UnknownCompressed _ => True
  | Srliw a => in_u 5 (i_imm a)
  | _ => encodable i
  end.

Lemma alu_r_total i op args : r_op i = Some (op, args) -> instr_total (run_instr i) upd_ok.
Proof using Type.
  intros E m Hm. rewrite (run_r_isa i op args m Hm E). split; [by apply alu_result_inv | done].
Qed.

Lemma alu_i_total i op args :
  i_op i = Some (op, args) -> imm_defined i -> instr_total (run_instr i) upd_ok.
Proof using Type.
  intros E Hi m Hm. rewrite (run_i_isa i op args m Hm E Hi). split; [by apply alu_result_inv | done].
Qed.

(** [Slliw] with an amount above 31 shifts everything out. *)
Lemma slliw_total a : in_u 6 (i_imm a) -> instr_total (run_instr (Slliw a)) upd_ok.
Proof using Type.
  intros Hi m Hm. cbn [run_instr]. unfold run_i_type_instr, on_xregisters, comp_bind, run_slliw.
  unfold in_u in Hi. rewrite checked_shl_ok by lia. split; [|done].
  apply with_hart_inv; [done |]. apply xset_inv; [apply Hm | apply wrap_range; lia].
Qed.

Lemma seq_width_total c i :
  width i = 4 -> instr_total c (fun _ : unit => True) ->
  instr_total (c ;;; comp_ret (Add_ (width i))) upd_ok.
Proof using Type.
  intros Hw Hc. eapply instr_bind; [exact Hc |]. intros _ _. apply instr_ret. exact Hw.
Qed.

Lemma branch_total args (f : HartState -> Z -> XRegister -> XRegister -> Z) :
  (forall h imm r1 r2, in_u 64 (f h imm r1 r2)) -> instr_total (run_b_type_instr args f) upd_ok.
Proof using Type. intros Hf m Hm. split; [done | apply Hf]. Qed.

Lemma jump_total (f : HartState -> Z * HartState) :
  (forall h, hart_inv h -> hart_inv (f h).2 /\ in_u 64 (f h).1) ->
  instr_total
    (let! m := comp_get in
     let '(a, h) := f (hart m) in comp_put (with_hart m h) ;;; comp_ret (Set_ a)) upd_ok.
Proof using Type.
  intros Hf m Hm. unfold comp_bind, comp_get. destruct (Hf (hart m) (proj1 Hm)) as [Hh Ha].
  destruct (f (hart m)) as [a h]. split; [by apply with_hart_inv | done].
Qed.

Lemma ecall_total : instr_total (run_instr Ecall) upd_ok.
Proof using Type.
  intros m Hm. cbn [run_instr]. unfold comp_bind, comp_get, comp_lift, run_ecall.
  destruct (wf_mode _ (proj1 (proj1 Hm))) as [mo ->].
  split; [done |]. destruct mo; unfold exception_valid, in_u; cbn; lia.
Qed.

Lemma xret_total c : hart_total c (in_u 64) -> instr_total (run_xret_instr c) upd_ok.
Proof using Type.
  intros Hc. eapply instr_bind; [by apply instr_on_hart |]. intros a Ha. by apply instr_ret.
Qed.

(** Reducing the addresses of the branches to their range. *)
Ltac branch_range :=
  unfold run_beq, run_bne, run_beq_impl, run_bne_impl, run_blt, run_bge, run_bltu, run_bgeu;
  intros; cbv zeta; repeat case_match; apply wrap_range; lia.

Lemma run_instr_total i : runnable i -> instr_total (run_instr i) upd_ok.
Proof using LayoutOk0.
  intros Hi.
  destruct i; cbn [runnable encodable] in Hi;
    try (eapply alu_r_total; reflexivity);
    try (by apply slliw_total); try (by apply ecall_total); try (by apply instr_illegal);
    try (eapply alu_i_total; [reflexivity | by split]);
    cbn [run_instr];
    try (apply branch_total; branch_range);
    try (apply xret_total; first [apply run_mret_total | apply run_sret_total]);
    try (apply seq_width_total; [reflexivity |];
         first [ apply instr_on_hart; first
                   [ apply run_csrrw_total | apply run_csrrs_total | apply run_csrrc_total
                   | apply run_csrrwi_total | apply run_csrrsi_total | apply run_csrrci_total ]
               | apply store_total; lia
               | apply load_total; [lia | intros; first [apply wrap_range; lia
                   | eapply in_u_weaken; [|eassumption]; lia]]
               | by apply instr_ret ]).
  - apply (alu_i_total (Srliw args) SRLW args); [reflexivity |].
    unfold in_u in Hi. split; [cbn; unfold in_u; lia | lia].
  - intros m Hm. split; [done |]. unfold exception_valid, in_u. cbn. lia.
  - intros m Hm. split; [|done]. apply with_hart_inv; [done |].
    apply xset_inv; [apply Hm | apply wrap_range; lia].
  - intros m Hm. split; [|done]. apply with_hart_inv; [done |].
    apply xset_inv; [apply Hm | apply wrap_range; lia].
  - apply (jump_total (fun h => run_jal h (uj_imm args) (uj_rd args))). intros h Hh.
    split; [apply xset_inv; [done |] |]; apply wrap_range; lia.
  - apply (jump_total (fun h => run_jalr h (i_imm args) (i_rs1 args) (i_rd args))). intros h Hh.
    split; [apply xset_inv; [done |]; apply wrap_range; lia |].
    apply land_range; [lia |]. apply wrap_range. lia.
Qed.

(** ** Fetch *)

(** What a fetch returns: the instruction in the two or four bytes at [a], read
    as little halves of the host, or an access fault. *)
Definition half_at (b : Bus) (a : Z) : Z := DynRegion.host_value host (load_bytes b a 2).

Lemma half_at_range b a : bus_wf b -> in_u 16 (half_at b a).
Proof using Type.
  intros Hb. apply (host_value_range host (load_bytes b a 2)). by apply load_bytes_ok.
Qed.

Lemma fetch_instr_spec m a :
  machine_inv m -> in_u 64 a ->
  exists r, fetch_instr m a = Some r /\
    match r with
    | Err e => e = InstructionAccessFault a
               /\ (mapped a 2 = false
                   \/ (Z.land (half_at (bus m) a) 3 = 3 /\ mapped a 4 = false))
    | Ok i => mapped a 2 = true
              /\ if Z.land (half_at (bus m) a) 3 =? 3 then
                   mapped a 4 = true /\
                   parse_uncompressed_instruction
                     (Z.lor (ushl 32 (half_at (bus m) (a + 2)) 16) (half_at (bus m) a)) = Some i
                 else i = UnknownCompressed (half_at (bus m) a)
    end.
Proof using LayoutOk0.
  intros [_ Hb] Ha. unfold fetch_instr. rewrite bus_read_spec by (done || lia).
  change (Z.of_nat 2) with 2. destruct (mapped a 2) eqn:E2; [|eexists; split; [reflexivity | cbv beta iota; auto]].
  fold (half_at (bus m) a). pose proof (proj1 (mapped_spec a 2) E2) as [Hl Hr].
  pose proof BYTES_range as R. unfold start_of_main_memory, DEVICES_ADDRESS_SPACE_LENGTH in Hl, Hr.
  unfold parse. destruct (Z.eqb_spec (Z.land (half_at (bus m) a) 3) 3) as [E3 | E3]; cbn [negb].
  - unfold checked_add. rewrite (proj2 (Z.ltb_lt _ _)) by lia.
    rewrite bus_read_spec by (unfold in_u in *; lia). change (Z.of_nat 2) with 2.
    assert (M : mapped (a + 2) 2 = mapped a 4).
    { unfold mapped, start_of_main_memory, DEVICES_ADDRESS_SPACE_LENGTH. repeat bits_split; done || lia. }
    rewrite M. destruct (mapped a 4); [|eexists; split; [reflexivity | cbv beta iota; auto]].
    fold (half_at (bus m) (a + 2)).
    set (w := Z.lor _ _). assert (Hw : in_u 32 w).
    { apply lor_range; [lia | apply ushl_range; lia |].
      eapply in_u_weaken; [|by apply half_at_range]. lia. }
    destruct (parsed_word w Hw) as [-> | (i & -> & _)]; 
      (eexists; split; [reflexivity | cbv beta iota; auto]).
  - eexists; split; [reflexivity | cbv beta iota; auto].
Qed.

(** A fetched instruction is runnable, but for the shifts the parser lets through. *)
Definition wide_srliw (i : Instr) : Prop :=
  match i with Srliw a => 32 <= i_imm a | _ => False end.

Lemma fetch_runnable m a i :
  machine_inv m -> in_u 64 a -> fetch_instr m a = Some (Ok i) -> runnable i \/ wide_srliw i.
Proof using LayoutOk0.
  intros Hm Ha E. destruct (fetch_instr_spec m a Hm Ha) as (r & E' & Hr). rewrite E' in E.
  injection E as ->. destruct Hr as [_ Hr]. destruct (_ =? 3); [|left; by subst i].
  destruct Hr as [_ Hp]. set (w := Z.lor _ _) in Hp.
  assert (Hw : in_u 32 w).
  { apply lor_range; [lia | apply ushl_range; lia |].
    eapply in_u_weaken; [|apply half_at_range, Hm]. lia. }
  destruct (parsed_word w Hw) as [F | (i' & F & He & _)]; rewrite F in Hp; injection Hp as <-.
  - by left.
  - destruct i'; try (by left). cbn [encodable] in He. cbn [runnable wide_srliw].
    unfold in_u in *. destruct (decide (i_imm args < 32)); [left | right]; lia.
Qed.

End Spec.
End MachineSpec.
Export MachineSpec.
