(* ===== verification/InstrSpec.v ===== *)
(** Properties of single instructions: what loads, stores and branches do, that an
    exception leaves the machine as it was, and that no instruction raises the
    privilege. *)

From S2P Require Import Prelude Region Registers Mode Traps CSRFields CSRegisters Instruction Parser Encode HartState Bus RvI RvM RvSystem Isa Machine MachineSpec.

Module InstrSpec.

Section Instr.
Context `{Host} `{ML : MainMemoryLayout} `{!LayoutOk ML}.

(** ** Loads and stores *)

(** Size in bytes and signedness of a load. *)
Definition load_op (i : Instr) : option (nat * bool * ITypeArgs) :=
  match i with
  | Lb a => Some (1%nat, true, a) | Lh a => Some (2%nat, true, a) | Lw a => Some (4%nat, true, a)
  | Ld a => Some (8%nat, true, a) | Lbu a => Some (1%nat, false, a) | Lhu a => Some (2%nat, false, a)
  | Lwu a => Some (4%nat, false, a)
  | _ => None
  end.

Definition store_op (i : Instr) : option (nat * SBTypeArgs) :=
  match i with
  | Sb a => Some (1%nat, a) | Sh a => Some (2%nat, a) | Sw a => Some (4%nat, a)
  | Sd a => Some (8%nat, a)
  | _ => None
  end.

(** Sign- or zero-extension of a loaded value to the register width. *)
Definition extend (signed : bool) (size : nat) (v : Z) : Z :=
  if signed then wrap 64 (sint (8 * Z.of_nat size) v) else v.

Lemma run_load_spec i size signed args m :
  load_op i = Some (size, signed, args) ->
  run_instr i m
  = (let a := access_address m (i_imm args) (i_rs1 args) in
     if mapped a (Z.of_nat size)
     then Ret (Add_ 4) (with_hart m (xset (hart m) (i_rd args)
            (extend signed size (DynRegion.host_value host (load_bytes (bus m) a size)))))
     else Throw (LoadAccessFault a) m).
Proof using LayoutOk0.
  intros E. destruct i; try discriminate E; injection E as <- <- ->; cbn [run_instr];
    unfold run_load_instr, run_lb, run_lh, run_lw, run_lbu, run_lhu, run_lwu, run_ld, comp_bind;
    rewrite read_from_bus_spec by lia; cbv zeta; by destruct (mapped _ _).
Qed.

(** The low bytes of the host representation do not depend on the truncation. *)
Lemma host_bytes_wrap n v :
  DynRegion.host_bytes host n (wrap (8 * Z.of_nat n) v) = DynRegion.host_bytes host n v.
Proof using Type. unfold DynRegion.host_bytes. by rewrite le_bytes_wrap. Qed.

Lemma run_store_spec i size args m :
  store_op i = Some (size, args) ->
  run_instr i m
  = (let a := access_address m (sb_imm args) (sb_rs1 args) in
     if mapped a (Z.of_nat size)
     then Ret (Add_ 4) (mkMachine (hart m) (store_bytes (bus m) a
            (DynRegion.host_bytes host size (xget (hart m) (sb_rs2 args)))))
     else Throw (StoreAccessFault a) m).
Proof using LayoutOk0.
  intros E. destruct i; try discriminate E; injection E as <- ->; cbn [run_instr];
    unfold run_store_instr, run_sb, run_sh, run_sw, run_sd, comp_bind, comp_get;
    rewrite write_to_bus_spec by lia; cbv zeta; destruct (mapped _ _); try done.
  all: first [ rewrite (host_bytes_wrap 1) | rewrite (host_bytes_wrap 2)
             | rewrite (host_bytes_wrap 4) ]; done.
Qed.

(** ** Branches and jumps *)

(** The condition of a branch on the signed values of its operands. *)
Definition branch_op (i : Instr) : option ((Z -> Z -> bool) * SBTypeArgs) :=
  match i with
  | Beq a => Some (Z.eqb, a)
  | Bne a => Some (fun x y => negb (x =? y), a)
  | Blt a => Some (Z.ltb, a)
  | Bge a => Some (Z.geb, a)
  | Bltu a => Some (fun x y => wrap 64 x <? wrap 64 y, a)
  | Bgeu a => Some (fun x y => wrap 64 x >=? wrap 64 y, a)
  | _ => None
  end.

Lemma sint64_inj x y : in_u 64 x -> in_u 64 y -> sint 64 x = sint 64 y -> x = y.
Proof using Type.
  intros Hx Hy E. rewrite <- (wrap_small 64 x Hx), <- (wrap_small 64 y Hy).
  by rewrite <- (wrap_sint64 x), E, wrap_sint64.
Qed.

Lemma sint64_eqb x y : in_u 64 x -> in_u 64 y -> (sint 64 x =? sint 64 y) = (x =? y).
Proof using Type.
  intros Hx Hy. destruct (Z.eqb_spec x y) as [-> | Hn]; [apply Z.eqb_refl |].
  apply Z.eqb_neq. intros E. by apply Hn, sint64_inj.
Qed.

Lemma wrap64_sint64 x : in_u 64 x -> wrap 64 (sint 64 x) = x.
Proof using Type. intros Hx. rewrite wrap_sint64. by apply wrap_small. Qed.

Lemma run_branch_spec i cond args m :
  machine_inv m -> branch_op i = Some (cond, args) ->
  run_instr i m
  = Ret (Set_ (wrap 64 (pc (hart m) +
      (if cond (sint 64 (xget (hart m) (sb_rs1 args))) (sint 64 (xget (hart m) (sb_rs2 args)))
       then sb_imm args else 4)))) m.
Proof using Type.
  intros Hm E. pose proof (xget_range _ (sb_rs1 args) (proj1 Hm)) as H1.
  pose proof (xget_range _ (sb_rs2 args) (proj1 Hm)) as H2.
  destruct i; try discriminate E; injection E as <- ->; cbn [run_instr];
    unfold run_b_type_instr, comp_bind, comp_get, comp_ret, run_beq, run_bne, run_beq_impl, run_bne_impl,
      run_blt, run_bge, run_bltu, run_bgeu;
    cbv zeta; rewrite ?sint64_eqb, ?wrap64_sint64, ?Z.geb_leb by done;
    destruct (_ : bool); cbn [negb]; by rewrite ?wrap_add_r.
Qed.

(** ** Exceptions are precise *)

(** A computation whose errors are in [P] and leave the state as it was. *)
Definition precise {S E A} (P : E -> Prop) (c : comp S E A) : Prop :=
  forall s, match c s with Throw e s' => s' = s /\ P e | _ => True end.

Lemma precise_weaken {S E A} (P P' : E -> Prop) (c : comp S E A) :
  precise P c -> (forall e, P e -> P' e) -> precise P' c.
Proof using Type. intros Hc HP s. specialize (Hc s). destruct (c s); [done | destruct Hc; auto | done]. Qed.

Lemma precise_ret {S E A} (P : E -> Prop) (a : A) : precise (S := S) P (comp_ret a).
Proof using Type. done. Qed.

Lemma precise_put {S E} (P : E -> Prop) (s : S) : precise P (comp_put s).
Proof using Type. done. Qed.

Lemma precise_put_ret {S E A} (P : E -> Prop) (s : S) (a : A) : precise P (comp_put s ;;; comp_ret a).
Proof using Type. done. Qed.

Lemma precise_throw {S E A} (P : E -> Prop) (e : E) : P e -> precise (S := S) (A := A) P (comp_throw e).
Proof using Type. done. Qed.

(** A precise computation followed by one that does not fail. *)
Lemma precise_then {S E A B} (P : E -> Prop) (c : comp S E A) (k : A -> comp S E B) :
  precise P c -> (forall a s, match k a s with Throw _ _ => False | _ => True end) ->
  precise P (comp_bind c k).
Proof using Type.
  intros Hc Hk s. specialize (Hc s). unfold comp_bind. destruct (c s) as [a s'|e s'|]; try done.
  specialize (Hk a s'). by destruct (k a s').
Qed.

Lemma precise_get {S E A} (P : E -> Prop) (k : S -> comp S E A) :
  (forall s, precise P (k s)) -> precise P (comp_bind comp_get k).
Proof using Type. intros Hk s. apply (Hk s). Qed.

Lemma precise_lift {S E A B} (P : E -> Prop) (o : option A) (k : A -> comp S E B) :
  (forall a, precise P (k a)) -> precise P (comp_bind (comp_lift o) k).
Proof using Type. intros Hk s. unfold comp_bind, comp_lift. destruct o; [apply Hk | done]. Qed.

Lemma precise_check_write {A} (k : unit -> comp HartState Exception A) csr :
  precise (eq IllegalInstruction) (k tt) ->
  precise (eq IllegalInstruction) (comp_bind (lift_result (check_write csr)) k).
Proof using Type. intros Hk s. unfold comp_bind, check_write. destruct (is_read_only csr); [done | apply Hk]. Qed.

Lemma precise_check_privilege {A} (k : unit -> comp HartState Exception A) csr m :
  precise (eq IllegalInstruction) (k tt) ->
  precise (eq IllegalInstruction) (comp_bind (lift_option_result (check_privilege csr m)) k).
Proof using Type.
  intros Hk s. unfold lift_option_result, comp_bind, comp_lift, check_privilege.
  destruct (csr_privilege csr); [|done]. destruct (privilege_lt _ _); [done | apply Hk].
Qed.

Lemma precise_on_hart {A} P (c : comp HartState Exception A) : precise P c -> precise P (on_hart c).
Proof using Type.
  intros Hc m. specialize (Hc (hart m)). unfold on_hart. destruct (c (hart m)); try done.
  destruct Hc as [-> He]. by destruct m.
Qed.

Lemma precise_xregisters P (f : XRegisters -> option XRegisters) (u : ProgramCounterUpdate) :
  precise P (on_xregisters f ;;; comp_ret u).
Proof using Type. intros m. unfold on_xregisters, comp_bind. by destruct (f _). Qed.

Ltac precise_step :=
  lazymatch goal with
  | |- precise _ (comp_bind comp_get _) => apply precise_get; intros
  | |- precise _ (comp_bind (comp_lift _) _) => apply precise_lift; intros
  | |- precise _ (comp_bind (lift_option_result _) _) => apply precise_check_privilege
  | |- precise _ (comp_bind (lift_result _) _) => apply precise_check_write
  | |- precise _ (comp_bind (comp_put _) (fun _ => comp_ret _)) => apply precise_put_ret
  | |- precise _ (comp_put _) => apply precise_put
  | |- precise _ (comp_ret _) => apply precise_ret
  | |- precise _ (comp_throw _) => apply precise_throw
  | |- precise _ (if ?b then _ else _) => destruct b
  | |- precise _ (match ?x with User => _ | Supervisor => _ | Machine => _ end) => destruct x
  | |- precise _ (let '(_, _) := ?x in _) => destruct x
  end.
Ltac precise_auto := repeat precise_step.

(** The system instructions only fail as illegal instructions. *)
Lemma precise_hart_instr :
  let P := eq IllegalInstruction in
  (forall c r d, precise P (run_csrrw c r d)) /\ (forall c v d, precise P (run_csrrwi c v d))
  /\ (forall c r d, precise P (run_csrrs c r d)) /\ (forall c v d, precise P (run_csrrsi c v d))
  /\ (forall c r d, precise P (run_csrrc c r d)) /\ (forall c v d, precise P (run_csrrci c v d))
  /\ precise P run_mret /\ precise P run_sret.
Proof using Type.
  unfold run_csrrw, run_csrrwi, run_csrrs, run_csrrsi, run_csrrc, run_csrrci, csr_replace, run_mret, run_sret.
  split_and!; intros; cbv zeta; precise_auto; reflexivity.
Qed.

(** The exceptions of an instruction: those of the environment come from [Ecall]. *)
Definition raised_by (i : Instr) (e : Exception) : Prop := i = Ecall \/ environ_try_from e = Err tt.

Lemma run_instr_precise i : precise (raised_by i) (run_instr i).
Proof using LayoutOk0.
  destruct precise_hart_instr as (P1 & P2 & P3 & P4 & P5 & P6 & P7 & P8).
  assert (W : forall e, IllegalInstruction = e -> raised_by i e) by (intros ? <-; by right).
  destruct (load_op i) as [[[size sg] args]|] eqn:El.
  { intros m. rewrite (run_load_spec i _ _ _ m El). cbv zeta. destruct (mapped _ _); [done | by split; [|right]]. }
  destruct (store_op i) as [[size args]|] eqn:Es.
  { intros m. rewrite (run_store_spec i _ _ m Es). cbv zeta. destruct (mapped _ _); [done | by split; [|right]]. }
  destruct i; try discriminate El; try discriminate Es; cbn [run_instr];
    try (apply precise_then; [apply precise_on_hart; eapply precise_weaken; [auto | exact W] | done]);
    try apply precise_xregisters; precise_auto; try done; try (by left); by right.
Qed.

(** ** No instruction raises the privilege *)

(** From the state [h] the computation only returns in modes related to that of [h]. *)
Definition mode_rel (R : Z -> Z -> Prop) {A} (h : HartState) (c : comp HartState Exception A) : Prop :=
  match c h with Ret _ h' => R (mode h) (mode h') | _ => True end.

Lemma csr_replace_mode c v d h : mode_rel eq h (csr_replace c v d).
Proof using Type.
  unfold mode_rel, csr_replace, comp_bind, comp_get, comp_lift, lift_option_result, check_privilege, check_write.
  destruct (mode_read (mode h)); [|done]. destruct (csr_privilege c); [|done].
  unfold comp_bind, comp_lift. destruct (privilege_lt _ _); [done |]. destruct (is_read_only c); [done |].
  cbn [lift_result comp_ret]. destruct (is_zero d); [done |]. by destruct (csr_replace_value _ _ _).
Qed.

Lemma csr_modify_mode (op : CSRegisters -> CSRegister -> Z -> Z * CSRegisters) c (skip : bool)
    (value : HartState -> Z) d h :
  mode_rel eq h
    (let! self := comp_get in
     let! m := comp_lift (mode_read (mode self)) in
     lift_option_result (check_privilege c m) ;;;
     if skip then comp_put (xset self d (hcsr_read self c))
     else lift_result (check_write c) ;;;
          let '(old, cs) := op (csregisters self) c (value self) in
          comp_put (xset (with_csregisters self cs) d old)).
Proof using Type.
  unfold mode_rel, comp_bind, comp_get, comp_lift, lift_option_result, check_privilege, check_write.
  destruct (mode_read (mode h)); [|done]. destruct (csr_privilege c); [|done].
  unfold comp_bind, comp_lift. destruct (privilege_lt _ _); [done |]. cbn [lift_result comp_ret].
  destruct skip; [done |]. destruct (is_read_only c); [done |].
  cbn [lift_result comp_ret]. by destruct (op _ _ _).
Qed.

Definition mode_not_above (x y : Z) : Prop :=
  forall m m', mode_read x = Some m -> mode_read y = Some m' -> mode_le m' m = true.

Lemma mode_not_above_refl x : mode_not_above x x.
Proof using Type. intros m m' -> [= ->]. by destruct m'. Qed.

Lemma mret_mode h : mode_rel mode_not_above h run_mret.
Proof using Type.
  unfold mode_rel, run_mret, comp_bind, comp_get, comp_lift.
  destruct (mode_read (mode h)) as [[]|] eqn:E; [exact I | exact I | | exact I].
  intros m m' E1 E2. rewrite E in E1. injection E1 as <-. by destruct m'.
Qed.

Lemma sret_mode h : mode_rel mode_not_above h run_sret.
Proof using Type.
  unfold mode_rel, run_sret, comp_bind, comp_get, comp_lift.
  destruct (mode_read (mode h)) as [[]|] eqn:E; [exact I | | | exact I]; cbv zeta;
    (destruct (get_TSR (hcsr_read h mstatus)); [exact I |]);
    unfold comp_put, comp_ret;
    generalize (get_SPP (hcsr_read h mstatus)) as spp; intros spp m m' E1 E2;
    rewrite E in E1; injection E1 as <-;
    cbn [mode with_mode] in E2; rewrite mode_read_write in E2; injection E2 as <-;
    destruct spp; reflexivity.
Qed.

Lemma on_hart_mode {A} (R : Z -> Z -> Prop) (c : comp HartState Exception A) (f : A -> ProgramCounterUpdate) m :
  mode_rel R (hart m) c ->
  match (let! a := on_hart c in comp_ret (f a)) m with
  | Ret _ m' => R (mode (hart m)) (mode (hart m')) | _ => True end.
Proof using Type. unfold mode_rel, on_hart, comp_bind. by destruct (c (hart m)). Qed.

Lemma run_instr_mode i m :
  match run_instr i m with
  | Ret _ m' => mode_not_above (mode (hart m)) (mode (hart m'))
  | _ => True
  end.
Proof using LayoutOk0.
  assert (R : forall m' : MachineState, mode (hart m') = mode (hart m) ->
                mode_not_above (mode (hart m)) (mode (hart m')))
    by (intros m' ->; apply mode_not_above_refl).
  assert (C : forall (c : comp HartState Exception unit) w, mode_rel eq (hart m) c ->
    match (on_hart c ;;; comp_ret (Add_ w)) m with
    | Ret _ m' => mode_not_above (mode (hart m)) (mode (hart m')) | _ => True end).
  { intros c w Hc. unfold mode_rel in Hc. unfold on_hart, comp_bind.
    destruct (c (hart m)); [|done | done]. apply R. symmetry. exact Hc. }
  destruct (load_op i) as [[[size sg] args]|] eqn:El.
  { rewrite (run_load_spec i _ _ _ m El). cbv zeta. destruct (mapped _ _); [by apply R | done]. }
  destruct (store_op i) as [[size args]|] eqn:Es.
  { rewrite (run_store_spec i _ _ m Es). cbv zeta. destruct (mapped _ _); [by apply R | done]. }
  assert (X : forall f w, match (on_xregisters f ;;; comp_ret (Add_ w)) m with
    | Ret _ m' => mode_not_above (mode (hart m)) (mode (hart m')) | _ => True end).
  { intros f w. unfold on_xregisters, comp_bind. destruct (f _); [by apply R | done]. }
  destruct i; try discriminate El; try discriminate Es; cbn [run_instr];
    unfold run_r_type_instr, run_i_type_instr, run_csr_instr, run_csr_imm_instr;
    lazymatch goal with
    | |- context [on_xregisters _ ;;; _] => apply X
    | |- context [run_xret_instr run_mret] => apply (on_hart_mode mode_not_above run_mret Set_), mret_mode
    | |- context [run_xret_instr run_sret] => apply (on_hart_mode mode_not_above run_sret Set_), sret_mode
    | |- context [on_hart (run_csrrw _ _ _)] => apply C; unfold mode_rel; apply csr_replace_mode
    | |- context [on_hart (run_csrrwi _ _ _)] => apply C, csr_replace_mode
    | |- context [on_hart (run_csrrs ?c ?r ?d)] =>
        apply C, (csr_modify_mode csr_set_bits c (is_zero r) (fun h => xget h r) d)
    | |- context [on_hart (run_csrrc ?c ?r ?d)] =>
        apply C, (csr_modify_mode csr_clear_bits c (is_zero r) (fun h => xget h r) d)
    | |- context [on_hart (run_csrrsi ?c ?v ?d)] =>
        apply C, (csr_modify_mode csr_set_bits c (Z.land v 0x1F =? 0) (fun _ => Z.land v 0x1F) d)
    | |- context [on_hart (run_csrrci ?c ?v ?d)] =>
        apply C, (csr_modify_mode csr_clear_bits c (Z.land v 0x1F =? 0) (fun _ => Z.land v 0x1F) d)
    | |- context [run_ecall] => unfold comp_bind, comp_get, comp_lift; by destruct (run_ecall _)
    | _ => first [ exact I | by apply R ]
    end.
Qed.

End Instr.
End InstrSpec.
Export InstrSpec.

(** Steps of the machine: the invariant of every reachable state, the absence of
    panics, interrupts and exceptions, and the composition of steps. *)
Module StepSpec.

(** The trap vectors leave room for the offsets of the vectored mode. *)
Definition vectors_ok (h : HartState) : Prop :=
  hcsr_read h mtvec < 2 ^ 64 - 64 /\ hcsr_read h stvec < 2 ^ 64 - 64.

#[export] Instance vectors_ok_dec h : Decision (vectors_ok h).
Proof. unfold vectors_ok. apply _. Defined.

Section Step.
Context `{Host} `{ML : MainMemoryLayout} `{!LayoutOk ML}.

(** The states a step leaves, and why it could panic. *)
Definition panic_reason (m : MachineState) : Prop :=
  ~ vectors_ok (hart m)
  \/ exists a m' i, next_instr_pc m = Ret a m' /\ fetch_instr m' a = Some (Ok i) /\ wide_srliw i.

Lemma set_bit_false_range x i : in_u 64 x -> 0 <= i -> in_u 64 (set_bit x i false).
Proof using Type.
  intros Hx Hi. unfold set_bit. replace (Z.clearbit x i) with (Z.land x (Z.clearbit (-1) i)).
  - by apply land_range.
  - apply Z.bits_inj'; intros j Hj. rewrite Z.land_spec, !Z.clearbit_spec' by lia.
    rewrite !Z.ldiff_spec, Z.bits_m1 by lia. bits_auto.
Qed.

(** Taking a pending interrupt. *)
Lemma address_on_interrupt_cases i m :
  machine_inv m ->
  match address_on_interrupt i m with
  | Ret a m' => machine_inv m' /\ in_u 64 a /\ bus m' = bus m
  | Throw _ _ => False
  | Panic => ~ vectors_ok (hart m)
  end.
Proof using Type.
  intros Hm. unfold address_on_interrupt, comp_bind, comp_get, comp_lift, comp_put, comp_ret.
  set (h := hcsr_write _ _ _).
  assert (Hh : hart_inv h).
  { apply hcsr_write_inv; [apply Hm |]. apply set_bit_false_range; [apply hcsr_read_range, Hm |].
    destruct i; cbn; lia. }
  pose proof (pc_range _ (proj1 Hm)) as Hp.
  destruct (take_trap h i (pc (hart m))) as [[a h']|] eqn:E; cbn [fst snd].
  - apply take_trap_inv in E as [Hi Ha]; try done. split; [by apply with_hart_inv | done].
  - intros Hv. destruct (wf_mode _ (proj1 Hh)) as [mo Hmo].
    pose proof (take_trap_total h i (pc (hart m)) mo Hh I Hp Hmo) as T.
    assert (V : forall r, r = mtvec \/ r = stvec -> is_Some (trap_handler_address i (hcsr_read h r))).
    { intros r Hr. apply trap_handler_total; [by apply hcsr_read_range |].
      destruct Hv as [V1 V2]. unfold h, hcsr_read, hcsr_write; cbn [csregisters with_csregisters].
      rewrite csr_read_write_ne; [destruct Hr as [-> | ->]; done | apply Hm |].
      destruct Hr as [-> | ->]; discriminate. }
    destruct (get_trap_mode (csregisters h) i mo); cbn [trap_registers] in T;
      destruct T as [? T]; (apply V; auto) || congruence.
Qed.

Lemma next_instr_pc_cases m :
  machine_inv m ->
  match next_instr_pc m with
  | Ret a m' => machine_inv m' /\ in_u 64 a /\ bus m' = bus m
  | Throw _ _ => False
  | Panic => ~ vectors_ok (hart m)
  end.
Proof using Type.
  intros Hm. unfold next_instr_pc, comp_bind, comp_get, comp_lift, get_pending_interrupt.
  destruct (wf_mode _ (proj1 (proj1 Hm))) as [mo ->]. cbv zeta.
  assert (N : machine_inv m /\ in_u 64 (pc (hart m)) /\ bus m = bus m)
    by (split; [done |]; split; [apply pc_range, Hm | done]).
  destruct (_ =? 0); [exact N |].
  destruct (find _ _) as [i|]; [by apply address_on_interrupt_cases | exact N].
Qed.

(** Taking an exception: the ones of the environment are thrown after the program
    counter is committed, the others are always trapped. *)
Lemma address_on_exception_cases e a m :
  machine_inv m -> exception_valid e -> in_u 64 a ->
  match address_on_exception e a m with
  | Ret a' m' => machine_inv m' /\ in_u 64 a' /\ bus m' = bus m /\ environ_try_from e = Err tt
  | Throw x m' => m' = with_hart m (with_pc (hart m) a) /\ as_exception x = e
  | Panic => False
  end.
Proof using Type.
  intros Hm He Ha. unfold address_on_exception, comp_bind, comp_get, comp_lift, comp_put, comp_ret, comp_throw.
  destruct (environ_try_from e) as [x | []] eqn:Ex.
  - split; [done |]. by destruct e; try discriminate Ex; injection Ex as <-.
  - destruct (wf_mode _ (proj1 (proj1 Hm))) as [mo Hmo].
    pose proof (take_trap_total (hart m) e a mo (proj1 Hm) He Ha Hmo) as T.
    destruct (take_trap (hart m) e a) as [[a' h']|] eqn:E; cbn [fst snd].
    + apply take_trap_inv in E as [Hi Ha']; try done; [|apply Hm]. split; [by apply with_hart_inv | done].
    + destruct (get_trap_mode _ _ _); cbn [trap_registers] in T; by destruct T.
Qed.

Lemma wide_srliw_panics i m : wide_srliw i -> run_instr i m = Panic.
Proof using Type.
  destruct i; try done. cbn [wide_srliw run_instr]. intros Hi.
  unfold run_i_type_instr, on_xregisters, comp_bind, run_srliw, checked_shr.
  rewrite (proj2 (Z.ltb_ge (i_imm args) 32)) by lia. by rewrite andb_false_r.
Qed.

(** Running the instruction at [a]. *)
Lemma pc_update_at_cases a m :
  machine_inv m -> in_u 64 a ->
  match pc_update_at a m with
  | Ret u m' => machine_inv m'
                /\ match u with Set_ x => in_u 64 x | Add_ w => w = 4 /\ in_u 64 (a + 4) end
  | Throw x m' => machine_inv m' /\ pc (hart m') = a
  | Panic => exists i, fetch_instr m a = Some (Ok i) /\ wide_srliw i
  end.
Proof using LayoutOk0.
  intros Hm Ha. unfold pc_update_at, run_instr_at, comp_bind at 1, comp_get.
  destruct (fetch_instr_spec m a Hm Ha) as (r & Er & Hr).
  unfold lift_option_result, comp_bind at 1, comp_lift, comp_bind at 1. rewrite Er.
  assert (X : forall e m', machine_inv m' -> exception_valid e ->
    match (let! a := address_on_exception e a in comp_ret (Set_ a)) m' with
    | Ret u m' => machine_inv m'
                  /\ match u with Set_ x => in_u 64 x | Add_ w => w = 4 /\ in_u 64 (a + 4) end
    | Throw x m' => machine_inv m' /\ pc (hart m') = a
    | Panic => exists i, fetch_instr m a = Some (Ok i) /\ wide_srliw i
    end).
  { intros e m' Hm' He. pose proof (address_on_exception_cases e a m' Hm' He Ha) as C.
    unfold comp_bind. destruct (address_on_exception e a m') as [a' m''|x m''|]; [| |done].
    - destruct C as (C1 & C2 & _). by split.
    - destruct C as [-> _]. split; [|done]. apply with_hart_inv; [done |].
      by apply with_pc_inv; [apply Hm' |]. }
  rewrite <- Er in *.
  destruct r as [i | e].
  - destruct (fetch_runnable m a i Hm Ha Er) as [Hi | Hi].
    + pose proof (run_instr_total i Hi m Hm) as T. cbn [lift_result comp_ret].
      destruct (run_instr i m) as [u m'|e m'|]; [| |done].
      * destruct T as [T1 T2]. split; [done |]. destruct u as [x|w]; [done |]. split; [done |].
        destruct Hr as [Hr%mapped_spec _]. pose proof BYTES_range.
        unfold start_of_main_memory, DEVICES_ADDRESS_SPACE_LENGTH, in_u in *. lia.
      * destruct T as [T1 T2]. by apply X.
    + cbn [lift_result comp_ret]. rewrite (wide_srliw_panics i m Hi). eauto.
  - cbn [lift_result comp_throw]. destruct Hr as [-> _]. by apply X.
Qed.

Lemma step_cases m :
  machine_inv m ->
  match step m with
  | Ret _ m' => machine_inv m'
  | Throw _ m' => machine_inv m'
  | Panic => panic_reason m
  end.
Proof using LayoutOk0.
  intros Hm. unfold step, comp_bind at 1. pose proof (next_instr_pc_cases m Hm) as N.
  destruct (next_instr_pc m) as [a m1|x m1|] eqn:E1; [|done |by left].
  destruct N as (H1 & Ha & _). pose proof (pc_update_at_cases a m1 H1 Ha) as U. unfold comp_bind at 1.
  destruct (pc_update_at a m1) as [u m2|x m2|].
  - destruct U as [H2 U]. unfold update_pc, comp_bind, comp_get, comp_put, comp_lift.
    destruct u as [t|w].
    + apply with_hart_inv; [done |]. by apply with_pc_inv; [apply H2 |].
    + destruct U as [-> U]. unfold checked_add. unfold in_u in U. rewrite (proj2 (Z.ltb_lt _ _)) by lia.
      apply with_hart_inv; [done |]. by apply with_pc_inv; [apply H2 |].
  - apply U.
  - right. destruct U as (i & Hf & Hi). by exists a, m1, i.
Qed.

(** ** Leaving the machine for the environment *)

Definition environ_mode (x : EnvironException) : Mode :=
  match x with
  | EEnvCallFromUMode => User
  | EEnvCallFromSMode => Supervisor
  | EEnvCallFromMMode => Machine
  end.

Lemma ecall_mode h e x :
  run_ecall h = Some e -> as_exception x = e -> mode_read (mode h) = Some (environ_mode x).
Proof using Type.
  unfold run_ecall. destruct (mode_read (mode h)) as [mo|]; [|done]. intros [= <-].
  by destruct mo, x.
Qed.

Lemma pc_update_at_throw a m x m' :
  machine_inv m -> in_u 64 a -> pc_update_at a m = Throw x m' ->
  fetch_instr m a = Some (Ok Ecall) /\ m' = with_hart m (with_pc (hart m) a)
  /\ mode_read (mode (hart m)) = Some (environ_mode x).
Proof using LayoutOk0.
  intros Hm Ha. unfold pc_update_at, run_instr_at, comp_bind at 1, comp_get.
  destruct (fetch_instr_spec m a Hm Ha) as (r & Er & Hr).
  unfold lift_option_result, comp_bind at 1, comp_lift, comp_bind at 1. rewrite Er.
  assert (X : forall e m2, machine_inv m2 -> exception_valid e ->
    (let! a := address_on_exception e a in comp_ret (Set_ a)) m2 = Throw x m' ->
    m' = with_hart m2 (with_pc (hart m2) a) /\ as_exception x = e).
  { intros e m2 H2 He. pose proof (address_on_exception_cases e a m2 H2 He Ha) as C.
    unfold comp_bind. destruct (address_on_exception e a m2); [done | | done].
    by intros [= -> ->]. }
  destruct r as [i | e]; cbn [lift_result comp_ret comp_throw].
  - destruct (fetch_runnable m a i Hm Ha Er) as [Hi | Hi].
    + pose proof (run_instr_total i Hi m Hm) as T. pose proof (run_instr_precise i m) as Q.
      destruct (run_instr i m) as [u m2|e m2|] eqn:Ei; [done | | done].
      destruct T as [T1 T2]. destruct Q as [-> Q]. intros Ex. destruct (X e m Hm T2 Ex) as [-> Ee].
      assert (i = Ecall) as ->.
      { destruct Q as [-> | Q]; [done |]. subst e. by destruct x. }
      split; [done |]. split; [done |]. cbn [run_instr] in Ei.
      unfold comp_bind, comp_get, comp_lift in Ei.
      destruct (run_ecall (hart m)) as [e'|] eqn:Ec; [|done]. injection Ei as ->. by eapply ecall_mode.
    + by rewrite (wide_srliw_panics i m Hi).
  - destruct Hr as [-> _]. intros Ex. destruct (X (InstructionAccessFault a) m Hm Ha Ex) as [_ Ee]. by destruct x.
Qed.

Lemma step_throw m x m' :
  machine_inv m -> step m = Throw x m' ->
  exists a m1, next_instr_pc m = Ret a m1 /\ fetch_instr m1 a = Some (Ok Ecall)
    /\ m' = with_hart m1 (with_pc (hart m1) a)
    /\ mode_read (mode (hart m')) = Some (environ_mode x).
Proof using LayoutOk0.
  intros Hm. unfold step, comp_bind at 1. pose proof (next_instr_pc_cases m Hm) as N.
  destruct (next_instr_pc m) as [a m1|y m1|] eqn:E1; [|done |done].
  destruct N as (H1 & Ha & _). unfold comp_bind at 1.
  destruct (pc_update_at a m1) as [u m2|y m2|] eqn:E2; [| |done].
  - unfold update_pc, comp_bind, comp_get, comp_lift, comp_put.
    destruct u; [done |]. by destruct (checked_add _ _ _).
  - intros [= -> ->]. apply pc_update_at_throw in E2 as (F & -> & Hmo); try done.
    exists a, m1. done.
Qed.

(** ** Interrupts *)

Lemma find_first {A} (f : A -> bool) l x :
  find f l = Some x <-> exists l1 l2, l = l1 ++ x :: l2 /\ f x = true /\ Forall (fun y => f y = false) l1.
Proof using Type.
  induction l as [|y l IH]; cbn [find].
  - split; [done |]. intros (l1 & l2 & E & _). by destruct l1.
  - destruct (f y) eqn:E.
    + split; [intros [= <-]; by exists [], l |]. intros (l1 & l2 & F & Fx & Fl).
      destruct l1 as [|z l1]; simplify_eq/=; [done |]. apply Forall_cons in Fl as [Fl _]. congruence.
    + rewrite IH. split; intros (l1 & l2 & F & Fx & Fl).
      * exists (y :: l1), l2. subst l. by repeat constructor.
      * destruct l1 as [|z l1]; simplify_eq/=; [congruence |].
        apply Forall_cons in Fl as [_ Fl]. eauto.
Qed.

(** An interrupt that is pending and can be taken in the current mode. *)
Definition interrupt_active (m : MachineState) (mo : Mode) (i : Interrupt) : bool :=
  Z.testbit (hcsr_read (hart m) mip) (exception_code i)
  && Z.testbit (possible_interrupts (csregisters (hart m)) mo) (exception_code i).

Lemma get_pending_interrupt_find m mo :
  mode_read (mode (hart m)) = Some mo ->
  get_pending_interrupt m = Some (find (interrupt_active m mo) interrupt_priority).
Proof using Type.
  intros Hmo. unfold get_pending_interrupt. rewrite Hmo. cbv zeta.
  assert (E : forall l, find (fun i => get_bit (Z.land (hcsr_read (hart m) mip)
      (possible_interrupts (csregisters (hart m)) mo)) (exception_code i)) l
    = find (interrupt_active m mo) l).
  { induction l as [|i l IH]; [done |]. cbn [find]. rewrite IH. unfold get_bit, interrupt_active.
    by rewrite Z.land_spec. }
  rewrite E. destruct (Z.eqb_spec (possible_interrupts (csregisters (hart m)) mo) 0) as [P | P]; [|done].
  f_equal. generalize interrupt_priority. induction l as [|i l IH]; [done |]. cbn [find].
  unfold interrupt_active at 1. by rewrite P, Z.bits_0, andb_false_r.
Qed.

(** Taking an interrupt does not move the program counter. *)
Lemma interrupt_keeps_pc m i a m1 :
  machine_inv m -> get_pending_interrupt m = Some (Some i) -> next_instr_pc m = Ret a m1 ->
  pc (hart m1) = pc (hart m).
Proof using Type.
  intros Hm Hi. unfold next_instr_pc, comp_bind, comp_get, comp_lift. rewrite Hi.
  unfold address_on_interrupt, comp_bind, comp_get, comp_lift, comp_put, comp_ret.
  set (h := hcsr_write _ _ _).
  assert (Hh : hart_inv h).
  { apply hcsr_write_inv; [apply Hm |]. apply set_bit_false_range; [apply hcsr_read_range, Hm |].
    destruct i; cbn; lia. }
  destruct (take_trap h i (pc (hart m))) as [[a' h']|] eqn:E; [|done]. intros [= <- <-].
  destruct (wf_mode _ (proj1 Hh)) as [mo Hmo].
  pose proof (take_trap_spec h i _ mo a' h' Hh I (pc_range _ (proj1 Hm)) Hmo E) as S. cbv zeta in S.
  destruct (trap_registers _) as [[[]]]. apply S.
Qed.

(** ** Several steps *)

(** [n] completed steps. *)
Inductive steps : nat -> MachineState -> MachineState -> Prop :=
| steps_O m : steps 0 m m
| steps_S n m m1 m' : step m = Ret tt m1 -> steps n m1 m' -> steps (S n) m m'.

Lemma step_many_from_spec {C} (f : C -> MachineState -> bool * C) left_ : forall k c m r c' m',
  step_many_from k left_ f c m = Some (r, c', m') ->
  exists n, smr_steps r = (k + n)%nat /\ (n <= left_)%nat
    /\ exists m1, steps n m m1
        /\ match smr_exception r with
           | None => m' = m1
           | Some e => step m1 = Throw e m' /\ (n < left_)%nat
           end.
Proof using Type.
  induction left_ as [|left_ IH]; intros k c m r c' m'; cbn [step_many_from].
  - intros [= <- <- <-]. exists 0%nat. split; [cbn; lia |]. split; [lia |]. exists m. split; [constructor | done].
  - destruct (f c m) as [[] c1].
    + destruct (step m) as [[] m1|e m1|] eqn:E; [| |done].
      * intros R. apply IH in R as (n & R1 & R2 & m2 & R3 & R4). exists (S n).
        split; [lia |]. split; [lia |]. exists m2. split; [by econstructor |].
        destruct (smr_exception r); [|done]. split; [apply R4 | lia].
      * intros [= <- <- <-]. exists 0%nat. split; [cbn; lia |]. split; [lia |]. exists m.
        split; [constructor |]. cbn [smr_exception]. split; [done | lia].
    + intros [= <- <- <-]. exists 0%nat. split; [cbn; lia |]. split; [lia |]. exists m. split; [constructor | done].
Qed.

(** The counter only offsets the result. *)
Lemma step_many_from_shift {C} (f : C -> MachineState -> bool * C) left_ : forall k c m,
  step_many_from k left_ f c m
  = match step_many_from 0 left_ f c m with
    | Some (r, c', m') => Some (mkStepManyResult (k + smr_steps r) (smr_exception r), c', m')
    | None => None
    end.
Proof using Type.
  induction left_ as [|left_ IH]; intros k c m; cbn [step_many_from].
  - by rewrite Nat.add_0_r.
  - destruct (f c m) as [[] c1]; [|by rewrite Nat.add_0_r].
    destruct (step m) as [u m1|e m1|]; [|by rewrite Nat.add_0_r | done].
    rewrite (IH (S k)), (IH 1%nat). destruct (step_many_from 0 left_ f c1 m1) as [[[r c2] m2]|]; [|done].
    do 3 f_equal. cbn [smr_steps smr_exception]. f_equal. lia.
Qed.

Lemma step_many_from_app {C} (f : C -> MachineState -> bool * C) n k : forall c m,
  step_many_from 0 (n + k) f c m
  = match step_many_from 0 n f c m with
    | Some (r, c', m') =>
        match smr_exception r with
        | None =>
            if (smr_steps r =? n)%nat then
              match step_many_from 0 k f c' m' with
              | Some (r', c'', m'') => Some (mkStepManyResult (n + smr_steps r') (smr_exception r'), c'', m'')
              | None => None
              end
            else Some (r, c', m')
        | Some _ => Some (r, c', m')
        end
    | None => None
    end.
Proof using Type.
  induction n as [|n IH]; intros c m.
  - cbn [Nat.add step_many_from smr_exception smr_steps Nat.eqb].
    destruct (step_many_from 0 k f c m) as [[[[] c2] m2]|]; done.
  - cbn [Nat.add step_many_from]. destruct (f c m) as [[] c1]; [|done].
    destruct (step m) as [u m1|e m1|]; [|done | done].
    rewrite (step_many_from_shift f (n + k) 1), (step_many_from_shift f n 1), IH.
    destruct (step_many_from 0 n f c1 m1) as [[[r c2] m2]|]; [|done].
    destruct (smr_exception r) as [e|] eqn:Ee; cbn [smr_exception smr_steps Nat.add Nat.eqb];
      [by destruct r; cbn in *; subst |].
    destruct (smr_steps r =? n)%nat; [|by destruct r; cbn in *; subst].
    by destruct (step_many_from 0 k f c2 m2) as [[[r3 c3] m3]|].
Qed.

End Step.
End StepSpec.
Export StepSpec.
