(* ===== verification/MachineProps.v ===== *)
(** The properties of the machine: the instruction set is implemented, every
    reachable state is well-formed, exceptions are precise, privileges do not leak,
    interrupts have their priorities, steps compose. *)

From S2P Require Import Prelude Region Registers Mode Traps CSRFields CSRegisters Instruction Parser Encode HartState Bus RvI RvM RvSystem TrapSpec Isa Machine MachineSpec InstrSpec.

Module MachineProps.

(** ** A sample machine for the witnesses *)
Definition zero_bus : Bus := mkBus (mkDevices [0]) (mkMainMemory ∅).

Lemma zero_bus_wf : bus_wf zero_bus.
Proof.
  split; [done |]. intros a. unfold byte_at, DynRegion.get. cbn [zero_bus memory data].
  rewrite lookup_empty. unfold in_u; cbn; lia.
Qed.

Definition zero_machine : MachineState := mkMachine zero_hart zero_bus.

Definition boot_machine : MachineState := mkMachine boot_hart zero_bus.

Lemma boot_machine_inv : machine_inv boot_machine.
Proof. split; [apply boot_hart_inv | apply zero_bus_wf]. Qed.

(** The sample machine with code at the start of its memory. *)
Definition boot_with (code : list Z) : MachineState :=
  mkMachine boot_hart (store_bytes zero_bus start_of_main_memory code).

Lemma boot_with_inv code : Forall (in_u 8) code -> machine_inv (boot_with code).
Proof. intros Hc. split; [apply boot_hart_inv | apply store_bytes_wf; [apply zero_bus_wf | done]]. Qed.

(** ** The instruction set *)

Section Props.
Context `{Host} `{ML : MainMemoryLayout} `{!LayoutOk ML}.

(** C20: every register-register instruction writes to [rd] the
    two's complement encoding of the result the instruction set gives for the signed
    values of its operands (all 19 operations: arithmetic, logic, shifts, comparisons,
    remainders and their 32-bit variants), changes nothing else, and advances the
    program counter by four. *)
Theorem register_instructions_isa i op args m :
  machine_inv m -> r_op i = Some (op, args) ->
  run_instr i m
  = Ret (Add_ 4) (with_hart m (xset (hart m) (r_rd args)
      (wrap 64 (isa_alu op (sint 64 (xget (hart m) (r_rs1 args)))
                           (sint 64 (xget (hart m) (r_rs2 args))))))).
Proof using Type. apply run_r_isa. Qed.

(** C21: every register-immediate instruction with an immediate the
    instruction set defines writes to [rd] the reference result on the signed value of
    its operand and the immediate. *)
Theorem immediate_instructions_isa i op args m :
  machine_inv m -> i_op i = Some (op, args) -> imm_defined i ->
  run_instr i m
  = Ret (Add_ 4) (with_hart m (xset (hart m) (i_rd args)
      (wrap 64 (isa_alu op (sint 64 (xget (hart m) (i_rs1 args))) (i_imm args))))).
Proof using Type. apply run_i_isa. Qed.

(** A load from mapped memory writes to [rd] the sign- or
    zero-extended value of the bytes at [rs1 + imm] and advances by four; from
    unmapped memory it raises a load access fault with that address and changes
    nothing. *)
Theorem load_instructions i size signed args m :
  load_op i = Some (size, signed, args) ->
  run_instr i m
  = (let a := wrap 64 (xget (hart m) (i_rs1 args) + i_imm args) in
     if mapped a (Z.of_nat size)
     then Ret (Add_ 4) (with_hart m (xset (hart m) (i_rd args)
            (extend signed size (DynRegion.host_value host (load_bytes (bus m) a size)))))
     else Throw (LoadAccessFault a) m).
Proof using LayoutOk0. apply run_load_spec. Qed.

(** A store to mapped memory replaces exactly the bytes at
    [rs1 + imm] by the low bytes of [rs2]; to unmapped memory it raises a store access
    fault with that address and changes nothing. *)
Theorem store_instructions i size args m :
  store_op i = Some (size, args) ->
  run_instr i m
  = (let a := wrap 64 (xget (hart m) (sb_rs1 args) + sb_imm args) in
     if mapped a (Z.of_nat size)
     then Ret (Add_ 4) (mkMachine (hart m) (store_bytes (bus m) a
            (DynRegion.host_bytes host size (xget (hart m) (sb_rs2 args)))))
     else Throw (StoreAccessFault a) m).
Proof using LayoutOk0. apply run_store_spec. Qed.

(** A branch goes to [pc + imm] when its condition holds on the
    (signed or unsigned) values of its operands, to [pc + 4] otherwise, and changes no
    state. *)
Theorem branch_instructions i cond args m :
  machine_inv m -> branch_op i = Some (cond, args) ->
  run_instr i m
  = Ret (Set_ (wrap 64 (pc (hart m) +
      (if cond (sint 64 (xget (hart m) (sb_rs1 args))) (sint 64 (xget (hart m) (sb_rs2 args)))
       then sb_imm args else 4)))) m.
Proof using Type. apply run_branch_spec. Qed.

(** C31: an instruction that raises an exception leaves the machine
    exactly as it was, and only [ECALL] raises an exception for the environment. *)
Theorem exceptions_are_precise i m e m' :
  run_instr i m = Throw e m' -> m' = m /\ (i = Ecall \/ environ_try_from e = Err tt).
Proof using LayoutOk0. intros E. pose proof (run_instr_precise i m) as P. by rewrite E in P. Qed.

(** C32: no instruction that completes leaves the hart in a more
    privileged mode; only traps do. *)
Theorem no_privilege_escalation i m u m' mo mo' :
  run_instr i m = Ret u m' ->
  mode_read (mode (hart m)) = Some mo -> mode_read (mode (hart m')) = Some mo' ->
  mode_le mo' mo = true.
Proof using LayoutOk0. intros E. pose proof (run_instr_mode i m) as P. rewrite E in P. apply P. Qed.

(** ** Steps *)

(** C2: a step from a well-formed machine ends in a well-formed
    machine, whether it completes or leaves for the environment; it panics only when the
    base of a trap vector lies in the last 64 bytes of the address space ([vectors_ok] fails),
    where the offset of an interrupt can overflow, or when a [SRLIW] with a shift amount above
    31 is fetched. *)
Theorem step_keeps_invariant m :
  machine_inv m ->
  match step m with
  | Ret _ m' => machine_inv m'
  | Throw _ m' => machine_inv m'
  | Panic =>
      ~ vectors_ok (hart m)
      \/ exists a m' i, next_instr_pc m = Ret a m' /\ fetch_instr m' a = Some (Ok i) /\ wide_srliw i
  end.
Proof using LayoutOk0. apply step_cases. Qed.

(** The states a machine can be in: after any number of steps, taken up again
    after each exit to the environment. *)
Inductive reachable (m0 : MachineState) : MachineState -> Prop :=
| reach_start : reachable m0 m0
| reach_step m m' : reachable m0 m -> step m = Ret tt m' -> reachable m0 m'
| reach_environ m e m' : reachable m0 m -> step m = Throw e m' -> reachable m0 m'.

(** C19: from a machine with registers and memory of the right
    sizes, a reset succeeds, starts in M-mode at the start of a zeroed main memory, and
    every state reachable from it is well-formed: registers are 64-bit values, control
    registers hold values their field rules allow, the mode byte is a mode. *)
Theorem reset_reachable_invariant m :
  hart_wf (hart m) -> bus_wf (bus m) ->
  exists m0, machine_reset m = Some m0
    /\ pc (hart m0) = start_of_main_memory /\ mode_read (mode (hart m0)) = Some Machine
    /\ (forall r, xget (hart m0) r = 0)
    /\ (forall a, mapped a 1 = true -> byte_at (bus m0) a = 0)
    /\ forall m', reachable m0 m' -> machine_inv m'.
Proof using LayoutOk0.
  intros Hh Hb. unfold machine_reset. destruct (bus_reset_spec (bus m) Hb) as (b' & -> & Hb' & _ & Hz).
  eexists. split; [reflexivity |]. cbn [hart bus].
  assert (Hi : hart_inv (hart_reset (hart m) start_of_main_memory)).
  { apply hart_reset_inv; [done |]. unfold in_u, start_of_main_memory, DEVICES_ADDRESS_SPACE_LENGTH. lia. }
  split; [reflexivity |]. split; [apply mode_read_write |]. split.
  { intros r. unfold xget, hart_reset; cbn [xregisters]. rewrite xreset_spec by apply Hh.
    by destruct r. }
  split; [intros a Ha; by rewrite Hz, Ha |].
  intros m' Hr. induction Hr as [|m1 m2 _ IH E|m1 e m2 _ IH E]; [done | |];
    pose proof (step_cases m1 IH) as C; by rewrite E in C.
Qed.

(** A step leaves for the environment exactly at an [ECALL]:
    the program counter is that of the [ECALL] (after an interrupt, if one was pending),
    nothing else has changed, and the exception names the mode the hart is in. *)
Theorem environment_exits_at_ecall m x m' :
  machine_inv m -> step m = Throw x m' ->
  exists a m1, next_instr_pc m = Ret a m1 /\ fetch_instr m1 a = Some (Ok Ecall)
    /\ m' = with_hart m1 (with_pc (hart m1) a)
    /\ mode_read (mode (hart m')) = Some (environ_mode x).
Proof using LayoutOk0. apply step_throw. Qed.

(** The pending interrupt that is taken is enabled for
    the current mode and pending in [mip], and no interrupt of a higher priority (in the
    order MEI, MSI, MTI, SEI, SSI, STI) is; none is taken only if none is active. *)
Theorem pending_interrupt_has_priority m mo :
  mode_read (mode (hart m)) = Some mo ->
  exists r, get_pending_interrupt m = Some r /\
    match r with
    | Some i => exists higher lower,
        [MachineExternal; MachineSoftware; MachineTimer; SupervisorExternal; SupervisorSoftware;
         SupervisorTimer] = higher ++ i :: lower
        /\ interrupt_active m mo i = true
        /\ Forall (fun j => interrupt_active m mo j = false) higher
    | None => forall i, interrupt_active m mo i = false
    end.
Proof using Type.
  intros Hm. rewrite (get_pending_interrupt_find m mo Hm). eexists. split; [reflexivity |].
  destruct (find _ _) as [i|] eqn:E; [by apply find_first in E |].
  intros i. apply (find_none _ _ E). destruct i; cbn; tauto.
Qed.

(** When a step takes an interrupt, the program counter
    the first instruction of the handler sees is still the interrupted one: a [JAL] in
    the handler's first slot jumps relative to the interrupted program counter, and links
    to the instruction after it. *)
Theorem interrupt_handler_sees_interrupted_pc m i a m1 args :
  machine_inv m -> get_pending_interrupt m = Some (Some i) -> next_instr_pc m = Ret a m1 ->
  fetch_instr m1 a = Some (Ok (Jal args)) ->
  exists m', step m = Ret tt m'
    /\ pc (hart m') = wrap 64 (pc (hart m) + uj_imm args)
    /\ xget (hart m') (uj_rd args)
       = if is_zero (uj_rd args) then 0 else wrap 64 (pc (hart m) + 4).
Proof using LayoutOk0.
  intros Hm Hi Hn Hf.
  assert (Hpc : pc (hart m1) = pc (hart m)) by (by eapply interrupt_keeps_pc).
  pose proof (next_instr_pc_cases m Hm) as C. rewrite Hn in C. destruct C as (H1 & Ha & _).
  unfold step, comp_bind at 1. rewrite Hn. unfold comp_bind at 1, pc_update_at, run_instr_at, comp_bind at 1,
    comp_get, lift_option_result. unfold comp_bind at 1, comp_lift, comp_bind at 1. rewrite Hf.
  cbn [lift_result comp_ret run_instr]. unfold comp_bind, comp_get, run_jal, run_jal_impl, comp_put, update_pc.
  eexists. split; [reflexivity |]. cbn [hart with_hart with_pc pc]. rewrite wrap_add_r, Hpc.
  split; [done |]. unfold xget, xset; cbn [xregisters with_xregisters with_pc].
  rewrite xread_xwrite by apply H1. destruct (is_zero (uj_rd args)) eqn:Z.
  - apply is_zero_true in Z. rewrite Z. rewrite decide_False by tauto. done.
  - rewrite decide_True; [done |]. split; [done |]. intros E. by rewrite E in Z.
Qed.

(** [step_many] runs at most [max] steps, and the
    number it returns is the number of steps that completed: the final state is the
    result of exactly that many steps, followed, when an exception is reported, by the
    one that left for the environment. *)
Theorem step_many_counts_steps {C} max (f : C -> MachineState -> bool * C) c m r c' m' :
  step_many max f c m = Some (r, c', m') ->
  (smr_steps r <= max)%nat
  /\ exists m1, steps (smr_steps r) m m1
     /\ match smr_exception r with
        | None => m' = m1
        | Some e => step m1 = Throw e m' /\ (smr_steps r < max)%nat
        end.
Proof using Type.
  unfold step_many. intros E. apply step_many_from_spec in E as (n & E1 & E2 & m1 & S & X).
  rewrite Nat.add_0_l in E1. subst. split; [done |]. exists m1. split; [done |]. by case_match.
Qed.

(** Running [n + k] steps is running [n] steps and, if
    all of them completed, [k] more. *)
Theorem step_many_composes {C} n k (f : C -> MachineState -> bool * C) c m :
  step_many (n + k) f c m
  = match step_many n f c m with
    | Some (r, c', m') =>
        match smr_exception r with
        | None =>
            if (smr_steps r =? n)%nat then
              match step_many k f c' m' with
              | Some (r', c'', m'') => Some (mkStepManyResult (n + smr_steps r') (smr_exception r'), c'', m'')
              | None => None
              end
            else Some (r, c', m')
        | Some _ => Some (r, c', m')
        end
    | None => None
    end.
Proof using Type. apply step_many_from_app. Qed.

End Props.

(** ** Witnesses *)

#[local] Instance little : Host := LittleEndian.
#[local] Existing Instance M1K.

Lemma register_instructions_isa_witness :
  run_instr (Sraw (mkR x5 x6 x7)) boot_machine
  = Ret (Add_ 4) (with_hart boot_machine (xset (hart boot_machine) x5
      (wrap 64 (isa_alu SRAW (sint 64 (xget (hart boot_machine) x6))
                             (sint 64 (xget (hart boot_machine) x7)))))).
Proof.
  exact (register_instructions_isa (H := little) (ML := M1K) (Sraw (mkR x5 x6 x7)) SRAW (mkR x5 x6 x7) boot_machine
    boot_machine_inv eq_refl).
Defined.

Lemma immediate_instructions_isa_witness :
  run_instr (Addiw (mkI x5 x6 (-7))) boot_machine
  = Ret (Add_ 4) (with_hart boot_machine (xset (hart boot_machine) x5
      (wrap 64 (isa_alu ADDW (sint 64 (xget (hart boot_machine) x6)) (-7))))).
Proof.
  apply (immediate_instructions_isa (H := little) (ML := M1K) (Addiw (mkI x5 x6 (-7))) ADDW (mkI x5 x6 (-7)) boot_machine
    boot_machine_inv eq_refl). split; [cbn; unfold in_s; lia | exact I].
Defined.

(** Address 16 belongs to the devices: the load faults. *)
Lemma load_instructions_witness :
  exists o, run_instr (Lh (mkI x5 x0 16)) boot_machine = o
    /\ o = Throw (LoadAccessFault 16) boot_machine.
Proof.
  eexists. split; [exact (load_instructions (H := little) (ML := M1K) (Lh (mkI x5 x0 16)) 2 true (mkI x5 x0 16) boot_machine eq_refl) |].
  reflexivity.
Defined.

Lemma store_instructions_witness :
  exists o, run_instr (Sd (mkSB x0 x5 16)) boot_machine = o
    /\ o = Throw (StoreAccessFault 16) boot_machine.
Proof.
  eexists. split; [exact (store_instructions (H := little) (ML := M1K) (Sd (mkSB x0 x5 16)) 8 (mkSB x0 x5 16) boot_machine eq_refl) |].
  reflexivity.
Defined.

Lemma branch_instructions_witness :
  run_instr (Bge (mkSB x5 x6 (-16))) boot_machine
  = Ret (Set_ (wrap 64 (pc (hart boot_machine) +
      (if sint 64 (xget (hart boot_machine) x5) >=? sint 64 (xget (hart boot_machine) x6)
       then -16 else 4)))) boot_machine.
Proof.
  exact (branch_instructions (H := little) (ML := M1K) (Bge (mkSB x5 x6 (-16))) Z.geb (mkSB x5 x6 (-16)) boot_machine
    boot_machine_inv eq_refl).
Defined.

Lemma exceptions_are_precise_witness :
  run_instr Ebreak boot_machine = Throw Breakpoint boot_machine
  /\ boot_machine = boot_machine /\ (Ebreak = Ecall \/ environ_try_from Breakpoint = Err tt).
Proof.
  split; [reflexivity |].
  exact (exceptions_are_precise (H := little) (ML := M1K) Ebreak boot_machine Breakpoint boot_machine eq_refl).
Defined.

Lemma no_privilege_escalation_witness :
  run_instr Wfi boot_machine = Ret (Add_ 4) boot_machine /\ mode_le Machine Machine = true.
Proof.
  split; [reflexivity |].
  apply (no_privilege_escalation (H := little) (ML := M1K) Wfi boot_machine (Add_ 4) boot_machine); [reflexivity | |];
    apply mode_read_write.
Defined.

Lemma step_keeps_invariant_witness :
  machine_inv boot_machine
  /\ exists o, o = step boot_machine /\
     match o with
     | Ret _ m' => machine_inv m'
     | Throw _ m' => machine_inv m'
     | Panic =>
         ~ vectors_ok (hart boot_machine)
         \/ exists a m' i, next_instr_pc boot_machine = Ret a m'
             /\ fetch_instr m' a = Some (Ok i) /\ wide_srliw i
     end.
Proof.
  split; [apply boot_machine_inv |]. eexists. split; [reflexivity |].
  exact (step_keeps_invariant (H := little) (ML := M1K) boot_machine boot_machine_inv).
Defined.

Lemma reset_reachable_invariant_witness :
  exists m0, machine_reset zero_machine = Some m0
    /\ pc (hart m0) = start_of_main_memory /\ mode_read (mode (hart m0)) = Some Machine
    /\ (forall r, xget (hart m0) r = 0)
    /\ (forall a, mapped a 1 = true -> byte_at (bus m0) a = 0)
    /\ forall m', reachable m0 m' -> machine_inv m'.
Proof. exact (reset_reachable_invariant (H := little) (ML := M1K) zero_machine zero_hart_wf zero_bus_wf). Defined.

(** An [ECALL] at the start of the memory. *)
Definition ecall_machine : MachineState := boot_with [0x73; 0; 0; 0].

Lemma ecall_machine_inv : machine_inv ecall_machine.
Proof. apply boot_with_inv. repeat constructor; unfold in_u; lia. Qed.

Lemma ecall_machine_step : exists m', step ecall_machine = Throw EEnvCallFromMMode m'.
Proof.
  assert (F : match step ecall_machine with Throw EEnvCallFromMMode _ => true | _ => false end = true)
    by (vm_compute; reflexivity).
  destruct (step ecall_machine) as [u m'|[] m'|]; try discriminate F. by exists m'.
Qed.

Lemma environment_exits_at_ecall_witness :
  exists m' a m1, step ecall_machine = Throw EEnvCallFromMMode m'
    /\ next_instr_pc ecall_machine = Ret a m1 /\ fetch_instr m1 a = Some (Ok Ecall)
    /\ m' = with_hart m1 (with_pc (hart m1) a)
    /\ mode_read (mode (hart m')) = Some Machine.
Proof.
  destruct ecall_machine_step as [m' E].
  destruct (environment_exits_at_ecall (H := little) (ML := M1K) ecall_machine EEnvCallFromMMode m' ecall_machine_inv E)
    as (a & m1 & H1 & H2 & H3 & H4).
  exists m', a, m1. split; [exact E | split; [exact H1 | split; [exact H2 | split; [exact H3 | exact H4]]]].
Defined.

Lemma pending_interrupt_has_priority_witness :
  exists r, get_pending_interrupt boot_machine = Some r /\
    match r with
    | Some i => exists higher lower,
        [MachineExternal; MachineSoftware; MachineTimer; SupervisorExternal; SupervisorSoftware;
         SupervisorTimer] = higher ++ i :: lower
        /\ interrupt_active boot_machine Machine i = true
        /\ Forall (fun j => interrupt_active boot_machine Machine j = false) higher
    | None => forall i, interrupt_active boot_machine Machine i = false
    end.
Proof.
  exact (pending_interrupt_has_priority boot_machine Machine (mode_read_write _ Machine)).
Defined.

(** A hart in U-mode with a machine timer interrupt pending, delegated to S-mode,
    and a handler that starts with a jump eight bytes ahead. *)
Definition interrupted_machine : MachineState :=
  mkMachine
    (with_mode (hcsr_write (hcsr_write boot_hart mip 0x80) stvec 0x80000010) (mode_write 0 User))
    (store_bytes zero_bus 0x80000010 (le_bytes 4 (encode (Jal (mkUJ x1 8))))).

Lemma interrupted_machine_inv : machine_inv interrupted_machine.
Proof.
  split.
  - apply (with_mode_inv (hcsr_write _ _ _)). repeat apply hcsr_write_inv;
      [apply boot_hart_inv | unfold in_u; lia | unfold in_u; lia].
  - apply store_bytes_wf; [apply zero_bus_wf | apply le_bytes_ok].
Qed.

Lemma interrupted_machine_next :
  exists a m1, next_instr_pc interrupted_machine = Ret a m1
    /\ fetch_instr m1 a = Some (Ok (Jal (mkUJ x1 8))).
Proof.
  assert (F : match next_instr_pc interrupted_machine with
              | Ret a m1 => match fetch_instr m1 a with
                            | Some (Ok (Jal (mkUJ x1 8))) => true | _ => false end
              | _ => false end = true) by (vm_compute; reflexivity).
  destruct (next_instr_pc interrupted_machine) as [a m1|e m1|]; [|discriminate F | discriminate F].
  exists a, m1. split; [reflexivity |].
  repeat (let E := fresh in match type of F with context [match ?x with _ => _ end] =>
    destruct x eqn:E; try discriminate F end).
  reflexivity.
Qed.

Lemma interrupt_handler_sees_interrupted_pc_witness :
  exists m', step interrupted_machine = Ret tt m'
    /\ pc (hart m') = wrap 64 (pc (hart interrupted_machine) + 8)
    /\ xget (hart m') x1 = wrap 64 (pc (hart interrupted_machine) + 4).
Proof.
  destruct interrupted_machine_next as (a & m1 & E & F).
  apply (interrupt_handler_sees_interrupted_pc (H := little) (ML := M1K) interrupted_machine
    MachineTimer a m1 (mkUJ x1 8)).
  - exact interrupted_machine_inv.
  - vm_compute. reflexivity.
  - exact E.
  - exact F.
Defined.

Lemma step_many_counts_steps_witness :
  exists r c' m', step_many (C := nat) 5 (fun c _ => (true, S c)) 0%nat ecall_machine = Some (r, c', m')
    /\ (smr_steps r <= 5)%nat.
Proof.
  assert (F : match step_many (C := nat) 5 (fun c _ => (true, S c)) 0%nat ecall_machine with
              | Some _ => true | None => false end = true) by (vm_compute; reflexivity).
  destruct (step_many (C := nat) 5 (fun c _ => (true, S c)) 0%nat ecall_machine) as [[[r c'] m']|] eqn:E;
    [|discriminate F].
  exists r, c', m'. split; [reflexivity |].
  exact (proj1 (step_many_counts_steps (H := little) (ML := M1K) (C := nat) 5 (fun c _ => (true, S c))
    0%nat ecall_machine r c' m' E)).
Defined.

End MachineProps.
Export MachineProps.
