(* ===== verification/ExecEnv.v ===== *)
(** Execution environments ([src/src/risc_v/interpreter/src/exec_env.rs] and
    [exec_env/posix.rs]): the interface through which the machine leaves for its
    environment, and the Posix environment. *)

From S2P Require Import Prelude Region Registers Mode Traps CSRFields CSRegisters HartState Bus RvI RvM RvSystem TrapSpec Machine MachineSpec InstrSpec MachineProps.

Module ExecEnv.

(** Outcome of handling an ECALL. *)
Inductive EcallOutcome : Type :=
| Fatal
| Handled (continue_eval : bool).

(** The trait [ExecutionEnvironmentState]; [None] is a panic. *)
Class ExecutionEnvironmentState (S : Type) := {
  ee_reset : S -> S;
  handle_call : S -> MachineState -> EnvironException -> option (EcallOutcome * S * MachineState)
}.

(** What the clients rely on of an environment: an invariant of its state that a
    reset establishes, under which a call succeeds and keeps the machine well-formed. *)
Class EnvironmentOk (S : Type) `{ExecutionEnvironmentState S} := {
  ee_wf : S -> Prop;
  ee_typed : S -> Prop;
  ee_reset_wf : forall s, ee_typed s -> ee_wf (ee_reset s);
  handle_call_ok : forall s m e,
    ee_wf s -> machine_inv m ->
    exists o s' m', handle_call s m e = Some (o, s', m') /\ ee_wf s' /\ machine_inv m'
}.

(** ** Posix *)
Record PosixState : Type := mkPosix { exited : Z; code : Z; exit_mode : Z }.

Definition is_exited (s : PosixState) : bool := 0 <? exited s.

Definition exit_code (s : PosixState) : option Z := if is_exited s then Some (code s) else None.

Definition set_exit_mode (s : PosixState) (m : Mode) : PosixState :=
  mkPosix (exited s) (code s) (mode_write (exit_mode s) m).

Definition posix_reset (s : PosixState) : PosixState := mkPosix 0 0 (mode_write (exit_mode s) Machine).

(** [exited.saturating_add(1)] on a [u8]. *)
Definition saturating_succ8 (x : Z) : Z := Z.min 255 (x + 1).

Definition posix_handle_call (self : PosixState) (machine : MachineState)
    (env_exception : EnvironException) : option (EcallOutcome * PosixState * MachineState) :=
  if is_exited self then Some (Fatal, self, machine)
  else
    let source_exception := as_exception env_exception in
    let source_mode :=
      match env_exception with
      | EEnvCallFromUMode => User
      | EEnvCallFromSMode => Supervisor
      | EEnvCallFromMMode => Machine
      end in
    let? exit_mode_val := mode_read (exit_mode self) in
    if negb (bool_decide (source_mode = exit_mode_val)) then
      let return_pc := pc (hart machine) in
      let? ah := take_trap (hart machine) source_exception return_pc in
      Some (Handled true, self, with_hart machine (with_pc ah.2 ah.1))
    else
      let syscall_number := xget (hart machine) a7 in
      switch syscall_number
        [(93,
          let self := mkPosix (saturating_succ8 (exited self)) (code self) (exit_mode self) in
          let self := mkPosix (exited self) (xget (hart machine) a0) (exit_mode self) in
          Some (Handled false, self, machine))]
        (Some (Fatal, self, machine)).

#[export] Instance posix_environment : ExecutionEnvironmentState PosixState := {
  ee_reset := posix_reset;
  handle_call := posix_handle_call
}.

(** ** Properties *)

Definition posix_typed (s : PosixState) : Prop := in_u 8 (exited s) /\ in_u 64 (code s).

Definition posix_wf (s : PosixState) : Prop := posix_typed s /\ mode_wf (exit_mode s).

(** Every environment call can be taken as a trap. *)
Lemma environ_trap_total m e :
  machine_inv m ->
  exists a h', take_trap (hart m) (as_exception e) (pc (hart m)) = Some (a, h')
    /\ hart_inv h' /\ in_u 64 a.
Proof.
  intros Hm. destruct (wf_mode _ (proj1 (proj1 Hm))) as [mo Hmo].
  assert (V : exception_valid (as_exception e)) by (destruct e; unfold exception_valid, in_u; cbn; lia).
  pose proof (pc_range _ (proj1 Hm)) as Hp.
  pose proof (take_trap_total (hart m) (as_exception e) _ mo (proj1 Hm) V Hp Hmo) as T.
  destruct (trap_registers _) as [[[]]]. destruct T as [[a h'] T]; [by eexists |].
  exists a, h'. split; [done |].
  exact (take_trap_inv (hart m) (as_exception e) (pc (hart m)) a h' (proj1 Hm) V Hp T).
Qed.

(** The four ways a call ends. *)
Lemma posix_handle_call_spec s m e :
  posix_wf s -> machine_inv m ->
  posix_handle_call s m e =
    if is_exited s then Some (Fatal, s, m)
    else if negb (bool_decide (mode_read (exit_mode s) = Some (environ_mode e))) then
      match take_trap (hart m) (as_exception e) (pc (hart m)) with
      | Some (a, h') => Some (Handled true, s, with_hart m (with_pc h' a))
      | None => None
      end
    else if xget (hart m) a7 =? 93 then
      Some (Handled false, mkPosix 1 (xget (hart m) a0) (exit_mode s), m)
    else Some (Fatal, s, m).
Proof.
  intros [[He _] [mo Hmo]] Hm. unfold posix_handle_call. rewrite Hmo. destruct (is_exited s) eqn:E; [done |].
  assert (Ex : exited s = 0) by (unfold is_exited, in_u in *; lia). cbv zeta. cbn [switch].
  replace (bool_decide (match e with EEnvCallFromUMode => User | EEnvCallFromSMode => Supervisor
    | EEnvCallFromMMode => Machine end = mo)) with (bool_decide (Some mo = Some (environ_mode e)))
    by (destruct e, mo; reflexivity).
  destruct (negb _); [by destruct (take_trap _ _ _) as [[]|] |].
  destruct (_ =? 93); [|done]. cbn [exited code exit_mode]. by rewrite Ex.
Qed.

#[export] Instance posix_ok : EnvironmentOk PosixState.
Proof.
  refine {| ee_wf := posix_wf; ee_typed := posix_typed |}.
  - intros s Hs. split; [split; unfold in_u; cbn; lia | apply mode_write_wf].
  - intros s m e Hs Hm. change (@handle_call PosixState _) with posix_handle_call.
    rewrite posix_handle_call_spec by done. destruct (is_exited s); [by eauto 8 |].
    destruct (negb _).
    + destruct (environ_trap_total m e Hm) as (a & h' & -> & Hh & Ha). do 3 eexists. split; [done |].
      split; [done |]. apply with_hart_inv; [done |]. by apply with_pc_inv.
    + destruct (_ =? 93); [|by eauto 8]. do 3 eexists. split; [done |]. split; [|done].
      split; [split |]; [unfold in_u; cbn; lia | apply xget_range, Hm | apply Hs].
Defined.

(** A call from another mode than the exit mode is trapped back
    into the machine; from the exit mode, syscall 93 records the exit code in [a0] and
    stops, any other one is fatal; after an exit every call is fatal.  The state of the
    environment and the machine change in no other way. *)
Theorem posix_calls s m e :
  posix_wf s -> machine_inv m ->
  handle_call s m e =
    if is_exited s then Some (Fatal, s, m)
    else if negb (bool_decide (mode_read (exit_mode s) = Some (environ_mode e))) then
      match take_trap (hart m) (as_exception e) (pc (hart m)) with
      | Some (a, h') => Some (Handled true, s, with_hart m (with_pc h' a))
      | None => None
      end
    else if xget (hart m) a7 =? 93 then
      Some (Handled false, mkPosix 1 (xget (hart m) a0) (exit_mode s), m)
    else Some (Fatal, s, m).
Proof. apply posix_handle_call_spec. Qed.

Definition boot_posix : PosixState := mkPosix 0 0 (mode_code Machine).

Lemma boot_posix_wf : posix_wf boot_posix.
Proof. split; [split; unfold in_u; cbn; lia | by eexists]. Qed.

Lemma posix_calls_witness :
  handle_call boot_posix boot_machine EEnvCallFromMMode = Some (Fatal, boot_posix, boot_machine).
Proof.
  rewrite (posix_calls boot_posix boot_machine EEnvCallFromMMode boot_posix_wf boot_machine_inv).
  reflexivity.
Defined.

(** Once a program has exited, no call changes the exit
    code any more. *)
Theorem posix_exit_is_final s m e o s' m' c :
  exit_code s = Some c -> handle_call s m e = Some (o, s', m') ->
  exit_code s' = Some c /\ o = Fatal /\ m' = m.
Proof.
  unfold exit_code. destruct (is_exited s) eqn:E; [|done]. intros [= <-].
  cbn [handle_call posix_environment]. unfold posix_handle_call. rewrite E. intros [= <- <- <-].
  by rewrite E.
Qed.

Lemma posix_exit_is_final_witness :
  exit_code (mkPosix 1 42 3) = Some 42
  /\ handle_call (mkPosix 1 42 3) boot_machine EEnvCallFromUMode = Some (Fatal, mkPosix 1 42 3, boot_machine).
Proof.
  split; [|reflexivity].
  exact (proj1 (posix_exit_is_final (mkPosix 1 42 3) boot_machine EEnvCallFromUMode Fatal (mkPosix 1 42 3)
    boot_machine 42 eq_refl eq_refl)).
Defined.

End ExecEnv.
Export ExecEnv.
