(* ===== verification/Pvm.v ===== *)
(** The proof-generating virtual machine ([src/src/risc_v/pvm/src/state.rs]): a machine
    with an execution environment, stepped one instruction or many at a time. *)

From S2P Require Import Prelude Region Registers Mode Traps CSRFields CSRegisters HartState Bus TrapSpec Machine MachineSpec InstrSpec MachineProps ExecEnv.

Module Pvm.

Definition INITIAL_VERSION : Z := 0.

Inductive PvmStatus : Type :=
| SEval
| SInput.

Record Pvm (S : Type) : Type := mkPvm {
  version : Z;
  machine_state : MachineState;
  syscall_state : S
}.
Arguments mkPvm {S} version machine_state syscall_state.
Arguments version {S} p.
Arguments machine_state {S} p.
Arguments syscall_state {S} p.

Section Pvm.
Context `{Host} `{ML : MainMemoryLayout} {EE : Type} `{ExecutionEnvironmentState EE}.

(** [Pvm::bind]: panics on a version it cannot deal with. *)
Definition pvm_bind (space : Z * MachineState * EE) : option (Pvm EE) :=
  let '(v, m, s) := space in
  if v =? INITIAL_VERSION then Some (mkPvm v m s) else None.

Definition pvm_reset (self : Pvm EE) : option (Pvm EE) :=
  let? m := machine_reset (machine_state self) in
  Some (mkPvm INITIAL_VERSION m (ee_reset (syscall_state self))).

(** [provide_input] is not implemented: it panics. *)
Definition pvm_provide_input (self : Pvm EE) (level counter : Z) (payload : list Z) : option (bool * Pvm EE) := None.

Definition pvm_status (self : Pvm EE) : PvmStatus := SEval.

(** [handle_exception]; a fatal outcome is [unimplemented!]. *)
Definition handle_exception (self : Pvm EE) (exception : EnvironException) : option (bool * Pvm EE) :=
  let? r := handle_call (syscall_state self) (machine_state self) exception in
  let '(o, s, m) := r in
  match o with
  | Fatal => None
  | Handled continue_eval => Some (continue_eval, mkPvm (version self) m s)
  end.

Definition with_machine (self : Pvm EE) (m : MachineState) : Pvm EE :=
  mkPvm (version self) m (syscall_state self).

Definition pvm_step (self : Pvm EE) : option (bool * Pvm EE) :=
  match step (machine_state self) with
  | Ret _ m => Some (true, with_machine self m)
  | Throw exc m =>
      let? r := handle_exception (with_machine self m) exc in
      Some (true, r.2)
  | Panic => None
  end.

(** [step_many_accum], with fuel for the recursion: every recursive call has at
    least one step less to do. *)
Fixpoint step_many_accum (fuel : nat) (max_steps accum : nat) (self : Pvm EE) : option (nat * Pvm EE) :=
  match fuel with
  | O => None
  | S fuel =>
      let? r := step_many max_steps (fun (_ : unit) _ => (true, tt)) tt (machine_state self) in
      let '(res, _, m) := r in
      let self := with_machine self m in
      let steps := smr_steps res in
      let total_steps := (accum + steps)%nat in
      match smr_exception res with
      | Some exc =>
          let total_steps := (total_steps + 1)%nat in
          let steps := (steps + 1)%nat in
          let? r := handle_exception self exc in
          let '(continue, self) := r in
          if continue : bool then
            let steps_left := (max_steps - steps)%nat in
            step_many_accum fuel steps_left total_steps self
          else Some (total_steps, self)
      | None => Some (total_steps, self)
      end
  end.

Definition pvm_step_many (max_steps : nat) (self : Pvm EE) : option (nat * Pvm EE) :=
  step_many_accum (S max_steps) max_steps 0 self.

(** ** The reference: one step at a time *)

(** At most [n] steps, each of them an instruction that completes or a call that the
    environment handles; a call that ends the evaluation is the last step. *)
Fixpoint iterate_steps (n : nat) (self : Pvm EE) : option (nat * Pvm EE) :=
  match n with
  | O => Some (0%nat, self)
  | S n =>
      match step (machine_state self) with
      | Ret _ m =>
          let? r := iterate_steps n (with_machine self m) in Some (S r.1, r.2)
      | Throw exc m =>
          let? r := handle_exception (with_machine self m) exc in
          if r.1 then let? r := iterate_steps n r.2 in Some (S r.1, r.2)
          else Some (1%nat, r.2)
      | Panic => None
      end
  end.

Lemma iterate_step_many n : forall (self : Pvm EE),
  iterate_steps n self
  = match step_many n (fun (_ : unit) _ => (true, tt)) tt (machine_state self) with
    | None => None
    | Some (res, _, m) =>
        match smr_exception res with
        | None => Some (smr_steps res, with_machine self m)
        | Some exc =>
            match handle_exception (with_machine self m) exc with
            | None => None
            | Some (continue, self) =>
                if continue : bool then
                  let? r := iterate_steps (n - (smr_steps res + 1)) self in
                  Some ((smr_steps res + 1 + r.1)%nat, r.2)
                else Some ((smr_steps res + 1)%nat, self)
            end
        end
    end.
Proof using Type.
  unfold step_many. induction n as [|n IH]; intros self; cbn [iterate_steps step_many_from].
  - by destruct self.
  - destruct (step (machine_state self)) as [u m|e m|]; [| |done].
    + rewrite step_many_from_shift, IH. cbn [machine_state with_machine].
      destruct (step_many_from 0 n _ tt m) as [[[res c] m']|]; [|done].
      cbn [smr_exception smr_steps]. destruct (smr_exception res) as [e|]; [|done].
      change (with_machine (with_machine self m) m') with (with_machine self m').
      destruct (handle_exception (with_machine self m') e) as [[[] p]|]; [|done | done].
      replace (S n - (1 + smr_steps res + 1))%nat with (n - (smr_steps res + 1))%nat by lia.
      by destruct (iterate_steps _ p) as [[]|].
    + cbn [smr_exception smr_steps]. destruct (handle_exception _ e) as [[[] p]|]; [|done | done].
      cbn [fst snd]. replace (S n - (0 + 1))%nat with n by lia. by destruct (iterate_steps n p) as [[]|].
Qed.

(** The recursion never runs out of fuel, and adds up the steps. *)
Lemma step_many_accum_iterate fuel : forall max accum (self : Pvm EE),
  (max < fuel)%nat ->
  step_many_accum fuel max accum self
  = match iterate_steps max self with
    | Some (n, self') => Some ((accum + n)%nat, self')
    | None => None
    end.
Proof using Type.
  induction fuel as [|fuel IH]; intros max accum self Hf; [lia |]. cbn [step_many_accum].
  rewrite iterate_step_many.
  destruct (step_many max _ tt (machine_state self)) as [[[res c] m]|] eqn:E; [|done].
  destruct (smr_exception res) as [e|] eqn:Ee; [|done].
  unfold step_many in E. apply step_many_from_spec in E as (n & E1 & E2 & m1 & _ & E3).
  rewrite Ee in E3. destruct E3 as [_ E3]. rewrite Nat.add_0_l in E1.
  destruct (handle_exception (with_machine self m) e) as [[[] p]|]; [| |done].
  - rewrite IH by lia. destruct (iterate_steps _ p) as [[k p']|]; [|done]. do 2 f_equal. cbn. lia.
  - do 2 f_equal. lia.
Qed.

Lemma iterate_steps_bound n : forall (self : Pvm EE) k p,
  iterate_steps n self = Some (k, p) -> (k <= n)%nat.
Proof using Type.
  induction n as [|n IH]; intros self k p; cbn [iterate_steps]; [intros [= <- <-]; lia |].
  destruct (step (machine_state self)) as [u m|e m|]; [| |done].
  - destruct (iterate_steps n _) as [[j q]|] eqn:E; [|done]. intros [= <- <-]. apply IH in E. cbn; lia.
  - destruct (handle_exception _ e) as [[[] q]|]; [| |done]; cbn [fst snd].
    + destruct (iterate_steps n q) as [[j q']|] eqn:E; [|done]. intros [= <- <-]. apply IH in E. cbn; lia.
    + intros [= <- <-]. lia.
Qed.

(** The batched, recursive [step_many] computes what stepping
    one instruction at a time does: the same final state and the same number of steps,
    with any amount of fuel above [max_steps]. *)
Theorem step_many_is_iterated_steps fuel max_steps (self : Pvm EE) :
  (max_steps < fuel)%nat ->
  step_many_accum fuel max_steps 0 self = iterate_steps max_steps self.
Proof using Type.
  intros Hf. rewrite step_many_accum_iterate by done. by destruct (iterate_steps max_steps self) as [[]|].
Qed.

(** [step_many] performs at most [max_steps] steps. *)
Theorem pvm_step_many_bounded max_steps (self self' : Pvm EE) n :
  pvm_step_many max_steps self = Some (n, self') -> (n <= max_steps)%nat.
Proof using Type.
  unfold pvm_step_many. rewrite step_many_accum_iterate by lia.
  destruct (iterate_steps max_steps self) as [[k p]|] eqn:E; [|done]. intros [= <- <-].
  by apply iterate_steps_bound in E.
Qed.

(** ** The invariant, against the interface of the environment *)
Section Invariant.
Context `{!LayoutOk ML} `{!EnvironmentOk EE}.

Definition pvm_inv (p : Pvm EE) : Prop := machine_inv (machine_state p) /\ ee_wf (syscall_state p).

Lemma handle_exception_inv (p p' : Pvm EE) e c :
  pvm_inv p -> handle_exception p e = Some (c, p') -> pvm_inv p'.
Proof using EnvironmentOk0.
  intros [Hm Hs]. unfold handle_exception.
  destruct (handle_call_ok (syscall_state p) (machine_state p) e Hs Hm) as (o & s' & m' & -> & Hs' & Hm').
  destruct o; [done |]. intros [= <- <-]. done.
Qed.

Lemma step_inv_cases (p : Pvm EE) :
  pvm_inv p ->
  match step (machine_state p) with
  | Ret _ m => pvm_inv (with_machine p m)
  | Throw _ m => pvm_inv (with_machine p m)
  | Panic => True
  end.
Proof using LayoutOk0.
  intros [Hm Hs]. pose proof (step_cases (machine_state p) Hm) as C.
  by destruct (step (machine_state p)).
Qed.

Lemma iterate_steps_inv n : forall (p p' : Pvm EE) k,
  pvm_inv p -> iterate_steps n p = Some (k, p') -> pvm_inv p'.
Proof using LayoutOk0 EnvironmentOk0.
  induction n as [|n IH]; intros p p' k Hp; cbn [iterate_steps]; [by intros [= _ <-] |].
  pose proof (step_inv_cases p Hp) as C. destruct (step (machine_state p)) as [u m|e m|]; [| |done].
  - destruct (iterate_steps n _) as [[j q]|] eqn:E; [|done]. intros [= _ <-]. by eapply IH.
  - destruct (handle_exception _ e) as [[c q]|] eqn:Eh; [|done].
    pose proof (handle_exception_inv _ _ _ _ C Eh) as Hq. cbn [fst snd]. destruct c.
    + destruct (iterate_steps n q) as [[j q']|] eqn:E; [|done]. intros [= _ <-]. by eapply IH.
    + by intros [= _ <-].
Qed.

(** For every environment that meets its interface, a reset of
    the virtual machine establishes its invariant (the machine well-formed, the
    environment in a state it can be called in), and any number of steps keeps it. *)
Theorem pvm_reset_then_steps_keep_invariant (p : Pvm EE) :
  hart_wf (hart (machine_state p)) -> bus_wf (bus (machine_state p)) -> ee_typed (syscall_state p) ->
  exists p0, pvm_reset p = Some p0 /\ version p0 = INITIAL_VERSION /\ pvm_inv p0
    /\ forall n k p', pvm_step_many n p0 = Some (k, p') -> pvm_inv p'.
Proof using LayoutOk0 EnvironmentOk0.
  intros Hh Hb He. unfold pvm_reset, machine_reset.
  destruct (bus_reset_spec (bus (machine_state p)) Hb) as (b' & -> & Hb' & _).
  eexists. split; [reflexivity |]. split; [reflexivity |].
  assert (Hi : pvm_inv (mkPvm INITIAL_VERSION (mkMachine (hart_reset (hart (machine_state p))
    start_of_main_memory) b') (ee_reset (syscall_state p)))).
  { split; [split; [|exact Hb'] | by apply ee_reset_wf]. apply hart_reset_inv; [done |].
    unfold in_u, start_of_main_memory, DEVICES_ADDRESS_SPACE_LENGTH. lia. }
  split; [exact Hi |]. intros n k p' E. unfold pvm_step_many in E.
  rewrite step_many_accum_iterate in E by lia.
  destruct (iterate_steps n _) as [[j q]|] eqn:Ei; [|done]. injection E as <- <-.
  by eapply iterate_steps_inv.
Qed.

End Invariant.

End Pvm.

(** ** Witnesses *)

#[local] Instance little : Host := LittleEndian.
#[local] Existing Instance M1K.

Definition sample_pvm : Pvm PosixState := mkPvm 0 zero_machine boot_posix.

Lemma pvm_reset_then_steps_keep_invariant_witness :
  exists p0, pvm_reset sample_pvm = Some p0 /\ version p0 = INITIAL_VERSION /\ pvm_inv p0
    /\ forall n k p', pvm_step_many n p0 = Some (k, p') -> pvm_inv p'.
Proof.
  exact (pvm_reset_then_steps_keep_invariant (H := little) (ML := M1K) sample_pvm zero_hart_wf zero_bus_wf
    (proj1 boot_posix_wf)).
Defined.

Lemma step_many_is_iterated_steps_witness :
  step_many_accum 11 10 0 sample_pvm = iterate_steps 10 sample_pvm.
Proof.
  exact (step_many_is_iterated_steps (H := little) (ML := M1K) 11 10 sample_pvm ltac:(lia)).
Defined.

Lemma pvm_step_many_bounded_witness :
  pvm_step_many 0 sample_pvm = Some (0%nat, sample_pvm) /\ (0 <= 0)%nat.
Proof.
  split; [reflexivity |].
  exact (pvm_step_many_bounded (H := little) (ML := M1K) 0 sample_pvm sample_pvm 0 eq_refl).
Defined.

End Pvm.
Export Pvm.
