(* ===== verification/Interpreter.v ===== *)
(** The interpreter ([src/src/risc_v/interpreter/src/lib.rs]): a machine with the Posix
    environment, run until it exits or has done its steps. *)

From S2P Require Import Prelude Region Registers Mode Traps CSRFields CSRegisters Instruction Parser Encode HartState Bus RvI RvM RvSystem TrapSpec Machine MachineSpec InstrSpec MachineProps ExecEnv Pvm.

Module Interpreter.

Record Interpreter : Type := mkInterpreter {
  posix_state : PosixState;
  interp_machine : MachineState
}.

Inductive InterpreterResult : Type :=
| Running (steps : nat)
| Exit (code : Z) (steps : nat)
| UnhandledException (e : EnvironException) (steps : nat).

Definition result_steps (r : InterpreterResult) : nat :=
  match r with Running n => n | Exit _ n => n | UnhandledException _ n => n end.

Section Interpreter.
Context `{Host} `{ML : MainMemoryLayout}.

(** [handle_step_result], over the recursive call to [run_accum]; [None] is a
    panic. *)
Definition handle_step_result
    (run_accum : nat -> nat -> Interpreter -> option (InterpreterResult * Interpreter))
    (self : Interpreter) (result : StepManyResult) (max : nat) :
    option (InterpreterResult * Interpreter) :=
  match smr_exception result with
  | Some exc =>
      let? r := handle_call (posix_state self) (interp_machine self) exc in
      let '(o, s, m) := r in
      let self := mkInterpreter s m in
      match o with
      | Fatal => Some (UnhandledException exc (smr_steps result), self)
      | Handled continue_eval =>
          let steps := (smr_steps result + 1)%nat in
          let steps_left := (max - steps)%nat in
          match exit_code (posix_state self) with
          | Some code => Some (Exit (wrap 64 code) steps, self)
          | None =>
              if continue_eval && (0 <? steps_left)%nat then run_accum steps steps_left self
              else Some (Running steps, self)
          end
      end
  | None => Some (Running (smr_steps result), self)
  end.

(** [run_accum], with fuel for the recursion. *)
Fixpoint run_accum (fuel : nat) (steps_done max : nat) (self : Interpreter) :
    option (InterpreterResult * Interpreter) :=
  match fuel with
  | O => None
  | S fuel =>
      let? r := step_many max (fun (_ : unit) _ => (true, tt)) tt (interp_machine self) in
      let '(result, _, m) := r in
      let self := mkInterpreter (posix_state self) m in
      let result := mkStepManyResult (smr_steps result + steps_done) (smr_exception result) in
      handle_step_result (run_accum fuel) self result max
  end.

(** [Interpreter::run]. *)
Definition run (max : nat) (self : Interpreter) : option (InterpreterResult * Interpreter) :=
  run_accum (S max) 0 max self.

(** [Interpreter::step_many], over the state of the closure. *)
Definition interp_step_many {C} (max : nat) (should_continue : C -> MachineState -> bool * C) (c : C)
    (self : Interpreter) : option (InterpreterResult * Interpreter) :=
  let? r := step_many max should_continue c (interp_machine self) in
  let '(result, _, m) := r in
  let self := mkInterpreter (posix_state self) m in
  handle_step_result (run_accum max) self result max.

Definition read_register (self : Interpreter) (reg : XRegister) : Z := xget (hart (interp_machine self)) reg.

Definition read_pc (self : Interpreter) : Z := pc (hart (interp_machine self)).

(** ** Properties *)

(** A sufficient amount of fuel: the result does not depend on it. *)
Lemma run_accum_fuel fuel : forall fuel' steps_done max self,
  (max < fuel)%nat -> (max < fuel')%nat ->
  run_accum fuel steps_done max self = run_accum fuel' steps_done max self.
Proof using Type.
  induction fuel as [|fuel IH]; intros [|fuel'] steps_done max self Hf Hf'; try lia. cbn [run_accum].
  destruct (step_many max _ tt (interp_machine self)) as [[[res c] m]|] eqn:E; [|done].
  unfold handle_step_result. cbn [smr_exception smr_steps posix_state interp_machine].
  destruct (smr_exception res) as [e|] eqn:Ee; [|done].
  destruct (handle_call _ _ e) as [[[o s] m']|]; [|done]. destruct o as [|[]]; [done | |done].
  cbn [posix_state]. destruct (exit_code s); [done |]. cbn [andb].
  destruct (_ <? _)%nat eqn:El; [|done]. apply Nat.ltb_lt in El. apply IH; lia.
Qed.

(** The steps reported are within the budget, and an exit reports the code the
    environment recorded. *)
Lemma run_accum_result fuel : forall steps_done max self r self',
  run_accum fuel steps_done max self = Some (r, self') ->
  (result_steps r <= steps_done + max)%nat
  /\ match r with Exit code _ => exists c, exit_code (posix_state self') = Some c /\ code = wrap 64 c
                | _ => True end.
Proof using Type.
  induction fuel as [|fuel IH]; intros steps_done max self r self'; cbn [run_accum]; [done |].
  destruct (step_many max _ tt (interp_machine self)) as [[[res c] m]|] eqn:E; [|done].
  unfold step_many in E. apply step_many_from_spec in E as (n & E1 & E2 & m1 & _ & E3).
  rewrite Nat.add_0_l in E1. unfold handle_step_result. cbn [smr_exception smr_steps posix_state interp_machine].
  destruct (smr_exception res) as [e|] eqn:Ee; [|intros [= <- <-]; cbn; split; [lia | done]].
  destruct E3 as [_ E3].
  destruct (handle_call _ _ e) as [[[o s] m']|]; [|done].
  destruct o as [|continue]; [intros [= <- <-]; cbn; split; [lia | done] |].
  cbn [posix_state]. destruct (exit_code s) as [code|] eqn:Ec.
  - intros [= <- <-]. cbn [result_steps posix_state]. split; [lia | by exists code].
  - destruct (continue && _) eqn:El.
    + intros R. apply IH in R as [R1 R2]. apply andb_true_iff in El as [_ El%Nat.ltb_lt].
      split; [lia | exact R2].
    + intros [= <- <-]. cbn; split; [lia | done].
Qed.

(** [run] does not depend on the fuel of the model, reports at
    most [max] steps, and when it reports an exit, its code is the one the environment
    recorded. *)
Theorem run_reports_within_budget max fuel self r self' :
  (max < fuel)%nat -> run_accum fuel 0 max self = Some (r, self') ->
  run max self = Some (r, self')
  /\ (result_steps r <= max)%nat
  /\ match r with Exit code _ => exists c, exit_code (posix_state self') = Some c /\ code = wrap 64 c
                | _ => True end.
Proof using Type.
  intros Hf E. split; [unfold run; rewrite (run_accum_fuel (S max) fuel) by lia; done |].
  by apply run_accum_result in E.
Qed.

End Interpreter.

(** ** Handled calls use up the budget twice *)

#[local] Instance little : Host := LittleEndian.
#[local] Existing Instance M1K.

(** A hart in S-mode whose supervisor trap vector points at an [ECALL], with the
    Posix environment exiting from M-mode: every step is a call that is trapped back
    to the same instruction. *)
Definition ecall_loop : MachineState :=
  mkMachine
    (with_mode (hcsr_write boot_hart stvec start_of_main_memory) (mode_write 0 Supervisor))
    (store_bytes zero_bus start_of_main_memory [0x73; 0; 0; 0]).

Definition ecall_loop_interpreter : Interpreter := mkInterpreter boot_posix ecall_loop.

(** On a program that never exits and keeps calling the
    environment, [run 10] returns after four steps, while the virtual machine performs
    all ten steps of the same budget: the steps already done are subtracted again from a
    budget that was already reduced by them. *)
Theorem run_stops_before_its_budget :
  match run 10 ecall_loop_interpreter with
  | Some (Running n, _) => n = 4%nat
  | _ => False
  end
  /\ match pvm_step_many 10 (mkPvm 0 ecall_loop boot_posix) with
     | Some (n, _) => n = 10%nat
     | None => False
     end.
Proof. split; vm_compute; reflexivity. Qed.

Lemma run_reports_within_budget_witness :
  exists r self', run_accum 11 0 10 ecall_loop_interpreter = Some (r, self')
    /\ run 10 ecall_loop_interpreter = Some (r, self') /\ (result_steps r <= 10)%nat.
Proof.
  assert (F : match run_accum 11 0 10 ecall_loop_interpreter with Some _ => true | None => false end = true)
    by (vm_compute; reflexivity).
  destruct (run_accum 11 0 10 ecall_loop_interpreter) as [[r self']|] eqn:E; [|discriminate F].
  exists r, self'. split; [reflexivity |].
  destruct (run_reports_within_budget (H := little) (ML := M1K) 10 11 ecall_loop_interpreter r self'
    ltac:(lia) E) as (R1 & R2 & _).
  split; [exact R1 | exact R2].
Defined.

End Interpreter.
Export Interpreter.
