(* ===== verification/Program.v ===== *)
(** Programs ([src/src/risc_v/interpreter/src/program.rs] and the loader of
    [src/src/risc_v/kernel_loader/src/lib.rs]): the segments of a program, writing bytes
    over them, and loading an executable.

    A [BTreeMap] of segments is a finite map; its iterations go through the keys in
    increasing order. *)

From stdpp Require Import sorting.
From S2P Require Import Prelude Bus.

Module Program.

Abbreviation segments_map := (gmap Z (list Z)).

Record Program : Type := mkProgram { entrypoint : Z; segments : segments_map }.

(** ** Ordered iteration *)
Definition key_le (x y : Z * list Z) : Prop := x.1 <= y.1.

#[export] Instance key_le_dec : RelDecision key_le.
Proof. intros x y. unfold key_le. apply _. Defined.

(** [self.segments.iter()]. *)
Definition iter (segs : segments_map) : list (Z * list Z) := merge_sort key_le (map_to_list segs).

(** [self.segments.range(..p)] and [self.segments.range(p..q)]. *)
Definition range_to (segs : segments_map) (p : Z) : list (Z * list Z) :=
  filter (fun kv => kv.1 < p) (iter segs).

Definition range (segs : segments_map) (p q : Z) : list (Z * list Z) :=
  filter (fun kv => p <= kv.1 < q) (iter segs).

(** ** Writing bytes *)

(** Shrinking the chunk before [paddr] when it reaches beyond it; [None] is the
    overflow of the addition. *)
Definition shrink_previous (segs : segments_map) (paddr : Z) : option segments_map :=
  match last (range_to segs paddr) with
  | Some (prev_paddr, prev_bytes) =>
      let? end_ := checked_add 64 prev_paddr (Z.of_nat (length prev_bytes)) in
      if paddr <? end_
      then Some (<[prev_paddr := resize (Z.to_nat (paddr - prev_paddr)) 0 prev_bytes]> segs)
      else Some segs
  | None => Some segs
  end.

(** The loop over the chunks in the range; [None] is the panic of [split_at]. *)
Fixpoint split_loop (nexts : list (Z * list Z)) (paddr : Z) (bytes : list Z) (new_segments : segments_map) :
    option (Z * list Z * segments_map) :=
  match nexts with
  | [] => Some (paddr, bytes, new_segments)
  | (next_paddr, _) :: nexts =>
      let nonoverlapping_len := Z.to_nat (next_paddr - paddr) in
      if (length bytes <? nonoverlapping_len)%nat then None
      else
        let nonoverlapping := take nonoverlapping_len bytes in
        let overlapping := drop nonoverlapping_len bytes in
        let new_segments :=
          match nonoverlapping with [] => new_segments | _ => <[paddr := nonoverlapping]> new_segments end in
        split_loop nexts next_paddr overlapping new_segments
  end.

(** The remaining bytes, written over the chunk at [paddr] if they fit in it. *)
Definition write_last (segs : segments_map) (paddr : Z) (bytes : list Z) : segments_map :=
  match segs !! paddr with
  | Some chunk =>
      if (length bytes <=? length chunk)%nat
      then <[paddr := bytes ++ drop (length bytes) chunk]> segs
      else <[paddr := bytes]> segs
  | None => <[paddr := bytes]> segs
  end.

(** [Memory::write_bytes] of a program. *)
Definition write_bytes (segs : segments_map) (paddr : Z) (bytes : list Z) : option segments_map :=
  match bytes with
  | [] => Some segs
  | _ =>
      let? segs := shrink_previous segs paddr in
      let? paddr_after := checked_add 64 paddr (Z.of_nat (length bytes)) in
      let? r := split_loop (range segs paddr paddr_after) paddr bytes ∅ in
      let '(paddr, bytes, new_segments) := r in
      let segs := new_segments ∪ segs in
      match bytes with
      | [] => Some segs
      | _ => Some (write_last segs paddr bytes)
      end
  end.

(** [set_zero]. *)
Definition set_zero (segs : segments_map) (paddr : Z) (len : nat) : option segments_map :=
  write_bytes segs paddr (replicate len 0).

(** [Program::from_raw]. *)
Definition from_raw (code : list Z) : Program :=
  mkProgram start_of_main_memory {[ start_of_main_memory := code ]}.

(** ** The bytes of a program *)

(** Address [a] holds the byte [b]. *)
Definition holds (segs : segments_map) (a b : Z) : Prop :=
  exists k bs, segs !! k = Some bs /\ k <= a /\ bs !! Z.to_nat (a - k) = Some b.

(** The chunk [bs] at [k] covers address [a]. *)
Definition covers (k : Z) (bs : list Z) (a : Z) : Prop := k <= a < k + Z.of_nat (length bs).

(** The invariant of the segments: no two chunks overlap. *)
Definition disjoint_segments (segs : segments_map) : Prop :=
  forall k1 bs1 k2 bs2,
    segs !! k1 = Some bs1 -> segs !! k2 = Some bs2 -> k1 < k2 -> k1 + Z.of_nat (length bs1) <= k2.

Lemma holds_covers segs a b :
  holds segs a b -> exists k bs, segs !! k = Some bs /\ covers k bs a /\ bs !! Z.to_nat (a - k) = Some b.
Proof.
  intros (k & bs & Hk & Ha & Hb). exists k, bs. split; [done |]. split; [|done].
  apply lookup_lt_Some in Hb. unfold covers. lia.
Qed.

(** Chunks of a disjoint map that cover the same address are the same. *)
Lemma disjoint_covers segs k1 bs1 k2 bs2 a :
  disjoint_segments segs -> segs !! k1 = Some bs1 -> segs !! k2 = Some bs2 ->
  covers k1 bs1 a -> covers k2 bs2 a -> k1 = k2.
Proof.
  intros Hd H1 H2 C1 C2. unfold covers in *.
  destruct (Z.lt_trichotomy k1 k2) as [L | [E | L]]; [|done |].
  - specialize (Hd _ _ _ _ H1 H2 L). lia.
  - specialize (Hd _ _ _ _ H2 H1 L). lia.
Qed.

(** Replacing the chunk at [p] by one that does not reach the next chunk. *)
Lemma insert_disjoint segs p bs :
  disjoint_segments segs ->
  (forall k bs', segs !! k = Some bs' -> k < p -> k + Z.of_nat (length bs') <= p) ->
  (forall k bs', segs !! k = Some bs' -> p < k -> p + Z.of_nat (length bs) <= k) ->
  disjoint_segments (<[p := bs]> segs).
Proof.
  intros Hd Hl Hr k1 bs1 k2 bs2 H1 H2 L. rewrite lookup_insert in H1, H2.
  repeat case_decide; simplify_eq; eauto; lia.
Qed.

(** The bytes after such a replacement, when the old chunk, if any, lies within
    the addresses below [q]. *)
Lemma insert_holds segs p bs q a b :
  disjoint_segments segs ->
  (forall k bs', segs !! k = Some bs' -> k < p -> k + Z.of_nat (length bs') <= p) ->
  (forall k bs', segs !! k = Some bs' -> p < k -> q <= k) ->
  (forall bs', segs !! p = Some bs' -> p + Z.of_nat (length bs') <= q) ->
  p + Z.of_nat (length bs) = q ->
  holds (<[p := bs]> segs) a b
  <-> if decide (p <= a < q) then bs !! Z.to_nat (a - p) = Some b else holds segs a b.
Proof.
  intros Hd Hl Hr Hp Hq. case_decide as Ha.
  - split.
    + intros (k & bs' & Hk & C & Hb)%holds_covers. rewrite lookup_insert in Hk. unfold covers in C.
      case_decide as E; [subst; by injection Hk as <- |]. exfalso.
      destruct (Z.lt_trichotomy k p) as [L | [E' | L]]; [|congruence |].
      * specialize (Hl _ _ Hk L). lia.
      * specialize (Hr _ _ Hk L). lia.
    + intros Hb. exists p, bs. rewrite lookup_insert, decide_True by done. split; [done |]. split; [lia | done].
  - split.
    + intros (k & bs' & Hk & C & Hb)%holds_covers. rewrite lookup_insert in Hk. unfold covers in C.
      case_decide as E; [subst; injection Hk as <-; lia |]. exists k, bs'. split; [done |]. split; [lia | done].
    + intros (k & bs' & Hk & C & Hb)%holds_covers. unfold covers in C. exists k, bs'.
      rewrite lookup_insert. case_decide as E; [|split; [done |]; split; [lia | done]].
      subst k. specialize (Hp _ Hk). lia.
Qed.

(** The empty program. *)
Lemma empty_disjoint : disjoint_segments ∅.
Proof. intros k1 bs1 k2 bs2 H. by rewrite lookup_empty in H. Qed.

Lemma empty_holds a b : ~ holds ∅ a b.
Proof. intros (k & bs & H & _). by rewrite lookup_empty in H. Qed.

(** ** Keys in order *)

(** The keys of the iteration are in strictly increasing order. *)
Definition sorted_keys (l : list (Z * list Z)) : Prop := StronglySorted Z.lt l.*1.

#[export] Instance key_le_total : Total key_le.
Proof. intros x y. unfold key_le. lia. Qed.

#[export] Instance key_le_trans : Transitive key_le.
Proof. intros x y z. unfold key_le. lia. Qed.

Lemma sorted_nodup_strict (l : list (Z * list Z)) :
  StronglySorted key_le l -> NoDup l.*1 -> sorted_keys l.
Proof.
  unfold sorted_keys. induction 1 as [|x l Hs IH Hx]; cbn; intros Hn; [constructor |].
  apply NoDup_cons in Hn as [Hni Hn]. constructor; [auto |].
  apply Forall_fmap, Forall_forall. intros y Hy. rewrite Forall_forall in Hx. specialize (Hx y Hy).
  unfold key_le in Hx. cbn. assert (y.1 <> x.1); [|lia].
  intros E. apply Hni. rewrite <- E. by apply list_elem_of_fmap_2.
Qed.

Lemma iter_sorted segs : sorted_keys (iter segs).
Proof.
  apply sorted_nodup_strict; [apply StronglySorted_merge_sort; apply _ |].
  unfold iter. rewrite merge_sort_Permutation. apply NoDup_fst_map_to_list.
Qed.

Lemma elem_of_iter segs k bs : (k, bs) ∈ iter segs <-> segs !! k = Some bs.
Proof. unfold iter. rewrite merge_sort_Permutation. apply elem_of_map_to_list. Qed.

Lemma filter_sorted (P : Z * list Z -> Prop) `{!forall x, Decision (P x)} l :
  sorted_keys l -> sorted_keys (filter P l).
Proof.
  unfold sorted_keys. induction l as [|x l IH]; [constructor |].
  intros Hs. rewrite fmap_cons in Hs. inversion_clear Hs as [|? ? Hs' Hx]. rewrite filter_cons. case_decide; [|auto].
  rewrite fmap_cons. constructor; [auto |]. rewrite Forall_fmap in *. rewrite Forall_forall in *.
  intros y [_ Hy]%list_elem_of_filter. auto.
Qed.

Lemma sorted_last l x y : sorted_keys l -> last l = Some x -> y ∈ l -> y.1 <= x.1.
Proof.
  unfold sorted_keys. induction l as [|z l IH]; cbn; intros Hs Hl Hy; [done |].
  inversion_clear Hs as [|? ? Hs' Hz]. destruct l as [|z' l].
  - injection Hl as <-. apply list_elem_of_singleton in Hy as ->. lia.
  - assert (Hx : x ∈ z' :: l) by (by apply last_Some_elem_of).
    apply elem_of_cons in Hy as [-> | Hy]; [|auto].
    rewrite Forall_fmap, Forall_forall in Hz. specialize (Hz x Hx). cbn in Hz. lia.
Qed.

(** ** The specification of a write *)

(** The chunks that start below [p] end at or below [p]. *)
Definition ends_below (segs : segments_map) (p : Z) : Prop :=
  forall k bs, segs !! k = Some bs -> k < p -> k + Z.of_nat (length bs) <= p.

(** No chunk starts strictly between [p] and [q]. *)
Definition free_between (segs : segments_map) (p q : Z) : Prop :=
  forall k bs, segs !! k = Some bs -> p < k -> q <= k.

(** [segs'] is [segs] with the bytes of [bytes] at [p..q]. *)
Definition patched (segs segs' : segments_map) (p q : Z) (bytes : list Z) : Prop :=
  forall a b, holds segs' a b
    <-> if decide (p <= a < q) then bytes !! Z.to_nat (a - p) = Some b else holds segs a b.

Lemma patched_refl segs p bytes : patched segs segs p p bytes.
Proof. intros a b. rewrite decide_False by lia. done. Qed.

(** Two adjacent patches are one. *)
Lemma patched_app segs1 segs2 segs3 p q r bytes :
  p <= q <= r ->
  patched segs1 segs2 p q bytes -> patched segs2 segs3 q r (drop (Z.to_nat (q - p)) bytes) ->
  patched segs1 segs3 p r bytes.
Proof.
  intros L H1 H2 a b. rewrite (H2 a b). repeat case_decide; try lia.
  - rewrite lookup_drop. replace (Z.to_nat (q - p) + Z.to_nat (a - q))%nat with (Z.to_nat (a - p)) by lia. done.
  - rewrite (H1 a b), decide_True by lia. done.
  - rewrite (H1 a b), decide_False by lia. done.
Qed.

Lemma patched_take segs segs' p q bytes :
  patched segs segs' p q (take (Z.to_nat (q - p)) bytes) <-> patched segs segs' p q bytes.
Proof.
  unfold patched. split; intros H a b; rewrite (H a b); case_decide; try done;
    rewrite lookup_take_lt by lia; done.
Qed.

(** What the loop needs of the chunks it still has to visit. *)
Definition to_visit (nexts : list (Z * list Z)) (M : segments_map) (p q : Z) : Prop :=
  sorted_keys nexts
  /\ (forall k, k ∈ nexts.*1 -> p <= k < q /\ is_Some (M !! k))
  /\ (forall k, is_Some (M !! k) -> p < k < q -> k ∈ nexts.*1).

Lemma to_visit_cons k c nexts M p q :
  to_visit ((k, c) :: nexts) M p q ->
  p <= k < q /\ is_Some (M !! k) /\ free_between M p k
  /\ (forall M', (forall j, k < j -> M' !! j = M !! j) -> to_visit nexts M' k q).
Proof.
  intros (Hs & Hin & Hall). unfold sorted_keys in Hs. cbn in Hs. inversion_clear Hs as [|? ? Hs' Hk].
  rewrite Forall_forall in Hk.
  destruct (Hin k) as [Hr Hsome]; [apply elem_of_cons; auto |].
  split; [done |]. split; [done |]. split.
  - intros j bs Hj L. destruct (decide (j < q)); [|lia].
    assert (j ∈ ((k, c) :: nexts).*1) as [-> | Hj']%elem_of_cons; [eauto | cbn; lia |].
    cbn in *. specialize (Hk j Hj'). lia.
  - intros M' HM. split; [done |]. split.
    + intros j Hj. specialize (Hk j Hj). rewrite HM by done.
      destruct (Hin j) as [? ?]; [apply elem_of_cons; auto |]. split; [lia | done].
    + intros j Hj L. rewrite HM in Hj by lia.
      assert (j ∈ ((k, c) :: nexts).*1) as [E | Hj']%elem_of_cons; [apply Hall; [done | lia] | cbn in E; lia | done].
Qed.

(** The loop splits the bytes at the chunks it meets: what it has inserted, over
    the old segments, is the patch so far, and no chunk starts within the rest. *)
Lemma split_loop_spec nexts : forall p bytes new segs q,
  q = p + Z.of_nat (length bytes) -> p < q ->
  disjoint_segments (new ∪ segs) -> ends_below (new ∪ segs) p -> to_visit nexts (new ∪ segs) p q ->
  exists p' bytes' new',
    split_loop nexts p bytes new = Some (p', bytes', new')
    /\ p <= p' < q /\ bytes' = drop (Z.to_nat (p' - p)) bytes
    /\ disjoint_segments (new' ∪ segs) /\ ends_below (new' ∪ segs) p' /\ free_between (new' ∪ segs) p' q
    /\ patched (new ∪ segs) (new' ∪ segs) p p' bytes.
Proof.
  induction nexts as [|[k c] nexts IH]; intros p bytes new segs q Eq Lpq Hd He Hv; cbn [split_loop].
  { exists p, bytes, new. rewrite Z.sub_diag. do 5 (split; [done || lia |]). split; [|apply patched_refl].
    intros k bs Hk L. destruct (decide (k < q)); [|lia]. destruct Hv as (_ & _ & Hall).
    assert (Hin : k ∈ ([] : list (Z * list Z)).*1) by eauto. by apply elem_of_nil in Hin. }
  destruct (to_visit_cons _ _ _ _ _ _ Hv) as (Lk & [ck Hck] & Hf & Hv').
  destruct (Nat.ltb_spec (length bytes) (Z.to_nat (k - p))) as [?|Ln]; [lia |].
  set (n := Z.to_nat (k - p)) in *. assert (Hlt : length (take n bytes) = n) by (rewrite length_take; lia).
  assert (Hd' : Z.of_nat (length (drop n bytes)) = q - k) by (rewrite length_drop; lia).
  destruct (decide (k = p)) as [-> | Nk].
  { replace n with 0%nat by lia. rewrite take_0, drop_0. apply IH; try done. by apply Hv'. }
  destruct (take n bytes) as [|b0 bs0] eqn:Et; [cbn in Hlt; lia |]. rewrite <- Et in *.
  set (M1 := <[p := take n bytes]> new ∪ segs).
  assert (EM : M1 = <[p := take n bytes]> (new ∪ segs)) by (unfold M1; by rewrite insert_union_l).
  assert (P1 : patched (new ∪ segs) M1 p k bytes).
  { apply patched_take. fold n. rewrite EM. intros a b. apply insert_holds; try done; [|lia].
    intros bs' Hp. apply (Hd p bs' k ck); [done.. | lia]. }
  assert (D1 : disjoint_segments M1).
  { rewrite EM. apply insert_disjoint; try done. intros j bs' Hj L. specialize (Hf j bs' Hj L). lia. }
  assert (E1 : ends_below M1 k).
  { intros j bs' Hj L. apply (D1 j bs' k ck); [done | | done].
    rewrite EM, lookup_insert_ne by done. done. }
  destruct (IH k (drop n bytes) (<[p := take n bytes]> new) segs q)
    as (p' & bytes' & new' & Er & Lp & Eb & D2 & E2 & F2 & P2); [lia | lia | done | done | |].
  { apply Hv'. intros j L. fold M1. rewrite EM, lookup_insert_ne by lia. done. }
  exists p', bytes', new'. split; [done |]. split; [lia |]. split.
  { subst bytes'. rewrite drop_drop. f_equal. lia. }
  do 3 (split; [done |]). apply (patched_app _ M1 _ _ k); [lia | done | done].
Qed.

(** The last write, when no chunk starts within the bytes. *)
Lemma write_last_spec segs p bytes q :
  q = p + Z.of_nat (length bytes) -> p < q ->
  disjoint_segments segs -> ends_below segs p -> free_between segs p q ->
  disjoint_segments (write_last segs p bytes) /\ patched segs (write_last segs p bytes) p q bytes.
Proof.
  intros Eq L Hd He Hf.
  assert (Hr : forall bs' k c, segs !! p = Some bs' -> segs !! k = Some c -> p < k -> p + Z.of_nat (length bs') <= k)
    by (intros; eapply Hd; eauto).
  assert (Plain : forall bs', segs !! p = Some bs' \/ bs' = [] -> (length bs' <= length bytes)%nat ->
            (forall c, segs !! p = Some c -> c = bs') ->
            disjoint_segments (<[p := bytes]> segs) /\ patched segs (<[p := bytes]> segs) p q bytes).
  { intros bs' _ Ll Hu. split.
    - apply insert_disjoint; [done | done |]. intros k c Hk Lk. specialize (Hf k c Hk Lk). lia.
    - intros a b. apply insert_holds; try done. intros c Hc. rewrite (Hu c Hc). lia. }
  unfold write_last. destruct (segs !! p) as [chunk|] eqn:Ep; [|apply (Plain []); [by right | cbn; lia | done]].
  destruct (Nat.leb_spec (length bytes) (length chunk)) as [Ll | Ll];
    [|apply (Plain chunk); [by left | lia | congruence]].
  set (new := bytes ++ drop (length bytes) chunk).
  assert (Hl : length new = length chunk) by (unfold new; rewrite length_app, length_drop; lia).
  split; [apply insert_disjoint; [done | done |]; intros k c Hk Lk; rewrite Hl; eauto |].
  intros a b. rewrite (insert_holds segs p new (p + Z.of_nat (length chunk))); try done;
    [| by eauto | intros c Hc; assert (c = chunk) as -> by congruence; lia | lia].
  repeat case_decide; try lia; unfold new.
  - rewrite lookup_app_l by lia. done.
  - rewrite lookup_app_r, lookup_drop by lia.
    replace (length bytes + (Z.to_nat (a - p) - length bytes))%nat with (Z.to_nat (a - p)) by lia. split.
    + intros Hb. exists p, chunk. split; [done |]. split; [lia | done].
    + intros (k & c & Hk & C & Hb)%holds_covers.
      assert (k = p) as -> by (eapply (disjoint_covers segs k c p chunk a); try done; unfold covers in *; lia).
      congruence.
  - done.
Qed.

(** The chunk that starts below [p] and reaches address [a]; its bytes from [p] on
    are what a write at [p] removes. *)
Definition overrun (segs : segments_map) (p a : Z) : Prop :=
  exists k bs, segs !! k = Some bs /\ k < p /\ p <= a /\ covers k bs a.

(** Every chunk ends within the address space. *)
Definition in_address_space (segs : segments_map) : Prop :=
  forall k bs, segs !! k = Some bs -> 0 <= k /\ k + Z.of_nat (length bs) < 2 ^ 64.

Lemma empty_in_space : in_address_space ∅.
Proof. intros k bs H. by rewrite lookup_empty in H. Qed.

Lemma checked_add_in x y : 0 <= x -> 0 <= y -> x + y < 2 ^ 64 -> checked_add 64 x y = Some (x + y).
Proof. intros. unfold checked_add. rewrite (proj2 (Z.ltb_lt _ _)) by lia. done. Qed.

Lemma last_range_to segs p k bs :
  last (range_to segs p) = Some (k, bs) ->
  segs !! k = Some bs /\ k < p /\ (forall j c, segs !! j = Some c -> j < p -> j <= k).
Proof.
  intros Hl. assert (Hin : (k, bs) ∈ range_to segs p) by (by apply last_Some_elem_of).
  unfold range_to in Hin. apply list_elem_of_filter in Hin as [Lk Hin]. apply elem_of_iter in Hin.
  split; [done |]. split; [done |]. intros j c Hj Lj.
  apply (sorted_last (range_to segs p) (k, bs) (j, c)); [apply filter_sorted, iter_sorted | done |].
  apply list_elem_of_filter. split; [done |]. by apply elem_of_iter.
Qed.

(** Cutting the chunk [bs] at [k] back to [p] removes its bytes from [p] on. *)
Lemma truncate_holds segs p k bs a b :
  disjoint_segments segs -> segs !! k = Some bs -> k < p < k + Z.of_nat (length bs) ->
  (forall j c, segs !! j = Some c -> j < p -> j <> k -> j + Z.of_nat (length c) <= k) ->
  holds (<[k := take (Z.to_nat (p - k)) bs]> segs) a b <-> holds segs a b /\ ~ overrun segs p a.
Proof.
  intros Hd Hk Lp Hbelow.
  assert (Hlen : length (take (Z.to_nat (p - k)) bs) = Z.to_nat (p - k)) by (rewrite length_take; lia).
  split.
  - intros (j & c & Hj & C & Hb)%holds_covers. rewrite lookup_insert in Hj. unfold covers in C.
    case_decide as E.
    + subst j. simplify_eq. rewrite lookup_take_lt in Hb by lia. split; [exists k, bs; split_and!; done || lia |].
      intros (j & c & _ & _ & ? & _). lia.
    + split; [exists j, c; split_and!; done || lia |]. intros (j' & c' & Hj' & Lj' & La & C').
      assert (j = j') as <- by (eapply (disjoint_covers segs); eauto).
      specialize (Hbelow j c Hj Lj' ltac:(congruence)). unfold covers in C'. lia.
  - intros [(j & c & Hj & C & Hb)%holds_covers No]. unfold covers in C.
    destruct (decide (k = j)) as [<- | N].
    + assert (c = bs) as -> by congruence.
      assert (a < p) by (destruct (decide (a < p)); [done |]; destruct No; exists k, bs; unfold covers; split_and!; done || lia).
      exists k, (take (Z.to_nat (p - k)) bs). rewrite lookup_insert, decide_True by done. rewrite lookup_take_lt by lia.
      split_and!; done || lia.
    + exists j, c. rewrite lookup_insert_ne by done. split_and!; done || lia.
Qed.

(** Shrinking removes exactly the overrun of the chunk before [p]. *)
Lemma shrink_previous_spec segs p :
  disjoint_segments segs -> in_address_space segs ->
  exists segs', shrink_previous segs p = Some segs'
    /\ disjoint_segments segs' /\ ends_below segs' p
    /\ (forall a b, holds segs' a b <-> holds segs a b /\ ~ overrun segs p a).
Proof.
  intros Hd Ha. unfold shrink_previous.
  assert (Keep : ends_below segs p -> exists segs', Some segs = Some segs'
    /\ disjoint_segments segs' /\ ends_below segs' p
    /\ (forall a b, holds segs' a b <-> holds segs a b /\ ~ overrun segs p a)).
  { intros He. exists segs. do 3 (split; [done |]). intros a b. split; [|tauto]. intros Hh. split; [done |].
    intros (k & bs & Hk & Lk & La & C). specialize (He k bs Hk Lk). unfold covers in C. lia. }
  destruct (last (range_to segs p)) as [[k bs]|] eqn:El.
  2:{ apply Keep. intros k bs Hk Lk. exfalso. apply last_None in El.
      apply (filter_nil_not_elem_of _ _ (k, bs) El Lk). by apply elem_of_iter. }
  apply last_range_to in El as (Hk & Lk & Hmax). destruct (Ha k bs Hk) as [K0 K1].
  rewrite checked_add_in by lia. cbn [mbind option_bind].
  assert (Hbelow : forall j c, segs !! j = Some c -> j < p -> j <> k -> j + Z.of_nat (length c) <= k).
  { intros j c Hj Lj N. apply (Hd j c k bs); try done. specialize (Hmax j c Hj Lj). lia. }
  destruct (Z.ltb_spec p (k + Z.of_nat (length bs))) as [Lp | Lp].
  2:{ apply Keep. intros j c Hj Lj. destruct (decide (j = k)) as [-> | N]; [|specialize (Hbelow j c Hj Lj N); lia].
      assert (c = bs) as -> by congruence. lia. }
  rewrite resize_le by lia. eexists. split; [done |].
  assert (Hlen : length (take (Z.to_nat (p - k)) bs) = Z.to_nat (p - k)) by (rewrite length_take; lia).
  split; [|split].
  - apply insert_disjoint; [done | intros j c Hj Lj; apply (Hd j c k bs); done |].
    intros j c Hj Lj. specialize (Hd k bs j c Hk Hj Lj). lia.
  - intros j c Hj Lj. rewrite lookup_insert in Hj. case_decide as E; simplify_eq; [lia |].
    specialize (Hbelow j c Hj Lj ltac:(congruence)). lia.
  - intros a b. apply truncate_holds; [done | done | lia | done].
Qed.

Lemma range_to_visit segs p q : to_visit (range segs p q) segs p q.
Proof.
  assert (Hmem : forall k bs, (k, bs) ∈ range segs p q <-> p <= k < q /\ segs !! k = Some bs).
  { intros k bs. unfold range. rewrite list_elem_of_filter, elem_of_iter. done. }
  split; [apply filter_sorted, iter_sorted |]. split.
  - intros k ([k' bs] & -> & [L E]%Hmem)%list_elem_of_fmap. eauto.
  - intros k [bs E] L. apply (list_elem_of_fmap_2 fst _ (k, bs)). apply Hmem. split; [lia | done].
Qed.

(** ** Staying within the address space *)

Lemma insert_in_space segs k bs :
  in_address_space segs -> 0 <= k -> k + Z.of_nat (length bs) < 2 ^ 64 -> in_address_space (<[k := bs]> segs).
Proof.
  intros Ha H0 H1 j c Hj. rewrite lookup_insert in Hj. case_decide; simplify_eq; [done | eauto].
Qed.

Lemma union_in_space s1 s2 : in_address_space s1 -> in_address_space s2 -> in_address_space (s1 ∪ s2).
Proof. intros H1 H2 k bs [H | [_ H]]%lookup_union_Some_raw; eauto. Qed.

Lemma shrink_in_space segs p segs' :
  in_address_space segs -> shrink_previous segs p = Some segs' -> in_address_space segs'.
Proof.
  intros Ha H. unfold shrink_previous in H. destruct (last _) as [[k bs]|] eqn:El; [|by simplify_eq].
  apply last_range_to in El as (Hk & _ & _). destruct (Ha k bs Hk) as [K0 K1].
  rewrite checked_add_in in H by lia. case_match eqn:E; [|by simplify_eq]. apply Z.ltb_lt in E. injection H as <-.
  apply insert_in_space; [done | done |]. rewrite length_resize. lia.
Qed.

Lemma split_loop_in_space nexts : forall p bytes new p' bytes' new' q,
  in_address_space new -> Forall (fun kv : Z * list Z => 0 <= kv.1) nexts ->
  0 <= p -> p + Z.of_nat (length bytes) <= q -> q < 2 ^ 64 ->
  split_loop nexts p bytes new = Some (p', bytes', new') ->
  in_address_space new' /\ 0 <= p' /\ p' + Z.of_nat (length bytes') <= q.
Proof.
  induction nexts as [|[k c] nexts IH]; intros p bytes new p' bytes' new' q Ha Hn Hp Hl Hq E; cbn [split_loop] in E.
  { simplify_eq. done. }
  apply Forall_cons in Hn as [Hk Hn]. cbn in Hk.
  destruct (Nat.ltb_spec (length bytes) (Z.to_nat (k - p))) as [?|Ln]; [done |].
  apply IH with (q := q) in E; [done | | done | done | rewrite length_drop; lia | done].
  assert (Ht : length (take (Z.to_nat (k - p)) bytes) = Z.to_nat (k - p)) by (rewrite length_take; lia).
  destruct (take _ bytes) eqn:Et; [done |]. rewrite <- Et in *. apply insert_in_space; [done | done | lia].
Qed.

Lemma write_last_in_space segs p bytes :
  in_address_space segs -> 0 <= p -> p + Z.of_nat (length bytes) < 2 ^ 64 ->
  in_address_space (write_last segs p bytes).
Proof.
  intros Ha Hp Hl. unfold write_last. repeat case_match; try (apply insert_in_space; done).
  destruct (Ha _ _ ltac:(eassumption)). apply insert_in_space; [done | done |].
  rewrite length_app, length_drop. match goal with H : _ = true |- _ => apply Nat.leb_le in H end. lia.
Qed.

Lemma write_bytes_in_space segs p bytes segs' :
  in_address_space segs -> 0 <= p -> p + Z.of_nat (length bytes) < 2 ^ 64 ->
  write_bytes segs p bytes = Some segs' -> in_address_space segs'.
Proof.
  intros Ha Hp Hl E. unfold write_bytes in E. destruct bytes as [|b0 bs0] eqn:Eb; [by simplify_eq |]. rewrite <- Eb in *.
  destruct (shrink_previous segs p) as [s1|] eqn:Es; [|done]. apply shrink_in_space in Es; [|done].
  rewrite checked_add_in in E by lia.
  destruct (split_loop _ _ _ _) as [[[p' bytes'] new']|] eqn:El; [|done].
  apply (split_loop_in_space _ _ _ _ _ _ _ (p + Z.of_nat (length bytes))) in El as (Hn & H0 & H1);
    [|apply empty_in_space | | done | lia | done].
  - pose proof (union_in_space _ _ Hn Es). destruct bytes'; simplify_eq; [done |].
    apply write_last_in_space; [done | done | lia].
  - apply Forall_forall. intros [k bs] [_ Hin%elem_of_iter]%list_elem_of_filter. by apply Es in Hin as [? _].
Qed.

(** What the segments are after a write of [bytes] at [p]. *)
Definition written (segs : segments_map) (p : Z) (bytes : list Z) (segs' : segments_map) : Prop :=
  forall a b, holds segs' a b
    <-> if decide (p <= a < p + Z.of_nat (length bytes))
        then bytes !! Z.to_nat (a - p) = Some b
        else holds segs a b /\ (bytes = [] \/ ~ overrun segs p a).

Lemma write_bytes_total segs p bytes :
  disjoint_segments segs -> in_address_space segs -> 0 <= p -> p + Z.of_nat (length bytes) < 2 ^ 64 ->
  exists segs', write_bytes segs p bytes = Some segs' /\ disjoint_segments segs' /\ in_address_space segs'
    /\ written segs p bytes segs'.
Proof.
  intros Hd Ha Hp Hl. pose proof (write_bytes_in_space segs p bytes) as Hs. unfold write_bytes in *.
  destruct bytes as [|b0 bs0] eqn:Eb.
  { exists segs. do 3 (split; [done |]). intros a b. rewrite decide_False by (cbn; lia). tauto. }
  rewrite <- Eb in *. assert (Hn : (0 < length bytes)%nat) by (subst; cbn; lia). clear Eb.
  destruct (shrink_previous_spec segs p Hd Ha) as (s1 & Er & D1 & E1 & H1). rewrite Er in *.
  rewrite checked_add_in in * by lia.
  set (q := p + Z.of_nat (length bytes)).
  destruct (split_loop_spec (range s1 p q) p bytes ∅ s1 q)
    as (p' & bytes' & new' & Es & Lp & -> & D2 & E2 & F2 & P2);
    rewrite ?(left_id_L ∅ (∪)) in *; try done; [lia | apply range_to_visit |].
  unfold q in Es. rewrite Es in *. fold q in Es. rewrite Es.
  assert (Hlen : q = p' + Z.of_nat (length (drop (Z.to_nat (p' - p)) bytes))) by (rewrite length_drop; lia).
  destruct (write_last_spec (new' ∪ s1) p' (drop (Z.to_nat (p' - p)) bytes) q) as [D3 P3]; [done | lia | done.. |].
  destruct (drop (Z.to_nat (p' - p)) bytes) as [|c0 cs0] eqn:Ed; [cbn in Hlen; lia |]. rewrite <- Ed in *.
  eexists. split; [done |]. split; [done |]. split; [by apply Hs |]. intros a b.
  rewrite (patched_app s1 (new' ∪ s1) _ p p' q bytes ltac:(lia) P2 P3 a b). fold q.
  case_decide; [done |]. rewrite H1. split; [tauto |]. intros [? [-> | ?]]; [cbn in *; lia | tauto].
Qed.

Definition two_chunks : segments_map := {[ 16 := [1; 2; 3; 4]; 24 := [5; 6] ]}.

Lemma two_chunks_ok : disjoint_segments two_chunks /\ in_address_space two_chunks.
Proof.
  split.
  - intros k1 bs1 k2 bs2 H1 H2 L. unfold two_chunks in *.
    rewrite lookup_insert, lookup_singleton in H1, H2. repeat case_decide; simplify_eq; cbn; lia.
  - intros k bs H. unfold two_chunks in H. rewrite lookup_insert, lookup_singleton in H.
    repeat case_decide; simplify_eq; cbn; lia.
Qed.

(** Writing bytes into a program whose segments do not overlap succeeds,
    keeps the segments from overlapping and within the address space, and leaves a program that holds the written bytes
    in the written range and the old bytes elsewhere, except that the chunk that starts
    before the range and reaches into it loses everything from the start of the range on. *)
Theorem write_bytes_spec segs p bytes :
  disjoint_segments segs -> in_address_space segs -> 0 <= p -> p + Z.of_nat (length bytes) < 2 ^ 64 ->
  exists segs', write_bytes segs p bytes = Some segs' /\ disjoint_segments segs' /\ in_address_space segs'
    /\ written segs p bytes segs'.
Proof. apply write_bytes_total. Qed.

Lemma write_bytes_spec_witness :
  write_bytes two_chunks 22 [7; 8; 9] = Some {[ 16 := [1; 2; 3; 4]; 22 := [7; 8]; 24 := [9; 6] ]}
  /\ exists segs', write_bytes two_chunks 22 [7; 8; 9] = Some segs' /\ disjoint_segments segs'
                   /\ in_address_space segs' /\ written two_chunks 22 [7; 8; 9] segs'.
Proof.
  split; [vm_compute; reflexivity |].
  apply write_bytes_spec; [apply two_chunks_ok | apply two_chunks_ok | lia | cbn; lia].
Defined.

(** A write strictly inside a chunk loses the rest of
    that chunk: no address from the end of the write to the old end of the chunk holds a
    byte any more. *)
Theorem write_inside_chunk_loses_tail segs k bs p bytes segs' a :
  disjoint_segments segs -> in_address_space segs -> segs !! k = Some bs ->
  k < p -> bytes <> [] -> p + Z.of_nat (length bytes) <= a < k + Z.of_nat (length bs) ->
  write_bytes segs p bytes = Some segs' ->
  (exists b, holds segs a b) /\ forall b, ~ holds segs' a b.
Proof.
  intros Hd Ha Hk L Hne La E. split.
  - assert (Hlt : (Z.to_nat (a - k) < length bs)%nat) by lia. destruct (lookup_lt_is_Some_2 bs _ Hlt) as [b Hb].
    exists b, k, bs. split_and!; done || lia.
  - intros b Hb. destruct (Ha k bs Hk).
    destruct (write_bytes_total segs p bytes Hd Ha) as (s & E' & _ & _ & Hw); [lia | lia |].
    assert (s = segs') as -> by congruence. apply (Hw a b) in Hb. rewrite decide_False in Hb by lia.
    destruct Hb as [_ [? | No]]; [done |]. apply No. exists k, bs. unfold covers. split_and!; done || lia.
Qed.

Lemma write_inside_chunk_loses_tail_witness :
  write_bytes two_chunks 17 [9] = Some {[ 16 := [1]; 17 := [9]; 24 := [5; 6] ]}
  /\ (exists b, holds two_chunks 18 b) /\ forall b, ~ holds {[ 16 := [1]; 17 := [9]; 24 := [5; 6] ]} 18 b.
Proof.
  assert (E : write_bytes two_chunks 17 [9] = Some {[ 16 := [1]; 17 := [9]; 24 := [5; 6] ]})
    by (vm_compute; reflexivity).
  split; [done |].
  apply (write_inside_chunk_loses_tail two_chunks 16 [1; 2; 3; 4] 17 [9]);
    [apply two_chunks_ok | apply two_chunks_ok | reflexivity | lia | done | cbn; lia | done].
Defined.

End Program.
Export Program.
