(* ===== verification/Loader.v ===== *)
(** The executable loader ([src/src/risc_v/kernel_loader/src/lib.rs]) and its two memories:
    a program ([src/src/risc_v/interpreter/src/program.rs]) and a [Cursor] over a byte
    vector.

    The loader is written against the trait [Memory], the class [Memory] here.  The
    executable itself is parsed by the [goblin] library, which is the class [Goblin]: the
    types and functions of it that the loader uses. *)

From stdpp Require Import strings.
From S2P Require Import Prelude Region Bus Program.

Open Scope Z_scope.

Module Loader.

(** ** The parsed executable *)
Class Goblin := {
  Elf : Type;
  ProgramHeader : Type;
  Reloc : Type;
  GoblinError : Type;
  elf_parse : list Z -> result Elf GoblinError;
  elf_entry : Elf -> Z;
  e_type : Elf -> Z;
  e_entry : Elf -> Z;
  program_headers : Elf -> list ProgramHeader;
  dynrelas : Elf -> list Reloc;
  p_type : ProgramHeader -> Z;
  p_paddr : ProgramHeader -> Z;
  p_vaddr : ProgramHeader -> Z;
  p_filesz : ProgramHeader -> Z;
  p_memsz : ProgramHeader -> Z;
  file_range : ProgramHeader -> Z * Z;
  r_offset : Reloc -> Z;
  r_addend : Reloc -> option Z;
  r_type : Reloc -> Z;
  PT_LOAD : Z;
  ET_EXEC : Z;
  ET_DYN : Z;
  R_RISCV_RELATIVE : Z
}.

(** [kernel_loader::Error]. *)
Inductive Error `{Goblin} : Type :=
| Write (msg : option string) (addr : Z)
| GoblinErr (e : GoblinError).

Record LoadResult : Type := mkLoadResult { entry : Z; last_written : Z }.

(** The trait [Memory]. *)
Class Memory `{Goblin} (M : Type) := {
  mem_write_bytes : Z -> list Z -> comp M Error unit;
  mem_set_zero : Z -> Z -> comp M Error unit
}.

(** The default method [Memory::set_zero]. *)
Definition default_set_zero {S E} (write : Z -> list Z -> comp S E unit) (paddr len : Z) : comp S E unit :=
  write paddr (replicate (Z.to_nat len) 0).

(** [&contents[range]]: [None] is the panic of a slice out of bounds. *)
Definition slice (contents : list Z) (range : Z * Z) : option (list Z) :=
  if (range.1 <=? range.2) && (range.2 <=? Z.of_nat (length contents))
  then Some (take (Z.to_nat (range.2 - range.1)) (drop (Z.to_nat range.1) contents)) else None.

(** [a + b] on [iW] with overflow checks. *)
Definition checked_add_signed (w a b : Z) : option Z :=
  if (- 2 ^ (w - 1) <=? a + b) && (a + b <? 2 ^ (w - 1)) then Some (a + b) else None.

(** [filter(|header| header.p_type == PT_LOAD)]. *)
Definition loadable `{Goblin} (phs : list ProgramHeader) : list ProgramHeader :=
  filter (fun ph => p_type ph = PT_LOAD) phs.

Section Loader.
Context `{Host} `{Goblin} {M : Type} `{!Memory M}.

(** The loop over the loadable segments, [address] being the target address of a
    segment; the result is [last_written]. *)
Fixpoint load_segments (address : ProgramHeader -> option Z) (contents : list Z) (last_written : Z)
    (segs : list ProgramHeader) : comp M Error Z :=
  match segs with
  | [] => comp_ret last_written
  | segment :: segs =>
      let! addr := comp_lift (address segment) in
      let! bytes := comp_lift (slice contents (file_range segment)) in
      mem_write_bytes addr bytes ;;;
      (if p_filesz segment <? p_memsz segment
       then let! first_zero := comp_lift (checked_add 64 addr (p_filesz segment)) in
            mem_set_zero first_zero (p_memsz segment - p_filesz segment)
       else comp_ret tt) ;;;
      let! last_written := comp_lift (checked_add 64 addr (p_memsz segment)) in
      load_segments address contents last_written segs
  end.

Definition load_elf_nonreloc (elf : Elf) (contents : list Z) : comp M Error LoadResult :=
  let! last_written := load_segments (fun s => Some (p_paddr s)) contents 0 (loadable (program_headers elf)) in
  comp_ret (mkLoadResult (elf_entry elf) last_written).

(** The loop over the relocations: [R_RISCV_RELATIVE] only. *)
Fixpoint apply_relocations (start : Z) (rs : list Reloc) : comp M Error unit :=
  match rs with
  | [] => comp_ret tt
  | r :: rs =>
      if r_type r =? R_RISCV_RELATIVE
      then
        let! relocated := comp_lift (checked_add_signed 64 (sint 64 start) (default 0 (r_addend r))) in
        let! addr := comp_lift (checked_add 64 start (r_offset r)) in
        mem_write_bytes addr (DynRegion.host_bytes host 8 relocated) ;;;
        apply_relocations start rs
      else comp_lift None
  end.

Definition load_elf_reloc (start : Z) (elf : Elf) (contents : list Z) : comp M Error LoadResult :=
  let! last_written :=
    load_segments (fun s => checked_add 64 start (p_vaddr s)) contents start (loadable (program_headers elf)) in
  apply_relocations start (dynrelas elf) ;;;
  let! entry := comp_lift (checked_add 64 (e_entry elf) start) in
  comp_ret (mkLoadResult entry last_written).

Definition load_elf (start : Z) (contents : list Z) : comp M Error LoadResult :=
  match elf_parse contents with
  | Err e => comp_throw (GoblinErr e)
  | Ok elf =>
      if e_type elf =? ET_EXEC then load_elf_nonreloc elf contents
      else if e_type elf =? ET_DYN then load_elf_reloc start elf contents
      else comp_lift None
  end.

End Loader.

(** [mem_size]: the span of the loadable segments; [None] is an overflow. *)
Fixpoint segment_ends `{Goblin} (phs : list ProgramHeader) : option (list Z) :=
  match phs with
  | [] => Some []
  | ph :: phs =>
      let? e := checked_add 64 (p_vaddr ph) (p_memsz ph) in
      let? es := segment_ends phs in
      Some (e :: es)
  end.

Definition iter_min (l : list Z) : option Z :=
  match l with [] => None | x :: l => Some (foldl Z.min x l) end.

Definition iter_max (l : list Z) : option Z :=
  match l with [] => None | x :: l => Some (foldl Z.max x l) end.

Definition mem_size `{Goblin} (phs : list ProgramHeader) : option Z :=
  let phs := loadable phs in
  let min := iter_min (map p_vaddr phs) in
  let? ends := segment_ends phs in
  match min, iter_max ends with
  | Some min, Some max => checked_sub max min
  | _, _ => Some 0
  end.

(** ** The memories *)

(** [impl Memory for Program]. *)
Definition program_write_bytes `{Goblin} (paddr : Z) (bytes : list Z) : comp Program Error unit :=
  fun p => match write_bytes (segments p) paddr bytes with
           | Some segs => Ret tt (mkProgram (entrypoint p) segs)
           | None => Panic
           end.

#[export] Instance program_memory `{Goblin} : Memory Program := {
  mem_write_bytes := program_write_bytes;
  mem_set_zero := default_set_zero program_write_bytes
}.

(** [Program::from_elf]. *)
Definition from_elf `{Host} `{Goblin} (elf : list Z) : option (result Program Error) :=
  match load_elf start_of_main_memory elf (mkProgram start_of_main_memory ∅) with
  | Ret r p => Some (Ok (mkProgram (entry r) (segments p)))
  | Throw e _ => Some (Err e)
  | Panic => None
  end.

(** [impl Memory for Cursor<Vec<u8>>]: a write beyond the end fills the gap with zeroes,
    and [write_all] of no bytes writes nothing. *)
Definition cursor_write_bytes `{Goblin} (paddr : Z) (bytes : list Z) : comp (list Z) Error unit :=
  fun buf =>
    match bytes with
    | [] => Ret tt buf
    | _ =>
        let p := Z.to_nat paddr in
        Ret tt (take p buf ++ replicate (p - length buf) 0 ++ bytes ++ drop (p + length bytes) buf)
    end.

#[export] Instance cursor_memory `{Goblin} : Memory (list Z) := {
  mem_write_bytes := cursor_write_bytes;
  mem_set_zero := default_set_zero cursor_write_bytes
}.

(** ** What the loader relies on *)

(** The range of a program header in the file, [p_offset..p_offset + p_filesz], has the
    size the header gives; addresses, offsets and sizes are unsigned. *)
Class GoblinOk (G : Goblin) : Prop := {
  file_range_size ph : 0 <= (file_range ph).1 /\ (file_range ph).2 - (file_range ph).1 = p_filesz ph;
  header_unsigned ph : 0 <= p_paddr ph /\ 0 <= p_vaddr ph /\ 0 <= p_filesz ph;
  reloc_unsigned r : 0 <= r_offset r
}.

(** What a memory promises: [mem_view m a b] says that [m] holds [b] at address [a].
    A write to an address that holds nothing yet succeeds, the memory then holds the
    bytes, keeps what it held below and is unchanged above. *)
Class MemoryLaws `{Goblin} (M : Type) `{!Memory M} := {
  mem_ok : M -> Prop;
  mem_view : M -> Z -> Z -> Prop;
  write_law m p bytes :
    mem_ok m -> 0 <= p -> p + Z.of_nat (length bytes) < 2 ^ 64 -> (forall b, ~ mem_view m p b) ->
    exists m', mem_write_bytes p bytes m = Ret tt m' /\ mem_ok m'
      /\ (forall i b, bytes !! i = Some b -> mem_view m' (p + Z.of_nat i) b)
      /\ (forall a b, a < p -> mem_view m a b -> mem_view m' a b)
      /\ (forall a b, p + Z.of_nat (length bytes) <= a -> mem_view m' a b -> mem_view m a b);
  set_zero_law m p len : mem_set_zero p len m = mem_write_bytes p (replicate (Z.to_nat len) 0) m
}.

(** The bytes of a segment in memory: those of the file, then zeroes. *)
Definition segment_bytes `{Goblin} (contents : list Z) (ph : ProgramHeader) : option (list Z) :=
  let? bytes := slice contents (file_range ph) in
  Some (bytes ++ replicate (Z.to_nat (p_memsz ph - p_filesz ph)) 0).

(** The segments lie in increasing order from [lo] on, within the address space, and
    their bytes within the file. *)
Fixpoint placed_from `{Goblin} (address : ProgramHeader -> option Z) (contents : list Z) (lo : Z)
    (segs : list ProgramHeader) : Prop :=
  match segs with
  | [] => True
  | ph :: segs =>
      exists addr bytes,
        address ph = Some addr /\ segment_bytes contents ph = Some bytes
        /\ 0 <= lo <= addr /\ 0 <= p_filesz ph <= p_memsz ph
        /\ addr + p_memsz ph < 2 ^ 64
        /\ placed_from address contents (addr + p_memsz ph) segs
  end.

(** [last_written] after loading [segs]. *)
Fixpoint end_of_last `{Goblin} (address : ProgramHeader -> option Z) (last : Z) (segs : list ProgramHeader) : Z :=
  match segs with
  | [] => last
  | ph :: segs => end_of_last address (default 0 (address ph) + p_memsz ph) segs
  end.

Section LoaderSpec.
Context `{Host} `{G : Goblin} `{!GoblinOk G} {M : Type} `{!Memory M} `{!MemoryLaws M}.

(** Nothing is held from [lo] on. *)
Definition empty_from (m : M) (lo : Z) : Prop := forall a b, lo <= a -> ~ mem_view m a b.

Lemma length_slice contents r bytes : slice contents r = Some bytes -> 0 <= r.1 -> Z.of_nat (length bytes) = r.2 - r.1.
Proof.
  unfold slice. intros E Hr. case_match eqn:C; [|done]. apply andb_prop in C as [C1 C2].
  apply Z.leb_le in C1, C2. injection E as <-. rewrite length_take, length_drop. lia.
Qed.

(** Writing to an empty upper part of the memory. *)
Lemma write_empty m p bytes :
  mem_ok m -> 0 <= p -> p + Z.of_nat (length bytes) < 2 ^ 64 -> empty_from m p ->
  exists m', mem_write_bytes p bytes m = Ret tt m' /\ mem_ok m'
    /\ (forall i b, bytes !! i = Some b -> mem_view m' (p + Z.of_nat i) b)
    /\ (forall a b, a < p -> mem_view m a b -> mem_view m' a b)
    /\ empty_from m' (p + Z.of_nat (length bytes)).
Proof.
  intros Hok Hp Hl He.
  destruct (write_law m p bytes Hok Hp Hl) as (m' & E & Hok' & Hin & Hlo & Hhi); [intros b; by apply He |].
  exists m'. do 4 (split; [done |]). intros a b La Hb. apply (He a b); [lia | by apply Hhi].
Qed.

(** Loading one segment, before what follows it. *)
Lemma write_segment {A} (k : comp M Error A) m addr ph file :
  mem_ok m -> 0 <= addr -> empty_from m addr -> Z.of_nat (length file) = p_filesz ph ->
  p_filesz ph <= p_memsz ph -> addr + p_memsz ph < 2 ^ 64 ->
  exists m',
    (mem_write_bytes addr file ;;;
     (if p_filesz ph <? p_memsz ph
      then let! first_zero := comp_lift (checked_add 64 addr (p_filesz ph)) in
           mem_set_zero first_zero (p_memsz ph - p_filesz ph)
      else comp_ret tt) ;;; k) m = k m'
    /\ mem_ok m'
    /\ (forall i b, (file ++ replicate (Z.to_nat (p_memsz ph - p_filesz ph)) 0) !! i = Some b ->
          mem_view m' (addr + Z.of_nat i) b)
    /\ (forall a b, a < addr -> mem_view m a b -> mem_view m' a b)
    /\ empty_from m' (addr + p_memsz ph).
Proof.
  intros Hok H0 He Hl Hs Ha. unfold comp_bind.
  destruct (write_empty m addr file) as (m1 & E1 & Hok1 & Hin1 & Hlo1 & He1); [done | done | lia | done |].
  rewrite E1. destruct (Z.ltb_spec (p_filesz ph) (p_memsz ph)) as [L | L].
  - rewrite checked_add_in by lia. cbn [comp_lift]. rewrite set_zero_law.
    set (zs := replicate (Z.to_nat (p_memsz ph - p_filesz ph)) 0).
    assert (Hz : Z.of_nat (length zs) = p_memsz ph - p_filesz ph) by (unfold zs; rewrite length_replicate; lia).
    rewrite Hl in He1.
    destruct (write_empty m1 (addr + p_filesz ph) zs) as (m2 & E2 & Hok2 & Hin2 & Hlo2 & He2); [done | lia | lia | done |].
    rewrite E2. exists m2. split; [done |]. split; [done |]. split; [|split].
    + intros i b [Hi | [Li Hi]]%lookup_app_Some.
      * pose proof (lookup_lt_Some _ _ _ Hi). apply Hlo2; [lia | by apply Hin1].
      * specialize (Hin2 _ _ Hi). replace (addr + Z.of_nat i) with
          (addr + p_filesz ph + Z.of_nat (i - length file)) by lia. done.
    + intros a b La Hb. apply Hlo2; [lia | by apply Hlo1].
    + by replace (addr + p_memsz ph) with (addr + p_filesz ph + Z.of_nat (length zs)) by lia.
  - exists m1. split; [done |]. split; [done |].
    replace (Z.to_nat (p_memsz ph - p_filesz ph)) with 0%nat by lia. cbn [replicate]. rewrite app_nil_r.
    split; [done |]. split; [done |]. by replace (addr + p_memsz ph) with (addr + Z.of_nat (length file)) by lia.
Qed.

(** Loading all of them. *)
Lemma load_segments_spec address contents segs : forall m lo last,
  mem_ok m -> empty_from m lo -> placed_from address contents lo segs ->
  exists m', load_segments address contents last segs m = Ret (end_of_last address last segs) m'
    /\ mem_ok m' /\ (forall a b, a < lo -> mem_view m a b -> mem_view m' a b)
    /\ (forall ph addr bytes i b, ph ∈ segs -> address ph = Some addr -> segment_bytes contents ph = Some bytes ->
          bytes !! i = Some b -> mem_view m' (addr + Z.of_nat i) b).
Proof using Type*.
  induction segs as [|ph segs IH]; intros m lo last Hok He Hp; cbn [load_segments placed_from end_of_last] in *.
  { exists m. do 3 (split; [done |]). intros ph ? ? ? ? Hin. by apply elem_of_nil in Hin. }
  destruct Hp as (addr & bytes & Ea & Eb & L1 & L2 & L3 & Hp). rewrite Ea. cbn [default].
  unfold segment_bytes in Eb. destruct (slice contents (file_range ph)) as [file|] eqn:Ef; [|done].
  injection Eb as <-. destruct (file_range_size ph) as [Hr0 Hr1].
  pose proof (length_slice _ _ _ Ef Hr0) as Hlen.
  destruct (write_segment
    (let! last := comp_lift (checked_add 64 addr (p_memsz ph)) in load_segments address contents last segs)
    m addr ph file) as (m1 & E1 & Hok1 & Hin1 & Hlo1 & He1); [done | lia | | lia | lia | lia |].
  { intros a b La. apply He. lia. }
  destruct (IH m1 _ (addr + p_memsz ph) Hok1 He1 Hp) as (m2 & E2 & Hok2 & Hlo2 & Hin2).
  exists m2. split; [|split; [done |]; split].
  - unfold comp_bind at 1 2, comp_lift at 1 2. rewrite E1.
    rewrite checked_add_in by lia. cbn [comp_bind comp_lift]. exact E2.
  - intros a b La Hb. apply Hlo2; [lia |]. apply Hlo1; [lia | done].
  - intros ph' addr' bytes' i b [-> | Hin]%elem_of_cons Ea' Eb' Hi; [|by eapply Hin2].
    assert (addr' = addr) as -> by congruence. unfold segment_bytes in Eb'. rewrite Ef in Eb'. injection Eb' as <-.
    pose proof (lookup_lt_Some _ _ _ Hi) as Hlt. rewrite length_app, length_replicate in Hlt.
    apply Hlo2; [lia | by apply Hin1].
Qed.

(** Where the segments of an executable go. *)
Definition segment_address (start : Z) (elf : Elf) (ph : ProgramHeader) : option Z :=
  if e_type elf =? ET_EXEC then Some (p_paddr ph) else checked_add 64 start (p_vaddr ph).

(** The executables without relocations the loader accepts. *)
Definition plain_executable (start : Z) (elf : Elf) : Prop :=
  e_type elf = ET_EXEC
  \/ (e_type elf <> ET_EXEC /\ e_type elf = ET_DYN /\ dynrelas elf = []
      /\ 0 <= e_entry elf /\ 0 <= start /\ e_entry elf + start < 2 ^ 64).

Lemma load_plain start contents elf lo m :
  elf_parse contents = Ok elf -> plain_executable start elf -> mem_ok m -> empty_from m lo ->
  placed_from (segment_address start elf) contents lo (loadable (program_headers elf)) ->
  exists r m', load_elf start contents m = Ret r m' /\ mem_ok m'
    /\ entry r = (if e_type elf =? ET_EXEC then elf_entry elf else e_entry elf + start)
    /\ (forall ph addr bytes i b,
          ph ∈ loadable (program_headers elf) -> segment_address start elf ph = Some addr ->
          segment_bytes contents ph = Some bytes -> bytes !! i = Some b -> mem_view m' (addr + Z.of_nat i) b).
Proof using Type*.
  intros Hparse Hplain Hok He Hp. unfold load_elf, segment_address in *. rewrite Hparse.
  destruct (Z.eqb_spec (e_type elf) ET_EXEC) as [E | N].
  - destruct (load_segments_spec _ contents _ m lo 0 Hok He Hp) as (m' & Er & Hok' & _ & Hin).
    unfold load_elf_nonreloc, comp_bind. rewrite Er. eexists _, m'. cbn. eauto.
  - destruct Hplain as [? | (_ & Ed & En & H0 & H1 & H2)]; [done |].
    rewrite Ed, Z.eqb_refl. unfold load_elf_reloc, comp_bind. rewrite En.
    destruct (load_segments_spec _ contents _ m lo start Hok He Hp) as (m' & Er & Hok' & _ & Hin).
    rewrite Er. cbn [apply_relocations comp_ret]. rewrite checked_add_in by lia. eexists _, m'. cbn. eauto.
Qed.

End LoaderSpec.

(** ** The memories keep the promise *)

#[export, program] Instance program_laws `{Goblin} : MemoryLaws Program := {
  mem_ok p := disjoint_segments (segments p) /\ in_address_space (segments p);
  mem_view p a b := holds (segments p) a b
}.
Next Obligation.
  intros G p0 p bytes [Hd Ha] Hp Hl He.
  destruct (write_bytes_total (segments p0) p bytes Hd Ha Hp Hl) as (s & E & Hd' & Ha' & Hw).
  exists (mkProgram (entrypoint p0) s). cbn. unfold program_write_bytes. rewrite E.
  split; [done |]. split; [done |].
  assert (No : forall a, ~ overrun (segments p0) p a).
  { intros a (k & bs & Hk & Lk & La & C). unfold covers in C.
    destruct (lookup_lt_is_Some_2 bs (Z.to_nat (p - k))) as [b Hb]; [lia |].
    apply (He b). exists k, bs. split; [done |]. split; [lia | done]. }
  split; [|split].
  - intros i b Hi. apply Hw. pose proof (lookup_lt_Some _ _ _ Hi). rewrite decide_True by lia.
    by replace (Z.to_nat (p + Z.of_nat i - p)) with i by lia.
  - intros a b La Hb. apply Hw. rewrite decide_False by lia. auto.
  - intros a b La Hb. apply Hw in Hb. rewrite decide_False in Hb by lia. apply Hb.
Qed.
Next Obligation. done. Qed.

(** Reading a [Cursor]'s buffer after a write. *)
Lemma cursor_lookup `{Goblin} buf p bytes (i : nat) :
  bytes <> [] ->
  exists buf', cursor_write_bytes p bytes buf = Ret tt buf'
    /\ buf' !! i = (if decide (Z.to_nat p <= i < Z.to_nat p + length bytes)%nat
                     then bytes !! (i - Z.to_nat p)%nat
                     else if decide (length buf <= i < Z.to_nat p)%nat then Some 0 else buf !! i).
Proof.
  intros Hne. unfold cursor_write_bytes. destruct bytes as [|b0 bs0] eqn:Eb; [done |]. rewrite <- Eb. clear Eb.
  eexists. split; [done |]. rewrite !lookup_app, length_take, length_replicate.
  repeat case_decide; try lia.
  - rewrite (lookup_ge_None_2 (take _ _)) by (rewrite length_take; lia).
    rewrite (lookup_ge_None_2 (replicate _ _)) by (rewrite length_replicate; lia).
    destruct (lookup_lt_is_Some_2 bytes (i - Z.to_nat p)%nat) as [b Hb]; [lia |].
    replace (i - Z.to_nat p `min` length buf - (Z.to_nat p - length buf))%nat with (i - Z.to_nat p)%nat by lia.
    by rewrite Hb.
  - rewrite (lookup_ge_None_2 (take _ _)) by (rewrite length_take; lia).
    rewrite lookup_replicate_2 by lia. done.
  - destruct (decide (i < Z.to_nat p)%nat).
    + rewrite lookup_take_lt by lia. destruct (buf !! i) eqn:Ei; [done |]. apply lookup_ge_None_1 in Ei. lia.
    + rewrite (lookup_ge_None_2 (take _ _)) by (rewrite length_take; lia).
      rewrite (lookup_ge_None_2 (replicate _ _)) by (rewrite length_replicate; lia).
      rewrite (lookup_ge_None_2 bytes) by lia. rewrite lookup_drop. f_equal. lia.
Qed.

#[export, program] Instance cursor_laws `{Goblin} : MemoryLaws (list Z) := {
  mem_ok buf := True;
  mem_view buf a b := 0 <= a /\ buf !! Z.to_nat a = Some b
}.
Next Obligation.
  intros G buf p bytes _ Hp Hl He. cbn. destruct (decide (bytes = [])) as [-> | Hne].
  { exists buf. do 2 (split; [done |]). split; [done |]. auto. }
  destruct (cursor_lookup buf p bytes 0 Hne) as (buf' & E & _). exists buf'. split; [done |]. split; [done |].
  assert (Hb : forall i, buf' !! i = _) by
    (intros i; destruct (cursor_lookup buf p bytes i Hne) as (buf2 & E2 & Hi);
     assert (buf2 = buf') as -> by congruence; exact Hi).
  split; [|split].
  - intros i b Hi. pose proof (lookup_lt_Some _ _ _ Hi). split; [lia |]. rewrite Hb, decide_True by lia.
    by replace (Z.to_nat (p + Z.of_nat i) - Z.to_nat p)%nat with i by lia.
  - intros a b La [L0 Hi]. pose proof (lookup_lt_Some _ _ _ Hi). split; [done |].
    rewrite Hb, !decide_False by lia. done.
  - intros a b La [L0 Hi]. rewrite Hb, !decide_False in Hi by lia. done.
Qed.
Next Obligation. done. Qed.

(** ** A program is a view of the flat memory *)

(** The bytes of the program are those of the buffer. *)
Definition agrees (p : Program) (buf : list Z) : Prop :=
  disjoint_segments (segments p) /\ in_address_space (segments p)
  /\ forall a b, holds (segments p) a b -> 0 <= a /\ buf !! Z.to_nat a = Some b.

Section Simulation.
Context `{Host} `{G : Goblin} `{!GoblinOk G}.

(** Where the first computation does not panic, the second does the same. *)
Definition simulates {A} (c1 : comp Program Error A) (c2 : comp (list Z) Error A) : Prop :=
  forall p buf, agrees p buf ->
    match c1 p with
    | Ret a p' => exists buf', c2 buf = Ret a buf' /\ agrees p' buf'
    | Throw e p' => exists buf', c2 buf = Throw e buf' /\ agrees p' buf'
    | Panic => True
    end.

Lemma simulates_ret {A} (a : A) : simulates (comp_ret a) (comp_ret a).
Proof. intros p buf Ha. cbn. eauto. Qed.

Lemma simulates_throw {A} e : simulates (A := A) (comp_throw e) (comp_throw e).
Proof. intros p buf Ha. cbn. eauto. Qed.

Lemma simulates_lift {A B} (o : option A) (k1 : A -> comp Program Error B) k2 :
  (forall a, o = Some a -> simulates (k1 a) (k2 a)) ->
  simulates (comp_bind (comp_lift o) k1) (comp_bind (comp_lift o) k2).
Proof. intros Hk p buf Ha. unfold comp_bind, comp_lift. destruct o; [by apply Hk | done]. Qed.

Lemma simulates_bind {A B} (c1 : comp Program Error A) c2 (k1 : A -> comp Program Error B) k2 :
  simulates c1 c2 -> (forall a, simulates (k1 a) (k2 a)) -> simulates (comp_bind c1 k1) (comp_bind c2 k2).
Proof.
  intros Hc Hk p buf Ha. specialize (Hc p buf Ha). unfold comp_bind.
  destruct (c1 p); [|destruct Hc as (buf' & -> & ?); eauto | done].
  destruct Hc as (buf' & -> & Ha'). by apply Hk.
Qed.

Lemma simulates_write a bytes : 0 <= a -> simulates (mem_write_bytes a bytes) (mem_write_bytes a bytes).
Proof.
  intros H0 p buf (Hd & Ha & Hv). cbn. unfold program_write_bytes.
  destruct (decide (bytes = [])) as [-> | Hne]; [cbn; exists buf; destruct p; done |].
  destruct (Z.ltb_spec (a + Z.of_nat (length bytes)) (2 ^ 64)) as [L | L].
  - destruct (write_bytes_total (segments p) a bytes Hd Ha H0 L) as (s & -> & Hd' & Ha' & Hw).
    destruct (cursor_lookup buf a bytes 0 Hne) as (buf' & E & _). exists buf'. split; [done |].
    split; [done |]. split; [done |]. cbn. intros c b Hb. destruct (holds_covers _ _ _ Hb) as (k & bs & Hk & C & _).
    unfold covers in C. destruct (Ha' k bs Hk). split; [lia |].
    destruct (cursor_lookup buf a bytes (Z.to_nat c) Hne) as (buf2 & E2 & Hi2).
    assert (buf2 = buf') as -> by congruence. rewrite Hi2. apply Hw in Hb.
    case_decide as D.
    + rewrite decide_True in Hb by lia. by replace (Z.to_nat c - Z.to_nat a)%nat with (Z.to_nat (c - a)) by lia.
    + rewrite decide_False in Hb by lia. destruct Hb as [Hb _]. apply Hv in Hb as [_ Hi].
      pose proof (lookup_lt_Some _ _ _ Hi). rewrite decide_False by lia. done.
  - destruct (write_bytes _ _ _) eqn:E; [|done]. exfalso. unfold write_bytes in E.
    destruct bytes as [|b0 bs0] eqn:Eb; [done |]. rewrite <- Eb in *.
    destruct (shrink_previous _ _); [|done]. unfold checked_add in E.
    rewrite (proj2 (Z.ltb_ge _ _)) in E by lia. done.
Qed.

Lemma simulates_segments address contents segs :
  (forall ph a, address ph = Some a -> 0 <= a) ->
  forall last, simulates (load_segments address contents last segs) (load_segments address contents last segs).
Proof using Type*.
  intros Hpos. induction segs as [|ph segs IH]; intros last; cbn [load_segments]; [apply simulates_ret |].
  apply simulates_lift. intros addr Ea. apply Hpos in Ea. apply simulates_lift. intros bytes _.
  apply simulates_bind; [by apply simulates_write |]. intros _.
  apply simulates_bind; [|intros _; apply simulates_lift; auto].
  case_match; [|apply simulates_ret]. apply simulates_lift. intros z Ez. apply simulates_write.
  unfold checked_add in Ez. case_match; [|done]. injection Ez as <-. destruct (header_unsigned ph) as (_ & _ & ?). lia.
Qed.

Lemma simulates_relocations start rs :
  0 <= start -> simulates (apply_relocations start rs) (apply_relocations start rs).
Proof using Type*.
  intros H0. induction rs as [|r rs IH]; cbn [apply_relocations]; [apply simulates_ret |].
  case_match; [|by intros p buf Ha]. apply simulates_lift. intros v _. apply simulates_lift. intros a Ea.
  apply simulates_bind; [|done]. apply simulates_write. unfold checked_add in Ea. case_match; [|done].
  injection Ea as <-. pose proof (reloc_unsigned r). lia.
Qed.

Lemma simulates_load start contents :
  0 <= start -> simulates (load_elf start contents) (load_elf start contents).
Proof using Type*.
  intros H0. unfold load_elf. destruct (elf_parse contents) as [elf|e]; [|apply simulates_throw].
  case_match; [|case_match; [|by intros p buf Ha]].
  - apply simulates_bind; [|intros; apply simulates_ret]. apply simulates_segments.
    intros ph a [= <-]. apply header_unsigned.
  - apply simulates_bind; [apply simulates_segments |].
    { intros ph a Ea. unfold checked_add in Ea. case_match; [|done]. injection Ea as <-.
      destruct (header_unsigned ph) as (_ & ? & _). lia. }
    intros last. apply simulates_bind; [by apply simulates_relocations |]. intros _.
    apply simulates_lift. intros. apply simulates_ret.
Qed.

End Simulation.

(** ** Properties *)

(** A small parsed executable: two loadable segments of a 32-byte file and a note
    between them, with the given relocations. *)
Record SampleHeader : Type := mkHeader { sh_type : N; sh_offset : N; sh_addr : N; sh_filesz : N; sh_memsz : N }.

Definition sample_headers : list SampleHeader :=
  [mkHeader 1 0 100 16 20; mkHeader 4 0 0 4 4; mkHeader 1 16 128 16 16].

Definition sample_goblin (type_ : Z) (relocs : list (N * Z)) : Goblin := {|
  Elf := unit;
  ProgramHeader := SampleHeader;
  Reloc := N * Z;
  GoblinError := unit;
  elf_parse := fun bytes => if decide (length bytes = 32%nat) then Ok tt else Err tt;
  elf_entry := fun _ => 104;
  e_type := fun _ => type_;
  e_entry := fun _ => 104;
  program_headers := fun _ => sample_headers;
  dynrelas := fun _ => relocs;
  p_type := fun h => Z.of_N (sh_type h);
  p_paddr := fun h => Z.of_N (sh_addr h);
  p_vaddr := fun h => Z.of_N (sh_addr h);
  p_filesz := fun h => Z.of_N (sh_filesz h);
  p_memsz := fun h => Z.of_N (sh_memsz h);
  file_range := fun h => (Z.of_N (sh_offset h), Z.of_N (sh_offset h) + Z.of_N (sh_filesz h));
  r_offset := fun r => Z.of_N r.1;
  r_addend := fun r => Some r.2;
  r_type := fun _ => 3;
  PT_LOAD := 1;
  ET_EXEC := 2;
  ET_DYN := 3;
  R_RISCV_RELATIVE := 3
|}.

#[export] Instance sample_ok type_ relocs : GoblinOk (sample_goblin type_ relocs).
Proof. split; intros; cbn; lia. Qed.

Definition sample_file : list Z := Z.of_nat <$> seq 1 32.


(** Loading an executable without relocations whose segments
    lie in increasing order succeeds on every memory that keeps the promise of the trait,
    reports the entry point, and leaves every byte of every loadable segment at its
    address: the bytes of the file, then zeroes up to the size in memory. *)
Theorem loader_places_segments `{Host} `{G : Goblin} `{!GoblinOk G} {M} `{!Memory M} `{!MemoryLaws M}
    start contents elf lo (m : M) :
  elf_parse contents = Ok elf -> plain_executable start elf -> mem_ok m -> empty_from m lo ->
  placed_from (segment_address start elf) contents lo (loadable (program_headers elf)) ->
  exists r m', load_elf start contents m = Ret r m' /\ mem_ok m'
    /\ entry r = (if e_type elf =? ET_EXEC then elf_entry elf else e_entry elf + start)
    /\ (forall ph addr bytes i b,
          ph ∈ loadable (program_headers elf) -> segment_address start elf ph = Some addr ->
          segment_bytes contents ph = Some bytes -> bytes !! i = Some b -> mem_view m' (addr + Z.of_nat i) b).
Proof. apply load_plain. Qed.

Lemma loader_places_segments_witness :
  let G := sample_goblin 3 [] in
  load_elf (H := LittleEndian) 1000 sample_file (mkProgram 0 ∅)
  = Ret (mkLoadResult 1104 1144)
        (mkProgram 0 {[ 1100 := Z.of_nat <$> seq 1 16; 1116 := [0; 0; 0; 0];
                        1128 := Z.of_nat <$> seq 17 16 ]})
  /\ exists r m', load_elf (H := LittleEndian) 1000 sample_file (mkProgram 0 ∅) = Ret r m' /\ mem_ok m'
    /\ entry r = 1104.
Proof.
  intros G. split; [vm_compute; reflexivity |].
  destruct (loader_places_segments (H := LittleEndian) (G := G) 1000 sample_file tt 0 (mkProgram 0 ∅))
    as (r & m' & E & Hok & Hr & _).
  - reflexivity.
  - right. cbn. split; [lia |]. split; [done |]. split; [done |]. lia.
  - split; [apply empty_disjoint | apply empty_in_space].
  - intros a b _. apply empty_holds.
  - exists 1100, ((Z.of_nat <$> seq 1 16) ++ [0; 0; 0; 0]). split; [vm_compute; reflexivity |].
    split; [vm_compute; reflexivity |]. cbn -[Z.pow]. split; [lia |]. split; [lia |]. split; [lia |].
    exists 1128, (Z.of_nat <$> seq 17 16). split; [vm_compute; reflexivity |].
    split; [vm_compute; reflexivity |]. cbn -[Z.pow]. split; [lia |]. split; [lia |]. split; [lia | done].
  - exists r, m'. split; [done |]. split; [done |]. rewrite Hr. reflexivity.
Defined.

(** A program loaded from an executable, relocations
    included, keeps its segments disjoint, has the entry point the loader reports for a flat
    memory, and every byte it holds is the byte the flat memory has at that address. *)
Theorem program_agrees_with_flat_memory `{Host} `{G : Goblin} `{!GoblinOk G} contents prog :
  from_elf contents = Some (Ok prog) ->
  disjoint_segments (segments prog)
  /\ exists r buf, load_elf start_of_main_memory contents ([] : list Z) = Ret r buf
      /\ entrypoint prog = entry r
      /\ forall a b, holds (segments prog) a b -> 0 <= a /\ buf !! Z.to_nat a = Some b.
Proof.
  unfold from_elf. intros E.
  pose proof (simulates_load start_of_main_memory contents ltac:(vm_compute; discriminate)
    (mkProgram start_of_main_memory ∅) []) as Hs.
  destruct (load_elf start_of_main_memory contents (mkProgram _ _)) as [r p| |] eqn:El; [|done..].
  injection E as <-. destruct Hs as (buf & Eb & Hd & _ & Hv).
  - split; [apply empty_disjoint |]. split; [apply empty_in_space |]. intros a b Hb. by apply empty_holds in Hb.
  - split; [done |]. eauto.
Qed.

Lemma program_agrees_with_flat_memory_witness :
  let G := sample_goblin 3 [(128%N, 7)] in
  let H : Host := LittleEndian in
  let prog := mkProgram (start_of_main_memory + 104)
    {[ start_of_main_memory + 100 := Z.of_nat <$> seq 1 16;
       start_of_main_memory + 116 := [0; 0; 0; 0];
       start_of_main_memory + 128 := [7; 0; 0; 128; 0; 0; 0; 0] ++ (Z.of_nat <$> seq 25 8) ]} in
  disjoint_segments (segments prog)
  /\ exists r buf, load_elf start_of_main_memory sample_file ([] : list Z) = Ret r buf
      /\ entrypoint prog = entry r
      /\ forall a b, holds (segments prog) a b -> 0 <= a /\ buf !! Z.to_nat a = Some b.
Proof.
  intros G H prog. apply (program_agrees_with_flat_memory (G := G)). vm_compute. reflexivity.
Defined.

(** A relocation inside a segment, but not at its start,
    drops the rest of the segment from the program: loading the same executable, the flat
    memory has the byte 13 of the file at address 1112 and the program has nothing there. *)
Theorem relocation_loses_segment_tail :
  let G := sample_goblin 3 [(104%N, 7)] in
  let H : Host := LittleEndian in
  exists r p buf,
    load_elf 1000 sample_file (mkProgram 0 ∅) = Ret r p
    /\ load_elf 1000 sample_file ([] : list Z) = Ret r buf
    /\ buf !! 1112%nat = Some 13
    /\ forall b, ~ holds (segments p) 1112 b.
Proof.
  intros G H. eexists _, (mkProgram 0 {[ 1100 := [1; 2; 3; 4]; 1104 := [239; 3; 0; 0; 0; 0; 0; 0];
      1116 := [0; 0; 0; 0]; 1128 := Z.of_nat <$> seq 17 16 ]}), _.
  split; [vm_compute; reflexivity |]. split; [vm_compute; reflexivity |]. split; [vm_compute; reflexivity |].
  intros b (k & bs & Hk & C & _)%holds_covers. unfold covers in C. cbn [segments] in Hk.
  rewrite !lookup_insert, lookup_singleton in Hk. repeat case_decide; simplify_eq; cbn in C; lia.
Qed.

End Loader.
Export Loader.
