(* ===== verification/Boot.v ===== *)
(** Booting: the device tree ([src/src/risc_v/interpreter/src/devicetree.rs]),
    [MachineState::setup_boot] ([machine_state.rs]) and [Interpreter::new] ([lib.rs]).

    The device tree is written by the [vm_fdt] library, the class [FdtWriter] here: its
    operations are the parameters of [generate_custom]. *)

From stdpp Require Import strings.
From S2P Require Import Prelude Region Registers Mode Traps CSRFields CSRegisters HartState Bus Machine TrapSpec MachineProps ExecEnv Interpreter Program Loader.

Open Scope Z_scope.

Module Boot.

(** ** The device tree *)
Class FdtWriter := {
  Fdt : Type;
  FdtNode : Type;
  FdtError : Type;
  fdt_new : result Fdt FdtError;
  begin_node : string -> comp Fdt FdtError FdtNode;
  end_node : FdtNode -> comp Fdt FdtError unit;
  property_u32 : string -> Z -> comp Fdt FdtError unit;
  property_u64 : string -> Z -> comp Fdt FdtError unit;
  property_string : string -> string -> comp Fdt FdtError unit;
  property_array_u64 : string -> list Z -> comp Fdt FdtError unit;
  property_phandle : Z -> comp Fdt FdtError unit;
  finish : Fdt -> result (list Z) FdtError
}.

Record InitialRamDisk : Type := mkInitrd { ird_start : Z; ird_length : Z }.

(** [{:x}]: lower-case hexadecimal digits without leading zeroes. *)
Definition hex_digit (d : Z) : string :=
  match String.get (Z.to_nat d) "0123456789abcdef" with Some c => String c EmptyString | None => EmptyString end.

Fixpoint hex_digits (fuel : nat) (x : Z) (acc : string) : string :=
  match fuel with
  | O => acc
  | S fuel =>
      let acc := (hex_digit (x mod 16) +:+ acc)%string in
      if x <? 16 then acc else hex_digits fuel (x / 16) acc
  end.

Definition to_hex (x : Z) : string := hex_digits 16 x EmptyString.

Section Devicetree.
Context `{FdtWriter}.

(** The macro [node!] and its form with an address. *)
Definition node (name : string) (inner : comp Fdt FdtError unit) : comp Fdt FdtError unit :=
  let! current_node := begin_node name in
  inner ;;;
  end_node current_node.

Definition node_at (name : string) (addr : Z) (inner : comp Fdt FdtError unit) : comp Fdt FdtError unit :=
  node (name +:+ "@" +:+ to_hex addr) inner.

Definition generate_nodes (main_memory_start main_memory_length : Z) (initrd : option InitialRamDisk) :
    comp Fdt FdtError unit :=
  node "" (
    property_u32 "#address-cells" 2 ;;;
    property_u32 "#size-cells" 2 ;;;
    property_string "compatible" "riscv-virtio" ;;;
    property_string "model" "riscv-virtio,qemu" ;;;
    node "chosen" (
      match initrd with
      | Some initrd =>
          let! end_ := comp_lift (checked_add 64 (ird_start initrd) (ird_length initrd)) in
          property_u64 "linux,initrd-end" end_ ;;;
          property_u64 "linux,initrd-start" (ird_start initrd)
      | None => comp_ret tt
      end) ;;;
    node_at "memory" main_memory_start (
      property_string "device_type" "memory" ;;;
      property_array_u64 "reg" [main_memory_start; main_memory_length]) ;;;
    node "cpus" (
      property_u32 "#address-cells" 1 ;;;
      property_u32 "#size-cells" 0 ;;;
      property_u32 "timebase-frequency" 10000000 ;;;
      node_at "cpu" 0 (
        property_phandle 1 ;;;
        property_string "device_type" "cpu" ;;;
        property_u32 "reg" 0 ;;;
        property_string "status" "okay" ;;;
        property_string "compatible" "riscv"))).

(** [generate_custom]; [None] is the panic of an overflow. *)
Definition generate_custom (main_memory_start main_memory_length : Z) (initrd : option InitialRamDisk) :
    option (result (list Z) FdtError) :=
  match fdt_new with
  | Err e => Some (Err e)
  | Ok fdt =>
      match generate_nodes main_memory_start main_memory_length initrd fdt with
      | Ret _ fdt => Some (finish fdt)
      | Throw e _ => Some (Err e)
      | Panic => None
      end
  end.

Definition generate `{MainMemoryLayout} (initrd : option InitialRamDisk) : option (result (list Z) FdtError) :=
  generate_custom start_of_main_memory BYTES initrd.

End Devicetree.

(** ** Installing a program *)
Inductive MachineError `{FdtWriter} : Type :=
| AddressError (e : OutOfBounds)
| DeviceTreeError (e : FdtError).

(** A computation of the bus on the machine, its error converted. *)
Definition on_bus `{FdtWriter} {A} (c : comp Bus OutOfBounds A) : comp MachineState MachineError A :=
  fun m => match c (bus m) with
           | Ret a b => Ret a (mkMachine (hart m) b)
           | Throw e b => Throw (AddressError e) (mkMachine (hart m) b)
           | Panic => Panic
           end.

Definition update_hart `{FdtWriter} (f : HartState -> HartState) : comp MachineState MachineError unit :=
  fun m => Ret tt (with_hart m (f (hart m))).

Section SetupBoot.
Context `{Host} `{ML : MainMemoryLayout} `{W : FdtWriter}.

(** The loop that writes the segments to the main memory. *)
Fixpoint write_segments (segs : list (Z * list Z)) : comp Bus OutOfBounds unit :=
  match segs with
  | [] => comp_ret tt
  | (addr, data) :: segs => bus_write_all addr data ;;; write_segments segs
  end.

(** The greatest end of a segment, or the start of the main memory; [None] is an
    overflow. *)
Fixpoint segments_end (segs : list (Z * list Z)) : option (option Z) :=
  match segs with
  | [] => Some None
  | (base, data) :: segs =>
      let? e := checked_add 64 base (Z.of_nat (length data)) in
      let? rest := segments_end segs in
      Some (Some (match rest with Some r => Z.max e r | None => e end))
  end.

Definition initrd_address (program : Program) : option Z :=
  let? e := segments_end (iter (segments program)) in
  Some (default start_of_main_memory e).

(** [MachineState::setup_boot]. *)
Definition setup_boot (program : Program) (initrd : option (list Z)) (mode_ : Mode) :
    comp MachineState MachineError unit :=
  on_bus (write_segments (iter (segments program))) ;;;
  update_hart (fun h => with_pc h (entrypoint program)) ;;;
  update_hart (fun h => xset h a0 0) ;;;
  let! initrd_addr := comp_lift (initrd_address program) in
  let! r :=
    match initrd with
    | Some initrd =>
        on_bus (bus_write_all initrd_addr initrd) ;;;
        let length := Z.of_nat (length initrd) in
        let dtb_options := mkInitrd initrd_addr length in
        let! dtb_addr := comp_lift (checked_add 64 initrd_addr length) in
        comp_ret (dtb_addr, Some dtb_options)
    | None => comp_ret (initrd_addr, None)
    end in
  let '(dtb_addr, initrd) := r in
  let! generated := comp_lift (generate initrd) in
  let! fdt := (match generated with
               | Ok fdt => comp_ret fdt
               | Err e => comp_throw (DeviceTreeError e)
               end) in
  on_bus (bus_write_all dtb_addr fdt) ;;;
  update_hart (fun h => xset h a1 dtb_addr) ;;;
  update_hart (fun h => with_mode h (mode_write (mode h) mode_)) ;;;
  update_hart (fun h => hcsr_write h medeleg (2 ^ 64 - 1)) ;;;
  update_hart (fun h => hcsr_write h mideleg (2 ^ 64 - 1)).

End SetupBoot.

(** ** A new interpreter *)
Inductive InterpreterError `{Goblin} `{FdtWriter} : Type :=
| KernelLoadingError (e : Error)
| MachineErr (e : MachineError).

(** [Interpreter::init] on the states bound to the allocated backend. *)
Definition init (posix : PosixState) (machine : MachineState) (mode_ : Mode) : PosixState * MachineState :=
  (set_exit_mode posix mode_, machine).

(** [Interpreter::new]; [None] is a panic. *)
Definition new `{Host} `{Goblin} `{FdtWriter} (posix : PosixState) (machine : MachineState) (program : list Z)
    (initrd : option (list Z)) (mode_ : Mode) : option (result Interpreter InterpreterError) :=
  let '(posix_state, machine_state) := init posix machine mode_ in
  let? loaded := from_elf program in
  match loaded with
  | Err e => Some (Err (KernelLoadingError e))
  | Ok elf_program =>
      match setup_boot (ML := M1G) elf_program initrd Mode.Machine machine_state with
      | Ret _ machine_state => Some (Ok (mkInterpreter posix_state machine_state))
      | Throw e _ => Some (Err (MachineErr e))
      | Panic => None
      end
  end.

(** ** What booting establishes *)

(** A chunk of bytes that fits in the main memory. *)
Definition fits `{MainMemoryLayout} (addr : Z) (bytes : list Z) : Prop :=
  bytes <> [] /\ mapped addr (Z.of_nat (length bytes)) = true.

Section BootSpec.
Context `{Host} `{ML : MainMemoryLayout} `{!LayoutOk ML} `{W : FdtWriter}.

Lemma fits_range addr bytes :
  fits addr bytes ->
  start_of_main_memory <= addr /\ 0 < Z.of_nat (length bytes)
  /\ addr + Z.of_nat (length bytes) <= start_of_main_memory + BYTES.
Proof using Type.
  intros [Hne [? ?]%mapped_spec]. destruct bytes; [done |]. cbn [length] in *. lia.
Qed.

Lemma write_all_fits b addr bytes : fits addr bytes -> bus_write_all addr bytes b = Ret tt (store_bytes b addr bytes).
Proof using LayoutOk0.
  intros Hf. pose proof (fits_range _ _ Hf) as R. pose proof BYTES_range as B.
  assert (S0 : start_of_main_memory = 2 ^ 31) by reflexivity.
  rewrite bus_write_all_spec by (unfold in_u; lia). by rewrite (proj2 Hf).
Qed.

Lemma byte_at_stored b addr bytes i v :
  bytes !! i = Some v -> byte_at (store_bytes b addr bytes) (addr + Z.of_nat i) = v.
Proof using Type.
  intros Hi. pose proof (lookup_lt_Some _ _ _ Hi). rewrite byte_at_store, decide_True by lia.
  replace (Z.to_nat (addr + Z.of_nat i - addr)) with i by lia. by apply list_lookup_total_correct.
Qed.

Lemma byte_at_below b addr bytes a : a < addr -> byte_at (store_bytes b addr bytes) a = byte_at b a.
Proof using Type. intros. rewrite byte_at_store, decide_False by lia. done. Qed.

(** The chunks of a list of segments, in order and disjoint. *)
Definition chunks_ok (l : list (Z * list Z)) : Prop :=
  sorted_keys l
  /\ (forall k bs, (k, bs) ∈ l -> fits k bs)
  /\ (forall k1 bs1 k2 bs2, (k1, bs1) ∈ l -> (k2, bs2) ∈ l -> k1 < k2 -> k1 + Z.of_nat (length bs1) <= k2).

Lemma write_segments_spec l : forall b,
  chunks_ok l ->
  exists b', write_segments l b = Ret tt b'
    /\ (forall k bs i v, (k, bs) ∈ l -> bs !! i = Some v -> byte_at b' (k + Z.of_nat i) = v)
    /\ (forall a, Forall (fun kv => a < kv.1) l -> byte_at b' a = byte_at b a).
Proof using LayoutOk0.
  induction l as [|[k bs] l IH]; intros b (Hs & Hf & Hd); cbn [write_segments].
  { exists b. split; [done |]. split; [|done]. intros k bs i v Hin. by apply elem_of_nil in Hin. }
  unfold sorted_keys in Hs. cbn in Hs. inversion_clear Hs as [|? ? Hs' Hlt].
  unfold comp_bind. rewrite write_all_fits by (apply Hf; apply elem_of_cons; auto).
  destruct (IH (store_bytes b k bs)) as (b' & E & Hin & Hout).
  { split; [done |]. split; intros; [apply Hf | eapply Hd]; try apply elem_of_cons; eauto. }
  exists b'. split; [done |]. split.
  - intros k' bs' i v [[= -> ->] | Hin']%elem_of_cons Hi; [|by eapply Hin].
    rewrite Hout; [by apply byte_at_stored |]. apply Forall_forall. intros [j c] Hj. cbn.
    rewrite Forall_forall in Hlt. assert (k < j) by (apply Hlt; by apply (list_elem_of_fmap_2 fst _ (j, c))).
    pose proof (Hd k bs j c ltac:(apply elem_of_cons; auto) ltac:(apply elem_of_cons; auto) ltac:(done)).
    pose proof (lookup_lt_Some _ _ _ Hi). lia.
  - intros a [Ha Hl]%Forall_cons. cbn in Ha. rewrite Hout by done. by apply byte_at_below.
Qed.

Lemma segments_end_spec l :
  (forall k bs, (k, bs) ∈ l -> fits k bs) ->
  exists e, segments_end l = Some e
    /\ start_of_main_memory <= default start_of_main_memory e
    /\ forall k bs, (k, bs) ∈ l -> k + Z.of_nat (length bs) <= default start_of_main_memory e.
Proof using LayoutOk0.
  induction l as [|[k bs] l IH]; intros Hf; cbn [segments_end].
  { exists None. split; [done |]. cbn. split; [lia |]. intros k bs Hin. by apply elem_of_nil in Hin. }
  pose proof (fits_range k bs (Hf k bs ltac:(apply elem_of_cons; auto))) as R. pose proof BYTES_range as B.
  assert (S0 : start_of_main_memory = 2 ^ 31) by reflexivity.
  rewrite checked_add_in by lia.
  destruct IH as (e & -> & He & Hall); [intros; apply Hf, elem_of_cons; auto |].
  eexists. split; [done |]. split; [destruct e; cbn in *; lia |].
  intros k' bs' [[= -> ->] | Hin]%elem_of_cons; [destruct e; cbn in *; lia |].
  specialize (Hall k' bs' Hin). destruct e; cbn in *; lia.
Qed.

(** The device tree goes after the ramdisk. *)
Definition dtb_address (top : Z) (initrd : option (list Z)) : Z := top + Z.of_nat (length (default [] initrd)).

(** The ramdisk the device tree names. *)
Definition ramdisk (top : Z) (initrd : option (list Z)) : option InitialRamDisk :=
  option_map (fun d => mkInitrd top (Z.of_nat (length d))) initrd.

(** The image to boot fits in the main memory. *)
Record bootable (prog : Program) (initrd : option (list Z)) (fdt : list Z) (top : Z) : Prop := {
  bo_disjoint : disjoint_segments (segments prog);
  bo_segments : forall k bs, segments prog !! k = Some bs -> fits k bs;
  bo_top : initrd_address prog = Some top;
  bo_initrd : forall d, initrd = Some d -> fits top d;
  bo_generated : generate (ramdisk top initrd) = Some (Ok fdt);
  bo_fdt : fits (dtb_address top initrd) fdt
}.

Lemma bootable_chunks prog initrd fdt top : bootable prog initrd fdt top -> chunks_ok (iter (segments prog)).
Proof using Type.
  intros []. split; [apply iter_sorted |]. split; intros *; rewrite !elem_of_iter; eauto.
Qed.

Lemma initrd_address_above prog initrd fdt top :
  bootable prog initrd fdt top -> forall a b, holds (segments prog) a b -> a < top.
Proof using LayoutOk0.
  intros [_ Hs Ht _ _ _] a b (k & bs & Hk & C & _)%holds_covers. unfold covers in C.
  unfold initrd_address in Ht.
  destruct (segments_end_spec (iter (segments prog))) as (e & E & _ & He).
  { intros k' bs'. rewrite elem_of_iter. apply Hs. }
  rewrite E in Ht. injection Ht as <-. specialize (He k bs ltac:(by apply elem_of_iter)). lia.
Qed.

(** The part of [setup_boot] on the bus. *)
Lemma setup_boot_runs prog initrd fdt top mo m :
  bootable prog initrd fdt top ->
  exists b1,
    write_segments (iter (segments prog)) (bus m) = Ret tt b1
    /\ (forall a b, holds (segments prog) a b -> byte_at b1 a = b)
    /\ setup_boot prog initrd mo m
      = Ret tt (mkMachine
          (hcsr_write (hcsr_write (with_mode
             (xset (xset (with_pc (hart m) (entrypoint prog)) a0 0) a1 (dtb_address top initrd)) (mode_code mo))
             medeleg (2 ^ 64 - 1)) mideleg (2 ^ 64 - 1))
          (store_bytes (match initrd with Some d => store_bytes b1 top d | None => b1 end)
             (dtb_address top initrd) fdt)).
Proof using LayoutOk0.
  intros Hb. destruct (write_segments_spec _ (bus m) (bootable_chunks _ _ _ _ Hb)) as (b1 & E1 & Hin & _).
  exists b1. split; [done |]. split.
  { intros a b (k & bs & Hk & La & Hv). specialize (Hin k bs _ b ltac:(by apply elem_of_iter) Hv).
    by replace (k + Z.of_nat (Z.to_nat (a - k))) with a in Hin by lia. }
  destruct Hb as [_ _ Ht Hi Hg Hf]. unfold setup_boot.
  pose proof (fits_range _ _ Hf) as R. pose proof BYTES_range as B.
  assert (S0 : start_of_main_memory = 2 ^ 31) by reflexivity.
  unfold comp_bind, on_bus, update_hart, comp_lift. rewrite E1, Ht. unfold with_hart. cbn [bus hart].
  destruct initrd as [d|]; cbn [default ramdisk option_map] in *; unfold dtb_address, default in *.
  - pose proof (fits_range _ _ (Hi d eq_refl)) as Rd. cbn [from_option id] in *. cbn [bus hart].
    rewrite (write_all_fits b1 top d (Hi d eq_refl)). cbn [bus hart].
    rewrite checked_add_in by lia. cbn [comp_ret]. rewrite Hg. cbn [comp_ret]. by rewrite write_all_fits.
  - cbn [from_option id length] in *. rewrite Z.add_0_r in *. cbn [comp_ret]. rewrite Hg. cbn [comp_ret].
    by rewrite write_all_fits.
Qed.

(** Booting a program whose image fits in the main memory
    succeeds; the memory then holds the bytes of every segment, the ramdisk after them and
    the device tree after that, the program counter is at the entry point, [a0] holds the
    hart id 0 and [a1] the address of the device tree, and the hart is in the given mode. *)
Theorem boot_installs_program prog initrd fdt top mo m :
  bootable prog initrd fdt top -> xregs_wf (xregisters (hart m)) ->
  exists m', setup_boot prog initrd mo m = Ret tt m'
    /\ (forall a b, holds (segments prog) a b -> byte_at (bus m') a = b)
    /\ (forall i b, default [] initrd !! i = Some b -> byte_at (bus m') (top + Z.of_nat i) = b)
    /\ (forall i b, fdt !! i = Some b -> byte_at (bus m') (dtb_address top initrd + Z.of_nat i) = b)
    /\ pc (hart m') = entrypoint prog
    /\ xget (hart m') a0 = 0 /\ xget (hart m') a1 = dtb_address top initrd
    /\ mode_read (mode (hart m')) = Some mo.
Proof using LayoutOk0.
  intros Hb Hx. pose proof (initrd_address_above _ _ _ _ Hb) as Habove.
  destruct (setup_boot_runs prog initrd fdt top mo m Hb) as (b1 & _ & Hseg & ->). eexists. split; [done |].
  cbn [bus hart]. split; [|split; [|split]].
  - intros a b Hh. specialize (Habove a b Hh). rewrite byte_at_below by (unfold dtb_address; lia).
    destruct initrd; rewrite ?byte_at_below by lia; eauto.
  - intros i b Hi. destruct initrd as [d|]; [|done]. cbn in Hi. pose proof (lookup_lt_Some _ _ _ Hi).
    rewrite byte_at_below by (unfold dtb_address; cbn; lia). by apply byte_at_stored.
  - intros i b Hi. by apply byte_at_stored.
  - unfold hcsr_write, xget, xset, with_pc, with_mode, with_xregisters, with_csregisters; cbn.
    split; [done |]. rewrite !xread_xwrite by (try apply xwrite_wf; done || (unfold in_u; lia)).
    split; [done |]. split; [done |]. apply mode_read_code.
Qed.

End BootSpec.

(** A writer that counts the calls and writes the header of a tree. *)
#[export] Instance counting_writer : FdtWriter := {|
  Fdt := nat;
  FdtNode := nat;
  FdtError := unit;
  fdt_new := Ok 0%nat;
  begin_node := fun _ n => Ret n (S n);
  end_node := fun _ n => Ret tt (S n);
  property_u32 := fun _ _ n => Ret tt (S n);
  property_u64 := fun _ _ n => Ret tt (S n);
  property_string := fun _ _ n => Ret tt (S n);
  property_array_u64 := fun _ _ n => Ret tt (S n);
  property_phandle := fun _ n => Ret tt (S n);
  finish := fun n => Ok [208; 13; 254; 237; Z.of_nat n]
|}.

Definition small_program : Program :=
  mkProgram (start_of_main_memory + 4)
    {[ start_of_main_memory := [19; 0; 0; 0; 115; 0; 0; 0]; start_of_main_memory + 16 := [1; 2; 3] ]}.

Lemma small_bootable : bootable (ML := M1K) small_program (Some [7; 8]) [208; 13; 254; 237; 26] (start_of_main_memory + 19).
Proof.
  assert (Hc : forall k bs, segments small_program !! k = Some bs ->
    (k = start_of_main_memory /\ bs = [19; 0; 0; 0; 115; 0; 0; 0]) \/ (k = start_of_main_memory + 16 /\ bs = [1; 2; 3])).
  { intros k bs Hk. cbn [small_program segments] in Hk. rewrite lookup_insert, lookup_singleton in Hk.
    repeat case_decide; simplify_eq; auto. }
  split.
  - intros k1 bs1 k2 bs2 H1%Hc H2%Hc L. destruct H1 as [[-> ->] | [-> ->]], H2 as [[-> ->] | [-> ->]]; cbn in *; lia.
  - intros k bs [[-> ->] | [-> ->]]%Hc; (split; [done | reflexivity]).
  - vm_compute. reflexivity.
  - intros d [= <-]. split; [done | reflexivity].
  - vm_compute. reflexivity.
  - split; [done | reflexivity].
Qed.

Lemma boot_installs_program_witness :
  exists m', setup_boot (ML := M1K) small_program (Some [7; 8]) Mode.Machine
               (mkMachine zero_hart zero_bus) = Ret tt m'
    /\ pc (hart m') = start_of_main_memory + 4 /\ byte_at (bus m') (start_of_main_memory + 18) = 3
    /\ byte_at (bus m') (start_of_main_memory + 20) = 8 /\ xget (hart m') a1 = start_of_main_memory + 21.
Proof.
  destruct (boot_installs_program (ML := M1K) small_program (Some [7; 8]) [208; 13; 254; 237; 26]
    (start_of_main_memory + 19) Mode.Machine (mkMachine zero_hart zero_bus) small_bootable)
    as (m' & E & Hs & Hi & _ & Hp & _ & H1 & _).
  - split; [reflexivity |]. apply Forall_replicate. unfold in_u. lia.
  - exists m'. split; [done |]. split; [done |]. split; [|split; [|done]].
    + apply Hs. exists (start_of_main_memory + 16), [1; 2; 3]. split; [reflexivity |]. split; [lia | reflexivity].
    + apply (Hi 1%nat 8). reflexivity.
Defined.

End Boot.
Export Boot.
