(* ===== verification/MirAst.v ===== *)
(** Abstract syntax of the Michelson runtime ([src/contrib/mir/src/ast.rs],
    [src/contrib/mir/src/ast/], and the primitives of [src/contrib/mir/src/lexer.rs]):
    Micheline nodes, types, typed values, typed instructions and the operations a contract
    emits.

    A [String] is a Rocq [string], that is its UTF-8 bytes; a [Vec<u8>] is a list of [Z] in
    [0, 255]; [BigInt] is [Z] and [BigUint] is [N]; a [u16] argument of an instruction is a
    [nat].  [Rc], [Box] and arena references are dropped: the data behind them is immutable.
    The points and scalars of BLS12-381, and every hash or signature function, come from
    external crates; they are the class [Extern]. *)

From stdpp Require Import strings.
From S2P Require Import Prelude.

Open Scope Z_scope.

(** ** Primitives ([lexer.rs], [defprim!]).  The order is the one of the binary encoding. *)
Module Prim.

Inductive Prim : Set :=
  | parameter | storage | code | False_ | Elt | Left | None | Pair | Right | Some | True_ | Unit
  | PACK | UNPACK | BLAKE2B | SHA256 | SHA512 | ABS | ADD | AMOUNT | AND | BALANCE | CAR | CDR
  | CHECK_SIGNATURE | COMPARE | CONCAT | CONS | CREATE_ACCOUNT | CREATE_CONTRACT
  | IMPLICIT_ACCOUNT | DIP | DROP | DUP | EDIV | EMPTY_MAP | EMPTY_SET | EQ | EXEC | FAILWITH
  | GE | GET | GT | HASH_KEY | IF | IF_CONS | IF_LEFT | IF_NONE | INT | LAMBDA | LE | LEFT
  | LOOP | LSL | LSR | LT | MAP | MEM | MUL | NEG | NEQ | NIL | NONE | NOT | NOW | OR | PAIR
  | PUSH | RIGHT | SIZE | SOME | SOURCE | SENDER | SELF | STEPS_TO_QUOTA | SUB | SWAP
  | TRANSFER_TOKENS | SET_DELEGATE | UNIT | UPDATE | XOR | ITER | LOOP_LEFT | ADDRESS
  | CONTRACT | ISNAT | CAST | RENAME | bool | contract | int | key | key_hash | lambda | list
  | map | big_map | nat | option | or | pair | set | signature | string | bytes | mutez
  | timestamp | unit | operation | address | SLICE | DIG | DUG | EMPTY_BIG_MAP | APPLY
  | chain_id | CHAIN_ID | LEVEL | SELF_ADDRESS | never | NEVER | UNPAIR | VOTING_POWER
  | TOTAL_VOTING_POWER | KECCAK | SHA3 | PAIRING_CHECK | bls12_381_g1 | bls12_381_g2
  | bls12_381_fr | sapling_state | sapling_transaction_deprecated | SAPLING_EMPTY_STATE
  | SAPLING_VERIFY_UPDATE | ticket | TICKET_DEPRECATED | READ_TICKET | SPLIT_TICKET
  | JOIN_TICKETS | GET_AND_UPDATE | chest | chest_key | OPEN_CHEST | VIEW | view | constant
  | SUB_MUTEZ | tx_rollup_l2_address | MIN_BLOCK_TIME | sapling_transaction | EMIT | Lambda_rec
  | LAMBDA_REC | TICKET | BYTES | NAT | Transfer_tokens | Set_delegate | Create_contract | Emit.

(** [Prim as u8]. *)
Definition code_of (p : Prim) : Datatypes.nat :=
  match p with
  | parameter => 0 | storage => 1 | code => 2 | False_ => 3 | Elt => 4 | Left => 5 | None => 6
  | Pair => 7 | Right => 8 | Some => 9 | True_ => 10 | Unit => 11 | PACK => 12 | UNPACK => 13
  | BLAKE2B => 14 | SHA256 => 15 | SHA512 => 16 | ABS => 17 | ADD => 18 | AMOUNT => 19
  | AND => 20 | BALANCE => 21 | CAR => 22 | CDR => 23 | CHECK_SIGNATURE => 24 | COMPARE => 25
  | CONCAT => 26 | CONS => 27 | CREATE_ACCOUNT => 28 | CREATE_CONTRACT => 29
  | IMPLICIT_ACCOUNT => 30 | DIP => 31 | DROP => 32 | DUP => 33 | EDIV => 34 | EMPTY_MAP => 35
  | EMPTY_SET => 36 | EQ => 37 | EXEC => 38 | FAILWITH => 39 | GE => 40 | GET => 41 | GT => 42
  | HASH_KEY => 43 | IF => 44 | IF_CONS => 45 | IF_LEFT => 46 | IF_NONE => 47 | INT => 48
  | LAMBDA => 49 | LE => 50 | LEFT => 51 | LOOP => 52 | LSL => 53 | LSR => 54 | LT => 55
  | MAP => 56 | MEM => 57 | MUL => 58 | NEG => 59 | NEQ => 60 | NIL => 61 | NONE => 62
  | NOT => 63 | NOW => 64 | OR => 65 | PAIR => 66 | PUSH => 67 | RIGHT => 68 | SIZE => 69
  | SOME => 70 | SOURCE => 71 | SENDER => 72 | SELF => 73 | STEPS_TO_QUOTA => 74 | SUB => 75
  | SWAP => 76 | TRANSFER_TOKENS => 77 | SET_DELEGATE => 78 | UNIT => 79 | UPDATE => 80
  | XOR => 81 | ITER => 82 | LOOP_LEFT => 83 | ADDRESS => 84 | CONTRACT => 85 | ISNAT => 86
  | CAST => 87 | RENAME => 88 | bool => 89 | contract => 90 | int => 91 | key => 92
  | key_hash => 93 | lambda => 94 | list => 95 | map => 96 | big_map => 97 | nat => 98
  | option => 99 | or => 100 | pair => 101 | set => 102 | signature => 103 | string => 104
  | bytes => 105 | mutez => 106 | timestamp => 107 | unit => 108 | operation => 109
  | address => 110 | SLICE => 111 | DIG => 112 | DUG => 113 | EMPTY_BIG_MAP => 114
  | APPLY => 115 | chain_id => 116 | CHAIN_ID => 117 | LEVEL => 118 | SELF_ADDRESS => 119
  | never => 120 | NEVER => 121 | UNPAIR => 122 | VOTING_POWER => 123
  | TOTAL_VOTING_POWER => 124 | KECCAK => 125 | SHA3 => 126 | PAIRING_CHECK => 127
  | bls12_381_g1 => 128 | bls12_381_g2 => 129 | bls12_381_fr => 130 | sapling_state => 131
  | sapling_transaction_deprecated => 132 | SAPLING_EMPTY_STATE => 133
  | SAPLING_VERIFY_UPDATE => 134 | ticket => 135 | TICKET_DEPRECATED => 136
  | READ_TICKET => 137 | SPLIT_TICKET => 138 | JOIN_TICKETS => 139 | GET_AND_UPDATE => 140
  | chest => 141 | chest_key => 142 | OPEN_CHEST => 143 | VIEW => 144 | view => 145
  | constant => 146 | SUB_MUTEZ => 147 | tx_rollup_l2_address => 148 | MIN_BLOCK_TIME => 149
  | sapling_transaction => 150 | EMIT => 151 | Lambda_rec => 152 | LAMBDA_REC => 153
  | TICKET => 154 | BYTES => 155 | NAT => 156 | Transfer_tokens => 157 | Set_delegate => 158
  | Create_contract => 159 | Emit => 160
  end.

(** The variants in order: the [transmute] of a byte below [Prim::COUNT]. *)
Definition all : Datatypes.list Prim :=
  [
   parameter; storage; code; False_; Elt; Left; None; Pair; Right; Some; True_; Unit; PACK;
   UNPACK; BLAKE2B; SHA256; SHA512; ABS; ADD; AMOUNT; AND; BALANCE; CAR; CDR; CHECK_SIGNATURE;
   COMPARE; CONCAT; CONS; CREATE_ACCOUNT; CREATE_CONTRACT; IMPLICIT_ACCOUNT; DIP; DROP; DUP;
   EDIV; EMPTY_MAP; EMPTY_SET; EQ; EXEC; FAILWITH; GE; GET; GT; HASH_KEY; IF; IF_CONS; IF_LEFT;
   IF_NONE; INT; LAMBDA; LE; LEFT; LOOP; LSL; LSR; LT; MAP; MEM; MUL; NEG; NEQ; NIL; NONE; NOT;
   NOW; OR; PAIR; PUSH; RIGHT; SIZE; SOME; SOURCE; SENDER; SELF; STEPS_TO_QUOTA; SUB; SWAP;
   TRANSFER_TOKENS; SET_DELEGATE; UNIT; UPDATE; XOR; ITER; LOOP_LEFT; ADDRESS; CONTRACT; ISNAT;
   CAST; RENAME; bool; contract; int; key; key_hash; lambda; list; map; big_map; nat; option;
   or; pair; set; signature; string; bytes; mutez; timestamp; unit; operation; address; SLICE;
   DIG; DUG; EMPTY_BIG_MAP; APPLY; chain_id; CHAIN_ID; LEVEL; SELF_ADDRESS; never; NEVER;
   UNPAIR; VOTING_POWER; TOTAL_VOTING_POWER; KECCAK; SHA3; PAIRING_CHECK; bls12_381_g1;
   bls12_381_g2; bls12_381_fr; sapling_state; sapling_transaction_deprecated;
   SAPLING_EMPTY_STATE; SAPLING_VERIFY_UPDATE; ticket; TICKET_DEPRECATED; READ_TICKET;
   SPLIT_TICKET; JOIN_TICKETS; GET_AND_UPDATE; chest; chest_key; OPEN_CHEST; VIEW; view;
   constant; SUB_MUTEZ; tx_rollup_l2_address; MIN_BLOCK_TIME; sapling_transaction; EMIT;
   Lambda_rec; LAMBDA_REC; TICKET; BYTES; NAT; Transfer_tokens; Set_delegate; Create_contract;
   Emit
  ].

Lemma all_code_of p : all !! code_of p = Datatypes.Some p.
Proof. by destruct p. Qed.

Lemma code_of_inj p q : code_of p = code_of q -> p = q.
Proof. intros E. pose proof (all_code_of p) as Hp. rewrite E, all_code_of in Hp. congruence. Qed.

#[global] Instance prim_eq_dec : EqDecision Prim.
Proof.
  intros p q. destruct (decide (code_of p = code_of q)) as [E|E].
  - left. by apply code_of_inj.
  - right. by intros ->.
Defined.

End Prim.

Module MirAst.

#[local] Set Warnings "-register-all".

(** ** Annotations ([annotations.rs]) *)
Inductive Annotation : Type :=
| Ann_Special (s : string)
| Ann_Field (s : string)
| Ann_Variable (s : string)
| Ann_Type (s : string).

Abbreviation Annotations := (list Annotation).
Definition NO_ANNS : Annotations := [].

(** [Annotations::get_single_field_ann]: [Err] carries the second field annotation. *)
Fixpoint single_field_ann (anns : Annotations) (res : option string) : result (option string) string :=
  match anns with
  | [] => Ok res
  | Ann_Field s :: anns =>
      match res with
      | None => single_field_ann anns (Some s)
      | Some _ => Err s
      end
  | _ :: anns => single_field_ann anns res
  end.

Definition get_single_field_ann (anns : Annotations) : result (option string) string :=
  single_field_ann anns None.

(** ** Micheline ([micheline.rs]) *)
Inductive Micheline : Type :=
| MInt (z : Z)
| MString (s : string)
| MBytes (bs : list Z)
| MApp (prim : Prim.Prim) (args : list Micheline) (anns : Annotations)
| MSeq (ms : list Micheline).

Definition prim0 (p : Prim.Prim) : Micheline := MApp p [] NO_ANNS.
Definition prim1 (p : Prim.Prim) (a : Micheline) : Micheline := MApp p [a] NO_ANNS.
Definition prim2 (p : Prim.Prim) (a b : Micheline) : Micheline := MApp p [a; b] NO_ANNS.
Definition prim3 (p : Prim.Prim) (a b c : Micheline) : Micheline := MApp p [a; b; c] NO_ANNS.

(** ** Types ([ast.rs], [Type]) *)
Inductive Ty : Type :=
| TNat | TInt | TBool | TMutez | TString | TUnit | TNever
| TPair (l r : Ty)
| TOption (t : Ty)
| TList (t : Ty)
| TOperation
| TSet (t : Ty)
| TMap (k v : Ty)
| TBigMap (k v : Ty)
| TOr (l r : Ty)
| TContract (t : Ty)
| TAddress | TChainId | TBytes | TKey | TSignature | TKeyHash
| TLambda (i o : Ty)
| TTicket (t : Ty)
| TTimestamp | TBls12381Fr | TBls12381G1 | TBls12381G2.

(** [Type::size_for_gas]. *)
Fixpoint size_for_gas (t : Ty) : Z :=
  match t with
  | TPair a b | TOr a b | TMap a b | TBigMap a b | TLambda a b =>
      1 + size_for_gas a + size_for_gas b
  | TOption x | TList x | TSet x | TContract x | TTicket x => 1 + size_for_gas x
  | _ => 1
  end.

(** ** Sums ([or.rs]) *)
Inductive Or (L R : Type) : Type :=
| Left (l : L)
| Right (r : R).
Arguments Left {L R} l.
Arguments Right {L R} r.

(** ** Addresses, keys and signatures ([michelson_address.rs], [address_hash.rs],
    [entrypoint.rs], [michelson_key.rs], [michelson_key_hash.rs],
    [michelson_signature.rs]).  The hash types of [tezos_crypto_rs] are newtypes of
    [Vec<u8>]. *)
Inductive KeyHash : Type :=
| Tz1 (h : list Z) | Tz2 (h : list Z) | Tz3 (h : list Z) | Tz4 (h : list Z).

Inductive AddressHash : Type :=
| Implicit (k : KeyHash) | Kt1 (h : list Z) | Sr1 (h : list Z).

Inductive Key : Type :=
| KEd25519 (k : list Z) | KSecp256k1 (k : list Z) | KP256 (k : list Z) | KBls (k : list Z).

Inductive Signature : Type :=
| SEd25519 (s : list Z) | SSecp256k1 (s : list Z) | SP256 (s : list Z) | SBls (s : list Z)
| SGeneric (s : list Z).

(** [Entrypoint(String)]. *)
Definition Entrypoint : Type := string.
Definition DEFAULT_EP_NAME : Entrypoint := "default".
Definition MAX_EP_LEN : Z := 31.
Definition is_default (ep : Entrypoint) : bool := bool_decide (ep = DEFAULT_EP_NAME).

Record Address : Type := mkAddress { addr_hash : AddressHash; addr_entrypoint : Entrypoint }.

(** [Entrypoints = HashMap<Entrypoint, Type>]. *)
Abbreviation Entrypoints := (gmap string Ty).

#[export] Instance annotation_eq_dec : EqDecision Annotation.
Proof. solve_decision. Defined.
#[export] Instance ty_eq_dec : EqDecision Ty.
Proof. solve_decision. Defined.
#[export] Instance key_hash_eq_dec : EqDecision KeyHash.
Proof. solve_decision. Defined.
#[export] Instance address_hash_eq_dec : EqDecision AddressHash.
Proof. solve_decision. Defined.
#[export] Instance key_eq_dec : EqDecision Key.
Proof. solve_decision. Defined.
#[export] Instance signature_eq_dec : EqDecision Signature.
Proof. solve_decision. Defined.
#[export] Instance address_eq_dec : EqDecision Address.
Proof. solve_decision. Defined.
#[export] Instance or_eq_dec {L R} `{EqDecision L, EqDecision R} : EqDecision (Or L R).
Proof. solve_decision. Defined.

(** Induction on Micheline with the hypothesis for every child. *)
Section MichelineInd.
Variable P : Micheline -> Prop.
Hypothesis HInt : forall z, P (MInt z).
Hypothesis HString : forall s, P (MString s).
Hypothesis HBytes : forall bs, P (MBytes bs).
Hypothesis HApp : forall p args anns, Forall P args -> P (MApp p args anns).
Hypothesis HSeq : forall ms, Forall P ms -> P (MSeq ms).

Fixpoint micheline_nested_ind (m : Micheline) : P m :=
  let all := fix all ms : Forall P ms :=
    match ms with
    | [] => Forall_nil_2 P
    | m :: ms => Forall_cons_2 P m ms (micheline_nested_ind m) (all ms)
    end in
  match m with
  | MInt z => HInt z
  | MString s => HString s
  | MBytes bs => HBytes bs
  | MApp p args anns => HApp p args anns (all args)
  | MSeq ms => HSeq ms (all ms)
  end.
End MichelineInd.

#[export] Instance micheline_eq_dec : EqDecision Micheline.
Proof.
  unfold EqDecision, Decision.
  fix go 1. intros m m'. destruct m as [z|s|bs|p args anns|ms], m' as [z'|s'|bs'|p' args' anns'|ms'];
    try (right; discriminate).
  - destruct (decide (z = z')); [left | right]; congruence.
  - destruct (decide (s = s')); [left | right]; congruence.
  - destruct (decide (bs = bs')); [left | right]; congruence.
  - destruct (decide (p = p')); [|right; congruence].
    destruct (decide (anns = anns')); [|right; congruence].
    destruct (list_eq_dec (dec := go) args args'); [left | right]; congruence.
  - destruct (list_eq_dec (dec := go) ms ms'); [left | right]; congruence.
Defined.

(** ** Overloads ([overloads.rs]) *)
Inductive ov_Add : Set :=
| Add_IntInt | Add_NatNat | Add_IntNat | Add_NatInt | Add_MutezMutez
| Add_Bls12381G1 | Add_Bls12381G2 | Add_Bls12381Fr.
Inductive ov_And : Set := And_Bool | And_NatNat | And_IntNat | And_Bytes.
Inductive ov_Or : Set := Or_Bool | Or_Nat | Or_Bytes.
Inductive ov_Xor : Set := Xor_Bool | Xor_Nat | Xor_Bytes.
Inductive ov_Not : Set := Not_Bool | Not_Nat | Not_Int | Not_Bytes.
Inductive ov_Mem : Set := Mem_Set | Mem_Map | Mem_BigMap.
Inductive ov_Mul : Set :=
| Mul_NatNat | Mul_NatInt | Mul_IntNat | Mul_IntInt | Mul_MutezNat | Mul_NatMutez
| Mul_Bls12381G1Bls12381Fr | Mul_Bls12381G2Bls12381Fr | Mul_Bls12381FrBls12381Fr
| Mul_NatBls12381Fr | Mul_IntBls12381Fr | Mul_Bls12381FrNat | Mul_Bls12381FrInt.
Inductive ov_Neg : Set := Neg_Nat | Neg_Int | Neg_Bls12381G1 | Neg_Bls12381G2 | Neg_Bls12381Fr.
Inductive ov_Get : Set := Get_Map | Get_BigMap.
Inductive ov_Update : Set := Update_Set | Update_Map | Update_BigMap.
Inductive ov_GetAndUpdate : Set := GetAndUpdate_Map | GetAndUpdate_BigMap.
Inductive ov_Size : Set := Size_String | Size_Bytes | Size_List | Size_Set | Size_Map.
Inductive ov_Iter : Set := Iter_List | Iter_Set | Iter_Map.
Inductive ov_Slice : Set := Slice_String | Slice_Bytes.
Inductive ov_Concat : Set :=
| Concat_TwoStrings | Concat_TwoBytes | Concat_ListOfStrings | Concat_ListOfBytes.
Inductive ov_Int : Set := Int_Nat | Int_Bls12381Fr | Int_Bytes.
Inductive ov_Bytes : Set := Bytes_Int | Bytes_Nat.
Inductive ov_Map : Set := Map_List | Map_Option | Map_Map.

#[export] Instance ov_add_dec : EqDecision ov_Add. Proof. solve_decision. Defined.
#[export] Instance ov_and_dec : EqDecision ov_And. Proof. solve_decision. Defined.
#[export] Instance ov_or_dec : EqDecision ov_Or. Proof. solve_decision. Defined.
#[export] Instance ov_xor_dec : EqDecision ov_Xor. Proof. solve_decision. Defined.
#[export] Instance ov_not_dec : EqDecision ov_Not. Proof. solve_decision. Defined.
#[export] Instance ov_mem_dec : EqDecision ov_Mem. Proof. solve_decision. Defined.
#[export] Instance ov_mul_dec : EqDecision ov_Mul. Proof. solve_decision. Defined.
#[export] Instance ov_neg_dec : EqDecision ov_Neg. Proof. solve_decision. Defined.
#[export] Instance ov_get_dec : EqDecision ov_Get. Proof. solve_decision. Defined.
#[export] Instance ov_update_dec : EqDecision ov_Update. Proof. solve_decision. Defined.
#[export] Instance ov_gau_dec : EqDecision ov_GetAndUpdate. Proof. solve_decision. Defined.
#[export] Instance ov_size_dec : EqDecision ov_Size. Proof. solve_decision. Defined.
#[export] Instance ov_iter_dec : EqDecision ov_Iter. Proof. solve_decision. Defined.
#[export] Instance ov_slice_dec : EqDecision ov_Slice. Proof. solve_decision. Defined.
#[export] Instance ov_concat_dec : EqDecision ov_Concat. Proof. solve_decision. Defined.
#[export] Instance ov_int_dec : EqDecision ov_Int. Proof. solve_decision. Defined.
#[export] Instance ov_bytes_dec : EqDecision ov_Bytes. Proof. solve_decision. Defined.
#[export] Instance ov_map_dec : EqDecision ov_Map. Proof. solve_decision. Defined.

(** ** Values and instructions ([ast.rs], [big_map.rs], [michelson_lambda.rs],
    [michelson_operation.rs])

    The scalar field and the two groups of BLS12-381 are types of the crate [blst]. *)
Class BlsTypes := {
  Fr : Type;
  G1 : Type;
  G2 : Type;
  fr_eq_dec :: EqDecision Fr;
  g1_eq_dec :: EqDecision G1;
  g2_eq_dec :: EqDecision G2
}.

Section Syntax.
Context {Bls : BlsTypes}.

(** A [BTreeSet] is the list of its elements and a [BTreeMap] the list of its entries, in
    iteration order; a [MichelsonList] is listed from its head. *)
Inductive TypedValue : Type :=
| VInt (z : Z)
| VNat (n : N)
| VMutez (z : Z)
| VBool (b : bool)
| VString (s : string)
| VUnit
| VPair (l r : TypedValue)
| VOption (o : option TypedValue)
| VList (l : list TypedValue)
| VSet (l : list TypedValue)
| VMap (m : list (TypedValue * TypedValue))
| VBigMap (m : BigMap)
| VOr (x : Or TypedValue TypedValue)
| VAddress (a : Address)
| VChainId (c : list Z)
| VContract (a : Address)
| VBytes (bs : list Z)
| VKey (k : Key)
| VSignature (s : Signature)
| VLambda (c : Closure)
| VKeyHash (k : KeyHash)
| VOperation (o : Operation) (counter : Z)
| VTicket (t : Ticket)
| VTimestamp (z : Z)
| VBls12381Fr (x : Fr)
| VBls12381G1 (x : G1)
| VBls12381G2 (x : G2)
with BigMap : Type :=
| mkBigMap (id : option Z) (overlay : list (TypedValue * option TypedValue)) (key_type value_type : Ty)
with Ticket : Type :=
| mkTicket (ticketer : AddressHash) (content : TypedValue) (amount : N)
with Lambda : Type :=
| Lambda_ (micheline_code : Micheline) (code : list Instruction)
| LambdaRec (in_ty out_ty : Ty) (micheline_code : Micheline) (code : list Instruction)
with Closure : Type :=
| CLambda (l : Lambda)
| CApply (arg_ty : Ty) (arg_val : TypedValue) (closure : Closure)
with Operation : Type :=
| TransferTokens (param : TypedValue) (destination_address : Address) (amount : Z)
| SetDelegate (k : option KeyHash)
| Emit (tag : option string) (value : TypedValue) (arg_ty : Or Ty Micheline)
| CreateContract (delegate : option KeyHash) (amount : Z) (storage : TypedValue)
    (code : ContractScript) (micheline_code : Micheline)
with ContractScript : Type :=
| mkContractScript (parameter storage : Ty) (code : Instruction)
with Instruction : Type :=
| IAdd (o : ov_Add) | IMul (o : ov_Mul) | INeg (o : ov_Neg) | ISubMutez
| IDip (n : option nat) (body : list Instruction)
| IDrop (n : option nat) | IDup (n : option nat) | IDig (n : nat) | IDug (n : nat)
| IGt | IGe | IEq | INeq | ILt | ILe
| IIf (t f : list Instruction)
| IIfNone (n s : list Instruction)
| IInt (o : ov_Int) | INat | IBytes (o : ov_Bytes) | IAbs | IIsNat
| ILoop (body : list Instruction)
| IPush (v : TypedValue)
| ISwap
| IFailwith (t : Ty)
| INever | IUnit | ICar | ICdr | IPair | IPairN (n : nat)
| ISome_ | INone | ICompare | IAmount | INil | IEmptySet
| IEmptyBigMap (k v : Ty)
| IMem (o : ov_Mem) | IGet (o : ov_Get) | IGetN (n : nat)
| IUpdate (o : ov_Update) | IGetAndUpdate (o : ov_GetAndUpdate)
| IConcat (o : ov_Concat) | ISize (o : ov_Size) | IUpdateN (n : nat)
| ISeq (body : list Instruction)
| IUnpair | IUnpairN (n : nat) | ICons
| IAnd (o : ov_And) | IOr (o : ov_Or) | IXor (o : ov_Xor) | INot (o : ov_Not)
| IIfCons (c n : list Instruction)
| IIter (o : ov_Iter) (body : list Instruction)
| IIfLeft (l r : list Instruction)
| IChainId
| ISelf (ep : Entrypoint)
| IPack | IUnpack (t : Ty) | ICheckSignature | ITransferTokens | ISetDelegate | IAddress
| ISlice (o : ov_Slice) | ILeft | IRight
| ILambda (l : Lambda)
| IExec | ITicket | IHashKey
| IApply (arg_ty : Ty)
| IReadTicket | ISplitTicket | IJoinTickets
| ILoopLeft (body : list Instruction)
| IBlake2b | IKeccak | ISha256 | ISha3 | ISha512
| IBalance | ILevel | IMinBlockTime | ISelfAddress | ISender | ISource | INow
| IImplicitAccount | ITotalVotingPower | IVotingPower
| IContract (t : Ty) (ep : Entrypoint)
| IPairingCheck
| IEmit (tag : option string) (arg_ty : Or Ty Micheline)
| ICreateContract (cs : ContractScript) (m : Micheline)
| IMap (o : ov_Map) (body : list Instruction).

Definition bm_id (m : BigMap) : option Z := let 'mkBigMap id _ _ _ := m in id.
Definition bm_overlay (m : BigMap) : list (TypedValue * option TypedValue) :=
  let 'mkBigMap _ o _ _ := m in o.
Definition tk_ticketer (t : Ticket) : AddressHash := let 'mkTicket h _ _ := t in h.
Definition tk_content (t : Ticket) : TypedValue := let 'mkTicket _ c _ := t in c.
Definition tk_amount (t : Ticket) : N := let 'mkTicket _ _ a := t in a.
Definition cs_parameter (c : ContractScript) : Ty := let 'mkContractScript p _ _ := c in p.
Definition cs_storage (c : ContractScript) : Ty := let 'mkContractScript _ s _ := c in s.
Definition cs_code (c : ContractScript) : Instruction := let 'mkContractScript _ _ i := c in i.
Definition lambda_code (l : Lambda) : list Instruction :=
  match l with Lambda_ _ code => code | LambdaRec _ _ _ code => code end.

(** [unwrap_ticket]. *)
Definition unwrap_ticket (t : Ticket) : TypedValue :=
  VPair (VAddress (mkAddress (tk_ticketer t) DEFAULT_EP_NAME))
    (VPair (tk_content t) (VNat (tk_amount t))).

(** The code blocks of an instruction. *)
Definition blocks (i : Instruction) : list (list Instruction) :=
  match i with
  | IDip _ b | ILoop b | ISeq b | IIter _ b | ILoopLeft b | IMap _ b => [b]
  | IIf b c | IIfNone b c | IIfCons b c | IIfLeft b c => [b; c]
  | _ => []
  end.

(** Induction on instructions with the hypothesis for every nested instruction. *)
Section InstructionInd.
Variable P : Instruction -> Prop.
Hypothesis step : forall i, Forall (Forall P) (blocks i) -> P i.

Fixpoint instruction_nested_ind (i : Instruction) : P i.
Proof using P step.
  assert (block : forall b, Forall P b).
  { fix go 1. intros [|j b]; constructor; [apply instruction_nested_ind | apply go]. }
  apply step. destruct i; repeat constructor; apply block.
Qed.
End InstructionInd.

End Syntax.

End MirAst.
Export MirAst.

(** Structural equality of typed values, instructions and the data between them: the derived
    [PartialEq] of [src/contrib/mir/src/ast.rs]. *)
Module MirEq.
Section MirEq.
Context {Bls : BlsTypes}.

Fixpoint tv_eq_dec (x y : TypedValue) {struct x} : {x = y} + {x <> y}
with big_map_eq_dec (x y : BigMap) {struct x} : {x = y} + {x <> y}
with ticket_eq_dec (x y : Ticket) {struct x} : {x = y} + {x <> y}
with lambda_eq_dec (x y : Lambda) {struct x} : {x = y} + {x <> y}
with closure_eq_dec (x y : Closure) {struct x} : {x = y} + {x <> y}
with operation_eq_dec (x y : Operation) {struct x} : {x = y} + {x <> y}
with script_eq_dec (x y : ContractScript) {struct x} : {x = y} + {x <> y}
with instruction_eq_dec (x y : Instruction) {struct x} : {x = y} + {x <> y}.
Proof.
  all: assert (EqDecision (list Instruction)) by exact (list_eq_dec (dec := instruction_eq_dec));
    assert (EqDecision (option TypedValue)) by exact (option_eq_dec (dec := tv_eq_dec));
    assert (EqDecision (list TypedValue)) by exact (list_eq_dec (dec := tv_eq_dec));
    assert (EqDecision (list (TypedValue * TypedValue)))
      by exact (list_eq_dec (dec := prod_eq_dec (EqDecision0 := tv_eq_dec) (EqDecision1 := tv_eq_dec)));
    assert (EqDecision (list (TypedValue * option TypedValue)))
      by exact (list_eq_dec (dec := prod_eq_dec (EqDecision0 := tv_eq_dec)
                 (EqDecision1 := option_eq_dec (dec := tv_eq_dec))));
    assert (EqDecision (Or TypedValue TypedValue))
      by exact (or_eq_dec (EqDecision0 := tv_eq_dec) (EqDecision1 := tv_eq_dec)).
  all: decide equality; apply (decide (_ = _)).
Defined.

#[global] Instance typed_value_eq_dec : EqDecision TypedValue := tv_eq_dec.

End MirEq.
End MirEq.
Export MirEq.
