(* ===== verification/MirGas.v ===== *)
(** Gas of the Michelson runtime ([src/contrib/mir/src/gas.rs]): the counter, and the cost
    functions of the typechecker and of the interpreter.

    The arithmetic of the crate [checked] is that of [option Z] with the width of the
    machine integer written out, [None] being an overflow; [usize] has 64 bits. *)

From stdpp Require Import strings.
From S2P Require Import Prelude MirAst.

Open Scope Z_scope.

Module MirGas.

(** ** Outcomes

    A function of the runtime returns a value or an error, or panics.  A model function that
    recurses on a bound may also run out of it ([NoFuel]). *)
Inductive PanicReason : Set :=
| AccessToGasAfterExhaustion
| Incomparable
| StackOutOfBounds
| UnreachableState
| NoSuchBigMap
| UnwrapFailed
| StrSliceOutOfBounds.

Inductive Res (E A : Type) : Type :=
| Done (a : A)
| Error (e : E)
| Panics (r : PanicReason)
| NoFuel.
Arguments Done {E A} a.
Arguments Error {E A} e.
Arguments Panics {E A} r.
Arguments NoFuel {E A}.

Definition res_bind {E A B} (r : Res E A) (k : A -> Res E B) : Res E B :=
  match r with
  | Done a => k a
  | Error e => Error e
  | Panics p => Panics p
  | NoFuel => NoFuel
  end.

Definition res_map_err {E F A} (f : E -> F) (r : Res E A) : Res F A :=
  match r with
  | Done a => Done a
  | Error e => Error (f e)
  | Panics p => Panics p
  | NoFuel => NoFuel
  end.

Definition res_option {E A} (o : option A) (p : PanicReason) : Res E A :=
  match o with Some a => Done a | None => Panics p end.

(** Functions on a mutable state: an error leaves the state it was raised in. *)
Definition M (S E A : Type) : Type := S -> Res E A * S.

Definition ret {S E A} (a : A) : M S E A := fun s => (Done a, s).
Definition fail {S E A} (e : E) : M S E A := fun s => (Error e, s).
Definition panic {S E A} (p : PanicReason) : M S E A := fun s => (Panics p, s).
Definition no_fuel {S E A} : M S E A := fun s => (NoFuel, s).
Definition lift {S E A} (r : Res E A) : M S E A := fun s => (r, s).
Definition get_state {S E} : M S E S := fun s => (Done s, s).

Definition bind {S E A B} (c : M S E A) (k : A -> M S E B) : M S E B :=
  fun s => match c s with
           | (Done a, s) => k a s
           | (Error e, s) => (Error e, s)
           | (Panics p, s) => (Panics p, s)
           | (NoFuel, s) => (NoFuel, s)
           end.

Definition map_err {S E F A} (f : E -> F) (c : M S E A) : M S F A :=
  fun s => let '(r, s) := c s in (res_map_err f r, s).

Declare Scope mir_scope.
Delimit Scope mir_scope with mir.
Notation "'let%' x := c 'in' k" := (res_bind c (fun x => k))
  (at level 10, x pattern, c at level 200, k at level 200) : mir_scope.
Notation "'let+' x := c 'in' k" := (bind c (fun x => k))
  (at level 10, x pattern, c at level 200, k at level 200) : mir_scope.
Notation "c >>; k" := (bind c (fun _ => k)) (at level 199, right associativity) : mir_scope.
Open Scope mir_scope.

(** ** The counter *)
Inductive OutOfGas : Set := OutOfGas_.

(** [Gas { milligas_amount: Option<u32> }]: [None] is exhausted gas. *)
Definition Gas : Type := option Z.

Definition DEFAULT_GAS_AMOUNT : Z := 1040000.
Definition gas_new (milligas : Z) : Gas := Some milligas.
Definition gas_default : Gas := gas_new (DEFAULT_GAS_AMOUNT * 1000).

(** [Gas::milligas]. *)
Definition milligas {E} (g : Gas) : Res E Z := res_option g AccessToGasAfterExhaustion.

(** [Gas::consume]. *)
Definition gas_consume (cost : Z) : M Gas OutOfGas unit := fun g =>
  match milligas g with
  | Done m =>
      let g' := checked_sub m cost in
      match g' with
      | None => (Error OutOfGas_, g')
      | Some _ => (Done tt, g')
      end
  | Error e => (Error e, g)
  | Panics p => (Panics p, g)
  | NoFuel => (NoFuel, g)
  end.

(** Error types with a [From<OutOfGas>]. *)
Class FromOutOfGas (E : Type) := { from_out_of_gas : E }.

(** [gas.consume(cost?)?]. *)
Definition gas_charge {E} `{FromOutOfGas E} (cost : Res OutOfGas Z) : M Gas E unit :=
  map_err (fun _ => from_out_of_gas) (let+ c := lift cost in gas_consume c).
Definition gas_use {E} `{FromOutOfGas E} (cost : Z) : M Gas E unit := gas_charge (Done cost).

(** ** Checked arithmetic *)
Definition ck (w z : Z) : option Z := if (0 <=? z) && (z <? 2 ^ w) then Some z else None.

Definition ck2 (w : Z) (f : Z -> Z -> Z) (a b : option Z) : option Z :=
  match a, b with Some a, Some b => ck w (f a b) | _, _ => None end.

Definition ck_shr (a : option Z) (n : Z) : option Z := option_map (fun a => Z.shiftr a n) a.

Declare Scope c32_scope.
Delimit Scope c32_scope with c32.
Declare Scope c64_scope.
Delimit Scope c64_scope with c64.
Notation "# z" := (Some z%Z) (at level 1, z at level 0, only parsing) : c32_scope.
Notation "# z" := (Some z%Z) (at level 1, z at level 0, only parsing) : c64_scope.
Notation "a + b" := (ck2 32 Z.add a b) : c32_scope.
Notation "a * b" := (ck2 32 Z.mul a b) : c32_scope.
Notation "a >> n" := (ck_shr a n%Z) (at level 45, n at level 0) : c32_scope.
Notation "a + b" := (ck2 64 Z.add a b) : c64_scope.
Notation "a - b" := (ck2 64 Z.sub a b) : c64_scope.
Notation "a * b" := (ck2 64 Z.mul a b) : c64_scope.
Notation "a / b" := (ck2 64 Z.div a b) : c64_scope.
Notation "a >> n" := (ck_shr a n%Z) (at level 45, n at level 0) : c64_scope.

(** [AsGasCost]: the value of a checked number as [u32]. *)
Definition as_gas_cost (c : option Z) : Res OutOfGas Z :=
  match c with
  | Some z => if z <? 2 ^ 32 then Done z else Error OutOfGas_
  | None => Error OutOfGas_
  end.

(** [Checked::ok_or(OutOfGas)]. *)
Definition ok_or_out_of_gas (c : option Z) : Res OutOfGas Z :=
  match c with Some z => Done z | None => Error OutOfGas_ end.

(** [Log2i] on 64-bit integers: [next_power_of_two] wraps to zero above [2^63]. *)
Definition log2i (x : Z) : Z := if x <=? 2 ^ 63 then Z.log2_up x else 64.

(** [BigInt::bits]. *)
Definition big_bits (z : Z) : Z := if z =? 0 then 0 else Z.log2 (Z.abs z) + 1.
Definition bits_to_bytes (bits : Z) : Z := Z.shiftr (bits + 7) 3.
Definition byte_size (z : Z) : Z := bits_to_bytes (big_bits z).

Definition len {A} (l : list A) : Z := Z.of_nat (length l).
Definition slen (s : string) : Z := Z.of_nat (String.length s).

(** ** Typechecking costs ([tc_cost]) *)
Module tc_cost.
Definition INSTR_STEP : Z := 220 * 2.
Definition VALUE_STEP : Z := 100.
Definition PARSE_TYPE_STEP : Z := 60.
Definition TYPE_PROP_STEP : Z := 60.
Definition KEY_HASH_READABLE : Z := 3200.
Definition KEY_HASH_OPTIMIZED : Z := 80.
Definition BLS_FR : Z := 120.
Definition BLS_G1 : Z := 54600.
Definition BLS_G2 : Z := 69000.
Definition KEY_READABLE : Z := 3600.
Definition KEY_OPTIMIZED : Z := 60.
Definition CHAIN_ID_READABLE : Z := 1600.
Definition CHAIN_ID_OPTIMIZED : Z := 50.

Definition timestamp_decoding (l : Z) : Res OutOfGas Z :=
  let v0 := (#(Z.sqrt l) * #l)%c64 in
  as_gas_cost (#105 + ((v0 >> 5) + (v0 >> 6)))%c64.

Definition variadic (depth : nat) : Res OutOfGas Z := as_gas_cost (#(Z.of_nat depth) * #50)%c32.

Definition dig_n (depth : nat) : Res OutOfGas Z := as_gas_cost (#(Z.of_nat depth) * #50)%c64.
Definition dug_n (depth : nat) : Res OutOfGas Z := as_gas_cost (#(Z.of_nat depth) * #50)%c64.

Definition drop_n (depth : option nat) : Res OutOfGas Z :=
  match depth with None => Done 0 | Some d => variadic d end.
Definition dip_n (depth : option nat) : Res OutOfGas Z :=
  match depth with None => Done 0 | Some d => variadic d end.

Definition ty_eq (sz1 sz2 : Z) : Res OutOfGas Z := as_gas_cost (#(Z.min sz1 sz2) * #60)%c64.

Definition construct_map (key_size sz : Z) : Res OutOfGas Z :=
  let n := #sz%c64 in
  let% n1 := ok_or_out_of_gas (n + #1)%c64 in
  let log2n := log2i n1 in
  as_gas_cost (#80 * n + #key_size * n * #log2n)%c64.

Definition construct_set (val_size sz : Z) : Res OutOfGas Z :=
  let n := #sz%c64 in
  let% n1 := ok_or_out_of_gas (n + #1)%c64 in
  let log2n := log2i n1 in
  as_gas_cost (#130 * n + #val_size * n * #log2n)%c64.

Definition pair_n (size : nat) : Res OutOfGas Z := as_gas_cost (#(Z.of_nat size) * #50)%c64.
Definition unpair_n (size : nat) : Res OutOfGas Z := as_gas_cost (#(Z.of_nat size) * #50)%c64.
Definition get_n (size : nat) : Res OutOfGas Z := as_gas_cost (#(Z.of_nat size) * #50)%c64.
End tc_cost.

(** ** Interpretation costs ([interpret_cost]) *)
Module interpret_cost.
Definition DIP : Z := 10.
Definition DROP : Z := 10.
Definition DUP : Z := 10.
Definition GT : Z := 10.
Definition GE : Z := 10.
Definition EQ : Z := 10.
Definition NEQ : Z := 10.
Definition LE : Z := 10.
Definition LT : Z := 10.
Definition IF : Z := 10.
Definition IF_NONE : Z := 10.
Definition IF_CONS : Z := 10.
Definition IF_LEFT : Z := 10.
Definition LOOP : Z := 10.
Definition ITER : Z := 20.
Definition SWAP : Z := 10.
Definition INT_NAT : Z := 10.
Definition ISNAT : Z := 10.
Definition INT_BLS_FR : Z := 115.
Definition PUSH : Z := 10.
Definition ADD_TEZ : Z := 20.
Definition ADD_BLS_FR : Z := 30.
Definition ADD_BLS_G1 : Z := 900.
Definition ADD_BLS_G2 : Z := 2470.
Definition MUL_BLS_G1 : Z := 103000.
Definition MUL_BLS_G2 : Z := 220000.
Definition MUL_BLS_FR : Z := 45.
Definition MUL_TEZ_NAT : Z := 50.
Definition MUL_NAT_TEZ : Z := MUL_TEZ_NAT.
Definition NEG_FR : Z := 30.
Definition NEG_G1 : Z := 50.
Definition NEG_G2 : Z := 70.
Definition SUB_MUTEZ : Z := 15.
Definition UNIT : Z := 10.
Definition AND_BOOL : Z := 10.
Definition OR_BOOL : Z := 10.
Definition XOR_BOOL : Z := 15.
Definition NOT_BOOL : Z := 10.
Definition CAR : Z := 10.
Definition CDR : Z := 10.
Definition PAIR : Z := 10.
Definition UNPAIR : Z := 10.
Definition SOME : Z := 10.
Definition NONE : Z := 10.
Definition AMOUNT : Z := 10.
Definition NIL : Z := 10.
Definition CONS : Z := 15.
Definition EMPTY_SET : Z := 300.
Definition SIZE_STRING : Z := 15.
Definition SIZE_BYTES : Z := 10.
Definition SIZE_LIST : Z := 10.
Definition SIZE_SET : Z := 10.
Definition SIZE_MAP : Z := 10.
Definition EMPTY_BIG_MAP : Z := 300.
Definition CHAIN_ID : Z := 15.
Definition PACK : Z := 0.
Definition SELF : Z := 10.
Definition ADDRESS : Z := 10.
Definition LEFT : Z := 10.
Definition RIGHT : Z := 10.
Definition MAP_OPTION : Z := 10.
Definition MAP_LIST : Z := 10.
Definition MAP_MAP : Z := 20.
Definition TRANSFER_TOKENS : Z := 60.
Definition SET_DELEGATE : Z := 60.
Definition LAMBDA : Z := 10.
Definition EXEC : Z := 10.
Definition HASH_KEY : Z := 605.
Definition APPLY : Z := 140.
Definition TICKET : Z := 10.
Definition READ_TICKET : Z := 10.
Definition BALANCE : Z := 10.
Definition CONTRACT : Z := 30.
Definition LEVEL : Z := 10.
Definition MIN_BLOCK_TIME : Z := 20.
Definition SELF_ADDRESS : Z := 10.
Definition SENDER : Z := 10.
Definition SOURCE : Z := 10.
Definition NOW : Z := 10.
Definition IMPLICIT_ACCOUNT : Z := 10.
Definition VOTING_POWER : Z := 640.
Definition TOTAL_VOTING_POWER : Z := 450.
Definition EMIT : Z := 30.
Definition INTERPRET_RET : Z := 15.
Definition LOOP_ENTER : Z := 10.
Definition LOOP_LEFT_ENTER : Z := 10.
Definition LOOP_EXIT : Z := 10.
Definition CREATE_CONTRACT : Z := 60.

(** [size_of_val] of a [BigUint], one [Vec]: three machine words, whatever the number. *)
Definition SIZE_OF_BIGUINT : Z := 24.

Definition split_ticket : Res OutOfGas Z := as_gas_cost (#40 + (#SIZE_OF_BIGUINT >> 1))%c64.

Definition dropn (n : nat) : Res OutOfGas Z :=
  let n := #(Z.of_nat n)%c32 in as_gas_cost (#30 + n * #2 + (n >> 1) + (n >> 3))%c32.
Definition drop (mb_n : option nat) : Res OutOfGas Z :=
  match mb_n with None => Done DROP | Some n => dropn n end.
Definition dipn (n : nat) : Res OutOfGas Z :=
  let n := #(Z.of_nat n)%c32 in as_gas_cost (#15 + n * #4)%c32.
Definition dip (mb_n : option nat) : Res OutOfGas Z :=
  match mb_n with None => Done DIP | Some n => dipn n end.
Definition undip (n : nat) : Res OutOfGas Z :=
  let n := #(Z.of_nat n)%c32 in as_gas_cost ((n + #1) * #10)%c32.
Definition dupn (n : nat) : Res OutOfGas Z :=
  let n := #(Z.of_nat n)%c32 in as_gas_cost (#20 + n + (n >> 2))%c32.
Definition dup (mb_n : option nat) : Res OutOfGas Z :=
  match mb_n with None => Done DUP | Some n => dupn n end.
Definition dig (n : nat) : Res OutOfGas Z :=
  let n := #(Z.of_nat n)%c32 in as_gas_cost (#30 + #6 * n + (n >> 1) + (n >> 2))%c32.
Definition dug (n : nat) : Res OutOfGas Z :=
  let n := #(Z.of_nat n)%c32 in as_gas_cost (#35 + #6 * n + (n >> 1) + (n >> 2))%c32.

Definition add_num (i1 i2 : Z) : Res OutOfGas Z :=
  let sz := #(Z.max (byte_size i1) (byte_size i2))%c64 in as_gas_cost (#35 + (sz >> 1))%c64.
Definition and_num (i1 i2 : Z) : Res OutOfGas Z :=
  let sz := #(Z.min (byte_size i1) (byte_size i2))%c64 in as_gas_cost (#35 + (sz >> 1))%c64.
Definition and_bytes (b1 b2 : list Z) : Res OutOfGas Z :=
  let sz := #(Z.min (len b1) (len b2))%c64 in as_gas_cost (#35 + (sz >> 1))%c64.
Definition or_num (i1 i2 : Z) : Res OutOfGas Z :=
  let sz := #(Z.min (byte_size i1) (byte_size i2))%c64 in as_gas_cost (#35 + (sz >> 1))%c64.
Definition or_bytes (b1 b2 : list Z) : Res OutOfGas Z :=
  let sz := #(Z.min (len b1) (len b2))%c64 in as_gas_cost (#35 + (sz >> 1))%c64.
Definition xor_nat (i1 i2 : Z) : Res OutOfGas Z :=
  let sz := #(Z.min (byte_size i1) (byte_size i2))%c64 in as_gas_cost (#35 + (sz >> 1))%c64.
Definition not_num (n : Z) : Res OutOfGas Z :=
  let sz := #(byte_size n)%c64 in as_gas_cost (#25 + (sz >> 1))%c64.
Definition not_bytes (b : list Z) : Res OutOfGas Z :=
  let sz := #(len b)%c64 in as_gas_cost (#30 + (sz >> 1))%c64.

Definition mul_int (i1 i2 : Z) : Res OutOfGas Z :=
  let a := (#(byte_size i1) + #(byte_size i2))%c64 in
  let% v0 :=
    (if bool_decide (a = Some 0) then Done (Some 0)
     else let% x := ok_or_out_of_gas a in Done (a * #(log2i x))%c64) in
  as_gas_cost (#55 + (v0 >> 1) + (v0 >> 2) + (v0 >> 4))%c64.

Definition cmp_bytes (s1 s2 : Z) : Res OutOfGas Z :=
  let v := #(Z.min s1 s2)%c64 in as_gas_cost (#35 + (v >> 6) + (v >> 7))%c64.
Definition ADDRESS_SIZE : Z := 20 + 31.
Definition CMP_CHAIN_ID : Z := 30.
Definition CMP_KEY : Z := 92.
Definition CMP_SIGNATURE : Z := 92.
Definition KEY_HASH_BYTE_SIZE : Z := 20 + 1.

(** [interpret_cost::compare]. *)
Fixpoint compare `{BlsTypes} (v1 v2 : TypedValue) : Res OutOfGas Z :=
  match v1, v2 with
  | VNat l, VNat r => cmp_bytes (byte_size (Z.of_N l)) (byte_size (Z.of_N r))
  | VInt l, VInt r => cmp_bytes (byte_size l) (byte_size r)
  | VTimestamp l, VTimestamp r => cmp_bytes (byte_size l) (byte_size r)
  | VBool _, VBool _ => cmp_bytes 1 1
  | VMutez _, VMutez _ => cmp_bytes 8 8
  | VString l, VString r => cmp_bytes (slen l) (slen r)
  | VUnit, VUnit => Done 10
  | VPair l0 l1, VPair r0 r1 =>
      let% c0 := compare l0 r0 in
      let% c1 := compare l1 r1 in
      as_gas_cost (#10 + #c0 + #c1)%c32
  | VOption l, VOption r =>
      match l, r with
      | Some l, Some r => let% c := compare l r in as_gas_cost (#10 + #c)%c32
      | _, _ => as_gas_cost #10%c32
      end
  | VAddress _, VAddress _ => cmp_bytes ADDRESS_SIZE ADDRESS_SIZE
  | VChainId _, VChainId _ => Done CMP_CHAIN_ID
  | VBytes l, VBytes r => cmp_bytes (len l) (len r)
  | VKey _, VKey _ => Done CMP_KEY
  | VSignature _, VSignature _ => Done CMP_SIGNATURE
  | VKeyHash _, VKeyHash _ => cmp_bytes KEY_HASH_BYTE_SIZE KEY_HASH_BYTE_SIZE
  | VOr l, VOr r =>
      match l, r with
      | Left x, Left y | Right x, Right y => let% c := compare x y in as_gas_cost (#10 + #c)%c32
      | _, _ => as_gas_cost #10%c32
      end
  | _, _ => Panics Incomparable
  end.

(** The cost of the comparison is computed, and dropped. *)
Definition join_tickets `{BlsTypes} (t1 t2 : Ticket) : Res OutOfGas Z :=
  let% _ := compare (tk_content t1) (tk_content t2) in
  add_num (Z.of_N (tk_amount t1)) (Z.of_N (tk_amount t2)).

Definition concat_list_precheck (list_size : Z) : Res OutOfGas Z :=
  as_gas_cost (#10 * #list_size)%c64.
Definition concat_string_list (total_len : option Z) : Res OutOfGas Z :=
  as_gas_cost (total_len / #2 + #100)%c64.
Definition concat_bytes_list (total_len : option Z) : Res OutOfGas Z :=
  as_gas_cost (total_len / #2 + #100)%c64.
Definition concat_string_pair (len1 len2 : Z) : Res OutOfGas Z :=
  as_gas_cost ((#len1 + #len2) / #2 + #45)%c64.
Definition concat_bytes_pair (len1 len2 : Z) : Res OutOfGas Z :=
  as_gas_cost ((#len1 + #len2) / #2 + #45)%c64.

(** The comparisons of a search: [compare_cost * log2i(size + 1)]. *)
Definition lookup_cost `{BlsTypes} (k : TypedValue) (size : Z) : Res OutOfGas (option Z) :=
  let% compare_cost := compare k k in
  let% size1 := ok_or_out_of_gas (#size + #1)%c64 in
  Done (#compare_cost * #(log2i size1))%c32.

Definition map_get `{BlsTypes} (k : TypedValue) (map_size : Z) : Res OutOfGas Z :=
  let% lookup_cost := lookup_cost k map_size in as_gas_cost (#80 + lookup_cost)%c32.
Definition map_mem `{BlsTypes} (k : TypedValue) (map_size : Z) : Res OutOfGas Z :=
  map_get k map_size.
Definition set_mem `{BlsTypes} (k : TypedValue) (map_size : Z) : Res OutOfGas Z :=
  let% lookup_cost := lookup_cost k map_size in as_gas_cost (#115 + lookup_cost)%c32.
Definition map_update `{BlsTypes} (k : TypedValue) (map_size : Z) : Res OutOfGas Z :=
  let% lookup_cost := lookup_cost k map_size in as_gas_cost (#80 + #2 * lookup_cost)%c32.
Definition set_update `{BlsTypes} (k : TypedValue) (map_size : Z) : Res OutOfGas Z :=
  let% lookup_cost := lookup_cost k map_size in as_gas_cost (#130 + #2 * lookup_cost)%c32.
Definition map_get_and_update `{BlsTypes} (k : TypedValue) (map_size : Z) : Res OutOfGas Z :=
  let% lookup_cost := lookup_cost k map_size in as_gas_cost (#80 + #3 * lookup_cost)%c32.

(** [MichelineSize]. *)
Record MichelineSize : Type := mkMichelineSize {
  nodes_num : option Z;
  str_byte : option Z;
  zariths : option Z
}.

Definition micheline_size_default : MichelineSize := mkMichelineSize (Some 0) (Some 0) (Some 0).

Definition annotation_len (a : Annotation) : Z :=
  match a with
  | Ann_Field a | Ann_Variable a | Ann_Type a => slen a + 1
  | Ann_Special a => slen a
  end.

(** [collect_micheline_size]. *)
Fixpoint collect_micheline_size (mich : Micheline) (size : MichelineSize) : MichelineSize :=
  let '(mkMichelineSize n s z) := size in
  let n := (n + #1)%c64 in
  match mich with
  | MString str => mkMichelineSize n (s + #(slen str))%c64 z
  | MBytes bs => mkMichelineSize n (s + #(len bs))%c64 z
  | MInt i => mkMichelineSize n s (z + #(byte_size i))%c64
  | MSeq ms => foldl (fun size m => collect_micheline_size m size) (mkMichelineSize n s z) ms
  | MApp _ args annots =>
      foldl (fun '(mkMichelineSize n s z) a => mkMichelineSize n (s + #(annotation_len a))%c64 z)
        (foldl (fun size m => collect_micheline_size m size) (mkMichelineSize n s z) args) annots
  end.

Definition micheline_encoding_by_size (size : MichelineSize) : Res OutOfGas Z :=
  as_gas_cost (nodes_num size * #100 + zariths size * #25 + str_byte size * #10)%c64.
Definition micheline_encoding (mich : Micheline) : Res OutOfGas Z :=
  micheline_encoding_by_size (collect_micheline_size mich micheline_size_default).

Definition check_signature (k : Key) (msg : list Z) : Res OutOfGas Z :=
  let l := #(len msg)%c64 in
  as_gas_cost
    match k with
    | KEd25519 _ => (#65800 + ((l >> 3) + l))%c64
    | KSecp256k1 _ => (#51600 + ((l >> 3) + l))%c64
    | KP256 _ => (#341000 + ((l >> 3) + l))%c64
    | KBls _ => (#1570000 + l * #3)%c64
    end.

Definition slice (length : Z) : Res OutOfGas Z := as_gas_cost ((#length >> 1) + #25)%c64.
Definition blake2b (msg : list Z) : Res OutOfGas Z :=
  let size := #(len msg)%c64 in as_gas_cost (#430 + ((size >> 3) + size))%c64.
Definition keccak (msg : list Z) : Res OutOfGas Z :=
  let size := #(len msg)%c64 in as_gas_cost (#1350 + ((size >> 2) + size * #8))%c64.
Definition sha256 (msg : list Z) : Res OutOfGas Z :=
  let size := #(len msg)%c64 in as_gas_cost (#600 + ((size >> 2) + ((size >> 1) + size * #4)))%c64.
Definition sha3 (msg : list Z) : Res OutOfGas Z :=
  let size := #(len msg)%c64 in as_gas_cost (#1350 + ((size >> 2) + size * #8))%c64.
Definition sha512 (msg : list Z) : Res OutOfGas Z :=
  let size := #(len msg)%c64 in as_gas_cost (#680 + size * #3)%c64.
Definition pairing_check (size : Z) : Res OutOfGas Z := as_gas_cost (#450000 + #342500 * #size)%c64.
Definition mul_bls_fr_big_int (int : Z) : Res OutOfGas Z :=
  let size := #(byte_size int)%c64 in as_gas_cost (#265 + ((size >> 4) + size))%c64.
Definition neg_int (int : Z) : Res OutOfGas Z :=
  let size := #(byte_size int)%c64 in as_gas_cost (#25 + (size >> 1))%c64.
Definition abs (int : Z) : Res OutOfGas Z :=
  let size := #(byte_size int)%c64 in as_gas_cost (#20 + (size >> 1))%c64.
Definition int_bytes (size : Z) : Res OutOfGas Z :=
  let size := #size%c64 in as_gas_cost (#20 + ((size >> 1) + size * #2))%c64.
Definition bytes_int (int : Z) : Res OutOfGas Z :=
  let size := #(byte_size int)%c64 in as_gas_cost (#90 + size * #3)%c64.
Definition bytes_nat (int : Z) : Res OutOfGas Z :=
  let size := #(byte_size int)%c64 in as_gas_cost (#75 + size * #3)%c64.
Definition unpack (bytes : list Z) : Res OutOfGas Z :=
  let size := #(len bytes)%c64 in as_gas_cost (#260 + (size >> 1))%c64.
Definition pair_n (size : nat) : Res OutOfGas Z :=
  let v0 := (#(Z.of_nat size) - #2)%c64 in as_gas_cost (#40 + ((v0 >> 2) + v0 * #3))%c64.
Definition unpair_n (size : nat) : Res OutOfGas Z :=
  let v0 := (#(Z.of_nat size) - #2)%c64 in as_gas_cost (#30 + v0 * #4)%c64.
Definition get_n (size : nat) : Res OutOfGas Z :=
  let size := #(Z.of_nat size)%c64 in as_gas_cost (#20 + ((size >> 1) + (size >> 4)))%c64.
Definition update_n (size : nat) : Res OutOfGas Z :=
  let size := #(Z.of_nat size)%c64 in as_gas_cost (#30 + ((size >> 5) + ((size >> 2) + size)))%c64.
End interpret_cost.

End MirGas.
Export MirGas.
