(* ===== verification/MirStack.v ===== *)
(** The stacks of the Michelson runtime ([src/contrib/mir/src/stack.rs]) and its lists
    ([src/contrib/mir/src/ast/michelson_list.rs]).

    [Stack<T>] keeps its elements in a [Vec] with the top last.  The typechecker and the
    interpreter see it from the top: their models use the list functions of the module
    [Top], and [stack_vec_refines_top] shows that every operation on the vector implements
    the one on the list.  [None] is the panic of an access out of bounds. *)

From S2P Require Import Prelude.

(** ** The stack as a list with the top first *)
Module Top.
Section Top.
Context {T : Type}.
Implicit Types (s : list T).

Definition push (x : T) s : list T := x :: s.

Definition pop s : option (T * list T) :=
  match s with [] => None | x :: s => Some (x, s) end.

Definition remove (i : nat) s : option (T * list T) :=
  match drop i s with [] => None | x :: r => Some (x, take i s ++ r) end.

Definition insert (i : nat) (x : T) s : option (list T) :=
  if decide (i <= length s)%nat then Some (take i s ++ x :: drop i s) else None.

Definition drop_top (n : nat) s : option (list T) :=
  if decide (n <= length s)%nat then Some (drop n s) else None.

(** [drain_top] and [split_off]: the removed elements, from the top, and the rest. *)
Definition split_off (n : nat) s : option (list T * list T) :=
  if decide (n <= length s)%nat then Some (take n s, drop n s) else None.

Definition append (other s : list T) : list T := other ++ s.

Definition index (i : nat) s : option T := s !! i.

Definition index_set (i : nat) (x : T) s : option (list T) :=
  if decide (i < length s)%nat then Some (<[i := x]> s) else None.

Definition swap (i j : nat) s : option (list T) :=
  match s !! i, s !! j with
  | Some x, Some y => Some (<[i := y]> (<[j := x]> s))
  | _, _ => None
  end.
End Top.
End Top.

(** ** The vector *)
Module MirStack.
Section Vec.
Context {T : Type}.

(** [Stack<T>(Vec<T>)]: the top is the last element. *)
Definition Stack : Type := list T.
Implicit Types (v : Stack).

Definition stack_new : Stack := [].
Definition stack_from_vec (data : list T) : Stack := data.

(** [checked_sub] of two lengths. *)
Definition nat_checked_sub (a b : nat) : option nat :=
  if decide (b <= a)%nat then Some (a - b)%nat else None.

Definition vec_index v (i : nat) : option nat := nat_checked_sub (length v) (i + 1).

(** [Vec::remove], [Vec::insert] and [slice::swap]. *)
Definition vec_remove v (k : nat) : option (T * list T) :=
  match v !! k with Some x => Some (x, delete k v) | None => None end.
Definition vec_insert v (k : nat) (x : T) : option (list T) :=
  if decide (k <= length v)%nat then Some (take k v ++ x :: drop k v) else None.
Definition vec_swap v (a b : nat) : option (list T) :=
  match v !! a, v !! b with
  | Some x, Some y => Some (<[a := y]> (<[b := x]> v))
  | _, _ => None
  end.

Definition stack_remove (i : nat) v : option (T * Stack) :=
  let? k := vec_index v i in vec_remove v k.

Definition stack_push (elt : T) v : Stack := v ++ [elt].

Definition stack_pop v : option (T * Stack) :=
  match last v with Some x => Some (x, removelast v) | None => None end.

Definition stack_insert (i : nat) (e : T) v : option Stack :=
  if decide (0 < i)%nat
  then let? k := vec_index v (i - 1) in vec_insert v k e
  else Some (stack_push e v).

Definition stack_len v : nat := length v.

Definition stack_drop_top (size : nat) v : option Stack :=
  let? k := nat_checked_sub (stack_len v) size in Some (take k v).

Definition stack_drain_top (size : nat) v : option (list T * Stack) :=
  let? k := nat_checked_sub (stack_len v) size in Some (rev (drop k v), take k v).

Definition stack_split_off (size : nat) v : option (Stack * Stack) :=
  let? k := nat_checked_sub (stack_len v) size in Some (drop k v, take k v).

Definition stack_append (other v : Stack) : Stack := v ++ other.

Definition stack_swap (i1 i2 : nat) v : option Stack :=
  let? i1v := vec_index v i1 in
  let? i2v := vec_index v i2 in
  vec_swap v i1v i2v.

Definition stack_index (i : nat) v : option T := let? k := vec_index v i in v !! k.

Definition stack_index_set (i : nat) (x : T) v : option Stack :=
  let? k := vec_index v i in
  if decide (k < length v)%nat then Some (<[k := x]> v) else None.

(** [Stack::iter] and [IntoIterator for Stack]. *)
Definition stack_iter v : list T := rev v.

(** [TopIsFirst] and [TopIsLast] from a vector. *)
Definition top_is_first (data : list T) : Stack := stack_from_vec (rev data).
Definition top_is_last (data : list T) : Stack := stack_from_vec data.

(** [MichelsonList]: the head of the list is the last element of its vector. *)
Definition list_cons (x : T) (l : list T) : list T := l ++ [x].
Definition list_uncons (l : list T) : option (T * list T) := stack_pop l.
Definition list_from_vec (data : list T) : list T := rev data.
Definition list_iter (l : list T) : list T := rev l.

(** ** Operations and what they return *)
Inductive StackOp : Type :=
| Push (x : T) | Pop | Remove (i : nat) | Insert (i : nat) (x : T) | DropTop (n : nat)
| DrainTop (n : nat) | Append (other : list T) | Swap (i j : nat) | Index (i : nat)
| IndexSet (i : nat) (x : T).

(** The elements an operation returns and the stack it leaves; the argument of [Append] is
    given from its top. *)
Definition run_vec (op : StackOp) v : option (list T * Stack) :=
  match op with
  | Push x => Some ([], stack_push x v)
  | Pop => let? (x, w) := stack_pop v in Some ([x], w)
  | Remove i => let? (x, w) := stack_remove i v in Some ([x], w)
  | Insert i x => let? w := stack_insert i x v in Some ([], w)
  | DropTop n => let? w := stack_drop_top n v in Some ([], w)
  | DrainTop n => stack_drain_top n v
  | Append other => Some ([], stack_append (top_is_first other) v)
  | Swap i j => let? w := stack_swap i j v in Some ([], w)
  | Index i => let? x := stack_index i v in Some ([x], v)
  | IndexSet i x => let? w := stack_index_set i x v in Some ([], w)
  end.

Definition run_top (op : StackOp) (s : list T) : option (list T * list T) :=
  match op with
  | Push x => Some ([], Top.push x s)
  | Pop => let? (x, w) := Top.pop s in Some ([x], w)
  | Remove i => let? (x, w) := Top.remove i s in Some ([x], w)
  | Insert i x => let? w := Top.insert i x s in Some ([], w)
  | DropTop n => let? w := Top.drop_top n s in Some ([], w)
  | DrainTop n => Top.split_off n s
  | Append other => Some ([], Top.append other s)
  | Swap i j => let? w := Top.swap i j s in Some ([], w)
  | Index i => let? x := Top.index i s in Some ([x], s)
  | IndexSet i x => let? w := Top.index_set i x s in Some ([], w)
  end.

(** A sequence of operations, with everything it returned. *)
Fixpoint run_all {S} (run : StackOp -> S -> option (list T * S)) (ops : list StackOp) (s : S) : option (list T * S) :=
  match ops with
  | [] => Some ([], s)
  | op :: ops =>
      let? (out, s) := run op s in
      let? (outs, s) := run_all run ops s in
      Some (out ++ outs, s)
  end.

Definition from_top (r : option (list T * Stack)) : option (list T * list T) :=
  option_map (fun '(out, v) => (out, stack_iter v)) r.
End Vec.
Arguments Stack T : clear implicits.
Arguments StackOp T : clear implicits.

(** ** Refinement *)
Section Refinement.
Context {T : Type}.
Implicit Types (v : Stack T).

Lemma rev_lookup v i : (i < length v)%nat -> rev v !! i = v !! (length v - (i + 1))%nat.
Proof.
  intros Hi. rewrite rev_alt. change (rev_append v []) with (reverse v).
  rewrite reverse_lookup by lia. f_equal. lia.
Qed.

Lemma vec_index_spec v i :
  vec_index v i = if decide (i < length v)%nat then Some (length v - (i + 1))%nat else None.
Proof. unfold vec_index, nat_checked_sub. repeat case_decide; try reflexivity; lia. Qed.

Lemma take_rev v n : take n (rev v) = rev (drop (length v - n) v).
Proof. apply firstn_rev. Qed.

Lemma drop_rev v n : drop n (rev v) = rev (take (length v - n) v).
Proof. apply skipn_rev. Qed.

Lemma insert_rev v i x :
  (i < length v)%nat -> <[i := x]> (rev v) = rev (<[(length v - (i + 1))%nat := x]> v).
Proof.
  intros Hi. apply list_eq. intros j.
  destruct (decide (j < length v)%nat) as [Hj|Hj].
  - rewrite rev_lookup by (rewrite length_insert; lia). rewrite length_insert.
    destruct (decide (j = i)) as [->|Hne].
    + rewrite !list_lookup_insert_eq by (rewrite ?length_rev; lia). done.
    + rewrite !list_lookup_insert_ne by lia. apply rev_lookup. lia.
  - rewrite !lookup_ge_None_2; rewrite ?length_insert, ?length_rev, ?length_insert; lia || done.
Qed.

Lemma remove_refines v i :
  Top.remove i (rev v) = option_map (fun '(x, v) => (x, rev v)) (stack_remove i v).
Proof.
  unfold Top.remove, stack_remove. rewrite vec_index_spec. case_decide as Hi.
  - unfold vec_remove. pose proof (rev_lookup v i Hi) as E.
    destruct (v !! (length v - (i + 1))%nat) as [x|] eqn:Ev;
      [|apply lookup_ge_None in Ev; lia].
    rewrite (drop_S (rev v) x i E). simpl. do 2 f_equal.
    rewrite take_rev, drop_rev, delete_take_drop, rev_app_distr.
    do 3 f_equal; lia.
  - rewrite drop_ge by (rewrite length_rev; lia). reflexivity.
Qed.

Lemma insert_refines v i x :
  Top.insert i x (rev v) = option_map (@rev T) (stack_insert i x v).
Proof.
  unfold Top.insert, stack_insert, stack_push. rewrite length_rev.
  destruct (decide (0 < i)%nat) as [Hpos|H0].
  - rewrite vec_index_spec. repeat case_decide; try lia; [|reflexivity].
    unfold vec_insert. case_decide; [|lia]. simpl.
    rewrite rev_app_distr, take_rev, drop_rev. simpl. rewrite <- app_assoc. simpl.
    repeat f_equal; lia.
  - replace i with 0%nat by lia. case_decide; [|lia]. simpl. by rewrite rev_app_distr, drop_0.
Qed.

Lemma swap_refines v i j :
  Top.swap i j (rev v) = option_map (@rev T) (stack_swap i j v).
Proof.
  unfold Top.swap, stack_swap. rewrite !vec_index_spec.
  destruct (decide (i < length v)%nat) as [Hi|Hi].
  - rewrite (rev_lookup v i Hi). destruct (decide (j < length v)%nat) as [Hj|Hj].
    + rewrite (rev_lookup v j Hj). unfold vec_swap.
      destruct (v !! (length v - (i + 1))%nat); [|reflexivity].
      destruct (v !! (length v - (j + 1))%nat); [|reflexivity]. simpl.
      rewrite (insert_rev v j) by lia. rewrite insert_rev by (rewrite length_insert; lia).
      by rewrite length_insert.
    + rewrite (lookup_ge_None_2 (rev v) j) by (rewrite length_rev; lia).
      by destruct (v !! _).
  - by rewrite (lookup_ge_None_2 (rev v) i) by (rewrite length_rev; lia).
Qed.

Lemma pop_refines v :
  Top.pop (rev v) = option_map (fun '(x, v) => (x, rev v)) (stack_pop v).
Proof.
  unfold stack_pop. destruct v as [|y v' _] using rev_ind; [reflexivity|].
  rewrite rev_app_distr, last_snoc, removelast_last. reflexivity.
Qed.

Lemma run_refines v op : run_top op (rev v) = from_top (run_vec op v).
Proof.
  destruct op; cbn [run_top run_vec].
  - unfold from_top, stack_iter, stack_push, Top.push. simpl. by rewrite rev_app_distr.
  - rewrite pop_refines. by destruct (stack_pop v) as [[??]|].
  - rewrite remove_refines. by destruct (stack_remove i v) as [[??]|].
  - rewrite insert_refines. by destruct (stack_insert i x v).
  - unfold Top.drop_top, stack_drop_top, stack_len, nat_checked_sub. rewrite length_rev.
    case_decide; [|done]. cbn. by rewrite drop_rev.
  - unfold Top.split_off, stack_drain_top, stack_len, nat_checked_sub. rewrite length_rev.
    case_decide; [|done]. cbn. by rewrite take_rev, drop_rev.
  - unfold from_top, stack_iter, stack_append, Top.append, top_is_first, stack_from_vec. cbn.
    by rewrite rev_app_distr, rev_involutive.
  - rewrite swap_refines. by destruct (stack_swap i j v).
  - unfold Top.index, stack_index. rewrite vec_index_spec. case_decide as Hi.
    + rewrite (rev_lookup v i Hi). by destruct (v !! _).
    + by rewrite lookup_ge_None_2 by (rewrite length_rev; lia).
  - unfold Top.index_set, stack_index_set. rewrite vec_index_spec, length_rev.
    case_decide; [|done]. case_decide; [|lia]. cbn. by rewrite insert_rev by lia.
Qed.

(** Any sequence of stack operations gives, on the vector-backed
    stack, the results and the final stack it gives on a list with the top first, and panics
    exactly when the list operations do. *)
Theorem stack_vec_refines_top (ops : list (StackOp T)) v :
  run_all run_top ops (stack_iter v) = from_top (run_all run_vec ops v).
Proof.
  unfold stack_iter. revert v. induction ops as [|op ops IH]; intros v; [reflexivity|].
  cbn [run_all]. rewrite run_refines.
  destruct (run_vec op v) as [[out v']|]; [|reflexivity]. cbn.
  unfold stack_iter. rewrite IH. by destruct (run_all run_vec ops v') as [[outs v'']|].
Qed.

(** A Michelson list built from a vector iterates in the order of the vector. *)
Lemma list_iter_from_vec (data : list T) : list_iter (list_from_vec data) = data.
Proof. apply rev_involutive. Qed.

Lemma list_iter_cons (x : T) l : list_iter (list_cons x l) = x :: list_iter l.
Proof. unfold list_iter, list_cons. by rewrite rev_app_distr. Qed.

End Refinement.
End MirStack.
Export MirStack.
