(* ===== verification/MirCompare.v ===== *)
(** Comparison of typed values ([src/contrib/mir/src/ast/comparable.rs]) and the ordered
    containers of the standard library the runtime keeps them in.

    A [BTreeMap] is the list of its entries in ascending order of the keys.  A search stops
    at the first key that is not smaller; comparing incomparable values panics, as
    [Ord::cmp] of [TypedValue] does. *)

From stdpp Require Import strings.
From S2P Require Import Prelude MirAst MirGas.

Open Scope Z_scope.

Module MirCompare.

(** ** Orders of the standard library and derived orders *)
Definition lex (c1 c2 : comparison) : comparison := match c1 with Eq => c2 | _ => c1 end.

(** Lexicographic order of byte vectors. *)
Fixpoint bytes_compare (a b : list Z) : comparison :=
  match a, b with
  | [], [] => Eq
  | [], _ :: _ => Lt
  | _ :: _, [] => Gt
  | x :: a, y :: b => lex (x ?= y) (bytes_compare a b)
  end.

(** [str] is ordered by its bytes. *)
Definition string_compare (a b : string) : comparison := String.compare a b.

Definition bool_compare (a b : bool) : comparison :=
  match a, b with false, true => Lt | true, false => Gt | _, _ => Eq end.

(** The variants of an enumeration are ordered as they are declared. *)
Definition key_hash_rank (k : KeyHash) : Z * list Z :=
  match k with Tz1 h => (0, h) | Tz2 h => (1, h) | Tz3 h => (2, h) | Tz4 h => (3, h) end.
Definition key_rank (k : Key) : Z * list Z :=
  match k with KEd25519 h => (0, h) | KSecp256k1 h => (1, h) | KP256 h => (2, h) | KBls h => (3, h) end.
Definition signature_rank (s : Signature) : Z * list Z :=
  match s with
  | SEd25519 h => (0, h) | SSecp256k1 h => (1, h) | SP256 h => (2, h) | SBls h => (3, h)
  | SGeneric h => (4, h)
  end.

Definition ranked_compare (a b : Z * list Z) : comparison :=
  lex (a.1 ?= b.1) (bytes_compare a.2 b.2).

Definition key_hash_compare (a b : KeyHash) : comparison :=
  ranked_compare (key_hash_rank a) (key_hash_rank b).
Definition key_compare (a b : Key) : comparison := ranked_compare (key_rank a) (key_rank b).
Definition signature_compare (a b : Signature) : comparison :=
  ranked_compare (signature_rank a) (signature_rank b).

Definition address_hash_compare (a b : AddressHash) : comparison :=
  match a, b with
  | Implicit a, Implicit b => key_hash_compare a b
  | Implicit _, _ => Lt
  | Kt1 _, Implicit _ => Gt
  | Kt1 a, Kt1 b => bytes_compare a b
  | Kt1 _, Sr1 _ => Lt
  | Sr1 a, Sr1 b => bytes_compare a b
  | Sr1 _, _ => Gt
  end.

Definition address_compare (a b : Address) : comparison :=
  lex (address_hash_compare (addr_hash a) (addr_hash b))
    (string_compare (addr_entrypoint a) (addr_entrypoint b)).

Section Values.
Context {Bls : BlsTypes}.

(** [PartialOrd for TypedValue]. *)
Fixpoint partial_cmp (self other : TypedValue) : option comparison :=
  match self, other with
  | VInt a, VInt b => Some (a ?= b)
  | VNat a, VNat b => Some (a ?= b)%N
  | VMutez a, VMutez b => Some (a ?= b)
  | VBool a, VBool b => Some (bool_compare a b)
  | VString a, VString b => Some (string_compare a b)
  | VUnit, VUnit => Some Eq
  | VPair l0 l1, VPair r0 r1 =>
      match partial_cmp l0 r0 with
      | Some Eq => partial_cmp l1 r1
      | non_eq => non_eq
      end
  | VOption x, VOption y =>
      match x, y with
      | None, None => Some Eq
      | None, Some _ => Some Lt
      | Some _, None => Some Gt
      | Some x, Some y => partial_cmp x y
      end
  | VOr x, VOr y =>
      match x, y with
      | Left x, Left y => partial_cmp x y
      | Left _, Right _ => Some Lt
      | Right _, Left _ => Some Gt
      | Right x, Right y => partial_cmp x y
      end
  | VAddress l, VAddress r => Some (address_compare l r)
  | VChainId l, VChainId r => Some (bytes_compare l r)
  | VBytes l, VBytes r => Some (bytes_compare l r)
  | VKey l, VKey r => Some (key_compare l r)
  | VSignature l, VSignature r => Some (signature_compare l r)
  | VKeyHash l, VKeyHash r => Some (key_hash_compare l r)
  | VTimestamp a, VTimestamp b => Some (a ?= b)
  | _, _ => None
  end.

(** [Ord for TypedValue]. *)
Definition cmp {E} (self other : TypedValue) : Res E comparison :=
  res_option (partial_cmp self other) Incomparable.

(** ** [BTreeMap] and [BTreeSet] *)
Fixpoint map_get {E A} (k : TypedValue) (m : list (TypedValue * A)) : Res E (option A) :=
  match m with
  | [] => Done None
  | (k', v) :: m' =>
      let% c := cmp k k' in
      match c with
      | Lt => Done None
      | Eq => Done (Some v)
      | Gt => map_get k m'
      end
  end.

(** [insert]: the value that was there, and the map. *)
Fixpoint map_insert {E A} (k : TypedValue) (v : A) (m : list (TypedValue * A)) : Res E (option A * list (TypedValue * A)) :=
  match m with
  | [] => Done (None, [(k, v)])
  | (k', v') :: m' =>
      let% c := cmp k k' in
      match c with
      | Lt => Done (None, (k, v) :: m)
      | Eq => Done (Some v', (k', v) :: m')
      | Gt => let% (old, m') := map_insert k v m' in Done (old, (k', v') :: m')
      end
  end.

Fixpoint map_remove {E A} (k : TypedValue) (m : list (TypedValue * A)) : Res E (option A * list (TypedValue * A)) :=
  match m with
  | [] => Done (None, [])
  | (k', v') :: m' =>
      let% c := cmp k k' in
      match c with
      | Lt => Done (None, m)
      | Eq => Done (Some v', m')
      | Gt => let% (old, m') := map_remove k m' in Done (old, (k', v') :: m')
      end
  end.

(** [BTreeSet<T>] is [BTreeMap<T, ()>]. *)
Definition set_entries (s : list TypedValue) : list (TypedValue * unit) := map (fun x => (x, ())) s.

Definition set_contains {E} (k : TypedValue) (s : list TypedValue) : Res E bool :=
  let% r := map_get k (set_entries s) in Done (bool_decide (is_Some r)).
Definition set_insert {E} (k : TypedValue) (s : list TypedValue) : Res E (list TypedValue) :=
  let% (_, m) := map_insert k () (set_entries s) in Done (m.*1).
Definition set_remove {E} (k : TypedValue) (s : list TypedValue) : Res E (list TypedValue) :=
  let% (_, m) := map_remove k (set_entries s) in Done (m.*1).

End Values.

(** ** The orders are total *)

(** A comparison function that decides a total order compatible with equality. *)
Class TotalOrder {A} (c : A -> A -> comparison) : Prop := {
  order_eq a b : c a b = Eq <-> a = b;
  order_opp a b : c b a = CompOpp (c a b);
  order_trans a b d : c a b = Lt -> c b d = Lt -> c a d = Lt
}.

Lemma lex_lt c1 c2 : lex c1 c2 = Lt <-> c1 = Lt \/ c1 = Eq /\ c2 = Lt.
Proof. destruct c1; simpl; intuition congruence. Qed.

Lemma lex_eq c1 c2 : lex c1 c2 = Eq <-> c1 = Eq /\ c2 = Eq.
Proof. destruct c1; simpl; intuition congruence. Qed.

#[export] Instance z_order : TotalOrder Z.compare.
Proof.
  split.
  - apply Z.compare_eq_iff.
  - intros. apply Z.compare_antisym.
  - intros a b d. rewrite !Z.compare_lt_iff. lia.
Qed.

#[export] Instance n_order : TotalOrder N.compare.
Proof.
  split.
  - apply N.compare_eq_iff.
  - intros. apply N.compare_antisym.
  - intros a b d. rewrite !N.compare_lt_iff. lia.
Qed.

#[export] Instance bool_order : TotalOrder bool_compare.
Proof.
  split; intros; repeat match goal with b : bool |- _ => destruct b end; simpl in *;
    intuition congruence.
Qed.

(** The lexicographic product of two orders. *)
Lemma lex_order {A B C} (f : C -> A) (g : C -> B) c1 c2 :
  (forall x y, f x = f y -> g x = g y -> x = y) -> TotalOrder c1 -> TotalOrder c2 ->
  TotalOrder (fun x y => lex (c1 (f x) (f y)) (c2 (g x) (g y))).
Proof.
  intros Hinj [e1 o1 t1] [e2 o2 t2]. split.
  - intros x y. rewrite lex_eq, e1, e2. split; [intros [??]; auto | intros ->; auto].
  - intros x y. rewrite o1, o2. by destruct (c1 (f x) (f y)), (c2 (g x) (g y)).
  - intros x y z. rewrite !lex_lt. intros [Hx|[Hx Hx']] [Hy|[Hy Hy']].
    + left. eauto.
    + left. apply e1 in Hy. by rewrite <- Hy.
    + left. apply e1 in Hx. by rewrite Hx.
    + right. apply e1 in Hx. split; [rewrite Hx; done|]. eauto.
Qed.

#[export] Instance bytes_order : TotalOrder bytes_compare.
Proof.
  split.
  - intros a. induction a as [|x a IH]; intros [|y b]; simpl; try (split; intros; discriminate || done).
    rewrite lex_eq, IH, Z.compare_eq_iff. split; [intros [-> ->] | injection 1]; auto.
  - intros a. induction a as [|x a IH]; intros [|y b]; simpl; try done.
    rewrite IH, Z.compare_antisym. by destruct (x ?= y).
  - intros a. induction a as [|x a IH]; intros [|y b] [|z d]; simpl; try done.
    rewrite !lex_lt, !Z.compare_lt_iff, !Z.compare_eq_iff.
    intros [?|[??]] [?|[??]]; [left; lia..|right; split; [lia|eauto]].
Qed.

Lemma ascii_order : TotalOrder Ascii.compare.
Proof.
  split; unfold Ascii.compare.
  - intros a b. rewrite N.compare_eq_iff. split; [|by intros ->].
    intros E. by rewrite <- (Ascii.ascii_N_embedding a), <- (Ascii.ascii_N_embedding b), E.
  - intros. apply N.compare_antisym.
  - intros a b d. apply (order_trans (c := N.compare)).
Qed.

Lemma string_compare_cons a s b t :
  string_compare (String a s) (String b t) = lex (Ascii.compare a b) (string_compare s t).
Proof. unfold string_compare. simpl. by destruct (Ascii.compare a b). Qed.

#[export] Instance string_order : TotalOrder string_compare.
Proof.
  pose proof ascii_order as [ea oa ta]. split.
  - intros s. induction s as [|x s IH]; intros [|y t]; try (split; intros; discriminate || done).
    rewrite string_compare_cons, lex_eq, IH, ea. split; [intros [-> ->] | injection 1]; auto.
  - intros s. induction s as [|x s IH]; intros [|y t]; try done.
    rewrite !string_compare_cons, IH, oa. by destruct (Ascii.compare x y).
  - intros s. induction s as [|x s IH]; intros [|y t] [|z u]; try done.
    rewrite !string_compare_cons, !lex_lt, !ea.
    intros [?|[-> ?]] [?|[-> ?]]; [left; eauto..|right; eauto].
Qed.

Lemma ranked_order {A} (rank : A -> Z * list Z) :
  Inj (=) (=) rank -> TotalOrder (fun a b => ranked_compare (rank a) (rank b)).
Proof.
  intros Hinj. apply (lex_order (fun a => (rank a).1) (fun a => (rank a).2)); [|exact _..].
  intros x y E1 E2. apply Hinj. destruct (rank x), (rank y). simpl in *. congruence.
Qed.

#[export] Instance key_hash_order : TotalOrder key_hash_compare.
Proof. apply (ranked_order key_hash_rank). intros [] []; simpl; congruence. Qed.

#[export] Instance key_order : TotalOrder key_compare.
Proof. apply (ranked_order key_rank). intros [] []; simpl; congruence. Qed.

#[export] Instance signature_order : TotalOrder signature_compare.
Proof. apply (ranked_order signature_rank). intros [] []; simpl; congruence. Qed.

#[export] Instance address_hash_order : TotalOrder address_hash_compare.
Proof.
  split.
  - intros [] []; simpl; rewrite ?order_eq; intuition congruence.
  - intros [] []; simpl; rewrite 1?order_opp; done.
  - intros [] [] []; simpl; try done; apply order_trans.
Qed.

#[export] Instance address_order : TotalOrder address_compare.
Proof. apply (lex_order addr_hash addr_entrypoint); [|exact _..]. by intros [] [] ? ?; simpl in *; subst. Qed.

End MirCompare.
Export MirCompare.
