(* ===== verification/MirExtern.v ===== *)
(** Byte representations of the Michelson runtime ([src/contrib/mir/src/ast/byte_repr_trait.rs],
    [michelson_address.rs], [address_hash.rs], [entrypoint.rs], [michelson_key_hash.rs],
    [michelson_key.rs], [michelson_signature.rs], [src/contrib/mir/src/bls/fr.rs]) and the
    functions of external crates they and the interpreter call.

    The class [Extern] is the interface to [tezos_crypto_rs], [cryptoxide], [base58], [blst]
    and [chrono].  The messages of the errors are left out. *)

From stdpp Require Import strings.
From S2P Require Import Prelude MirAst MirGas.

Open Scope Z_scope.

Module MirExtern.

(** The hash types of [tezos_crypto_rs] the runtime decodes. *)
Inductive HashType : Set :=
| ContractTz1Hash | ContractTz2Hash | ContractTz3Hash | ContractTz4Hash
| ContractKt1Hash | SmartRollupHash
| PublicKeyEd25519 | PublicKeySecp256k1 | PublicKeyP256 | PublicKeyBls
| ChainIdHash | BlsSignature.

Class Extern {Bls : BlsTypes} := {
  (** [HashTrait::from_b58check] and [HashTrait::try_from_bytes] *)
  hash_from_b58check : HashType -> string -> option (list Z);
  hash_try_from_bytes : HashType -> list Z -> option (list Z);
  (** [str::from_base58check] and [str::from_base58] *)
  from_base58check : string -> option (list Z);
  from_base58 : string -> option (list Z);
  (** [PublicKeyWithHash::pk_hash] *)
  pk_hash : HashType -> list Z -> list Z;
  (** [verify_signature] of a key, a signature and a digest; [aggregate_verify] for BLS *)
  verify_signature : HashType -> list Z -> list Z -> list Z -> option bool;
  aggregate_verify : list Z -> list Z -> list Z -> option bool;
  blake2b_256 : list Z -> list Z;
  blake2b_digest : list Z -> Z -> list Z;
  keccak256 : list Z -> list Z;
  sha256 : list Z -> list Z;
  sha3_256 : list Z -> list Z;
  sha512 : list Z -> list Z;
  (** [blst_scalar_from_lendian] with [blst_scalar_fr_check], and back *)
  fr_of_lendian : list Z -> option Fr;
  lendian_of_fr : Fr -> list Z;
  fr_add : Fr -> Fr -> Fr;
  fr_mul : Fr -> Fr -> Fr;
  fr_neg : Fr -> Fr;
  g1_from_bytes : list Z -> option G1;
  g1_to_bytes : G1 -> list Z;
  g1_add : G1 -> G1 -> G1;
  g1_mul : G1 -> Fr -> G1;
  g1_neg : G1 -> G1;
  g2_from_bytes : list Z -> option G2;
  g2_to_bytes : G2 -> list Z;
  g2_add : G2 -> G2 -> G2;
  g2_mul : G2 -> Fr -> G2;
  g2_neg : G2 -> G2;
  pairing_check : list (G1 * G2) -> bool;
  (** [DateTime::parse_from_rfc3339] and [timestamp] *)
  parse_from_rfc3339 : string -> option Z;
  (** [Zarith::bin_write] of [tezos_data_encoding] *)
  zarith_bin_write : Z -> list Z
}.

(** [ByteReprError]. *)
Inductive ByteReprError : Set := UnknownPrefix | WrongFormat.

Definition ok_or {E A} (o : option A) (e : E) : Res E A :=
  match o with Some a => Done a | None => Error e end.

(** The bytes of a string, and the string of bytes. *)
Definition str_bytes (s : string) : list Z := map (fun c => Z.of_N (Ascii.N_of_ascii c)) (String.list_ascii_of_string s).
Definition bytes_str (bs : list Z) : string :=
  String.string_of_list_ascii (map (fun b => Ascii.ascii_of_N (Z.to_N b)) bs).

(** [str::is_char_boundary]: not in the middle of a UTF-8 sequence. *)
Definition is_char_boundary (s : string) (i : nat) : bool :=
  match str_bytes s !! i with
  | Some b => negb ((128 <=? b) && (b <? 192))
  | None => bool_decide (i = String.length s)
  end.

(** [str::get] of a range. *)
Definition str_get (s : string) (start stop : nat) : option string :=
  if bool_decide (start <= stop)%nat && is_char_boundary s start && is_char_boundary s stop
  then Some (String.substring start (stop - start) s)
  else None.

(** [&s[start..stop]]. *)
Definition str_slice {E} (s : string) (start stop : nat) : Res E string :=
  res_option (str_get s start stop) StrSliceOutOfBounds.

Definition in_range (lo hi c : Z) : bool := (lo <=? c) && (c <=? hi).

(** [b'_' | b'0'..=b'9' | b'a'..=b'z' | b'A'..=b'Z']. *)
Definition alpha_num (c : Z) : bool :=
  (c =? 95) || in_range 48 57 c || in_range 97 122 c || in_range 65 90 c.

(** ** Entrypoints *)
Definition check_ep_name_len (ep : list Z) : Res ByteReprError unit :=
  if MAX_EP_LEN <? len ep then Error WrongFormat else Done tt.

Fixpoint check_ep_chars (first_char : bool) (ep : list Z) : Res ByteReprError unit :=
  match ep with
  | [] => Done tt
  | c :: ep =>
      if alpha_num c || (((c =? 46) || (c =? 37) || (c =? 64)) && negb first_char)
      then check_ep_chars false ep
      else Error WrongFormat
  end.

Definition check_ep_name (ep : list Z) : Res ByteReprError unit :=
  let% _ := check_ep_name_len ep in check_ep_chars true ep.

(** [TryFrom<&str>], [TryFrom<&[u8]>] and [TryFrom<FieldAnnotation>] for [Entrypoint]. *)
Definition entrypoint_from_str (s : string) : Res ByteReprError Entrypoint :=
  if bool_decide (s = EmptyString) then Done DEFAULT_EP_NAME
  else let% _ := check_ep_name (str_bytes s) in Done s.

Definition entrypoint_from_bytes (s : list Z) : Res ByteReprError Entrypoint :=
  if bool_decide (s = []) then Done DEFAULT_EP_NAME
  else
    let% _ := check_ep_name s in
    let ep := bytes_str s in
    if is_default ep then Error WrongFormat else Done ep.

Definition entrypoint_from_field_ann (x : string) : Res ByteReprError Entrypoint :=
  let% _ := check_ep_name_len (str_bytes x) in Done x.

Section Repr.
Context {Bls : BlsTypes} {X : Extern}.

(** ** Key hashes *)
Definition KEY_HASH_BYTE_SIZE : Z := 20 + 1.
Definition KEY_HASH_BASE58_SIZE : Z := 36.

Definition key_hash_check_size (data : list Z) (expected : Z) : Res ByteReprError unit :=
  if len data =? expected then Done tt else Error WrongFormat.

Definition b58 (t : HashType) (data : string) : Res ByteReprError (list Z) :=
  ok_or (hash_from_b58check t data) WrongFormat.
Definition raw (t : HashType) (data : list Z) : Res ByteReprError (list Z) :=
  ok_or (hash_try_from_bytes t data) WrongFormat.

Definition key_hash_from_base58_check (data : string) : Res ByteReprError KeyHash :=
  let% _ := key_hash_check_size (str_bytes data) KEY_HASH_BASE58_SIZE in
  let% prefix := str_slice data 0 3 in
  if bool_decide (prefix = "tz1"%string) then let% h := b58 ContractTz1Hash data in Done (Tz1 h)
  else if bool_decide (prefix = "tz2"%string) then let% h := b58 ContractTz2Hash data in Done (Tz2 h)
  else if bool_decide (prefix = "tz3"%string) then let% h := b58 ContractTz3Hash data in Done (Tz3 h)
  else if bool_decide (prefix = "tz4"%string) then let% h := b58 ContractTz4Hash data in Done (Tz4 h)
  else Error UnknownPrefix.

Definition key_hash_from_bytes (bytes : list Z) : Res ByteReprError KeyHash :=
  let% _ := key_hash_check_size bytes KEY_HASH_BYTE_SIZE in
  match bytes with
  | 0 :: h => let% h := raw ContractTz1Hash h in Done (Tz1 h)
  | 1 :: h => let% h := raw ContractTz2Hash h in Done (Tz2 h)
  | 2 :: h => let% h := raw ContractTz3Hash h in Done (Tz3 h)
  | 3 :: h => let% h := raw ContractTz4Hash h in Done (Tz4 h)
  | _ => Error UnknownPrefix
  end.

Definition key_hash_to_bytes (k : KeyHash) : list Z :=
  match k with Tz1 h => 0 :: h | Tz2 h => 1 :: h | Tz3 h => 2 :: h | Tz4 h => 3 :: h end.

(** ** Addresses *)
Definition ADDRESS_HASH_BYTE_SIZE : Z := 20 + 2.
Definition ADDRESS_HASH_BASE58_SIZE : Z := 36.

Definition check_size (data : list Z) (min_size : Z) : Res ByteReprError unit :=
  if len data <? min_size then Error WrongFormat else Done tt.

Definition address_hash_from_base58_check (data : string) : Res ByteReprError AddressHash :=
  let% _ := check_size (str_bytes data) ADDRESS_HASH_BASE58_SIZE in
  let% prefix := str_slice data 0 3 in
  if bool_decide (prefix = "KT1"%string) then let% h := b58 ContractKt1Hash data in Done (Kt1 h)
  else if bool_decide (prefix = "sr1"%string) then let% h := b58 SmartRollupHash data in Done (Sr1 h)
  else let% k := key_hash_from_base58_check data in Done (Implicit k).

(** [validate_padding_byte]. *)
Definition validate_padding_byte (bytes : list Z) : Res ByteReprError unit :=
  match last bytes with
  | Some 0 => Done tt
  | Some _ => Error WrongFormat
  | None => Panics UnwrapFailed
  end.

Definition address_hash_from_bytes (bytes : list Z) : Res ByteReprError AddressHash :=
  let% _ := check_size bytes ADDRESS_HASH_BYTE_SIZE in
  match bytes with
  | 0 :: rest => let% k := key_hash_from_bytes rest in Done (Implicit k)
  | 1 :: rest =>
      let% _ := validate_padding_byte bytes in
      let% h := raw ContractKt1Hash (removelast rest) in Done (Kt1 h)
  | 3 :: rest =>
      let% _ := validate_padding_byte bytes in
      let% h := raw SmartRollupHash (removelast rest) in Done (Sr1 h)
  | _ => Error UnknownPrefix
  end.

Definition address_hash_to_bytes (h : AddressHash) : list Z :=
  match h with
  | Implicit k => 0 :: key_hash_to_bytes k
  | Kt1 h => 1 :: h ++ [0]
  | Sr1 h => 3 :: h ++ [0]
  end.

(** The hash and the entrypoint around the first ['%']. *)
Definition split_entrypoint (data : string) : string * string :=
  match String.index 0 "%" data with
  | Some p => (String.substring 0 p data, String.substring (p + 1) (String.length data - (p + 1)) data)
  | None => (data, EmptyString)
  end.

Definition address_from_base58_check (data : string) : Res ByteReprError Address :=
  let (hash, ep) := split_entrypoint data in
  let% h := address_hash_from_base58_check hash in
  let% ep := entrypoint_from_str ep in
  Done (mkAddress h ep).

Definition address_from_bytes (bytes : list Z) : Res ByteReprError Address :=
  let% _ := check_size bytes ADDRESS_HASH_BYTE_SIZE in
  let hash := take (Z.to_nat ADDRESS_HASH_BYTE_SIZE) bytes in
  let ep := drop (Z.to_nat ADDRESS_HASH_BYTE_SIZE) bytes in
  let% h := address_hash_from_bytes hash in
  let% ep := entrypoint_from_bytes ep in
  Done (mkAddress h ep).

Definition address_to_bytes (a : Address) : list Z :=
  address_hash_to_bytes (addr_hash a)
  ++ (if is_default (addr_entrypoint a) then [] else str_bytes (addr_entrypoint a)).

(** ** Keys *)
Definition KEY_MIN_BASE58_SIZE : Z := 54.
Definition KEY_MIN_BYTE_SIZE : Z := 32.

Definition key_hash_of (k : Key) : KeyHash :=
  match k with
  | KEd25519 k => Tz1 (pk_hash PublicKeyEd25519 k)
  | KSecp256k1 k => Tz2 (pk_hash PublicKeySecp256k1 k)
  | KP256 k => Tz3 (pk_hash PublicKeyP256 k)
  | KBls k => Tz4 (pk_hash PublicKeyBls k)
  end.

Definition key_from_base58_check (data : string) : Res ByteReprError Key :=
  let% _ := check_size (str_bytes data) KEY_MIN_BASE58_SIZE in
  let% prefix := str_slice data 0 4 in
  if bool_decide (prefix = "edpk"%string) then let% k := b58 PublicKeyEd25519 data in Done (KEd25519 k)
  else if bool_decide (prefix = "sppk"%string) then let% k := b58 PublicKeySecp256k1 data in Done (KSecp256k1 k)
  else if bool_decide (prefix = "p2pk"%string) then let% k := b58 PublicKeyP256 data in Done (KP256 k)
  else if bool_decide (prefix = "BLpk"%string) then let% k := b58 PublicKeyBls data in Done (KBls k)
  else Error UnknownPrefix.

Definition key_from_bytes (bytes : list Z) : Res ByteReprError Key :=
  let% _ := check_size bytes KEY_MIN_BYTE_SIZE in
  match bytes with
  | 0 :: k => let% k := raw PublicKeyEd25519 k in Done (KEd25519 k)
  | 1 :: k => let% k := raw PublicKeySecp256k1 k in Done (KSecp256k1 k)
  | 2 :: k => let% k := raw PublicKeyP256 k in Done (KP256 k)
  | 3 :: k => let% k := raw PublicKeyBls k in Done (KBls k)
  | _ => Error UnknownPrefix
  end.

Definition key_to_bytes (k : Key) : list Z :=
  match k with KEd25519 k => 0 :: k | KSecp256k1 k => 1 :: k | KP256 k => 2 :: k | KBls k => 3 :: k end.

(** ** Signatures *)
Definition SIGNATURE_BYTE_SIZE : Z := 64.
Definition BLS_BYTE_LENGTH : Z := 96.
Definition GENERIC_BYTE_LENGTH : Z := 64.
Definition ED25519_PREFIX : list Z := [9; 245; 205; 134; 18].
Definition SECP256K1_PREFIX : list Z := [13; 115; 101; 19; 63].
Definition P256_PREFIX : list Z := [54; 240; 44; 52].
Definition GENERIC_PREFIX : list Z := [4; 130; 43].

(** [SignatureTrait::from_b58check] for a signature type with the given prefix. *)
Definition signature_from_b58check (prefix : list Z) (s : string) : Res ByteReprError (list Z) :=
  let% bytes := ok_or (from_base58check s) WrongFormat in
  if negb (len bytes =? len prefix + SIGNATURE_BYTE_SIZE) then Error WrongFormat
  else if bool_decide (take (length prefix) bytes = prefix)
       then Done (drop (length prefix) bytes)
       else Error WrongFormat.

(** The [from_b58check] of [michelson_signature.rs]: no limit on the length. *)
Definition from_b58check (s : string) : Res ByteReprError (list Z) :=
  let% bytes := ok_or (from_base58 s) WrongFormat in
  let n := length bytes in
  if len bytes <? 4 then Error WrongFormat
  else
    let payload := take (n - 4) bytes in
    if bool_decide (take 4 (sha256 (sha256 payload)) = drop (n - 4) bytes)
    then Done payload
    else Error WrongFormat.

Definition signature_from_base58_check (data : string) : Res ByteReprError Signature :=
  if String.prefix "edsig" data then
    let% s := signature_from_b58check ED25519_PREFIX data in Done (SEd25519 s)
  else if String.prefix "spsig1" data then
    let% s := signature_from_b58check SECP256K1_PREFIX data in Done (SSecp256k1 s)
  else if String.prefix "p2sig" data then
    let% s := signature_from_b58check P256_PREFIX data in Done (SP256 s)
  else if String.prefix "BLsig" data then
    let% raw_bytes := from_b58check data in
    if len raw_bytes <? 4 then Panics StrSliceOutOfBounds else Done (SBls (drop 4 raw_bytes))
  else if String.prefix "sig" data then
    let% s := signature_from_b58check GENERIC_PREFIX data in Done (SGeneric s)
  else Error UnknownPrefix.

Definition signature_from_bytes (bytes : list Z) : Res ByteReprError Signature :=
  if len bytes =? GENERIC_BYTE_LENGTH then Done (SGeneric bytes)
  else if len bytes =? BLS_BYTE_LENGTH then let% s := raw BlsSignature bytes in Done (SBls s)
  else Error WrongFormat.

Definition signature_to_bytes (s : Signature) : list Z :=
  match s with SEd25519 s | SSecp256k1 s | SP256 s | SBls s | SGeneric s => s end.

(** [Signature::check]. *)
Definition signature_check (sig : Signature) (key : Key) (msg : list Z) : bool :=
  default false
    match key, sig with
    | KEd25519 k, (SEd25519 s | SGeneric s) => verify_signature PublicKeyEd25519 k s (blake2b_256 msg)
    | KSecp256k1 k, (SSecp256k1 s | SGeneric s) => verify_signature PublicKeySecp256k1 k s (blake2b_256 msg)
    | KP256 k, (SP256 s | SGeneric s) => verify_signature PublicKeyP256 k s (blake2b_256 msg)
    | KBls k, SBls s => aggregate_verify k s msg
    | _, _ => Some false
    end.

(** ** BLS12-381 scalars ([bls/fr.rs]) *)
Definition FR_BYTE_SIZE : nat := 32.

Definition fr_order : Z :=
  52435875175126190479447740508185965837690552500527637822603658699938581184513.

Definition fr_from_bytes (bs : list Z) : option Fr :=
  if decide (FR_BYTE_SIZE < length bs)%nat then None
  else fr_of_lendian (bs ++ replicate (FR_BYTE_SIZE - length bs) 0).

(** [Fr::from_big_int]: reduced modulo the order, then decoded from its 32 bytes. *)
Definition fr_from_big_int {E} (i : Z) : Res E Fr :=
  res_option (fr_from_bytes (le_bytes FR_BYTE_SIZE (i mod fr_order))) UnwrapFailed.

Definition fr_to_big_int (x : Fr) : Z := le_value (lendian_of_fr x).

End Repr.
End MirExtern.
Export MirExtern.
