(* ===== verification/MirSerial.v ===== *)
(** Micheline of typed values ([IntoMicheline] in [src/contrib/mir/src/ast.rs] and
    [src/contrib/mir/src/ast/michelson_lambda.rs]) and the binary encoding of Micheline
    ([src/contrib/mir/src/serializer/]).

    The encoder is given as the bytes it appends: [with_patchback_len] writes a four-byte
    length and overwrites it once the content is known.  The decoder is a computation on the
    bytes that are left; its bound ([fuel]) is the number of bytes plus one. *)

From stdpp Require Import strings.
From S2P Require Import Prelude MirAst MirGas MirExtern.

Open Scope Z_scope.

Module MirSerial.

(** ** Types to Micheline *)
Fixpoint ty_into_micheline (t : Ty) : Micheline :=
  (* [LinearizePairIter] *)
  let linearize := fix linearize (t : Ty) : list Micheline :=
    match t with
    | TPair a b => ty_into_micheline a :: linearize b
    | t => [ty_into_micheline t]
    end in
  match t with
  | TNat => prim0 Prim.nat
  | TInt => prim0 Prim.int
  | TBool => prim0 Prim.bool
  | TMutez => prim0 Prim.mutez
  | TString => prim0 Prim.string
  | TUnit => prim0 Prim.unit
  | TOperation => prim0 Prim.operation
  | TAddress => prim0 Prim.address
  | TChainId => prim0 Prim.chain_id
  | TBytes => prim0 Prim.bytes
  | TKey => prim0 Prim.key
  | TSignature => prim0 Prim.signature
  | TTimestamp => prim0 Prim.timestamp
  | TKeyHash => prim0 Prim.key_hash
  | TNever => prim0 Prim.never
  | TBls12381Fr => prim0 Prim.bls12_381_fr
  | TBls12381G1 => prim0 Prim.bls12_381_g1
  | TBls12381G2 => prim0 Prim.bls12_381_g2
  | TOption x => prim1 Prim.option (ty_into_micheline x)
  | TList x => prim1 Prim.list (ty_into_micheline x)
  | TSet x => prim1 Prim.set (ty_into_micheline x)
  | TContract x => prim1 Prim.contract (ty_into_micheline x)
  | TTicket x => prim1 Prim.ticket (ty_into_micheline x)
  | TPair a b => MApp Prim.pair (ty_into_micheline a :: linearize b) NO_ANNS
  | TMap k v => prim2 Prim.map (ty_into_micheline k) (ty_into_micheline v)
  | TBigMap k v => prim2 Prim.big_map (ty_into_micheline k) (ty_into_micheline v)
  | TOr l r => prim2 Prim.or (ty_into_micheline l) (ty_into_micheline r)
  | TLambda i o => prim2 Prim.lambda (ty_into_micheline i) (ty_into_micheline o)
  end.

(** ** Values to Micheline *)
Section Values.
Context {Bls : BlsTypes} {X : Extern}.

Definition option_into_micheline (o : option Micheline) : Micheline :=
  match o with None => prim0 Prim.None | Some m => prim1 Prim.Some m end.

Definition emit_type_into_micheline (t : Or Ty Micheline) : Micheline :=
  match t with Right m => m | Left t => ty_into_micheline t end.

Fixpoint into_micheline (v : TypedValue) : Micheline :=
  match v with
  | VInt i => MInt i
  | VNat u => MInt (Z.of_N u)
  | VMutez u => MInt u
  | VBool true => prim0 Prim.True_
  | VBool false => prim0 Prim.False_
  | VString s => MString s
  | VUnit => prim0 Prim.Unit
  | VPair l r => prim2 Prim.Pair (into_micheline l) (into_micheline r)
  | VList l | VSet l => MSeq (map into_micheline l)
  | VMap m => MSeq (map (fun '(k, v) => prim2 Prim.Elt (into_micheline k) (into_micheline v)) m)
  | VBigMap (mkBigMap id overlay _ _) =>
      let map_part := MSeq (map (fun '(k, v) =>
        prim2 Prim.Elt (into_micheline k)
          (option_into_micheline match v with Some v => Some (into_micheline v) | None => None end)) overlay) in
      match id, overlay with
      | Some id, [] => MInt id
      | Some id, _ => prim2 Prim.Pair (MInt id) map_part
      | None, _ => map_part
      end
  | VOption x => option_into_micheline match x with Some v => Some (into_micheline v) | None => None end
  | VOr (Left x) => prim1 Prim.Left (into_micheline x)
  | VOr (Right x) => prim1 Prim.Right (into_micheline x)
  | VAddress x | VContract x => MBytes (address_to_bytes x)
  | VChainId x | VBytes x => MBytes x
  | VKey k => MBytes (key_to_bytes k)
  | VSignature s => MBytes (signature_to_bytes s)
  | VLambda c => closure_into_micheline c
  | VKeyHash k => MBytes (key_hash_to_bytes k)
  | VTimestamp s => MInt s
  | VBls12381Fr x => MBytes (lendian_of_fr x)
  | VBls12381G1 x => MBytes (g1_to_bytes x)
  | VBls12381G2 x => MBytes (g2_to_bytes x)
  | VOperation op _ =>
      match op with
      | TransferTokens param dest amt =>
          prim3 Prim.Transfer_tokens (into_micheline param) (MBytes (address_to_bytes dest)) (MInt amt)
      | SetDelegate kh =>
          prim1 Prim.Set_delegate
            (option_into_micheline match kh with Some k => Some (MBytes (key_hash_to_bytes k)) | None => None end)
      | Emit tag value arg_ty =>
          MApp Prim.Emit [into_micheline value; emit_type_into_micheline arg_ty]
            match tag with Some tag => [Ann_Field tag] | None => NO_ANNS end
      | CreateContract delegate amt stor _ code =>
          MApp Prim.Create_contract
            [code;
             option_into_micheline
               match delegate with
               | Some k => Some (MBytes (address_to_bytes (mkAddress (Implicit k) DEFAULT_EP_NAME)))
               | None => None
               end;
             MInt amt;
             into_micheline stor] NO_ANNS
      end
  | VTicket (mkTicket ticketer content amt) =>
      (* [unwrap_ticket] *)
      prim2 Prim.Pair (MBytes (address_to_bytes (mkAddress ticketer DEFAULT_EP_NAME)))
        (prim2 Prim.Pair (into_micheline content) (MInt (Z.of_N amt)))
  end
(** [IntoMicheline for Closure]. *)
with closure_into_micheline (c : Closure) : Micheline :=
  match c with
  | CLambda (Lambda_ micheline_code _) => micheline_code
  | CLambda (LambdaRec _ _ micheline_code _) => prim1 Prim.Lambda_rec micheline_code
  | CApply arg_ty arg_val closure =>
      let push := prim2 Prim.PUSH (ty_into_micheline arg_ty) (into_micheline arg_val) in
      match closure with
      | CLambda (LambdaRec in_ty out_ty micheline_code _) =>
          MSeq [push; prim0 Prim.PAIR;
                prim3 Prim.LAMBDA_REC (ty_into_micheline in_ty) (ty_into_micheline out_ty) micheline_code;
                prim0 Prim.SWAP; prim0 Prim.EXEC]
      | CApply _ _ _ | CLambda (Lambda_ _ _) =>
          MSeq [push; prim0 Prim.PAIR; closure_into_micheline closure]
      end
  end.

End Values.

(** ** Encoding ([encode.rs], [constants.rs]) *)
Definition NUMBER_TAG : Z := 0.
Definition STRING_TAG : Z := 1.
Definition SEQ_TAG : Z := 2.
Definition BYTES_TAG : Z := 10.
Definition APP_NO_ARGS_NO_ANNOTS_TAG : Z := 3.
Definition APP_NO_ARGS_WITH_ANNOTS_TAG : Z := 4.
Definition APP_ONE_ARG_NO_ANNOTS_TAG : Z := 5.
Definition APP_ONE_ARG_WITH_ANNOTS_TAG : Z := 6.
Definition APP_TWO_ARGS_NO_ANNOTS_TAG : Z := 7.
Definition APP_TWO_ARGS_WITH_ANNOTS_TAG : Z := 8.
Definition APP_GENERIC : Z := 9.

(** [u32::to_be_bytes] of a length as [u32]. *)
Definition put_len (n : Z) : list Z := rev (le_bytes 4 (wrap 32 n)).

(** [with_patchback_len]. *)
Definition with_len (content : list Z) : list Z := put_len (len content) ++ content.

Definition put_bytes (bs : list Z) : list Z := BYTES_TAG :: put_len (len bs) ++ bs.
Definition put_string (s : string) : list Z := STRING_TAG :: put_len (slen s) ++ str_bytes s.

(** [Annotation::encode_bytes] and [Annotations::encode_bytes]. *)
Definition annotation_bytes (a : Annotation) : list Z :=
  match a with
  | Ann_Special s => str_bytes s
  | Ann_Field s => 37 :: str_bytes s
  | Ann_Variable s => 64 :: str_bytes s
  | Ann_Type s => 58 :: str_bytes s
  end.

Fixpoint join_spaces (l : list (list Z)) : list Z :=
  match l with
  | [] => []
  | [a] => a
  | a :: l => a ++ 32 :: join_spaces l
  end.

Definition annotations_bytes (anns : Annotations) : list Z :=
  with_len (join_spaces (map annotation_bytes anns)).

Section Encode.
Context {Bls : BlsTypes} {X : Extern}.

(** [AppEncoder::encode] with the encodings of the arguments. *)
Definition app_encode (prim : Prim.Prim) (args : list (list Z)) (annots : Annotations) : list Z :=
  let p := Z.of_nat (Prim.code_of prim) in
  let small no_annots_tag with_annots_tag :=
    (if bool_decide (annots = []) then no_annots_tag else with_annots_tag)
      :: p :: concat args ++ (if bool_decide (annots = []) then [] else annotations_bytes annots) in
  match args with
  | [] => small APP_NO_ARGS_NO_ANNOTS_TAG APP_NO_ARGS_WITH_ANNOTS_TAG
  | [_] => small APP_ONE_ARG_NO_ANNOTS_TAG APP_ONE_ARG_WITH_ANNOTS_TAG
  | [_; _] => small APP_TWO_ARGS_NO_ANNOTS_TAG APP_TWO_ARGS_WITH_ANNOTS_TAG
  | _ => APP_GENERIC :: p :: with_len (concat args) ++ annotations_bytes annots
  end.

(** [encode_micheline]. *)
Fixpoint encode_micheline (mich : Micheline) : list Z :=
  match mich with
  | MInt n => NUMBER_TAG :: zarith_bin_write n
  | MString s => put_string s
  | MBytes b => put_bytes b
  | MSeq s => SEQ_TAG :: with_len (concat (map encode_micheline s))
  | MApp prim args anns => app_encode prim (map encode_micheline args) anns
  end.

(** [Micheline::encode] and [Micheline::encode_for_pack]. *)
Definition encode (m : Micheline) : list Z := encode_micheline m.
Definition encode_for_pack (m : Micheline) : list Z := 5 :: encode_micheline m.
End Encode.

(** ** Decoding ([decode.rs]) *)
Inductive DecodeError : Type :=
| TrailingBytes | NoPackTag | UnexpectedEOF | UnknownTag (b : Z) | ForbiddenStringCharacter
| UnknownPrim (b : Z) | BadAnnotation.

(** Computations on [BytesIt]. *)
Abbreviation D := (M (list Z) DecodeError).

(** [BytesIt::next] and [BytesIt::take], with the error of a missing byte. *)
Definition next_byte : D Z := fun bs =>
  match bs with [] => (Error UnexpectedEOF, bs) | b :: bs => (Done b, bs) end.
Definition take_bytes (num : nat) : D (list Z) := fun bs =>
  if decide (length bs < num)%nat then (Error UnexpectedEOF, bs)
  else (Done (take num bs), drop num bs).

Definition get_len : D Z := let+ b := take_bytes 4 in ret (le_value (rev b)).

Definition get_bytes : D (list Z) := let+ n := get_len in take_bytes (Z.to_nat n).

(** [decode_int]: [shift] bits are known, with value [acc]. *)
Fixpoint decode_int_from (first : bool) (minus : bool) (shift acc : Z) (bs : list Z) : Res DecodeError Micheline * list Z :=
  match bs with
  | [] => (Error UnexpectedEOF, bs)
  | b :: bs =>
      let minus := if first then Z.testbit b 6 else minus in
      let data_len := if first then 6 else 7 in
      let acc := acc + Z.shiftl (b mod 2 ^ data_len) shift in
      if Z.testbit b 7 then decode_int_from false minus (shift + data_len) acc bs
      else (Done (MInt (if minus then - acc else acc)), bs)
  end.

Definition decode_int : D Micheline := decode_int_from true false 0 0.

(** [validate_str]: printable ASCII and line breaks. *)
Definition valid_str_byte (c : Z) : bool := in_range 32 126 c || (c =? 10) || (c =? 13).
Definition validate_str (bs : list Z) : D string :=
  if forallb valid_str_byte bs then ret (bytes_str bs) else fail ForbiddenStringCharacter.

Definition decode_string : D Micheline :=
  let+ bs := get_bytes in let+ s := validate_str bs in ret (MString s).
Definition decode_bytes : D Micheline := let+ bs := get_bytes in ret (MBytes bs).

(** [try_ann_from_str] ([lexer.rs]) and [validate_ann]. *)
Definition try_ann_from_bytes (bs : list Z) : option Annotation :=
  if bool_decide (bs = [64; 37]) || bool_decide (bs = [64; 37; 37]) || bool_decide (bs = [37; 64])
  then Some (Ann_Special (bytes_str bs))
  else match bs with
       | 64 :: s => Some (Ann_Variable (bytes_str s))
       | 37 :: s => Some (Ann_Field (bytes_str s))
       | 58 :: s => Some (Ann_Type (bytes_str s))
       | _ => None
       end.

Definition ann_tail_byte (c : Z) : bool := alpha_num c || (c =? 46) || (c =? 37) || (c =? 64).

Definition valid_ann (bs : list Z) : bool :=
  bool_decide (bs = [64; 37]) || bool_decide (bs = [64; 37; 37]) || bool_decide (bs = [37; 64])
  || match bs with
     | t :: c :: rest =>
         ((t =? 64) || (t =? 58) || (t =? 37)) && alpha_num c && forallb ann_tail_byte rest
     | _ => false
     end.

Definition validate_ann {S} (bs : list Z) : M S DecodeError Annotation :=
  if valid_ann bs then lift (res_option (try_ann_from_bytes bs) UnwrapFailed) else fail BadAnnotation.

(** [split(|c| c == ' ')]. *)
Fixpoint split_spaces (bs : list Z) : list (list Z) :=
  match bs with
  | [] => [[]]
  | b :: bs =>
      if b =? 32 then [] :: split_spaces bs
      else match split_spaces bs with
           | w :: ws => (b :: w) :: ws
           | [] => [[b]]
           end
  end.

Fixpoint validate_anns {S} (l : list (list Z)) : M S DecodeError Annotations :=
  match l with
  | [] => ret []
  | a :: l => let+ a := validate_ann a in let+ l := validate_anns l in ret (a :: l)
  end.

(** The annotations of an application. *)
Definition decode_anns (annotations : bool) : D Annotations :=
  if annotations then
    let+ str := get_bytes in
    if bool_decide (str = []) then ret NO_ANNS else validate_anns (split_spaces str)
  else ret NO_ANNS.

Inductive NumArgs : Set := NumArgs_Zero | NumArgs_One | NumArgs_Two | NumArgs_Many.

(** [decode_seq_raw] on the bytes of the sequence: its elements. *)
Fixpoint decode_all (decode : D Micheline) (n : nat) : D (list Micheline) := fun bs =>
  match bs with
  | [] => (Done [], [])
  | _ =>
      match n with
      | O => (NoFuel, bs)
      | S n => (let+ m := decode in let+ ms := decode_all decode n in ret (m :: ms)) bs
      end
  end.

(** Run a decoder on a part of the input. *)
Definition on_bytes {A} (d : D A) (part : list Z) : D A := fun bs => ((d part).1, bs).

Section DecodeStep.
Context (decode_micheline : D Micheline) (fuel : nat).

Definition decode_seq_raw : D (list Micheline) :=
  let+ part := get_bytes in on_bytes (decode_all decode_micheline fuel) part.

Definition decode_app (num_args : NumArgs) (annotations : bool) : D Micheline :=
  let+ b := next_byte in
  match Prim.all !! Z.to_nat b with
  | None => fail (UnknownPrim b)
  | Some prim =>
      let+ args :=
        match num_args with
        | NumArgs_Zero => ret []
        | NumArgs_One => let+ a := decode_micheline in ret [a]
        | NumArgs_Two => let+ a := decode_micheline in let+ b := decode_micheline in ret [a; b]
        | NumArgs_Many => decode_seq_raw
        end in
      let+ anns := decode_anns annotations in
      ret (MApp prim args anns)
  end.
End DecodeStep.

(** [decode_micheline]. *)
Fixpoint decode_micheline (fuel : nat) : D Micheline :=
  match fuel with
  | O => no_fuel
  | S fuel =>
      let+ b := next_byte in
      if b =? NUMBER_TAG then decode_int
      else if b =? STRING_TAG then decode_string
      else if b =? SEQ_TAG then let+ ms := decode_seq_raw (decode_micheline fuel) fuel in ret (MSeq ms)
      else if b =? BYTES_TAG then decode_bytes
      else if b =? APP_NO_ARGS_NO_ANNOTS_TAG then decode_app (decode_micheline fuel) fuel NumArgs_Zero false
      else if b =? APP_NO_ARGS_WITH_ANNOTS_TAG then decode_app (decode_micheline fuel) fuel NumArgs_Zero true
      else if b =? APP_ONE_ARG_NO_ANNOTS_TAG then decode_app (decode_micheline fuel) fuel NumArgs_One false
      else if b =? APP_ONE_ARG_WITH_ANNOTS_TAG then decode_app (decode_micheline fuel) fuel NumArgs_One true
      else if b =? APP_TWO_ARGS_NO_ANNOTS_TAG then decode_app (decode_micheline fuel) fuel NumArgs_Two false
      else if b =? APP_TWO_ARGS_WITH_ANNOTS_TAG then decode_app (decode_micheline fuel) fuel NumArgs_Two true
      else if b =? APP_GENERIC then decode_app (decode_micheline fuel) fuel NumArgs_Many true
      else fail (UnknownTag b)
  end.

(** [Micheline::decode_raw] and [Micheline::decode_packed]. *)
Definition decode_raw (bytes : list Z) : Res DecodeError Micheline :=
  match decode_micheline (S (length bytes)) bytes with
  | (Done res, []) => Done res
  | (Done _, _ :: _) => Error TrailingBytes
  | (r, _) => r
  end.

Definition decode_packed (bytes : list Z) : Res DecodeError Micheline :=
  match bytes with
  | 5 :: bytes => decode_raw bytes
  | _ => Error NoPackTag
  end.

End MirSerial.
Export MirSerial.
