(* ===== verification/MirCtx.v ===== *)
(** The context of the Michelson runtime ([src/contrib/mir/src/context.rs]) and its big maps
    ([src/contrib/mir/src/ast/big_map.rs]).

    The trait [LazyStorage] is the class of the same name; [InMemoryLazyStorage] is its
    instance.  [lookup_contract] and [voting_powers] are functions of the context. *)

From stdpp Require Import strings.
From S2P Require Import Prelude MirAst MirGas MirCompare.

Open Scope Z_scope.

Module MirCtx.

Inductive LazyStorageError : Type :=
| DecodingError (msg : string)
| OtherError (msg : string).

(** The trait [LazyStorage]. *)
Class LazyStorage {Bls : BlsTypes} (St : Type) := {
  big_map_get : St -> Z -> TypedValue -> Res LazyStorageError (option TypedValue);
  big_map_mem : St -> Z -> TypedValue -> Res LazyStorageError bool;
  big_map_update : Z -> TypedValue -> option TypedValue -> M St LazyStorageError unit;
  big_map_get_type : St -> Z -> Res LazyStorageError (option (Ty * Ty));
  big_map_new : Ty -> Ty -> M St LazyStorageError Z;
  big_map_copy : Z -> M St LazyStorageError Z;
  big_map_remove : Z -> M St LazyStorageError unit
}.

Section BigMaps.
Context {Bls : BlsTypes}.

Section Ops.
Context {St : Type} {LS : LazyStorage St}.

(** [BigMap::get]. *)
Definition bm_get (m : BigMap) (key : TypedValue) (storage : St) : Res LazyStorageError (option TypedValue) :=
  let% change := map_get key (bm_overlay m) in
  match change with
  | Some change => Done change
  | None =>
      match bm_id m with
      | Some id => big_map_get storage id key
      | None => Done None
      end
  end.

(** [BigMap::mem]. *)
Definition bm_mem (m : BigMap) (key : TypedValue) (storage : St) : Res LazyStorageError bool :=
  let% change := map_get key (bm_overlay m) in
  match change with
  | Some change => Done (bool_decide (is_Some change))
  | None =>
      match bm_id m with
      | Some id => big_map_mem storage id key
      | None => Done false
      end
  end.

(** [BigMap::update]. *)
Definition bm_update {E} (m : BigMap) (key : TypedValue) (value : option TypedValue) : Res E BigMap :=
  let 'mkBigMap id overlay kt vt := m in
  let% (_, overlay) := map_insert key value overlay in
  Done (mkBigMap id overlay kt vt).

(** [LazyStorageBulkUpdate::big_map_bulk_update]. *)
Fixpoint big_map_bulk_update (id : Z) (entries : list (TypedValue * option TypedValue)) : M St LazyStorageError unit :=
  match entries with
  | [] => ret tt
  | (k, v) :: entries => big_map_update id k v >>; big_map_bulk_update id entries
  end.
End Ops.

(** ** [InMemoryLazyStorage] *)
Record MapInfo : Type := mkMapInfo {
  mi_map : list (TypedValue * TypedValue);
  mi_key_type : Ty;
  mi_value_type : Ty
}.

(** [big_maps : BTreeMap<BigMapId, MapInfo>]; a [BigMapId] is a [BigInt]. *)
Record InMemoryLazyStorage : Type := mkStorage {
  next_id : Z;
  big_maps : gmap Z MapInfo
}.

Definition storage_new : InMemoryLazyStorage := mkStorage 0 ∅.

Definition get_next_id {E} : M InMemoryLazyStorage E Z := fun s =>
  (Done (next_id s), mkStorage (next_id s + 1) (big_maps s)).

Definition access_big_map (s : InMemoryLazyStorage) (id : Z) : Res LazyStorageError MapInfo :=
  res_option (big_maps s !! id) NoSuchBigMap.

Definition set_big_map (id : Z) (info : MapInfo) : M InMemoryLazyStorage LazyStorageError unit := fun s =>
  (Done tt, mkStorage (next_id s) (<[id := info]> (big_maps s))).

Definition mem_big_map_get (s : InMemoryLazyStorage) (id : Z) (key : TypedValue) : Res LazyStorageError (option TypedValue) :=
  let% info := access_big_map s id in map_get key (mi_map info).

Definition mem_big_map_mem (s : InMemoryLazyStorage) (id : Z) (key : TypedValue) : Res LazyStorageError bool :=
  let% info := access_big_map s id in
  let% r := map_get key (mi_map info) in
  Done (bool_decide (is_Some r)).

Definition mem_big_map_update (id : Z) (key : TypedValue) (value : option TypedValue) : M InMemoryLazyStorage LazyStorageError unit :=
  let+ s := get_state in
  let+ info := lift (access_big_map s id) in
  let+ (_, m) := lift match value with
                      | None => map_remove key (mi_map info)
                      | Some value => map_insert key value (mi_map info)
                      end in
  set_big_map id (mkMapInfo m (mi_key_type info) (mi_value_type info)).

Definition mem_big_map_get_type (s : InMemoryLazyStorage) (id : Z) : Res LazyStorageError (option (Ty * Ty)) :=
  Done (option_map (fun info => (mi_key_type info, mi_value_type info)) (big_maps s !! id)).

Definition mem_big_map_new (key_type value_type : Ty) : M InMemoryLazyStorage LazyStorageError Z :=
  let+ id := get_next_id in
  set_big_map id (mkMapInfo [] key_type value_type) >>; ret id.

Definition mem_big_map_remove (id : Z) : M InMemoryLazyStorage LazyStorageError unit := fun s =>
  (Done tt, mkStorage (next_id s) (delete id (big_maps s))).

Definition mem_big_map_copy (copied_id : Z) : M InMemoryLazyStorage LazyStorageError Z :=
  let+ id := get_next_id in
  let+ s := get_state in
  let+ info := lift (access_big_map s copied_id) in
  set_big_map id info >>; ret id.

#[export] Instance in_memory_storage : LazyStorage InMemoryLazyStorage := {|
  big_map_get := mem_big_map_get;
  big_map_mem := mem_big_map_mem;
  big_map_update := mem_big_map_update;
  big_map_get_type := mem_big_map_get_type;
  big_map_new := mem_big_map_new;
  big_map_copy := mem_big_map_copy;
  big_map_remove := mem_big_map_remove
|}.

End BigMaps.

(** ** The context *)
Section Context.
Context {St : Type}.

Record Ctx : Type := mkCtx {
  gas : Gas;
  amount : Z;
  balance : Z;
  level : N;
  sender : AddressHash;
  source : AddressHash;
  min_block_time : N;
  chain_id : list Z;
  self_address : AddressHash;
  lookup_contract : AddressHash -> option Entrypoints;
  voting_powers : KeyHash -> N;
  now : Z;
  total_voting_power : N;
  operation_group_hash : list Z;
  big_map_storage : St;
  origination_counter_ : Z;
  operation_counter_ : Z
}.

Definition set_gas (g : Gas) (c : Ctx) : Ctx :=
  mkCtx g (amount c) (balance c) (level c) (sender c) (source c) (min_block_time c)
    (chain_id c) (self_address c) (lookup_contract c) (voting_powers c) (now c)
    (total_voting_power c) (operation_group_hash c) (big_map_storage c)
    (origination_counter_ c) (operation_counter_ c).

Definition set_counters (originations operations : Z) (c : Ctx) : Ctx :=
  mkCtx (gas c) (amount c) (balance c) (level c) (sender c) (source c) (min_block_time c)
    (chain_id c) (self_address c) (lookup_contract c) (voting_powers c) (now c)
    (total_voting_power c) (operation_group_hash c) (big_map_storage c)
    originations operations.

(** [Ctx::operation_counter] and [Ctx::origination_counter]: a [u128] and a [u32] that wrap
    around. *)
Definition operation_counter {E} : M Ctx E Z := fun c =>
  let n := wrap 128 (operation_counter_ c + 1) in
  (Done n, set_counters (origination_counter_ c) n c).

Definition origination_counter {E} : M Ctx E Z := fun c =>
  let n := wrap 32 (origination_counter_ c + 1) in
  (Done n, set_counters n (operation_counter_ c) c).

(** [set_known_contracts]: the lookup function of a map given by its entries. *)
Fixpoint known_contracts (known : list (AddressHash * Entrypoints)) (h : AddressHash) : option Entrypoints :=
  match known with
  | [] => None
  | (h', e) :: known => if decide (h = h') then Some e else known_contracts known h
  end.

(** A function on [&mut ctx.gas]. *)
Definition on_gas {E A} (c : M Gas E A) : M Ctx E A := fun ctx =>
  let '(r, g) := c (gas ctx) in (r, set_gas g ctx).

Definition charge {E} `{FromOutOfGas E} (cost : Res OutOfGas Z) : M Ctx E unit :=
  on_gas (gas_charge cost).
Definition consume {E} `{FromOutOfGas E} (cost : Z) : M Ctx E unit := charge (Done cost).

End Context.
Arguments Ctx St : clear implicits.

End MirCtx.
Export MirCtx.
