(* ===== verification/MirTypes.v ===== *)
(** Types of the Michelson runtime: the errors of the typechecker, type properties
    ([src/contrib/mir/src/typechecker/type_props.rs]), equality of types and of type stacks,
    and the parser of types ([src/contrib/mir/src/typechecker.rs]).

    The functions take [&mut Ctx] but only change its gas: they are computations on [Gas].
    Errors carry the Micheline node where the code carries its debug representation. *)

From stdpp Require Import strings.
From S2P Require Import Prelude MirAst MirGas MirExtern MirCtx.

Open Scope Z_scope.

Module MirTypes.

(** ** Errors *)
Inductive TypeProperty : Set :=
| Comparable | Passable | Storable | Pushable | Packable | BigMapValue | Duplicable.

Inductive NoMatchingOverloadReason : Type :=
| StackTooShort (expected : nat)
| NMOR_TypesNotEqual (t1 t2 : Ty)
| ExpectedPair (t : Ty)
| ExpectedOption (t : Ty)
| ExpectedList (t : Ty)
| ExpectedOr (t : Ty).

Inductive StacksNotEqualReason : Type :=
| SNER_TypesNotEqual (t1 t2 : Ty)
| LengthsDiffer (l1 l2 : nat).

Inductive TcError : Type :=
| StacksNotEqual (s1 s2 : list Ty) (r : StacksNotEqualReason)
| TcOutOfGas
| InvalidTypeProperty (p : TypeProperty) (t : Ty)
| FailNotInTail
| NumericConversion
| TypesNotEqual (t1 t2 : Ty)
| Dup0
| PairN01 (p : Prim.Prim) (n : nat)
| InvalidValueForType (v : Micheline) (t : Ty)
| InvalidEltForMap (v : Micheline) (t : Ty)
| ElementsNotSorted (t : Ty)
| DuplicateElements (t : Ty)
| NoMatchingOverload (instr : Prim.Prim) (stack : list Ty) (r : option NoMatchingOverloadReason)
| TcByteReprError (t : Ty) (e : ByteReprError)
| EntrypointError (e : ByteReprError)
| ChainIdError
| SelfForbidden
| NoSuchEntrypoint (ep : Entrypoint)
| NoSuchContract
| UnexpectedImplicitAccountType (t : Ty)
| EntrypointAmbiguity
| UnexpectedMicheline (m : Micheline)
| DuplicateTopLevelElt (p : Prim.Prim)
| MissingTopLevelElt (p : Prim.Prim)
| ExpectedU10 (z : Z)
| TooManyFieldAnns (ann : string)
| DuplicateEntrypoint (ep : Entrypoint)
| ExplicitDefaultEntrypointError (p : Prim.Prim)
| TodoInstr (p : Prim.Prim)
| TodoType (p : Prim.Prim)
| BigMapNotFound (id : Z)
| TcLazyStorageError (e : LazyStorageError)
| MapBlockEmptyStack
| MapBlockFail.

#[export] Instance tc_error_gas : FromOutOfGas TcError := {| from_out_of_gas := TcOutOfGas |}.

(** Typechecker computations. *)
Abbreviation T := (M Gas TcError).

(** ** Type properties ([Type::ensure_prop]) *)
Fixpoint ensure_prop (t : Ty) (prop : TypeProperty) : T unit :=
  let invalid_type_prop := fail (InvalidTypeProperty prop t) in
  gas_use tc_cost.TYPE_PROP_STEP >>;
  match t with
  | TNat | TInt | TBool | TMutez | TString | TUnit | TNever | TAddress | TChainId | TBytes
  | TKey | TSignature | TKeyHash | TTimestamp => ret tt
  | TTicket _ =>
      match prop with
      | Comparable | Pushable | Duplicable | Packable => invalid_type_prop
      | Passable | Storable | BigMapValue => ret tt
      end
  | TBls12381Fr | TBls12381G1 | TBls12381G2 =>
      match prop with
      | Comparable => invalid_type_prop
      | _ => ret tt
      end
  | TOperation =>
      match prop with
      | Duplicable => ret tt
      | _ => invalid_type_prop
      end
  | TPair l r | TOr l r => ensure_prop l prop >>; ensure_prop r prop
  | TOption x => ensure_prop x prop
  | TList x | TSet x =>
      match prop with
      | Comparable => invalid_type_prop
      | _ => ensure_prop x prop
      end
  | TMap _ v =>
      match prop with
      | Comparable => invalid_type_prop
      | _ => ensure_prop v prop
      end
  | TBigMap _ v =>
      match prop with
      | Comparable | BigMapValue | Packable | Pushable => invalid_type_prop
      | Passable | Storable | Duplicable => ensure_prop v prop
      end
  | TContract _ =>
      match prop with
      | Passable | Packable | Duplicable => ret tt
      | Comparable | Storable | Pushable | BigMapValue => invalid_type_prop
      end
  | TLambda _ _ =>
      match prop with
      | Comparable => invalid_type_prop
      | _ => ret tt
      end
  end.

(** ** Equality of types and of stacks *)

(** [ensure_ty_eq]. *)
Definition ensure_ty_eq (t1 t2 : Ty) : T unit :=
  gas_charge (tc_cost.ty_eq (size_for_gas t1) (size_for_gas t2)) >>;
  if decide (t1 = t2) then ret tt else fail (TypesNotEqual t1 t2).

(** The loop of [ensure_stacks_eq]; [s1] and [s2] are the whole stacks. *)
Fixpoint ensure_types_eq (s1 s2 l1 l2 : list Ty) : T unit :=
  match l1, l2 with
  | t1 :: l1, t2 :: l2 =>
      map_err (fun e => match e with
                        | TypesNotEqual a b => StacksNotEqual s1 s2 (SNER_TypesNotEqual a b)
                        | e => e
                        end) (ensure_ty_eq t1 t2) >>;
      ensure_types_eq s1 s2 l1 l2
  | _, _ => ret tt
  end.

Definition ensure_stacks_eq (s1 s2 : list Ty) : T unit :=
  if decide (length s1 = length s2)
  then ensure_types_eq s1 s2 s1 s2
  else fail (StacksNotEqual s1 s2 (LengthsDiffer (length s1) (length s2))).

(** [FailingTypeStack]: the stack is listed from its top. *)
Inductive FailingTypeStack : Type :=
| FOk (s : list Ty)
| FFailed.

(** [FailingTypeStack::access_mut]. *)
Definition access_mut {E} (f : FailingTypeStack) (err : E) : M Gas E (list Ty) :=
  match f with FOk s => ret s | FFailed => fail err end.

(** [unify_stacks]: the new value of [dest]. *)
Definition unify_stacks (dest aux : FailingTypeStack) : T FailingTypeStack :=
  match dest with
  | FOk stack1 =>
      match aux with
      | FOk stack2 => ensure_stacks_eq stack1 stack2 >>; ret dest
      | FFailed => ret dest
      end
  | FFailed => ret aux
  end.

(** [ensure_stack_len]. *)
Definition ensure_stack_len (instr : Prim.Prim) (stack : list Ty) (l : nat) : T unit :=
  if decide (l <= length stack)%nat then ret tt
  else fail (NoMatchingOverload instr stack (Some (StackTooShort l))).

(** ** Parsing types ([parse_ty_with_entrypoints], [parse_ty]) *)

Definition unexpected {A} (m : Micheline) : T A := fail (UnexpectedMicheline m).

(** [anns.get_single_field_ann()?]. *)
Definition field_ann (anns : Annotations) : T (option string) :=
  match get_single_field_ann anns with
  | Ok r => ret r
  | Err s => fail (TooManyFieldAnns s)
  end.

(** The end of [parse_ty_with_entrypoints]: the entrypoint a field annotation declares. *)
Definition add_entrypoint (eps : option Entrypoints) (anns : Annotations) (parsed_ty : Ty) : T (Ty * option Entrypoints) :=
  match eps with
  | None => ret (parsed_ty, None)
  | Some eps =>
      let+ ann := field_ann anns in
      match ann with
      | None => ret (parsed_ty, Some eps)
      | Some field_ann =>
          match entrypoint_from_field_ann field_ann with
          | Done ep =>
              match eps !! ep with
              | Some _ => fail (DuplicateEntrypoint ep)
              | None => ret (parsed_ty, Some (<[ep := parsed_ty]> eps))
              end
          | _ => ret (parsed_ty, Some eps)
          end
      end
  end.

(** The inner function [make_pair], for a given [parse_ty]; [ty] is the whole node. *)
Section MakePair.
Variable parse_ty : Micheline -> T Ty.

Fixpoint make_pair (ty : Micheline) (tys : list Micheline) : T Ty :=
  match tys with
  | [] => unexpected ty
  | ty1 :: rest =>
      match rest with
      | [] => unexpected ty
      | [ty2] =>
          let+ t1 := parse_ty ty1 in
          let+ t2 := parse_ty ty2 in
          ret (TPair t1 t2)
      | _ =>
          let+ t1 := parse_ty ty1 in
          let+ t2 := make_pair ty rest in
          ret (TPair t1 t2)
      end
  end.
End MakePair.

(** The type and the entrypoints found so far. *)
Fixpoint parse_ty_with_entrypoints (ty : Micheline) (eps : option Entrypoints) : T (Ty * option Entrypoints) :=
  gas_use tc_cost.PARSE_TYPE_STEP >>;
  match ty with
  | MApp prim args anns =>
      let parse_ty m : T Ty := let+ (t, _) := parse_ty_with_entrypoints m None in ret t in
      let leaf t := match args with [] => add_entrypoint eps anns t | _ => unexpected ty end in
      let unary (k : Micheline -> T Ty) :=
        match args with
        | [t] => let+ t := k t in add_entrypoint eps anns t
        | _ => unexpected ty
        end in
      let binary (k : Micheline -> Micheline -> T Ty) :=
        match args with
        | [t1; t2] => let+ t := k t1 t2 in add_entrypoint eps anns t
        | _ => unexpected ty
        end in
      match prim with
      | Prim.int => leaf TInt
      | Prim.nat => leaf TNat
      | Prim.bool => leaf TBool
      | Prim.mutez => leaf TMutez
      | Prim.string => leaf TString
      | Prim.operation => leaf TOperation
      | Prim.never => leaf TNever
      | Prim.unit => leaf TUnit
      | Prim.address => leaf TAddress
      | Prim.chain_id => leaf TChainId
      | Prim.ticket => unary (fun t =>
          let+ t := parse_ty t in ensure_prop t Comparable >>; ret (TTicket t))
      | Prim.timestamp => leaf TTimestamp
      | Prim.pair =>
          match args with
          | _ :: _ :: _ => let+ t := make_pair parse_ty ty args in add_entrypoint eps anns t
          | _ => unexpected ty
          end
      | Prim.or =>
          match args with
          | [l; r] =>
              let+ (tl, eps) := parse_ty_with_entrypoints l eps in
              let+ (tr, eps) := parse_ty_with_entrypoints r eps in
              add_entrypoint eps anns (TOr tl tr)
          | _ => unexpected ty
          end
      | Prim.option => unary (fun t => let+ t := parse_ty t in ret (TOption t))
      | Prim.list => unary (fun t => let+ t := parse_ty t in ret (TList t))
      | Prim.lambda => binary (fun t1 t2 =>
          let+ t1 := parse_ty t1 in let+ t2 := parse_ty t2 in ret (TLambda t1 t2))
      | Prim.contract => unary (fun t =>
          let+ t := parse_ty t in ensure_prop t Passable >>; ret (TContract t))
      | Prim.set => unary (fun k =>
          let+ k := parse_ty k in ensure_prop k Comparable >>; ret (TSet k))
      | Prim.map => binary (fun k v =>
          let+ k := parse_ty k in
          ensure_prop k Comparable >>;
          let+ v := parse_ty v in
          ret (TMap k v))
      | Prim.big_map => binary (fun k v =>
          let+ k := parse_ty k in
          ensure_prop k Comparable >>;
          let+ v := parse_ty v in
          ensure_prop v BigMapValue >>;
          ret (TBigMap k v))
      | Prim.bytes => leaf TBytes
      | Prim.key => leaf TKey
      | Prim.key_hash => leaf TKeyHash
      | Prim.signature => leaf TSignature
      | Prim.bls12_381_fr => leaf TBls12381Fr
      | Prim.bls12_381_g1 => leaf TBls12381G1
      | Prim.bls12_381_g2 => leaf TBls12381G2
      | Prim.chest | Prim.chest_key | Prim.tx_rollup_l2_address | Prim.sapling_state
      | Prim.sapling_transaction | Prim.sapling_transaction_deprecated => fail (TodoType prim)
      | _ => unexpected ty
      end
  | _ => unexpected ty
  end.

Definition parse_ty (ty : Micheline) : T Ty :=
  let+ (t, _) := parse_ty_with_entrypoints ty None in ret t.

(** [parse_parameter_ty_with_entrypoints]. *)
Definition parse_parameter_ty_with_entrypoints (parameter_ty : Micheline) : T (Entrypoints * Ty) :=
  let+ (parameter, eps) := parse_ty_with_entrypoints parameter_ty (Some ∅) in
  let eps := default ∅ eps in
  let eps := match eps !! DEFAULT_EP_NAME with
             | Some _ => eps
             | None => <[DEFAULT_EP_NAME := parameter]> eps
             end in
  ret (eps, parameter).

(** [validate_u10]. *)
Definition validate_u10 (n : Z) : T nat :=
  if (0 <=? n) && (n <? 65536)
  then if 1024 <=? n then fail (ExpectedU10 n) else ret (Z.to_nat n)
  else fail (ExpectedU10 n).

(** [get_nth_field_ref] on a type: the type of the field, and the type with the field
    replaced; [Err] carries the component that is not a pair. *)
Fixpoint ty_nth_field (m : nat) (ty : Ty) : result (Ty * (Ty -> Ty)) Ty :=
  match m, ty with
  | O, ty => Ok (ty, fun t => t)
  | S O, TPair l r => Ok (l, fun t => TPair t r)
  | S (S m), TPair l r =>
      match ty_nth_field m r with
      | Ok (t, put) => Ok (t, fun t => TPair l (put t))
      | Err t => Err t
      end
  | _, ty => Err ty
  end.

End MirTypes.
Export MirTypes.
