(* ===== verification/MirTcInstr.v ===== *)
(** The typechecker of the Michelson runtime, instruction by instruction
    ([typecheck_instruction] of [src/contrib/mir/src/typechecker.rs]): one definition per
    group of match arms.

    A stack is listed from its top, so that the slice pattern [[.., a, b]] of the code is
    [b :: a :: _] here.  The instructions with nested code, types or values take the
    recursive functions of the typechecker as arguments; [MirTypecheck] ties the knot. *)

From stdpp Require Import strings.
From S2P Require Import Prelude MirAst MirGas MirStack MirExtern MirCtx MirTypes.

Open Scope Z_scope.

Module MirTcInstr.
Section Instr.
Context {Bls : BlsTypes}.

(** The typed instruction and the stack after it. *)
Definition Typed : Type := T (Instruction * FailingTypeStack).

Definition typed (i : Instruction) (s : list Ty) : Typed := ret (i, FOk s).

(** The macro [no_overload!]. *)
Definition no_overload {A} (p : Prim.Prim) (stack : list Ty) : T A :=
  fail (NoMatchingOverload p stack None).
Definition no_overload_for {A} (p : Prim.Prim) (stack : list Ty) (r : NoMatchingOverloadReason) : T A :=
  fail (NoMatchingOverload p stack (Some r)).
Definition no_overload_len {A} (p : Prim.Prim) (stack : list Ty) (n : nat) : T A :=
  no_overload_for p stack (StackTooShort n).

(** An instruction without arguments. *)
Definition no_args (i : Micheline) (args : list Micheline) (k : Typed) : Typed :=
  match args with [] => k | _ => unexpected i end.

(** ** Arithmetic *)
Definition tc_add (stack : list Ty) : Typed :=
  match stack with
  | TNat :: TNat :: s => typed (IAdd Add_NatNat) (TNat :: s)
  | TInt :: TInt :: s => typed (IAdd Add_IntInt) (TInt :: s)
  | TInt :: TNat :: s => typed (IAdd Add_IntNat) (TInt :: s)
  | TNat :: TInt :: s => typed (IAdd Add_NatInt) (TInt :: s)
  | TMutez :: TMutez :: s => typed (IAdd Add_MutezMutez) (TMutez :: s)
  | TBls12381Fr :: TBls12381Fr :: s => typed (IAdd Add_Bls12381Fr) (TBls12381Fr :: s)
  | TBls12381G1 :: TBls12381G1 :: s => typed (IAdd Add_Bls12381G1) (TBls12381G1 :: s)
  | TBls12381G2 :: TBls12381G2 :: s => typed (IAdd Add_Bls12381G2) (TBls12381G2 :: s)
  | _ :: _ :: _ => no_overload Prim.ADD stack
  | _ => no_overload_len Prim.ADD stack 2
  end.

Definition tc_mul (stack : list Ty) : Typed :=
  match stack with
  | TNat :: TNat :: s => typed (IMul Mul_NatNat) (TNat :: s)
  | TNat :: TInt :: s => typed (IMul Mul_NatInt) (TInt :: s)
  | TInt :: TInt :: s => typed (IMul Mul_IntInt) (TInt :: s)
  | TNat :: TMutez :: s => typed (IMul Mul_NatMutez) (TMutez :: s)
  | TInt :: TNat :: s => typed (IMul Mul_IntNat) (TInt :: s)
  | TMutez :: TNat :: s => typed (IMul Mul_MutezNat) (TMutez :: s)
  | TBls12381G1 :: TBls12381Fr :: s => typed (IMul Mul_Bls12381G1Bls12381Fr) (TBls12381G1 :: s)
  | TBls12381G2 :: TBls12381Fr :: s => typed (IMul Mul_Bls12381G2Bls12381Fr) (TBls12381G2 :: s)
  | TBls12381Fr :: TBls12381Fr :: s => typed (IMul Mul_Bls12381FrBls12381Fr) (TBls12381Fr :: s)
  | TNat :: TBls12381Fr :: s => typed (IMul Mul_NatBls12381Fr) (TBls12381Fr :: s)
  | TInt :: TBls12381Fr :: s => typed (IMul Mul_IntBls12381Fr) (TBls12381Fr :: s)
  | TBls12381Fr :: TNat :: s => typed (IMul Mul_Bls12381FrNat) (TBls12381Fr :: s)
  | TBls12381Fr :: TInt :: s => typed (IMul Mul_Bls12381FrInt) (TBls12381Fr :: s)
  | _ :: _ :: _ => no_overload Prim.MUL stack
  | _ => no_overload_len Prim.MUL stack 2
  end.

Definition tc_neg (stack : list Ty) : Typed :=
  match stack with
  | TNat :: s => typed (INeg Neg_Nat) (TInt :: s)
  | TInt :: s => typed (INeg Neg_Int) stack
  | TBls12381G1 :: s => typed (INeg Neg_Bls12381G1) stack
  | TBls12381G2 :: s => typed (INeg Neg_Bls12381G2) stack
  | TBls12381Fr :: s => typed (INeg Neg_Bls12381Fr) stack
  | _ :: _ => no_overload Prim.NEG stack
  | [] => no_overload_len Prim.NEG stack 1
  end.

Definition tc_sub_mutez (stack : list Ty) : Typed :=
  match stack with
  | TMutez :: TMutez :: s => typed ISubMutez (TOption TMutez :: s)
  | _ :: _ :: _ => no_overload Prim.SUB_MUTEZ stack
  | _ => no_overload_len Prim.SUB_MUTEZ stack 2
  end.

(** ** Booleans and bits *)
Definition tc_and (stack : list Ty) : Typed :=
  match stack with
  | TNat :: TNat :: s => typed (IAnd And_NatNat) (TNat :: s)
  | TInt :: TNat :: s => typed (IAnd And_IntNat) (TNat :: s)
  | TBool :: TBool :: s => typed (IAnd And_Bool) (TBool :: s)
  | TBytes :: TBytes :: s => typed (IAnd And_Bytes) (TBytes :: s)
  | _ :: _ :: _ => no_overload Prim.AND stack
  | _ => no_overload_len Prim.AND stack 2
  end.

Definition tc_or (stack : list Ty) : Typed :=
  match stack with
  | TNat :: TNat :: s => typed (IOr Or_Nat) (TNat :: s)
  | TBool :: TBool :: s => typed (IOr Or_Bool) (TBool :: s)
  | TBytes :: TBytes :: s => typed (IOr Or_Bytes) (TBytes :: s)
  | _ :: _ :: _ => no_overload Prim.OR stack
  | _ => no_overload_len Prim.OR stack 2
  end.

Definition tc_xor (stack : list Ty) : Typed :=
  match stack with
  | TNat :: TNat :: s => typed (IXor Xor_Nat) (TNat :: s)
  | TBool :: TBool :: s => typed (IXor Xor_Bool) (TBool :: s)
  | TBytes :: TBytes :: s => typed (IXor Xor_Bytes) (TBytes :: s)
  | _ :: _ :: _ => no_overload Prim.XOR stack
  | _ => no_overload_len Prim.XOR stack 2
  end.

Definition tc_not (stack : list Ty) : Typed :=
  match stack with
  | TBool :: _ => typed (INot Not_Bool) stack
  | TInt :: _ => typed (INot Not_Int) stack
  | TNat :: s => typed (INot Not_Nat) (TInt :: s)
  | TBytes :: _ => typed (INot Not_Bytes) stack
  | _ :: _ => no_overload Prim.NOT stack
  | [] => no_overload_len Prim.NOT stack 1
  end.

(** ** Stack manipulation *)
Definition tc_drop (i : Micheline) (args : list Micheline) (stack : list Ty) : Typed :=
  let+ opt_height :=
    match args with
    | [MInt height] => let+ h := validate_u10 height in ret (Some h)
    | [] => ret None
    | _ => unexpected i
    end in
  let drop_height := default 1%nat opt_height in
  gas_charge (tc_cost.drop_n opt_height) >>;
  ensure_stack_len Prim.DROP stack drop_height >>;
  let+ s := lift (res_option (Top.drop_top drop_height stack) StackOutOfBounds) in
  typed (IDrop opt_height) s.

Definition tc_dup (i : Micheline) (args : list Micheline) (stack : list Ty) : Typed :=
  match args with
  | [MInt 0] => fail Dup0
  | _ =>
      let+ opt_height :=
        match args with
        | [MInt height] => let+ h := validate_u10 height in ret (Some h)
        | [] => ret None
        | _ => unexpected i
        end in
      let dup_height := default 1%nat opt_height in
      ensure_stack_len Prim.DUP stack dup_height >>;
      let+ ty := lift (res_option (Top.index (dup_height - 1) stack) StackOutOfBounds) in
      ensure_prop ty Duplicable >>;
      typed (IDup opt_height) (ty :: stack)
  end.

Definition tc_dig (i : Micheline) (args : list Micheline) (stack : list Ty) : Typed :=
  match args with
  | [MInt height] =>
      let+ dig_height := validate_u10 height in
      ensure_stack_len Prim.DIG stack dig_height >>;
      gas_charge (tc_cost.dig_n dig_height) >>;
      if decide (0 < dig_height)%nat
      then let+ (e, s) := lift (res_option (Top.remove dig_height stack) StackOutOfBounds) in
           typed (IDig dig_height) (e :: s)
      else typed (IDig dig_height) stack
  | _ => unexpected i
  end.

Definition tc_dug (i : Micheline) (args : list Micheline) (stack : list Ty) : Typed :=
  match args with
  | [MInt height] =>
      let+ dug_height := validate_u10 height in
      gas_charge (tc_cost.dug_n dug_height) >>;
      if decide (0 < dug_height)%nat
      then ensure_stack_len Prim.DUG stack dug_height >>;
           let+ (e, s) := lift (res_option (Top.pop stack) StackOutOfBounds) in
           let+ s := lift (res_option (Top.insert dug_height e s) StackOutOfBounds) in
           typed (IDug dug_height) s
      else typed (IDug dug_height) stack
  | _ => unexpected i
  end.

Definition tc_swap (stack : list Ty) : Typed :=
  match stack with
  | a :: b :: s => typed ISwap (b :: a :: s)
  | _ => no_overload_len Prim.SWAP stack 2
  end.

(** [GT], [GE], [EQ], [NEQ], [LE], [LT], [ABS], [ISNAT]: an [int] becomes a [res]. *)
Definition tc_on_int (p : Prim.Prim) (ins : Instruction) (res : Ty) (stack : list Ty) : Typed :=
  match stack with
  | TInt :: s => typed ins (res :: s)
  | t :: _ => no_overload_for p stack (NMOR_TypesNotEqual TInt t)
  | [] => no_overload_len p stack 1
  end.

(** ** Conversions *)
Definition tc_int (stack : list Ty) : Typed :=
  match stack with
  | TNat :: s => typed (IInt Int_Nat) (TInt :: s)
  | TBls12381Fr :: s => typed (IInt Int_Bls12381Fr) (TInt :: s)
  | TBytes :: s => typed (IInt Int_Bytes) (TInt :: s)
  | _ :: _ => no_overload Prim.INT stack
  | [] => no_overload_len Prim.INT stack 1
  end.

Definition tc_nat (stack : list Ty) : Typed :=
  match stack with
  | TBytes :: s => typed INat (TNat :: s)
  | _ :: _ => no_overload Prim.NAT stack
  | [] => no_overload_len Prim.NAT stack 1
  end.

Definition tc_bytes (stack : list Ty) : Typed :=
  match stack with
  | TInt :: s => typed (IBytes Bytes_Int) (TBytes :: s)
  | TNat :: s => typed (IBytes Bytes_Nat) (TBytes :: s)
  | _ :: _ => no_overload Prim.BYTES stack
  | [] => no_overload_len Prim.BYTES stack 1
  end.

(** ** Failures *)
Definition tc_failwith (stack : list Ty) : Typed :=
  match stack with
  | ty :: _ => ensure_prop ty Pushable >>; ret (IFailwith ty, FFailed)
  | [] => no_overload_len Prim.FAILWITH stack 1
  end.

Definition tc_never (stack : list Ty) : Typed :=
  match stack with
  | TNever :: _ => ret (INever, FFailed)
  | t :: _ => no_overload_for Prim.NEVER stack (NMOR_TypesNotEqual TNever t)
  | [] => no_overload_len Prim.NEVER stack 1
  end.

(** ** Pairs and options *)
Definition tc_car (stack : list Ty) : Typed :=
  match stack with
  | TPair l _ :: s => typed ICar (l :: s)
  | ty :: _ => no_overload_for Prim.CAR stack (ExpectedPair ty)
  | [] => no_overload_len Prim.CAR stack 1
  end.

Definition tc_cdr (stack : list Ty) : Typed :=
  match stack with
  | TPair _ r :: s => typed ICdr (r :: s)
  | ty :: _ => no_overload_for Prim.CDR stack (ExpectedPair ty)
  | [] => no_overload_len Prim.CDR stack 1
  end.

(** [drain_top(n).rev().reduce(|acc, e| new_pair(e, acc))]: the right comb of the elements. *)
Fixpoint comb {A} (pair : A -> A -> A) (l : list A) : option A :=
  match l with
  | [] => None
  | [x] => Some x
  | x :: l => match comb pair l with Some acc => Some (pair x acc) | None => None end
  end.

Definition tc_pair (i : Micheline) (args : list Micheline) (stack : list Ty) : Typed :=
  match args with
  | [] =>
      match stack with
      | l :: r :: s => typed IPair (TPair l r :: s)
      | _ => no_overload_len Prim.PAIR stack 2
      end
  | [MInt n] =>
      let+ n := validate_u10 n in
      if decide (n < 2)%nat then fail (PairN01 Prim.PAIR n)
      else if decide (length stack < n)%nat then no_overload_len Prim.PAIR stack n
      else
        gas_charge (tc_cost.pair_n n) >>;
        let+ (top, s) := lift (res_option (Top.split_off n stack) StackOutOfBounds) in
        let+ res := lift (res_option (comb TPair top) UnwrapFailed) in
        typed (IPairN n) (res :: s)
  | _ => unexpected i
  end.

(** The inner function [fill] of [UNPAIR n]. *)
Fixpoint unpair_fill (n : nat) (stack : list Ty) (p : Ty) : T (list Ty) :=
  match n with
  | O => ret (p :: stack)
  | S n =>
      match p with
      | TPair l r => let+ stack := unpair_fill n stack r in ret (l :: stack)
      | _ => no_overload_for Prim.UNPAIR stack (ExpectedPair p)
      end
  end.

Definition tc_unpair (i : Micheline) (args : list Micheline) (stack : list Ty) : Typed :=
  match args with
  | [] =>
      match stack with
      | TPair l r :: s => typed IUnpair (l :: r :: s)
      | ty :: _ => no_overload_for Prim.UNPAIR stack (ExpectedPair ty)
      | [] => no_overload_len Prim.UNPAIR stack 1
      end
  | [MInt n] =>
      match stack with
      | p :: s =>
          let+ n := validate_u10 n in
          if decide (n < 2)%nat then fail (PairN01 Prim.UNPAIR n)
          else
            gas_charge (tc_cost.unpair_n n) >>;
            let+ s := unpair_fill (n - 1) s p in
            typed (IUnpairN n) s
      | [] => no_overload_len Prim.UNPAIR stack 1
      end
  | _ => unexpected i
  end.

Definition tc_some (stack : list Ty) : Typed :=
  match stack with
  | ty :: s => typed ISome_ (TOption ty :: s)
  | [] => no_overload_len Prim.SOME stack 1
  end.

Definition tc_none (i : Micheline) (args : list Micheline) (stack : list Ty) : Typed :=
  match args with
  | [ty] => let+ ty := parse_ty ty in typed INone (TOption ty :: stack)
  | _ => unexpected i
  end.

(** ** Comparison *)
Definition tc_compare (stack : list Ty) : Typed :=
  match stack with
  | t :: u :: s =>
      map_err (fun e => match e with
                        | TypesNotEqual a b =>
                            NoMatchingOverload Prim.COMPARE stack (Some (NMOR_TypesNotEqual a b))
                        | e => e
                        end) (ensure_ty_eq t u) >>;
      ensure_prop t Comparable >>;
      typed ICompare (TInt :: s)
  | _ => no_overload_len Prim.COMPARE stack 2
  end.

(** ** Lists, strings and bytes *)
Definition tc_nil (i : Micheline) (args : list Micheline) (stack : list Ty) : Typed :=
  match args with
  | [ty] => let+ ty := parse_ty ty in typed INil (TList ty :: stack)
  | _ => unexpected i
  end.

Definition tc_cons (stack : list Ty) : Typed :=
  match stack with
  | ty2 :: TList ty1 :: s => ensure_ty_eq ty1 ty2 >>; typed ICons (TList ty1 :: s)
  | _ :: ty :: _ => no_overload_for Prim.CONS stack (ExpectedList ty)
  | _ => no_overload_len Prim.CONS stack 2
  end.

Definition tc_concat (stack : list Ty) : Typed :=
  match stack with
  | TString :: TString :: s => typed (IConcat Concat_TwoStrings) (TString :: s)
  | TBytes :: TBytes :: s => typed (IConcat Concat_TwoBytes) (TBytes :: s)
  | TList ty :: s =>
      match ty with
      | TString => typed (IConcat Concat_ListOfStrings) (TString :: s)
      | TBytes => typed (IConcat Concat_ListOfBytes) (TBytes :: s)
      | _ => no_overload Prim.CONCAT stack
      end
  | _ :: _ => no_overload Prim.CONCAT stack
  | [] => no_overload_len Prim.CONCAT stack 1
  end.

Definition tc_slice (stack : list Ty) : Typed :=
  match stack with
  | TNat :: TNat :: TString :: s => typed (ISlice Slice_String) (TOption TString :: s)
  | TNat :: TNat :: TBytes :: s => typed (ISlice Slice_Bytes) (TOption TBytes :: s)
  | _ :: _ :: _ :: _ => no_overload Prim.SLICE stack
  | _ => no_overload_len Prim.SLICE stack 3
  end.

(** ** Sets and maps *)
Definition tc_empty_set (i : Micheline) (args : list Micheline) (stack : list Ty) : Typed :=
  match args with
  | [ty] =>
      let+ ty := parse_ty ty in
      ensure_prop ty Comparable >>;
      typed IEmptySet (TSet ty :: stack)
  | _ => unexpected i
  end.

Definition tc_empty_big_map (i : Micheline) (args : list Micheline) (stack : list Ty) : Typed :=
  match args with
  | [kty; vty] =>
      let+ kty := parse_ty kty in
      ensure_prop kty Comparable >>;
      let+ vty := parse_ty vty in
      ensure_prop vty BigMapValue >>;
      typed (IEmptyBigMap kty vty) (TBigMap kty vty :: stack)
  | _ => unexpected i
  end.

Definition tc_mem (stack : list Ty) : Typed :=
  match stack with
  | ty_ :: TSet ty :: s => ensure_ty_eq ty ty_ >>; typed (IMem Mem_Set) (TBool :: s)
  | kty_ :: TMap kty _ :: s => ensure_ty_eq kty kty_ >>; typed (IMem Mem_Map) (TBool :: s)
  | kty_ :: TBigMap kty _ :: s => ensure_ty_eq kty kty_ >>; typed (IMem Mem_BigMap) (TBool :: s)
  | _ :: _ :: _ => no_overload Prim.MEM stack
  | _ => no_overload_len Prim.MEM stack 2
  end.

Definition tc_get (i : Micheline) (args : list Micheline) (stack : list Ty) : Typed :=
  match args with
  | [] =>
      match stack with
      | kty_ :: TMap kty vty :: s =>
          ensure_ty_eq kty kty_ >>; typed (IGet Get_Map) (TOption vty :: s)
      | kty_ :: TBigMap kty vty :: s =>
          ensure_ty_eq kty kty_ >>; typed (IGet Get_BigMap) (TOption vty :: s)
      | _ :: _ :: _ => no_overload Prim.GET stack
      | _ => no_overload_len Prim.GET stack 2
      end
  | [MInt n] =>
      match stack with
      | ty :: s =>
          let+ n := validate_u10 n in
          gas_charge (tc_cost.get_n n) >>;
          match ty_nth_field n ty with
          | Ok (res, _) => typed (IGetN n) (res :: s)
          | Err ty => no_overload_for Prim.GET stack (ExpectedPair ty)
          end
      | [] => no_overload_len Prim.GET stack 1
      end
  | _ => unexpected i
  end.

Definition tc_update (i : Micheline) (args : list Micheline) (stack : list Ty) : Typed :=
  match args with
  | [] =>
      match stack with
      | ty_ :: TBool :: TSet ty :: s =>
          ensure_ty_eq ty ty_ >>; typed (IUpdate Update_Set) (TSet ty :: s)
      | kty_ :: TOption vty_new :: TMap kty vty :: s =>
          ensure_ty_eq kty kty_ >>; ensure_ty_eq vty vty_new >>;
          typed (IUpdate Update_Map) (TMap kty vty :: s)
      | kty_ :: TOption vty_new :: TBigMap kty vty :: s =>
          ensure_ty_eq kty kty_ >>; ensure_ty_eq vty vty_new >>;
          typed (IUpdate Update_BigMap) (TBigMap kty vty :: s)
      | _ :: _ :: _ :: _ => no_overload Prim.UPDATE stack
      | _ => no_overload_len Prim.UPDATE stack 3
      end
  | [MInt n] =>
      match stack with
      | new_val :: ty :: s =>
          let+ n := validate_u10 n in
          match ty_nth_field n ty with
          | Ok (_, put) => typed (IUpdateN n) (put new_val :: s)
          | Err ty => no_overload_for Prim.UPDATE stack (ExpectedPair ty)
          end
      | _ => no_overload_len Prim.UPDATE stack 2
      end
  | _ => unexpected i
  end.

Definition tc_get_and_update (stack : list Ty) : Typed :=
  match stack with
  | kty_ :: TOption vty_new :: TMap kty vty :: s =>
      ensure_ty_eq kty kty_ >>; ensure_ty_eq vty vty_new >>;
      typed (IGetAndUpdate GetAndUpdate_Map) (TOption vty_new :: TMap kty vty :: s)
  | kty_ :: TOption vty_new :: TBigMap kty vty :: s =>
      ensure_ty_eq kty kty_ >>; ensure_ty_eq vty vty_new >>;
      typed (IGetAndUpdate GetAndUpdate_BigMap) (TOption vty_new :: TBigMap kty vty :: s)
  | _ :: _ :: _ :: _ => no_overload Prim.GET_AND_UPDATE stack
  | _ => no_overload_len Prim.GET_AND_UPDATE stack 3
  end.

Definition tc_size (stack : list Ty) : Typed :=
  match stack with
  | TString :: s => typed (ISize Size_String) (TNat :: s)
  | TBytes :: s => typed (ISize Size_Bytes) (TNat :: s)
  | TList _ :: s => typed (ISize Size_List) (TNat :: s)
  | TSet _ :: s => typed (ISize Size_Set) (TNat :: s)
  | TMap _ _ :: s => typed (ISize Size_Map) (TNat :: s)
  | _ :: _ => no_overload Prim.SIZE stack
  | [] => no_overload_len Prim.SIZE stack 1
  end.

(** ** Contracts and operations *)
Definition tc_self (anns : Annotations) (self_entrypoints : option Entrypoints) (stack : list Ty) : Typed :=
  let+ ann := field_ann anns in
  let+ entrypoint :=
    match ann with
    | Some a => map_err EntrypointError (lift (entrypoint_from_field_ann a))
    | None => ret DEFAULT_EP_NAME
    end in
  match self_entrypoints with
  | None => fail SelfForbidden
  | Some eps =>
      match eps !! entrypoint with
      | None => fail (NoSuchEntrypoint entrypoint)
      | Some t => typed (ISelf entrypoint) (TContract t :: stack)
      end
  end.

Definition tc_address (stack : list Ty) : Typed :=
  match stack with
  | TContract _ :: s => typed IAddress (TAddress :: s)
  | _ :: _ => no_overload Prim.ADDRESS stack
  | [] => no_overload_len Prim.ADDRESS stack 1
  end.

Definition tc_pack (stack : list Ty) : Typed :=
  match stack with
  | t :: s => ensure_prop t Packable >>; typed IPack (TBytes :: s)
  | [] => no_overload_len Prim.PACK stack 1
  end.

Definition tc_unpack (i : Micheline) (args : list Micheline) (stack : list Ty) : Typed :=
  match args with
  | [ty] =>
      match stack with
      | TBytes :: s =>
          let+ ty := parse_ty ty in
          ensure_prop ty Pushable >>;
          typed (IUnpack ty) (TOption ty :: s)
      | ty :: _ => no_overload_for Prim.UNPACK stack (NMOR_TypesNotEqual TBytes ty)
      | [] => no_overload_len Prim.UNPACK stack 1
      end
  | _ => unexpected i
  end.

Definition tc_transfer_tokens (stack : list Ty) : Typed :=
  match stack with
  | arg_t :: TMutez :: TContract ct :: s =>
      ensure_ty_eq ct arg_t >>; typed ITransferTokens (TOperation :: s)
  | _ :: _ :: _ :: _ => no_overload Prim.TRANSFER_TOKENS stack
  | _ => no_overload_len Prim.TRANSFER_TOKENS stack 3
  end.

Definition tc_set_delegate (stack : list Ty) : Typed :=
  match stack with
  | TOption TKeyHash :: s => typed ISetDelegate (TOperation :: s)
  | _ :: _ => no_overload Prim.SET_DELEGATE stack
  | [] => no_overload_len Prim.SET_DELEGATE stack 1
  end.

Definition tc_check_signature (stack : list Ty) : Typed :=
  match stack with
  | TKey :: TSignature :: TBytes :: s => typed ICheckSignature (TBool :: s)
  | _ :: _ :: _ :: _ => no_overload Prim.CHECK_SIGNATURE stack
  | _ => no_overload_len Prim.CHECK_SIGNATURE stack 3
  end.

Definition tc_left (i : Micheline) (args : list Micheline) (stack : list Ty) : Typed :=
  match args with
  | [ty_right] =>
      match stack with
      | ty_left :: s => let+ r := parse_ty ty_right in typed ILeft (TOr ty_left r :: s)
      | [] => no_overload_len Prim.LEFT stack 1
      end
  | _ => unexpected i
  end.

Definition tc_right (i : Micheline) (args : list Micheline) (stack : list Ty) : Typed :=
  match args with
  | [ty_left] =>
      match stack with
      | ty_right :: s => let+ l := parse_ty ty_left in typed IRight (TOr l ty_right :: s)
      | [] => no_overload_len Prim.RIGHT stack 1
      end
  | _ => unexpected i
  end.

Definition tc_exec (stack : list Ty) : Typed :=
  match stack with
  | ty :: TLambda a b :: s => ensure_ty_eq a ty >>; typed IExec (b :: s)
  | _ :: _ :: _ => no_overload Prim.EXEC stack
  | _ => no_overload_len Prim.EXEC stack 2
  end.

Definition tc_hash_key (stack : list Ty) : Typed :=
  match stack with
  | TKey :: s => typed IHashKey (TKeyHash :: s)
  | t :: _ => no_overload_for Prim.HASH_KEY stack (NMOR_TypesNotEqual TKey t)
  | [] => no_overload_len Prim.HASH_KEY stack 1
  end.

Definition tc_apply (stack : list Ty) : Typed :=
  match stack with
  | ty :: TLambda a b :: s =>
      match a with
      | TPair l r => ensure_ty_eq l ty >>; typed (IApply ty) (TLambda r b :: s)
      | t => no_overload_for Prim.APPLY s (ExpectedPair t)
      end
  | _ :: _ :: _ => no_overload Prim.APPLY stack
  | _ => no_overload_len Prim.APPLY stack 2
  end.

(** ** Tickets *)
Definition tc_ticket (stack : list Ty) : Typed :=
  match stack with
  | t :: TNat :: s => typed ITicket (TOption (TTicket t) :: s)
  | _ :: _ :: _ => no_overload Prim.TICKET stack
  | _ => no_overload_len Prim.TICKET stack 2
  end.

Definition tc_read_ticket (stack : list Ty) : Typed :=
  match stack with
  | TTicket t :: s => typed IReadTicket (TPair TAddress (TPair t TNat) :: stack)
  | _ :: _ => no_overload Prim.READ_TICKET stack
  | [] => no_overload_len Prim.READ_TICKET stack 1
  end.

Definition tc_split_ticket (stack : list Ty) : Typed :=
  match stack with
  | TTicket t :: TPair TNat TNat :: s =>
      typed ISplitTicket (TOption (TPair (TTicket t) (TTicket t)) :: s)
  | _ :: _ :: _ => no_overload Prim.SPLIT_TICKET stack
  | _ => no_overload_len Prim.SPLIT_TICKET stack 2
  end.

Definition tc_join_tickets (stack : list Ty) : Typed :=
  match stack with
  | TPair (TTicket lt) (TTicket rt) :: s =>
      ensure_ty_eq lt rt >>; typed IJoinTickets (TOption (TTicket lt) :: s)
  | _ :: _ => no_overload Prim.JOIN_TICKETS stack
  | [] => no_overload_len Prim.JOIN_TICKETS stack 1
  end.

(** ** Hashes and the blockchain *)

(** [BLAKE2B], [KECCAK], [SHA256], [SHA3], [SHA512]. *)
Definition tc_hash (p : Prim.Prim) (ins : Instruction) (stack : list Ty) : Typed :=
  match stack with
  | TBytes :: _ => typed ins stack
  | t :: _ => no_overload_for p stack (NMOR_TypesNotEqual TBytes t)
  | [] => no_overload_len p stack 1
  end.

Definition tc_contract (i : Micheline) (args : list Micheline) (anns : Annotations) (stack : list Ty) : Typed :=
  match args with
  | [t] =>
      match stack with
      | TAddress :: s =>
          let+ ann := field_ann anns in
          let+ entrypoint :=
            match ann with
            | None => ret None
            | Some a => let+ ep := map_err EntrypointError (lift (entrypoint_from_field_ann a)) in ret (Some ep)
            end in
          match entrypoint with
          | Some ep => if is_default ep then fail (ExplicitDefaultEntrypointError Prim.CONTRACT) else ret tt
          | None => ret tt
          end >>;
          let entrypoint := default DEFAULT_EP_NAME entrypoint in
          let+ t := parse_ty t in
          typed (IContract t entrypoint) (TOption (TContract t) :: s)
      | _ :: _ => no_overload Prim.CONTRACT stack
      | [] => no_overload_len Prim.CONTRACT stack 1
      end
  | _ => unexpected i
  end.

Definition tc_implicit_account (stack : list Ty) : Typed :=
  match stack with
  | TKeyHash :: s => typed IImplicitAccount (TContract TUnit :: s)
  | _ :: _ => no_overload Prim.IMPLICIT_ACCOUNT stack
  | [] => no_overload_len Prim.IMPLICIT_ACCOUNT stack 1
  end.

Definition tc_voting_power (stack : list Ty) : Typed :=
  match stack with
  | TKeyHash :: s => typed IVotingPower (TNat :: s)
  | _ :: _ => no_overload Prim.VOTING_POWER stack
  | [] => no_overload_len Prim.VOTING_POWER stack 1
  end.

(** The optional tag of [EMIT]. *)
Definition emit_tag (anns : Annotations) : T (option string) :=
  let+ opt_tag := field_ann anns in
  match opt_tag with
  | Some t => map_err EntrypointError (lift (check_ep_name_len (str_bytes t)))
  | None => ret tt
  end >>;
  ret opt_tag.

Definition tc_emit (i : Micheline) (args : list Micheline) (anns : Annotations) (stack : list Ty) : Typed :=
  match args with
  | [t] =>
      match stack with
      | emit_val_type :: s =>
          let+ emit_type_arg := parse_ty t in
          ensure_ty_eq emit_type_arg emit_val_type >>;
          ensure_prop emit_val_type Pushable >>;
          let+ opt_tag := emit_tag anns in
          typed (IEmit opt_tag (Right t)) (TOperation :: s)
      | [] => no_overload_len Prim.EMIT stack 1
      end
  | [] =>
      match stack with
      | emit_val_type :: s =>
          ensure_prop emit_val_type Pushable >>;
          let+ opt_tag := emit_tag anns in
          typed (IEmit opt_tag (Left emit_val_type)) (TOperation :: s)
      | [] => no_overload_len Prim.EMIT stack 1
      end
  | _ => unexpected i
  end.

Definition tc_pairing_check (stack : list Ty) : Typed :=
  match stack with
  | TList (TPair TBls12381G1 TBls12381G2) :: s => typed IPairingCheck (TBool :: s)
  | t :: _ =>
      no_overload_for Prim.PAIRING_CHECK stack
        (NMOR_TypesNotEqual (TList (TPair TBls12381G1 TBls12381G2)) t)
  | [] => no_overload_len Prim.PAIRING_CHECK stack 1
  end.

(** ** Instructions with nested code *)
Section Nested.
(** [typecheck] of a code block, [typecheck_value], [typecheck_lambda] and
    [typecheck_script]. *)
Context (typecheck : list Micheline -> FailingTypeStack -> T (list Instruction * FailingTypeStack)).
Context (typecheck_value : Micheline -> Ty -> T TypedValue).
Context (typecheck_lambda : list Micheline -> Ty -> Ty -> bool -> T Lambda).
Context (typecheck_script : Micheline -> T ContractScript).

Definition tc_dip (i : Micheline) (args : list Micheline) (stack : list Ty) : Typed :=
  let+ (opt_height, nested) :=
    match args with
    | [MInt height; MSeq nested] => let+ h := validate_u10 height in ret (Some h, nested)
    | [MSeq nested] => ret (None, nested)
    | _ => unexpected i
    end in
  let protected_height := default 1%nat opt_height in
  gas_charge (tc_cost.dip_n opt_height) >>;
  ensure_stack_len Prim.DIP stack protected_height >>;
  let+ (protected, s) := lift (res_option (Top.split_off protected_height stack) StackOutOfBounds) in
  let+ (nested, opt_stack) := typecheck nested (FOk s) in
  let+ s := access_mut opt_stack FailNotInTail in
  typed (IDip opt_height nested) (Top.append protected s).

Definition tc_if (i : Micheline) (args : list Micheline) (stack : list Ty) : Typed :=
  match args with
  | [MSeq nested_t; MSeq nested_f] =>
      match stack with
      | TBool :: s =>
          let+ (nested_t, t_stack) := typecheck nested_t (FOk s) in
          let+ (nested_f, f_stack) := typecheck nested_f (FOk s) in
          let+ res := unify_stacks t_stack f_stack in
          ret (IIf nested_t nested_f, res)
      | t :: _ => no_overload_for Prim.IF stack (NMOR_TypesNotEqual TBool t)
      | [] => no_overload_len Prim.IF stack 1
      end
  | _ => unexpected i
  end.

Definition tc_if_none (i : Micheline) (args : list Micheline) (stack : list Ty) : Typed :=
  match args with
  | [MSeq when_none; MSeq when_some] =>
      match stack with
      | TOption ty :: s =>
          let+ (when_none, none_stack) := typecheck when_none (FOk s) in
          let+ (when_some, some_stack) := typecheck when_some (FOk (ty :: s)) in
          let+ res := unify_stacks none_stack some_stack in
          ret (IIfNone when_none when_some, res)
      | t :: _ => no_overload_for Prim.IF_NONE stack (ExpectedOption t)
      | [] => no_overload_len Prim.IF_NONE stack 1
      end
  | _ => unexpected i
  end.

Definition tc_if_cons (i : Micheline) (args : list Micheline) (stack : list Ty) : Typed :=
  match args with
  | [MSeq when_cons; MSeq when_nil] =>
      match stack with
      | TList ty :: s =>
          let+ (when_cons, cons_stack) := typecheck when_cons (FOk (ty :: TList ty :: s)) in
          let+ (when_nil, nil_stack) := typecheck when_nil (FOk s) in
          let+ res := unify_stacks nil_stack cons_stack in
          ret (IIfCons when_cons when_nil, res)
      | t :: _ => no_overload_for Prim.IF_CONS stack (ExpectedList t)
      | [] => no_overload_len Prim.IF_CONS stack 1
      end
  | _ => unexpected i
  end.

Definition tc_if_left (i : Micheline) (args : list Micheline) (stack : list Ty) : Typed :=
  match args with
  | [MSeq when_left; MSeq when_right] =>
      match stack with
      | TOr tl tr :: s =>
          let+ (when_left, left_stack) := typecheck when_left (FOk (tl :: s)) in
          let+ (when_right, right_stack) := typecheck when_right (FOk (tr :: s)) in
          let+ res := unify_stacks left_stack right_stack in
          ret (IIfLeft when_left when_right, res)
      | t :: _ => no_overload_for Prim.IF_LEFT stack (ExpectedOr t)
      | [] => no_overload_len Prim.IF_LEFT stack 1
      end
  | _ => unexpected i
  end.

Definition tc_loop (i : Micheline) (args : list Micheline) (stack : list Ty) : Typed :=
  match args with
  | [MSeq nested] =>
      match stack with
      | TBool :: s =>
          let+ (nested, opt_stack) := typecheck nested (FOk s) in
          let+ opt_stack := unify_stacks opt_stack (FOk stack) in
          ret (ILoop nested, match opt_stack with FOk s => FOk (tail s) | FFailed => FFailed end)
      | ty :: _ => no_overload_for Prim.LOOP stack (NMOR_TypesNotEqual TBool ty)
      | [] => no_overload_len Prim.LOOP stack 1
      end
  | _ => unexpected i
  end.

Definition tc_loop_left (i : Micheline) (args : list Micheline) (stack : list Ty) : Typed :=
  match args with
  | [MSeq nested] =>
      match stack with
      | TOr l_ty r_ty :: s =>
          let+ (nested, opt_stack) := typecheck nested (FOk (l_ty :: s)) in
          let+ opt_stack := unify_stacks opt_stack (FOk stack) in
          let+ s := access_mut opt_stack FailNotInTail in
          let+ s := lift (res_option (Top.index_set 0 r_ty s) StackOutOfBounds) in
          typed (ILoopLeft nested) s
      | ty :: _ => no_overload_for Prim.LOOP_LEFT stack (ExpectedOr ty)
      | [] => no_overload_len Prim.LOOP_LEFT stack 1
      end
  | _ => unexpected i
  end.

(** The body of [ITER] on elements of type [ty]. *)
Definition tc_iter_body (o : ov_Iter) (nested : list Micheline) (ty : Ty) (s : list Ty) : Typed :=
  let+ (nested, inner_stack) := typecheck nested (FOk (ty :: s)) in
  let+ res := unify_stacks (FOk s) inner_stack in
  ret (IIter o nested, res).

Definition tc_iter (i : Micheline) (args : list Micheline) (stack : list Ty) : Typed :=
  match args with
  | [MSeq nested] =>
      match stack with
      | TList ty :: s => tc_iter_body Iter_List nested ty s
      | TSet ty :: s => tc_iter_body Iter_Set nested ty s
      | TMap k v :: s => tc_iter_body Iter_Map nested (TPair k v) s
      | _ :: _ => no_overload Prim.ITER stack
      | [] => no_overload_len Prim.ITER stack 1
      end
  | _ => unexpected i
  end.

(** [typecheck_map_block]. *)
Definition typecheck_map_block (nested : list Micheline) (ty1 : Ty) (stack : list Ty) : T (list Instruction * Ty) :=
  let+ (nested, opt_nested_stack) := typecheck nested (FOk (ty1 :: stack)) in
  let+ nested_stack := access_mut opt_nested_stack MapBlockFail in
  match nested_stack with
  | [] => fail MapBlockEmptyStack
  | ty2 :: nested_stack => ensure_stacks_eq stack nested_stack >>; ret (nested, ty2)
  end.

Definition tc_map (i : Micheline) (args : list Micheline) (stack : list Ty) : Typed :=
  match args with
  | [MSeq nested] =>
      match stack with
      | TList ty1 :: s =>
          let+ (nested, ty2) := typecheck_map_block nested ty1 s in
          typed (IMap Map_List nested) (TList ty2 :: s)
      | TOption ty1 :: s =>
          let+ (nested, ty2) := typecheck_map_block nested ty1 s in
          typed (IMap Map_Option nested) (TOption ty2 :: s)
      | TMap kty ty1 :: s =>
          let+ (nested, ty2) := typecheck_map_block nested (TPair kty ty1) s in
          typed (IMap Map_Map nested) (TMap kty ty2 :: s)
      | _ :: _ => no_overload Prim.MAP stack
      | [] => no_overload_len Prim.MAP stack 1
      end
  | _ => unexpected i
  end.

Definition tc_push (i : Micheline) (args : list Micheline) (stack : list Ty) : Typed :=
  match args with
  | [t; v] =>
      let+ t := parse_ty t in
      ensure_prop t Pushable >>;
      let+ v := typecheck_value v t in
      typed (IPush v) (t :: stack)
  | _ => unexpected i
  end.

Definition tc_lambda (recursive : bool) (i : Micheline) (args : list Micheline) (stack : list Ty) : Typed :=
  match args with
  | [ty1; ty2; MSeq instrs] =>
      let+ in_ty := parse_ty ty1 in
      let+ out_ty := parse_ty ty2 in
      let+ res := typecheck_lambda instrs in_ty out_ty recursive in
      typed (ILambda res) (TLambda in_ty out_ty :: stack)
  | _ => unexpected i
  end.

Definition tc_create_contract (i : Micheline) (args : list Micheline) (stack : list Ty) : Typed :=
  match args with
  | [cs] =>
      match stack with
      | TOption TKeyHash :: TMutez :: new_storage :: s =>
          let+ contract_script := typecheck_script cs in
          ensure_ty_eq (cs_storage contract_script) new_storage >>;
          typed (ICreateContract contract_script cs) (TOperation :: TAddress :: s)
      | _ :: _ :: _ :: _ => no_overload Prim.CREATE_CONTRACT stack
      | _ => no_overload_len Prim.CREATE_CONTRACT stack 3
      end
  | _ => unexpected i
  end.

End Nested.

End Instr.

(** The definitions of the instructions without nested code. *)
Ltac unfold_tc_instr :=
  unfold tc_add, tc_mul, tc_neg, tc_sub_mutez, tc_and, tc_or, tc_xor, tc_not, tc_swap, tc_on_int,
    tc_int, tc_nat, tc_bytes, tc_failwith, tc_never, tc_car, tc_cdr, tc_some, tc_none, tc_compare,
    tc_nil, tc_cons, tc_concat, tc_slice, tc_empty_set, tc_empty_big_map, tc_mem, tc_get_and_update,
    tc_size, tc_address, tc_pack, tc_transfer_tokens, tc_set_delegate, tc_check_signature, tc_left,
    tc_right, tc_exec, tc_hash_key, tc_apply, tc_read_ticket, tc_split_ticket, tc_join_tickets,
    tc_hash, tc_implicit_account, tc_voting_power, tc_pairing_check.
End MirTcInstr.
Export MirTcInstr.
