(* ===== verification/MirTypecheck.v ===== *)
(** The typechecker of the Michelson runtime ([src/contrib/mir/src/typechecker.rs]): values,
    code, lambdas and scripts.

    The mutually recursive functions take a bound on the depth of their calls ([fuel]).  Every
    call consumes gas first, so a bound above the gas left is never reached
    (see [MirGasProps]).  The typechecker reads the contracts and the big maps of the context
    ([TcEnv]) and changes only its gas. *)

From stdpp Require Import strings.
From S2P Require Import Prelude MirAst MirGas MirStack MirCompare MirExtern MirCtx MirTypes MirTcInstr.

Open Scope Z_scope.

Module MirTypecheck.
Section Typecheck.
Context {Bls : BlsTypes} {X : Extern} {St : Type} {LS : LazyStorage St}.

Record TcEnv : Type := mkTcEnv {
  env_lookup_contract : AddressHash -> option Entrypoints;
  env_storage : St
}.

Definition tc_env (ctx : Ctx St) : TcEnv := mkTcEnv (lookup_contract ctx) (big_map_storage ctx).

Context (env : TcEnv).

Definition byte_repr {A} (t : Ty) (r : Res ByteReprError A) : T A :=
  map_err (TcByteReprError t) (lift r).

(** [typecheck_contract_address]. *)
Definition typecheck_contract_address (address : Address) (ep : Entrypoint) (typ : Ty) : T Address :=
  let+ entrypoint :=
    match is_default (addr_entrypoint address), is_default ep with
    | true, true => ret DEFAULT_EP_NAME
    | false, true => ret (addr_entrypoint address)
    | true, false => ret ep
    | false, false => fail EntrypointAmbiguity
    end in
  match addr_hash address with
  | Implicit _ =>
      if negb (is_default entrypoint) then fail (NoSuchEntrypoint entrypoint)
      else match typ with
           | TUnit | TTicket _ => ret (mkAddress (addr_hash address) entrypoint)
           | _ => fail (UnexpectedImplicitAccountType typ)
           end
  | Kt1 _ | Sr1 _ =>
      match env_lookup_contract env (addr_hash address) with
      | None => fail NoSuchContract
      | Some contract_entrypoints =>
          match contract_entrypoints !! entrypoint with
          | None => fail (NoSuchEntrypoint entrypoint)
          | Some contract_entrypoint_type =>
              ensure_ty_eq typ contract_entrypoint_type >>;
              ret (mkAddress (addr_hash address) entrypoint)
          end
      end
  end.

(** [OrderValidatingIterator], collected: the elements after [cur] are checked in turn, each
    against the one before it. *)
Fixpoint validate_order {A I} (tc : A -> T I) (to_key : I -> TypedValue) (container_ty : Ty) (cur : I) (vs : list A) : T (list I) :=
  match vs with
  | [] => ret [cur]
  | v :: vs =>
      let+ next := tc v in
      gas_charge (interpret_cost.compare (to_key cur) (to_key next)) >>;
      let+ c := lift (cmp (to_key cur) (to_key next)) in
      match c with
      | Lt => ret tt
      | Eq => fail (DuplicateElements container_ty)
      | Gt => fail (ElementsNotSorted container_ty)
      end >>;
      let+ rest := validate_order tc to_key container_ty next vs in
      ret (cur :: rest)
  end.

Definition collect_ordered {A I} (tc : A -> T I) (to_key : I -> TypedValue) (container_ty : Ty) (vs : list A) : T (list I) :=
  match vs with
  | [] => ret []
  | v :: vs => let+ cur := tc v in validate_order tc to_key container_ty cur vs
  end.

(** [vs.iter().map(..).collect::<Result<_, _>>()]. *)
Fixpoint collect {A B} (tc : A -> T B) (vs : list A) : T (list B) :=
  match vs with
  | [] => ret []
  | v :: vs => let+ x := tc v in let+ xs := collect tc vs in ret (x :: xs)
  end.

(** [typecheck_set] and [typecheck_map] for a given [typecheck_value]. *)
Definition typecheck_set (typecheck_value : Micheline -> Ty -> T TypedValue) (set_ty elem_ty : Ty) (vs : list Micheline) : T (list TypedValue) :=
  gas_charge (tc_cost.construct_set (size_for_gas elem_ty) (len vs)) >>;
  collect_ordered (fun v => typecheck_value v elem_ty) (fun x => x) set_ty vs.

Definition typecheck_elt {V} (typecheck_value : Micheline -> Ty -> T TypedValue) (map_ty key_type value_type : Ty) (value_mapper : TypedValue -> V) (v : Micheline) : T (TypedValue * V) :=
  match v with
  | MApp Prim.Elt [k; v] _ =>
      let+ k := typecheck_value k key_type in
      let+ v := typecheck_value v value_type in
      ret (k, value_mapper v)
  | _ => fail (InvalidEltForMap v map_ty)
  end.

Definition typecheck_map {V} (typecheck_value : Micheline -> Ty -> T TypedValue) (map_ty key_type value_type : Ty) (vs : list Micheline) (value_mapper : TypedValue -> V) : T (list (TypedValue * V)) :=
  gas_charge (tc_cost.construct_map (size_for_gas key_type) (len vs)) >>;
  collect_ordered (typecheck_elt typecheck_value map_ty key_type value_type value_mapper) fst map_ty vs.

(** The big map arm of [typecheck_value]: the identifier and the entries that are given. *)
Definition typecheck_big_map (typecheck_value : Micheline -> Ty -> T TypedValue) (t tk tv : Ty) (v : Micheline) : T TypedValue :=
  let+ (id_opt, vs_opt) :=
    match v with
    | MInt i => ret (Some i, None)
    | MSeq vs => ret (None, Some vs)
    | MApp Prim.Pair [MInt i; MSeq vs] _ => ret (Some i, Some vs)
    | _ => fail (InvalidValueForType v t)
    end in
  let+ big_map_id :=
    match id_opt with
    | Some id =>
        let+ types := map_err TcLazyStorageError (lift (big_map_get_type (env_storage env) id)) in
        match types with
        | None => fail (BigMapNotFound id)
        | Some (key_type, value_type) =>
            ensure_ty_eq key_type tk >>;
            ensure_ty_eq value_type tv >>;
            ret (Some id)
        end
    | None => ret None
    end in
  let+ overlay :=
    match vs_opt with
    | Some vs => typecheck_map typecheck_value t tk tv vs Some
    | None => ret []
    end in
  ret (VBigMap (mkBigMap big_map_id overlay tk tv)).

(** The arms of [typecheck_value] for leaves: the value has no component. *)
Definition typecheck_leaf (v : Micheline) (t : Ty) : T TypedValue :=
  let invalid {A} : T A := fail (InvalidValueForType v t) in
  match t, v with
  | TNat, MInt n => if n <? 0 then fail NumericConversion else ret (VNat (Z.to_N n))
  | TInt, MInt n => ret (VInt n)
  | TBool, MApp Prim.True_ [] _ => ret (VBool true)
  | TBool, MApp Prim.False_ [] _ => ret (VBool false)
  | TMutez, MInt n =>
      if n <? 0 then invalid
      else if n <? 2 ^ 63 then ret (VMutez n) else fail NumericConversion
  | TString, MString s => ret (VString s)
  | TUnit, MApp Prim.Unit [] _ => ret VUnit
  | TAddress, MString str =>
      gas_use tc_cost.KEY_HASH_READABLE >>;
      let+ a := byte_repr TAddress (address_from_base58_check str) in ret (VAddress a)
  | TAddress, MBytes bs =>
      gas_use tc_cost.KEY_HASH_OPTIMIZED >>;
      let+ a := byte_repr TAddress (address_from_bytes bs) in ret (VAddress a)
  | TChainId, MString str =>
      gas_use tc_cost.CHAIN_ID_READABLE >>;
      let+ c := lift (ok_or (hash_from_b58check ChainIdHash str) ChainIdError) in ret (VChainId c)
  | TChainId, MBytes bs =>
      gas_use tc_cost.CHAIN_ID_OPTIMIZED >>;
      let+ c := lift (ok_or (hash_try_from_bytes ChainIdHash bs) ChainIdError) in ret (VChainId c)
  | TBytes, MBytes bs => ret (VBytes bs)
  | TKey, MString str =>
      gas_use tc_cost.KEY_READABLE >>;
      let+ k := byte_repr TKey (key_from_base58_check str) in ret (VKey k)
  | TKey, MBytes bs =>
      gas_use tc_cost.KEY_OPTIMIZED >>;
      let+ k := byte_repr TKey (key_from_bytes bs) in ret (VKey k)
  | TSignature, MString str =>
      gas_use tc_cost.KEY_READABLE >>;
      let+ s := byte_repr TSignature (signature_from_base58_check str) in ret (VSignature s)
  | TSignature, MBytes bs =>
      gas_use tc_cost.KEY_OPTIMIZED >>;
      let+ s := byte_repr TSignature (signature_from_bytes bs) in ret (VSignature s)
  | TKeyHash, MString str =>
      gas_use tc_cost.KEY_HASH_READABLE >>;
      let+ k := byte_repr TKeyHash (key_hash_from_base58_check str) in ret (VKeyHash k)
  | TKeyHash, MBytes bs =>
      gas_use tc_cost.KEY_HASH_OPTIMIZED >>;
      let+ k := byte_repr TKeyHash (key_hash_from_bytes bs) in ret (VKeyHash k)
  | TTimestamp, MInt n => ret (VTimestamp n)
  | TTimestamp, MString n =>
      gas_charge (tc_cost.timestamp_decoding (slen n)) >>;
      let+ dt := lift (ok_or (parse_from_rfc3339 n) (InvalidValueForType v TTimestamp)) in
      ret (VTimestamp dt)
  | TBls12381Fr, MInt i =>
      gas_use tc_cost.BLS_FR >>; let+ x := lift (fr_from_big_int i) in ret (VBls12381Fr x)
  | TBls12381Fr, MBytes bs =>
      gas_use tc_cost.BLS_FR >>;
      match fr_from_bytes bs with Some x => ret (VBls12381Fr x) | None => invalid end
  | TBls12381G1, MBytes bs =>
      gas_use tc_cost.BLS_G1 >>;
      match g1_from_bytes bs with Some x => ret (VBls12381G1 x) | None => invalid end
  | TBls12381G2, MBytes bs =>
      gas_use tc_cost.BLS_G2 >>;
      match g2_from_bytes bs with Some x => ret (VBls12381G2 x) | None => invalid end
  | _, _ => invalid
  end.

(** The three top-level fields of a script, in the order they are met. *)
Fixpoint script_fields (seq : list Micheline) (parameter storage code : option Micheline) : T (option Micheline * option Micheline * option Micheline) :=
  let set_if_none p (v : option Micheline) : T unit :=
    match v with None => ret tt | Some _ => fail (DuplicateTopLevelElt p) end in
  match seq with
  | [] => ret (parameter, storage, code)
  | MApp Prim.code [content] [] :: seq =>
      set_if_none Prim.code code >>; script_fields seq parameter storage (Some content)
  | MApp Prim.parameter [content] [] :: seq =>
      set_if_none Prim.parameter parameter >>; script_fields seq (Some content) storage code
  | MApp Prim.storage [content] [] :: seq =>
      set_if_none Prim.storage storage >>; script_fields seq parameter (Some content) code
  | elt :: _ => fail (UnexpectedMicheline elt)
  end.

Definition field_or_missing (p : Prim.Prim) (f : option Micheline) : T Micheline :=
  match f with Some m => ret m | None => fail (MissingTopLevelElt p) end.

(** [typecheck_script] for a given [typecheck_instruction]. *)
Definition typecheck_script_with (typecheck_instruction : Micheline -> option Entrypoints -> FailingTypeStack -> T (Instruction * FailingTypeStack)) (script : Micheline) : T ContractScript :=
  let+ seq := match script with
              | MSeq [MSeq seq] => ret seq
              | MSeq seq => ret seq
              | x => fail (UnexpectedMicheline x)
              end in
  let+ (parameter_ty, storage_ty, code) := script_fields seq None None None in
  let+ parameter_ty := field_or_missing Prim.parameter parameter_ty in
  let+ (entrypoints, parameter) := parse_parameter_ty_with_entrypoints parameter_ty in
  let+ storage_ty := field_or_missing Prim.storage storage_ty in
  let+ storage := parse_ty storage_ty in
  ensure_prop parameter Passable >>;
  ensure_prop storage Storable >>;
  let+ code := field_or_missing Prim.code code in
  let+ (code, stack) := typecheck_instruction code (Some entrypoints) (FOk [TPair parameter storage]) in
  let+ _ := unify_stacks (FOk [TPair (TList TOperation) storage]) stack in
  ret (mkContractScript parameter storage code).

(** ** The knot *)
Fixpoint typecheck_value (fuel : nat) (v : Micheline) (t : Ty) : T TypedValue :=
  match fuel with
  | O => no_fuel
  | S fuel =>
      let tc := typecheck_value fuel in
      gas_use tc_cost.VALUE_STEP >>;
      match t, v with
      | TPair tl tr, (MApp Prim.Pair (vl :: ((_ :: _) as rest)) _ | MSeq (vl :: ((_ :: _) as rest))) =>
          let+ l := tc vl tl in
          let+ r := match rest with
                    | [vr] => tc vr tr
                    | vrs => tc (MApp Prim.Pair vrs NO_ANNS) tr
                    end in
          ret (VPair l r)
      | TOr tl _, MApp Prim.Left [val] _ => let+ x := tc val tl in ret (VOr (Left x))
      | TOr _ tr, MApp Prim.Right [val] _ => let+ x := tc val tr in ret (VOr (Right x))
      | TOption ty, MApp Prim.Some [v] _ => let+ x := tc v ty in ret (VOption (Some x))
      | TOption _, MApp Prim.None [] _ => ret (VOption None)
      | TList ty, MSeq vs => let+ l := collect (fun v => tc v ty) vs in ret (VList l)
      | TSet ty, MSeq vs => let+ l := typecheck_set tc t ty vs in ret (VSet l)
      | TMap tk tv, MSeq vs => let+ m := typecheck_map tc t tk tv vs (fun v => v) in ret (VMap m)
      | TBigMap tk tv, v => typecheck_big_map tc t tk tv v
      | TContract ty, addr =>
          let+ a := tc addr TAddress in
          match a with
          | VAddress t_addr =>
              let+ a := typecheck_contract_address t_addr DEFAULT_EP_NAME ty in ret (VContract a)
          | _ => panic UnreachableState
          end
      | TLambda in_ty out_ty, MSeq instrs =>
          let+ l := typecheck_lambda fuel instrs in_ty out_ty false in ret (VLambda (CLambda l))
      | TLambda in_ty out_ty, MApp Prim.Lambda_rec [MSeq instrs] _ =>
          let+ l := typecheck_lambda fuel instrs in_ty out_ty true in ret (VLambda (CLambda l))
      | TTicket c, m =>
          fun g =>
          match tc m (TPair TAddress (TPair c TNat)) g with
          | (Done (VPair a b), g) =>
              match a, b with
              | VAddress address, VPair content (VNat amount) =>
                  (Done (VTicket (mkTicket (addr_hash address) content amount)), g)
              | _, _ => (Panics UnreachableState, g)
              end
          | (Done _, g) | (Error _, g) => (Error (InvalidValueForType v t), g)
          | (Panics p, g) => (Panics p, g)
          | (NoFuel, g) => (NoFuel, g)
          end
      | _, _ => typecheck_leaf v t
      end
  end
(** [typecheck_lambda]. *)
with typecheck_lambda (fuel : nat) (instrs : list Micheline) (in_ty out_ty : Ty) (recursive : bool) : T Lambda :=
  match fuel with
  | O => no_fuel
  | S fuel =>
      let stk := if recursive then [in_ty; TLambda in_ty out_ty] else [in_ty] in
      let+ (code, stk) := typecheck fuel instrs None (FOk stk) in
      let+ _ := unify_stacks stk (FOk [out_ty]) in
      let micheline_code := MSeq instrs in
      ret (if recursive then LambdaRec in_ty out_ty micheline_code code
           else Lambda_ micheline_code code)
  end
(** [typecheck]. *)
with typecheck (fuel : nat) (ast : list Micheline) (self_entrypoints : option Entrypoints) (opt_stack : FailingTypeStack) : T (list Instruction * FailingTypeStack) :=
  match fuel with
  | O => no_fuel
  | S fuel =>
      (fix go (ast : list Micheline) (opt_stack : FailingTypeStack) : T (list Instruction * FailingTypeStack) :=
         match ast with
         | [] => ret ([], opt_stack)
         | i :: ast =>
             let+ (i, opt_stack) := typecheck_instruction fuel i self_entrypoints opt_stack in
             let+ (rest, opt_stack) := go ast opt_stack in
             ret (i :: rest, opt_stack)
         end) ast opt_stack
  end
(** [typecheck_instruction]. *)
with typecheck_instruction (fuel : nat) (i : Micheline) (self_entrypoints : option Entrypoints) (opt_stack : FailingTypeStack) : T (Instruction * FailingTypeStack) :=
  match fuel with
  | O => no_fuel
  | S fuel =>
      let tc := typecheck fuel in
      let block ast st := tc ast self_entrypoints st in
      let+ stack := access_mut opt_stack FailNotInTail in
      gas_use tc_cost.INSTR_STEP >>;
      match i with
      | MSeq nested => let+ (is', st) := block nested opt_stack in ret (ISeq is', st)
      | MApp prim args anns =>
          match prim with
          | Prim.ADD => no_args i args (tc_add stack)
          | Prim.MUL => no_args i args (tc_mul stack)
          | Prim.NEG => no_args i args (tc_neg stack)
          | Prim.SUB_MUTEZ => no_args i args (tc_sub_mutez stack)
          | Prim.AND => no_args i args (tc_and stack)
          | Prim.OR => no_args i args (tc_or stack)
          | Prim.XOR => no_args i args (tc_xor stack)
          | Prim.NOT => no_args i args (tc_not stack)
          | Prim.DIP => tc_dip block i args stack
          | Prim.DROP => tc_drop i args stack
          | Prim.DUP => tc_dup i args stack
          | Prim.DIG => tc_dig i args stack
          | Prim.DUG => tc_dug i args stack
          | Prim.GT => no_args i args (tc_on_int Prim.GT IGt TBool stack)
          | Prim.GE => no_args i args (tc_on_int Prim.GE IGe TBool stack)
          | Prim.EQ => no_args i args (tc_on_int Prim.EQ IEq TBool stack)
          | Prim.NEQ => no_args i args (tc_on_int Prim.NEQ INeq TBool stack)
          | Prim.LE => no_args i args (tc_on_int Prim.LE ILe TBool stack)
          | Prim.LT => no_args i args (tc_on_int Prim.LT ILt TBool stack)
          | Prim.IF => tc_if block i args stack
          | Prim.IF_NONE => tc_if_none block i args stack
          | Prim.IF_CONS => tc_if_cons block i args stack
          | Prim.IF_LEFT => tc_if_left block i args stack
          | Prim.INT => no_args i args (tc_int stack)
          | Prim.NAT => no_args i args (tc_nat stack)
          | Prim.BYTES => no_args i args (tc_bytes stack)
          | Prim.ABS => no_args i args (tc_on_int Prim.ABS IAbs TNat stack)
          | Prim.ISNAT => no_args i args (tc_on_int Prim.ISNAT IIsNat (TOption TNat) stack)
          | Prim.LOOP => tc_loop block i args stack
          | Prim.LOOP_LEFT => tc_loop_left block i args stack
          | Prim.ITER => tc_iter block i args stack
          | Prim.MAP => tc_map block i args stack
          | Prim.PUSH => tc_push (typecheck_value fuel) i args stack
          | Prim.SWAP => no_args i args (tc_swap stack)
          | Prim.FAILWITH => no_args i args (tc_failwith stack)
          | Prim.NEVER => no_args i args (tc_never stack)
          | Prim.UNIT => no_args i args (typed IUnit (TUnit :: stack))
          | Prim.CAR => no_args i args (tc_car stack)
          | Prim.CDR => no_args i args (tc_cdr stack)
          | Prim.PAIR => tc_pair i args stack
          | Prim.UNPAIR => tc_unpair i args stack
          | Prim.SOME => no_args i args (tc_some stack)
          | Prim.NONE => tc_none i args stack
          | Prim.COMPARE => no_args i args (tc_compare stack)
          | Prim.AMOUNT => no_args i args (typed IAmount (TMutez :: stack))
          | Prim.NIL => tc_nil i args stack
          | Prim.CONS => no_args i args (tc_cons stack)
          | Prim.CONCAT => no_args i args (tc_concat stack)
          | Prim.EMPTY_SET => tc_empty_set i args stack
          | Prim.EMPTY_BIG_MAP => tc_empty_big_map i args stack
          | Prim.MEM => no_args i args (tc_mem stack)
          | Prim.GET => tc_get i args stack
          | Prim.UPDATE => tc_update i args stack
          | Prim.GET_AND_UPDATE => no_args i args (tc_get_and_update stack)
          | Prim.SIZE => no_args i args (tc_size stack)
          | Prim.CHAIN_ID => no_args i args (typed IChainId (TChainId :: stack))
          | Prim.SELF => no_args i args (tc_self anns self_entrypoints stack)
          | Prim.ADDRESS => no_args i args (tc_address stack)
          | Prim.PACK => no_args i args (tc_pack stack)
          | Prim.UNPACK => tc_unpack i args stack
          | Prim.TRANSFER_TOKENS => no_args i args (tc_transfer_tokens stack)
          | Prim.SET_DELEGATE => no_args i args (tc_set_delegate stack)
          | Prim.CHECK_SIGNATURE => no_args i args (tc_check_signature stack)
          | Prim.SLICE => no_args i args (tc_slice stack)
          | Prim.LEFT => tc_left i args stack
          | Prim.RIGHT => tc_right i args stack
          | Prim.LAMBDA => tc_lambda (typecheck_lambda fuel) false i args stack
          | Prim.LAMBDA_REC => tc_lambda (typecheck_lambda fuel) true i args stack
          | Prim.EXEC => no_args i args (tc_exec stack)
          | Prim.HASH_KEY => no_args i args (tc_hash_key stack)
          | Prim.APPLY => no_args i args (tc_apply stack)
          | Prim.TICKET => no_args i args (tc_ticket stack)
          | Prim.READ_TICKET => no_args i args (tc_read_ticket stack)
          | Prim.SPLIT_TICKET => no_args i args (tc_split_ticket stack)
          | Prim.JOIN_TICKETS => no_args i args (tc_join_tickets stack)
          | Prim.BLAKE2B => no_args i args (tc_hash Prim.BLAKE2B IBlake2b stack)
          | Prim.KECCAK => no_args i args (tc_hash Prim.KECCAK IKeccak stack)
          | Prim.SHA256 => no_args i args (tc_hash Prim.SHA256 ISha256 stack)
          | Prim.SHA3 => no_args i args (tc_hash Prim.SHA3 ISha3 stack)
          | Prim.SHA512 => no_args i args (tc_hash Prim.SHA512 ISha512 stack)
          | Prim.BALANCE => no_args i args (typed IBalance (TMutez :: stack))
          | Prim.CONTRACT => tc_contract i args anns stack
          | Prim.LEVEL => no_args i args (typed ILevel (TNat :: stack))
          | Prim.MIN_BLOCK_TIME => no_args i args (typed IMinBlockTime (TNat :: stack))
          | Prim.SELF_ADDRESS => no_args i args (typed ISelfAddress (TAddress :: stack))
          | Prim.SENDER => no_args i args (typed ISender (TAddress :: stack))
          | Prim.SOURCE => no_args i args (typed ISource (TAddress :: stack))
          | Prim.NOW => no_args i args (typed INow (TTimestamp :: stack))
          | Prim.IMPLICIT_ACCOUNT => no_args i args (tc_implicit_account stack)
          | Prim.TOTAL_VOTING_POWER => no_args i args (typed ITotalVotingPower (TNat :: stack))
          | Prim.VOTING_POWER => no_args i args (tc_voting_power stack)
          | Prim.EMIT => tc_emit i args anns stack
          | Prim.PAIRING_CHECK => no_args i args (tc_pairing_check stack)
          | Prim.CREATE_CONTRACT =>
              tc_create_contract (typecheck_script_with (typecheck_instruction fuel)) i args stack
          | Prim.SUB | Prim.EDIV | Prim.LSL | Prim.LSR | Prim.EMPTY_MAP
          | Prim.SAPLING_EMPTY_STATE | Prim.SAPLING_VERIFY_UPDATE | Prim.OPEN_CHEST | Prim.VIEW
          | Prim.CREATE_ACCOUNT | Prim.STEPS_TO_QUOTA | Prim.TICKET_DEPRECATED | Prim.CAST
          | Prim.RENAME => fail (TodoInstr prim)
          | _ => unexpected i
          end
      | _ => unexpected i
      end
  end.

(** [Micheline::typecheck_script]. *)
Definition typecheck_script (fuel : nat) (script : Micheline) : T ContractScript :=
  typecheck_script_with (typecheck_instruction fuel) script.

End Typecheck.
Arguments TcEnv St : clear implicits.

End MirTypecheck.
Export MirTypecheck.
