(* ===== verification/MirOps.v ===== *)
(** The instructions of the Michelson interpreter ([interpret_one] of
    [src/contrib/mir/src/interpreter.rs]): one definition per group of match arms, as a
    function from the stack to the stack.

    The instructions with nested code take the interpretation of their blocks as arguments;
    [MirInterp] puts them together. *)

From stdpp Require Import strings.
From S2P Require Import Prelude MirAst MirGas MirStack MirCompare MirExtern MirSerial MirCtx MirTypes MirTcInstr MirTypecheck.

Open Scope Z_scope.

Module MirOps.
Section Ops.
Context {Bls : BlsTypes} {X : Extern} {St : Type} {LS : LazyStorage St}.

Inductive InterpretError : Type :=
| IOutOfGas
| MutezOverflow
| FailedWith (t : Ty) (v : TypedValue)
| ILazyStorageError (e : LazyStorageError).

#[global] Instance interpret_error_gas : FromOutOfGas InterpretError := {| from_out_of_gas := IOutOfGas |}.

(** Interpreter computations, and the stack from its top. *)
Abbreviation I := (M (Ctx St) InterpretError).
Abbreviation IStack := (list TypedValue).

(** ** Popping *)
Definition as_int (v : TypedValue) : option Z := match v with VInt z => Some z | _ => None end.
Definition as_nat (v : TypedValue) : option N := match v with VNat n => Some n | _ => None end.
Definition as_mutez (v : TypedValue) : option Z := match v with VMutez z => Some z | _ => None end.
Definition as_bool (v : TypedValue) : option bool := match v with VBool b => Some b | _ => None end.
Definition as_string (v : TypedValue) : option string := match v with VString s => Some s | _ => None end.
Definition as_bytes (v : TypedValue) : option (list Z) := match v with VBytes b => Some b | _ => None end.
Definition as_pair (v : TypedValue) : option (TypedValue * TypedValue) :=
  match v with VPair l r => Some (l, r) | _ => None end.
Definition as_option (v : TypedValue) : option (option TypedValue) :=
  match v with VOption o => Some o | _ => None end.
Definition as_or (v : TypedValue) : option (Or TypedValue TypedValue) :=
  match v with VOr o => Some o | _ => None end.
Definition as_list (v : TypedValue) : option (list TypedValue) := match v with VList l => Some l | _ => None end.
Definition as_set (v : TypedValue) : option (list TypedValue) := match v with VSet l => Some l | _ => None end.
Definition as_map (v : TypedValue) : option (list (TypedValue * TypedValue)) :=
  match v with VMap m => Some m | _ => None end.
Definition as_big_map (v : TypedValue) : option BigMap := match v with VBigMap m => Some m | _ => None end.
Definition as_address (v : TypedValue) : option Address := match v with VAddress a => Some a | _ => None end.
Definition as_contract (v : TypedValue) : option Address := match v with VContract a => Some a | _ => None end.
Definition as_key (v : TypedValue) : option Key := match v with VKey k => Some k | _ => None end.
Definition as_key_hash (v : TypedValue) : option KeyHash := match v with VKeyHash k => Some k | _ => None end.
Definition as_signature (v : TypedValue) : option Signature := match v with VSignature s => Some s | _ => None end.
Definition as_lambda (v : TypedValue) : option Closure := match v with VLambda c => Some c | _ => None end.
Definition as_ticket (v : TypedValue) : option Ticket := match v with VTicket t => Some t | _ => None end.
Definition as_operation (v : TypedValue) : option (Operation * Z) :=
  match v with VOperation o c => Some (o, c) | _ => None end.
Definition as_fr (v : TypedValue) : option Fr := match v with VBls12381Fr x => Some x | _ => None end.
Definition as_g1 (v : TypedValue) : option G1 := match v with VBls12381G1 x => Some x | _ => None end.
Definition as_g2 (v : TypedValue) : option G2 := match v with VBls12381G2 x => Some x | _ => None end.

(** [irrefutable_match!]. *)
Definition the {A} (f : TypedValue -> option A) (v : TypedValue) : I A :=
  lift (res_option (f v) UnreachableState).

(** The macro [pop!]. *)
Definition pop (s : IStack) : I (TypedValue * IStack) := lift (res_option (Top.pop s) UnreachableState).
Definition pop_as {A} (f : TypedValue -> option A) (s : IStack) : I (A * IStack) :=
  let+ (v, s) := pop s in let+ a := the f v in ret (a, s).

(** [irrefutable_match!(&mut stack[0]; ..)]: the content of the top, and what is below. *)
Definition top_as {A} (f : TypedValue -> option A) (s : IStack) : I (A * IStack) :=
  match s with
  | [] => panic StackOutOfBounds
  | v :: s => let+ a := the f v in ret (a, s)
  end.

(** ** Machine integers and byte strings *)

(** [i64::checked_add], [i64::checked_mul] and [i64::try_from(BigUint)]. *)
Definition i64_checked (z : Z) : option Z :=
  if (- 2 ^ 63 <=? z) && (z <? 2 ^ 63) then Some z else None.

Definition mutez (o : option Z) : I Z := match o with Some z => ret z | None => fail MutezOverflow end.

(** Numbers as big-endian bytes. *)
Definition nat_to_bytes_be (n : N) : list Z := rev (le_bytes (Z.to_nat (byte_size (Z.of_N n))) (Z.of_N n)).
Definition nat_from_bytes_be (bs : list Z) : N := Z.to_N (le_value (rev bs)).

Definition signed_byte_size (z : Z) : Z :=
  bits_to_bytes (big_bits (if z <? 0 then - z - 1 else z) + 1).
Definition int_to_signed_bytes_be (z : Z) : list Z :=
  let n := signed_byte_size z in rev (le_bytes (Z.to_nat n) (wrap (8 * n) z)).
Definition int_from_signed_bytes_be (bs : list Z) : Z :=
  match bs with [] => 0 | _ => sint (8 * len bs) (le_value (rev bs)) end.

(** The loop over [zip(o1.into_iter().rev(), o2.iter_mut().rev())], which overwrites [o2] from
    its end. *)
Fixpoint zip_onto (f : Z -> Z -> Z) (o1 o2 : list Z) : list Z :=
  match o1, o2 with
  | b1 :: o1, b2 :: o2 => f b2 b1 :: zip_onto f o1 o2
  | _, _ => o2
  end.
Definition zip_rev (f : Z -> Z -> Z) (o1 o2 : list Z) : list Z := rev (zip_onto f (rev o1) (rev o2)).

(** The result has the length of the shorter operand ([AND]) or of the longer one ([OR],
    [XOR]). *)
Definition zip_shortest (f : Z -> Z -> Z) (o1 o2 : list Z) : list Z :=
  if len o1 <? len o2 then zip_rev f o2 o1 else zip_rev f o1 o2.
Definition zip_longest (f : Z -> Z -> Z) (o1 o2 : list Z) : list Z :=
  if len o2 <? len o1 then zip_rev f o2 o1 else zip_rev f o1 o2.

(** ** Arithmetic *)
Definition op_add (o : ov_Add) (s : IStack) : I IStack :=
  match o with
  | Add_IntInt =>
      let+ (o1, s) := pop_as as_int s in
      let+ (o2, s) := pop_as as_int s in
      charge (interpret_cost.add_num o1 o2) >>; ret (VInt (o1 + o2) :: s)
  | Add_NatNat =>
      let+ (o1, s) := pop_as as_nat s in
      let+ (o2, s) := pop_as as_nat s in
      charge (interpret_cost.add_num (Z.of_N o1) (Z.of_N o2)) >>; ret (VNat (o1 + o2) :: s)
  | Add_IntNat =>
      let+ (o1, s) := pop_as as_int s in
      let+ (o2, s) := pop_as as_nat s in
      charge (interpret_cost.add_num o1 (Z.of_N o2)) >>; ret (VInt (o1 + Z.of_N o2) :: s)
  | Add_NatInt =>
      let+ (o1, s) := pop_as as_nat s in
      let+ (o2, s) := pop_as as_int s in
      charge (interpret_cost.add_num (Z.of_N o1) o2) >>; ret (VInt (Z.of_N o1 + o2) :: s)
  | Add_MutezMutez =>
      let+ (o1, s) := pop_as as_mutez s in
      let+ (o2, s) := pop_as as_mutez s in
      consume interpret_cost.ADD_TEZ >>;
      let+ sum := mutez (i64_checked (o1 + o2)) in ret (VMutez sum :: s)
  | Add_Bls12381Fr =>
      let+ (o1, s) := pop_as as_fr s in
      let+ (o2, s) := pop_as as_fr s in
      consume interpret_cost.ADD_BLS_FR >>; ret (VBls12381Fr (fr_add o1 o2) :: s)
  | Add_Bls12381G1 =>
      let+ (o1, s) := pop_as as_g1 s in
      let+ (o2, s) := pop_as as_g1 s in
      consume interpret_cost.ADD_BLS_G1 >>; ret (VBls12381G1 (g1_add o1 o2) :: s)
  | Add_Bls12381G2 =>
      let+ (o1, s) := pop_as as_g2 s in
      let+ (o2, s) := pop_as as_g2 s in
      consume interpret_cost.ADD_BLS_G2 >>; ret (VBls12381G2 (g2_add o1 o2) :: s)
  end.

Definition op_mul (o : ov_Mul) (s : IStack) : I IStack :=
  match o with
  | Mul_NatNat =>
      let+ (x1, s) := pop_as as_nat s in
      let+ (x2, s) := pop_as as_nat s in
      charge (interpret_cost.mul_int (Z.of_N x1) (Z.of_N x2)) >>; ret (VNat (x1 * x2) :: s)
  | Mul_NatInt =>
      let+ (x1, s) := pop_as as_nat s in
      let+ (x2, s) := pop_as as_int s in
      charge (interpret_cost.mul_int (Z.of_N x1) x2) >>; ret (VInt (Z.of_N x1 * x2) :: s)
  | Mul_IntNat =>
      let+ (x1, s) := pop_as as_int s in
      let+ (x2, s) := pop_as as_nat s in
      charge (interpret_cost.mul_int x1 (Z.of_N x2)) >>; ret (VInt (x1 * Z.of_N x2) :: s)
  | Mul_IntInt =>
      let+ (x1, s) := pop_as as_int s in
      let+ (x2, s) := pop_as as_int s in
      charge (interpret_cost.mul_int x1 x2) >>; ret (VInt (x1 * x2) :: s)
  | Mul_MutezNat =>
      consume interpret_cost.MUL_TEZ_NAT >>;
      let+ (x1, s) := pop_as as_mutez s in
      let+ (x2, s) := pop_as as_nat s in
      let+ x2 := mutez (i64_checked (Z.of_N x2)) in
      let+ res := mutez (i64_checked (x1 * x2)) in ret (VMutez res :: s)
  | Mul_NatMutez =>
      consume interpret_cost.MUL_NAT_TEZ >>;
      let+ (x1, s) := pop_as as_nat s in
      let+ x1 := mutez (i64_checked (Z.of_N x1)) in
      let+ (x2, s) := pop_as as_mutez s in
      let+ res := mutez (i64_checked (x1 * x2)) in ret (VMutez res :: s)
  | Mul_Bls12381G1Bls12381Fr =>
      consume interpret_cost.MUL_BLS_G1 >>;
      let+ (x1, s) := pop_as as_g1 s in
      let+ (x2, s) := pop_as as_fr s in ret (VBls12381G1 (g1_mul x1 x2) :: s)
  | Mul_Bls12381G2Bls12381Fr =>
      consume interpret_cost.MUL_BLS_G2 >>;
      let+ (x1, s) := pop_as as_g2 s in
      let+ (x2, s) := pop_as as_fr s in ret (VBls12381G2 (g2_mul x1 x2) :: s)
  | Mul_Bls12381FrBls12381Fr =>
      consume interpret_cost.MUL_BLS_FR >>;
      let+ (x1, s) := pop_as as_fr s in
      let+ (x2, s) := pop_as as_fr s in ret (VBls12381Fr (fr_mul x1 x2) :: s)
  | Mul_NatBls12381Fr =>
      let+ (nat, s) := pop_as as_nat s in
      charge (interpret_cost.mul_bls_fr_big_int (Z.of_N nat)) >>;
      let+ x1 := lift (fr_from_big_int (Z.of_N nat)) in
      let+ (x2, s) := pop_as as_fr s in ret (VBls12381Fr (fr_mul x1 x2) :: s)
  | Mul_IntBls12381Fr =>
      let+ (int, s) := pop_as as_int s in
      charge (interpret_cost.mul_bls_fr_big_int int) >>;
      let+ x1 := lift (fr_from_big_int int) in
      let+ (x2, s) := pop_as as_fr s in ret (VBls12381Fr (fr_mul x1 x2) :: s)
  | Mul_Bls12381FrNat =>
      let+ (x1, s) := pop_as as_fr s in
      let+ (nat, s) := pop_as as_nat s in
      charge (interpret_cost.mul_bls_fr_big_int (Z.of_N nat)) >>;
      let+ x2 := lift (fr_from_big_int (Z.of_N nat)) in ret (VBls12381Fr (fr_mul x1 x2) :: s)
  | Mul_Bls12381FrInt =>
      let+ (x1, s) := pop_as as_fr s in
      let+ (int, s) := pop_as as_int s in
      charge (interpret_cost.mul_bls_fr_big_int int) >>;
      let+ x2 := lift (fr_from_big_int int) in ret (VBls12381Fr (fr_mul x1 x2) :: s)
  end.

Definition op_neg (o : ov_Neg) (s : IStack) : I IStack :=
  match o with
  | Neg_Nat =>
      let+ (v, s) := pop_as as_nat s in
      charge (interpret_cost.neg_int (Z.of_N v)) >>; ret (VInt (- Z.of_N v) :: s)
  | Neg_Int =>
      let+ (v, s) := pop_as as_int s in
      charge (interpret_cost.neg_int v) >>; ret (VInt (- v) :: s)
  | Neg_Bls12381G1 =>
      consume interpret_cost.NEG_G1 >>;
      let+ (v, s) := top_as as_g1 s in ret (VBls12381G1 (g1_neg v) :: s)
  | Neg_Bls12381G2 =>
      consume interpret_cost.NEG_G2 >>;
      let+ (v, s) := top_as as_g2 s in ret (VBls12381G2 (g2_neg v) :: s)
  | Neg_Bls12381Fr =>
      consume interpret_cost.NEG_FR >>;
      let+ (v, s) := top_as as_fr s in ret (VBls12381Fr (fr_neg v) :: s)
  end.

Definition op_sub_mutez (s : IStack) : I IStack :=
  consume interpret_cost.SUB_MUTEZ >>;
  let+ (v1, s) := pop_as as_mutez s in
  let+ (v2, s) := pop_as as_mutez s in
  ret ((if v2 <=? v1 then VOption (Some (VMutez (sint 64 (v1 - v2)))) else VOption None) :: s).

(** ** Booleans and bits *)
Definition op_and (o : ov_And) (s : IStack) : I IStack :=
  match o with
  | And_Bool =>
      let+ (o1, s) := pop_as as_bool s in
      let+ (o2, s) := top_as as_bool s in
      consume interpret_cost.AND_BOOL >>; ret (VBool (o2 && o1) :: s)
  | And_NatNat =>
      let+ (o1, s) := pop_as as_nat s in
      let+ (o2, s) := top_as as_nat s in
      charge (interpret_cost.and_num (Z.of_N o1) (Z.of_N o2)) >>; ret (VNat (N.land o2 o1) :: s)
  | And_IntNat =>
      let+ (o1, s) := pop_as as_int s in
      let+ (o2, s) := pop_as as_nat s in
      charge (interpret_cost.and_num o1 (Z.of_N o2)) >>;
      let r := Z.land o1 (Z.of_N o2) in
      if r <? 0 then panic UnwrapFailed else ret (VNat (Z.to_N r) :: s)
  | And_Bytes =>
      let+ (o1, s) := pop_as as_bytes s in
      let+ (o2, s) := top_as as_bytes s in
      charge (interpret_cost.and_bytes o1 o2) >>; ret (VBytes (zip_shortest Z.land o1 o2) :: s)
  end.

Definition op_or (o : ov_Or) (s : IStack) : I IStack :=
  match o with
  | Or_Bool =>
      let+ (o1, s) := pop_as as_bool s in
      let+ (o2, s) := top_as as_bool s in
      consume interpret_cost.OR_BOOL >>; ret (VBool (o2 || o1) :: s)
  | Or_Nat =>
      let+ (o1, s) := pop_as as_nat s in
      let+ (o2, s) := top_as as_nat s in
      charge (interpret_cost.or_num (Z.of_N o1) (Z.of_N o2)) >>; ret (VNat (N.lor o2 o1) :: s)
  | Or_Bytes =>
      let+ (o1, s) := pop_as as_bytes s in
      let+ (o2, s) := top_as as_bytes s in
      charge (interpret_cost.or_bytes o1 o2) >>; ret (VBytes (zip_longest Z.lor o1 o2) :: s)
  end.

(** No gas is consumed for bytes. *)
Definition op_xor (o : ov_Xor) (s : IStack) : I IStack :=
  match o with
  | Xor_Bool =>
      let+ (o1, s) := pop_as as_bool s in
      let+ (o2, s) := top_as as_bool s in
      consume interpret_cost.XOR_BOOL >>; ret (VBool (xorb o2 o1) :: s)
  | Xor_Nat =>
      let+ (o1, s) := pop_as as_nat s in
      let+ (o2, s) := top_as as_nat s in
      charge (interpret_cost.xor_nat (Z.of_N o1) (Z.of_N o2)) >>; ret (VNat (N.lxor o2 o1) :: s)
  | Xor_Bytes =>
      let+ (o1, s) := pop_as as_bytes s in
      let+ (o2, s) := top_as as_bytes s in
      ret (VBytes (zip_longest Z.lxor o1 o2) :: s)
  end.

Definition op_not (o : ov_Not) (s : IStack) : I IStack :=
  match o with
  | Not_Bool =>
      let+ (o, s) := top_as as_bool s in
      consume interpret_cost.NOT_BOOL >>; ret (VBool (negb o) :: s)
  | Not_Int =>
      let+ (o, s) := pop_as as_int s in
      charge (interpret_cost.not_num o) >>; ret (VInt (Z.lnot o) :: s)
  | Not_Nat =>
      let+ (o, s) := pop_as as_nat s in
      charge (interpret_cost.not_num (Z.of_N o)) >>; ret (VInt (Z.lnot (Z.of_N o)) :: s)
  | Not_Bytes =>
      let+ (o, s) := top_as as_bytes s in
      charge (interpret_cost.not_bytes o) >>; ret (VBytes (map (unot 8) o) :: s)
  end.

(** ** Stack manipulation *)
Definition at_stack {A} (o : option A) : I A := lift (res_option o StackOutOfBounds).

Definition op_dip (opt_height : option nat) (nested : IStack -> I IStack) (s : IStack) : I IStack :=
  charge (interpret_cost.dip opt_height) >>;
  let protected_height := default 1%nat opt_height in
  let+ (protected, s) := at_stack (Top.split_off protected_height s) in
  let+ s := nested s in
  charge (interpret_cost.undip protected_height) >>;
  ret (Top.append protected s).

Definition op_drop (opt_height : option nat) (s : IStack) : I IStack :=
  charge (interpret_cost.drop opt_height) >>;
  at_stack (Top.drop_top (default 1%nat opt_height) s).

Definition op_dup (opt_height : option nat) (s : IStack) : I IStack :=
  charge (interpret_cost.dup opt_height) >>;
  match default 1%nat opt_height with
  | O => panic StackOutOfBounds
  | S n => let+ v := at_stack (Top.index n s) in ret (v :: s)
  end.

Definition op_dig (dig_height : nat) (s : IStack) : I IStack :=
  charge (interpret_cost.dig dig_height) >>;
  if decide (0 < dig_height)%nat
  then let+ (e, s) := at_stack (Top.remove dig_height s) in ret (e :: s)
  else ret s.

Definition op_dug (dug_height : nat) (s : IStack) : I IStack :=
  charge (interpret_cost.dug dug_height) >>;
  if decide (0 < dug_height)%nat
  then let+ (e, s) := pop s in at_stack (Top.insert dug_height e s)
  else ret s.

Definition op_swap (s : IStack) : I IStack :=
  consume interpret_cost.SWAP >>; at_stack (Top.swap 0 1 s).

(** ** Comparisons with zero: [GT], [GE], [EQ], [NEQ], [LE], [LT] *)
Definition op_cmp_zero (cost : Z) (f : Z -> bool) (s : IStack) : I IStack :=
  consume cost >>; let+ (i, s) := pop_as as_int s in ret (VBool (f i) :: s).

(** ** Control *)
Definition op_if (nested_t nested_f : IStack -> I IStack) (s : IStack) : I IStack :=
  consume interpret_cost.IF >>;
  let+ (b, s) := pop_as as_bool s in if b : bool then nested_t s else nested_f s.

Definition op_if_none (when_none when_some : IStack -> I IStack) (s : IStack) : I IStack :=
  consume interpret_cost.IF_NONE >>;
  let+ (o, s) := pop_as as_option s in
  match o with Some x => when_some (x :: s) | None => when_none s end.

Definition op_if_cons (when_cons when_nil : IStack -> I IStack) (s : IStack) : I IStack :=
  consume interpret_cost.IF_CONS >>;
  let+ (lst, s) := top_as as_list s in
  match lst with x :: lst => when_cons (x :: VList lst :: s) | [] => when_nil s end.

Definition op_if_left (when_left when_right : IStack -> I IStack) (s : IStack) : I IStack :=
  consume interpret_cost.IF_LEFT >>;
  let+ (o, s) := pop_as as_or s in
  match o with Left x => when_left (x :: s) | Right x => when_right (x :: s) end.

(** The loops of [LOOP] and [LOOP_LEFT]; [n] bounds the iterations. *)
Fixpoint loop (n : nat) (nested : IStack -> I IStack) (s : IStack) : I IStack :=
  match n with
  | O => no_fuel
  | S n =>
      consume interpret_cost.LOOP >>;
      let+ (b, s) := pop_as as_bool s in
      if b : bool then let+ s := nested s in loop n nested s
      else consume interpret_cost.LOOP_EXIT >>; ret s
  end.

Definition op_loop (n : nat) (nested : IStack -> I IStack) (s : IStack) : I IStack :=
  consume interpret_cost.LOOP_ENTER >>; loop n nested s.

Fixpoint loop_left (n : nat) (nested : IStack -> I IStack) (s : IStack) : I IStack :=
  match n with
  | O => no_fuel
  | S n =>
      consume interpret_cost.LOOP >>;
      let+ (o, s) := pop_as as_or s in
      match o with
      | Left x => let+ s := nested (x :: s) in loop_left n nested s
      | Right x => consume interpret_cost.LOOP_EXIT >>; ret (x :: s)
      end
  end.

Definition op_loop_left (n : nat) (nested : IStack -> I IStack) (s : IStack) : I IStack :=
  consume interpret_cost.LOOP_LEFT_ENTER >>; loop_left n nested s.

(** [for i in list { .. }]. *)
Fixpoint iter_values (nested : IStack -> I IStack) (l : list TypedValue) (s : IStack) : I IStack :=
  match l with
  | [] => ret s
  | v :: l => consume interpret_cost.PUSH >>; let+ s := nested (v :: s) in iter_values nested l s
  end.

Definition op_iter (o : ov_Iter) (nested : IStack -> I IStack) (s : IStack) : I IStack :=
  consume interpret_cost.ITER >>;
  match o with
  | Iter_List => let+ (l, s) := pop_as as_list s in iter_values nested l s
  | Iter_Set => let+ (l, s) := pop_as as_set s in iter_values nested l s
  | Iter_Map =>
      let+ (m, s) := pop_as as_map s in iter_values nested (map (fun '(k, v) => VPair k v) m) s
  end.

(** The results of the block on every value, and the stack below them. *)
Fixpoint map_values {A} (arg : A -> TypedValue) (nested : IStack -> I IStack) (l : list A) (s : IStack) : I (list TypedValue * IStack) :=
  match l with
  | [] => ret ([], s)
  | x :: l =>
      consume interpret_cost.PUSH >>;
      let+ s := nested (arg x :: s) in
      let+ (v, s) := pop s in
      let+ (vs, s) := map_values arg nested l s in
      ret (v :: vs, s)
  end.

Definition op_map (o : ov_Map) (nested : IStack -> I IStack) (s : IStack) : I IStack :=
  match o with
  | Map_List =>
      consume interpret_cost.MAP_LIST >>;
      let+ (l, s) := pop_as as_list s in
      let+ (result, s) := map_values (fun v => v) nested l s in
      ret (VList result :: s)
  | Map_Option =>
      consume interpret_cost.MAP_OPTION >>;
      let+ (o, s) := pop_as as_option s in
      match o with
      | Some elem =>
          consume interpret_cost.PUSH >>;
          let+ s := nested (elem :: s) in
          let+ (v, s) := pop s in
          ret (VOption (Some v) :: s)
      | None => ret (VOption None :: s)
      end
  | Map_Map =>
      consume interpret_cost.MAP_MAP >>;
      let+ (m, s) := pop_as as_map s in
      let+ (vals, s) := map_values (fun '(k, v) => VPair k v) nested m s in
      ret (VMap (zip (m.*1) vals) :: s)
  end.

(** ** Conversions *)
Definition op_abs (s : IStack) : I IStack :=
  let+ (i, s) := pop_as as_int s in
  charge (interpret_cost.abs i) >>; ret (VNat (Z.abs_N i) :: s).

Definition op_is_nat (s : IStack) : I IStack :=
  let+ (i, s) := pop_as as_int s in
  consume interpret_cost.ISNAT >>;
  ret (VOption (if i <? 0 then None else Some (VNat (Z.to_N i))) :: s).

Definition op_int (o : ov_Int) (s : IStack) : I IStack :=
  match o with
  | Int_Nat =>
      let+ (i, s) := pop_as as_nat s in
      consume interpret_cost.INT_NAT >>; ret (VInt (Z.of_N i) :: s)
  | Int_Bls12381Fr =>
      let+ (i, s) := pop_as as_fr s in
      consume interpret_cost.INT_BLS_FR >>; ret (VInt (fr_to_big_int i) :: s)
  | Int_Bytes =>
      let+ (i, s) := pop_as as_bytes s in
      charge (interpret_cost.int_bytes (len i)) >>; ret (VInt (int_from_signed_bytes_be i) :: s)
  end.

Definition op_nat (s : IStack) : I IStack :=
  let+ (i, s) := pop_as as_bytes s in
  charge (interpret_cost.int_bytes (len i)) >>; ret (VNat (nat_from_bytes_be i) :: s).

Definition op_bytes (o : ov_Bytes) (s : IStack) : I IStack :=
  match o with
  | Bytes_Nat =>
      let+ (i, s) := pop_as as_nat s in
      charge (interpret_cost.bytes_nat (Z.of_N i)) >>;
      ret (VBytes (if (i =? 0)%N then [] else nat_to_bytes_be i) :: s)
  | Bytes_Int =>
      let+ (i, s) := pop_as as_int s in
      charge (interpret_cost.bytes_int i) >>;
      ret (VBytes (if i =? 0 then [] else int_to_signed_bytes_be i) :: s)
  end.

(** ** Pairs, options and lists *)
Definition op_push (v : TypedValue) (s : IStack) : I IStack :=
  consume interpret_cost.PUSH >>; ret (v :: s).

Definition op_failwith (ty : Ty) (s : IStack) : I IStack :=
  let+ (x, _) := pop s in fail (FailedWith ty x).

Definition op_constant (cost : Z) (v : Ctx St -> TypedValue) (s : IStack) : I IStack :=
  consume cost >>; let+ ctx := get_state in ret (v ctx :: s).

Definition op_car (s : IStack) : I IStack :=
  consume interpret_cost.CAR >>; let+ (p, s) := pop_as as_pair s in ret (p.1 :: s).
Definition op_cdr (s : IStack) : I IStack :=
  consume interpret_cost.CDR >>; let+ (p, s) := pop_as as_pair s in ret (p.2 :: s).

Definition op_pair (s : IStack) : I IStack :=
  consume interpret_cost.PAIR >>;
  let+ (l, s) := pop s in let+ (r, s) := pop s in ret (VPair l r :: s).

Definition op_pair_n (n : nat) (s : IStack) : I IStack :=
  charge (interpret_cost.pair_n n) >>;
  let+ (top, s) := at_stack (Top.split_off n s) in
  let+ res := lift (res_option (comb VPair top) UnwrapFailed) in
  ret (res :: s).

Definition op_unpair (s : IStack) : I IStack :=
  consume interpret_cost.UNPAIR >>; let+ (p, s) := pop_as as_pair s in ret (p.1 :: p.2 :: s).

(** The inner function [fill] of [UNPAIR n]. *)
Fixpoint fill (n : nat) (s : IStack) (p : TypedValue) : I IStack :=
  match n with
  | O => ret (p :: s)
  | S n =>
      match p with
      | VPair l r => let+ s := fill n s r in ret (l :: s)
      | _ => panic UnreachableState
      end
  end.

Definition op_unpair_n (n : nat) (s : IStack) : I IStack :=
  charge (interpret_cost.unpair_n n) >>;
  let+ (p, s) := pop s in
  match n with O => panic UnreachableState | S n => fill n s p end.

Definition op_some (s : IStack) : I IStack :=
  consume interpret_cost.SOME >>; let+ (v, s) := pop s in ret (VOption (Some v) :: s).

Definition op_compare (s : IStack) : I IStack :=
  let+ (l, s) := pop s in
  let+ (r, s) := pop s in
  charge (interpret_cost.compare l r) >>;
  let+ c := lift (cmp l r) in
  ret (VInt (match c with Lt => -1 | Eq => 0 | Gt => 1 end) :: s).

Definition op_cons (s : IStack) : I IStack :=
  consume interpret_cost.CONS >>;
  let+ (elt, s) := pop s in let+ (lst, s) := pop_as as_list s in ret (VList (elt :: lst) :: s).

Definition op_left (s : IStack) : I IStack :=
  consume interpret_cost.LEFT >>; let+ (l, s) := pop s in ret (VOr (Left l) :: s).
Definition op_right (s : IStack) : I IStack :=
  consume interpret_cost.RIGHT >>; let+ (r, s) := pop s in ret (VOr (Right r) :: s).

(** ** Strings and bytes *)
Fixpoint the_all {A} (f : TypedValue -> option A) (l : list TypedValue) : I (list A) :=
  match l with
  | [] => ret []
  | v :: l => let+ a := the f v in let+ l := the_all f l in ret (a :: l)
  end.

(** [total_len += len] for every element, checked. *)
Definition total_len (lens : list Z) : option Z := foldl (fun t l => ck2 64 Z.add t (Some l)) (Some 0) lens.

Definition op_concat (o : ov_Concat) (s : IStack) : I IStack :=
  match o with
  | Concat_TwoStrings =>
      let+ (s1, s) := pop_as as_string s in
      let+ (s2, s) := pop_as as_string s in
      charge (interpret_cost.concat_string_pair (slen s1) (slen s2)) >>; ret (VString (s1 +:+ s2) :: s)
  | Concat_TwoBytes =>
      let+ (s1, s) := pop_as as_bytes s in
      let+ (s2, s) := pop_as as_bytes s in
      charge (interpret_cost.concat_bytes_pair (len s1) (len s2)) >>; ret (VBytes (s1 ++ s2) :: s)
  | Concat_ListOfStrings =>
      let+ (l, s) := pop_as as_list s in
      charge (interpret_cost.concat_list_precheck (len l)) >>;
      let+ strs := the_all as_string l in
      charge (interpret_cost.concat_string_list (total_len (map slen strs))) >>;
      let+ _ := lift (ok_or (total_len (map slen strs)) IOutOfGas) in
      ret (VString (String.concat "" strs) :: s)
  | Concat_ListOfBytes =>
      let+ (l, s) := pop_as as_list s in
      charge (interpret_cost.concat_list_precheck (len l)) >>;
      let+ bss := the_all as_bytes l in
      charge (interpret_cost.concat_bytes_list (total_len (map len bss))) >>;
      let+ _ := lift (ok_or (total_len (map len bss)) IOutOfGas) in
      ret (VBytes (concat bss) :: s)
  end.

(** [validate_bounds]. *)
Definition validate_bounds (offset length : N) (actual_length : Z) : option (Z * Z) :=
  let start := Z.of_N offset in
  let stop := start + Z.of_N length in
  if (start <? 2 ^ 64) && (Z.of_N length <? 2 ^ 64) && (stop <? 2 ^ 64) && (start <? actual_length)
  then Some (start, stop)
  else None.

Definition slice_string (str : string) (range : Z * Z) : option string :=
  if snd range <=? slen str then str_get str (Z.to_nat (fst range)) (Z.to_nat (snd range)) else None.
Definition slice_bytes (bs : list Z) (range : Z * Z) : option (list Z) :=
  if snd range <=? len bs
  then Some (take (Z.to_nat (snd range - fst range)) (drop (Z.to_nat (fst range)) bs)) else None.

Definition op_slice (o : ov_Slice) (s : IStack) : I IStack :=
  let+ (offset, s) := pop_as as_nat s in
  let+ (length, s) := pop_as as_nat s in
  match o with
  | Slice_String =>
      let+ (str, s) := pop_as as_string s in
      charge (interpret_cost.slice (slen str)) >>;
      ret (VOption (option_map VString
             match validate_bounds offset length (slen str) with
             | Some r => slice_string str r | None => None end) :: s)
  | Slice_Bytes =>
      let+ (bytes, s) := pop_as as_bytes s in
      charge (interpret_cost.slice (len bytes)) >>;
      ret (VOption (option_map VBytes
             match validate_bounds offset length (len bytes) with
             | Some r => slice_bytes bytes r | None => None end) :: s)
  end.

(** ** Sets and maps *)
Definition on_storage {A} (r : Res LazyStorageError A) : I A := lift (res_map_err ILazyStorageError r).

Definition op_mem (o : ov_Mem) (s : IStack) : I IStack :=
  let+ (key, s) := pop s in
  match o with
  | Mem_Set =>
      let+ (set, s) := pop_as as_set s in
      charge (interpret_cost.set_mem key (len set)) >>;
      let+ result := lift (set_contains key set) in ret (VBool result :: s)
  | Mem_Map =>
      let+ (map, s) := pop_as as_map s in
      charge (interpret_cost.map_mem key (len map)) >>;
      let+ result := lift (map_get key map) in ret (VBool (bool_decide (is_Some result)) :: s)
  | Mem_BigMap =>
      let+ (map, s) := pop_as as_big_map s in
      charge (interpret_cost.map_mem key (len (bm_overlay map))) >>;
      let+ ctx := get_state in
      let+ result := on_storage (bm_mem map key (big_map_storage ctx)) in ret (VBool result :: s)
  end.

Definition op_get (o : ov_Get) (s : IStack) : I IStack :=
  let+ (key, s) := pop s in
  match o with
  | Get_Map =>
      let+ (map, s) := pop_as as_map s in
      charge (interpret_cost.map_get key (len map)) >>;
      let+ result := lift (map_get key map) in ret (VOption result :: s)
  | Get_BigMap =>
      let+ (map, s) := pop_as as_big_map s in
      charge (interpret_cost.map_get key (len (bm_overlay map))) >>;
      let+ ctx := get_state in
      let+ result := on_storage (bm_get map key (big_map_storage ctx)) in ret (VOption result :: s)
  end.

(** [get_nth_field_ref]: the field, and the value with the field replaced. *)
Fixpoint nth_field (m : nat) (val : TypedValue) : option (TypedValue * (TypedValue -> TypedValue)) :=
  match m, val with
  | O, val => Some (val, fun v => v)
  | S O, VPair l r => Some (l, fun v => VPair v r)
  | S (S m), VPair l r =>
      match nth_field m r with
      | Some (f, put) => Some (f, fun v => VPair l (put v))
      | None => None
      end
  | _, _ => None
  end.

Definition op_get_n (n : nat) (s : IStack) : I IStack :=
  charge (interpret_cost.get_n n) >>;
  let+ (p, s) := top_as (nth_field n) s in ret (fst p :: s).

Definition op_update_n (n : nat) (s : IStack) : I IStack :=
  charge (interpret_cost.update_n n) >>;
  let+ (new_val, s) := pop s in
  let+ (p, s) := top_as (nth_field n) s in ret (snd p new_val :: s).

(** [map.remove(&key)] or [map.insert(key, val)], with the old value. *)
Definition map_change {E} (key : TypedValue) (val : option TypedValue) (m : list (TypedValue * TypedValue)) : Res E (option TypedValue * list (TypedValue * TypedValue)) :=
  match val with None => map_remove key m | Some val => map_insert key val m end.

Definition op_update (o : ov_Update) (s : IStack) : I IStack :=
  let+ (key, s) := pop s in
  match o with
  | Update_Set =>
      let+ (new_present, s) := pop_as as_bool s in
      let+ (set, s) := top_as as_set s in
      charge (interpret_cost.set_update key (len set)) >>;
      let+ set := lift (if new_present : bool then set_insert key set else set_remove key set) in
      ret (VSet set :: s)
  | Update_Map =>
      let+ (opt_new_val, s) := pop_as as_option s in
      let+ (map, s) := top_as as_map s in
      charge (interpret_cost.map_update key (len map)) >>;
      let+ (_, map) := lift (map_change key opt_new_val map) in ret (VMap map :: s)
  | Update_BigMap =>
      let+ (opt_new_val, s) := pop_as as_option s in
      let+ (map, s) := top_as as_big_map s in
      charge (interpret_cost.map_update key (len (bm_overlay map))) >>;
      let+ map := lift (bm_update map key opt_new_val) in ret (VBigMap map :: s)
  end.

Definition op_get_and_update (o : ov_GetAndUpdate) (s : IStack) : I IStack :=
  let+ (key, s) := pop s in
  let+ (opt_new_val, s) := pop_as as_option s in
  match o with
  | GetAndUpdate_Map =>
      let+ (map, s) := top_as as_map s in
      charge (interpret_cost.map_get_and_update key (len map)) >>;
      let+ (opt_old_val, map) := lift (map_change key opt_new_val map) in
      ret (VOption opt_old_val :: VMap map :: s)
  | GetAndUpdate_BigMap =>
      let+ (map, s) := top_as as_big_map s in
      charge (interpret_cost.map_get_and_update key (len (bm_overlay map))) >>;
      let+ ctx := get_state in
      let+ opt_old_val := on_storage (bm_get map key (big_map_storage ctx)) in
      let+ map := lift (bm_update map key opt_new_val) in
      ret (VOption opt_old_val :: VBigMap map :: s)
  end.

Definition run_size {A} (f : TypedValue -> option A) (cost : Z) (size : A -> Z) (s : IStack) : I IStack :=
  let+ (e, s) := pop_as f s in
  consume cost >>; ret (VNat (Z.to_N (size e)) :: s).

Definition op_size (o : ov_Size) (s : IStack) : I IStack :=
  match o with
  | Size_String => run_size as_string interpret_cost.SIZE_STRING slen s
  | Size_Bytes => run_size as_bytes interpret_cost.SIZE_BYTES len s
  | Size_List => run_size as_list interpret_cost.SIZE_LIST len s
  | Size_Set => run_size as_set interpret_cost.SIZE_SET len s
  | Size_Map => run_size as_map interpret_cost.SIZE_MAP len s
  end.

(** ** Packing *)
Definition op_pack (s : IStack) : I IStack :=
  consume interpret_cost.PACK >>;
  let+ (v, s) := pop s in
  let mich := into_micheline v in
  charge (interpret_cost.micheline_encoding mich) >>;
  ret (VBytes (encode_for_pack mich) :: s).

(** [.ok()] of a typechecker computation: an error leaves the gas it was raised with. *)
Definition ok {A} (c : T A) : I (option A) := fun ctx =>
  match c (gas ctx) with
  | (Done a, g) => (Done (Some a), set_gas g ctx)
  | (Error _, g) => (Done None, set_gas g ctx)
  | (Panics p, g) => (Panics p, set_gas g ctx)
  | (NoFuel, g) => (NoFuel, set_gas g ctx)
  end.

Definition op_unpack (fuel : nat) (ty : Ty) (s : IStack) : I IStack :=
  let+ (bytes, s) := pop_as as_bytes s in
  charge (interpret_cost.unpack bytes) >>;
  let+ ctx := get_state in
  let+ v :=
    match decode_packed bytes with
    | Done mich => ok (typecheck_value (tc_env ctx) fuel mich ty)
    | Error _ => ret None
    | Panics p => panic p
    | NoFuel => no_fuel
    end in
  ret (VOption v :: s).

(** ** Cryptography *)
Definition op_check_signature (s : IStack) : I IStack :=
  let+ (key, s) := pop_as as_key s in
  let+ (sig, s) := pop_as as_signature s in
  let+ (msg, s) := pop_as as_bytes s in
  charge (interpret_cost.check_signature key msg) >>;
  ret (VBool (signature_check sig key msg) :: s).

Definition op_hash_key (s : IStack) : I IStack :=
  consume interpret_cost.HASH_KEY >>;
  let+ (key, s) := pop_as as_key s in ret (VKeyHash (key_hash_of key) :: s).

(** [BLAKE2B], [KECCAK], [SHA256], [SHA3], [SHA512]. *)
Definition op_hash (cost : list Z -> Res OutOfGas Z) (hash : list Z -> list Z) (s : IStack) : I IStack :=
  let+ (msg, s) := top_as as_bytes s in
  charge (cost msg) >>; ret (VBytes (hash msg) :: s).

Definition as_g1_g2 (v : TypedValue) : option (G1 * G2) :=
  match v with VPair (VBls12381G1 a) (VBls12381G2 b) => Some (a, b) | _ => None end.

Definition op_pairing_check (s : IStack) : I IStack :=
  let+ (l, s) := pop_as as_list s in
  charge (interpret_cost.pairing_check (len l)) >>;
  let+ it := the_all as_g1_g2 l in
  ret (VBool (pairing_check it) :: s).

(** ** Contracts and operations *)
Definition op_transfer_tokens (s : IStack) : I IStack :=
  let+ (param, s) := pop s in
  let+ (mutez_amount, s) := pop_as as_mutez s in
  let+ (contract_address, s) := pop_as as_contract s in
  let+ counter := operation_counter in
  consume interpret_cost.TRANSFER_TOKENS >>;
  ret (VOperation (TransferTokens param contract_address mutez_amount) counter :: s).

(** The optional key hash of [SET_DELEGATE] and [CREATE_CONTRACT]. *)
Definition the_key_hash (o : option TypedValue) : I (option KeyHash) :=
  match o with Some v => let+ k := the as_key_hash v in ret (Some k) | None => ret None end.

Definition op_set_delegate (s : IStack) : I IStack :=
  let+ (o, s) := pop_as as_option s in
  let+ opt_keyhash := the_key_hash o in
  let+ counter := operation_counter in
  consume interpret_cost.SET_DELEGATE >>;
  ret (VOperation (SetDelegate opt_keyhash) counter :: s).

Definition op_address (s : IStack) : I IStack :=
  consume interpret_cost.ADDRESS >>;
  let+ (address, s) := pop_as as_contract s in ret (VAddress address :: s).

Definition op_contract (typ : Ty) (ep : Entrypoint) (s : IStack) : I IStack :=
  consume interpret_cost.CONTRACT >>;
  let+ (address, s) := pop_as as_address s in
  let+ ctx := get_state in
  let+ r := ok (typecheck_contract_address (tc_env ctx) address ep typ) in
  ret (VOption (option_map VContract r) :: s).

Definition op_implicit_account (s : IStack) : I IStack :=
  consume interpret_cost.IMPLICIT_ACCOUNT >>;
  let+ (keyhash, s) := pop_as as_key_hash s in
  ret (VContract (mkAddress (Implicit keyhash) DEFAULT_EP_NAME) :: s).

Definition op_voting_power (s : IStack) : I IStack :=
  consume interpret_cost.VOTING_POWER >>;
  let+ (keyhash, s) := pop_as as_key_hash s in
  let+ ctx := get_state in
  ret (VNat (voting_powers ctx keyhash) :: s).

Definition op_emit (tag : option string) (arg_ty : Or Ty Micheline) (s : IStack) : I IStack :=
  let+ counter := operation_counter in
  let+ (emit_val, s) := pop s in
  consume interpret_cost.EMIT >>;
  ret (VOperation (Emit tag emit_val arg_ty) counter :: s).

(** [compute_contract_address]: the operation group hash and the index, little-endian. *)
Definition compute_contract_address (operation_group_hash : list Z) (o_index : Z) : I Address :=
  let input := operation_group_hash ++ le_bytes 4 o_index in
  let+ h := lift (res_option (hash_try_from_bytes ContractKt1Hash (blake2b_digest input 20)) UnwrapFailed) in
  ret (mkAddress (Kt1 h) DEFAULT_EP_NAME).

Definition op_create_contract (cs : ContractScript) (micheline : Micheline) (s : IStack) : I IStack :=
  consume interpret_cost.CREATE_CONTRACT >>;
  let+ counter := operation_counter in
  let+ (o, s) := pop_as as_option s in
  let+ opt_keyhash := the_key_hash o in
  let+ (amt, s) := pop_as as_mutez s in
  let+ (stor, s) := pop s in
  let+ origination := origination_counter in
  let+ ctx := get_state in
  let+ address := compute_contract_address (operation_group_hash ctx) origination in
  ret (VOperation (CreateContract opt_keyhash amt stor cs micheline) counter :: VAddress address :: s).

(** ** Lambdas *)
Definition op_apply (arg_ty : Ty) (s : IStack) : I IStack :=
  let+ (arg_val, s) := pop s in
  let+ (closure, s) := pop_as as_lambda s in
  consume interpret_cost.APPLY >>;
  ret (VLambda (CApply arg_ty arg_val closure) :: s).

(** The loop of [EXEC] through partial applications: the lambda and its whole argument. *)
Fixpoint unfold_closure (closure : Closure) (arg : TypedValue) : I (Lambda * TypedValue) :=
  match closure with
  | CLambda lam => ret (lam, arg)
  | CApply _ arg_val inner =>
      consume interpret_cost.PAIR >>; unfold_closure inner (VPair arg_val arg)
  end.

(** [run] interprets the code of a lambda. *)
Definition op_exec (run : list Instruction -> IStack -> I IStack) (s : IStack) : I IStack :=
  consume interpret_cost.EXEC >>;
  let+ (arg, s) := pop s in
  let+ (closure, s) := pop_as as_lambda s in
  let+ (lam, arg) := unfold_closure closure arg in
  let+ res_stk := run (lambda_code lam)
                    match lam with
                    | LambdaRec _ _ _ _ => [arg; VLambda (CLambda lam)]
                    | Lambda_ _ _ => [arg]
                    end in
  let+ (res, _) := pop res_stk in
  ret (res :: s).

(** ** Tickets *)
Definition op_ticket (s : IStack) : I IStack :=
  let+ (content, s) := pop s in
  let+ (amount, s) := pop_as as_nat s in
  consume interpret_cost.TICKET >>;
  let+ ctx := get_state in
  ret ((if (amount =? 0)%N then VOption None
        else VOption (Some (VTicket (mkTicket (self_address ctx) content amount)))) :: s).

Definition op_read_ticket (s : IStack) : I IStack :=
  consume interpret_cost.READ_TICKET >>;
  let+ (t, _) := top_as as_ticket s in ret (unwrap_ticket t :: s).

Definition op_split_ticket (s : IStack) : I IStack :=
  let+ (ticket, s) := pop_as as_ticket s in
  let+ (amounts, s) := pop_as as_pair s in
  let+ amount_left := the as_nat amounts.1 in
  let+ amount_right := the as_nat amounts.2 in
  charge interpret_cost.split_ticket >>;
  ret ((if (amount_left + amount_right =? tk_amount ticket)%N && (0 <? amount_left)%N && (0 <? amount_right)%N
        then VOption (Some (VPair
               (VTicket (mkTicket (tk_ticketer ticket) (tk_content ticket) amount_left))
               (VTicket (mkTicket (tk_ticketer ticket) (tk_content ticket) amount_right))))
        else VOption None) :: s).

Definition op_join_tickets (s : IStack) : I IStack :=
  let+ (tickets, s) := pop_as as_pair s in
  let+ ticket_left := the as_ticket tickets.1 in
  let+ ticket_right := the as_ticket tickets.2 in
  charge (interpret_cost.join_tickets ticket_left ticket_right) >>;
  ret ((if bool_decide (tk_content ticket_left = tk_content ticket_right)
           && bool_decide (tk_ticketer ticket_left = tk_ticketer ticket_right)
        then VOption (Some (VTicket (mkTicket (tk_ticketer ticket_left) (tk_content ticket_left)
               (tk_amount ticket_left + tk_amount ticket_right))))
        else VOption None) :: s).

End Ops.
Abbreviation IStack := (list TypedValue).
End MirOps.
Export MirOps.
