(* ===== verification/MirInterp.v ===== *)
(** The Michelson interpreter ([src/contrib/mir/src/interpreter.rs]): [interpret_one],
    [interpret] and [ContractScript::interpret], over the instructions of [MirOps].

    Nested blocks are interpreted by structural recursion.  [fuel] bounds what the structure
    does not: the iterations of a [LOOP], the depth of [EXEC] and of the typechecking of an
    unpacked value. *)

From stdpp Require Import strings.
From S2P Require Import Prelude MirAst MirGas MirStack MirCompare MirExtern MirSerial MirCtx MirTypes MirTcInstr MirTypecheck MirOps.

Open Scope Z_scope.

Module MirInterp.
Section Interp.
Context {Bls : BlsTypes} {X : Extern} {St : Type} {LS : LazyStorage St}.
Abbreviation I := (M (Ctx St) InterpretError).

(** [interpret]: the instructions of a block in order, then the cost of returning. *)
Section Block.
Variable one : Instruction -> IStack -> I IStack.

Fixpoint interpret (ast : list Instruction) (s : IStack) : I IStack :=
  match ast with
  | [] => consume interpret_cost.INTERPRET_RET >>; ret s
  | i :: ast => let+ s := one i s in interpret ast s
  end.
End Block.

Section One.
Variable fuel : nat.
(** The interpretation of the code of a lambda. *)
Variable run : list Instruction -> IStack -> I IStack.

Fixpoint interpret_one (i : Instruction) (s : IStack) : I IStack :=
  let block := interpret interpret_one in
  match i with
  | IAdd o => op_add o s
  | IMul o => op_mul o s
  | INeg o => op_neg o s
  | ISubMutez => op_sub_mutez s
  | IAnd o => op_and o s
  | IOr o => op_or o s
  | IXor o => op_xor o s
  | INot o => op_not o s
  | IDip h nested => op_dip h (block nested) s
  | IDrop h => op_drop h s
  | IDup h => op_dup h s
  | IDig n => op_dig n s
  | IDug n => op_dug n s
  | IGt => op_cmp_zero interpret_cost.GT (fun i => 0 <? i) s
  | IGe => op_cmp_zero interpret_cost.GE (fun i => 0 <=? i) s
  | IEq => op_cmp_zero interpret_cost.EQ (fun i => i =? 0) s
  | INeq => op_cmp_zero interpret_cost.NEQ (fun i => negb (i =? 0)) s
  | ILe => op_cmp_zero interpret_cost.LE (fun i => i <=? 0) s
  | ILt => op_cmp_zero interpret_cost.LT (fun i => i <? 0) s
  | IIf t f => op_if (block t) (block f) s
  | IIfNone n sm => op_if_none (block n) (block sm) s
  | IIfCons c n => op_if_cons (block c) (block n) s
  | IIfLeft l r => op_if_left (block l) (block r) s
  | IAbs => op_abs s
  | IIsNat => op_is_nat s
  | IInt o => op_int o s
  | INat => op_nat s
  | IBytes o => op_bytes o s
  | ILoop nested => op_loop fuel (block nested) s
  | ILoopLeft nested => op_loop_left fuel (block nested) s
  | IIter o nested => op_iter o (block nested) s
  | IMap o nested => op_map o (block nested) s
  | IPush v => op_push v s
  | ISwap => op_swap s
  | IFailwith ty => op_failwith ty s
  | INever => panic UnreachableState
  | IUnit => op_constant interpret_cost.UNIT (fun _ => VUnit) s
  | ICar => op_car s
  | ICdr => op_cdr s
  | IPair => op_pair s
  | IPairN n => op_pair_n n s
  | IUnpair => op_unpair s
  | IUnpairN n => op_unpair_n n s
  | ISome_ => op_some s
  | INone => op_constant interpret_cost.NONE (fun _ => VOption None) s
  | ICompare => op_compare s
  | IAmount => op_constant interpret_cost.AMOUNT (fun ctx => VMutez (amount ctx)) s
  | INil => op_constant interpret_cost.NIL (fun _ => VList []) s
  | ICons => op_cons s
  | IConcat o => op_concat o s
  | IEmptySet => op_constant interpret_cost.EMPTY_SET (fun _ => VSet []) s
  | IEmptyBigMap kty vty =>
      op_constant interpret_cost.EMPTY_BIG_MAP (fun _ => VBigMap (mkBigMap None [] kty vty)) s
  | IMem o => op_mem o s
  | IGet o => op_get o s
  | IGetN n => op_get_n n s
  | IUpdate o => op_update o s
  | IGetAndUpdate o => op_get_and_update o s
  | ISize o => op_size o s
  | IUpdateN n => op_update_n n s
  | IChainId => op_constant interpret_cost.CHAIN_ID (fun ctx => VChainId (chain_id ctx)) s
  | ISelf ep =>
      op_constant interpret_cost.SELF (fun ctx => VContract (mkAddress (self_address ctx) ep)) s
  | IPack => op_pack s
  | IUnpack ty => op_unpack fuel ty s
  | ICheckSignature => op_check_signature s
  | ITransferTokens => op_transfer_tokens s
  | ISetDelegate => op_set_delegate s
  | IAddress => op_address s
  | ISlice o => op_slice o s
  | ILeft => op_left s
  | IRight => op_right s
  | ILambda lam => op_constant interpret_cost.LAMBDA (fun _ => VLambda (CLambda lam)) s
  | IExec => op_exec run s
  | IApply arg_ty => op_apply arg_ty s
  | IHashKey => op_hash_key s
  | ITicket => op_ticket s
  | IReadTicket => op_read_ticket s
  | ISplitTicket => op_split_ticket s
  | IJoinTickets => op_join_tickets s
  | IBlake2b => op_hash interpret_cost.blake2b blake2b_256 s
  | IKeccak => op_hash interpret_cost.keccak keccak256 s
  | ISha256 => op_hash interpret_cost.sha256 sha256 s
  | ISha3 => op_hash interpret_cost.sha3 sha3_256 s
  | ISha512 => op_hash interpret_cost.sha512 sha512 s
  | IBalance => op_constant interpret_cost.BALANCE (fun ctx => VMutez (balance ctx)) s
  | IContract typ ep => op_contract typ ep s
  | ILevel => op_constant interpret_cost.LEVEL (fun ctx => VNat (level ctx)) s
  | IMinBlockTime =>
      op_constant interpret_cost.MIN_BLOCK_TIME (fun ctx => VNat (min_block_time ctx)) s
  | ISelfAddress =>
      op_constant interpret_cost.SELF_ADDRESS
        (fun ctx => VAddress (mkAddress (self_address ctx) DEFAULT_EP_NAME)) s
  | ISender =>
      op_constant interpret_cost.SENDER
        (fun ctx => VAddress (mkAddress (sender ctx) DEFAULT_EP_NAME)) s
  | ISource =>
      op_constant interpret_cost.SOURCE
        (fun ctx => VAddress (mkAddress (source ctx) DEFAULT_EP_NAME)) s
  | INow => op_constant interpret_cost.NOW (fun ctx => VTimestamp (now ctx)) s
  | IImplicitAccount => op_implicit_account s
  | IVotingPower => op_voting_power s
  | ITotalVotingPower =>
      op_constant interpret_cost.TOTAL_VOTING_POWER (fun ctx => VNat (total_voting_power ctx)) s
  | IEmit tag arg_ty => op_emit tag arg_ty s
  | IPairingCheck => op_pairing_check s
  | ICreateContract cs micheline => op_create_contract cs micheline s
  | ISeq nested => block nested s
  end.
End One.

(** [Instruction::interpret]: the lambdas of [EXEC] run with less fuel. *)
Fixpoint instruction_interpret (fuel : nat) : Instruction -> IStack -> I IStack :=
  match fuel with
  | O => fun _ _ => no_fuel
  | S n => interpret_one fuel (interpret (instruction_interpret n))
  end.

(** ** Contracts *)
Inductive ContractInterpretError : Type :=
| CTcError (e : TcError)
| CInterpretError (e : InterpretError).

(** [typecheck_value(&v, ctx, ty)?] *)
Definition typecheck_input (fuel : nat) (v : Micheline) (ty : Ty) : M (Ctx St) ContractInterpretError TypedValue :=
  let+ ctx := get_state in
  map_err CTcError (on_gas (typecheck_value (tc_env ctx) fuel v ty)).

(** [ContractScript::interpret], with the operations of the returned iterator. *)
Definition contract_interpret (fuel : nat) (cs : ContractScript) (parameter storage : Micheline) : M (Ctx St) ContractInterpretError (list (Operation * Z) * TypedValue) :=
  let+ parameter := typecheck_input fuel parameter (cs_parameter cs) in
  let+ storage := typecheck_input fuel storage (cs_storage cs) in
  let+ stack := map_err CInterpretError
                  (instruction_interpret fuel (cs_code cs) [VPair parameter storage]) in
  match stack with
  | VPair (VList vec) storage :: _ =>
      let+ operations := map_err CInterpretError (the_all as_operation vec) in
      ret (operations, storage)
  | [] => panic UnwrapFailed
  | _ => panic UnreachableState
  end.

End Interp.
End MirInterp.
Export MirInterp.
