(* ===== verification/MirTyping.v ===== *)
(** The type system of Michelson, stated apart from the typechecker: which values have which
    type, and which stacks an instruction maps to which stacks.

    The relations are parametrised by the big map storage, which gives the types of the
    entries of a stored big map, and by what code may do ([Features]).  An instruction that
    always fails has every result stack. *)

From Stdlib Require Import Sorted.
From stdpp Require Import strings.
From S2P Require Import Prelude MirAst MirGas MirStack MirCompare MirCtx MirTypes MirTcInstr.

Open Scope Z_scope.

Module MirTyping.

#[local] Set Warnings "-register-all".

(** ** Type properties *)
Fixpoint has_prop (p : TypeProperty) (t : Ty) : bool :=
  match t with
  | TNat | TInt | TBool | TMutez | TString | TUnit | TNever | TAddress | TChainId | TBytes
  | TKey | TSignature | TKeyHash | TTimestamp => true
  | TTicket _ => match p with Passable | Storable | BigMapValue => true | _ => false end
  | TBls12381Fr | TBls12381G1 | TBls12381G2 => match p with Comparable => false | _ => true end
  | TOperation => match p with Duplicable => true | _ => false end
  | TPair l r | TOr l r => has_prop p l && has_prop p r
  | TOption x => has_prop p x
  | TList x | TSet x => match p with Comparable => false | _ => has_prop p x end
  | TMap _ v => match p with Comparable => false | _ => has_prop p v end
  | TBigMap _ v => match p with Passable | Storable | Duplicable => has_prop p v | _ => false end
  | TContract _ => match p with Passable | Packable | Duplicable => true | _ => false end
  | TLambda _ _ => match p with Comparable => false | _ => true end
  end.

Definition comparable (t : Ty) : bool := has_prop Comparable t.

(** The types the parser accepts: keys and ticket contents are comparable. *)
Fixpoint wf_ty (t : Ty) : bool :=
  match t with
  | TPair l r | TOr l r | TLambda l r => wf_ty l && wf_ty r
  | TOption t | TList t | TContract t => wf_ty t
  | TSet k => comparable k && wf_ty k
  | TMap k v | TBigMap k v => comparable k && wf_ty k && wf_ty v
  | TTicket t => comparable t && wf_ty t
  | _ => true
  end.

(** ** What code may do *)

(** [dynamic]: typecheck at run time ([UNPACK], [CONTRACT]).  [any_ticket]: make tickets with
    contents that cannot be compared, which the typechecker lets [TICKET] do.  Unpacked code
    may do both. *)
Record Features : Type := mkFeatures {
  dynamic : Prop;
  any_ticket : Prop;
  dynamic_any_ticket : dynamic -> any_ticket
}.

Definition strict : Features := mkFeatures False False (fun H => H).
Definition full : Features := mkFeatures True True (fun H => H).

(** The instructions of a piece of Micheline. *)
Fixpoint mentions (f : Prim.Prim -> bool) (m : Micheline) : bool :=
  match m with
  | MApp p args _ => f p || existsb (mentions f) args
  | MSeq ms => existsb (mentions f) ms
  | _ => false
  end.

Definition is_dynamic (p : Prim.Prim) : bool :=
  match p with Prim.UNPACK | Prim.CONTRACT => true | _ => false end.
Definition is_ticket (p : Prim.Prim) : bool := match p with Prim.TICKET => true | _ => false end.

(** Code that keeps to what it may do. *)
Definition allows (F : Features) (m : Micheline) : Prop :=
  (mentions is_dynamic m = true -> dynamic F) /\ (mentions is_ticket m = true -> any_ticket F).

Definition mutez_range (z : Z) : Prop := 0 <= z < 2 ^ 63.

Section Typing.
Context {Bls : BlsTypes} {St : Type} {LS : LazyStorage St} (F : Features) (st : St).

Definition key_lt (a b : TypedValue) : Prop := partial_cmp a b = Some Lt.
Definition sorted_keys (ks : list TypedValue) : Prop := StronglySorted key_lt ks.

(** The instructions whose types do not depend on the stack: what they take and leave. *)
Definition mono_sig (i : Instruction) : option (list Ty * list Ty) :=
  match i with
  | IAdd o => Some match o with
      | Add_IntInt => ([TInt; TInt], [TInt])
      | Add_NatNat => ([TNat; TNat], [TNat])
      | Add_IntNat => ([TInt; TNat], [TInt])
      | Add_NatInt => ([TNat; TInt], [TInt])
      | Add_MutezMutez => ([TMutez; TMutez], [TMutez])
      | Add_Bls12381Fr => ([TBls12381Fr; TBls12381Fr], [TBls12381Fr])
      | Add_Bls12381G1 => ([TBls12381G1; TBls12381G1], [TBls12381G1])
      | Add_Bls12381G2 => ([TBls12381G2; TBls12381G2], [TBls12381G2])
      end
  | IMul o => Some match o with
      | Mul_NatNat => ([TNat; TNat], [TNat])
      | Mul_NatInt => ([TNat; TInt], [TInt])
      | Mul_IntNat => ([TInt; TNat], [TInt])
      | Mul_IntInt => ([TInt; TInt], [TInt])
      | Mul_MutezNat => ([TMutez; TNat], [TMutez])
      | Mul_NatMutez => ([TNat; TMutez], [TMutez])
      | Mul_Bls12381G1Bls12381Fr => ([TBls12381G1; TBls12381Fr], [TBls12381G1])
      | Mul_Bls12381G2Bls12381Fr => ([TBls12381G2; TBls12381Fr], [TBls12381G2])
      | Mul_Bls12381FrBls12381Fr => ([TBls12381Fr; TBls12381Fr], [TBls12381Fr])
      | Mul_NatBls12381Fr => ([TNat; TBls12381Fr], [TBls12381Fr])
      | Mul_IntBls12381Fr => ([TInt; TBls12381Fr], [TBls12381Fr])
      | Mul_Bls12381FrNat => ([TBls12381Fr; TNat], [TBls12381Fr])
      | Mul_Bls12381FrInt => ([TBls12381Fr; TInt], [TBls12381Fr])
      end
  | INeg o => Some match o with
      | Neg_Nat => ([TNat], [TInt])
      | Neg_Int => ([TInt], [TInt])
      | Neg_Bls12381G1 => ([TBls12381G1], [TBls12381G1])
      | Neg_Bls12381G2 => ([TBls12381G2], [TBls12381G2])
      | Neg_Bls12381Fr => ([TBls12381Fr], [TBls12381Fr])
      end
  | ISubMutez => Some ([TMutez; TMutez], [TOption TMutez])
  | IAnd o => Some match o with
      | And_Bool => ([TBool; TBool], [TBool])
      | And_NatNat => ([TNat; TNat], [TNat])
      | And_IntNat => ([TInt; TNat], [TNat])
      | And_Bytes => ([TBytes; TBytes], [TBytes])
      end
  | IOr o => Some match o with
      | Or_Bool => ([TBool; TBool], [TBool])
      | Or_Nat => ([TNat; TNat], [TNat])
      | Or_Bytes => ([TBytes; TBytes], [TBytes])
      end
  | IXor o => Some match o with
      | Xor_Bool => ([TBool; TBool], [TBool])
      | Xor_Nat => ([TNat; TNat], [TNat])
      | Xor_Bytes => ([TBytes; TBytes], [TBytes])
      end
  | INot o => Some match o with
      | Not_Bool => ([TBool], [TBool])
      | Not_Nat => ([TNat], [TInt])
      | Not_Int => ([TInt], [TInt])
      | Not_Bytes => ([TBytes], [TBytes])
      end
  | IGt | IGe | IEq | INeq | ILt | ILe => Some ([TInt], [TBool])
  | IAbs => Some ([TInt], [TNat])
  | IIsNat => Some ([TInt], [TOption TNat])
  | IInt o => Some match o with
      | Int_Nat => ([TNat], [TInt])
      | Int_Bls12381Fr => ([TBls12381Fr], [TInt])
      | Int_Bytes => ([TBytes], [TInt])
      end
  | INat => Some ([TBytes], [TNat])
  | IBytes o => Some match o with
      | Bytes_Nat => ([TNat], [TBytes])
      | Bytes_Int => ([TInt], [TBytes])
      end
  | IUnit => Some ([], [TUnit])
  | IAmount | IBalance => Some ([], [TMutez])
  | IConcat o => Some match o with
      | Concat_TwoStrings => ([TString; TString], [TString])
      | Concat_TwoBytes => ([TBytes; TBytes], [TBytes])
      | Concat_ListOfStrings => ([TList TString], [TString])
      | Concat_ListOfBytes => ([TList TBytes], [TBytes])
      end
  | ISlice o => Some match o with
      | Slice_String => ([TNat; TNat; TString], [TOption TString])
      | Slice_Bytes => ([TNat; TNat; TBytes], [TOption TBytes])
      end
  | ISize Size_String => Some ([TString], [TNat])
  | ISize Size_Bytes => Some ([TBytes], [TNat])
  | IChainId => Some ([], [TChainId])
  | ICheckSignature => Some ([TKey; TSignature; TBytes], [TBool])
  | ISetDelegate => Some ([TOption TKeyHash], [TOperation])
  | IHashKey => Some ([TKey], [TKeyHash])
  | IBlake2b | IKeccak | ISha256 | ISha3 | ISha512 => Some ([TBytes], [TBytes])
  | ILevel | IMinBlockTime | ITotalVotingPower => Some ([], [TNat])
  | ISelfAddress | ISender | ISource => Some ([], [TAddress])
  | INow => Some ([], [TTimestamp])
  | IImplicitAccount => Some ([TKeyHash], [TContract TUnit])
  | IVotingPower => Some ([TKeyHash], [TNat])
  | IPairingCheck => Some ([TList (TPair TBls12381G1 TBls12381G2)], [TBool])
  | _ => None
  end.

(** ** Values *)
Inductive value_typed : TypedValue -> Ty -> Prop :=
| VT_Int z : value_typed (VInt z) TInt
| VT_Nat n : value_typed (VNat n) TNat
| VT_Mutez z : mutez_range z -> value_typed (VMutez z) TMutez
| VT_Bool b : value_typed (VBool b) TBool
| VT_String s : value_typed (VString s) TString
| VT_Unit : value_typed VUnit TUnit
| VT_Pair l r tl tr : value_typed l tl -> value_typed r tr -> value_typed (VPair l r) (TPair tl tr)
| VT_None t : value_typed (VOption None) (TOption t)
| VT_Some v t : value_typed v t -> value_typed (VOption (Some v)) (TOption t)
| VT_List l t : Forall (fun v => value_typed v t) l -> value_typed (VList l) (TList t)
| VT_Set l t :
    comparable t = true -> sorted_keys l -> Forall (fun v => value_typed v t) l ->
    value_typed (VSet l) (TSet t)
| VT_Map m tk tv :
    comparable tk = true -> sorted_keys (m.*1) ->
    Forall (fun e => value_typed e.1 tk /\ value_typed e.2 tv) m ->
    value_typed (VMap m) (TMap tk tv)
| VT_BigMap id overlay tk tv :
    comparable tk = true -> sorted_keys (overlay.*1) ->
    Forall (fun e => value_typed e.1 tk /\ value_typed (VOption e.2) (TOption tv)) overlay ->
    (forall i, id = Some i -> big_map_get_type st i = Done (Some (tk, tv))) ->
    value_typed (VBigMap (mkBigMap id overlay tk tv)) (TBigMap tk tv)
| VT_Left v tl tr : value_typed v tl -> value_typed (VOr (Left v)) (TOr tl tr)
| VT_Right v tl tr : value_typed v tr -> value_typed (VOr (Right v)) (TOr tl tr)
| VT_Address a : value_typed (VAddress a) TAddress
| VT_ChainId c : value_typed (VChainId c) TChainId
| VT_Contract a t : value_typed (VContract a) (TContract t)
| VT_Bytes bs : value_typed (VBytes bs) TBytes
| VT_Key k : value_typed (VKey k) TKey
| VT_Signature s : value_typed (VSignature s) TSignature
| VT_Lambda c a b : closure_typed c a b -> value_typed (VLambda c) (TLambda a b)
| VT_KeyHash k : value_typed (VKeyHash k) TKeyHash
| VT_Operation o n : operation_typed o -> value_typed (VOperation o n) TOperation
| VT_Ticket h c n t :
    comparable t = true \/ any_ticket F -> value_typed c t ->
    value_typed (VTicket (mkTicket h c n)) (TTicket t)
| VT_Timestamp z : value_typed (VTimestamp z) TTimestamp
| VT_Fr x : value_typed (VBls12381Fr x) TBls12381Fr
| VT_G1 x : value_typed (VBls12381G1 x) TBls12381G1
| VT_G2 x : value_typed (VBls12381G2 x) TBls12381G2

with operation_typed : Operation -> Prop :=
| OT_Transfer p t a amt :
    value_typed p t -> mutez_range amt -> operation_typed (TransferTokens p a amt)
| OT_SetDelegate k : operation_typed (SetDelegate k)
| OT_Emit tag v t arg_ty : value_typed v t -> operation_typed (Emit tag v arg_ty)
| OT_Create d amt s cs m :
    mutez_range amt -> script_typed cs -> value_typed s (cs_storage cs) ->
    operation_typed (CreateContract d amt s cs m)

with script_typed : ContractScript -> Prop :=
| ST_Script p s i :
    instr_typed i [TPair p s] [TPair (TList TOperation) s] -> script_typed (mkContractScript p s i)

with lambda_typed : Lambda -> Ty -> Ty -> Prop :=
| LT_Lambda m code a b : block_typed code [a] [b] -> lambda_typed (Lambda_ m code) a b
| LT_Rec m code a b :
    block_typed code [a; TLambda a b] [b] -> lambda_typed (LambdaRec a b m code) a b

with closure_typed : Closure -> Ty -> Ty -> Prop :=
| CT_Lambda l a b : lambda_typed l a b -> closure_typed (CLambda l) a b
| CT_Apply v t c a b :
    value_typed v t -> closure_typed c (TPair t a) b -> closure_typed (CApply t v c) a b

(** ** Instructions: stacks are listed from the top. *)
with instr_typed : Instruction -> list Ty -> list Ty -> Prop :=
| IT_Mono i ins outs A : mono_sig i = Some (ins, outs) -> instr_typed i (ins ++ A) (outs ++ A)
| IT_Dip n body P A B :
    length P = default 1%nat n -> block_typed body A B -> instr_typed (IDip n body) (P ++ A) (P ++ B)
| IT_Drop n P A : length P = default 1%nat n -> instr_typed (IDrop n) (P ++ A) A
| IT_Dup n k t A :
    default 1%nat n = S k -> A !! k = Some t -> has_prop Duplicable t = true ->
    instr_typed (IDup n) A (t :: A)
| IT_Dig n P t A : length P = n -> instr_typed (IDig n) (P ++ t :: A) (t :: P ++ A)
| IT_Dug n P t A : length P = n -> instr_typed (IDug n) (t :: P ++ A) (P ++ t :: A)
| IT_Dig0 : instr_typed (IDig 0) [] []
| IT_Dug0 : instr_typed (IDug 0) [] []
| IT_If bt bf A B :
    block_typed bt A B -> block_typed bf A B -> instr_typed (IIf bt bf) (TBool :: A) B
| IT_IfNone bn bs t A B :
    block_typed bn A B -> block_typed bs (t :: A) B -> instr_typed (IIfNone bn bs) (TOption t :: A) B
| IT_IfCons bc bn t A B :
    block_typed bc (t :: TList t :: A) B -> block_typed bn A B ->
    instr_typed (IIfCons bc bn) (TList t :: A) B
| IT_IfLeft bl br tl tr A B :
    block_typed bl (tl :: A) B -> block_typed br (tr :: A) B ->
    instr_typed (IIfLeft bl br) (TOr tl tr :: A) B
| IT_Loop body A : block_typed body A (TBool :: A) -> instr_typed (ILoop body) (TBool :: A) A
| IT_LoopLeft body tl tr A :
    block_typed body (tl :: A) (TOr tl tr :: A) ->
    instr_typed (ILoopLeft body) (TOr tl tr :: A) (tr :: A)
| IT_IterList body t A : block_typed body (t :: A) A -> instr_typed (IIter Iter_List body) (TList t :: A) A
| IT_IterSet body t A : block_typed body (t :: A) A -> instr_typed (IIter Iter_Set body) (TSet t :: A) A
| IT_IterMap body k v A :
    block_typed body (TPair k v :: A) A -> instr_typed (IIter Iter_Map body) (TMap k v :: A) A
| IT_MapList body t u A :
    block_typed body (t :: A) (u :: A) -> instr_typed (IMap Map_List body) (TList t :: A) (TList u :: A)
| IT_MapOption body t u A :
    block_typed body (t :: A) (u :: A) ->
    instr_typed (IMap Map_Option body) (TOption t :: A) (TOption u :: A)
| IT_MapMap body k v u A :
    block_typed body (TPair k v :: A) (u :: A) ->
    instr_typed (IMap Map_Map body) (TMap k v :: A) (TMap k u :: A)
| IT_Push v t A : value_typed v t -> instr_typed (IPush v) A (t :: A)
| IT_Swap a b A : instr_typed ISwap (a :: b :: A) (b :: a :: A)
| IT_Failwith t A B : instr_typed (IFailwith t) (t :: A) B
| IT_Never A B : instr_typed INever (TNever :: A) B
| IT_Car l r A : instr_typed ICar (TPair l r :: A) (l :: A)
| IT_Cdr l r A : instr_typed ICdr (TPair l r :: A) (r :: A)
| IT_Pair l r A : instr_typed IPair (l :: r :: A) (TPair l r :: A)
| IT_PairN P t A : comb TPair P = Some t -> instr_typed (IPairN (length P)) (P ++ A) (t :: A)
| IT_Unpair l r A : instr_typed IUnpair (TPair l r :: A) (l :: r :: A)
| IT_UnpairN P t A : comb TPair P = Some t -> instr_typed (IUnpairN (length P)) (t :: A) (P ++ A)
| IT_Some t A : instr_typed ISome_ (t :: A) (TOption t :: A)
| IT_None t A : instr_typed INone A (TOption t :: A)
| IT_Compare t A : comparable t = true -> instr_typed ICompare (t :: t :: A) (TInt :: A)
| IT_Nil t A : instr_typed INil A (TList t :: A)
| IT_Cons t A : instr_typed ICons (t :: TList t :: A) (TList t :: A)
| IT_EmptySet t A : comparable t = true -> instr_typed IEmptySet A (TSet t :: A)
| IT_EmptyBigMap k v A : comparable k = true -> instr_typed (IEmptyBigMap k v) A (TBigMap k v :: A)
| IT_MemSet t A : instr_typed (IMem Mem_Set) (t :: TSet t :: A) (TBool :: A)
| IT_MemMap k v A : instr_typed (IMem Mem_Map) (k :: TMap k v :: A) (TBool :: A)
| IT_MemBigMap k v A : instr_typed (IMem Mem_BigMap) (k :: TBigMap k v :: A) (TBool :: A)
| IT_GetMap k v A : instr_typed (IGet Get_Map) (k :: TMap k v :: A) (TOption v :: A)
| IT_GetBigMap k v A : instr_typed (IGet Get_BigMap) (k :: TBigMap k v :: A) (TOption v :: A)
| IT_GetN n t f put A : ty_nth_field n t = Ok (f, put) -> instr_typed (IGetN n) (t :: A) (f :: A)
| IT_UpdateSet t A : instr_typed (IUpdate Update_Set) (t :: TBool :: TSet t :: A) (TSet t :: A)
| IT_UpdateMap k v A :
    instr_typed (IUpdate Update_Map) (k :: TOption v :: TMap k v :: A) (TMap k v :: A)
| IT_UpdateBigMap k v A :
    instr_typed (IUpdate Update_BigMap) (k :: TOption v :: TBigMap k v :: A) (TBigMap k v :: A)
| IT_UpdateN n t f put new A :
    ty_nth_field n t = Ok (f, put) -> instr_typed (IUpdateN n) (new :: t :: A) (put new :: A)
| IT_GetAndUpdateMap k v A :
    instr_typed (IGetAndUpdate GetAndUpdate_Map) (k :: TOption v :: TMap k v :: A)
      (TOption v :: TMap k v :: A)
| IT_GetAndUpdateBigMap k v A :
    instr_typed (IGetAndUpdate GetAndUpdate_BigMap) (k :: TOption v :: TBigMap k v :: A)
      (TOption v :: TBigMap k v :: A)
| IT_SizeList t A : instr_typed (ISize Size_List) (TList t :: A) (TNat :: A)
| IT_SizeSet t A : instr_typed (ISize Size_Set) (TSet t :: A) (TNat :: A)
| IT_SizeMap k v A : instr_typed (ISize Size_Map) (TMap k v :: A) (TNat :: A)
| IT_Seq body A B : block_typed body A B -> instr_typed (ISeq body) A B
| IT_Self ep t A : instr_typed (ISelf ep) A (TContract t :: A)
| IT_Address t A : instr_typed IAddress (TContract t :: A) (TAddress :: A)
| IT_Pack t A : has_prop Packable t = true -> instr_typed IPack (t :: A) (TBytes :: A)
| IT_Unpack t A :
    dynamic F -> wf_ty t = true -> instr_typed (IUnpack t) (TBytes :: A) (TOption t :: A)
| IT_TransferTokens t A :
    instr_typed ITransferTokens (t :: TMutez :: TContract t :: A) (TOperation :: A)
| IT_Left l r A : instr_typed ILeft (l :: A) (TOr l r :: A)
| IT_Right l r A : instr_typed IRight (r :: A) (TOr l r :: A)
| IT_Lambda l a b A : lambda_typed l a b -> instr_typed (ILambda l) A (TLambda a b :: A)
| IT_Exec a b A : instr_typed IExec (a :: TLambda a b :: A) (b :: A)
| IT_Apply t a b A : instr_typed (IApply t) (t :: TLambda (TPair t a) b :: A) (TLambda a b :: A)
| IT_Ticket t A :
    comparable t = true \/ any_ticket F -> instr_typed ITicket (t :: TNat :: A) (TOption (TTicket t) :: A)
| IT_ReadTicket t A :
    instr_typed IReadTicket (TTicket t :: A) (TPair TAddress (TPair t TNat) :: TTicket t :: A)
| IT_SplitTicket t A :
    instr_typed ISplitTicket (TTicket t :: TPair TNat TNat :: A)
      (TOption (TPair (TTicket t) (TTicket t)) :: A)
| IT_JoinTickets t A :
    instr_typed IJoinTickets (TPair (TTicket t) (TTicket t) :: A) (TOption (TTicket t) :: A)
| IT_Contract t ep A :
    dynamic F -> instr_typed (IContract t ep) (TAddress :: A) (TOption (TContract t) :: A)
| IT_Emit tag arg_ty t A : instr_typed (IEmit tag arg_ty) (t :: A) (TOperation :: A)
| IT_CreateContract cs m A :
    script_typed cs ->
    instr_typed (ICreateContract cs m) (TOption TKeyHash :: TMutez :: cs_storage cs :: A)
      (TOperation :: TAddress :: A)

with block_typed : list Instruction -> list Ty -> list Ty -> Prop :=
| BT_Nil A : block_typed [] A A
| BT_Cons i is' A B C : instr_typed i A B -> block_typed is' B C -> block_typed (i :: is') A C.

Definition stack_typed (s : list TypedValue) (A : list Ty) : Prop := Forall2 value_typed s A.

End Typing.

Create HintDb mir.
Create HintDb mir_instr.
#[export] Hint Constructors value_typed operation_typed script_typed lambda_typed closure_typed block_typed : mir.
#[export] Hint Constructors instr_typed : mir_instr.

End MirTyping.
Export MirTyping.

(** Comparison of well-typed values is a total order, and the sorted containers keep their
    order and hold what was put into them. *)
Module MirOrder.

(** Case analysis on the values of a type whose head is known. *)
Ltac typed_inv :=
  repeat match goal with
  | H : value_typed _ _ _ ?t |- _ => assert_fails (is_var t); inversion H; subst; clear H
  end.

Section Order.
Context {Bls : BlsTypes} {St : Type} {LS : LazyStorage St} {F : Features} {st : St}.
Abbreviation typed v t := (value_typed F st v t).
Implicit Types (t : Ty) (x y z k : TypedValue).

Lemma comparable_pair l r :
  comparable (TPair l r) = true -> comparable l = true /\ comparable r = true.
Proof. apply andb_true_iff. Qed.

Lemma comparable_or l r :
  comparable (TOr l r) = true -> comparable l = true /\ comparable r = true.
Proof. apply andb_true_iff. Qed.

(** Induction on comparable types. *)
Local Ltac by_type t :=
  induction t; intros Hc; try discriminate Hc;
  try (apply comparable_pair in Hc as [??]); try (apply comparable_or in Hc as [??]);
  intros; typed_inv; simpl in *; try discriminate.

Lemma cmp_some t : comparable t = true -> forall x y,
  typed x t -> typed y t -> exists c, partial_cmp x y = Some c.
Proof.
  by_type t; eauto.
  edestruct IHt1 as [c ->]; [done..|]. destruct c; eauto.
Qed.

Lemma cmp_eq t : comparable t = true -> forall x y,
  typed x t -> typed y t -> partial_cmp x y = Some Eq <-> x = y.
Proof.
  by_type t; rewrite ?(inj_iff Some), ?order_eq; try (split; congruence).
  - destruct (partial_cmp l0 l) as [[]|] eqn:E.
    + apply IHt1 in E as ->; [|done..]. rewrite IHt2 by done. split; congruence.
    + split; [done|]. intros [= -> ->]. by rewrite (proj2 (IHt1 ltac:(done) l l ltac:(done) ltac:(done))) in E.
    + split; [done|]. intros [= -> ->]. by rewrite (proj2 (IHt1 ltac:(done) l l ltac:(done) ltac:(done))) in E.
    + split; [done|]. intros [= -> ->]. by rewrite (proj2 (IHt1 ltac:(done) l l ltac:(done) ltac:(done))) in E.
  - rewrite IHt by done. split; congruence.
  - rewrite IHt1 by done. split; congruence.
  - rewrite IHt2 by done. split; congruence.
Qed.

Lemma cmp_opp t : comparable t = true -> forall x y,
  typed x t -> typed y t -> partial_cmp y x = option_map CompOpp (partial_cmp x y).
Proof.
  by_type t; try (f_equal; apply order_opp); try done; eauto.
  rewrite (IHt1 ltac:(done) l0 l) by done. destruct (partial_cmp l0 l) as [[]|]; simpl; eauto.
Qed.

Lemma cmp_trans t : comparable t = true -> forall x y z,
  typed x t -> typed y t -> typed z t ->
  partial_cmp x y = Some Lt -> partial_cmp y z = Some Lt -> partial_cmp x z = Some Lt.
Proof.
  by_type t; simplify_eq; try (by f_equal; eapply order_trans); eauto.
  destruct (partial_cmp l1 l0) as [[]|] eqn:E1, (partial_cmp l0 l) as [[]|] eqn:E2; simplify_eq.
  - apply (cmp_eq t1) in E1 as ->, E2 as ->; [|done..].
    rewrite (proj2 (cmp_eq t1 ltac:(done) l l ltac:(done) ltac:(done))) by done. eauto.
  - apply (cmp_eq t1) in E1 as ->; [|done..]. by rewrite E2.
  - apply (cmp_eq t1) in E2 as ->; [|done..]. by rewrite E1.
  - by rewrite (IHt1 ltac:(done) l1 l0 l).
Qed.

Lemma cmp_refl t x : comparable t = true -> typed x t -> partial_cmp x x = Some Eq.
Proof. intros. by apply (cmp_eq t). Qed.

Lemma cmp_gt t x y :
  comparable t = true -> typed x t -> typed y t -> partial_cmp x y = Some Gt -> partial_cmp y x = Some Lt.
Proof. intros ??? E. by rewrite (cmp_opp t ltac:(done) x y), E. Qed.

(** C33: on the values of a comparable type [partial_cmp] is always defined and is
    a total order: [Eq] is equality, swapping the arguments reverses the result, and the
    strict order is transitive. *)
Theorem comparison_is_a_total_order t x y z :
  comparable t = true -> typed x t -> typed y t -> typed z t ->
  (exists c, partial_cmp x y = Some c) /\
  (partial_cmp x y = Some Eq <-> x = y) /\
  partial_cmp y x = option_map CompOpp (partial_cmp x y) /\
  (partial_cmp x y = Some Lt -> partial_cmp y z = Some Lt -> partial_cmp x z = Some Lt).
Proof.
  intros. split_and!; [by apply (cmp_some t)|by apply (cmp_eq t)|by apply (cmp_opp t)|
    by apply (cmp_trans t)].
Qed.

(** The cost of a comparison is computed without panicking. *)
Definition no_panic {E A} (r : Res E A) : Prop := match r with Done _ | Error _ => True | _ => False end.

Lemma no_panic_bind {E A B} (r : Res E A) (f : A -> Res E B) :
  no_panic r -> (forall a, no_panic (f a)) -> no_panic (res_bind r f).
Proof. destruct r; simpl; auto. Qed.

Lemma no_panic_cost c : no_panic (as_gas_cost c).
Proof. destruct c as [z|]; simpl; [destruct (z <? 2 ^ 32)|]; done. Qed.

Lemma no_panic_ok_or_out_of_gas c : no_panic (ok_or_out_of_gas c).
Proof. by destruct c. Qed.

Lemma no_panic_compare t : comparable t = true -> forall x y,
  typed x t -> typed y t -> no_panic (interpret_cost.compare x y).
Proof.
  by_type t; try apply no_panic_cost; try done;
    repeat (apply no_panic_bind; [eauto | intros]); apply no_panic_cost.
Qed.

Lemma no_panic_lookup_cost t x n :
  comparable t = true -> typed x t -> no_panic (interpret_cost.lookup_cost x n).
Proof.
  intros. unfold interpret_cost.lookup_cost.
  apply no_panic_bind; [by apply (no_panic_compare t) | intros].
  apply no_panic_bind; [apply no_panic_ok_or_out_of_gas | done].
Qed.

(** ** Sorted maps *)
Section Maps.
Context {A : Type}.
Implicit Types (m : list (TypedValue * A)) (v : A).

(** The keys of a map with keys of type [t]. *)
Definition keys_ok t m : Prop :=
  comparable t = true /\ sorted_keys (m.*1) /\ Forall (fun k => typed k t) (m.*1).

Lemma keys_ok_nil t : comparable t = true -> keys_ok t [].
Proof. repeat constructor; done. Qed.

Lemma keys_ok_cons t k v m :
  keys_ok t ((k, v) :: m) <->
  comparable t = true /\ typed k t /\ Forall (key_lt k) (m.*1) /\ keys_ok t m.
Proof.
  unfold keys_ok, sorted_keys. rewrite fmap_cons, Forall_cons. simpl. split.
  - intros (? & H & ? & ?). inversion H; subst. done.
  - intros (? & ? & ? & ? & ? & ?). split_and!; try done. by constructor.
Qed.

(** A key below the first one is below all of them. *)
Lemma key_lt_below t k k' v m :
  keys_ok t ((k', v) :: m) -> typed k t -> key_lt k k' -> Forall (key_lt k) (((k', v) :: m).*1).
Proof.
  rewrite keys_ok_cons. intros (? & ? & Hlt & ? & ? & Hm) ? ?. rewrite fmap_cons. constructor; [done|].
  rewrite Forall_forall in *. intros z Hz. unfold key_lt in *. by apply (cmp_trans t) with k'; auto.
Qed.

Lemma not_key_lt_elem t k v m : comparable t = true -> typed k t -> Forall (key_lt k) (m.*1) -> (k, v) ∉ m.
Proof.
  intros ? ? Hm Hin. rewrite Forall_forall in Hm.
  assert (Hk : key_lt k k) by (apply Hm; apply list_elem_of_fmap; by exists (k, v)).
  unfold key_lt in Hk. by rewrite (cmp_refl t) in Hk.
Qed.
Lemma keys_ok_elem_le t k k' v v' m : keys_ok t ((k', v') :: m) -> (k, v) ∈ m -> key_lt k' k.
Proof.
  rewrite keys_ok_cons. intros (_ & _ & Hlt & _) Hin. rewrite Forall_forall in Hlt.
  apply Hlt, list_elem_of_fmap. by exists (k, v).
Qed.

(** The three cases of a search at the first entry. *)
Lemma search_cases t k k' v' m :
  keys_ok t ((k', v') :: m) -> typed k t ->
  (partial_cmp k k' = Some Lt /\ forall v, (k, v) ∉ (k', v') :: m) \/
  (partial_cmp k k' = Some Eq /\ k = k' /\ forall v, (k, v) ∉ m) \/
  (partial_cmp k k' = Some Gt /\ k <> k' /\ key_lt k' k /\ keys_ok t m).
Proof.
  intros Hok Hk. pose proof Hok as (? & Hk' & Hlt & Hm)%keys_ok_cons.
  destruct (cmp_some t ltac:(done) k k') as [[] E]; [done..| | |].
  - right. left. split; [done|]. apply (cmp_eq t) in E as ->; [|done..]. split; [done|].
    intros v. by apply (not_key_lt_elem t).
  - left. split; [done|]. intros v. apply (not_key_lt_elem t); [done..|]. by apply (key_lt_below t).
  - right. right. split; [done|]. split; [|split; [by apply (cmp_gt t)|done]].
    intros ->. by rewrite (cmp_refl t) in E.
Qed.

Lemma map_get_done {E} t k m : keys_ok t m -> typed k t ->
  exists r, map_get (E := E) k m = Done r /\ forall v, r = Some v <-> (k, v) ∈ m.
Proof.
  intros Hm Hk. induction m as [|[k' v'] m IH]; simpl.
  { exists None. split; [done|]. intros v. split; [done|]. by intros ?%not_elem_of_nil. }
  unfold cmp.
  destruct (search_cases t k k' v' m) as [[-> Hno]|[(-> & -> & Hno)|(-> & Hne & _ & Hm')]]; [done..|simpl|simpl|simpl].
  - exists None. split; [done|]. intros v. split; [done|]. by intros ?%Hno.
  - exists (Some v'). split; [done|]. intros v. rewrite elem_of_cons. split.
    + intros [= ->]. by left.
    + intros [[= ->]|?%Hno]; done.
  - destruct (IH Hm') as (r & -> & Hr). exists r. split; [done|]. intros v. rewrite Hr, elem_of_cons.
    split; [by right|]. by intros [[= ->]|?].
Qed.

Lemma map_insert_done {E} t k v m : keys_ok t m -> typed k t ->
  exists old m', map_insert (E := E) k v m = Done (old, m') /\ keys_ok t m' /\
    (forall w, old = Some w <-> (k, w) ∈ m) /\
    (forall k' w, (k', w) ∈ m' <-> k' = k /\ w = v \/ k' <> k /\ (k', w) ∈ m).
Proof.
  intros Hm Hk. induction m as [|[k0 v0] m IH]; simpl.
  { exists None, [(k, v)]. destruct Hm as (? & _). split_and!; try done.
    - apply keys_ok_cons. split_and!; try done. by apply keys_ok_nil.
    - intros w. split; [done|]. by intros ?%not_elem_of_nil.
    - intros k' w. rewrite list_elem_of_singleton. split; [intros [= -> ->]; auto|].
      intros [[-> ->]|[_ ?%not_elem_of_nil]]; done. }
  unfold cmp. pose proof Hm as (? & Hk0 & Hlt & Hm')%keys_ok_cons.
  destruct (search_cases t k k0 v0 m) as [[Hc Hno]|[(Hc & -> & Hno)|(Hc & Hne & Hlt0 & _)]];
    [done..| rewrite Hc; simpl | rewrite Hc; simpl | rewrite Hc; simpl].
  - exists None, ((k, v) :: (k0, v0) :: m). split_and!; try done.
    + apply keys_ok_cons. split_and!; try done. by apply (key_lt_below t).
    + intros w. split; [done|]. by intros ?%Hno.
    + intros k' w. rewrite (elem_of_cons _ (k', w) (k, v)). split.
      * intros [[= -> ->]|?]; [by left|right]. split; [|done]. intros ->. by apply (Hno w).
      * intros [[-> ->]|[??]]; [by left|by right].
  - exists (Some v0), ((k0, v) :: m). split_and!; try done.
    + intros w. rewrite elem_of_cons. split; [intros [= ->]; by left|].
      intros [[= ->]|?%Hno]; done.
    + intros k' w. rewrite !elem_of_cons. split.
      * intros [[= -> ->]|?]; [by left|right]. split; [|by right]. intros ->. by apply (Hno w).
      * intros [[-> ->]|[? [[= -> ->]|?]]]; [by left|done|by right].
  - destruct (IH Hm') as (old & m' & -> & Hok & Hold & Hin). simpl.
    exists old, ((k0, v0) :: m'). split_and!; try done.
    + apply keys_ok_cons. split_and!; try done. apply Forall_forall. intros z Hz.
      apply list_elem_of_fmap in Hz as ([z' w] & -> & Hz). simpl. apply Hin in Hz as [[-> _]|[_ Hz]]; [done|].
      by apply (keys_ok_elem_le t _ _ w v0 m).
    + intros w. rewrite Hold, elem_of_cons. split; [by right|]. by intros [[= ->]|?].
    + intros k' w. rewrite !elem_of_cons, Hin. split.
      * intros [[= -> ->]|[?|[??]]]; auto.
      * intros [[-> ->]|[? [[= -> ->]|?]]]; auto.
Qed.

Lemma map_remove_done {E} t k m : keys_ok t m -> typed k t ->
  exists old m', map_remove (E := E) k m = Done (old, m') /\ keys_ok t m' /\
    (forall w, old = Some w <-> (k, w) ∈ m) /\
    (forall k' w, (k', w) ∈ m' <-> k' <> k /\ (k', w) ∈ m).
Proof.
  intros Hm Hk. induction m as [|[k0 v0] m IH]; simpl.
  { exists None, []. destruct Hm as (? & _). split_and!; try done; [by apply keys_ok_nil|..].
    - intros w. split; [done|]. by intros ?%not_elem_of_nil.
    - intros k' w. split; [by intros ?%not_elem_of_nil|]. by intros [_ ?]. }
  unfold cmp. pose proof Hm as (? & Hk0 & Hlt & Hm')%keys_ok_cons.
  destruct (search_cases t k k0 v0 m) as [[Hc Hno]|[(Hc & -> & Hno)|(Hc & Hne & Hlt0 & _)]];
    [done..| rewrite Hc; simpl | rewrite Hc; simpl | rewrite Hc; simpl].
  - exists None, ((k0, v0) :: m). split_and!; try done.
    + intros w. split; [done|]. by intros ?%Hno.
    + intros k' w. split; [|by intros [_ ?]]. intros Hin. split; [|done]. intros ->. by apply (Hno w).
  - exists (Some v0), m. split_and!; try done.
    + intros w. rewrite elem_of_cons. split; [intros [= ->]; by left|].
      intros [[= ->]|?%Hno]; done.
    + intros k' w. rewrite elem_of_cons. split.
      * intros Hin. split; [|by right]. intros ->. by apply (Hno w).
      * intros [? [[= -> ->]|?]]; done.
  - destruct (IH Hm') as (old & m' & -> & Hok & Hold & Hin). simpl.
    exists old, ((k0, v0) :: m'). split_and!; try done.
    + apply keys_ok_cons. split_and!; try done. apply Forall_forall. intros z Hz.
      apply list_elem_of_fmap in Hz as ([z' w] & -> & Hz). simpl. apply Hin in Hz as [_ Hz].
      by apply (keys_ok_elem_le t _ _ w v0 m).
    + intros w. rewrite Hold, elem_of_cons. split; [by right|]. by intros [[= ->]|?].
    + intros k' w. rewrite !elem_of_cons, Hin. split.
      * intros [[= -> ->]|[??]]; auto.
      * intros [? [[= -> ->]|?]]; auto.
Qed.

End Maps.
End Order.
End MirOrder.
Export MirOrder.
