(* ===== verification/MirSerialProps.v ===== *)
(** The decoder of Micheline is total: on every input it returns a node or an error, and its
    bound on the nesting, one more than the number of bytes, is never reached. *)

From stdpp Require Import strings.
From S2P Require Import Prelude MirAst MirGas MirExtern MirSerial.

Open Scope Z_scope.

Module MirSerialProps.

(** On inputs of at most [n] bytes the decoder returns, having read at least [k] bytes. *)
Definition reads {A} (n k : nat) (d : D A) : Prop :=
  forall bs, (length bs <= n)%nat ->
  match d bs with
  | (Done _, bs') => (length bs' + k <= length bs)%nat
  | (Error _, _) => True
  | _ => False
  end.

Lemma reads_ret {A} n (a : A) : reads n 0 (ret a).
Proof. intros bs Hn. simpl. lia. Qed.

Lemma reads_fail {A} n k e : reads (A := A) n k (fail e).
Proof. intros bs Hn. done. Qed.

Lemma reads_bind {A B} n j k l (d : D A) (f : A -> D B) :
  reads n j d -> (forall a, reads (n - j) k (f a)) -> (l <= j + k)%nat -> reads n l (bind d f).
Proof.
  intros Hd Hf Hl bs Hn. unfold bind. specialize (Hd bs Hn).
  destruct (d bs) as [[a|e|p|] bs']; try done.
  specialize (Hf a bs' ltac:(lia)). destruct (f a bs') as [[b|e|p|] bs'']; try done. lia.
Qed.

Lemma reads_next n : reads n 1 next_byte.
Proof. intros [|b bs] Hn; simpl; [done|lia]. Qed.

Lemma reads_take n k : reads n 0 (take_bytes k).
Proof. intros bs Hn. unfold take_bytes. case_decide; [done|]. rewrite length_drop. lia. Qed.

Lemma reads_le {A} n k n' k' (d : D A) : reads n k d -> (n' <= n)%nat -> (k' <= k)%nat -> reads n' k' d.
Proof.
  intros Hd ? ? bs Hn. specialize (Hd bs ltac:(lia)). destruct (d bs) as [[]]; try done. lia.
Qed.

Lemma reads_get_bytes n : reads n 0 get_bytes.
Proof.
  unfold get_bytes, get_len. repeat (eapply (reads_bind _ 0 0); [|intros|lia]); auto using reads_take, reads_ret.
Qed.

Lemma reads_int_from first minus shift acc n : reads n 0 (decode_int_from first minus shift acc).
Proof.
  intros bs. revert first minus shift acc n.
  induction bs as [|b bs IH]; intros first minus shift acc n Hn; [done|].
  cbn [decode_int_from length] in *. destruct (Z.testbit b 7); [|lia].
  match goal with |- context [decode_int_from ?f ?m ?s ?a bs] => specialize (IH f m s a n ltac:(lia)) end.
  destruct (decode_int_from _ _ _ _ _) as [[]]; try done. lia.
Qed.

Lemma valid_ann_parses bs : valid_ann bs = true -> is_Some (try_ann_from_bytes bs).
Proof.
  unfold valid_ann, try_ann_from_bytes. intros H.
  destruct (bool_decide _ || bool_decide _ || bool_decide _); [eauto|]. simpl in H. destruct bs as [|t [|c rest]]; [done..|].
  apply andb_true_iff in H as [[Ht _]%andb_true_iff _].
  apply orb_true_iff in Ht as [[Ht|Ht]%orb_true_iff|Ht]; apply Z.eqb_eq in Ht as ->; eauto.
Qed.

Lemma reads_validate_anns n l : reads n 0 (validate_anns l).
Proof.
  induction l as [|a l IH]; simpl; [apply reads_ret|].
  eapply (reads_bind _ 0 0); [|intros; eapply (reads_bind _ 0 0)|lia]; [| |intros|lia].
  - intros bs Hn. unfold validate_ann. destruct (valid_ann a) eqn:E; [|done].
    destruct (valid_ann_parses a E) as [x Hx]. rewrite Hx. simpl. lia.
  - by rewrite Nat.sub_0_r.
  - apply reads_ret.
Qed.

Lemma reads_anns n b : reads n 0 (decode_anns b).
Proof.
  destruct b; simpl; [|apply reads_ret].
  eapply (reads_bind _ 0 0); [apply reads_get_bytes|intros|lia].
  case_bool_decide; [apply reads_ret|apply reads_validate_anns].
Qed.

(** The sequences, with as many steps as bytes. *)
Lemma reads_all (d : D Micheline) n : reads n 1 d -> forall k, (n <= k)%nat -> reads n 0 (decode_all d k).
Proof.
  intros Hd k Hk bs Hn. assert (Hkn : (length bs <= k)%nat) by lia. clear Hk.
  revert k Hkn Hn. induction bs as [bs IH] using (induction_ltof1 _ length).
  intros k Hk Hn. destruct bs as [|b bs], k as [|k]; simpl in *; try lia.
  unfold bind at 1. specialize (Hd (b :: bs) ltac:(simpl; lia)).
  destruct (d (b :: bs)) as [[a|e|p|] bs']; try done. simpl in Hd.
  specialize (IH bs' ltac:(unfold ltof; simpl; lia) k ltac:(lia) ltac:(lia)). unfold bind.
  destruct (decode_all d k bs') as [[ms|e|p|] bs'']; simpl; try done. lia.
Qed.

Lemma get_bytes_part bs part bs' :
  get_bytes bs = (Done part, bs') -> (length part <= length bs)%nat.
Proof.
  unfold get_bytes, get_len, take_bytes, bind. destruct (decide (length bs < 4)%nat); [done|]. simpl.
  case_decide; [done|]. intros [= <- _]. rewrite length_take, length_drop. lia.
Qed.

Lemma reads_seq_raw (d : D Micheline) n k : reads n 1 d -> (n <= k)%nat -> reads n 0 (decode_seq_raw d k).
Proof.
  intros Hd Hk bs Hn. unfold decode_seq_raw, bind. pose proof (reads_get_bytes n bs Hn) as Hg.
  destruct (get_bytes bs) as [[part|e|p|] bs'] eqn:E; try done. unfold on_bytes. simpl.
  apply get_bytes_part in E. pose proof (reads_all d n Hd k Hk part ltac:(lia)) as Ha.
  destruct (decode_all d k part) as [[]]; simpl; try done.
Qed.

Lemma reads_app (d : D Micheline) n k num annots :
  reads n 1 d -> (n <= k)%nat -> reads n 0 (decode_app d k num annots).
Proof.
  intros Hd Hk. unfold decode_app.
  eapply (reads_bind _ 0 0); [eapply reads_le; [apply (reads_next n)|lia..]|intros b|lia].
  destruct (Prim.all !! Z.to_nat b) as [prim|]; [|apply reads_fail].
  rewrite Nat.sub_0_r. eapply (reads_bind _ 0 0); [|intros args|lia].
  - destruct num; [apply reads_ret| | |by apply reads_seq_raw];
      repeat (eapply (reads_bind _ 0 0); [eapply reads_le; [done|lia..]|intros|lia]); apply reads_ret.
  - eapply (reads_bind _ 0 0); [apply reads_anns|intros; apply reads_ret|lia].
Qed.

Lemma reads_micheline n : reads n 1 (decode_micheline (S n)).
Proof.
  induction n as [|n IH]; [by intros [|b bs] Hn; simpl in *; [|lia]|].
  cbn [decode_micheline]. apply (reads_bind _ 1 0); [apply reads_next|intros b|lia].
  replace (S n - 1)%nat with n by lia.
  assert (Hint : reads n 0 decode_int) by apply reads_int_from.
  assert (Hstr : reads n 0 decode_string).
  { eapply (reads_bind _ 0 0); [apply reads_get_bytes|intros bs|lia].
    eapply (reads_bind _ 0 0); [|intros; apply reads_ret|lia].
    unfold validate_str. case_match; [apply reads_ret|apply reads_fail]. }
  assert (Hbytes : reads n 0 decode_bytes)
    by (eapply (reads_bind _ 0 0); [apply reads_get_bytes|intros; apply reads_ret|lia]).
  repeat case_match; auto using reads_fail; try (apply reads_app; [done|lia]).
  eapply (reads_bind _ 0 0); [apply reads_seq_raw; [done|lia]|intros; apply reads_ret|lia].
Qed.

Lemma decode_packed_returns bytes :
  (exists m, decode_packed bytes = Done m) \/ (exists e, decode_packed bytes = Error e).
Proof.
  unfold decode_packed, decode_raw. destruct bytes as [|z bs]; [eauto|].
  destruct z as [|z|]; eauto. do 3 (destruct z as [z|z|]; eauto).
  pose proof (reads_micheline (length bs) bs ltac:(lia)) as H.
  destruct (decode_micheline (S (length bs)) bs) as [[m|e|p|] []]; eauto; done.
Qed.

(** [decode_packed] and [decode_raw] return a node or an error on every byte string: they
    never panic, and the bound on the recursion is never reached. *)
Theorem decoding_is_total bytes :
  ((exists m, decode_packed bytes = Done m) \/ (exists e, decode_packed bytes = Error e)) /\
  ((exists m, decode_raw bytes = Done m) \/ (exists e, decode_raw bytes = Error e)).
Proof.
  split; [apply decode_packed_returns|]. unfold decode_raw.
  pose proof (reads_micheline (length bytes) bytes ltac:(lia)) as H.
  destruct (decode_micheline (S (length bytes)) bytes) as [[m|e|p|] []]; eauto; done.
Qed.

End MirSerialProps.
Export MirSerialProps.
