(* ===== verification/MirSound.v ===== *)
(** What it means for an interpreter computation to be type safe, the rules to show it, and
    the instructions whose types do not depend on the stack. *)

From Stdlib Require Import Sorted.
From stdpp Require Import strings.
From S2P Require Import Prelude MirAst MirGas MirStack MirCompare MirExtern MirSerial MirCtx MirTypes MirTcInstr MirTypecheck MirOps MirInterp MirTyping MirSerialProps.

Open Scope Z_scope.

Module MirSound.

(** What the interpreter relies on in [tezos_crypto_rs], [cryptoxide] and [blst]: a digest of
    20 bytes is a contract hash, and a scalar below the order of the field is accepted. *)
Class ExternSound {Bls : BlsTypes} (X : Extern) : Prop := {
  kt1_of_digest input : is_Some (hash_try_from_bytes ContractKt1Hash (blake2b_digest input 20));
  fr_reduced i : 0 <= i < fr_order -> is_Some (fr_of_lendian (le_bytes 32 i))
}.

(** What the interpreter relies on in the big map storage: reading an existing big map with a
    key of its type gives a value of its type. *)
Class StorageSound {Bls : BlsTypes} {St : Type} {LS : LazyStorage St} (F : Features) (st : St) : Prop := {
  storage_get id tk tv k :
    big_map_get_type st id = Done (Some (tk, tv)) -> comparable tk = true -> value_typed F st k tk ->
    match big_map_get st id k with
    | Done o => value_typed F st (VOption o) (TOption tv)
    | Error _ => True
    | _ => False
    end;
  storage_mem id tk tv k :
    big_map_get_type st id = Done (Some (tk, tv)) -> comparable tk = true -> value_typed F st k tk ->
    no_panic (big_map_mem st id k)
}.

Section Sound.
Context {Bls : BlsTypes} {X : Extern} {St : Type} {LS : LazyStorage St}.
Context (F : Features) (st : St).
Abbreviation I := (M (Ctx St) InterpretError).
Abbreviation vtyped v t := (value_typed F st v t).
Abbreviation styped s A := (stack_typed F st s A).

(** The panics of the typechecker. *)
Definition tc_panics (p : PanicReason) : Prop :=
  exists (env : TcEnv St) fuel m t g, env_storage env = st /\ (typecheck_value env fuel m t g).1 = Panics p.

(** The panics of well-typed code: gas is used after it was exhausted in the typechecking of
    [UNPACK] or [CONTRACT], whose errors are dropped, or the typechecker panics there, or
    tickets with incomparable contents are joined. *)
Definition allowed (p : PanicReason) : Prop :=
  dynamic F /\ (p = AccessToGasAfterExhaustion \/ tc_panics p) \/
  any_ticket F /\ p = Incomparable.

Lemma allowed_strict p : F = strict -> ~ allowed p.
Proof. by intros HF [[H _]|[H _]]; rewrite HF in H. Qed.

Record ctx_ok (ctx : Ctx St) : Prop := {
  ctx_storage : big_map_storage ctx = st;
  ctx_amount : mutez_range (amount ctx);
  ctx_balance : mutez_range (balance ctx);
  ctx_gas : gas ctx = None -> dynamic F
}.

Definition error_ok (e : InterpretError) : Prop :=
  match e with FailedWith t v => vtyped v t | _ => True end.

(** Every outcome of the computation is fine: a result satisfies [Q]. *)
Definition sound {A} (Q : A -> Prop) (c : I A) : Prop :=
  forall ctx, ctx_ok ctx ->
  match c ctx with
  | (Done a, ctx') => Q a /\ ctx_ok ctx'
  | (Error e, _) => error_ok e
  | (Panics p, _) => allowed p
  | (NoFuel, _) => True
  end.

(** A function on stacks maps stacks of type [A] to stacks of type [B]. *)
Definition maps (A B : list Ty) (f : list TypedValue -> I (list TypedValue)) : Prop :=
  forall s, styped s A -> sound (fun s' => styped s' B) (f s).

Lemma maps_elim A B f s : maps A B f -> styped s A -> sound (fun s' => styped s' B) (f s).
Proof. auto. Qed.

(** ** Rules *)
Lemma sound_ret {A} (Q : A -> Prop) a : Q a -> sound Q (ret a).
Proof. by intros HQ ctx Hctx. Qed.

Lemma sound_bind {A B} (R : A -> Prop) (Q : B -> Prop) c k :
  sound R c -> (forall a, R a -> sound Q (k a)) -> sound Q (bind c k).
Proof.
  intros Hc Hk ctx Hctx. unfold bind. specialize (Hc ctx Hctx).
  destruct (c ctx) as [[a|e|p|] ctx']; try done. destruct Hc. by apply Hk.
Qed.

Lemma sound_mono {A} (R Q : A -> Prop) c : sound R c -> (forall a, R a -> Q a) -> sound Q c.
Proof.
  intros Hc HRQ ctx Hctx. specialize (Hc ctx Hctx). destruct (c ctx) as [[]]; try done.
  destruct Hc. auto.
Qed.

(** A step that only computes. *)
Lemma sound_pure {A B} (Q : B -> Prop) (c : I A) k a :
  (forall ctx, c ctx = (Done a, ctx)) -> sound Q (k a) -> sound Q (bind c k).
Proof. intros Hc Hk ctx Hctx. unfold bind. rewrite Hc. by apply Hk. Qed.

Lemma sound_pop {B} (Q : B -> Prop) v s k : sound Q (k (v, s)) -> sound Q (bind (pop (v :: s)) k).
Proof. by apply sound_pure. Qed.

Lemma sound_the {A B} (Q : B -> Prop) (f : TypedValue -> option A) v a k :
  f v = Some a -> sound Q (k a) -> sound Q (bind (the f v) k).
Proof. intros Hf. apply sound_pure. intros ctx. unfold the. by rewrite Hf. Qed.

Lemma sound_pop_as {A B} (Q : B -> Prop) (f : TypedValue -> option A) v a s k :
  f v = Some a -> sound Q (k (a, s)) -> sound Q (bind (pop_as f (v :: s)) k).
Proof. intros Hf. apply sound_pure. intros ctx. unfold pop_as, the. simpl. unfold bind. simpl. by rewrite Hf. Qed.

Lemma sound_top_as {A B} (Q : B -> Prop) (f : TypedValue -> option A) v a s k :
  f v = Some a -> sound Q (k (a, s)) -> sound Q (bind (top_as f (v :: s)) k).
Proof. intros Hf. apply sound_pure. intros ctx. unfold top_as, the, bind. by rewrite Hf. Qed.

Lemma sound_fail {A} (Q : A -> Prop) e : error_ok e -> sound Q (fail e).
Proof. by intros He ctx Hctx. Qed.

Lemma sound_panic {A} (Q : A -> Prop) p : allowed p -> sound Q (panic p).
Proof. by intros Hp ctx Hctx. Qed.

Lemma sound_no_fuel {A} (Q : A -> Prop) : sound Q no_fuel.
Proof. by intros ctx Hctx. Qed.

Lemma sound_get_state {B} (Q : B -> Prop) k :
  (forall ctx, ctx_ok ctx -> sound Q (k ctx)) -> sound Q (bind get_state k).
Proof. intros Hk ctx Hctx. by apply Hk. Qed.

Lemma sound_lift {A B} (Q : B -> Prop) (r : Res InterpretError A) k :
  match r with
  | Done a => sound Q (k a)
  | Error e => error_ok e
  | Panics p => allowed p
  | NoFuel => True
  end -> sound Q (bind (lift r) k).
Proof. intros H ctx Hctx. unfold bind, lift. destruct r; try done. by apply H. Qed.

Lemma set_gas_ok ctx g : ctx_ok ctx -> (g = None -> dynamic F) -> ctx_ok (set_gas g ctx).
Proof. by intros [] Hg. Qed.

Lemma sound_charge_gen {B} (Q : B -> Prop) cost k :
  match cost with Panics p => allowed p | _ => True end -> sound Q k -> sound Q (charge cost >>; k).
Proof.
  intros Hcost Hk ctx Hctx. unfold bind, charge, on_gas, gas_charge, map_err, bind, lift.
  destruct cost as [c|e|p|]; simpl; try done.
  unfold gas_consume, milligas. destruct (gas ctx) as [g|] eqn:Eg; simpl.
  - destruct (checked_sub g c) eqn:Ec; simpl; [|done]. apply Hk. by apply set_gas_ok.
  - left. split; [by apply (ctx_gas ctx)|by left].
Qed.

Lemma sound_charge {B} (Q : B -> Prop) cost k :
  no_panic cost -> sound Q k -> sound Q (charge cost >>; k).
Proof. intros Hc. apply sound_charge_gen. by destruct cost. Qed.

Lemma sound_consume {B} (Q : B -> Prop) cost k : sound Q k -> sound Q (consume cost >>; k).
Proof. by apply sound_charge. Qed.

Lemma sound_counter {B} (Q : B -> Prop) (k : Z -> I B) :
  (forall n, sound Q (k n)) -> sound Q (bind operation_counter k).
Proof. intros Hk ctx []. by apply Hk. Qed.

Lemma sound_origination {B} (Q : B -> Prop) (k : Z -> I B) :
  (forall n, sound Q (k n)) -> sound Q (bind origination_counter k).
Proof. intros Hk ctx []. by apply Hk. Qed.

(** [FAILWITH] is the only source of errors with a value. *)
Lemma sound_mutez {B} (Q : B -> Prop) (o : option Z) (k : Z -> I B) :
  (forall z, o = Some z -> sound Q (k z)) -> sound Q (bind (mutez o) k).
Proof. intros Hk. destruct o; [|by intros ctx Hctx]. by eapply sound_pure; [|apply Hk]. Qed.

Lemma i64_checked_range z w : i64_checked z = Some w -> 0 <= z -> mutez_range w.
Proof. unfold i64_checked, mutez_range. case_match; intros [= <-]; lia. Qed.

Lemma the_all_done {A} (f : TypedValue -> option A) l :
  Forall (fun v => is_Some (f v)) l -> exists r, forall ctx : Ctx St, the_all f l ctx = (Done r, ctx).
Proof.
  induction 1 as [|v l [a Ha] Hl [r IH]]; [by exists []|]. exists (a :: r). intros ctx.
  simpl. unfold the. rewrite Ha. unfold bind, lift, ret. simpl. by rewrite IH.
Qed.

Lemma sound_the_all {A B} (Q : B -> Prop) (f : TypedValue -> option A) l k :
  Forall (fun v => is_Some (f v)) l -> (forall r, sound Q (k r)) -> sound Q (bind (the_all f l) k).
Proof. intros [r Hr]%the_all_done Hk. by eapply sound_pure. Qed.

Lemma stack_typed_cons s t A :
  styped s (t :: A) -> exists v s', s = v :: s' /\ vtyped v t /\ styped s' A.
Proof. intros (v & s' & ? & ? & ->)%Forall2_cons_inv_r. eauto. Qed.

End Sound.

(** ** Rules for the library functions *)
Section Helpers.
Context {Bls : BlsTypes} {X : Extern} {St : Type} {LS : LazyStorage St}.
Context {F : Features} {st : St} {XS : ExternSound X}.

Lemma no_panic_mul_int x y : no_panic (interpret_cost.mul_int x y).
Proof.
  unfold interpret_cost.mul_int. apply no_panic_bind; [|intros; apply no_panic_cost].
  case_bool_decide; [done|]. apply no_panic_bind; [apply no_panic_ok_or_out_of_gas|done].
Qed.

Lemma sound_fr_from_big_int {B} (Q : B -> Prop) i k :
  (forall x, sound F st Q (k x)) -> sound F st Q (bind (lift (fr_from_big_int i)) k).
Proof using XS.
  intros Hk. apply sound_lift. unfold fr_from_big_int, fr_from_bytes.
  assert (Hl : length (le_bytes FR_BYTE_SIZE (i mod fr_order)) = FR_BYTE_SIZE) by apply length_le_bytes.
  rewrite Hl, decide_False by lia. rewrite Nat.sub_diag, app_nil_r.
  destruct (fr_reduced (i mod fr_order)) as [x Hx]; [apply Z.mod_pos_bound; reflexivity|].
  change FR_BYTE_SIZE with 32%nat. rewrite Hx. apply Hk.
Qed.

Lemma land_nonneg i n : (Z.land i (Z.of_N n) <? 0) = false.
Proof. apply Z.ltb_ge. apply Z.land_nonneg. lia. Qed.

Lemma sint_diff a b : mutez_range a -> mutez_range b -> b <= a -> mutez_range (sint 64 (a - b)).
Proof. unfold mutez_range. intros. rewrite sint_small; unfold in_s; lia. Qed.

Lemma typed_option {A} (f : A -> TypedValue) o t :
  (forall a, value_typed F st (f a) t) -> value_typed F st (VOption (option_map f o)) (TOption t).
Proof. destruct o; constructor; auto. Qed.

Lemma sound_ok_or {A B} (Q : B -> Prop) (o : option A) (k : A -> M (Ctx St) InterpretError B) :
  (forall a, sound F st Q (k a)) -> sound F st Q (bind (lift (ok_or o IOutOfGas)) k).
Proof. intros Hk. apply sound_lift. destruct o; [apply Hk | exact Logic.I]. Qed.

Lemma sound_key_hash {B} (Q : B -> Prop) o (k : option KeyHash -> M (Ctx St) InterpretError B) :
  value_typed F st (VOption o) (TOption TKeyHash) ->
  (forall h, sound F st Q (k h)) -> sound F st Q (bind (the_key_hash o) k).
Proof. intros H Hk. typed_inv; (eapply sound_pure; [intros; reflexivity | apply Hk]). Qed.

Lemma all_typed_some {A} (f : TypedValue -> option A) t l :
  (forall v, value_typed F st v t -> is_Some (f v)) -> Forall (fun v => value_typed F st v t) l ->
  Forall (fun v => is_Some (f v)) l.
Proof. intros Hf Hl. by eapply Forall_impl. Qed.

End Helpers.

(** ** Automation *)

(** The elements of a stack of a known type, and their shapes. *)
Ltac stack_inv :=
  repeat match goal with
  | H : stack_typed _ _ _ (_ :: _) |- _ => apply stack_typed_cons in H as (? & ? & -> & ? & H)
  end;
  typed_inv.

#[export] Hint Resolve no_panic_cost no_panic_mul_int no_panic_ok_or_out_of_gas : mir.
#[export] Hint Extern 1 (stack_typed _ _ _ (_ :: _)) => constructor : mir.
#[export] Hint Extern 1 (error_ok _ _ _) => exact Logic.I : mir.

(** One step of a computation on a stack whose shape is known. *)
Ltac sound_step :=
  lazymatch goal with
  | |- sound _ _ _ (ret _) => apply sound_ret
  | |- sound _ _ _ (bind ?c _) =>
      lazymatch c with
      | consume _ => apply sound_consume
      | charge _ => apply sound_charge; [solve [eauto with mir] | ]
      | pop_as _ (_ :: _) => eapply sound_pop_as; [reflexivity | cbv beta iota]
      | top_as _ (_ :: _) => eapply sound_top_as; [reflexivity | cbv beta iota]
      | the _ _ => eapply sound_the; [reflexivity | cbv beta iota]
      | pop (_ :: _) => apply sound_pop; cbv beta iota
      | mutez _ => apply sound_mutez; intros ? ?
      | operation_counter => apply sound_counter; intros ?
      | origination_counter => apply sound_origination; intros ?
      | lift (fr_from_big_int _) => apply sound_fr_from_big_int; intros ?
      | lift (ok_or _ IOutOfGas) => apply sound_ok_or; intros ?
      | the_key_hash _ => apply sound_key_hash; [solve [auto with mir] | intros ?]
      | the_all _ _ =>
          eapply sound_the_all; [eapply all_typed_some; [|done]; intros; typed_inv; by eauto | intros ?]
      | get_state => apply sound_get_state; intros ? ?
      end
  end.

Section Mono.
Context {Bls : BlsTypes} {X : Extern} {St : Type} {LS : LazyStorage St}.
Context {F : Features} {st : St} {XS : ExternSound X}.

(** The instructions whose types do not depend on the stack. *)
Lemma mono_sound fuel run i ins outs A :
  mono_sig i = Some (ins, outs) -> maps F st (ins ++ A) (outs ++ A) (interpret_one fuel run i).
Proof using XS.
  intros Hsig s Hs.
  destruct i; try discriminate Hsig; try destruct o; try discriminate Hsig;
    injection Hsig as <- <-; cbn [app] in *; stack_inv;
    cbn [interpret_one op_add op_mul op_neg op_and op_or op_xor op_not op_int op_bytes op_concat op_size];
    unfold op_sub_mutez, op_cmp_zero, op_abs, op_is_nat, op_nat, op_constant, op_check_signature,
      op_set_delegate, op_hash_key, op_hash, op_implicit_account, op_voting_power, op_pairing_check,
      run_size, op_slice.
  all: repeat sound_step.
  all: try rewrite land_nonneg; repeat sound_step.
  all: constructor; [|done].
  all: try first [ by constructor | by constructor; constructor | by apply typed_option; constructor
                 | by destruct (_ <? _); repeat constructor ].
  - constructor. unfold mutez_range in *. eapply i64_checked_range; [done|lia].
  - constructor. unfold mutez_range in *. eapply i64_checked_range; [done|].
    match goal with E : i64_checked (Z.of_N _) = _ |- _ => apply i64_checked_range in E; [|lia] end.
    unfold mutez_range in *. nia.
  - constructor. unfold mutez_range in *. eapply i64_checked_range; [done|].
    match goal with E : i64_checked (Z.of_N _) = _ |- _ => apply i64_checked_range in E; [|lia] end.
    unfold mutez_range in *. nia.
  - destruct (Z.leb_spec z z0); repeat constructor; by apply sint_diff.
  - constructor. by apply (ctx_amount F st).
  - constructor. by apply (ctx_balance F st).
Qed.

End Mono.
End MirSound.
Export MirSound.

(** Type safety of the instructions on the stack, with nested code, and on containers. *)
Module MirSoundOps.

Section Ops.
Context {Bls : BlsTypes} {X : Extern} {St : Type} {LS : LazyStorage St}.
Context {F : Features} {st : St}.
Abbreviation I := (M (Ctx St) InterpretError).
Abbreviation vtyped v t := (value_typed F st v t).
Abbreviation styped s A := (stack_typed F st s A).
Implicit Types (A B P : list Ty).

(** ** Stack manipulation *)
Lemma no_panic_dip n : no_panic (interpret_cost.dip n).
Proof. destruct n; [apply no_panic_cost | done]. Qed.
Lemma no_panic_drop n : no_panic (interpret_cost.drop n).
Proof. destruct n; [apply no_panic_cost | done]. Qed.
Lemma no_panic_dup n : no_panic (interpret_cost.dup n).
Proof. destruct n; [apply no_panic_cost | done]. Qed.
#[local] Hint Resolve no_panic_dip no_panic_drop no_panic_dup : mir.

Lemma sound_at_stack {C D} (Q : D -> Prop) (o : option C) a k :
  o = Some a -> sound F st Q (k a) -> sound F st Q (bind (at_stack o) k).
Proof. intros ->. by apply sound_pure. Qed.

(** A stack split where its type is. *)
Lemma stack_typed_app s P A :
  styped s (P ++ A) -> exists p s', s = p ++ s' /\ length p = length P /\ styped p P /\ styped s' A.
Proof.
  intros (p & s' & Hp & Hs & ->)%Forall2_app_inv_r. exists p, s'. split_and!; try done.
  by apply Forall2_length in Hp.
Qed.

Lemma split_off_app {T} (p s : list T) : Top.split_off (length p) (p ++ s) = Some (p, s).
Proof.
  unfold Top.split_off. rewrite length_app, decide_True by lia. by rewrite take_app_length, drop_app_length.
Qed.

Lemma op_dip_sound n body P A B :
  length P = default 1%nat n -> maps F st A B body -> maps F st (P ++ A) (P ++ B) (op_dip n body).
Proof.
  intros HP Hbody s (p & s' & -> & Hp & HpP & Hs)%stack_typed_app. unfold op_dip. sound_step.
  eapply sound_at_stack; [rewrite <- HP, <- Hp; apply split_off_app | cbv beta iota].
  eapply sound_bind; [by apply Hbody | intros s'' Hs'']. repeat sound_step. by apply Forall2_app.
Qed.

Lemma op_drop_sound n P A : length P = default 1%nat n -> maps F st (P ++ A) A (op_drop n).
Proof.
  intros HP s (p & s' & -> & Hp & _ & Hs)%stack_typed_app. unfold op_drop. sound_step.
  unfold Top.drop_top. rewrite length_app, decide_True by lia.
  rewrite <- HP, <- Hp, drop_app_length. by apply sound_ret.
Qed.

Lemma op_dup_sound n k t A :
  default 1%nat n = S k -> A !! k = Some t -> maps F st A (t :: A) (op_dup n).
Proof.
  intros Hn Ht s Hs. unfold op_dup. sound_step. rewrite Hn.
  destruct (Forall2_lookup_r _ _ _ _ _ Hs Ht) as (v & Hv & Hvt).
  eapply sound_at_stack; [exact Hv|]. sound_step. by constructor.
Qed.

Lemma op_dig_sound n P t A : length P = n -> maps F st (P ++ t :: A) (t :: P ++ A) (op_dig n).
Proof.
  intros <- s (p & s' & -> & Hp & HpP & Hs)%stack_typed_app. unfold op_dig. sound_step.
  apply stack_typed_cons in Hs as (v & s'' & -> & Hv & Hs).
  case_decide.
  - eapply sound_at_stack.
    { unfold Top.remove. by rewrite <- Hp, drop_app_length, take_app_length. }
    cbv beta iota. sound_step. constructor; [done|]. by apply Forall2_app.
  - destruct P; [|simpl in *; lia]. destruct p; [|done]. sound_step. by constructor.
Qed.

Lemma op_dug_sound n P t A : length P = n -> maps F st (t :: P ++ A) (P ++ t :: A) (op_dug n).
Proof.
  intros <- s (v & s0 & -> & Hv & (p & s' & -> & Hp & HpP & Hs)%stack_typed_app)%stack_typed_cons.
  unfold op_dug. sound_step. case_decide.
  - sound_step. unfold Top.insert. rewrite length_app, decide_True by lia.
    rewrite <- Hp, drop_app_length, take_app_length. apply sound_ret.
    apply Forall2_app; [done|]. by constructor.
  - destruct P; [|simpl in *; lia]. destruct p; [|done]. sound_step. by constructor.
Qed.

Lemma op_swap_sound a b A : maps F st (a :: b :: A) (b :: a :: A) op_swap.
Proof. intros s Hs. stack_inv. unfold op_swap. sound_step. apply sound_ret. by repeat constructor. Qed.

(** ** Control *)
Lemma op_if_sound f g A B : maps F st A B f -> maps F st A B g -> maps F st (TBool :: A) B (op_if f g).
Proof. intros Hf Hg s Hs. stack_inv. unfold op_if. repeat sound_step. destruct b; auto. Qed.

Lemma op_if_none_sound f g t A B :
  maps F st A B f -> maps F st (t :: A) B g -> maps F st (TOption t :: A) B (op_if_none f g).
Proof.
  intros Hf Hg s Hs. stack_inv; unfold op_if_none; repeat sound_step; [by apply Hf|].
  apply Hg. by constructor.
Qed.

Lemma op_if_cons_sound f g t A B :
  maps F st (t :: TList t :: A) B f -> maps F st A B g -> maps F st (TList t :: A) B (op_if_cons f g).
Proof.
  intros Hf Hg s Hs. stack_inv. unfold op_if_cons. repeat sound_step. destruct l as [|x l]; [by apply Hg|].
  apply Hf. decompose_Forall. by repeat constructor.
Qed.

Lemma op_if_left_sound f g tl tr A B :
  maps F st (tl :: A) B f -> maps F st (tr :: A) B g -> maps F st (TOr tl tr :: A) B (op_if_left f g).
Proof.
  intros Hf Hg s Hs. stack_inv; unfold op_if_left; repeat sound_step; [apply Hf | apply Hg]; by constructor.
Qed.

Lemma loop_sound n f A : maps F st A (TBool :: A) f -> maps F st (TBool :: A) A (loop n f).
Proof.
  intros Hf. induction n as [|n IH]; intros s Hs; [by intros ctx Hctx|].
  stack_inv. cbn [loop]. repeat sound_step. destruct b.
  - eapply sound_bind; [by apply Hf | exact IH].
  - by repeat sound_step.
Qed.

Lemma op_loop_sound n f A : maps F st A (TBool :: A) f -> maps F st (TBool :: A) A (op_loop n f).
Proof. intros Hf s Hs. unfold op_loop. sound_step. by apply loop_sound. Qed.

Lemma loop_left_sound n f tl tr A :
  maps F st (tl :: A) (TOr tl tr :: A) f -> maps F st (TOr tl tr :: A) (tr :: A) (loop_left n f).
Proof.
  intros Hf. induction n as [|n IH]; intros s Hs; [by intros ctx Hctx|].
  stack_inv; cbn [loop_left]; repeat sound_step.
  - eapply sound_bind; [apply Hf; by constructor | exact IH].
  - by constructor.
Qed.

Lemma op_loop_left_sound n f tl tr A :
  maps F st (tl :: A) (TOr tl tr :: A) f -> maps F st (TOr tl tr :: A) (tr :: A) (op_loop_left n f).
Proof. intros Hf s Hs. unfold op_loop_left. sound_step. exact (loop_left_sound n f tl tr A Hf s Hs). Qed.

Lemma iter_values_sound f t A l :
  maps F st (t :: A) A f -> Forall (fun v => vtyped v t) l -> maps F st A A (iter_values f l).
Proof.
  intros Hf. induction 1 as [|v l Hv _ IH]; intros s Hs; cbn [iter_values]; sound_step; [done|].
  eapply sound_bind; [apply Hf; by constructor | exact IH].
Qed.

Lemma entries_typed m tk tv :
  Forall (fun e => vtyped e.1 tk /\ vtyped e.2 tv) m ->
  Forall (fun v => vtyped v (TPair tk tv)) (map (fun '(k, v) => VPair k v) m).
Proof. induction 1 as [|[k v] m [??]]; constructor; [by constructor | done]. Qed.

Lemma op_iter_list_sound f t A : maps F st (t :: A) A f -> maps F st (TList t :: A) A (op_iter Iter_List f).
Proof.
  intros Hf s Hs. stack_inv. unfold op_iter. repeat sound_step.
  eapply maps_elim; [by eapply iter_values_sound | done].
Qed.

Lemma op_iter_set_sound f t A : maps F st (t :: A) A f -> maps F st (TSet t :: A) A (op_iter Iter_Set f).
Proof.
  intros Hf s Hs. stack_inv. unfold op_iter. repeat sound_step.
  eapply maps_elim; [by eapply iter_values_sound | done].
Qed.

Lemma op_iter_map_sound f k v A :
  maps F st (TPair k v :: A) A f -> maps F st (TMap k v :: A) A (op_iter Iter_Map f).
Proof.
  intros Hf s Hs. stack_inv. unfold op_iter. repeat sound_step.
  eapply maps_elim; [eapply iter_values_sound; [done | by apply entries_typed] | done].
Qed.

Lemma map_values_sound {C} (arg : C -> TypedValue) f t u A l s :
  maps F st (t :: A) (u :: A) f -> Forall (fun x => vtyped (arg x) t) l -> styped s A ->
  sound F st (fun r => length r.1 = length l /\ Forall (fun v => vtyped v u) r.1 /\ styped r.2 A)
    (map_values arg f l s).
Proof.
  intros Hf Hl. revert s. induction Hl as [|x l Hx _ IH]; intros s Hs; cbn [map_values]; sound_step; [done|].
  eapply sound_bind; [apply Hf; by constructor | intros s' Hs'; cbv beta in Hs'].
  apply stack_typed_cons in Hs' as (v & s'' & -> & Hv & Hs''). sound_step.
  eapply sound_bind; [by apply IH | intros [vs s3] (? & ? & ?)]. sound_step. simpl in *.
  split_and!; auto.
Qed.

Lemma op_map_list_sound f t u A :
  maps F st (t :: A) (u :: A) f -> maps F st (TList t :: A) (TList u :: A) (op_map Map_List f).
Proof.
  intros Hf s Hs. stack_inv. cbn [op_map]. repeat sound_step.
  eapply sound_bind; [by eapply map_values_sound | intros [vs s'] (_ & ? & ?)].
  sound_step. constructor; [by constructor | done].
Qed.

Lemma op_map_option_sound f t u A :
  maps F st (t :: A) (u :: A) f -> maps F st (TOption t :: A) (TOption u :: A) (op_map Map_Option f).
Proof.
  intros Hf s Hs. stack_inv; cbn [op_map]; repeat sound_step; [by repeat constructor|].
  eapply sound_bind; [apply Hf; by constructor | intros s' Hs'; cbv beta in Hs'].
  apply stack_typed_cons in Hs' as (v' & s'' & -> & Hv & Hs''). repeat sound_step. by repeat constructor.
Qed.

Lemma zip_typed ks vs k u :
  Forall (fun x => vtyped x k) ks -> Forall (fun v => vtyped v u) vs ->
  Forall (fun e => vtyped e.1 k /\ vtyped e.2 u) (zip ks vs).
Proof.
  intros Hk. revert vs. induction Hk as [|x ks Hx _ IH]; intros [|w vs] Hvs; simpl; try done.
  apply Forall_cons in Hvs as [??]. constructor; auto.
Qed.

Lemma op_map_map_sound f k v u A :
  maps F st (TPair k v :: A) (u :: A) f -> maps F st (TMap k v :: A) (TMap k u :: A) (op_map Map_Map f).
Proof.
  intros Hf s Hs. stack_inv. cbn [op_map]. repeat sound_step.
  eapply sound_bind; [eapply map_values_sound; [done | | done] | intros [vs s'] (Hl & Hvs & ?)].
  { apply entries_typed in H5. by rewrite Forall_map in H5. }
  sound_step. simpl in *. constructor; [|done].
  assert (Hlen : length (m.*1) = length vs) by by rewrite length_fmap.
  constructor; [done | by rewrite fst_zip by lia |].
  assert (Hk : Forall (fun x => vtyped x k) (m.*1)) by (apply Forall_fmap; eapply Forall_impl; [done|]; by intros ? []).
  by apply zip_typed.
Qed.
End Ops.
End MirSoundOps.
Export MirSoundOps.
