(* ===== verification/MirTcSound.v ===== *)
(** Soundness of the typechecker: the code and the values it accepts are well typed. *)

From Stdlib Require Import Sorted.
From stdpp Require Import strings.
From S2P Require Import Prelude MirAst MirGas MirStack MirCompare MirExtern MirCtx MirTypes MirTcInstr MirTypecheck MirTyping.

Open Scope Z_scope.

Module MirTcSound.

(** ** Results of typechecker computations *)
Definition ensures {A} (Q : A -> Prop) (c : T A) : Prop :=
  forall g a g', c g = (Done a, g') -> Q a.

Lemma ensures_ret {A} (Q : A -> Prop) a : Q a -> ensures Q (ret a).
Proof. by intros HQ g a' g' [= <- _]. Qed.

Lemma ensures_bind {A B} (R : A -> Prop) (Q : B -> Prop) c k :
  ensures R c -> (forall a, R a -> ensures Q (k a)) -> ensures Q (bind c k).
Proof.
  intros Hc Hk g b g'. unfold bind. destruct (c g) as [[a|e|p|] g1] eqn:E; try done.
  apply Hk. by eapply Hc.
Qed.

(** A step whose result does not matter. *)
Lemma ensures_skip {A B} (Q : B -> Prop) (c : T A) k :
  (forall a, ensures Q (k a)) -> ensures Q (bind c k).
Proof. intros Hk. by apply (ensures_bind (fun _ => True)). Qed.

Lemma ensures_fail {A} (Q : A -> Prop) e : ensures Q (fail e).
Proof. by intros g a g'. Qed.
Lemma ensures_panic {A} (Q : A -> Prop) p : ensures Q (panic p).
Proof. by intros g a g'. Qed.
Lemma ensures_no_fuel {A} (Q : A -> Prop) : ensures Q no_fuel.
Proof. by intros g a g'. Qed.

Lemma ensures_mono {A} (R Q : A -> Prop) c : ensures R c -> (forall a, R a -> Q a) -> ensures Q c.
Proof. intros Hc HRQ g a g' E. eapply HRQ, Hc, E. Qed.

Lemma ensures_map_err {A} (Q : A -> Prop) f (c : T A) : ensures Q c -> ensures Q (map_err f c).
Proof.
  intros Hc g a g'. unfold map_err. destruct (c g) as [[] g1] eqn:E; try done. intros [= <- <-]. by eapply Hc.
Qed.

Lemma ensures_option {A B} (Q : B -> Prop) (o : option A) p k :
  (forall a, o = Some a -> ensures Q (k a)) -> ensures Q (bind (lift (res_option o p)) k).
Proof.
  intros Hk g b g'. unfold bind, lift. destruct o as [a|]; [|done]. by apply Hk.
Qed.

Lemma ensures_lift {A B} (Q : B -> Prop) (r : Res TcError A) k :
  (forall a, r = Done a -> ensures Q (k a)) -> ensures Q (bind (lift r) k).
Proof. intros Hk g b g'. unfold bind, lift. destruct r; try done. by apply Hk. Qed.

(** ** Types *)
Lemma ensure_prop_ok t p : ensures (fun _ => has_prop p t = true) (ensure_prop t p).
Proof.
  induction t; destruct p; cbn [ensure_prop has_prop]; apply ensures_skip; intros _;
    try apply ensures_fail; try (by apply ensures_ret); try apply IHt; try apply IHt2;
    (eapply ensures_bind; [apply IHt1 | intros ? H1; eapply ensures_mono; [apply IHt2 | intros ? H2]]);
    by rewrite H1, H2.
Qed.

Lemma ensure_ty_eq_ok t1 t2 : ensures (fun _ => t1 = t2) (ensure_ty_eq t1 t2).
Proof.
  apply ensures_skip. intros _. case_decide; [by apply ensures_ret | apply ensures_fail].
Qed.

Lemma ensure_types_eq_ok s1 s2 l1 : forall l2,
  length l1 = length l2 -> ensures (fun _ => l1 = l2) (ensure_types_eq s1 s2 l1 l2).
Proof.
  induction l1 as [|t l1 IH]; intros [|u l2] Hl; simpl in *; try done.
  eapply ensures_bind; [apply ensures_map_err, ensure_ty_eq_ok | intros _ ->].
  eapply ensures_mono; [by apply IH; lia | by intros _ ->].
Qed.

Lemma ensure_stacks_eq_ok s1 s2 : ensures (fun _ => s1 = s2) (ensure_stacks_eq s1 s2).
Proof.
  unfold ensure_stacks_eq. case_decide; [by apply ensure_types_eq_ok | apply ensures_fail].
Qed.

(** The stacks a possibly failing one stands for. *)
Definition below (f : FailingTypeStack) (B : list Ty) : Prop :=
  match f with FOk A => A = B | FFailed => True end.

Lemma unify_stacks_ok d a : ensures (fun r => forall B, below r B -> below d B /\ below a B) (unify_stacks d a).
Proof.
  destruct d as [s1|], a as [s2|]; simpl; try (by apply ensures_ret; intros B HB).
  eapply ensures_bind; [apply ensure_stacks_eq_ok | intros _ ->]. by apply ensures_ret.
Qed.

Lemma access_mut_ok {E} f (err : E) s g g' : access_mut f err g = (Done s, g') -> f = FOk s.
Proof. destruct f; simpl; by intros [= -> _]. Qed.

Lemma validate_u10_ok z : ensures (fun n => Z.of_nat n = z /\ (n < 1024)%nat) (validate_u10 z).
Proof.
  unfold validate_u10. destruct (_ && _) eqn:E; [|apply ensures_fail].
  destruct (1024 <=? z) eqn:E'; [apply ensures_fail|]. apply ensures_ret. lia.
Qed.

Lemma ensure_stack_len_ok p s n : ensures (fun _ => (n <= length s)%nat) (ensure_stack_len p s n).
Proof. unfold ensure_stack_len. case_decide; [by apply ensures_ret | apply ensures_fail]. Qed.

(** ** Parsed types are well formed *)
Lemma add_entrypoint_ok eps anns t :
  ensures (fun r => r.1 = t) (add_entrypoint eps anns t).
Proof.
  unfold add_entrypoint. destruct eps; [|by apply ensures_ret].
  apply ensures_skip. intros [a|]; [|by apply ensures_ret].
  destruct (entrypoint_from_field_ann a); try (by apply ensures_ret).
  case_match; [apply ensures_fail | by apply ensures_ret].
Qed.

Definition parses_wf (m : Micheline) : Prop :=
  forall eps, ensures (fun r => wf_ty r.1 = true) (parse_ty_with_entrypoints m eps).
(** [let (t, _) := parse_ty_with_entrypoints m None]. *)
Lemma parse_ty_ok_of m :
  parses_wf m ->
  ensures (fun t => wf_ty t = true) (let+ (t, _) := parse_ty_with_entrypoints m None in ret t).
Proof. intros Hm. eapply ensures_bind; [apply Hm | intros [t eps] Ht]. by apply ensures_ret. Qed.

Lemma make_pair_ok whole args :
  Forall parses_wf args ->
  ensures (fun t => wf_ty t = true)
    (make_pair (fun m => let+ (t, _) := parse_ty_with_entrypoints m None in ret t) whole args).
Proof.
  induction 1 as [|m1 rest H1 Hrest IH]; [apply ensures_fail|]. cbn [make_pair].
  destruct rest as [|m2 [|m3 rest]]; [apply ensures_fail | |].
  - eapply ensures_bind; [by apply parse_ty_ok_of | intros t1 Ht1].
    apply Forall_cons in Hrest as [H2 _].
    eapply ensures_bind; [by apply parse_ty_ok_of | intros t2 Ht2].
    apply ensures_ret. simpl. by rewrite Ht1, Ht2.
  - eapply ensures_bind; [by apply parse_ty_ok_of | intros t1 Ht1].
    eapply ensures_bind; [exact IH | intros t2 Ht2].
    apply ensures_ret. simpl. by rewrite Ht1, Ht2.
Qed.

(** One step through the arms of [parse_ty_with_entrypoints]. *)
Local Ltac parse_step :=
  lazymatch goal with
  | |- ensures _ (fail _) => apply ensures_fail
  | |- ensures _ (unexpected _) => apply ensures_fail
  | |- ensures _ (ret _) => apply ensures_ret
  | |- ensures _ (add_entrypoint _ _ _) =>
      eapply ensures_mono; [apply add_entrypoint_ok | intros ? ->]
  | |- ensures _ (bind (ensure_prop _ _) _) => eapply ensures_bind; [apply ensure_prop_ok | intros ? ?]
  | |- ensures _ (bind (bind (parse_ty_with_entrypoints _ None) _) _) =>
      eapply ensures_bind; [by apply parse_ty_ok_of | intros ? ?]
  | |- ensures _ (bind (parse_ty_with_entrypoints _ _) _) =>
      eapply (ensures_bind (fun r => wf_ty r.1 = true)); [auto | intros [? ?] ?; simpl in *]
  | |- ensures _ (bind (make_pair _ _ _) _) => eapply ensures_bind; [by apply make_pair_ok | intros ? ?]
  | |- ensures _ (bind _ (fun t => add_entrypoint _ _ t)) =>
      apply (ensures_bind (fun t => wf_ty t = true)); [| intros ? ?]
  | |- ensures _ (match ?a with [] => _ | _ :: _ => _ end) => destruct a
  end.

Lemma parses_app p args anns : Forall parses_wf args -> parses_wf (MApp p args anns).
Proof.
  intros Hargs eps. cbn [parse_ty_with_entrypoints]. apply ensures_skip. intros _.
  destruct p; repeat parse_step; decompose_Forall; repeat parse_step; try done;
    cbn [wf_ty fst]; rewrite ?andb_true_iff; cbv beta in *; auto.
Qed.

Lemma parses_wf_all m : parses_wf m.
Proof.
  induction m as [| | |p args anns IH|ms IH] using micheline_nested_ind; [..|by apply parses_app|];
    intros eps; apply ensures_skip; intros _; apply ensures_fail.
Qed.

Lemma parse_ty_ok m : ensures (fun t => wf_ty t = true) (parse_ty m).
Proof. apply parse_ty_ok_of, parses_wf_all. Qed.

(** ** Features of code *)
Section Allows.
Context {F : Features}.

Lemma allows_forall ms : allows F (MSeq ms) <-> Forall (allows F) ms.
Proof.
  induction ms as [|m ms IH]; [by split|]. rewrite Forall_cons, <- IH. unfold allows. simpl.
  rewrite !orb_true_iff. tauto.
Qed.

Lemma allows_app p ms anns :
  allows F (MApp p ms anns) <->
  (is_dynamic p = true -> dynamic F) /\ (is_ticket p = true -> any_ticket F) /\ Forall (allows F) ms.
Proof. rewrite <- allows_forall. unfold allows. cbn [mentions]. rewrite !orb_true_iff. tauto. Qed.

Lemma allows_full m : dynamic F -> allows F m.
Proof. split; [done|]. intros _. by apply dynamic_any_ticket. Qed.
End Allows.

(** ** Instructions *)
Section Instr.
Context {Bls : BlsTypes} {St : Type} {LS : LazyStorage St} {F : Features} {st : St}.

(** A typed instruction is well typed for every stack its result stands for. *)
Definition instr_ok (A : list Ty) (r : Instruction * FailingTypeStack) : Prop :=
  forall B, below r.2 B -> instr_typed F st r.1 A B.
Definition block_ok (A : list Ty) (r : list Instruction * FailingTypeStack) : Prop :=
  forall B, below r.2 B -> block_typed F st r.1 A B.

Lemma ensures_typed i A B : instr_typed F st i A B -> ensures (instr_ok A) (typed i B).
Proof. intros Hi. apply ensures_ret. by intros C <-. Qed.

Lemma no_args_ok Q i args k : ensures Q k -> ensures Q (no_args i args k).
Proof. intros. destruct args; [done | apply ensures_fail]. Qed.
End Instr.

Ltac tc_step :=
  lazymatch goal with
  | |- ensures _ (fail _) => apply ensures_fail
  | |- ensures _ (unexpected _) => apply ensures_fail
  | |- ensures _ (panic _) => apply ensures_panic
  | |- ensures _ (no_overload _ _) => apply ensures_fail
  | |- ensures _ (no_overload_for _ _ _) => apply ensures_fail
  | |- ensures _ (no_overload_len _ _ _) => apply ensures_fail
  | |- ensures _ (bind ?c _) =>
      lazymatch c with
      | ensure_prop _ _ => eapply ensures_bind; [apply ensure_prop_ok | intros ? ?]
      | ensure_ty_eq _ _ => eapply ensures_bind; [apply ensure_ty_eq_ok | intros ? ->]
      | map_err _ (ensure_ty_eq _ _) =>
          eapply ensures_bind; [apply ensures_map_err, ensure_ty_eq_ok | intros ? ->]
      | parse_ty _ => eapply ensures_bind; [apply parse_ty_ok | intros ? ?]
      | validate_u10 _ => eapply ensures_bind; [apply validate_u10_ok | intros ? [? ?]]
      | ensure_stack_len _ _ _ => eapply ensures_bind; [apply ensure_stack_len_ok | intros ? ?]
      | lift (res_option _ _) => apply ensures_option; intros ? ?
      | gas_charge _ => apply ensures_skip; intros ?
      | gas_use _ => apply ensures_skip; intros ?
      | fail _ => apply ensures_fail
      | unexpected _ => apply ensures_fail
      end
  | |- ensures _ (match ?x with _ => _ end) => tryif is_var x then destruct x else destruct x eqn:?
  end.

Section Simple.
Context {Bls : BlsTypes} {St : Type} {LS : LazyStorage St} {F : Features} {st : St}.
Abbreviation ok A := (ensures (instr_ok (F := F) (st := st) A)).
Implicit Types (A : list Ty).

Lemma mono_intro i ins outs A B C :
  mono_sig i = Some (ins, outs) -> B = ins ++ A -> C = outs ++ A -> instr_typed F st i B C.
Proof. intros ? -> ->. by apply IT_Mono. Qed.

Lemma take_drop_split {U} n (l : list U) : (n <= length l)%nat -> l = take n l ++ drop n l /\ length (take n l) = n.
Proof. intros. rewrite take_drop, length_take. split; [done | lia]. Qed.

Lemma tc_drop_ok i args A : ok A (tc_drop i args A).
Proof.
  unfold tc_drop. apply ensures_skip. intros n. repeat tc_step.
  unfold Top.drop_top in *. case_decide; simplify_eq. apply ensures_typed.
  destruct (take_drop_split (default 1%nat n) A) as [E Hl]; [done|].
  rewrite E at 1. by constructor.
Qed.

Lemma tc_dup_ok i args A : ok A (tc_dup i args A).
Proof.
  assert (Hk : forall n : option nat, default 1%nat n <> 0%nat ->
    ok A (let dup_height := default 1%nat n in
          ensure_stack_len Prim.DUP A dup_height >>;
          let+ ty := lift (res_option (Top.index (dup_height - 1) A) StackOutOfBounds) in
          ensure_prop ty Duplicable >>; typed (IDup n) (ty :: A))).
  { intros n Hn. cbv zeta. repeat tc_step. apply ensures_typed.
    apply (IT_Dup _ _ _ (default 1%nat n - 1)); [lia | done | done]. }
  unfold tc_dup. destruct args as [|[z| | | |] [|? ?]]; try apply ensures_fail.
  - by apply (Hk None).
  - destruct z; [apply ensures_fail| |]; (eapply ensures_bind; [|intros n Hn; exact (Hk n Hn)]);
      (eapply ensures_bind; [apply validate_u10_ok | intros n [Hn _]]); apply ensures_ret; simpl; lia.
  - destruct z; apply ensures_fail.
Qed.

Lemma tc_dig_ok i args A : ok A (tc_dig i args A).
Proof.
  unfold tc_dig. repeat tc_step.
  - unfold Top.remove in *. destruct (drop _ _) as [|x r] eqn:E; simplify_eq.
    apply ensures_typed. rewrite <- (take_drop a A) at 1. rewrite E. constructor. rewrite length_take. lia.
  - apply ensures_typed. replace a with 0%nat by lia. destruct A as [|t A]; [constructor|].
    by apply (IT_Dig _ _ 0 []).
Qed.

Lemma tc_dug_ok i args A : ok A (tc_dug i args A).
Proof.
  unfold tc_dug. repeat tc_step.
  - destruct A as [|u A]; simplify_eq/=. unfold Top.insert in *. case_decide; simplify_eq.
    apply ensures_typed. rewrite <- (take_drop a l0) at 1. constructor. rewrite length_take. lia.
  - apply ensures_typed. replace a with 0%nat by lia. destruct A as [|t A]; [constructor|].
    by apply (IT_Dug _ _ 0 []).
Qed.

Lemma tc_pair_ok i args A : ok A (tc_pair i args A).
Proof.
  unfold tc_pair. repeat tc_step; [apply ensures_typed; constructor|].
  unfold Top.split_off in *. case_decide; simplify_eq. apply ensures_typed.
  match goal with H : comb _ (take ?n _) = _ |- _ => destruct (take_drop_split n A) as [E Hl]; [lia|] end.
  rewrite E at 1. rewrite <- Hl at 1. by constructor.
Qed.

Lemma unpair_fill_ok n A t : ensures (fun B => exists P, B = P ++ A /\ comb TPair P = Some t /\ length P = S n) (unpair_fill n A t).
Proof.
  revert t. induction n as [|n IH]; intros t; cbn [unpair_fill].
  - apply ensures_ret. by exists [t].
  - destruct t; try apply ensures_fail.
    eapply ensures_bind; [apply IH | intros B (P & -> & HP & Hl)]. apply ensures_ret.
    exists (t1 :: P). split_and!; [done | | simpl; lia]. destruct P; [done|]. simpl in *. by rewrite HP.
Qed.

Lemma tc_unpair_ok i args A : ok A (tc_unpair i args A).
Proof.
  unfold tc_unpair. repeat tc_step; [apply ensures_typed; constructor|].
  eapply ensures_bind; [apply unpair_fill_ok | intros B (P & -> & HP & Hl)]. apply ensures_typed.
  match goal with |- instr_typed _ _ (IUnpairN ?k) _ _ => replace k with (length P) by lia end.
  by constructor.
Qed.

Lemma tc_get_ok i args A : ok A (tc_get i args A).
Proof.
  unfold tc_get. repeat tc_step; try (apply ensures_typed; constructor).
  apply ensures_typed. by eapply IT_GetN.
Qed.

Lemma tc_update_ok i args A : ok A (tc_update i args A).
Proof.
  unfold tc_update. repeat tc_step; try (apply ensures_typed; constructor).
  apply ensures_typed. by eapply IT_UpdateN.
Qed.

Lemma tc_self_ok anns eps A : ok A (tc_self anns eps A).
Proof.
  unfold tc_self. do 2 (apply ensures_skip; intros ?). repeat tc_step. apply ensures_typed. constructor.
Qed.

Lemma tc_emit_ok i args anns A : ok A (tc_emit i args anns A).
Proof.
  unfold tc_emit. repeat tc_step; apply ensures_skip; intros ?; apply ensures_typed; constructor.
Qed.

Lemma tc_contract_ok i args anns A : dynamic F -> ok A (tc_contract i args anns A).
Proof.
  intros HF. unfold tc_contract. repeat tc_step. do 3 (apply ensures_skip; intros ?). cbv zeta.
  repeat tc_step. apply ensures_typed. by constructor.
Qed.

Lemma tc_unpack_ok i args A : dynamic F -> ok A (tc_unpack i args A).
Proof. intros HF. unfold tc_unpack. repeat tc_step. apply ensures_typed. by constructor. Qed.

Lemma tc_ticket_ok A : any_ticket F -> ok A (tc_ticket A).
Proof. intros HF. unfold tc_ticket. repeat tc_step. apply ensures_typed. constructor. by right. Qed.

End Simple.

(** ** Instructions with nested code *)
Section Nested.
Context {Bls : BlsTypes} {St : Type} {LS : LazyStorage St} {F : Features} {st : St}.
Abbreviation ok A := (ensures (instr_ok (F := F) (st := st) A)).
Implicit Types (A : list Ty).

Context (typecheck : list Micheline -> FailingTypeStack -> T (list Instruction * FailingTypeStack)).
Hypothesis typecheck_ok : forall ms A,
  Forall (allows F) ms -> ensures (block_ok (F := F) (st := st) A) (typecheck ms (FOk A)).

(** A block of the arguments is checked with code that keeps to its features. *)
Local Ltac block :=
  eapply ensures_bind; [apply typecheck_ok; by apply allows_forall | intros [? ?] ?].
Local Ltac unified := eapply ensures_bind; [apply unify_stacks_ok | intros ? ?; cbv beta in *].

(** The conclusion for a result stack [B] of branches that were unified. *)
Local Ltac branches := apply ensures_ret; intros B ?; constructor; firstorder.

Lemma tc_dip_ok i args A : Forall (allows F) args -> ok A (tc_dip typecheck i args A).
Proof using typecheck_ok.
  intros Hargs. unfold tc_dip.
  apply (ensures_bind (fun r : option nat * list Micheline => Forall (allows F) r.2)).
  { repeat tc_step; apply ensures_ret; decompose_Forall; by apply allows_forall. }
  intros [n nested] Hn. repeat tc_step. unfold Top.split_off in *. case_decide; simplify_eq.
  eapply ensures_bind; [by apply typecheck_ok | intros [is' f] Hf].
  eapply ensures_bind; [exact (fun g s g' => access_mut_ok f FailNotInTail s g g') | intros B ->].
  apply ensures_typed. destruct (take_drop_split (default 1%nat n) A) as [E Hl]; [done|].
  rewrite E at 1. constructor; [done | by apply Hf].
Qed.

Lemma tc_if_ok i args A : Forall (allows F) args -> ok A (tc_if typecheck i args A).
Proof using typecheck_ok.
  intros Hargs. unfold tc_if. repeat tc_step. decompose_Forall. block. block. unified. branches.
Qed.

Lemma tc_if_none_ok i args A : Forall (allows F) args -> ok A (tc_if_none typecheck i args A).
Proof using typecheck_ok.
  intros Hargs. unfold tc_if_none. repeat tc_step. decompose_Forall. block. block. unified. branches.
Qed.

Lemma tc_if_cons_ok i args A : Forall (allows F) args -> ok A (tc_if_cons typecheck i args A).
Proof using typecheck_ok.
  intros Hargs. unfold tc_if_cons. repeat tc_step. decompose_Forall. block. block. unified. branches.
Qed.

Lemma tc_if_left_ok i args A : Forall (allows F) args -> ok A (tc_if_left typecheck i args A).
Proof using typecheck_ok.
  intros Hargs. unfold tc_if_left. repeat tc_step. decompose_Forall. block. block. unified. branches.
Qed.

Lemma tc_loop_ok i args A : Forall (allows F) args -> ok A (tc_loop typecheck i args A).
Proof using typecheck_ok.
  intros Hargs. unfold tc_loop. repeat tc_step. decompose_Forall. block. unified. apply ensures_ret.
  match goal with H : forall B, below ?r B -> _ |- _ =>
    destruct r as [B0|]; [destruct (H B0 eq_refl) as [? <-] | by destruct (H []) as [_ ?]] end.
  intros B <-. simpl. constructor. firstorder.
Qed.

Lemma tc_loop_left_ok i args A : Forall (allows F) args -> ok A (tc_loop_left typecheck i args A).
Proof using typecheck_ok.
  intros Hargs. unfold tc_loop_left. repeat tc_step. decompose_Forall. block. unified.
  eapply ensures_bind; [exact (fun g s g' => access_mut_ok _ FailNotInTail s g g') | intros B ->].
  match goal with H : forall C, below (FOk B) C -> _ |- _ => destruct (H B eq_refl) as [? <-] end.
  repeat tc_step. unfold Top.index_set in *. case_decide; simplify_eq/=. apply ensures_typed. constructor. firstorder.
Qed.

Lemma tc_iter_ok i args A : Forall (allows F) args -> ok A (tc_iter typecheck i args A).
Proof using typecheck_ok.
  intros Hargs. unfold tc_iter, tc_iter_body. repeat tc_step; decompose_Forall; block;
    (eapply ensures_bind; [apply (unify_stacks_ok (FOk _)) | intros ? ?; cbv beta in *]);
    apply ensures_ret; intros B HB;
    match goal with H : forall C, below _ C -> _ |- _ => destruct (H B HB) as [<- ?] end;
    constructor; firstorder.
Qed.

Lemma map_block_ok nested t A :
  allows F (MSeq nested) ->
  ensures (fun r => block_typed F st r.1 (t :: A) (r.2 :: A)) (typecheck_map_block typecheck nested t A).
Proof using typecheck_ok.
  intros Hn. unfold typecheck_map_block. block.
  eapply ensures_bind; [exact (fun g s g' => access_mut_ok _ MapBlockFail s g g') | intros B ->].
  destruct B as [|u B]; [apply ensures_fail|].
  eapply ensures_bind; [apply ensure_stacks_eq_ok | intros ? ->]. apply ensures_ret. firstorder.
Qed.

Lemma tc_map_ok i args A : Forall (allows F) args -> ok A (tc_map typecheck i args A).
Proof using typecheck_ok.
  intros Hargs. unfold tc_map. repeat tc_step; decompose_Forall;
    (eapply ensures_bind; [by apply map_block_ok | intros [? ?] ?; apply ensures_typed]); by constructor.
Qed.

Lemma tc_push_ok typecheck_value i args A :
  (forall m t, allows F m -> wf_ty t = true -> ensures (fun v => value_typed F st v t) (typecheck_value m t)) ->
  Forall (allows F) args -> ok A (tc_push typecheck_value i args A).
Proof.
  intros Hv Hargs. unfold tc_push. repeat tc_step. decompose_Forall.
  eapply ensures_bind; [by apply Hv | intros v ?]. apply ensures_typed. by constructor.
Qed.

Lemma tc_lambda_ok typecheck_lambda rec i args A :
  (forall ms a b, allows F (MSeq ms) -> ensures (fun l => lambda_typed F st l a b) (typecheck_lambda ms a b rec)) ->
  Forall (allows F) args -> ok A (tc_lambda typecheck_lambda rec i args A).
Proof.
  intros Hl Hargs. unfold tc_lambda. repeat tc_step. decompose_Forall.
  eapply ensures_bind; [by apply Hl | intros l ?]. apply ensures_typed. by constructor.
Qed.

Lemma tc_create_contract_ok typecheck_script i args A :
  (forall m, allows F m -> ensures (fun cs => script_typed F st cs) (typecheck_script m)) ->
  Forall (allows F) args -> ok A (tc_create_contract typecheck_script i args A).
Proof.
  intros Hs Hargs. unfold tc_create_contract. repeat tc_step. decompose_Forall.
  eapply ensures_bind; [by apply Hs | intros cs ?]. eapply ensures_bind; [apply ensure_ty_eq_ok | intros ? <-]. apply ensures_typed. by constructor.
Qed.
End Nested.
End MirTcSound.
Export MirTcSound.

(** Soundness of the typechecker, continued: values, lambdas and scripts. *)
Module MirTcValues.
Section Values.
Context {Bls : BlsTypes} {X : Extern} {St : Type} {LS : LazyStorage St} {F : Features}.
Context (env : TcEnv St).
Abbreviation st := (env_storage env).
Abbreviation vtyped v t := (value_typed F st v t).

(** ** Ordered containers *)
Lemma validate_order_ok {A C} (tc : A -> T C) (key : C -> TypedValue) ct (P : C -> Prop) t vs :
  comparable t = true -> (forall c, P c -> vtyped (key c) t) -> Forall (fun v => ensures P (tc v)) vs ->
  forall cur, P cur ->
  ensures (fun l => exists rest, l = cur :: rest /\ Forall P l /\ sorted_keys (map key l))
    (validate_order tc key ct cur vs).
Proof.
  intros Ht HP Hvs. induction Hvs as [|v vs Hv _ IH]; intros cur Hcur; cbn [validate_order].
  { apply ensures_ret. exists []. split_and!; repeat constructor. done. }
  eapply ensures_bind; [exact Hv | intros next Hnext]. apply ensures_skip. intros _.
  apply ensures_lift. intros c Hc.
  destruct c; [apply ensures_fail | | apply ensures_fail].
  apply ensures_skip. intros _. eapply ensures_bind; [by apply IH | intros l (rest & -> & HPl & Hs)].
  apply ensures_ret. exists (next :: rest). split_and!; [done | by constructor |].
  unfold cmp in Hc. destruct (partial_cmp (key cur) (key next)) as [c|] eqn:E; simplify_eq/=.
  constructor; [done|]. inversion Hs as [|? ? Hs' Hlt]; subst. constructor; [done|].
  apply Forall_cons in HPl as [_ HPr]. rewrite Forall_map in Hlt |- *.
  rewrite Forall_forall in *. intros x Hx. unfold key_lt in *.
  apply (cmp_trans (F := F) (st := st) t Ht _ (key next)); auto.
Qed.

Lemma collect_ordered_ok {A C} (tc : A -> T C) (key : C -> TypedValue) ct (P : C -> Prop) t vs :
  comparable t = true -> (forall c, P c -> vtyped (key c) t) -> Forall (fun v => ensures P (tc v)) vs ->
  ensures (fun l => Forall P l /\ sorted_keys (map key l)) (collect_ordered tc key ct vs).
Proof.
  intros Ht HP Hvs. destruct Hvs as [|v vs Hv Hvs]; cbn [collect_ordered].
  { apply ensures_ret. split; constructor. }
  eapply ensures_bind; [exact Hv | intros cur Hcur].
  eapply ensures_mono; [by eapply validate_order_ok | by intros l (rest & -> & ?)].
Qed.

Lemma collect_ok {A C} (tc : A -> T C) (P : C -> Prop) vs :
  Forall (fun v => ensures P (tc v)) vs -> ensures (Forall P) (collect tc vs).
Proof.
  induction 1 as [|v vs Hv _ IH]; cbn [collect]; [by apply ensures_ret|].
  eapply ensures_bind; [exact Hv | intros x Hx]. eapply ensures_bind; [exact IH | intros xs Hxs].
  apply ensures_ret. by constructor.
Qed.

(** ** Values, for a sound [typecheck_value] on the components *)
Section Components.
Context (tc : Micheline -> Ty -> T TypedValue).
Hypothesis tc_ok : forall m t,
  allows F m -> wf_ty t = true -> ensures (fun v => vtyped v t) (tc m t).

Lemma typecheck_set_ok set_ty t vs :
  Forall (allows F) vs -> comparable t = true -> wf_ty t = true ->
  ensures (fun l => vtyped (VSet l) (TSet t)) (typecheck_set tc set_ty t vs).
Proof using tc_ok.
  intros Hvs Ht Hwf. apply ensures_skip. intros _.
  eapply ensures_mono; [apply (collect_ordered_ok _ _ _ (fun v => vtyped v t) t); [done..|]|].
  - eapply Forall_impl; [exact Hvs|]. auto.
  - intros l [Hl Hs]. rewrite map_id in Hs. by constructor.
Qed.

Lemma typecheck_elt_ok {V} (f : TypedValue -> V) (P : V -> Prop) map_ty tk tv m :
  allows F m -> wf_ty tk = true -> wf_ty tv = true -> (forall v, vtyped v tv -> P (f v)) ->
  ensures (fun e => vtyped e.1 tk /\ P e.2) (typecheck_elt tc map_ty tk tv f m).
Proof using tc_ok.
  intros Hm Hk Hv HP. unfold typecheck_elt.
  destruct m as [| | |p args anns|]; try apply ensures_fail. destruct p; try apply ensures_fail.
  destruct args as [|k [|v [|]]]; try apply ensures_fail.
  apply allows_app in Hm as (_ & _ & Hm). decompose_Forall.
  eapply ensures_bind; [by apply tc_ok | intros vk ?].
  eapply ensures_bind; [by apply tc_ok | intros vv ?]. apply ensures_ret. simpl. auto.
Qed.

Lemma typecheck_map_ok {V} (f : TypedValue -> V) (P : V -> Prop) map_ty tk tv vs :
  Forall (allows F) vs -> comparable tk = true -> wf_ty tk = true -> wf_ty tv = true ->
  (forall v, vtyped v tv -> P (f v)) ->
  ensures (fun l => sorted_keys (l.*1) /\ Forall (fun e => vtyped e.1 tk /\ P e.2) l)
    (typecheck_map tc map_ty tk tv vs f).
Proof using tc_ok.
  intros Hvs Hc Hk Hv HP. apply ensures_skip. intros _.
  eapply ensures_mono; [apply (collect_ordered_ok _ _ _ (fun e => vtyped e.1 tk /\ P e.2) tk)|].
  - done.
  - by intros c [? _].
  - eapply Forall_impl; [exact Hvs|]. intros m Hm. by apply typecheck_elt_ok.
  - by intros l [? ?].
Qed.

Lemma typecheck_big_map_ok t tk tv m :
  allows F m -> comparable tk = true -> wf_ty tk = true -> wf_ty tv = true ->
  ensures (fun v => vtyped v (TBigMap tk tv)) (typecheck_big_map env tc t tk tv m).
Proof using tc_ok.
  intros Hm Hc Hk Hv. unfold typecheck_big_map.
  apply (ensures_bind (fun r : option Z * option (list Micheline) =>
    match r.2 with Some vs => Forall (allows F) vs | None => True end)).
  { repeat tc_step; apply ensures_ret; simpl; try done; [|by apply allows_forall].
    apply allows_app in Hm as (_ & _ & Hm). decompose_Forall. by apply allows_forall. }
  intros [id vs] Hvs. simpl in Hvs.
  apply (ensures_bind (fun r => forall i, r = Some i -> big_map_get_type st i = Done (Some (tk, tv)))).
  { destruct id as [id|]; [|by apply ensures_ret].
    intros g r g'. unfold bind at 1, map_err, lift.
    destruct (big_map_get_type st id) as [[[k v]|]| | |] eqn:E; simpl; try done.
    intros Hr. revert g r g' Hr. change (ensures (fun r => forall i, r = Some i -> big_map_get_type st i = Done (Some (tk, tv)))
      (ensure_ty_eq k tk >>; ensure_ty_eq v tv >>; ret (Some id))).
    repeat tc_step. apply ensures_ret. by intros i [= <-]. }
  intros r Hr.
  apply (ensures_bind (fun l => sorted_keys (l.*1) /\
    Forall (fun e => vtyped e.1 tk /\ vtyped (VOption e.2) (TOption tv)) l)).
  { destruct vs as [vs|]; [|apply ensures_ret; split; constructor].
    apply (typecheck_map_ok Some (fun o => vtyped (VOption o) (TOption tv))); try done.
    intros; by constructor. }
  intros l [Hs Hl]. apply ensures_ret. by constructor.
Qed.
End Components.

Lemma typecheck_leaf_ok m t : ensures (fun v => vtyped v t) (typecheck_leaf m t).
Proof.
  unfold typecheck_leaf.
  destruct t; try apply ensures_fail; repeat tc_step; try (apply ensures_ret; constructor);
    try (apply ensures_skip; intros ?; apply ensures_ret; constructor).
  unfold mutez_range. lia.
Qed.

(** ** Scripts *)
Lemma script_fields_ok seq p s c :
  Forall (allows F) seq -> (forall m, c = Some m -> allows F m) ->
  ensures (fun r => forall m, r.2 = Some m -> allows F m) (script_fields seq p s c).
Proof.
  intros Hseq. revert p s c. induction Hseq as [|m seq Hm _ IH]; intros p s c Hc; cbn [script_fields].
  { by apply ensures_ret. }
  repeat tc_step; apply ensures_skip; intros _; apply IH; try done.
  apply allows_app in Hm as (_ & _ & Hm). decompose_Forall. by intros ? [= <-].
Qed.

Lemma field_or_missing_ok p f : ensures (fun m => f = Some m) (field_or_missing p f).
Proof. destruct f; [by apply ensures_ret | apply ensures_fail]. Qed.

Lemma typecheck_script_with_ok tci m :
  (forall m eps A, allows F m -> ensures (instr_ok (F := F) (st := st) A) (tci m eps (FOk A))) ->
  allows F m -> ensures (script_typed F st) (typecheck_script_with tci m).
Proof.
  intros Htci Hm. unfold typecheck_script_with.
  apply (ensures_bind (fun seq => Forall (allows F) seq)).
  { repeat tc_step; apply ensures_ret; apply allows_forall in Hm; decompose_Forall; try done.
    by apply allows_forall. }
  intros seq Hseq. eapply ensures_bind; [apply script_fields_ok; done | intros [[p s] c] Hc]. simpl in Hc.
  do 4 (apply ensures_skip; intros ?; repeat match goal with x : _ * _ |- _ => destruct x end).
  do 2 (apply ensures_skip; intros ?).
  eapply ensures_bind; [apply field_or_missing_ok | intros code Hcode].
  eapply ensures_bind; [apply Htci; by apply Hc | intros [i f] Hi].
  eapply ensures_bind; [apply (unify_stacks_ok (FOk _)) | intros r Hr; cbv beta in *].
  apply ensures_ret. constructor. apply Hi.
  destruct r as [B|]; [by destruct (Hr B eq_refl) as [<- ?] | by destruct (Hr [] Logic.I)].
Qed.

(** ** The knot *)
Definition sound_at (n : nat) : Prop :=
  (forall m t, allows F m -> wf_ty t = true -> ensures (fun v => vtyped v t) (typecheck_value env n m t)) /\
  (forall ms a b r, allows F (MSeq ms) ->
     ensures (fun l => lambda_typed F st l a b) (typecheck_lambda env n ms a b r)) /\
  (forall ms eps A, Forall (allows F) ms ->
     ensures (block_ok (F := F) (st := st) A) (typecheck env n ms eps (FOk A))) /\
  (forall m eps A, allows F m ->
     ensures (instr_ok (F := F) (st := st) A) (typecheck_instruction env n m eps (FOk A))).

Lemma lambda_step n ms a b r :
  (forall ms eps A, Forall (allows F) ms ->
     ensures (block_ok (F := F) (st := st) A) (typecheck env n ms eps (FOk A))) ->
  allows F (MSeq ms) -> ensures (fun l => lambda_typed F st l a b) (typecheck_lambda env (S n) ms a b r).
Proof.
  intros IH Hms. apply allows_forall in Hms. cbn [typecheck_lambda].
  destruct r; (eapply ensures_bind; [by apply IH | intros [code f] Hf]);
    (eapply ensures_bind; [apply unify_stacks_ok | intros u Hu; cbv beta in *]);
    apply ensures_ret; constructor; apply Hf;
    (destruct u as [B|]; [by destruct (Hu B eq_refl) as [? <-] | by destruct (Hu [] Logic.I)]).
Qed.

Lemma block_step n ms eps A :
  (forall m eps A, allows F m ->
     ensures (instr_ok (F := F) (st := st) A) (typecheck_instruction env n m eps (FOk A))) ->
  Forall (allows F) ms -> ensures (block_ok (F := F) (st := st) A) (typecheck env (S n) ms eps (FOk A)).
Proof.
  intros IH Hms. cbn [typecheck]. revert A. induction Hms as [|m ms Hm Hms IHms]; intros A.
  { apply ensures_ret. intros B <-. constructor. }
  eapply ensures_bind; [by apply IH | intros [i f] Hi]. destruct f as [B|].
  - eapply ensures_bind; [apply IHms | intros [is' f] His]. apply ensures_ret.
    intros C HC. econstructor; [by apply Hi | by apply His].
  - destruct ms as [|m' ms].
    + apply ensures_ret. intros B _. econstructor; [by apply Hi | constructor].
    + destruct n; [apply ensures_no_fuel | apply ensures_fail].
Qed.
(** The components of a pair, however it is written. *)
Lemma pair_value_ok n vl rest tl tr :
  sound_at n -> Forall (allows F) (vl :: rest) -> wf_ty tl = true -> wf_ty tr = true ->
  ensures (fun v => vtyped v (TPair tl tr))
    (let+ l := typecheck_value env n vl tl in
     let+ r := match rest with
               | [vr] => typecheck_value env n vr tr
               | vrs => typecheck_value env n (MApp Prim.Pair vrs NO_ANNS) tr
               end in
     ret (VPair l r)).
Proof.
  intros (IHv & _) [Hvl Hrest]%Forall_cons Hl Hr.
  eapply ensures_bind; [by apply IHv | intros l ?].
  assert (Happ : allows F (MApp Prim.Pair rest NO_ANNS)) by by apply allows_app.
  apply (ensures_bind (fun v => vtyped v tr)).
  - destruct rest as [|vr [|]]; apply IHv; try done. by apply Forall_cons in Hrest as [? _].
  - intros r ?. apply ensures_ret. by constructor.
Qed.

(** [typecheck_value] at a ticket type. *)
Lemma ticket_value_ok n m c (e : TcError) :
  sound_at n -> allows F m -> comparable c = true -> wf_ty c = true ->
  ensures (fun v => vtyped v (TTicket c)) (fun g =>
    match typecheck_value env n m (TPair TAddress (TPair c TNat)) g with
    | (Done (VPair a b), g) =>
        match a, b with
        | VAddress address, VPair content (VNat amount) =>
            (Done (VTicket (mkTicket (addr_hash address) content amount)), g)
        | _, _ => (Panics UnreachableState, g)
        end
    | (Done _, g) | (Error _, g) => (Error e, g)
    | (Panics p, g) => (Panics p, g)
    | (NoFuel, g) => (NoFuel, g)
    end).
Proof.
  intros (IHv & _) Hm Hc Hwf g v g' E.
  destruct (typecheck_value env n m _ g) as [[u|u|p|] g1] eqn:Eu; try done.
  eapply IHv in Eu; [|done|simpl; by rewrite Hwf]. typed_inv. simplify_eq.
  constructor; [by left | done].
Qed.

(** The children of a node of Micheline. *)
Local Ltac children :=
  repeat match goal with
  | H : allows _ (MApp _ _ _) |- _ => apply allows_app in H as (_ & _ & H)
  | H : allows _ (MSeq _) |- _ => apply allows_forall in H
  end; decompose_Forall.

Local Ltac value_cases :=
  repeat match goal with
  | |- ensures _ (match ?x with _ => _ end) => is_var x; destruct x; try apply typecheck_leaf_ok
  end.

Lemma value_step n m t :
  sound_at n -> allows F m -> wf_ty t = true -> ensures (fun v => vtyped v t) (typecheck_value env (S n) m t).
Proof.
  intros IH Hm Ht. pose proof IH as (IHv & IHl & _ & _). cbn [typecheck_value]. apply ensures_skip. intros _.
  destruct t; try apply typecheck_leaf_ok; simpl in Ht; rewrite ?andb_true_iff in Ht; destruct_and?.
  - value_cases; match type of Hm with
      allows _ (MApp _ (?vl :: ?r) _) => apply allows_app in Hm as (_ & _ & Hm); by apply (pair_value_ok n vl r)
    | allows _ (MSeq (?vl :: ?r)) => apply allows_forall in Hm; by apply (pair_value_ok n vl r)
    end.
  - value_cases; [apply ensures_ret; constructor|]. children.
    eapply ensures_bind; [by apply IHv | intros x ?]. apply ensures_ret. by constructor.
  - value_cases. eapply ensures_bind; [eapply collect_ok | intros l ?; apply ensures_ret; by constructor].
    apply allows_forall in Hm. eapply Forall_impl; [exact Hm|]. simpl. auto.
  - value_cases. apply allows_forall in Hm.
    eapply ensures_bind; [by apply typecheck_set_ok | intros l ?; by apply ensures_ret].
  - value_cases. apply allows_forall in Hm.
    eapply ensures_bind; [apply (typecheck_map_ok _ IHv (fun v => v) (fun v => vtyped v t2)); done|].
    intros l [? ?]. apply ensures_ret. by constructor.
  - by apply typecheck_big_map_ok.
  - value_cases; children; (eapply ensures_bind; [by apply IHv | intros x ?]); apply ensures_ret; by constructor.
  - apply ensures_skip. intros []; try apply ensures_panic. apply ensures_skip. intros.
    apply ensures_ret. constructor.
  - value_cases; (eapply ensures_bind; [apply IHl | intros l ?; apply ensures_ret; by repeat constructor]); [|done].
    by children.
  - by apply ticket_value_ok.
Qed.

(** The instructions without nested code that need no further argument. *)
Local Ltac simple_instr :=
  unfold_tc_instr; repeat tc_step;
  first [ apply ensures_typed; first [ eapply mono_intro; reflexivity | by constructor ]
        | apply ensures_ret; intros ? _; by constructor ].

Lemma instr_step n m eps A :
  sound_at n -> allows F m ->
  ensures (instr_ok (F := F) (st := st) A) (typecheck_instruction env (S n) m eps (FOk A)).
Proof.
  intros (IHv & IHl & IHt & IHi) Hm. cbn [typecheck_instruction].
  eapply ensures_bind; [exact (fun g s g' => access_mut_ok _ FailNotInTail s g g') | intros s [= <-]].
  apply ensures_skip. intros ?. destruct m as [| | |p args anns|ms]; try apply ensures_fail.
  2: { apply allows_forall in Hm. eapply ensures_bind; [by apply IHt | intros [is' f] Hf].
       apply ensures_ret. intros B HB. constructor. by apply Hf. }
  apply allows_app in Hm as (Hdyn & Htick & Hargs).
  destruct p; try apply ensures_fail;
    first [ by apply tc_unpack_ok, Hdyn | by apply tc_contract_ok, Hdyn
          | by apply no_args_ok, tc_ticket_ok, Htick
          | apply tc_drop_ok | apply tc_dup_ok | apply tc_dig_ok | apply tc_dug_ok | apply tc_pair_ok
          | apply tc_unpair_ok | apply tc_get_ok | apply tc_update_ok | apply tc_emit_ok
          | apply no_args_ok, tc_self_ok
          | apply tc_dip_ok | apply tc_if_ok | apply tc_if_none_ok | apply tc_if_cons_ok
          | apply tc_if_left_ok | apply tc_loop_ok | apply tc_loop_left_ok | apply tc_iter_ok
          | apply tc_map_ok | apply tc_push_ok | apply tc_lambda_ok | apply tc_create_contract_ok
          | idtac ]; try done; try (intros; by apply IHt); try (intros; by apply IHl).
  all: try (intros; by apply typecheck_script_with_ok).
  all: try apply no_args_ok; simple_instr.
Qed.

Lemma typechecker_sound_at n : sound_at n.
Proof.
  induction n as [|n IH].
  { repeat split; intros; apply ensures_no_fuel. }
  pose proof IH as (IHv & IHl & IHt & IHi). split_and!; intros.
  - by apply value_step.
  - by apply lambda_step.
  - by apply block_step.
  - by apply instr_step.
Qed.
End Values.
End MirTcValues.
Export MirTcValues.
