(* ===== verification/MirSafety.v ===== *)
(** Type safety of the interpreter: well-typed code run on a well-typed stack gives a stack of
    its result type, or an error; what is left of panics is the price of the typechecking at
    run time and of tickets with incomparable contents. *)

From Stdlib Require Import Sorted.
From stdpp Require Import strings.
From S2P Require Import Prelude MirAst MirGas MirStack MirCompare MirExtern MirSerial MirCtx MirTypes MirTcInstr MirTypecheck MirOps MirInterp MirTyping MirSerialProps MirSound MirTcSound.

Open Scope Z_scope.

Module MirSafety.
Section Safety.
Context {Bls : BlsTypes} {X : Extern} {St : Type} {LS : LazyStorage St}.
Context {F : Features} {st : St} {XS : ExternSound X} {SS : StorageSound F st}.
Abbreviation I := (M (Ctx St) InterpretError).
Abbreviation vtyped v t := (value_typed F st v t).
Abbreviation styped s A := (stack_typed F st s A).
Implicit Types (A B P : list Ty).

(** ** Pairs *)
Lemma comb_cons {C} (f : C -> C -> C) x y l :
  comb f (x :: y :: l) = match comb f (y :: l) with Some acc => Some (f x acc) | None => None end.
Proof. done. Qed.

Lemma comb_typed P p t : styped p P -> comb TPair P = Some t -> exists v, comb VPair p = Some v /\ vtyped v t.
Proof.
  intros Hp. revert t. induction Hp as [|v tv p P Hv Hp IH]; intros t; [done|].
  destruct P as [|u P]; inversion Hp; subst.
  - intros [= ->]. exists v. done.
  - rewrite !comb_cons. destruct (comb TPair (u :: P)) as [t'|]; [|done]. intros [= <-].
    destruct (IH t' eq_refl) as (w & Hw & Htw). rewrite Hw.
    eexists. split; [done|]. by constructor.
Qed.

Lemma op_pair_n_sound P t A : comb TPair P = Some t -> maps F st (P ++ A) (t :: A) (op_pair_n (length P)).
Proof.
  intros HP s (p & s' & -> & Hl & Hp & Hs)%stack_typed_app. unfold op_pair_n. sound_step.
  eapply sound_at_stack; [rewrite <- Hl; apply split_off_app | cbv beta iota].
  destruct (comb_typed P p t Hp HP) as (v & Hv & Hvt). rewrite Hv.
  eapply sound_pure; [done|]. sound_step. by constructor.
Qed.

Lemma fill_sound P t v A s n :
  comb TPair P = Some t -> length P = S n -> vtyped v t -> styped s A ->
  sound F st (fun s' => styped s' (P ++ A)) (fill n s v).
Proof.
  revert t v n. induction P as [|u P IH]; intros t v n HP Hn Hv Hs; [done|].
  destruct P as [|u' P], n as [|n]; simpl in Hn; try lia; cbn [fill].
  - simpl in HP. simplify_eq. sound_step. by constructor.
  - rewrite comb_cons in HP. destruct (comb TPair (u' :: P)) as [t'|] eqn:Et; simplify_eq. typed_inv.
    eapply sound_bind; [apply (IH t'); try done; simpl; lia | intros s' Hs'].
    sound_step. by constructor.
Qed.

Lemma op_unpair_n_sound P t A : comb TPair P = Some t -> maps F st (t :: A) (P ++ A) (op_unpair_n (length P)).
Proof.
  intros HP s Hs. stack_inv. unfold op_unpair_n. repeat sound_step.
  destruct P as [|u P]; [done|]. simpl. by apply (fill_sound (u :: P) t).
Qed.

Lemma nth_field_typed n t f put v :
  ty_nth_field n t = Ok (f, put) -> vtyped v t ->
  exists fv pv, nth_field n v = Some (fv, pv) /\ vtyped fv f /\ forall w u, vtyped w u -> vtyped (pv w) (put u).
Proof.
  revert t f put v. induction n as [n IH] using lt_wf_ind. intros t f put v Ht Hv.
  destruct n as [|[|n]]; cbn [ty_nth_field nth_field] in *.
  - simplify_eq. destruct v; eauto 6.
  - destruct t; simplify_eq. typed_inv. eexists _, _. split_and!; [done..|]. intros; by constructor.
  - destruct t; simplify_eq. destruct (ty_nth_field n t2) as [[f' put']|] eqn:E; simplify_eq. typed_inv.
    destruct (IH n ltac:(lia) t2 f put' r) as (fv & pv & -> & Hfv & Hpv); [done..|].
    eexists _, _. split_and!; [done..|]. intros. constructor; auto.
Qed.

Lemma op_get_n_sound n t f put A : ty_nth_field n t = Ok (f, put) -> maps F st (t :: A) (f :: A) (op_get_n n).
Proof.
  intros Hf s Hs. stack_inv. unfold op_get_n. sound_step.
  destruct (nth_field_typed n t f put x) as (fv & pv & Hn & Hv & _); [done..|].
  eapply sound_top_as; [exact Hn|]. sound_step. by constructor.
Qed.

Lemma op_update_n_sound n t f put u A :
  ty_nth_field n t = Ok (f, put) -> maps F st (u :: t :: A) (put u :: A) (op_update_n n).
Proof.
  intros Hf s Hs. stack_inv. unfold op_update_n. repeat sound_step.
  destruct (nth_field_typed n t f put x1) as (fv & pv & Hn & _ & Hp); [done..|].
  eapply sound_top_as; [exact Hn|]. sound_step. constructor; auto.
Qed.

(** ** Comparison and containers *)
Lemma sound_cmp {D} (Q : D -> Prop) t x y (k : comparison -> I D) :
  comparable t = true -> vtyped x t -> vtyped y t ->
  (forall c, sound F st Q (k c)) -> sound F st Q (bind (lift (cmp x y)) k).
Proof.
  intros Ht Hx Hy Hk. destruct (cmp_some t Ht x y Hx Hy) as [c Hc]. unfold cmp. rewrite Hc.
  by apply (sound_pure F st Q _ k c).
Qed.

Lemma op_compare_sound t A : comparable t = true -> maps F st (t :: t :: A) (TInt :: A) op_compare.
Proof.
  intros Ht s Hs. stack_inv. unfold op_compare. do 2 sound_step.
  apply sound_charge; [by eapply (no_panic_compare t)|].
  apply (sound_cmp _ t); [done..|]. intros c. sound_step. by repeat constructor.
Qed.

Lemma sound_done {C D} (Q : D -> Prop) (r : Res InterpretError C) a (k : C -> I D) :
  r = Done a -> sound F st Q (k a) -> sound F st Q (bind (lift r) k).
Proof. intros ->. by apply sound_pure. Qed.

(** The cost of an operation on a container, whatever its size. *)
Lemma sound_lookup_charge {D} (Q : D -> Prop) t x n (f : option Z -> Res OutOfGas Z) (k : I D) :
  comparable t = true -> vtyped x t -> (forall c, no_panic (f c)) -> sound F st Q k ->
  sound F st Q (charge (res_bind (interpret_cost.lookup_cost x n) f) >>; k).
Proof.
  intros. apply sound_charge; [|done]. apply no_panic_bind; [by eapply (no_panic_lookup_cost t) | done].
Qed.

Lemma set_keys_ok l t :
  comparable t = true -> sorted_keys l -> Forall (fun v => vtyped v t) l ->
  keys_ok (F := F) (st := st) t (set_entries l).
Proof.
  intros. assert (E : (set_entries l).*1 = l) by (unfold set_entries; by rewrite <- list_fmap_compose, list_fmap_id).
  unfold keys_ok. by rewrite E.
Qed.

Lemma map_keys_ok {C} (m : list (TypedValue * C)) t (R : C -> Prop) :
  comparable t = true -> sorted_keys (m.*1) -> Forall (fun e => vtyped e.1 t /\ R e.2) m ->
  keys_ok (F := F) (st := st) t m.
Proof.
  intros ? ? Hm. split_and!; [done..|]. apply Forall_fmap. eapply Forall_impl; [exact Hm|]. by intros ? [? _].
Qed.

Lemma map_change_typed {C} t (R : C -> Prop) (m : list (TypedValue * C)) m' :
  Forall (fun e => vtyped e.1 t /\ R e.2) m ->
  (forall k v, (k, v) ∈ m' -> (vtyped k t /\ R v) \/ (k, v) ∈ m) ->
  Forall (fun e => vtyped e.1 t /\ R e.2) m'.
Proof.
  rewrite !Forall_forall. intros Hm Hin [k v] [?|?]%Hin; [done|]. by apply Hm.
Qed.

Lemma op_mem_set_sound t A : maps F st (t :: TSet t :: A) (TBool :: A) (op_mem Mem_Set).
Proof.
  intros s Hs. stack_inv. unfold op_mem. repeat sound_step. apply (sound_lookup_charge _ t); [done..| |].
  { intros; apply no_panic_cost. }
  destruct (map_get_done (F := F) (st := st) (E := InterpretError) t x (set_entries l)) as (r & Hr & _); [by apply set_keys_ok | done |].
  eapply sound_done; [unfold set_contains; by rewrite Hr|]. sound_step. by repeat constructor.
Qed.

Lemma op_mem_map_sound k v A : maps F st (k :: TMap k v :: A) (TBool :: A) (op_mem Mem_Map).
Proof.
  intros s Hs. stack_inv. unfold op_mem. repeat sound_step. apply (sound_lookup_charge _ k); [done..| |].
  { intros; apply no_panic_cost. }
  destruct (map_get_done (F := F) (st := st) (E := InterpretError) k x m) as (r & Hr & _);
    [by apply (map_keys_ok _ _ (fun w => vtyped w v)) | done |].
  eapply sound_done; [exact Hr|]. sound_step. by repeat constructor.
Qed.

(** Reading a big map. *)
Lemma bm_get_sound id overlay k v x :
  vtyped (VBigMap (mkBigMap id overlay k v)) (TBigMap k v) -> vtyped x k ->
  match bm_get (mkBigMap id overlay k v) x st with
  | Done o => vtyped (VOption o) (TOption v)
  | Error _ => True
  | _ => False
  end.
Proof using SS.
  intros Hm Hx. inversion Hm as [| | | | | | | | | | | |? ? ? ? Hc Hs Ho Hid| | | | | | | | | | | | | | | |]; subst.
  destruct (map_get_done (F := F) (st := st) (E := LazyStorageError) k x overlay) as (r & Hr & Hin);
    [by apply (map_keys_ok _ _ (fun o => vtyped (VOption o) (TOption v))) | done |].
  unfold bm_get. simpl. rewrite Hr. simpl. destruct r as [o|].
  - rewrite Forall_forall in Ho. apply (Ho (x, o)). by apply Hin.
  - destruct id as [id|]; [by eapply storage_get; [apply Hid| |] | constructor].
Qed.

Lemma bm_mem_sound id overlay k v x :
  vtyped (VBigMap (mkBigMap id overlay k v)) (TBigMap k v) -> vtyped x k ->
  no_panic (bm_mem (mkBigMap id overlay k v) x st).
Proof using SS.
  intros Hm Hx. inversion Hm as [| | | | | | | | | | | |? ? ? ? Hc Hs Ho Hid| | | | | | | | | | | | | | | |]; subst.
  destruct (map_get_done (F := F) (st := st) (E := LazyStorageError) k x overlay) as (r & Hr & _);
    [by apply (map_keys_ok _ _ (fun o => vtyped (VOption o) (TOption v))) | done |].
  unfold bm_mem. simpl. rewrite Hr. simpl. destruct r as [o|]; [done|].
  destruct id as [id|]; [by eapply storage_mem; [apply Hid| |] | done].
Qed.

Lemma bm_update_sound id overlay k v x o :
  vtyped (VBigMap (mkBigMap id overlay k v)) (TBigMap k v) -> vtyped x k -> vtyped (VOption o) (TOption v) ->
  exists m, bm_update (E := InterpretError) (mkBigMap id overlay k v) x o = Done m /\ vtyped (VBigMap m) (TBigMap k v).
Proof.
  intros Hm Hx Hov. inversion Hm as [| | | | | | | | | | | |? ? ? ? Hc Hs Ho Hid| | | | | | | | | | | | | | | |]; subst.
  destruct (map_insert_done (F := F) (st := st) (E := InterpretError) k x o overlay) as (old & m' & Hi & Hk & _ & Hin);
    [by apply (map_keys_ok _ _ (fun o => vtyped (VOption o) (TOption v))) | done |].
  unfold bm_update. rewrite Hi. simpl. eexists. split; [done|]. destruct Hk as (_ & Hs' & _).
  constructor; [done..| |done].
  eapply (map_change_typed _ (fun o => vtyped (VOption o) (TOption v))); [exact Ho|].
  intros k' w [[-> ->]|[_ ?]]%Hin; auto.
Qed.

Lemma map_change_sound k v x o m :
  comparable k = true -> sorted_keys (m.*1) -> Forall (fun e => vtyped e.1 k /\ vtyped e.2 v) m ->
  vtyped x k -> vtyped (VOption o) (TOption v) ->
  exists old m', map_change (E := InterpretError) x o m = Done (old, m') /\
    vtyped (VOption old) (TOption v) /\ vtyped (VMap m') (TMap k v).
Proof.
  intros Hc Hs Hm Hx Ho. assert (Hk : keys_ok (F := F) (st := st) k m) by by apply (map_keys_ok _ _ (fun w => vtyped w v)).
  assert (Hold : forall old, (forall w, old = Some w <-> (x, w) ∈ m) -> vtyped (VOption old) (TOption v)).
  { intros [w|] Hw; constructor. rewrite Forall_forall in Hm. apply (Hm (x, w)). by apply Hw. }
  destruct o as [o|]; cbn [map_change].
  - destruct (map_insert_done (F := F) (st := st) (E := InterpretError) k x o m Hk Hx)
      as (old & m' & Hi & (_ & Hs' & _) & Hw & Hin).
    exists old, m'. split_and!; [done | by apply Hold |]. constructor; [done..|].
    eapply (map_change_typed _ (fun w => vtyped w v)); [exact Hm|]. typed_inv.
    intros k' w [[-> ->]|[_ ?]]%Hin; auto.
  - destruct (map_remove_done (F := F) (st := st) (E := InterpretError) k x m Hk Hx)
      as (old & m' & Hi & (_ & Hs' & _) & Hw & Hin).
    exists old, m'. split_and!; [done | by apply Hold |]. constructor; [done..|].
    eapply (map_change_typed _ (fun w => vtyped w v)); [exact Hm|]. intros k' w [_ ?]%Hin. auto.
Qed.

Lemma sound_storage {D C} (Q : D -> Prop) (r : Res LazyStorageError C) (k : C -> I D) (R : C -> Prop) :
  match r with Done a => R a | Error _ => True | _ => False end ->
  (forall a, R a -> sound F st Q (k a)) -> sound F st Q (bind (on_storage r) k).
Proof. intros Hr Hk. unfold on_storage. apply sound_lift. destruct r; simpl; try done. by apply Hk. Qed.

Lemma op_mem_big_map_sound k v A : maps F st (k :: TBigMap k v :: A) (TBool :: A) (op_mem Mem_BigMap).
Proof using SS.
  intros s Hs. apply stack_typed_cons in Hs as (x & ? & -> & Hx & (m & s' & -> & Hm & Hs)%stack_typed_cons).
  typed_inv. assert (Hm' : vtyped (VBigMap (mkBigMap id overlay k v)) (TBigMap k v)) by by constructor.
  unfold op_mem. repeat sound_step. apply (sound_lookup_charge _ k); [done..| |].
  { intros; apply no_panic_cost. }
  sound_step. rewrite (ctx_storage F st ctx) by done.
  eapply (sound_storage _ _ _ (fun _ => True)).
  - pose proof (bm_mem_sound _ _ _ _ _ Hm' Hx) as H'. by destruct (bm_mem _ _ _).
  - intros b _. sound_step. by repeat constructor.
Qed.

Lemma op_get_map_sound k v A : maps F st (k :: TMap k v :: A) (TOption v :: A) (op_get Get_Map).
Proof.
  intros s Hs. stack_inv. unfold op_get. repeat sound_step. apply (sound_lookup_charge _ k); [done..| |].
  { intros; apply no_panic_cost. }
  destruct (map_get_done (F := F) (st := st) (E := InterpretError) k x m) as (r & Hr & Hin);
    [by apply (map_keys_ok _ _ (fun w => vtyped w v)) | done |].
  eapply sound_done; [exact Hr|]. sound_step. constructor; [|done].
  destruct r as [w|]; constructor.
  match goal with H : Forall _ m |- _ => rewrite Forall_forall in H; apply (H (x, w)) end. by apply Hin.
Qed.

Lemma op_get_big_map_sound k v A : maps F st (k :: TBigMap k v :: A) (TOption v :: A) (op_get Get_BigMap).
Proof using SS.
  intros s Hs. apply stack_typed_cons in Hs as (x & ? & -> & Hx & (m & s' & -> & Hm & Hs)%stack_typed_cons).
  typed_inv. assert (Hm' : vtyped (VBigMap (mkBigMap id overlay k v)) (TBigMap k v)) by by constructor.
  unfold op_get. repeat sound_step. apply (sound_lookup_charge _ k); [done..| |].
  { intros; apply no_panic_cost. }
  sound_step. rewrite (ctx_storage F st ctx) by done.
  eapply sound_storage; [by eapply bm_get_sound|]. intros o Ho. sound_step. by constructor.
Qed.
Lemma set_insert_sound t x l :
  comparable t = true -> sorted_keys l -> Forall (fun v => vtyped v t) l -> vtyped x t ->
  exists l', set_insert (E := InterpretError) x l = Done l' /\ vtyped (VSet l') (TSet t).
Proof.
  intros ? ? ? Hx. unfold set_insert.
  destruct (map_insert_done (F := F) (st := st) (E := InterpretError) t x () (set_entries l)) as (? & m' & Hi & Hk & _);
    [by apply set_keys_ok | done |].
  rewrite Hi. simpl. eexists. split; [done|]. destruct Hk as (? & ? & ?). by constructor.
Qed.

Lemma set_remove_sound t x l :
  comparable t = true -> sorted_keys l -> Forall (fun v => vtyped v t) l -> vtyped x t ->
  exists l', set_remove (E := InterpretError) x l = Done l' /\ vtyped (VSet l') (TSet t).
Proof.
  intros ? ? ? Hx. unfold set_remove.
  destruct (map_remove_done (F := F) (st := st) (E := InterpretError) t x (set_entries l)) as (? & m' & Hi & Hk & _);
    [by apply set_keys_ok | done |].
  rewrite Hi. simpl. eexists. split; [done|]. destruct Hk as (? & ? & ?). by constructor.
Qed.

Lemma op_update_set_sound t A : maps F st (t :: TBool :: TSet t :: A) (TSet t :: A) (op_update Update_Set).
Proof.
  intros s Hs. stack_inv. unfold op_update. repeat sound_step. apply (sound_lookup_charge _ t); [done..| |].
  { intros; apply no_panic_cost. }
  assert (Hl : exists l', (if b : bool then set_insert x l else set_remove x l) = Done (E := InterpretError) l' /\
    vtyped (VSet l') (TSet t)) by (destruct b; [by apply set_insert_sound | by apply set_remove_sound]).
  destruct Hl as (l' & Hl & Hl'). eapply sound_done; [exact Hl|]. sound_step. by constructor.
Qed.

Lemma op_update_map_sound k v A :
  maps F st (k :: TOption v :: TMap k v :: A) (TMap k v :: A) (op_update Update_Map).
Proof.
  intros s (x & ? & -> & Hx & (w & ? & -> & Hw & (m & s' & -> & Hm & Hs)%stack_typed_cons)%stack_typed_cons)%stack_typed_cons.
  assert (Ho : exists o, w = VOption o) by (inversion Hw; eauto). destruct Ho as [o ->].
  inversion Hm as [| | | | | | | | | | |? ? ? Hc Hk He| | | | | | | | | | | | | | | | |]; subst.
  unfold op_update. repeat sound_step. apply (sound_lookup_charge _ k); [done..| |].
  { intros; apply no_panic_cost. }
  destruct (map_change_sound k v x o m0) as (old & m' & Hc' & _ & Hm'); [done..|].
  eapply sound_done; [exact Hc'|]. cbv beta iota. sound_step. by constructor.
Qed.

Lemma op_update_big_map_sound k v A :
  maps F st (k :: TOption v :: TBigMap k v :: A) (TBigMap k v :: A) (op_update Update_BigMap).
Proof.
  intros s (x & ? & -> & Hx & (w & ? & -> & Hw & (m & s' & -> & Hm & Hs)%stack_typed_cons)%stack_typed_cons)%stack_typed_cons.
  assert (Ho : exists o, w = VOption o) by (inversion Hw; eauto). destruct Ho as [o ->].
  inversion Hm as [| | | | | | | | | | | |id overlay ? ? Hc Hk He Hid| | | | | | | | | | | | | | | |]; subst.
  unfold op_update. repeat sound_step. apply (sound_lookup_charge _ k); [done..| |].
  { intros; apply no_panic_cost. }
  destruct (bm_update_sound id overlay k v x o) as (m' & Hu & Hm'); [done..|].
  eapply sound_done; [exact Hu|]. sound_step. by constructor.
Qed.

Lemma op_get_and_update_map_sound k v A :
  maps F st (k :: TOption v :: TMap k v :: A) (TOption v :: TMap k v :: A) (op_get_and_update GetAndUpdate_Map).
Proof.
  intros s (x & ? & -> & Hx & (w & ? & -> & Hw & (m & s' & -> & Hm & Hs)%stack_typed_cons)%stack_typed_cons)%stack_typed_cons.
  assert (Ho : exists o, w = VOption o) by (inversion Hw; eauto). destruct Ho as [o ->].
  inversion Hm as [| | | | | | | | | | |? ? ? Hc Hk He| | | | | | | | | | | | | | | | |]; subst.
  unfold op_get_and_update. repeat sound_step. apply (sound_lookup_charge _ k); [done..| |].
  { intros; apply no_panic_cost. }
  destruct (map_change_sound k v x o m0) as (old & m' & Hc' & Hold & Hm'); [done..|].
  eapply sound_done; [exact Hc'|]. cbv beta iota. sound_step. constructor; [done | by constructor].
Qed.

Lemma op_get_and_update_big_map_sound k v A :
  maps F st (k :: TOption v :: TBigMap k v :: A) (TOption v :: TBigMap k v :: A)
    (op_get_and_update GetAndUpdate_BigMap).
Proof using SS.
  intros s (x & ? & -> & Hx & (w & ? & -> & Hw & (m & s' & -> & Hm & Hs)%stack_typed_cons)%stack_typed_cons)%stack_typed_cons.
  assert (Ho : exists o, w = VOption o) by (inversion Hw; eauto). destruct Ho as [o ->].
  inversion Hm as [| | | | | | | | | | | |id overlay ? ? Hc Hk He Hid| | | | | | | | | | | | | | | |]; subst.
  unfold op_get_and_update. repeat sound_step. apply (sound_lookup_charge _ k); [done..| |].
  { intros; apply no_panic_cost. }
  sound_step. rewrite (ctx_storage F st ctx) by done.
  eapply sound_storage; [by eapply bm_get_sound|]. intros old Hold.
  destruct (bm_update_sound id overlay k v x o) as (m' & Hu & Hm'); [done..|].
  eapply sound_done; [exact Hu|]. sound_step. constructor; [done | by constructor].
Qed.

(** ** Tickets *)
Definition only_incomparable {E C} (r : Res E C) : Prop :=
  match r with Panics p => p = Incomparable | _ => True end.

Lemma only_incomparable_bind {E C D} (r : Res E C) (f : C -> Res E D) :
  only_incomparable r -> (forall c, no_panic (f c)) -> only_incomparable (res_bind r f).
Proof. destruct r as [c| | |]; simpl; try done. intros _ Hf. specialize (Hf c). by destruct (f c). Qed.

Lemma no_panic_incomparable {E C} (r : Res E C) : no_panic r -> only_incomparable r.
Proof. by destruct r. Qed.

Lemma only_incomparable_bind2 {E C D} (r : Res E C) (f : C -> Res E D) :
  only_incomparable r -> (forall c, only_incomparable (f c)) -> only_incomparable (res_bind r f).
Proof. destruct r as [c| | |]; simpl; auto. Qed.

Lemma compare_only_incomparable : forall a b, only_incomparable (interpret_cost.compare a b).
Proof.
  fix IH 1. intros a b.
  destruct a, b; try exact eq_refl; try apply no_panic_incomparable, no_panic_cost; try exact Logic.I;
    cbn [interpret_cost.compare].
  - apply only_incomparable_bind2; [apply IH | intros c].
    apply only_incomparable_bind; [apply IH | intros; apply no_panic_cost].
  - destruct o, o0; try apply no_panic_incomparable, no_panic_cost.
    apply only_incomparable_bind; [apply IH | intros; apply no_panic_cost].
  - destruct x, x0; try apply no_panic_incomparable, no_panic_cost;
      (apply only_incomparable_bind; [apply IH | intros; apply no_panic_cost]).
Qed.

Lemma op_ticket_sound t A :
  comparable t = true \/ any_ticket F -> maps F st (t :: TNat :: A) (TOption (TTicket t) :: A) op_ticket.
Proof.
  intros Ht s Hs. stack_inv. unfold op_ticket. repeat sound_step. constructor; [|done].
  destruct (_ =? 0)%N; constructor. by constructor.
Qed.

Lemma op_read_ticket_sound t A :
  maps F st (TTicket t :: A) (TPair TAddress (TPair t TNat) :: TTicket t :: A) op_read_ticket.
Proof.
  intros s Hs. stack_inv. unfold op_read_ticket. repeat sound_step.
  constructor; [by repeat constructor|]. by constructor; [constructor|].
Qed.

Lemma op_split_ticket_sound t A :
  maps F st (TTicket t :: TPair TNat TNat :: A) (TOption (TPair (TTicket t) (TTicket t)) :: A) op_split_ticket.
Proof.
  intros s Hs. stack_inv. unfold op_split_ticket. repeat sound_step. constructor; [|done].
  destruct (_ && _); constructor. constructor; by constructor.
Qed.

Lemma op_join_tickets_sound t A :
  maps F st (TPair (TTicket t) (TTicket t) :: A) (TOption (TTicket t) :: A) op_join_tickets.
Proof.
  intros s Hs. stack_inv. unfold op_join_tickets. repeat sound_step. apply sound_charge_gen.
  - unfold interpret_cost.join_tickets. simpl.
    match goal with |- context [interpret_cost.compare ?c0 ?c] =>
      pose proof (compare_only_incomparable c0 c) as Hi;
      assert (Hn : comparable t = true -> no_panic (interpret_cost.compare c0 c))
        by (intros; by eapply (no_panic_compare (F := F) (st := st) t));
      destruct (interpret_cost.compare c0 c) end; simpl in *; try done.
    + unfold interpret_cost.add_num. match goal with |- context [as_gas_cost ?z] => pose proof (no_panic_cost z) as Hg; by destruct (as_gas_cost z) end.
    + subst. right. split; [|done].
      match goal with H : comparable t = true \/ _ |- _ => destruct H as [H|H]; [by destruct (Hn H) | done] end.
  - sound_step. constructor; [|done]. destruct (_ && _); constructor. by constructor.
Qed.

(** ** Lambdas *)
Lemma unfold_closure_sound c a b arg :
  closure_typed F st c a b -> vtyped arg a ->
  sound F st (fun r => exists a', lambda_typed F st r.1 a' b /\ vtyped r.2 a') (unfold_closure c arg).
Proof.
  revert a arg. induction c as [l|t v c IH]; intros a arg Hc Harg; inversion Hc; subst; cbn [unfold_closure].
  - sound_step. simpl. eauto.
  - sound_step. eapply IH; [done|]. by constructor.
Qed.

Lemma op_exec_sound (run : list Instruction -> list TypedValue -> I (list TypedValue)) a b A :
  (forall code A B, block_typed F st code A B -> maps F st A B (run code)) ->
  maps F st (a :: TLambda a b :: A) (b :: A) (op_exec run).
Proof.
  intros Hrun s Hs. stack_inv. unfold op_exec. repeat sound_step.
  eapply sound_bind; [by eapply unfold_closure_sound|]. intros [lam arg] (a' & Hl & Ha). simpl in *.
  apply (sound_bind F st (fun s' => styped s' [b])).
  - inversion Hl; subst; simpl; (eapply maps_elim; [by apply Hrun|]); repeat constructor; done.
  - intros s' (res & ? & -> & Hres & _)%stack_typed_cons. repeat sound_step. by constructor.
Qed.

(** ** Contracts *)
Lemma op_create_contract_sound cs m A :
  script_typed F st cs ->
  maps F st (TOption TKeyHash :: TMutez :: cs_storage cs :: A) (TOperation :: TAddress :: A) (op_create_contract cs m).
Proof using XS.
  intros Hcs s (o & ? & -> & Ho & (amt & ? & -> & Ha & (stor & s' & -> & Hst & Hs)%stack_typed_cons)%stack_typed_cons)%stack_typed_cons.
  inversion Ha; subst.
  assert (Hop : exists k, o = VOption k) by (inversion Ho; eauto). destruct Hop as [k ->].
  unfold op_create_contract. repeat sound_step.
  unfold compute_contract_address.
  match goal with |- context [blake2b_digest ?i 20] => destruct (kt1_of_digest i) as [hash Hh] end.
  eapply sound_pure; [intros ?; unfold bind, lift; rewrite Hh; reflexivity|].
  sound_step. constructor; [by constructor; constructor | constructor; [constructor | done]].
Qed.

Lemma op_transfer_tokens_sound t A :
  maps F st (t :: TMutez :: TContract t :: A) (TOperation :: A) op_transfer_tokens.
Proof.
  intros s Hs. stack_inv. unfold op_transfer_tokens. repeat sound_step. constructor; [|done].
  by repeat (econstructor; try done).
Qed.

Lemma op_emit_sound tag arg_ty t A : maps F st (t :: A) (TOperation :: A) (op_emit tag arg_ty).
Proof.
  intros s Hs. stack_inv. unfold op_emit. repeat sound_step. constructor; [|done]. constructor. by econstructor.
Qed.

(** ** Typechecking at run time *)
Lemma gas_none_ok ctx g : dynamic F -> ctx_ok F st ctx -> ctx_ok F st (set_gas g ctx).
Proof. intros Hd Hctx. by apply set_gas_ok. Qed.

Lemma op_unpack_sound fuel t A :
  dynamic F -> wf_ty t = true -> maps F st (TBytes :: A) (TOption t :: A) (op_unpack fuel t).
Proof.
  intros Hd Ht s Hs. stack_inv. unfold op_unpack. repeat sound_step.
  apply (sound_bind F st (fun o => vtyped (VOption o) (TOption t))).
  2: { intros o Ho. sound_step. by constructor. }
  destruct (decode_packed_returns bs) as [[m ->]|[e ->]]; [|sound_step; constructor].
  intros ctx' Hctx'. unfold ok.
  destruct (typecheck_value (tc_env ctx) fuel m t (gas ctx')) as [[v|e|p|] g] eqn:E; try done.
  - split; [|by apply gas_none_ok]. constructor.
    destruct (typechecker_sound_at (F := F) (tc_env ctx) fuel) as (Hv & _).
    eapply Hv in E; [|by apply allows_full|done]. cbn in E.
    by rewrite (ctx_storage F st ctx) in E.
  - split; [constructor | by apply gas_none_ok].
  - left. split; [done|]. right. exists (tc_env ctx), fuel, m, t, (gas ctx'). rewrite E.
    split; [by apply (ctx_storage F st) | done].
Qed.

(** Typechecker computations that only panic when they find no gas left. *)
Definition gas_panics {D} (c : T D) : Prop :=
  forall g p, (c g).1 = Panics p -> p = AccessToGasAfterExhaustion.

Lemma gas_panics_bind {C D} (c : T C) (k : C -> T D) :
  gas_panics c -> (forall a, gas_panics (k a)) -> gas_panics (bind c k).
Proof.
  intros Hc Hk g p. unfold bind. specialize (Hc g).
  destruct (c g) as [[a|e|q|] g']; simpl in *; [apply Hk | done | by intros [= ->]; apply Hc | done].
Qed.

Lemma gas_panics_charge cost : no_panic cost -> gas_panics (gas_charge (E := TcError) cost).
Proof.
  intros Hc g p. unfold gas_charge, map_err, bind, lift. destruct cost as [c| | |]; try done.
  unfold gas_consume, milligas. destruct g as [g|]; simpl; [|congruence].
  by destruct (checked_sub g c).
Qed.

Lemma contract_address_panics (env : TcEnv St) a ep t : gas_panics (typecheck_contract_address env a ep t).
Proof.
  unfold typecheck_contract_address. apply gas_panics_bind; [by repeat case_match|]. intros e.
  case_match; repeat (case_match; try done);
    (apply gas_panics_bind; [|done]); (apply gas_panics_bind; [apply gas_panics_charge, no_panic_cost|]);
    intros; by case_decide.
Qed.

Lemma op_contract_sound t ep A :
  dynamic F -> maps F st (TAddress :: A) (TOption (TContract t) :: A) (op_contract t ep).
Proof.
  intros Hd s Hs. stack_inv. unfold op_contract. repeat sound_step.
  apply (sound_bind F st (fun _ => True)).
  - intros ctx' Hctx'. unfold ok. pose proof (contract_address_panics (tc_env ctx) a ep t (gas ctx')) as Hp.
    destruct (typecheck_contract_address _ _ _ _ _) as [[v|e|p|] g]; try (split; [done | by apply gas_none_ok]); [|done].
    left. split; [done|]. left. by apply Hp.
  - intros o _. sound_step. constructor; [|done]. apply typed_option. constructor.
Qed.

(** ** The interpreter *)
Lemma block_sound (one : Instruction -> list TypedValue -> I (list TypedValue)) code A B :
  Forall (fun i => forall A B, instr_typed F st i A B -> maps F st A B (one i)) code ->
  block_typed F st code A B -> maps F st A B (interpret one code).
Proof.
  intros Hone. revert A. induction Hone as [|i code Hi _ IH]; intros A Hb s Hs; inversion Hb; subst;
    cbn [interpret]; [repeat sound_step; done|].
  eapply sound_bind; [by eapply maps_elim; [apply Hi|] | intros s' Hs'].
  eapply maps_elim; [by apply IH | done].
Qed.

(** Instructions on values of any type that only move them around. *)
Local Ltac plain :=
  intros s Hs; stack_inv;
  unfold op_push, op_failwith, op_constant, op_car, op_cdr, op_pair, op_unpair, op_some, op_cons,
    op_size, run_size, op_left, op_right, op_apply, op_address, op_pack;
  repeat sound_step; repeat (constructor; try done).

Lemma interpret_one_sound fuel run i A B :
  (forall code A B, block_typed F st code A B -> maps F st A B (run code)) ->
  instr_typed F st i A B -> maps F st A B (interpret_one fuel run i).
Proof using XS SS.
  intros Hrun. revert A B. induction i as [i IH] using instruction_nested_ind. intros A B Hi.
  assert (Hb : forall b A B, b ∈ blocks i -> block_typed F st b A B -> maps F st A B (interpret (interpret_one fuel run) b)).
  { intros b A' B' Hin. apply block_sound. rewrite Forall_forall in IH. by apply IH. }
  destruct Hi; try (by eapply mono_sound); cbn [interpret_one blocks] in *;
    try (assert (Hb1 := fun A B => Hb _ A B (list_elem_of_here _ _)));
    try (assert (Hb2 := fun A B => Hb _ A B (list_elem_of_further _ _ _ (list_elem_of_here _ _))));
    clear IH Hb.
  all: first [ by apply op_dip_sound; [|apply Hb1] | by apply op_drop_sound | by eapply op_dup_sound
    | by apply op_dig_sound | by apply op_dug_sound | apply op_swap_sound
    | by apply op_if_sound; auto | by apply op_if_none_sound; auto | by apply op_if_cons_sound; auto
    | by apply op_if_left_sound; auto | by apply op_loop_sound; auto | by apply op_loop_left_sound; auto
    | by apply op_iter_list_sound; auto | by apply op_iter_set_sound; auto | by apply op_iter_map_sound; auto
    | by apply op_map_list_sound; auto | by apply op_map_option_sound; auto | by apply op_map_map_sound; auto
    | by apply op_pair_n_sound | by apply op_unpair_n_sound | by eapply op_get_n_sound | by eapply op_update_n_sound
    | by apply op_compare_sound | apply op_mem_set_sound | apply op_mem_map_sound | apply op_mem_big_map_sound
    | apply op_get_map_sound | apply op_get_big_map_sound | apply op_update_set_sound | apply op_update_map_sound
    | apply op_update_big_map_sound | apply op_get_and_update_map_sound | apply op_get_and_update_big_map_sound
    | by apply op_ticket_sound | apply op_read_ticket_sound | apply op_split_ticket_sound | apply op_join_tickets_sound
    | by apply op_exec_sound | by apply op_create_contract_sound | apply op_transfer_tokens_sound | apply op_emit_sound
    | by apply op_unpack_sound | by apply op_contract_sound | by apply Hb1 | idtac ].
  all: try (plain; fail).
  - intros s Hs. unfold op_dig. sound_step. by apply sound_ret.
  - intros s Hs. unfold op_dug. sound_step. by apply sound_ret.
  - intros s Hs. stack_inv. unfold op_failwith. sound_step. by apply sound_fail.
Qed.

Lemma interpret_sound fuel : forall i A B, instr_typed F st i A B -> maps F st A B (instruction_interpret fuel i).
Proof using XS SS.
  induction fuel as [|n IH]; intros i A B Hi; [by intros s Hs ctx Hctx|].
  cbn [instruction_interpret]. apply interpret_one_sound; [|done].
  intros code A' B' Hb. eapply block_sound; [|done]. apply Forall_forall. auto.
Qed.

End Safety.
End MirSafety.
Export MirSafety.
