(* ===== verification/MirGasProps.v ===== *)
(** Gas bounds the typechecker and the interpreter: gas never increases, and a bound on the
    recursion above the gas that is left is never reached. *)

From stdpp Require Import strings.
From S2P Require Import Prelude MirAst MirGas MirStack MirCompare MirExtern MirSerial MirCtx MirTypes MirTcInstr MirTypecheck MirOps MirInterp MirSerialProps.

Open Scope Z_scope.

Module MirGasProps.

(** ** Results that are not a reached bound *)
Definition returns {E A} (r : Res E A) : Prop := match r with NoFuel => False | _ => True end.

Lemma returns_bind {E A B} (r : Res E A) (f : A -> Res E B) :
  returns r -> (forall a, returns (f a)) -> returns (res_bind r f).
Proof. destruct r; simpl; auto. Qed.

Lemma returns_option {E A} (o : option A) p : returns (E := E) (res_option o p).
Proof. by destruct o. Qed.

Lemma returns_ok_or {E A} (o : option A) (e : E) : returns (ok_or o e).
Proof. by destruct o. Qed.

Create HintDb returns.
Create HintDb within.
#[export] Hint Resolve returns_option returns_ok_or : returns.

(** Functions written with [let%] and tests. *)
Ltac returns_tac :=
  repeat first
  [ exact Logic.I
  | assumption
  | solve [eauto with returns]
  | apply returns_bind; [ | intros ?]
  | case_match ].

(** ** Costs are not negative *)
Definition cost_ok (c : Res OutOfGas Z) : Prop :=
  match c with Done z => 0 <= z | NoFuel => False | _ => True end.

Lemma cost_ok_ck2 w f a b : cost_ok (as_gas_cost (ck2 w f a b)).
Proof.
  unfold as_gas_cost, ck2. destruct a as [a|], b as [b|]; simpl; try done.
  unfold ck. destruct (_ && _) eqn:E; [|done]. simpl. case_match; [|done]. simpl. lia.
Qed.

Lemma cost_ok_bind {A} (r : Res OutOfGas A) f : returns r -> (forall a, cost_ok (f a)) -> cost_ok (res_bind r f).
Proof. destruct r; simpl; auto. Qed.

Lemma cost_ok_done z : 0 <= z -> cost_ok (Done z).
Proof. done. Qed.

Lemma returns_ok_or_out_of_gas c : returns (ok_or_out_of_gas c).
Proof. by destruct c. Qed.

Lemma cost_ok_returns c : cost_ok c -> returns c.
Proof. by destruct c. Qed.

Create HintDb cost.
#[export] Hint Resolve cost_ok_ck2 cost_ok_done : cost.

(** ** Gas *)
Definition gas_ok (g : Gas) : Prop := match g with Some m => 0 <= m | None => True end.

(** What is left: exhausted gas counts as none. *)
Definition gas_left (g : Gas) : Z := match g with Some m => m | None => 0 end.

Lemma gas_left_nonneg g : gas_ok g -> 0 <= gas_left g.
Proof. destruct g; simpl; lia. Qed.

(** The outcome of a computation that started with gas [g]. *)
Definition spent (g g' : Gas) : Prop := gas_ok g' /\ gas_left g' <= gas_left g.

(** A computation that started with gas [g] returned [r] with gas [g'] left: gas did not
    increase, and was not exhausted on the way to a result. *)
Definition after {E A} (g : Gas) (r : Res E A) (g' : Gas) : Prop :=
  match r with
  | Done _ => spent g g' /\ (g' = None -> g = None)
  | NoFuel => False
  | _ => spent g g'
  end.

Lemma spent_refl g : gas_ok g -> spent g g.
Proof. split; [done | lia]. Qed.

Lemma spent_trans g g' g'' : spent g g' -> spent g' g'' -> spent g g''.
Proof. intros [? ?] [? ?]. split; [done | lia]. Qed.

(** With at most [n] units of gas the computation does not reach a bound, and gas does not
    increase. *)
Definition within {E A} (n : Z) (c : M Gas E A) : Prop :=
  forall g, gas_ok g -> gas_left g <= n -> after g (c g).1 (c g).2.

Section Within.
Context {E E' A B : Type}.

Lemma within_pure n (c : M Gas E A) : (forall g, exists r, c g = (r, g) /\ returns r) -> within n c.
Proof.
  intros Hc g Hg Hn. destruct (Hc g) as (r & -> & Hr). by destruct r; simpl; auto using spent_refl.
Qed.

Lemma within_ret n (a : A) : within (E := E) n (ret a).
Proof. apply within_pure. intros g. by eexists. Qed.
Lemma within_fail n e : within n (fail e : M Gas E A).
Proof. apply within_pure. intros g. by eexists. Qed.
Lemma within_panic n p : within n (panic p : M Gas E A).
Proof. apply within_pure. intros g. by eexists. Qed.
Lemma within_lift n (r : Res E A) : returns r -> within n (lift r).
Proof. intros. apply within_pure. intros g. by eexists. Qed.

Lemma within_bind n (c : M Gas E A) (k : A -> M Gas E B) :
  within n c -> (forall a, within n (k a)) -> within n (bind c k).
Proof.
  intros Hc Hk g Hg Hn. unfold bind. specialize (Hc g Hg Hn).
  destruct (c g) as [[a|e|p|] g']; simpl in *; try done. destruct Hc as [Hs Hnone].
  pose proof Hs as [Hg' Hle]. specialize (Hk a g' Hg' ltac:(lia)).
  destruct (k a g') as [[] g'']; simpl in *; try done; try by apply (spent_trans g g' g'').
  destruct Hk. split; [by apply (spent_trans g g' g'') | auto].
Qed.

Lemma within_map_err n (f : E -> E') (c : M Gas E A) : within n c -> within n (map_err f c).
Proof.
  intros Hc g Hg Hn. unfold map_err. specialize (Hc g Hg Hn). by destruct (c g) as [[] g'].
Qed.

Lemma within_le n n' (c : M Gas E A) : within n c -> n' <= n -> within n' c.
Proof. intros Hc Hle g Hg Hn. apply Hc; [done | lia]. Qed.
End Within.

(** The cost is charged in any error type. *)
Lemma within_charge {E} `{FromOutOfGas E} n cost : cost_ok cost -> within n (gas_charge (E := E) cost).
Proof.
  intros Hc g Hg Hn. unfold gas_charge, map_err, bind, lift.
  destruct cost as [c|e|p|]; simpl in *; try done; try by apply spent_refl.
  unfold gas_consume, milligas. destruct g as [m|]; simpl in *; [|by apply spent_refl].
  unfold checked_sub. destruct (c <=? m) eqn:Ec; simpl; [split; [|done]|]; split; simpl; lia.
Qed.

(** A cost of at least [d] leaves [d] less for what follows. *)
Lemma within_use {E A} `{FromOutOfGas E} n d cost (k : M Gas E A) :
  d <= cost -> 0 <= d -> within (n - d) k -> within n (gas_use (E := E) cost >>; k).
Proof.
  intros Hd H0 Hk g Hg Hn. unfold gas_use, gas_charge, map_err, bind, lift. simpl.
  unfold gas_consume, milligas. destruct g as [m|]; simpl in *; [|by apply spent_refl].
  unfold checked_sub. destruct (cost <=? m) eqn:Ec; simpl; [|split; simpl; lia].
  specialize (Hk (Some (m - cost)) ltac:(simpl; lia) ltac:(simpl; lia)).
  assert (Hs : spent (Some m) (Some (m - cost))) by (split; simpl; lia).
  destruct (k _) as [[] g']; simpl in *; try done; try by apply (spent_trans _ (Some (m - cost)) g').
  destruct Hk as [Hs' Hnone]. split; [by apply (spent_trans _ (Some (m - cost)) g') | naive_solver].
Qed.

(** One step through a computation of the typechecker. *)
Ltac within_step :=
  lazymatch goal with
  | |- within _ (ret _) => apply within_ret
  | |- within _ (fail _) => apply within_fail
  | |- within _ (panic _) => apply within_panic
  | |- within _ (unexpected _) => apply within_fail
  | |- within _ (typed _ _) => apply within_ret
  | |- within _ (no_overload _ _) => apply within_fail
  | |- within _ (no_overload_for _ _ _) => apply within_fail
  | |- within _ (no_overload_len _ _ _) => apply within_fail
  | |- within _ (lift _) => apply within_lift; solve [returns_tac]
  | |- within _ (gas_charge _) => apply within_charge; solve [eauto with cost]
  | |- within _ (gas_use _) => apply within_charge; apply cost_ok_done; done
  | |- within _ (map_err _ _) => apply within_map_err
  | |- within _ (bind _ _) => apply within_bind; [ | intros ?]
  | |- within _ (match ?x with _ => _ end) => destruct x
  end.

Lemma within_ensure_prop n t p : within n (ensure_prop t p).
Proof. induction t; destruct p; cbn [ensure_prop]; repeat within_step; auto. Qed.

Lemma within_ensure_ty_eq n t u : within n (ensure_ty_eq t u).
Proof. unfold ensure_ty_eq. repeat within_step. Qed.

Lemma within_ensure_types_eq n s1 s2 l1 : forall l2, within n (ensure_types_eq s1 s2 l1 l2).
Proof.
  induction l1 as [|t l1 IH]; intros [|u l2]; cbn [ensure_types_eq]; repeat within_step; auto using within_ensure_ty_eq.
Qed.
Lemma within_ensure_stacks_eq n s1 s2 : within n (ensure_stacks_eq s1 s2).
Proof. unfold ensure_stacks_eq. within_step; [apply within_ensure_types_eq | apply within_fail]. Qed.

Lemma within_unify n d a : within n (unify_stacks d a).
Proof. unfold unify_stacks. repeat within_step. apply within_ensure_stacks_eq. Qed.

Lemma within_validate_u10 n z : within n (validate_u10 z).
Proof. unfold validate_u10. repeat within_step. Qed.

Lemma within_field_ann n anns : within n (field_ann anns).
Proof. unfold field_ann. repeat within_step. Qed.

Lemma within_add_entrypoint n eps anns t : within n (add_entrypoint eps anns t).
Proof. unfold add_entrypoint. repeat within_step; apply within_field_ann. Qed.

Lemma within_make_pair n f ty args :
  Forall (fun m => within n (f m)) args -> within n (make_pair f ty args).
Proof.
  induction 1 as [|m1 rest H1 Hrest IH]; [apply within_fail|]. cbn [make_pair].
  destruct rest as [|m2 [|m3 rest]]; [apply within_fail | |]; repeat within_step; try done.
  by apply Forall_cons in Hrest as [? _].
Qed.

Definition parses_within (n : Z) (m : Micheline) : Prop := forall eps, within n (parse_ty_with_entrypoints m eps).

Lemma within_parse_app n p args anns : Forall (parses_within n) args -> parses_within n (MApp p args anns).
Proof.
  intros Hargs eps. cbn [parse_ty_with_entrypoints]. apply within_bind; [within_step|]. intros _.
  destruct p; repeat within_step; decompose_Forall;
    try apply within_add_entrypoint; try apply within_ensure_prop; try done; auto.
  change (within n (make_pair (fun m => let+ (t, _) := parse_ty_with_entrypoints m None in ret t)
    (MApp Prim.pair (m :: m0 :: args) anns) (m :: m0 :: args))).
  apply within_make_pair. repeat (constructor; [repeat within_step; auto|]).
  eapply Forall_impl; [eassumption|]. intros m' Hm'. repeat within_step. auto.
Qed.

Lemma within_parse_eps n m eps : within n (parse_ty_with_entrypoints m eps).
Proof.
  revert eps. induction m as [| | |p args anns IH|ms IH] using micheline_nested_ind; [..|by apply within_parse_app|];
    intros eps; cbn [parse_ty_with_entrypoints]; repeat within_step.
Qed.

Lemma within_parse_ty n m : within n (parse_ty m).
Proof. unfold parse_ty. repeat within_step. apply within_parse_eps. Qed.

#[export] Hint Resolve within_ensure_prop within_ensure_ty_eq within_ensure_stacks_eq within_unify
  within_validate_u10 within_field_ann within_parse_eps within_parse_ty : within.
(** ** Byte representations *)
Section Repr.
Context {Bls : BlsTypes} {X : Extern}.

Lemma returns_ep_chars b ep : returns (check_ep_chars b ep).
Proof. revert b. induction ep as [|c ep IH]; intros b; simpl; [done|]. case_match; [apply IH | done]. Qed.

Lemma returns_ep_name ep : returns (check_ep_name ep).
Proof. unfold check_ep_name, check_ep_name_len. pose proof (returns_ep_chars true ep). returns_tac. Qed.
#[local] Hint Resolve returns_ep_name : returns.

Lemma returns_entrypoint_from_str s : returns (entrypoint_from_str s).
Proof. unfold entrypoint_from_str. returns_tac. Qed.
Lemma returns_entrypoint_from_bytes s : returns (entrypoint_from_bytes s).
Proof. unfold entrypoint_from_bytes. returns_tac. Qed.
Lemma returns_entrypoint_from_field_ann s : returns (entrypoint_from_field_ann s).
Proof. unfold entrypoint_from_field_ann, check_ep_name_len. returns_tac. Qed.
Lemma returns_key_hash_b58 s : returns (key_hash_from_base58_check s).
Proof. unfold key_hash_from_base58_check, key_hash_check_size, str_slice, b58. returns_tac. Qed.
Lemma returns_key_hash_bytes s : returns (key_hash_from_bytes s).
Proof. unfold key_hash_from_bytes, key_hash_check_size, raw. returns_tac. Qed.
#[local] Hint Resolve returns_entrypoint_from_str returns_entrypoint_from_bytes returns_key_hash_b58 returns_key_hash_bytes : returns.

Lemma returns_address_b58 s : returns (address_from_base58_check s).
Proof. unfold address_from_base58_check, address_hash_from_base58_check, check_size, str_slice, b58. returns_tac. Qed.
Lemma returns_address_bytes s : returns (address_from_bytes s).
Proof. unfold address_from_bytes, address_hash_from_bytes, check_size, validate_padding_byte, raw. returns_tac. Qed.
Lemma returns_key_b58 s : returns (key_from_base58_check s).
Proof. unfold key_from_base58_check, check_size, str_slice, b58. returns_tac. Qed.
Lemma returns_key_bytes s : returns (key_from_bytes s).
Proof. unfold key_from_bytes, check_size, raw. returns_tac. Qed.
Lemma returns_signature_b58 s : returns (signature_from_base58_check s).
Proof. unfold signature_from_base58_check, signature_from_b58check, from_b58check. returns_tac. Qed.
Lemma returns_signature_bytes s : returns (signature_from_bytes s).
Proof. unfold signature_from_bytes, raw. returns_tac. Qed.
End Repr.

#[export] Hint Resolve returns_entrypoint_from_field_ann returns_key_hash_b58 returns_key_hash_bytes
  returns_address_b58 returns_address_bytes returns_key_b58 returns_key_bytes returns_signature_b58
  returns_signature_bytes : returns.

(** The functions of the big map storage return. *)
Class StorageReturns {Bls : BlsTypes} (St : Type) {LS : LazyStorage St} : Prop := {
  returns_big_map_get st id k : returns (big_map_get (St := St) st id k);
  returns_big_map_mem st id k : returns (big_map_mem (St := St) st id k);
  returns_big_map_get_type st id : returns (big_map_get_type (St := St) st id)
}.
#[export] Hint Resolve returns_big_map_get returns_big_map_mem returns_big_map_get_type : returns.

(** ** Costs of comparisons *)
Section Costs.
Context {Bls : BlsTypes}.

Lemma cost_ok_compare : forall a b, cost_ok (interpret_cost.compare a b).
Proof.
  fix IH 1. intros a b.
  destruct a, b; try exact Logic.I; try apply cost_ok_ck2; try (apply cost_ok_done; done);
    cbn [interpret_cost.compare].
  - apply cost_ok_bind; [apply cost_ok_returns, IH | intros c].
    apply cost_ok_bind; [apply cost_ok_returns, IH | intros; apply cost_ok_ck2].
  - destruct o, o0; try (apply cost_ok_done; done).
    apply cost_ok_bind; [apply cost_ok_returns, IH | intros; apply cost_ok_ck2].
  - destruct x, x0; try (apply cost_ok_done; done);
      (apply cost_ok_bind; [apply cost_ok_returns, IH | intros; apply cost_ok_ck2]).
Qed.

Lemma returns_cmp {E} x y : returns (cmp (E := E) x y).
Proof. apply returns_option. Qed.
End Costs.
#[export] Hint Resolve returns_cmp : returns.
#[export] Hint Resolve cost_ok_compare : cost.
End MirGasProps.
Export MirGasProps.

(** The typechecker and the interpreter terminate: with a bound above the gas that is left they
    return. *)
Module MirTermination.

(** ** The typechecker *)
Section Tc.
Context {Bls : BlsTypes} {X : Extern} {St : Type} {LS : LazyStorage St} {SR : StorageReturns St}.
Context (env : TcEnv St).

Lemma within_collect {A B} n (tc : A -> T B) vs : (forall v, within n (tc v)) -> within n (collect tc vs).
Proof. intros Htc. induction vs as [|v vs IH]; cbn [collect]; repeat within_step; auto. Qed.

Lemma within_validate_order {A B} n (tc : A -> T B) key ct vs :
  (forall v, within n (tc v)) -> forall cur, within n (validate_order tc key ct cur vs).
Proof.
  intros Htc. induction vs as [|v vs IH]; intros cur; cbn [validate_order]; repeat within_step; auto.
Qed.

Lemma within_collect_ordered {A B} n (tc : A -> T B) key ct vs :
  (forall v, within n (tc v)) -> within n (collect_ordered tc key ct vs).
Proof. intros. unfold collect_ordered. repeat within_step; auto using within_validate_order. Qed.

Lemma cost_ok_construct_set a b : cost_ok (tc_cost.construct_set a b).
Proof. apply cost_ok_bind; [apply returns_ok_or_out_of_gas | intros; apply cost_ok_ck2]. Qed.
Lemma cost_ok_construct_map a b : cost_ok (tc_cost.construct_map a b).
Proof. apply cost_ok_bind; [apply returns_ok_or_out_of_gas | intros; apply cost_ok_ck2]. Qed.
Hint Resolve cost_ok_construct_set cost_ok_construct_map : cost.

Section Components.
Context (n : Z) (tc : Micheline -> Ty -> T TypedValue).
Hypothesis Htc : forall m t, within n (tc m t).

Lemma within_set ct t vs : within n (typecheck_set tc ct t vs).
Proof using Htc. unfold typecheck_set. repeat within_step. by apply within_collect_ordered. Qed.

Lemma within_map {V} ct tk tv vs (f : TypedValue -> V) : within n (typecheck_map tc ct tk tv vs f).
Proof using Htc.
  unfold typecheck_map. repeat within_step. apply within_collect_ordered. intros v.
  unfold typecheck_elt. repeat within_step; auto.
Qed.

Lemma within_big_map t tk tv v : within n (typecheck_big_map env tc t tk tv v).
Proof using Htc SR.
  unfold typecheck_big_map. repeat within_step; auto using within_ensure_ty_eq, within_map.
Qed.
End Components.

Lemma within_contract_address n a ep t : within n (typecheck_contract_address env a ep t).
Proof. unfold typecheck_contract_address. repeat within_step; apply within_ensure_ty_eq. Qed.

Lemma within_leaf n v t : within n (typecheck_leaf v t).
Proof.
  unfold typecheck_leaf, byte_repr. destruct t; repeat within_step.
Qed.
(** With a bound of at least one (value, instruction), two (block) or three (lambda) more than
    the gas, the bound is not reached: a value or an instruction costs at least 4 units. *)
Definition within_at (fuel : nat) : Prop :=
  (forall n m t, n + 1 <= Z.of_nat fuel -> within n (typecheck_value env fuel m t)) /\
  (forall n ms a b r, n + 3 <= Z.of_nat fuel -> within n (typecheck_lambda env fuel ms a b r)) /\
  (forall n ms eps f, n + 2 <= Z.of_nat fuel -> within n (typecheck env fuel ms eps f)) /\
  (forall n m eps f, n + 1 <= Z.of_nat fuel -> within n (typecheck_instruction env fuel m eps f)).

(** Nothing is claimed of negative amounts of gas. *)
Lemma within_neg {E A} n (c : M Gas E A) : n < 0 -> within n c.
Proof. intros Hn g Hg Hle. pose proof (gas_left_nonneg g Hg). lia. Qed.

Lemma within_lambda_step fuel n ms a b r :
  within_at fuel -> n + 3 <= Z.of_nat (S fuel) -> within n (typecheck_lambda env (S fuel) ms a b r).
Proof.
  intros (_ & _ & Ht & _) Hn. cbn [typecheck_lambda].
  apply within_bind; [apply Ht; lia | intros [code f]]. apply within_bind; [apply within_unify | intros u].
  destruct r; apply within_ret.
Qed.

Lemma within_block_step fuel n ms eps f :
  within_at fuel -> n + 2 <= Z.of_nat (S fuel) -> within n (typecheck env (S fuel) ms eps f).
Proof.
  intros (_ & _ & _ & Hi) Hn. cbn [typecheck]. revert f. induction ms as [|m ms IH]; intros f; [apply within_ret|].
  apply within_bind; [apply Hi; lia | intros [i f']]. apply within_bind; [apply IH | intros [is' f'']].
  apply within_ret.
Qed.

Lemma within_value_step fuel n m t :
  within_at fuel -> n + 1 <= Z.of_nat (S fuel) -> within n (typecheck_value env (S fuel) m t).
Proof using SR.
  intros (Hv & Hl & _ & _) Hn. cbn [typecheck_value]. apply (within_use n 4); [done..|].
  assert (Hv' : forall m t, within (n - 4) (typecheck_value env fuel m t)) by (intros; apply Hv; lia).
  assert (Hl' : forall ms a b r, within (n - 4) (typecheck_lambda env fuel ms a b r)) by (intros; apply Hl; lia).
  destruct t; repeat within_step;
    auto using within_leaf, within_set, within_map, within_big_map, within_collect, within_contract_address.
  intros g Hg Hle. specialize (Hv' m (TPair TAddress (TPair t TNat)) g Hg Hle).
  destruct (typecheck_value env fuel m _ g) as [[v| | |] g']; simpl in *; try done. destruct Hv' as [Hs Hnone].
  destruct v as [| | | | | |l r| | | | | | | | | | | | | | | | | | | |]; try done.
  destruct l; try done. destruct r as [| | | | | |l' r| | | | | | | | | | | | | | | | | | | |]; try done. by destruct r.
Qed.

Lemma within_script_with n tci m :
  (forall m eps f, within n (tci m eps f)) -> within n (typecheck_script_with tci m).
Proof.
  intros Htci. unfold typecheck_script_with, parse_parameter_ty_with_entrypoints.
  assert (Hf : forall seq p s c, within n (script_fields seq p s c)).
  { induction seq as [|x seq IH]; intros p s c; cbn [script_fields]; repeat within_step; auto. }
  repeat within_step; auto with within.
  all: unfold field_or_missing; repeat within_step; auto with within.
Qed.
Lemma within_tail n k s p : within n (unpair_fill k s p).
Proof. revert p. induction k as [|k IH]; intros p; cbn [unpair_fill]; repeat within_step; auto. Qed.

Lemma cost_ok_variadic (f : nat -> Res OutOfGas Z) o :
  (forall k, cost_ok (f k)) -> cost_ok match o with None => Done 0 | Some d => f d end.
Proof. destruct o; [auto | done]. Qed.

Lemma cost_ok_dip_n o : cost_ok (tc_cost.dip_n o).
Proof. apply cost_ok_variadic. intros. apply cost_ok_ck2. Qed.
Lemma cost_ok_drop_n o : cost_ok (tc_cost.drop_n o).
Proof. apply cost_ok_variadic. intros. apply cost_ok_ck2. Qed.
Hint Resolve cost_ok_dip_n cost_ok_drop_n : cost.

Lemma within_instr_step fuel n m eps f :
  within_at fuel -> n + 1 <= Z.of_nat (S fuel) -> within n (typecheck_instruction env (S fuel) m eps f).
Proof using SR.
  intros (Hv & Hl & Ht & Hi) Hn. cbn [typecheck_instruction].
  apply within_bind; [destruct f; [apply within_ret | apply within_fail] | intros s].
  apply (within_use n 4); [done..|].
  assert (Hv' : forall m t, within (n - 4) (typecheck_value env fuel m t)) by (intros; apply Hv; lia).
  assert (Hl' : forall ms a b r, within (n - 4) (typecheck_lambda env fuel ms a b r)) by (intros; apply Hl; lia).
  assert (Ht' : forall ms eps f, within (n - 4) (typecheck env fuel ms eps f)) by (intros; apply Ht; lia).
  assert (Hi' : forall m eps f, within (n - 4) (typecheck_instruction env fuel m eps f)) by (intros; apply Hi; lia).
  destruct m as [| | |p args anns|ms]; try apply within_fail; [|by repeat within_step].
  destruct p; try apply within_fail;
    unfold_tc_instr; unfold no_args, tc_ticket, tc_unpack, tc_contract, tc_emit, emit_tag, tc_self,
      tc_drop, tc_dup, tc_dig, tc_dug, tc_pair, tc_unpair, tc_get, tc_update, tc_dip, tc_if, tc_if_none,
      tc_if_cons, tc_if_left, tc_loop, tc_loop_left, tc_iter, tc_iter_body, tc_map, typecheck_map_block,
      tc_push, tc_lambda, tc_create_contract, ensure_stack_len, access_mut, check_ep_name_len;
    repeat within_step; auto using within_tail, within_script_with with within.
Qed.

Lemma typechecker_within fuel : within_at fuel.
Proof using SR.
  induction fuel as [|fuel IH].
  { split_and!; intros; apply within_neg; lia. }
  split_and!; intros; auto using within_value_step, within_lambda_step, within_block_step, within_instr_step.
Qed.
End Tc.
End MirTermination.
Export MirTermination.

(** The interpreter and gas: gas never increases, and with a bound above the gas that is left
    the interpreter returns. *)
Module MirInterpGas.

(** As [within], for computations on the context. *)
Definition runs {St E A} (n : Z) (c : M (Ctx St) E A) : Prop :=
  forall ctx, gas_ok (gas ctx) -> gas_left (gas ctx) <= n ->
  match c ctx with (NoFuel, _) => False | (_, ctx') => spent (gas ctx) (gas ctx') end.

Section Runs.
Context {St E E' A B : Type}.

Lemma runs_pure n (c : M (Ctx St) E A) :
  (forall ctx, exists r ctx', c ctx = (r, ctx') /\ returns r /\ gas ctx' = gas ctx) -> runs n c.
Proof.
  intros Hc ctx Hg Hn. destruct (Hc ctx) as (r & ctx' & -> & Hr & Hgas). unfold spent. rewrite Hgas.
  by destruct r; try done; split; try done; lia.
Qed.

Lemma runs_ret n (a : A) : runs (St := St) (E := E) n (ret a).
Proof. apply runs_pure. intros. by eexists _, _. Qed.
Lemma runs_fail n e : runs n (fail e : M (Ctx St) E A).
Proof. apply runs_pure. intros. by eexists _, _. Qed.
Lemma runs_panic n p : runs n (panic p : M (Ctx St) E A).
Proof. apply runs_pure. intros. by eexists _, _. Qed.
Lemma runs_lift n (r : Res E A) : returns r -> runs (St := St) n (lift r).
Proof. intros. apply runs_pure. intros. by eexists _, _. Qed.
Lemma runs_get_state n : runs (St := St) (E := E) n get_state.
Proof. intros ctx Hg Hn. simpl. split; [done | lia]. Qed.

Lemma runs_bind n (c : M (Ctx St) E A) (k : A -> M (Ctx St) E B) :
  runs n c -> (forall a, runs n (k a)) -> runs n (bind c k).
Proof.
  intros Hc Hk ctx Hg Hn. unfold bind. specialize (Hc ctx Hg Hn).
  destruct (c ctx) as [[a|e|p|] ctx']; try done. destruct Hc as [Hg' Hle].
  specialize (Hk a ctx' Hg' ltac:(lia)).
  destruct (k a ctx') as [[] ctx'']; try done; destruct Hk as [? ?]; split; try done; lia.
Qed.

Lemma runs_map_err n (f : E -> E') (c : M (Ctx St) E A) : runs n c -> runs n (map_err f c).
Proof. intros Hc ctx Hg Hn. unfold map_err. specialize (Hc ctx Hg Hn). by destruct (c ctx) as [[] ctx']. Qed.

Lemma runs_le n n' (c : M (Ctx St) E A) : runs n c -> n' <= n -> runs n' c.
Proof. intros Hc Hle ctx Hg Hn. apply Hc; [done | lia]. Qed.

Lemma runs_neg n (c : M (Ctx St) E A) : n < 0 -> runs n c.
Proof. intros Hn ctx Hg Hle. pose proof (gas_left_nonneg _ Hg). lia. Qed.

Lemma runs_on_gas n (c : M Gas E A) : within n c -> runs (St := St) n (on_gas c).
Proof.
  intros Hc ctx Hg Hn. unfold on_gas. specialize (Hc _ Hg Hn).
  destruct (c (gas ctx)) as [[] g']; simpl in *; try done. by destruct Hc.
Qed.
End Runs.

Section Charge.
Context {St : Type} {Bls : BlsTypes}.
Abbreviation I := (M (Ctx St) InterpretError).

(** [gas.consume] in the error type of the interpreter. *)
Lemma runs_charge n cost : cost_ok cost -> runs (St := St) n (charge (E := InterpretError) cost).
Proof.
  intros Hc. by apply runs_on_gas, within_charge.
Qed.

Lemma runs_consume_bind {A} n d cost (k : I A) :
  d <= cost -> 0 <= d -> runs (n - d) k -> runs n (consume cost >>; k).
Proof.
  intros Hd H0 Hk ctx Hg Hn. unfold consume, charge, on_gas, gas_charge, map_err, bind, lift. simpl.
  unfold gas_consume, milligas. destruct (gas ctx) as [m|] eqn:Eg; simpl in *; [|split; done].
  unfold checked_sub. destruct (cost <=? m) eqn:E; simpl; [|split; simpl; lia].
  specialize (Hk (set_gas (Some (m - cost)) ctx) ltac:(simpl; lia) ltac:(simpl; lia)).
  destruct (k _) as [[] ctx']; try done; destruct Hk as [? Hle]; simpl in *; split; try done; simpl; lia.
Qed.

Lemma runs_ok {A} n (c : T A) : within n c -> runs (St := St) n (ok c).
Proof.
  intros Hc ctx Hg Hn. unfold ok. specialize (Hc _ Hg Hn).
  destruct (c (gas ctx)) as [[] g']; simpl in *; try done. by destruct Hc.
Qed.

Lemma runs_counter n : runs (St := St) (E := InterpretError) n operation_counter.
Proof. apply runs_pure. intros. by eexists _, _. Qed.
Lemma runs_origination n : runs (St := St) (E := InterpretError) n origination_counter.
Proof. apply runs_pure. intros. by eexists _, _. Qed.

Lemma runs_the {A} n (f : TypedValue -> option A) v : runs (St := St) n (the f v).
Proof. apply runs_lift, returns_option. Qed.
Lemma runs_pop n s : runs (St := St) n (pop s).
Proof. apply runs_lift, returns_option. Qed.
Lemma runs_pop_as {A} n (f : TypedValue -> option A) s : runs (St := St) n (pop_as f s).
Proof. apply runs_bind; [apply runs_pop | intros []]. apply runs_bind; [apply runs_the | intros; apply runs_ret]. Qed.
Lemma runs_top_as {A} n (f : TypedValue -> option A) s : runs (St := St) n (top_as f s).
Proof.
  destruct s; [apply runs_panic|]. apply runs_bind; [apply runs_the | intros; apply runs_ret].
Qed.
Lemma runs_the_all {A} n (f : TypedValue -> option A) l : runs (St := St) n (the_all f l).
Proof.
  induction l as [|v l IH]; [apply runs_ret|]. apply runs_bind; [apply runs_the | intros].
  apply runs_bind; [apply IH | intros; apply runs_ret].
Qed.
Lemma runs_the_key_hash n o : runs (St := St) n (the_key_hash o).
Proof. destruct o; [|apply runs_ret]. apply runs_bind; [apply runs_the | intros; apply runs_ret]. Qed.
Lemma runs_mutez n o : runs (St := St) n (mutez o).
Proof. destruct o; [apply runs_ret | apply runs_fail]. Qed.
End Charge.

(** ** Costs *)
Section Costs.
Context {Bls : BlsTypes}.

Lemma returns_lookup_cost k n : returns (interpret_cost.lookup_cost k n).
Proof.
  apply returns_bind; [apply cost_ok_returns, cost_ok_compare | intros].
  apply returns_bind; [apply returns_ok_or_out_of_gas | done].
Qed.

Lemma cost_ok_lookup k n f : (forall c, cost_ok (f c)) -> cost_ok (res_bind (interpret_cost.lookup_cost k n) f).
Proof. intros. by apply cost_ok_bind; [apply returns_lookup_cost|]. Qed.

Lemma cost_ok_mul_int a b : cost_ok (interpret_cost.mul_int a b).
Proof.
  apply cost_ok_bind; [|intros; apply cost_ok_ck2].
  case_bool_decide; [done|]. apply returns_bind; [apply returns_ok_or_out_of_gas | done].
Qed.

Lemma cost_ok_optional (f : nat -> Res OutOfGas Z) z o :
  0 <= z -> (forall k, cost_ok (f k)) -> cost_ok match o with None => Done z | Some d => f d end.
Proof. destruct o; auto. Qed.

Lemma cost_ok_dip o : cost_ok (interpret_cost.dip o).
Proof. apply cost_ok_optional; [done | intros; apply cost_ok_ck2]. Qed.
Lemma cost_ok_drop o : cost_ok (interpret_cost.drop o).
Proof. apply cost_ok_optional; [done | intros; apply cost_ok_ck2]. Qed.
Lemma cost_ok_dup o : cost_ok (interpret_cost.dup o).
Proof. apply cost_ok_optional; [done | intros; apply cost_ok_ck2]. Qed.
Lemma cost_ok_join t u : cost_ok (interpret_cost.join_tickets t u).
Proof. apply cost_ok_bind; [apply cost_ok_returns, cost_ok_compare | intros; apply cost_ok_ck2]. Qed.
Lemma cost_ok_check_signature k m : cost_ok (interpret_cost.check_signature k m).
Proof. destruct k; apply cost_ok_ck2. Qed.
End Costs.
#[export] Hint Resolve cost_ok_mul_int cost_ok_dip cost_ok_drop cost_ok_dup cost_ok_join cost_ok_check_signature : cost.
#[export] Hint Extern 1 (cost_ok (interpret_cost.set_mem _ _)) => apply cost_ok_lookup; intros; apply cost_ok_ck2 : cost.
#[export] Hint Extern 1 (cost_ok (interpret_cost.map_mem _ _)) => apply cost_ok_lookup; intros; apply cost_ok_ck2 : cost.
#[export] Hint Extern 1 (cost_ok (interpret_cost.map_get _ _)) => apply cost_ok_lookup; intros; apply cost_ok_ck2 : cost.
#[export] Hint Extern 1 (cost_ok (interpret_cost.map_update _ _)) => apply cost_ok_lookup; intros; apply cost_ok_ck2 : cost.
#[export] Hint Extern 1 (cost_ok (interpret_cost.set_update _ _)) => apply cost_ok_lookup; intros; apply cost_ok_ck2 : cost.
#[export] Hint Extern 1 (cost_ok (interpret_cost.map_get_and_update _ _)) => apply cost_ok_lookup; intros; apply cost_ok_ck2 : cost.
(** One step through a computation of the interpreter. *)
Ltac runs_step :=
  lazymatch goal with
  | |- runs _ (ret _) => apply runs_ret
  | |- runs _ (fail _) => apply runs_fail
  | |- runs _ (panic _) => apply runs_panic
  | |- runs _ (lift _) => apply runs_lift; solve [returns_tac]
  | |- runs _ (at_stack _) => apply runs_lift, returns_option
  | |- runs _ (on_storage _) => apply runs_lift; solve [returns_tac]
  | |- runs _ (charge _) => apply runs_charge; solve [eauto with cost]
  | |- runs _ (consume _) => apply runs_charge; apply cost_ok_done; done
  | |- runs _ get_state => apply runs_get_state
  | |- runs _ operation_counter => apply runs_counter
  | |- runs _ origination_counter => apply runs_origination
  | |- runs _ (the _ _) => apply runs_the
  | |- runs _ (pop _) => apply runs_pop
  | |- runs _ (pop_as _ _) => apply runs_pop_as
  | |- runs _ (top_as _ _) => apply runs_top_as
  | |- runs _ (the_all _ _) => apply runs_the_all
  | |- runs _ (the_key_hash _) => apply runs_the_key_hash
  | |- runs _ (mutez _) => apply runs_mutez
  | |- runs _ (bind _ _) => apply runs_bind; [ | intros ?]
  | |- runs _ (match ?x with _ => _ end) => destruct x
  end.

Section Instr.
Context {Bls : BlsTypes} {X : Extern} {St : Type} {LS : LazyStorage St} {SR : StorageReturns St}.
Abbreviation I := (M (Ctx St) InterpretError).
Implicit Types (f : list TypedValue -> I (list TypedValue)).

(** ** Containers *)
Lemma returns_map_get {E A} k (m : list (TypedValue * A)) : returns (map_get (E := E) k m).
Proof. induction m as [|[k' v] m IH]; simpl; returns_tac. Qed.
Lemma returns_map_insert {E A} k (v : A) m : returns (map_insert (E := E) k v m).
Proof. induction m as [|[k' w] m IH]; cbn [map_insert]; returns_tac. Qed.
Lemma returns_map_remove {E A} k (m : list (TypedValue * A)) : returns (map_remove (E := E) k m).
Proof. induction m as [|[k' w] m IH]; cbn [map_remove]; returns_tac. Qed.
Hint Resolve returns_map_get returns_map_insert returns_map_remove : returns.

Lemma returns_map_change {E} k o m : returns (map_change (E := E) k o m).
Proof. unfold map_change. returns_tac. Qed.
Lemma returns_set_contains {E} k l : returns (set_contains (E := E) k l).
Proof. unfold set_contains. returns_tac. Qed.
Lemma returns_set_insert {E} k l : returns (set_insert (E := E) k l).
Proof. unfold set_insert. returns_tac. Qed.
Lemma returns_set_remove {E} k l : returns (set_remove (E := E) k l).
Proof. unfold set_remove. returns_tac. Qed.
Lemma returns_bm_update {E} m k o : returns (bm_update (E := E) m k o).
Proof. destruct m. unfold bm_update. returns_tac. Qed.
Lemma returns_bm_get m k st : returns (res_map_err ILazyStorageError (bm_get (St := St) m k st)).
Proof using SR.
  assert (H : returns (bm_get (St := St) m k st)) by (unfold bm_get; returns_tac). by destruct (bm_get m k st).
Qed.
Lemma returns_bm_mem m k st : returns (res_map_err ILazyStorageError (bm_mem (St := St) m k st)).
Proof using SR.
  assert (H : returns (bm_mem (St := St) m k st)) by (unfold bm_mem; returns_tac). by destruct (bm_mem m k st).
Qed.
Hint Resolve returns_map_change returns_set_contains returns_set_insert returns_set_remove returns_bm_update
  returns_bm_get returns_bm_mem : returns.

(** ** Control *)
Lemma runs_loop k f n : (forall s, runs n (f s)) -> n + 1 <= Z.of_nat k -> forall s, runs n (loop k f s).
Proof.
  revert n. induction k as [|k IH]; intros n Hf Hn s; [by apply runs_neg; lia|].
  cbn [loop]. apply (runs_consume_bind n 1); [done..|].
  apply runs_bind; [apply runs_pop_as | intros [b s']]. destruct b; [|repeat runs_step].
  apply runs_bind; [eapply runs_le; [apply Hf | lia] | intros s'']. apply IH; [|lia].
  intros. eapply runs_le; [apply Hf | lia].
Qed.

Lemma runs_loop_left k f n : (forall s, runs n (f s)) -> n + 1 <= Z.of_nat k -> forall s, runs n (loop_left k f s).
Proof.
  revert n. induction k as [|k IH]; intros n Hf Hn s; [by apply runs_neg; lia|].
  cbn [loop_left]. apply (runs_consume_bind n 1); [done..|].
  apply runs_bind; [apply runs_pop_as | intros [b s']]. destruct b; [|repeat runs_step].
  apply runs_bind; [eapply runs_le; [apply Hf | lia] | intros s'']. apply IH; [|lia].
  intros. eapply runs_le; [apply Hf | lia].
Qed.

Lemma runs_iter_values f n l : (forall s, runs n (f s)) -> forall s, runs n (iter_values f l s).
Proof. intros Hf. induction l as [|v l IH]; intros s; cbn [iter_values]; repeat runs_step; auto. Qed.

Lemma runs_map_values {A} (arg : A -> TypedValue) f n l :
  (forall s, runs n (f s)) -> forall s, runs n (map_values arg f l s).
Proof. intros Hf. induction l as [|v l IH]; intros s; cbn [map_values]; repeat runs_step; auto. Qed.

Lemma runs_fill n k s v : runs (St := St) n (fill k s v).
Proof. revert v. induction k as [|k IH]; intros v; cbn [fill]; repeat runs_step; auto. Qed.

Lemma runs_unfold_closure n c v : runs (St := St) n (unfold_closure c v).
Proof. revert v. induction c as [l|t w c IH]; intros v; cbn [unfold_closure]; repeat runs_step; auto. Qed.

Lemma runs_block (one : Instruction -> list TypedValue -> I (list TypedValue)) n code :
  Forall (fun i => forall s, runs n (one i s)) code -> forall s, runs n (interpret one code s).
Proof. induction 1 as [|i code Hi _ IH]; intros s; cbn [interpret]; repeat runs_step; auto. Qed.

(** With fuel above the gas, and lambdas that run with a unit of gas less. *)
Lemma runs_interpret_one fuel run n i :
  n + 1 <= Z.of_nat fuel -> (forall code s, runs (n - 1) (run code s)) ->
  forall s, runs n (interpret_one fuel run i s).
Proof using SR.
  intros Hn Hrun. induction i as [i IH] using instruction_nested_ind. intros s.
  assert (Hb : forall b, b ∈ blocks i -> forall s, runs n (interpret (interpret_one fuel run) b s)).
  { intros b Hin. apply runs_block. rewrite Forall_forall in IH. by apply IH. }
  destruct i; cbn [interpret_one blocks] in *; clear IH;
    try (assert (Hb1 := Hb _ (list_elem_of_here _ _)));
    try (assert (Hb2 := Hb _ (list_elem_of_further _ _ _ (list_elem_of_here _ _)))); clear Hb.
  all: unfold op_add, op_mul, op_neg, op_sub_mutez, op_and, op_or, op_xor, op_not, op_dip, op_drop, op_dup,
    op_dig, op_dug, op_swap, op_cmp_zero, op_if, op_if_none, op_if_cons, op_if_left, op_loop, op_loop_left,
    op_iter, op_map, op_abs, op_is_nat, op_int, op_nat, op_bytes, op_push, op_failwith, op_constant, op_car,
    op_cdr, op_pair, op_pair_n, op_unpair, op_unpair_n, op_some, op_compare, op_cons, op_left, op_right,
    op_concat, op_slice, op_mem, op_get, op_get_n, op_update_n, op_update, op_get_and_update, op_size, run_size,
    op_pack, op_check_signature, op_hash_key, op_hash, op_pairing_check, op_transfer_tokens, op_set_delegate,
    op_address, op_implicit_account, op_voting_power, op_emit, op_create_contract, compute_contract_address,
    op_apply, op_ticket, op_read_ticket, op_split_ticket, op_join_tickets.
  all: repeat runs_step; auto using runs_loop, runs_loop_left, runs_iter_values, runs_map_values, runs_fill, runs_unfold_closure.
  - unfold op_unpack. apply runs_bind; [runs_step | intros [bs s']].
    do 2 (apply runs_bind; [runs_step | intros ?]). apply runs_bind; [|intros; runs_step].
    destruct (decode_packed_returns bs) as [[m ->]|[e ->]]; [apply runs_ok, typechecker_within; lia | apply runs_ret].
  - unfold op_exec. apply (runs_consume_bind n 1); [done..|].
    repeat runs_step; auto using runs_unfold_closure.
  - unfold op_contract. repeat runs_step. apply runs_ok, within_contract_address.
Qed.

Lemma interpreter_runs fuel : forall n i s, n + 1 <= Z.of_nat fuel -> runs n (instruction_interpret fuel i s).
Proof using SR.
  induction fuel as [|k IH]; intros n i s Hn; [apply runs_neg; lia|].
  cbn [instruction_interpret]. apply runs_interpret_one; [done|]. intros code s'. apply runs_block.
  apply Forall_forall. intros i' _ s''. apply IH. lia.
Qed.
End Instr.
End MirInterpGas.
Export MirInterpGas.
