(* ===== verification/MirContract.v ===== *)
(** The Michelson runtime as a whole: what typechecking and interpretation promise together.

    The theorems are proved for every big map storage and every implementation of the external
    crates that satisfy [StorageSound], [StorageReturns] and [ExternSound]. *)

From stdpp Require Import strings.
From S2P Require Import Prelude MirAst MirGas MirStack MirCompare MirExtern MirSerial MirCtx MirTypes MirTcInstr MirTypecheck MirOps MirInterp MirTyping MirSerialProps MirSound MirTcSound MirSafety MirGasProps.

Open Scope Z_scope.

Module MirContract.
Section Runtime.
Context {Bls : BlsTypes} {X : Extern} {St : Type} {LS : LazyStorage St}.
Context {XS : ExternSound X} {SR : StorageReturns St}.
Implicit Types (F : Features) (st : St) (ctx : Ctx St) (env : TcEnv St).

(** C12: code the typechecker accepts on a stack of types is well typed: for the stack it
    reports, or for every stack when it reports that the code always fails. *)
Theorem typechecked_code_is_well_typed F env fuel m eps A i f g g' :
  allows F m ->
  typecheck_instruction env fuel m eps (FOk A) g = (Done (i, f), g') ->
  match f with
  | FOk B => instr_typed F (env_storage env) i A B
  | FFailed => forall B, instr_typed F (env_storage env) i A B
  end.
Proof.
  intros Hm E. destruct (typechecker_sound_at (F := F) env fuel) as (_ & _ & _ & Hi).
  specialize (Hi m eps A Hm _ _ _ E). destruct f as [B|]; [by apply (Hi B) | intros B; by apply (Hi B)].
Qed.

(** C26: a value the typechecker accepts has the type it was checked against: in
    particular the keys of its sets, maps and big maps are strictly increasing, and its
    [mutez] are 63-bit numbers. *)
Theorem typechecked_value_is_well_typed F env fuel m t v g g' :
  allows F m -> wf_ty t = true -> typecheck_value env fuel m t g = (Done v, g') ->
  value_typed F (env_storage env) v t.
Proof.
  intros Hm Ht E. destruct (typechecker_sound_at (F := F) env fuel) as (Hv & _). by eapply Hv.
Qed.

(** C28: typechecking with a bound above the gas that is left returns a value, an error or a
    panic, never the bound, and never gives gas back. *)
Theorem typechecking_terminates env fuel m t g :
  gas_ok g -> gas_left g < Z.of_nat fuel ->
  match typecheck_value env fuel m t g with
  | (NoFuel, _) => False
  | (_, g') => gas_ok g' /\ gas_left g' <= gas_left g
  end.
Proof using SR.
  intros Hg Hf. destruct (typechecker_within env fuel) as (Hv & _).
  specialize (Hv (gas_left g) m t ltac:(lia) g Hg ltac:(lia)).
  destruct (typecheck_value env fuel m t g) as [[] g']; simpl in Hv; try done. by destruct Hv.
Qed.

(** C27: interpretation, of any instruction on any stack, with a bound above the gas that is
    left returns a stack, an error or a panic, never the bound, and never gives gas back. *)
Theorem interpretation_terminates fuel i s ctx :
  gas_ok (gas ctx) -> gas_left (gas ctx) < Z.of_nat fuel ->
  match instruction_interpret fuel i s ctx with
  | (NoFuel, _) => False
  | (_, ctx') => gas_ok (gas ctx') /\ gas_left (gas ctx') <= gas_left (gas ctx)
  end.
Proof using SR.
  intros Hg Hf. exact (interpreter_runs fuel (gas_left (gas ctx)) i s ltac:(lia) ctx Hg ltac:(lia)).
Qed.

(** C8: well-typed code run on a well-typed stack terminates with a stack of its result type
    or with an error.  It panics only where [allowed] says: if the code typechecks at run time
    ([UNPACK], [CONTRACT]), or joins tickets with incomparable contents. *)
Theorem well_typed_code_is_safe F st fuel i A B s ctx :
  StorageSound F st -> ctx_ok F st ctx -> gas_ok (gas ctx) -> gas_left (gas ctx) < Z.of_nat fuel ->
  instr_typed F st i A B -> stack_typed F st s A ->
  match instruction_interpret fuel i s ctx with
  | (Done s', ctx') => stack_typed F st s' B /\ ctx_ok F st ctx'
  | (Error e, _) => error_ok F st e
  | (Panics p, _) => allowed F st p
  | (NoFuel, _) => False
  end.
Proof using XS SR.
  intros SS Hctx Hg Hf Hi Hs.
  pose proof (interpreter_runs fuel (gas_left (gas ctx)) i s ltac:(lia) ctx Hg ltac:(lia)) as Hr.
  pose proof (interpret_sound fuel i A B Hi s Hs ctx Hctx) as Hsnd.
  destruct (instruction_interpret fuel i s ctx) as [[] ctx']; try done.
Qed.

(** ** Contracts *)
Lemma script_types_wf tci m :
  ensures (fun cs => wf_ty (cs_parameter cs) = true /\ wf_ty (cs_storage cs) = true)
    (typecheck_script_with tci m).
Proof.
  unfold typecheck_script_with. do 2 (apply ensures_skip; intros ?).
  destruct a0 as [[p s] c]. apply ensures_skip. intros pm.
  apply (ensures_bind (fun r => wf_ty r.2 = true)).
  { unfold parse_parameter_ty_with_entrypoints.
    eapply ensures_bind; [apply parses_wf_all | intros [t eps] Ht]. by apply ensures_ret. }
  intros [eps pt] Hp. apply ensures_skip. intros sm.
  eapply ensures_bind; [apply parse_ty_ok | intros st Hst].
  do 3 (apply ensures_skip; intros ?). apply ensures_skip. intros [i f]. apply ensures_skip. intros _.
  by apply ensures_ret.
Qed.

(** Typechecking an input of a contract. *)
Lemma typecheck_input_sound F st fuel m t ctx :
  ctx_ok F st ctx -> gas_ok (gas ctx) -> gas_left (gas ctx) < Z.of_nat fuel -> allows F m -> wf_ty t = true ->
  match typecheck_input fuel m t ctx with
  | (Done v, ctx') =>
      value_typed F st v t /\ ctx_ok F st ctx' /\ gas_ok (gas ctx') /\ gas_left (gas ctx') <= gas_left (gas ctx)
  | (NoFuel, _) => False
  | _ => True
  end.
Proof using SR.
  intros Hctx Hg Hf Hm Ht. unfold typecheck_input, map_err, on_gas, bind, get_state.
  pose proof (typechecker_within (tc_env ctx) fuel) as (Hw & _).
  specialize (Hw (gas_left (gas ctx)) m t ltac:(lia) _ Hg ltac:(lia)).
  destruct (typecheck_value (tc_env ctx) fuel m t (gas ctx)) as [[v|e|p|] g'] eqn:E; simpl; try done.
  destruct (typechecker_sound_at (F := F) (tc_env ctx) fuel) as (Hv & _).
  pose proof (Hv m t Hm Ht _ _ _ E) as Hvt. simpl in Hvt. rewrite (ctx_storage F st) in Hvt by done.
  destruct Hw as [[Hg' Hle] Hnone]. split_and!; try done. apply set_gas_ok; [done|].
  intros ->. by apply (ctx_gas F st ctx), Hnone.
Qed.

Lemma the_all_operations F st vec (ctx : Ctx St) :
  Forall (fun v => value_typed F st v TOperation) vec ->
  exists ops, the_all as_operation vec ctx = (Done ops, ctx) /\ Forall (fun o => operation_typed F st o.1) ops.
Proof.
  induction 1 as [|v vec Hv _ (ops & IH & Hops)]; [by exists []|]. inversion Hv as [| | | | | | | | | | | | | | | | | | | | | | |o n Ho| | | | |]; subst.
  exists ((o, n) :: ops). cbn [the_all]. unfold bind at 1. simpl. unfold bind. rewrite IH. by split; [|constructor].
Qed.

(** C1: running a script the typechecker accepted, on any parameter and storage, whatever
    instructions they contain: the run terminates; when it succeeds, the new storage has the
    storage type of the script and the emitted operations are well typed; it panics only if
    typechecking an input does, or where the features [F] of the three pieces of Micheline
    say: with [UNPACK] or [CONTRACT] ([dynamic]) as a run of the typechecker or after its gas
    ran out, with [TICKET] ([any_ticket]) in a comparison of incomparable contents.  Without
    these three instructions ([strict]) [allowed] is empty, and with all features ([full])
    every script qualifies. *)
Theorem contract_run_is_safe F fuel fuel' env script cs parameter storage g g' ctx :
  StorageSound F (big_map_storage ctx) -> ctx_ok F (big_map_storage ctx) ctx ->
  gas_ok (gas ctx) -> gas_left (gas ctx) < Z.of_nat fuel ->
  env_storage env = big_map_storage ctx ->
  allows F script -> allows F parameter -> allows F storage ->
  typecheck_script env fuel' script g = (Done cs, g') ->
  match contract_interpret fuel cs parameter storage ctx with
  | (Done (operations, v), _) =>
      value_typed F (big_map_storage ctx) v (cs_storage cs) /\
      Forall (fun o => operation_typed F (big_map_storage ctx) o.1) operations
  | (Error _, _) => True
  | (Panics p, _) =>
      (typecheck_input fuel parameter (cs_parameter cs) ctx).1 = Panics p \/
      (exists v ctx', typecheck_input fuel parameter (cs_parameter cs) ctx = (Done v, ctx') /\
        (typecheck_input fuel storage (cs_storage cs) ctx').1 = Panics p) \/
      allowed F (big_map_storage ctx) p
  | (NoFuel, _) => False
  end.
Proof using XS SR.
  intros SS Hctx Hg Hf Henv Hscr Hpar Hsto Hcs. set (st := big_map_storage ctx) in *.
  assert (Hwf := script_types_wf _ _ _ _ _ Hcs). cbv beta in Hwf. destruct Hwf as [Hwp Hws].
  assert (Hst : script_typed F st cs).
  { destruct (typechecker_sound_at (F := F) env fuel') as (_ & _ & _ & Hi).
    pose proof (typecheck_script_with_ok (F := F) env (typecheck_instruction env fuel') script Hi Hscr
                  g cs g' Hcs) as H.
    by rewrite Henv in H. }
  unfold contract_interpret, bind at 1.
  pose proof (typecheck_input_sound F st fuel parameter _ ctx Hctx Hg Hf Hpar Hwp) as Hp.
  destruct (typecheck_input fuel parameter (cs_parameter cs) ctx) as [[v|e|p|] ctx1] eqn:E1; try done; [|by left].
  destruct Hp as (Hv & Hctx1 & Hg1 & Hle1). unfold bind at 1.
  pose proof (typecheck_input_sound F st fuel storage _ ctx1 Hctx1 Hg1 ltac:(lia) Hsto Hws) as Hs.
  destruct (typecheck_input fuel storage (cs_storage cs) ctx1) as [[w|e|p|] ctx2] eqn:E2; try done.
  2: { right. left. eexists _, _. split; [done|]. by rewrite E2. }
  destruct Hs as (Hw & Hctx2 & Hg2 & Hle2). unfold bind at 1, map_err at 1.
  inversion Hst as [pt stt i Hi Ecs]; subst cs. simpl in *.
  pose proof (interpreter_runs fuel (gas_left (gas ctx2)) i [VPair v w] ltac:(lia) ctx2 Hg2 ltac:(lia)) as Hr.
  assert (Hstk : stack_typed F st [VPair v w] [TPair pt stt]) by by repeat constructor.
  pose proof (interpret_sound fuel i _ _ Hi _ Hstk ctx2 Hctx2) as Hsnd.
  destruct (instruction_interpret fuel i [VPair v w] ctx2) as [[s|e|p|] ctx3]; simpl; try done.
  2: { by right; right. }
  destruct Hsnd as [(r & s' & -> & Hrt & _)%stack_typed_cons Hctx3]. typed_inv.
  match goal with H : Forall _ ?l |- _ => destruct (the_all_operations F st l ctx3 H) as (ops & Hops & Hot) end.
  unfold bind, map_err. rewrite Hops. done.
Qed.
End Runtime.
End MirContract.
Export MirContract.
