(* ===== verification/MirBigMap.v ===== *)
(** Big maps at the end of a contract run ([src/contrib/mir/src/ast/big_map.rs],
    [collect_big_maps] and [dump_big_map_updates]).

    The big maps handed to [dump_big_map_updates] are mutable references: they are the
    elements of a list, updated by index, and the state of the computation is the storage
    together with that list. *)

From stdpp Require Import strings.
From S2P Require Import Prelude MirAst MirGas MirCompare MirCtx.

Open Scope Z_scope.

Module MirBigMap.
Section BigMaps.
Context {Bls : BlsTypes}.

(** ** The big maps of a value *)

(** [TypedValue::collect_big_maps], with the function that puts them in a vector
    ([view_big_maps_mut]). *)
Fixpoint collect_big_maps (v : TypedValue) : list BigMap :=
  match v with
  | VPair l r => collect_big_maps l ++ collect_big_maps r
  | VOr (Left x) | VOr (Right x) | VOption (Some x) => collect_big_maps x
  | VList l => flat_map collect_big_maps l
  | VMap m => flat_map (fun e => collect_big_maps e.2) m
  | VBigMap m => [m]
  | VOperation (TransferTokens param _ _) _ => collect_big_maps param
  | VOperation (CreateContract _ _ storage _ _) _ => collect_big_maps storage
  | _ => []
  end.

(** [TypedValue::view_big_map_ids]. *)
Definition view_big_map_ids (v : TypedValue) : list Z := omap bm_id (collect_big_maps v).

(** The elements of a container, each with its big maps replaced by the next ones of [ms]. *)
Section WriteAll.
Context {A : Type} (write : A -> list BigMap -> A * list BigMap).

Fixpoint write_all (l : list A) (ms : list BigMap) : list A * list BigMap :=
  match l with
  | [] => ([], ms)
  | x :: l => let '(x, ms) := write x ms in let '(l, ms) := write_all l ms in (x :: l, ms)
  end.
End WriteAll.

(** The value after its big maps, seen through the references of [view_big_maps_mut], have
    become [ms]; the maps that are left over are returned. *)
Fixpoint write_big_maps (v : TypedValue) (ms : list BigMap) : TypedValue * list BigMap :=
  match v with
  | VPair l r =>
      let '(l, ms) := write_big_maps l ms in
      let '(r, ms) := write_big_maps r ms in (VPair l r, ms)
  | VOr (Left x) => let '(x, ms) := write_big_maps x ms in (VOr (Left x), ms)
  | VOr (Right x) => let '(x, ms) := write_big_maps x ms in (VOr (Right x), ms)
  | VOption (Some x) => let '(x, ms) := write_big_maps x ms in (VOption (Some x), ms)
  | VList l => let '(l, ms) := write_all write_big_maps l ms in (VList l, ms)
  | VMap m =>
      let write_entry e ms := let '(x, ms) := write_big_maps e.2 ms in ((e.1, x), ms) in
      let '(m, ms) := write_all write_entry m ms in (VMap m, ms)
  | VBigMap m => match ms with m :: ms => (VBigMap m, ms) | [] => (VBigMap m, []) end
  | VOperation (TransferTokens param d a) n =>
      let '(param, ms) := write_big_maps param ms in (VOperation (TransferTokens param d a) n, ms)
  | VOperation (CreateContract d a storage c m) n =>
      let '(storage, ms) := write_big_maps storage ms in (VOperation (CreateContract d a storage c m) n, ms)
  | _ => (v, ms)
  end.

(** ** Dumping the updates *)
Section Dump.
Context {St : Type} {LS : LazyStorage St}.
Abbreviation D := (M (St * list BigMap) LazyStorageError).

Definition with_storage {A} (c : M St LazyStorageError A) : D A := fun '(s, ms) =>
  let '(r, s) := c s in (r, (s, ms)).

Definition get_map (i : nat) : D BigMap := fun '(s, ms) => (res_option (ms !! i) UnreachableState, (s, ms)).
Definition set_map (i : nat) (m : BigMap) : D unit := fun '(s, ms) => (Done tt, (s, <[i := m]> ms)).

(** [mem::take(&mut map.overlay)] *)
Definition take_overlay (i : nat) : D (list (TypedValue * option TypedValue)) :=
  let+ m := get_map i in
  let 'mkBigMap id overlay kt vt := m in
  set_map i (mkBigMap id [] kt vt) >>; ret overlay.

(** [map.id = Some(id)] *)
Definition set_id (i : nat) (id : Z) : D unit :=
  let+ m := get_map i in
  let 'mkBigMap _ overlay kt vt := m in set_map i (mkBigMap (Some id) overlay kt vt).

Definition flush (id : Z) (i : nat) : D unit :=
  let+ overlay := take_overlay i in with_storage (big_map_bulk_update id overlay).

(** [grouped_maps]: a [BTreeMap] from an id to the first big map with this id and the other
    ones. *)
Abbreviation Groups := (list (Z * (nat * list nat))).

Fixpoint group_insert (id : Z) (i : nat) (groups : Groups) : Groups :=
  match groups with
  | [] => [(id, (i, []))]
  | (id', (main, others)) :: rest =>
      match id ?= id' with
      | Lt => (id, (i, [])) :: groups
      | Eq => (id', (main, others ++ [i])) :: rest
      | Gt => (id', (main, others)) :: group_insert id i rest
      end
  end.

(** [grouped_maps.contains_key] *)
Definition group_mem (id : Z) (groups : Groups) : bool := existsb (fun g => id =? g.1) groups.

Fixpoint group_maps (idx : list nat) (groups : Groups) : D Groups :=
  match idx with
  | [] => ret groups
  | i :: idx =>
      let+ m := get_map i in
      let 'mkBigMap id _ kt vt := m in
      match id with
      | Some id => group_maps idx (group_insert id i groups)
      | None =>
          let+ id := with_storage (big_map_new kt vt) in
          flush id i >>; set_id i id >>; group_maps idx groups
      end
  end.

Fixpoint remove_gone (started : list Z) (groups : Groups) : D unit :=
  match started with
  | [] => ret tt
  | id :: started =>
      (if group_mem id groups then ret tt else with_storage (big_map_remove id)) >>;
      remove_gone started groups
  end.

Fixpoint copy_others (id : Z) (others : list nat) : D unit :=
  match others with
  | [] => ret tt
  | i :: others =>
      let+ new_id := with_storage (big_map_copy id) in
      flush new_id i >>; set_id i new_id >>; copy_others id others
  end.

Fixpoint update_groups (groups : Groups) : D unit :=
  match groups with
  | [] => ret tt
  | (id, (main, others)) :: groups => copy_others id others >>; flush id main >>; update_groups groups
  end.

Definition dump_big_map_updates (started_with_map_ids : list Z) : D unit :=
  let+ st := get_state in
  let+ groups := group_maps (seq 0 (length st.2)) [] in
  remove_gone started_with_map_ids groups >>; update_groups groups.

End Dump.
End BigMaps.
End MirBigMap.
Export MirBigMap.
