(* ===== verification/MirStorageSpec.v ===== *)
(** What a big map storage promises to its clients, and the proof that the in-memory storage
    keeps the promise.

    The content of a stored big map is a function from keys to optional values; an operation
    is described by its effect on the contents. *)

From Stdlib Require Import Sorted.
From stdpp Require Import strings.
From S2P Require Import Prelude MirAst MirGas MirCompare MirCtx MirTypes MirTcInstr MirTyping.

Open Scope Z_scope.

Module MirStorageSpec.
Section Spec.
Context {Bls : BlsTypes}.
Implicit Types (k : TypedValue) (t tk tv : Ty).

(** ** Keys: the values of comparable types, without a storage *)
Fixpoint is_key (t : Ty) (v : TypedValue) : bool :=
  match t, v with
  | TInt, VInt _ | TNat, VNat _ | TBool, VBool _ | TString, VString _ | TUnit, VUnit
  | TAddress, VAddress _ | TChainId, VChainId _ | TBytes, VBytes _ | TKey, VKey _
  | TSignature, VSignature _ | TKeyHash, VKeyHash _ | TTimestamp, VTimestamp _ => true
  | TMutez, VMutez z => (0 <=? z) && (z <? 2 ^ 63)
  | TPair l r, VPair x y => is_key l x && is_key r y
  | TOption _, VOption None => true
  | TOption t, VOption (Some x) => is_key t x
  | TOr l _, VOr (Left x) => is_key l x
  | TOr _ r, VOr (Right x) => is_key r x
  | _, _ => false
  end.

Lemma is_key_typed {St} {LS : LazyStorage St} F (st : St) t : comparable t = true -> forall v,
  is_key t v = true <-> value_typed F st v t.
Proof.
  induction t; intros Hc; try discriminate Hc;
    try (apply comparable_pair in Hc as [??]); try (apply comparable_or in Hc as [??]);
    intros v; (split; [intros Hk | intros Hv; typed_inv]); simpl in *;
    try (destruct v; try discriminate Hk; constructor; done); try done.
  - destruct v; try done. apply andb_true_iff in Hk as [?%Z.leb_le ?%Z.ltb_lt]. by constructor.
  - match goal with H : mutez_range _ |- _ => destruct H end. apply andb_true_iff.
    by rewrite Z.leb_le, Z.ltb_lt.
  - destruct v; try done. apply andb_true_iff in Hk as [??]. constructor; [by apply IHt1 | by apply IHt2].
  - apply andb_true_iff. split; [by apply IHt1 | by apply IHt2].
  - destruct v as [| | | | | | |[x|]| | | | | | | | | | | | | | | | | | |]; try done; constructor. by apply IHt.
  - by apply IHt.
  - destruct v as [| | | | | | | | | | | |[x|x]| | | | | | | | | | | | | |]; try done; constructor;
      [by apply IHt1 | by apply IHt2].
  - by apply IHt1.
  - by apply IHt2.
Qed.
(** ** Reference lookup in an association list *)
Fixpoint assoc {A} (k : TypedValue) (m : list (TypedValue * A)) : option A :=
  match m with
  | [] => None
  | (k', v) :: m => if decide (k = k') then Some v else assoc k m
  end.

(** A sorted map with keys of type [tk]. *)
Definition keyed {A} tk (m : list (TypedValue * A)) : Prop :=
  comparable tk = true /\ sorted_keys (m.*1) /\ Forall (fun k => is_key tk k = true) (m.*1).

Lemma keyed_keys_ok {A} tk (m : list (TypedValue * A)) :
  keyed tk m <-> keys_ok (F := strict) (st := storage_new) tk m.
Proof.
  unfold keyed, keys_ok. rewrite !Forall_forall.
  split; intros (Hc & Hs & Hm); split_and!; try done; intros k Hk; by apply (is_key_typed strict storage_new tk Hc), Hm.
Qed.

Lemma keyed_nil {A} tk : comparable tk = true -> keyed (A := A) tk [].
Proof. by rewrite keyed_keys_ok; apply keys_ok_nil. Qed.

Lemma keyed_tail {A} tk e (m : list (TypedValue * A)) : keyed tk (e :: m) -> keyed tk m.
Proof. destruct e. rewrite !keyed_keys_ok, keys_ok_cons. by intros (_ & _ & _ & ?). Qed.

Lemma keyed_head {A} tk e (m : list (TypedValue * A)) : keyed tk (e :: m) -> is_key tk e.1 = true.
Proof. intros (_ & _ & Hm). by apply Forall_cons in Hm as [? _]. Qed.

Lemma keyed_notin {A} tk k v (m : list (TypedValue * A)) : keyed tk ((k, v) :: m) -> forall w, (k, w) ∉ m.
Proof.
  rewrite keyed_keys_ok, keys_ok_cons. intros (Hc & Hk & Hlt & _) w.
  by apply (not_key_lt_elem (F := strict) (st := storage_new) tk).
Qed.

Lemma assoc_elem {A} tk k (m : list (TypedValue * A)) v : keyed tk m -> assoc k m = Some v <-> (k, v) ∈ m.
Proof.
  induction m as [|[k' v'] m IH]; intros Hm; simpl.
  { split; [done | by intros ?%not_elem_of_nil]. }
  rewrite elem_of_cons. case_decide as Hd; [subst k'|].
  - split; [intros [= ->]; by left|]. intros [[= ->]|Hin]; [done|]. by eapply keyed_notin in Hin.
  - rewrite IH by by eapply keyed_tail. split; [by right|]. by intros [[= -> ->]|?].
Qed.

(** Two optional values are equal when they hold the same. *)
Lemma option_ext {A} (o o' : option A) : (forall v, o = Some v <-> o' = Some v) -> o = o'.
Proof. apply option_eq. Qed.

Lemma map_get_assoc {E A} tk k (m : list (TypedValue * A)) :
  keyed tk m -> is_key tk k = true -> map_get (E := E) k m = Done (assoc k m).
Proof.
  intros Hm Hk. pose proof Hm as Hok%keyed_keys_ok. pose proof Hm as (Hc & _ & _).
  apply (is_key_typed strict storage_new tk Hc) in Hk.
  destruct (map_get_done (E := E) tk k m Hok Hk) as (r & -> & Hr). f_equal.
  apply option_ext. intros v. by rewrite Hr, (assoc_elem tk).
Qed.

Lemma map_insert_assoc {E A} tk k v (m : list (TypedValue * A)) :
  keyed tk m -> is_key tk k = true ->
  exists m', map_insert (E := E) k v m = Done (assoc k m, m') /\ keyed tk m' /\
    forall k', assoc k' m' = if decide (k' = k) then Some v else assoc k' m.
Proof.
  intros Hm Hk. pose proof Hm as Hok%keyed_keys_ok. pose proof Hm as (Hc & _ & _).
  apply (is_key_typed strict storage_new tk Hc) in Hk.
  destruct (map_insert_done (E := E) tk k v m Hok Hk) as (old & m' & -> & Hok' & Hold & Hin).
  apply keyed_keys_ok in Hok'. exists m'. split_and!; try done.
  - do 2 f_equal. apply option_ext. intros w. by rewrite Hold, (assoc_elem tk).
  - intros k'. apply option_ext. intros w. rewrite (assoc_elem tk), Hin by done.
    case_decide; [subst|rewrite (assoc_elem tk) by done].
    + split; [by intros [[_ ->]|[? _]] | intros [= ->]; by left].
    + split; [by intros [[? _]|[_ ?]] | by right].
Qed.

Lemma map_remove_assoc {E A} tk k (m : list (TypedValue * A)) :
  keyed tk m -> is_key tk k = true ->
  exists m', map_remove (E := E) k m = Done (assoc k m, m') /\ keyed tk m' /\
    forall k', assoc k' m' = if decide (k' = k) then None else assoc k' m.
Proof.
  intros Hm Hk. pose proof Hm as Hok%keyed_keys_ok. pose proof Hm as (Hc & _ & _).
  apply (is_key_typed strict storage_new tk Hc) in Hk.
  destruct (map_remove_done (E := E) tk k m Hok Hk) as (old & m' & -> & Hok' & Hold & Hin).
  apply keyed_keys_ok in Hok'. exists m'. split_and!; try done.
  - do 2 f_equal. apply option_ext. intros w. by rewrite Hold, (assoc_elem tk).
  - intros k'. apply option_ext. intros w. rewrite (assoc_elem tk), Hin by done.
    case_decide; [subst|rewrite (assoc_elem tk) by done].
    + split; [by intros [? _] | done].
    + split; [by intros [_ ?] | done].
Qed.

(** ** The interface *)

(** [stored st id k] is the value of key [k] in the big map [id], [used] the ids that have
    ever been given out. *)
Class StorageLaws (St : Type) {LS : LazyStorage St} := {
  storage_inv : St -> Prop;
  stored_type : St -> Z -> option (Ty * Ty);
  stored : St -> Z -> TypedValue -> option TypedValue;
  used : St -> Z -> Prop;

  stored_used st id types : storage_inv st -> stored_type st id = Some types -> used st id;

  law_get st id tk tv k :
    storage_inv st -> stored_type st id = Some (tk, tv) -> is_key tk k = true ->
    big_map_get st id k = Done (stored st id k);

  law_mem st id tk tv k :
    storage_inv st -> stored_type st id = Some (tk, tv) -> is_key tk k = true ->
    big_map_mem st id k = Done (bool_decide (is_Some (stored st id k)));

  law_get_type st id : big_map_get_type st id = Done (stored_type st id);

  law_update st id tk tv k v :
    storage_inv st -> stored_type st id = Some (tk, tv) -> is_key tk k = true ->
    exists st', big_map_update id k v st = (Done tt, st') /\ storage_inv st' /\
      (forall i, used st' i <-> used st i) /\
      (forall i, stored_type st' i = stored_type st i) /\
      (forall i k', stored st' i k' = if decide (i = id /\ k' = k) then v else stored st i k');

  law_new st tk tv :
    storage_inv st -> comparable tk = true ->
    exists id st', big_map_new tk tv st = (Done id, st') /\ storage_inv st' /\ ~ used st id /\
      (forall i, used st' i <-> i = id \/ used st i) /\
      (forall i, stored_type st' i = if decide (i = id) then Some (tk, tv) else stored_type st i) /\
      (forall i k, stored st' i k = if decide (i = id) then None else stored st i k);

  law_copy st id types :
    storage_inv st -> stored_type st id = Some types ->
    exists id' st', big_map_copy id st = (Done id', st') /\ storage_inv st' /\ ~ used st id' /\
      (forall i, used st' i <-> i = id' \/ used st i) /\
      (forall i, stored_type st' i = if decide (i = id') then Some types else stored_type st i) /\
      (forall i k, stored st' i k = if decide (i = id') then stored st id k else stored st i k);

  law_remove st id :
    storage_inv st ->
    exists st', big_map_remove id st = (Done tt, st') /\ storage_inv st' /\
      (forall i, used st' i <-> used st i) /\
      (forall i, stored_type st' i = if decide (i = id) then None else stored_type st i) /\
      (forall i k, i <> id -> stored st' i k = stored st i k)
}.

(** ** The in-memory storage *)
Definition info_ok (info : MapInfo) : Prop := keyed (mi_key_type info) (mi_map info).

Definition memory_inv (s : InMemoryLazyStorage) : Prop :=
  forall id info, big_maps s !! id = Some info -> id < next_id s /\ info_ok info.

Definition info_types (info : MapInfo) : Ty * Ty := (mi_key_type info, mi_value_type info).

Definition memory_stored (s : InMemoryLazyStorage) (id : Z) (k : TypedValue) : option TypedValue :=
  big_maps s !! id ≫= fun info => assoc k (mi_map info).

Lemma memory_inv_set s id info n :
  memory_inv s -> id < n -> next_id s <= n -> info_ok info -> memory_inv (mkStorage n (<[id := info]> (big_maps s))).
Proof.
  intros Hs Hid Hn Hinfo i info'. simpl. rewrite lookup_insert_Some.
  intros [[<- <-]|[_ Hi]]; [done|]. destruct (Hs i info' Hi). split; [lia | done].
Qed.

Lemma memory_stored_set s n id info i k :
  memory_stored (mkStorage n (<[id := info]> (big_maps s))) i k =
  if decide (i = id) then assoc k (mi_map info) else memory_stored s i k.
Proof. unfold memory_stored. simpl. rewrite lookup_insert. by repeat case_decide; subst. Qed.

Lemma memory_type_set s n id info i :
  info_types <$> big_maps (mkStorage n (<[id := info]> (big_maps s))) !! i =
  if decide (i = id) then Some (info_types info) else info_types <$> big_maps s !! i.
Proof. simpl. rewrite lookup_insert. by repeat case_decide; subst. Qed.

Lemma memory_access s id types :
  info_types <$> big_maps s !! id = Some types -> exists info, big_maps s !! id = Some info /\ info_types info = types.
Proof. intros (info & ? & ->)%fmap_Some. eauto. Qed.

Lemma memory_update s id tk tv k v :
  memory_inv s -> info_types <$> big_maps s !! id = Some (tk, tv) -> is_key tk k = true ->
  exists s', mem_big_map_update id k v s = (Done tt, s') /\ memory_inv s' /\
    (forall i, i < next_id s' <-> i < next_id s) /\
    (forall i, info_types <$> big_maps s' !! i = info_types <$> big_maps s !! i) /\
    (forall i k', memory_stored s' i k' = if decide (i = id /\ k' = k) then v else memory_stored s i k').
Proof.
  intros Hs (info & Hi & Hty)%memory_access Hk. destruct (Hs id info Hi) as [Hlt Hok].
  assert (Ek : mi_key_type info = tk) by (unfold info_types in Hty; congruence).
  unfold info_ok in Hok. rewrite Ek in Hok.
  assert (exists old m', match v with
            | None => map_remove (E := LazyStorageError) k (mi_map info)
            | Some v => map_insert k v (mi_map info) end = Done (old, m') /\ keyed tk m' /\
            forall k', assoc k' m' = if decide (k' = k) then v else assoc k' (mi_map info)) as (old & m' & E & Hm' & Ha).
  { destruct v as [v|].
    - destruct (map_insert_assoc (E := LazyStorageError) tk k v _ Hok Hk) as (m' & ? & ? & ?). eauto.
    - destruct (map_remove_assoc (E := LazyStorageError) tk k _ Hok Hk) as (m' & ? & ? & ?). eauto. }
  eexists. split_and!.
  - unfold mem_big_map_update, bind, get_state, access_big_map, lift, set_big_map. rewrite Hi. simpl. rewrite E.
    reflexivity.
  - apply memory_inv_set; try done. unfold info_ok. simpl. by rewrite Ek.
  - done.
  - intros i. rewrite memory_type_set. case_decide; [subst|done]. by rewrite Hi.
  - intros i k'. rewrite memory_stored_set. unfold memory_stored. simpl.
    repeat case_decide; subst; destruct_and?; try done; rewrite ?Ha, ?Hi; simpl; case_decide; naive_solver.
Qed.

#[refine, export] Instance memory_laws : StorageLaws InMemoryLazyStorage := {|
  storage_inv := memory_inv;
  stored_type s id := info_types <$> big_maps s !! id;
  stored := memory_stored;
  used s id := id < next_id s;
  stored_used := _; law_get := _; law_mem := _; law_get_type := _; law_update := _; law_new := _;
  law_copy := _; law_remove := _
|}.
Proof.
  - intros s id types Hs (info & Hi & _)%memory_access. by destruct (Hs id info Hi).
  - intros s id tk tv k Hs (info & Hi & [= E _])%memory_access Hk. destruct (Hs id info Hi) as [_ Hok].
    simpl. unfold mem_big_map_get, access_big_map, memory_stored. rewrite Hi. simpl.
    apply (map_get_assoc tk); [by rewrite <- E | done].
  - intros s id tk tv k Hs (info & Hi & [= E _])%memory_access Hk. destruct (Hs id info Hi) as [_ Hok].
    simpl. unfold mem_big_map_mem, access_big_map, memory_stored. rewrite Hi. simpl.
    by rewrite (map_get_assoc tk); [|rewrite <- E|].
  - intros s id. simpl. unfold mem_big_map_get_type. by destruct (big_maps s !! id).
  - intros. by eapply memory_update.
  - intros s tk tv Hs Hc. exists (next_id s). eexists. split_and!; [reflexivity|..].
    + simpl. apply (memory_inv_set s); [done|lia|lia|by apply keyed_nil].
    + lia.
    + simpl. lia.
    + intros i. by rewrite memory_type_set.
    + intros i k. by rewrite memory_stored_set.
  - intros s id types Hs (info & Hi & Hty)%memory_access. destruct (Hs id info Hi) as [_ Hok].
    exists (next_id s). eexists. split_and!.
    + simpl. unfold mem_big_map_copy, get_next_id, bind, get_state, access_big_map. simpl. rewrite Hi. reflexivity.
    + simpl. apply (memory_inv_set s); [done|lia|lia|done].
    + lia.
    + simpl. lia.
    + intros i. rewrite <- Hty. by apply memory_type_set.
    + intros i k. unfold memory_stored at 2. rewrite Hi. by apply memory_stored_set.
  - intros s id Hs. eexists. split_and!; [reflexivity|..].
    + intros i info. simpl. rewrite lookup_delete_Some. intros [_ Hi]. by apply Hs.
    + done.
    + intros i. simpl. rewrite lookup_delete. by repeat case_decide; subst.
    + intros i k Hne. unfold memory_stored. simpl. by rewrite lookup_delete_ne.
Defined.
End Spec.
End MirStorageSpec.
Export MirStorageSpec.
