(* ===== verification/MirDump.v ===== *)
(** Dumping big maps keeps what they denote.

    The theorem is proved for every storage that keeps the promise of [StorageLaws]. *)

From Stdlib Require Import Sorted.
From stdpp Require Import strings.
From S2P Require Import Prelude MirAst MirGas MirCompare MirCtx MirTypes MirTcInstr MirTyping MirBigMap MirStorageSpec.

Open Scope Z_scope.

Module MirDump.

(** ** Grouping *)
Abbreviation Groups := (list (Z * (nat * list nat))).
Lemma elem_of_group_insert (id : Z) i (g : Groups) : StronglySorted Z.lt (g.*1) ->
  StronglySorted Z.lt ((group_insert id i g).*1) /\
  (forall x, x ∈ (group_insert id i g).*1 <-> x = id \/ x ∈ g.*1) /\
  forall x p, (x, p) ∈ group_insert id i g <->
    (x <> id /\ (x, p) ∈ g) \/
    (x = id /\ ((exists main others, (id, (main, others)) ∈ g /\ p = (main, others ++ [i])) \/
                ((id ∉ g.*1) /\ p = (i, [])))).
Proof.
  induction g as [|[id' [main others]] g IH]; intros Hs; simpl.
  { split_and!; [by repeat constructor|..].
    - intros x. set_solver.
    - intros x p. rewrite list_elem_of_singleton. split; [intros [= -> ->]; right; split; [done|right]; split; [by intros ?%not_elem_of_nil|done]|].
      intros [[_ ?%not_elem_of_nil]|(-> & [(? & ? & ?%not_elem_of_nil & _)|[_ ->]])]; done. }
  apply StronglySorted_inv in Hs as [Hs Hlt]. rewrite Forall_forall in Hlt. simpl in Hlt.
  destruct (Z.compare_spec id id') as [->|Hlt'|Hgt].
  - split_and!.
    + constructor; [done | by apply Forall_forall].
    + intros x. rewrite !fmap_cons, !elem_of_cons. simpl. tauto.
    + assert (Hnot : forall p, (id', p) ∉ g).
      { intros p Hp. assert (id' < id') by (apply Hlt, list_elem_of_fmap; by exists (id', p)). lia. }
      intros x p. rewrite !elem_of_cons. split.
      * intros [[= -> ->]|Hin]; [right; split; [done|left]; exists main, others; split; [by left|done]|left].
        split; [|by right]. intros ->. by apply Hnot in Hin.
      * intros [[Hne [[= -> ->]|Hin]]|(-> & [(m' & o' & [[= -> ->]|Hin]%elem_of_cons & ->)|[Hno _]])]; try done; [by right|by left|..].
        -- by apply Hnot in Hin.
        -- exfalso. apply Hno, elem_of_cons. by left.
  - split_and!.
    + rewrite !fmap_cons. simpl. constructor; [constructor; [done|by apply Forall_forall]|].
      constructor; [done|]. apply Forall_forall. intros y Hy%Hlt. lia.
    + intros x. rewrite !fmap_cons, elem_of_cons. done.
    + assert (Hno : id ∉ (((id', (main, others)) :: g).*1)).
      { rewrite fmap_cons, elem_of_cons. simpl. intros [->|Hin%Hlt]; lia. }
      intros x p. rewrite elem_of_cons. split.
      * intros [[= -> ->]|Hin]; [by right; split; [|right]|left]. split; [|done]. intros ->. apply Hno, list_elem_of_fmap.
        by exists (id, p).
      * intros [[_ Hin]|(-> & [(m' & o' & Hin & _)|[_ ->]])]; [by right| |by left].
        exfalso. apply Hno, list_elem_of_fmap. by exists (id, (m', o')).
  - destruct (IH Hs) as (Hs' & Hk & Hin). split_and!.
    + rewrite fmap_cons. simpl. constructor; [done|]. apply Forall_forall. intros y [->|Hy%Hlt]%Hk; lia.
    + intros x. rewrite !fmap_cons, !elem_of_cons, Hk. simpl. tauto.
    + intros x p. rewrite elem_of_cons, Hin, elem_of_cons. split.
      * intros [[= -> ->]|[[Hne Hx]|(-> & [(m' & o' & Hx & ->)|[Hno ->]])]].
        -- left. split; [lia|by left].
        -- left. split; [done|by right].
        -- right. split; [done|left]. exists m', o'. split; [by right|done].
        -- right. split; [done|right]. split; [|done]. rewrite elem_of_cons. simpl. intros [->|?]; [lia|done].
      * intros [[Hne [[= -> ->]|Hx]]|(-> & [(m' & o' & [[= -> -> ->]|Hx]%elem_of_cons & ->)|[Hno ->]])].
        -- by left.
        -- right. left. done.
        -- lia.
        -- right. right. split; [done|left]. by exists m', o'.
        -- right. right. split; [done|right]. split; [|done]. intros Hx. apply Hno. rewrite elem_of_cons. by right.
Qed.

Section Dump.
Context {Bls : BlsTypes} {St : Type} {LS : LazyStorage St} {SL : StorageLaws St}.
Implicit Types (s : St) (m : BigMap) (ms : list BigMap) (id : Z) (i j : nat).

Definition bm_types (m : BigMap) : Ty * Ty := let 'mkBigMap _ _ kt vt := m in (kt, vt).

(** What a big map holds at a key: the change of the overlay if there is one. *)
Definition bm_value (s : St) (m : BigMap) (k : TypedValue) : option TypedValue :=
  match assoc k (bm_overlay m) with
  | Some change => change
  | None => match bm_id m with Some id => stored s id k | None => None end
  end.

(** A big map whose overlay is sorted and whose stored part has its types. *)
Definition bm_ok (s : St) (m : BigMap) : Prop :=
  keyed (bm_types m).1 (bm_overlay m) /\
  forall id, bm_id m = Some id -> stored_type s id = Some (bm_types m).

(** The same big map is stored at [id]. *)
Definition same_at (s s' : St) (id : Z) : Prop :=
  stored_type s' id = stored_type s id /\ forall k, stored s' id k = stored s id k.

Lemma same_at_refl s id : same_at s s id.
Proof. done. Qed.
Lemma same_at_trans s s' s'' id : same_at s s' id -> same_at s' s'' id -> same_at s s'' id.
Proof. intros [E H] [E' H']. split; [congruence|]. intros k. by rewrite H', H. Qed.

(** Only the big map at [id] changed. *)
Definition only_at (s s' : St) (id : Z) : Prop := forall x, x <> id -> same_at s s' x.

(** [BigMap::get], [BigMap::mem] and [BigMap::update] in terms of what the map holds. *)
Lemma bm_get_value s m k :
  storage_inv s -> bm_ok s m -> is_key (bm_types m).1 k = true -> bm_get m k s = Done (bm_value s m k).
Proof.
  intros Hs [Hov Hid] Hk. unfold bm_get, bm_value. rewrite (map_get_assoc (bm_types m).1) by done. simpl.
  destruct (assoc k (bm_overlay m)) as [c|]; [done|]. destruct (bm_id m) as [id|]; [|done].
  destruct (bm_types m) as [kt vt] eqn:Ety. by apply (law_get s id kt vt); [|apply Hid|].
Qed.

Lemma bm_mem_value s m k :
  storage_inv s -> bm_ok s m -> is_key (bm_types m).1 k = true ->
  bm_mem m k s = Done (bool_decide (is_Some (bm_value s m k))).
Proof.
  intros Hs [Hov Hid] Hk. unfold bm_mem, bm_value. rewrite (map_get_assoc (bm_types m).1) by done. simpl.
  destruct (assoc k (bm_overlay m)) as [c|]; [done|]. destruct (bm_id m) as [id|]; [|done].
  destruct (bm_types m) as [kt vt] eqn:Ety. by apply (law_mem s id kt vt); [|apply Hid|].
Qed.

Lemma bm_update_value {E} s m k v :
  bm_ok s m -> is_key (bm_types m).1 k = true ->
  exists m', bm_update (E := E) m k v = Done m' /\ bm_ok s m' /\ bm_types m' = bm_types m /\ bm_id m' = bm_id m /\
    forall k', bm_value s m' k' = if decide (k' = k) then v else bm_value s m k'.
Proof.
  destruct m as [id ov kt vt]. intros [Hov Hid] Hk. simpl in *. unfold bm_update.
  destruct (map_insert_assoc (E := E) kt k v ov Hov Hk) as (ov' & -> & Hov' & Ha).
  eexists. split_and!; [reflexivity|done..|]. intros k'. unfold bm_value. simpl. rewrite Ha. by case_decide.
Qed.

(** ** Bulk updates *)
Lemma bulk_update_spec s id tk tv ov :
  storage_inv s -> stored_type s id = Some (tk, tv) -> keyed tk ov ->
  exists s', big_map_bulk_update id ov s = (Done tt, s') /\ storage_inv s' /\
    (forall x, used s' x <-> used s x) /\ only_at s s' id /\ stored_type s' id = Some (tk, tv) /\
    forall k, stored s' id k = match assoc k ov with Some c => c | None => stored s id k end.
Proof.
  revert s. induction ov as [|[k c] ov IH]; intros s Hs Hty Hov; simpl.
  { by exists s. }
  pose proof (keyed_head _ _ _ Hov) as Hk. simpl in Hk. pose proof (keyed_notin _ _ _ _ Hov) as Hnot.
  pose proof (keyed_tail _ _ _ Hov) as Hov'.
  destruct (law_update s id tk tv k c Hs Hty Hk) as (s1 & E1 & Hs1 & Hu1 & Ht1 & Hv1).
  destruct (IH s1 Hs1 ltac:(by rewrite Ht1) Hov') as (s2 & E2 & Hs2 & Hu2 & Ho2 & Ht2 & Hv2).
  exists s2. split_and!; try done.
  - unfold bind. by rewrite E1.
  - intros i. by rewrite Hu2.
  - intros i Hne. apply (same_at_trans _ s1); [|by apply Ho2]. split; [done|]. intros k'. rewrite Hv1.
    by rewrite decide_False by tauto.
  - intros k'. rewrite Hv2, Hv1. destruct (decide (k' = k)) as [->|Hne].
    + destruct (assoc k ov) as [w|] eqn:Ea; [|by rewrite decide_True].
      apply (assoc_elem tk) in Ea; [|done]. by apply Hnot in Ea.
    + by rewrite (decide_False (P := id = id /\ k' = k)) by tauto.
Qed.

Lemma flush_spec s ms i m id :
  storage_inv s -> ms !! i = Some m -> keyed (bm_types m).1 (bm_overlay m) -> stored_type s id = Some (bm_types m) ->
  exists s', flush id i (s, ms) = (Done tt, (s', <[i := mkBigMap (bm_id m) [] (bm_types m).1 (bm_types m).2]> ms)) /\
    storage_inv s' /\ (forall x, used s' x <-> used s x) /\ only_at s s' id /\ stored_type s' id = Some (bm_types m) /\
    forall k, stored s' id k = match assoc k (bm_overlay m) with Some c => c | None => stored s id k end.
Proof.
  destruct m as [mid ov kt vt]. intros Hs Hi Hov Hty. simpl in *.
  destruct (bulk_update_spec s id kt vt ov Hs Hty Hov) as (s' & E & Hs' & Hu & Ho & Ht & Hv).
  exists s'. split_and!; try done. unfold flush, take_overlay, bind, get_map, set_map. simpl. rewrite Hi. simpl.
  unfold ret. by rewrite E.
Qed.

Lemma set_id_spec s ms i mid ov kt vt id :
  ms !! i = Some (mkBigMap mid ov kt vt) ->
  set_id i id (s, ms) = (Done tt, (s, <[i := mkBigMap (Some id) ov kt vt]> ms)).
Proof. intros Hi. unfold set_id, bind, get_map. simpl. by rewrite Hi. Qed.

(** ** The invariant of the dump *)
Section Progress.
Variables (s0 : St) (ms0 : list BigMap).
Hypothesis inv0 : storage_inv s0.
Hypothesis ok0 : Forall (bm_ok s0) ms0.
Implicit Types (P : nat -> Prop) (Q : Z -> Prop) (R : list Z).

Definition id_at (i : nat) : option Z := ms0 !! i ≫= bm_id.

Definition dumped (id : Z) (m0 : BigMap) : BigMap := mkBigMap (Some id) [] (bm_types m0).1 (bm_types m0).2.

(** [m] is the dumped form of [m0]: it is stored under an id that is new or in [Q]. *)
Definition settled Q s m0 m : Prop :=
  exists id, m = dumped id m0 /\ (~ used s0 id \/ Q id) /\ used s id /\
    stored_type s id = Some (bm_types m0) /\ forall k, stored s id k = bm_value s0 m0 k.

(** The dump has got this far: the maps in [P] are as they were, the others are settled; the
    ids in [Q] were updated in place, the ids in [R] were removed. *)
Record progress P Q R s ms : Prop := {
  pr_inv : storage_inv s;
  pr_used : forall id, used s0 id -> used s id;
  pr_len : length ms = length ms0;
  pr_pending : forall i m0, ms0 !! i = Some m0 -> P i -> ms !! i = Some m0;
  pr_source : forall i id, P i -> id_at i = Some id -> ~ Q id /\ same_at s0 s id;
  pr_settled : forall i m0, ms0 !! i = Some m0 -> ~ P i -> exists m, ms !! i = Some m /\ settled Q s m0 m;
  pr_distinct : forall i j m m',
    ms !! i = Some m -> ms !! j = Some m' -> ~ P i -> ~ P j -> bm_id m = bm_id m' -> i = j;
  pr_frame : forall id, used s0 id -> (forall i, id_at i <> Some id) -> id ∉ R -> same_at s0 s id;
  pr_gone : forall id, id ∈ R -> used s0 id /\ stored_type s id = None
}.

Lemma id_at_used i id : id_at i = Some id -> used s0 id.
Proof using inv0 ok0.
  unfold id_at. intros (m & Hm & Hid)%bind_Some. rewrite Forall_lookup in ok0.
  destruct (ok0 i m Hm) as [_ Hty]. by apply (stored_used s0 id (bm_types m)), Hty.
Qed.

Lemma lookup_same_length ms i m : length ms = length ms0 -> ms !! i = Some m -> exists m0, ms0 !! i = Some m0.
Proof. intros Hlen Hi%lookup_lt_Some. rewrite Hlen in Hi. by apply lookup_lt_is_Some. Qed.

Lemma settled_id Q s ms i m0 m P R id :
  progress P Q R s ms -> ~ P i -> ms0 !! i = Some m0 -> ms !! i = Some m -> bm_id m = Some id ->
  (~ used s0 id \/ Q id) /\ used s id.
Proof.
  intros Hp HP H0 Hm Hid. destruct (pr_settled _ _ _ _ _ Hp i m0 H0 HP) as (m' & Hm' & x & -> & Hx & Hu & _).
  simplify_eq/=. done.
Qed.

Lemma settled_mono Q Q' s s' m0 m :
  settled Q s m0 m -> (forall id, bm_id m = Some id -> same_at s s' id) ->
  (forall id, used s id -> used s' id) -> (forall id, Q id -> Q' id) -> settled Q' s' m0 m.
Proof.
  intros (id & -> & HQ & Hu & Ht & Hv) Hsame Hused HQQ. destruct (Hsame id eq_refl) as [Et Ev].
  exists id. split_and!; [done|by destruct HQ; auto|auto|congruence|]. intros k. by rewrite Ev.
Qed.

Lemma progress_iff P P' Q R s ms :
  (forall i, (i < length ms0)%nat -> P i <-> P' i) -> progress P Q R s ms -> progress P' Q R s ms.
Proof.
  intros HP [?? Hlen ?? Hst Hd ??]. split; try done.
  - intros i m0 Hi HP'. apply HP in HP'; [eauto|]. by apply lookup_lt_Some in Hi.
  - intros i id HP' Hid. pose proof Hid as (m & Hm%lookup_lt_Some & _)%bind_Some. apply HP in HP'; eauto.
  - intros i m0 Hi Hn. apply Hst; [done|]. rewrite HP; [done|]. by apply lookup_lt_Some in Hi.
  - intros i j m m' Hi Hj Hni Hnj. rewrite <- HP in Hni, Hnj; [eauto|..]; rewrite <- Hlen; by eapply lookup_lt_Some.
Qed.

(** One more map is settled, under [id]. *)
Lemma settle P Q Q' R s s' ms i m0 id :
  progress P Q R s ms -> P i -> ms0 !! i = Some m0 ->
  storage_inv s' -> (forall x, used s x -> used s' x) -> used s' id -> only_at s s' id ->
  stored_type s' id = Some (bm_types m0) -> (forall k, stored s' id k = bm_value s0 m0 k) ->
  (~ used s0 id \/ Q' id) -> (forall x, Q x -> Q' x) ->
  (forall j m, ~ P j -> ms !! j = Some m -> bm_id m <> Some id) ->
  (forall j x, P j -> j <> i -> id_at j = Some x -> x <> id /\ ~ Q' x) ->
  (used s0 id -> exists j, id_at j = Some id) -> id ∉ R ->
  progress (fun j => P j /\ j <> i) Q' R s' (<[i := dumped id m0]> ms).
Proof.
  intros Hp Hi H0 Hinv Hused Hu Honly Hty Hval Hid HQ Hnew Hpend Hsrc HR.
  pose proof (lookup_lt_Some _ _ _ H0) as Hlt. pose proof (pr_len _ _ _ _ _ Hp) as Hlen.
  assert (Hi' : <[i := dumped id m0]> ms !! i = Some (dumped id m0)) by (apply list_lookup_insert_eq; lia).
  split.
  - done.
  - intros x Hx. by apply Hused, (pr_used _ _ _ _ _ Hp).
  - by rewrite length_insert.
  - intros j m Hj [HPj Hne]. rewrite list_lookup_insert_ne by done. by apply (pr_pending _ _ _ _ _ Hp).
  - intros j x [HPj Hne] Hx. destruct (Hpend j x HPj Hne Hx) as [Hxid HnQ]. split; [done|].
    apply (same_at_trans _ s); [by apply (pr_source _ _ _ _ _ Hp j) | by apply Honly].
  - intros j m Hj HPj. destruct (decide (j = i)) as [->|Hne].
    + rewrite H0 in Hj. injection Hj as <-. exists (dumped id m0). split; [done|]. by exists id.
    + rewrite list_lookup_insert_ne by done. assert (HnP : ~ P j) by tauto.
      destruct (pr_settled _ _ _ _ _ Hp j m Hj HnP) as (m' & Hm' & Hset). exists m'. split; [done|].
      apply (settled_mono Q Q' s s'); auto. intros x Hx. apply Honly. intros ->. by apply (Hnew j m').
  - assert (Hone : forall j m, j <> i -> ms !! j = Some m -> ~ (P j /\ j <> i) -> bm_id m <> Some id).
    { intros j m Hne Hj HPj. apply (Hnew j); [tauto | done]. }
    intros j1 j2 m1 m2 H1 H2 HP1 HP2 Heq.
    destruct (decide (j1 = i)) as [->|Hn1], (decide (j2 = i)) as [->|Hn2]; [done|..].
    + rewrite Hi' in H1. injection H1 as <-. rewrite list_lookup_insert_ne in H2 by done. by destruct (Hone j2 m2).
    + rewrite Hi' in H2. injection H2 as <-. rewrite list_lookup_insert_ne in H1 by done. by destruct (Hone j1 m1).
    + rewrite list_lookup_insert_ne in H1, H2 by done. apply (pr_distinct _ _ _ _ _ Hp j1 j2 m1 m2); tauto.
  - intros x Hx Hno HxR. apply (same_at_trans _ s); [by apply (pr_frame _ _ _ _ _ Hp)|]. apply Honly.
    intros ->. destruct (Hsrc Hx) as [j Hj]. by apply (Hno j).
  - intros x Hx. destruct (pr_gone _ _ _ _ _ Hp x Hx) as [Hux Htx]. split; [done|].
    assert (Hne : x <> id) by congruence. destruct (Honly x Hne) as [-> _]. done.
Qed.

(** A pending map is written to a storage in which its stored part was put under the new
    [id]. *)
Lemma settle_fresh P Q R s s1 ms i m0 id :
  progress P Q R s ms -> P i -> ms0 !! i = Some m0 ->
  storage_inv s1 -> ~ used s id -> (forall x, used s1 x <-> x = id \/ used s x) -> only_at s s1 id ->
  stored_type s1 id = Some (bm_types m0) ->
  (forall k, stored s1 id k = match bm_id m0 with Some x => stored s0 x k | None => None end) ->
  exists s2, bind (flush id i) (fun _ => set_id i id) (s1, ms) = (Done tt, (s2, <[i := dumped id m0]> ms)) /\
    progress (fun j => P j /\ j <> i) Q R s2 (<[i := dumped id m0]> ms).
Proof using inv0 ok0.
  intros Hp Hi H0 Hs1 Hfresh Hu1 Ho1 Ht1 Hv1. pose proof (pr_pending _ _ _ _ _ Hp i m0 H0 Hi) as Hm.
  pose proof ok0 as Hok. rewrite Forall_lookup in Hok. destruct (Hok i m0 H0) as [Hov _].
  pose proof (lookup_lt_Some _ _ _ Hm) as Hlt.
  destruct (flush_spec s1 ms i m0 id Hs1 Hm Hov Ht1) as (s2 & E2 & Hs2 & Hu2 & Ho2 & Ht2 & Hv2).
  assert (Hfresh0 : ~ used s0 id) by (intros ?%(pr_used _ _ _ _ _ Hp); done).
  exists s2. split.
  { unfold bind. rewrite E2, (set_id_spec _ _ _ (bm_id m0) [] (bm_types m0).1 (bm_types m0).2)
      by by apply list_lookup_insert_eq. by rewrite list_insert_insert_eq. }
  apply (settle P Q Q R s s2 ms i m0 id); try done.
  - intros x Hx. apply Hu2, Hu1. by right.
  - apply Hu2, Hu1. by left.
  - intros x Hne. apply (same_at_trans _ s1); [by apply Ho1 | by apply Ho2].
  - intros k. rewrite Hv2. unfold bm_value. by destruct (assoc k (bm_overlay m0)).
  - by left.
  - intros j m HPj Hj Hid. destruct (lookup_same_length ms j m) as [m0' Hm0']; [apply Hp|done|].
    by destruct (settled_id Q s ms j m0' m P R id) as [_ ?].
  - intros j x HPj _ Hx. split; [intros ->; by apply Hfresh0, (id_at_used j)|].
    by apply (pr_source _ _ _ _ _ Hp j x).
  - intros HR%(pr_gone _ _ _ _ _ Hp). by destruct HR.
Qed.

(** A pending map is updated in place, when no other pending map shares its stored part. *)
Lemma settle_in_place P Q R s ms i m0 id :
  progress P Q R s ms -> P i -> ms0 !! i = Some m0 -> bm_id m0 = Some id ->
  (forall j, P j -> id_at j = Some id -> j = i) ->
  exists s2, flush id i (s, ms) = (Done tt, (s2, <[i := dumped id m0]> ms)) /\
    progress (fun j => P j /\ j <> i) (fun x => Q x \/ x = id) R s2 (<[i := dumped id m0]> ms).
Proof using inv0 ok0.
  intros Hp Hi H0 Hid Honly1. pose proof (pr_pending _ _ _ _ _ Hp i m0 H0 Hi) as Hm.
  pose proof ok0 as Hok. rewrite Forall_lookup in Hok. destruct (Hok i m0 H0) as [Hov Hty].
  assert (Hat : id_at i = Some id) by (unfold id_at; by rewrite H0).
  destruct (pr_source _ _ _ _ _ Hp i id Hi Hat) as [HnQ [Et Ev]].
  destruct (flush_spec s ms i m0 id (pr_inv _ _ _ _ _ Hp) Hm Hov ltac:(by rewrite Et; apply Hty))
    as (s2 & E2 & Hs2 & Hu2 & Ho2 & Ht2 & Hv2).
  pose proof (id_at_used i id Hat) as Hused.
  exists s2. split; [by rewrite E2, Hid|].
  apply (settle P Q (fun x => Q x \/ x = id) R s s2 ms i m0 id); try done.
  - intros x. apply Hu2.
  - by apply Hu2, (pr_used _ _ _ _ _ Hp).
  - intros k. rewrite Hv2, Ev. unfold bm_value. rewrite Hid. by destruct (assoc k (bm_overlay m0)).
  - by right; right.
  - by left.
  - intros j m HPj Hj Hjid. destruct (lookup_same_length ms j m) as [m0' Hm0']; [apply Hp|done|].
    by destruct (settled_id Q s ms j m0' m P R id) as [[?|?] _].
  - intros j x HPj Hne Hx. split; [intros ->; by apply Hne, Honly1|].
    intros [HQx| ->]; [by apply (pr_source _ _ _ _ _ Hp j x) | by apply Hne, Honly1].
  - eauto.
  - intros HR%(pr_gone _ _ _ _ _ Hp). destruct HR as [_ HR]. rewrite Et, (Hty id) in HR; done.
Qed.


(** The groups hold the first [n] maps that have a stored part, by its id. *)
Definition groups_ok (n : nat) (g : Groups) : Prop :=
  StronglySorted Z.lt (g.*1) /\
  (forall id main others, (id, (main, others)) ∈ g ->
     NoDup (main :: others) /\ forall i, i ∈ main :: others <-> (i < n)%nat /\ id_at i = Some id) /\
  (forall i id, (i < n)%nat -> id_at i = Some id -> id ∈ g.*1).

Lemma groups_ok_skip n g : id_at n = None -> groups_ok n g -> groups_ok (S n) g.
Proof.
  intros Hn (Hs & Hg & Hall). split_and!; [done|..].
  - intros id main others Hin. destruct (Hg id main others Hin) as [Hnd Hm]. split; [done|]. intros i. rewrite Hm.
    split; [intros [? ?]; split; [lia | done]|]. intros [Hi Hid]. split; [|done].
    destruct (decide (i = n)) as [->|]; [congruence | lia].
  - intros i id Hi Hid. apply (Hall i); [|done]. destruct (decide (i = n)) as [->|]; [congruence | lia].
Qed.

Lemma groups_ok_insert n g id : id_at n = Some id -> groups_ok n g -> groups_ok (S n) (group_insert id n g).
Proof.
  intros Hn (Hs & Hg & Hall). destruct (elem_of_group_insert id n g Hs) as (Hs' & Hk & Hin). split_and!; [done|..].
  - intros x main others [[Hne Hx]|(-> & [(m & o & Hx & [= -> ->])|[Hno [= -> ->]]])]%Hin.
    + destruct (Hg x main others Hx) as [Hnd Hm]. split; [done|]. intros i. rewrite Hm.
      split; [intros [? ?]; split; [lia | done]|]. intros [Hi Hid]. split; [|done].
      destruct (decide (i = n)) as [->|]; [congruence | lia].
    + destruct (Hg id m o Hx) as [Hnd Hm]. split.
      * rewrite app_comm_cons. apply NoDup_app. split_and!; [done| |apply NoDup_singleton].
        intros i [Hi _]%Hm ->%list_elem_of_singleton. lia.
      * intros i. rewrite app_comm_cons, elem_of_app, list_elem_of_singleton, Hm. split.
        -- intros [[? ?]| ->]; (split; [lia | done]).
        -- intros [Hi Hid]. destruct (decide (i = n)) as [->|]; [by right | left; split; [lia | done]].
    + split; [apply NoDup_singleton|]. intros i. rewrite list_elem_of_singleton. split; [intros ->; split; [lia | done]|].
      intros [Hi Hid]. destruct (decide (i = n)) as [->|]; [done|]. exfalso. apply Hno, (Hall i); [lia | done].
  - intros i x Hi Hid. apply Hk. destruct (decide (i = n)) as [->|]; [left; congruence|right].
    apply (Hall i); [lia | done].
Qed.

(** Grouping settles the maps without a stored part. *)
Lemma group_maps_spec len : forall n g s ms, (n + len = length ms0)%nat ->
  progress (fun i => (n <= i)%nat \/ is_Some (id_at i)) (fun _ => False) [] s ms -> groups_ok n g ->
  exists g' s' ms', group_maps (seq n len) g (s, ms) = (Done g', (s', ms')) /\
    progress (fun i => (n + len <= i)%nat \/ is_Some (id_at i)) (fun _ => False) [] s' ms' /\ groups_ok (n + len) g'.
Proof using inv0 ok0.
  induction len as [|len IH]; intros n g s ms Hn Hp Hg; simpl.
  { rewrite Nat.add_0_r. eauto 10. }
  destruct (lookup_lt_is_Some_2 ms0 n ltac:(lia)) as [m0 H0].
  pose proof (pr_pending _ _ _ _ _ Hp n m0 H0 ltac:(by left)) as Hm.
  unfold bind at 1, get_map. rewrite Hm. simpl. replace (n + S len)%nat with (S n + len)%nat by lia.
  destruct m0 as [[id|] ov kt vt] eqn:Em.
  - assert (Hid : id_at n = Some id) by (unfold id_at; by rewrite H0).
    apply IH; [lia| |by apply groups_ok_insert]. eapply progress_iff; [|exact Hp]. intros i _. simpl. split.
    + intros [?|?]; [|by right]. destruct (decide (i = n)) as [->|]; [right; rewrite Hid; eauto | left; lia].
    + intros [?|?]; [left; lia | by right].
  - rewrite <- Em in *. assert (Hid : id_at n = None) by (unfold id_at; rewrite H0, Em; done).
    pose proof ok0 as Hok. rewrite Forall_lookup in Hok. destruct (Hok n m0 H0) as [(Hc & _) _]. rewrite Em in Hc. simpl in Hc.
    destruct (law_new s kt vt (pr_inv _ _ _ _ _ Hp) Hc) as (id & s1 & E1 & Hs1 & Hf & Hu1 & Ht1 & Hv1).
    destruct (settle_fresh _ _ _ s s1 ms n m0 id Hp ltac:(by left) H0 Hs1 Hf Hu1) as (s2 & E2 & Hp2).
    { intros x Hne. split; [by rewrite Ht1, decide_False|]. intros k. by rewrite Hv1, decide_False. }
    { rewrite Ht1, decide_True by done. by rewrite Em. }
    { intros k. rewrite Hv1, decide_True by done. by rewrite Em. }
    destruct (IH (S n) g s2 (<[n := dumped id m0]> ms) ltac:(lia)) as (g' & s' & ms' & E3 & Hp3 & Hg3).
    { eapply progress_iff; [|exact Hp2]. intros i _. simpl. split.
      - intros [[?|?] ?]; [left; lia | by right].
      - intros [?|Hi]; [split; [left|]; lia|]. split; [by right|]. intros ->. rewrite Hid in Hi. by destruct Hi. }
    { by apply groups_ok_skip. }
    exists g', s', ms'. split_and!; try done. unfold bind at 1, with_storage. rewrite E1. simpl.
    revert E2. unfold bind. destruct (flush id n (s1, ms)) as [[[]| | |] [s3 ms3]]; try done. intros ->. done.
Qed.

Lemma group_mem_spec id g : group_mem id g = true <-> id ∈ g.*1.
Proof.
  unfold group_mem. rewrite existsb_exists, list_elem_of_fmap. split.
  - intros (x & Hx & ->%Z.eqb_eq). exists x. split; [done|]. by apply list_elem_of_In.
  - intros (x & -> & Hx). exists x. split; [by apply list_elem_of_In | by apply Z.eqb_refl].
Qed.

(** Removing a big map no map refers to. *)
Lemma settle_removed P R s ms id :
  progress P (fun _ => False) R s ms -> used s0 id -> (forall i, id_at i <> Some id) ->
  exists s', with_storage (big_map_remove id) (s, ms) = (Done tt, (s', ms)) /\
    progress P (fun _ => False) (id :: R) s' ms.
Proof.
  intros Hp Hu Hno. destruct (law_remove s id (pr_inv _ _ _ _ _ Hp)) as (s' & E & Hs' & Hu' & Ht' & Hv').
  assert (Honly : only_at s s' id).
  { intros x Hne. split; [by rewrite Ht', decide_False|]. intros k. by rewrite Hv'. }
  exists s'. split; [unfold with_storage; by rewrite E|]. split; try apply Hp; try done.
  - intros x Hx. apply Hu'. by apply (pr_used _ _ _ _ _ Hp).
  - intros i x Hi Hx. destruct (pr_source _ _ _ _ _ Hp i x Hi Hx) as [? ?]. split; [done|].
    apply (same_at_trans _ s); [done|]. apply Honly. intros ->. by apply (Hno i).
  - intros i m0 H0 HP. destruct (pr_settled _ _ _ _ _ Hp i m0 H0 HP) as (m & Hm & Hset). exists m. split; [done|].
    apply (settled_mono (fun _ => False) _ s s'); try done; [|by intros x; apply Hu'].
    intros x Hx. apply Honly. intros ->. by destruct (settled_id _ s ms i m0 m P R id Hp HP H0 Hm Hx) as [[?|[]] _].
  - intros x Hx Hxno [Hne HxR]%not_elem_of_cons. apply (same_at_trans _ s); [by apply (pr_frame _ _ _ _ _ Hp)|].
    by apply Honly.
  - intros x [->|Hx]%elem_of_cons; [split; [done|]; by rewrite Ht', decide_True|].
    destruct (pr_gone _ _ _ _ _ Hp x Hx) as [? Htx]. split; [done|]. rewrite Ht'. by case_decide.
Qed.

Lemma remove_gone_spec P g started : (forall i id, id_at i = Some id -> id ∈ g.*1) ->
  Forall (used s0) started -> forall R s ms, progress P (fun _ => False) R s ms ->
  exists R' s', remove_gone started g (s, ms) = (Done tt, (s', ms)) /\
    progress P (fun _ => False) R' s' ms /\ forall id, id ∈ R' <-> id ∈ R \/ (id ∈ started /\ (id ∉ g.*1)).
Proof.
  intros Hall. induction 1 as [|id started Hu _ IH]; intros R s ms Hp; simpl.
  { exists R, s. split_and!; [done..|]. intros id. rewrite elem_of_nil. tauto. }
  unfold bind at 1. destruct (group_mem id g) eqn:Eg.
  - apply group_mem_spec in Eg. destruct (IH R s ms Hp) as (R' & s' & E & Hp' & HR'). exists R', s'. split_and!; [done..|].
    intros x. rewrite HR', elem_of_cons. split; [tauto|]. intros [?|[[->|?] ?]]; [by left|done|by right].
  - assert (Hno : id ∉ g.*1) by (rewrite <- group_mem_spec, Eg; done).
    destruct (settle_removed P R s ms id Hp Hu) as (s1 & E1 & Hp1); [intros i Hi; by apply Hno, (Hall i)|].
    destruct (IH (id :: R) s1 ms Hp1) as (R' & s' & E & Hp' & HR'). exists R', s'. split_and!; [by rewrite E1|done|].
    intros x. rewrite HR', !elem_of_cons. split.
    + intros [[->|?]|[? ?]]; auto.
    + intros [?|[[->|?] ?]]; auto.
Qed.

Lemma copy_others_spec id Q R others : NoDup others ->
  forall P main s ms, progress P Q R s ms -> P main -> id_at main = Some id -> main ∉ others ->
  (forall i, i ∈ others -> P i /\ id_at i = Some id) ->
  exists s' ms', copy_others id others (s, ms) = (Done tt, (s', ms')) /\
    progress (fun i => P i /\ i ∉ others) Q R s' ms'.
Proof using inv0 ok0.
  induction 1 as [|i others Hi _ IH]; intros P main s ms Hp HP Hmain Hnot Hin; simpl.
  { exists s, ms. split; [done|]. eapply progress_iff; [|exact Hp]. intros j _. simpl. rewrite elem_of_nil. tauto. }
  apply not_elem_of_cons in Hnot as [Hne Hnot]. destruct (Hin i ltac:(by left)) as [HPi Hid].
  unfold id_at in Hid. apply bind_Some in Hid as (m0 & H0 & Hid).
  pose proof ok0 as Hok. rewrite Forall_lookup in Hok. destruct (Hok i m0 H0) as [_ Hty].
  destruct (pr_source _ _ _ _ _ Hp main id HP Hmain) as [_ [Et Ev]].
  destruct (law_copy s id (bm_types m0) (pr_inv _ _ _ _ _ Hp) ltac:(by rewrite Et; apply Hty))
    as (id' & s1 & E1 & Hs1 & Hf & Hu1 & Ht1 & Hv1).
  destruct (settle_fresh _ _ _ s s1 ms i m0 id' Hp HPi H0 Hs1 Hf Hu1) as (s2 & E2 & Hp2).
  { intros x Hx. split; [by rewrite Ht1, decide_False|]. intros k. by rewrite Hv1, decide_False. }
  { by rewrite Ht1, decide_True. }
  { intros k. by rewrite Hv1, decide_True, Hid. }
  destruct (IH _ main s2 _ Hp2) as (s' & ms' & E3 & Hp3); [done..| |].
  { intros j Hj. destruct (Hin j ltac:(by right)) as [? ?]. split_and!; [done| |done]. intros ->. by apply Hi. }
  exists s', ms'. split.
  - unfold bind at 1, with_storage. rewrite E1. simpl.
    revert E2. unfold bind. destruct (flush id' i (s1, ms)) as [[[]| | |] [s3 ms3]]; try done. intros ->. done.
  - eapply progress_iff; [|exact Hp3]. intros j _. simpl. rewrite not_elem_of_cons. tauto.
Qed.

Lemma update_groups_spec R g : NoDup (g.*1) ->
  (forall id main others, (id, (main, others)) ∈ g ->
     NoDup (main :: others) /\ forall i, i ∈ main :: others <-> id_at i = Some id) ->
  forall Q s ms, progress (fun i => exists id, id ∈ g.*1 /\ id_at i = Some id) Q R s ms ->
  exists Q' s' ms', update_groups g (s, ms) = (Done tt, (s', ms')) /\ progress (fun _ => False) Q' R s' ms'.
Proof using inv0 ok0.
  induction g as [|[id [main others]] g IH]; intros Hnd Hg Q s ms Hp; simpl.
  { exists Q, s, ms. split; [done|]. eapply progress_iff; [|exact Hp]. intros i _. simpl. split; [|done].
    by intros (x & ?%not_elem_of_nil & _). }
  rewrite fmap_cons in Hnd. apply NoDup_cons in Hnd as [Hid Hnd]. simpl in Hid.
  destruct (Hg id main others ltac:(by left)) as [[Hmain Hno]%NoDup_cons Hm].
  assert (Hat : id_at main = Some id) by (apply Hm; by left).
  destruct (copy_others_spec id Q R others Hno _ main s ms Hp) as (s1 & ms1 & E1 & Hp1); try done.
  { exists id. split; [rewrite fmap_cons; by left | done]. }
  { intros i Hi. assert (Hi' : id_at i = Some id) by (apply Hm; by right). split; [|done].
    exists id. split; [rewrite fmap_cons; by left | done]. }
  pose proof Hat as Hat'. unfold id_at in Hat'. apply bind_Some in Hat' as (m0 & H0 & Hm0).
  destruct (settle_in_place _ Q R s1 ms1 main m0 id Hp1) as (s2 & E2 & Hp2); try done.
  { split; [|done]. exists id. split; [rewrite fmap_cons; by left | done]. }
  { intros j [_ Hj] Hjid. apply Hm in Hjid. apply elem_of_cons in Hjid as [->|?]; done. }
  destruct (IH Hnd ltac:(intros x m o Hx; apply Hg; by right) (fun x => Q x \/ x = id) s2 (<[main := dumped id m0]> ms1)) as (Q' & s' & ms' & E3 & Hp3).
  { eapply progress_iff; [|exact Hp2]. intros i _. simpl. split.
    - intros [[(x & Hx & Hix) Hi] Hne]. exists x. split; [|done].
      apply elem_of_cons in Hx as [->|?]; [|done]. simpl in Hix. apply Hm, elem_of_cons in Hix as [->|?]; done.
    - intros (x & Hx & Hix). assert (Hxid : x <> id) by (intros ->; done).
      assert (Hi : i ∉ main :: others) by (rewrite Hm; congruence). apply not_elem_of_cons in Hi as [? ?].
      split_and!; try done. exists x. split; [by apply elem_of_cons; right | done]. }
  exists Q', s', ms'. split; [|done]. unfold bind. by rewrite E1, E2.
Qed.
End Progress.

(** C24: dumping big maps to a storage succeeds; afterwards every map has an empty overlay and
    an id of its own, reads from the new storage as it read before, the big maps that started
    the run and are referred to by none of the maps are gone, and no other big map changed. *)
Theorem dump_keeps_big_maps s0 ms0 started :
  storage_inv s0 -> Forall (bm_ok s0) ms0 -> Forall (used s0) started ->
  exists s ms, dump_big_map_updates started (s0, ms0) = (Done tt, (s, ms)) /\ storage_inv s /\
    Forall2 (fun m0 m => exists id, m = mkBigMap (Some id) [] (bm_types m0).1 (bm_types m0).2 /\ bm_ok s m /\
      forall k, is_key (bm_types m0).1 k = true -> bm_get m k s = bm_get m0 k s0) ms0 ms /\
    NoDup (bm_id <$> ms) /\
    (forall id, id ∈ started -> Some id ∉ bm_id <$> ms0 -> big_map_get_type s id = Done None) /\
    (forall id, used s0 id -> id ∉ started -> Some id ∉ bm_id <$> ms0 ->
       big_map_get_type s id = big_map_get_type s0 id /\
       forall tk tv k, big_map_get_type s0 id = Done (Some (tk, tv)) -> is_key tk k = true ->
         big_map_get s id k = big_map_get s0 id k).
Proof.
  intros Hs0 Hok Hst.
  assert (Hnot : forall id, Some id ∉ bm_id <$> ms0 -> forall i, id_at ms0 i <> Some id).
  { intros id Hid i Hi. unfold id_at in Hi. apply bind_Some in Hi as (m & Hm & Hmid). apply Hid.
    apply list_elem_of_fmap. exists m. split; [done | by eapply list_elem_of_lookup_2]. }
  assert (Hp0 : progress s0 ms0 (fun i => (0 <= i)%nat \/ is_Some (id_at ms0 i)) (fun _ => False) [] s0 ms0).
  { split; try done.
    - intros i id _ _. split; [tauto | apply same_at_refl].
    - intros i m0 Hi Hn. exfalso. apply Hn. left. lia.
    - intros i j m m' Hi Hj Hn. exfalso. apply Hn. left. lia.
    - by intros id ?%not_elem_of_nil. }
  destruct (group_maps_spec s0 ms0 Hs0 Hok (length ms0) 0 [] s0 ms0 eq_refl Hp0) as (g & s1 & ms1 & E1 & Hp1 & Hg).
  { split_and!; [constructor|by intros id main others ?%not_elem_of_nil|lia]. }
  destruct Hg as (Hsorted & Hg & Hall). simpl in *.
  assert (Hall' : forall i id, id_at ms0 i = Some id -> id ∈ g.*1 /\ (i < length ms0)%nat).
  { intros i id Hi. assert (Hlt : (i < length ms0)%nat).
    { unfold id_at in Hi. apply bind_Some in Hi as (m & Hm & _). by apply lookup_lt_Some in Hm. }
    split; [by apply (Hall i) | done]. }
  destruct (remove_gone_spec s0 ms0 _ g started ltac:(intros i id Hi; by apply (Hall' i)) Hst _ _ _ Hp1)
    as (R & s2 & E2 & Hp2 & HR).
  destruct (update_groups_spec s0 ms0 Hs0 Hok R g) with (Q := fun _ : Z => False) (s := s2) (ms := ms1)
    as (Q & s & ms & E3 & Hp).
  { clear - Hsorted. induction (g.*1) as [|x l IH]; [constructor|]. apply StronglySorted_inv in Hsorted as [? Hx].
    constructor; [|by apply IH]. intros Hin. rewrite Forall_forall in Hx. apply Hx in Hin. lia. }
  { intros id main others Hin. destruct (Hg id main others Hin) as [? Hm]. split; [done|]. intros i. rewrite Hm.
    split; [by intros [_ ?]|]. intros Hi. split; [by apply (Hall' i id) | done]. }
  { eapply progress_iff; [|exact Hp2]. intros i Hlt. simpl. split.
    - intros [Hi|[id Hi]]; [lia|]. exists id. split; [by apply (Hall' i) | done].
    - intros (id & _ & Hid). right. eauto. }
  exists s, ms. split_and!.
  - unfold dump_big_map_updates, bind, get_state. simpl. by rewrite E1, E2.
  - apply Hp.
  - apply Forall2_same_length_lookup_2; [by rewrite (pr_len _ _ _ _ _ _ _ Hp)|]. intros i m0 m H0 Hm.
    destruct (pr_settled _ _ _ _ _ _ _ Hp i m0 H0 ltac:(tauto)) as (m' & Hm' & id & -> & _ & _ & Hty & Hv).
    rewrite Hm in Hm'. injection Hm' as ->. rewrite Forall_lookup in Hok. pose proof (Hok i m0 H0) as Hok0.
    assert (Hokm : bm_ok s (dumped id m0)).
    { split; simpl; [destruct Hok0 as [(Hc & _) _]; by apply keyed_nil|].
      intros x [= <-]. rewrite Hty. by destruct (bm_types m0). }
    exists id. split_and!; [done..|]. intros k Hk.
    rewrite (bm_get_value s), (bm_get_value s0) by (try done; apply Hp). f_equal. apply Hv.
  - apply NoDup_alt. intros i j o Hi Hj. rewrite list_lookup_fmap in Hi, Hj.
    apply fmap_Some in Hi as (m & Hm & ->), Hj as (m' & Hm' & Heq).
    by apply (pr_distinct _ _ _ _ _ _ _ Hp i j m m'); try tauto.
  - intros id Hin Hno. rewrite law_get_type. f_equal. apply (pr_gone _ _ _ _ _ _ _ Hp), HR. right. split; [done|].
    intros Hg'. apply list_elem_of_fmap in Hg' as ([x [main others]] & -> & Hx). simpl in *.
    destruct (Hg x main others Hx) as [_ Hm]. apply (Hnot x Hno main). apply Hm. by left.
  - intros id Hu Hin Hno. destruct (pr_frame _ _ _ _ _ _ _ Hp id Hu (Hnot id Hno)) as [Et Ev].
    { rewrite HR. intros [?%not_elem_of_nil|[? _]]; done. }
    rewrite !law_get_type, Et. split; [done|]. intros tk tv k [= Hty] Hk.
    by rewrite (law_get s id tk tv), (law_get s0 id tk tv), Ev by (try apply Hp; congruence).
Qed.



(** Reading a big map after an update of a key gives the new value at this key and what
    was there before at every other key, whatever is stored; the storage is not touched. *)
Theorem big_map_reads_its_updates s m k v :
  storage_inv s -> bm_ok s m -> is_key (bm_types m).1 k = true ->
  exists m', bm_update (E := LazyStorageError) m k v = Done m' /\ bm_ok s m' /\
    forall k', is_key (bm_types m).1 k' = true ->
      bm_get m' k' s = (if decide (k' = k) then Done v else bm_get m k' s) /\
      bm_mem m' k' s = (if decide (k' = k) then Done (bool_decide (is_Some v)) else bm_mem m k' s).
Proof.
  intros Hs Hok Hk. destruct (bm_update_value (E := LazyStorageError) s m k v Hok Hk) as (m' & E & Hok' & Hty & _ & Hv).
  exists m'. split_and!; [done..|]. intros k' Hk'. rewrite <- Hty in Hk'.
  rewrite !(bm_get_value s m'), !(bm_mem_value s m'), Hv by done. rewrite Hty in Hk'.
  rewrite (bm_get_value s m), (bm_mem_value s m) by done. by case_decide.
Qed.
End Dump.

(** ** The big maps of a value *)
Section Values.
Context {Bls : BlsTypes}.

(** The components of a value that may hold big maps. *)
Definition parts (v : TypedValue) : list TypedValue :=
  match v with
  | VPair l r => [l; r]
  | VOr (Left x) | VOr (Right x) | VOption (Some x) => [x]
  | VList l => l
  | VMap m => m.*2
  | VOperation (TransferTokens param _ _) _ => [param]
  | VOperation (CreateContract _ _ storage _ _) _ => [storage]
  | _ => []
  end.

Section ValueInd.
Variable P : TypedValue -> Prop.
Hypothesis step : forall v, Forall P (parts v) -> P v.

Fixpoint value_parts_ind (v : TypedValue) : P v.
Proof using step.
  assert (Hlist : forall l, Forall P l).
  { fix go 1. intros [|x l]; constructor; [apply value_parts_ind | apply go]. }
  assert (Hmap : forall m : list (TypedValue * TypedValue), Forall P (m.*2)).
  { fix go 1. intros [|[k x] m]; constructor; [apply value_parts_ind | apply go]. }
  apply step. destruct v as [| | | | | | |[x|]| | | | |[x|x]| | | | | | | | |[] | | | | |];
    try (repeat constructor; apply value_parts_ind); [apply Hlist | apply Hmap].
Qed.
End ValueInd.

(** Writing back through the references: what is written is what is seen, in order. *)
Definition writes {A} (collect : A -> list BigMap) (write : A -> list BigMap -> A * list BigMap) (v : A) : Prop :=
  forall ms rest, length ms = length (collect v) ->
  exists v', write v (ms ++ rest) = (v', rest) /\ collect v' = ms /\ (ms = collect v -> v' = v).

(** Splitting the written maps between two parts. *)
Lemma split_length {A} (ms xs ys : list A) :
  length ms = length (xs ++ ys) -> exists ms1 ms2, ms = ms1 ++ ms2 /\ length ms1 = length xs /\ length ms2 = length ys.
Proof.
  rewrite length_app. intros H. exists (take (length xs) ms), (drop (length xs) ms).
  rewrite take_drop, length_take, length_drop. split_and!; [done | lia..].
Qed.

Lemma writes_all {A} (collect : A -> list BigMap) write l :
  Forall (writes collect write) l -> writes (flat_map collect) (write_all write) l.
Proof.
  induction 1 as [|x l Hx _ IH]; intros ms rest Hlen; simpl in *.
  { apply nil_length_inv in Hlen as ->. by exists []. }
  destruct (split_length _ _ _ Hlen) as (ms1 & ms2 & -> & H1 & H2). rewrite <- app_assoc.
  destruct (Hx ms1 (ms2 ++ rest) H1) as (x' & -> & Hc1 & He1). destruct (IH ms2 rest H2) as (l' & -> & Hc2 & He2).
  exists (x' :: l'). simpl. split_and!; [done|by rewrite Hc1, Hc2|].
  intros Heq. apply app_inj_1 in Heq as [-> ->]; [|done]. by rewrite He1, He2.
Qed.

Lemma writes_value v : writes collect_big_maps write_big_maps v.
Proof.
  induction v as [v IH] using value_parts_ind. intros ms rest Hlen.
  destruct v as [| | | | | |l r|[x|]|l| |m|b|[x|x]| | | | | | | | |[x d a|k|tg x ty|dl a x c mm] n| | | | |]; simpl in *;
    try (apply nil_length_inv in Hlen as ->; eexists; split_and!; [reflexivity|done..]);
    try (rewrite Forall_singleton in IH; destruct (IH ms rest Hlen) as (x' & -> & Hc & He);
         eexists; split_and!; [reflexivity|done|by intros ->%He]).
  - rewrite Forall_cons, Forall_singleton in IH. destruct IH as [Hl Hr].
    destruct (split_length _ _ _ Hlen) as (ms1 & ms2 & -> & H1 & H2). rewrite <- app_assoc.
    destruct (Hl ms1 (ms2 ++ rest) H1) as (l' & -> & Hc1 & He1). destruct (Hr ms2 rest H2) as (r' & -> & Hc2 & He2).
    eexists. split_and!; [reflexivity|by simpl; rewrite Hc1, Hc2|].
    intros Heq. apply app_inj_1 in Heq as [-> ->]; [|done]. by rewrite He1, He2.
  - destruct (writes_all _ _ l IH ms rest Hlen) as (l' & -> & Hc & He).
    eexists. split_and!; [reflexivity|done|by intros ->%He].
  - rewrite Forall_fmap in IH.
    destruct (writes_all (fun e => collect_big_maps e.2)
                (fun e ms => let '(x, ms) := write_big_maps e.2 ms in ((e.1, x), ms)) m) with (ms := ms) (rest := rest)
      as (m' & -> & Hc & He); [|done|].
    + eapply Forall_impl; [exact IH|]. intros [k x] Hx ms' rest' Hl. simpl in *.
      destruct (Hx ms' rest' Hl) as (x' & -> & Hc & He). eexists. split_and!; [reflexivity|done|by intros ->%He].
    + eexists. split_and!; [reflexivity|done|by intros ->%He].
  - destruct ms as [|b' [|]]; try done. eexists. split_and!; [reflexivity|done|]. by intros [= ->].
Qed.

(** The big maps of a value can be replaced through the references collected from it: the
    value then holds the new maps in the order they were collected, and writing back the
    collected maps leaves the value as it was. *)
Theorem value_big_maps_lens v ms :
  length ms = length (collect_big_maps v) ->
  exists v', write_big_maps v ms = (v', []) /\ collect_big_maps v' = ms /\
    view_big_map_ids v' = omap bm_id ms /\ (ms = collect_big_maps v -> v' = v).
Proof.
  intros Hlen. destruct (writes_value v ms [] Hlen) as (v' & E & Hc & He). rewrite app_nil_r in E.
  exists v'. split_and!; try done. unfold view_big_map_ids. by rewrite Hc.
Qed.

End Values.
End MirDump.
Export MirDump.
