(* ===== verification/MirPack.v ===== *)
(** Packing and unpacking: the decoder of Micheline inverts the encoder.

    The encoding of numbers belongs to [tezos_data_encoding]; [ZarithFormat] states its
    documented format: six bits and the sign, then groups of seven bits, low bits first, each
    byte but the last with its high bit set. *)

From stdpp Require Import strings.
From S2P Require Import Prelude MirAst MirGas MirExtern MirSerial.

Open Scope Z_scope.

Module MirPack.

(** ** Numbers *)
Fixpoint zarith_tail (fuel : nat) (n : Z) : list Z :=
  match fuel with
  | O => []
  | S fuel => if n <? 128 then [n] else (128 + n mod 128) :: zarith_tail fuel (n / 128)
  end.

Definition zarith_bytes (z : Z) : list Z :=
  let n := Z.abs z in
  let sign := if z <? 0 then 64 else 0 in
  if n <? 64 then [sign + n]
  else (128 + sign + n mod 64) :: zarith_tail (S (Z.to_nat (Z.log2 n))) (n / 64).

Class ZarithFormat {Bls : BlsTypes} (X : Extern) : Prop :=
  zarith_format z : zarith_bin_write z = zarith_bytes z.

Lemma testbit_7_small b : 0 <= b < 128 -> Z.testbit b 7 = false.
Proof. intros. apply Z.testbit_false; [lia|]. change (2 ^ 7) with 128. by rewrite Z.div_small by lia. Qed.

Lemma testbit_7_high b : 0 <= b < 128 -> Z.testbit (128 + b) 7 = true.
Proof.
  intros. apply Z.testbit_true; [lia|]. change (2 ^ 7) with 128.
  replace (128 + b) with (b + 1 * 128) by lia. by rewrite Z.div_add, Z.div_small by lia.
Qed.

Lemma decode_tail fuel : forall n minus shift acc rest, (0 < fuel)%nat ->
  0 <= n < 2 ^ (7 * Z.of_nat fuel) -> 0 <= shift ->
  decode_int_from false minus shift acc (zarith_tail fuel n ++ rest) =
  (Done (MInt (if minus then - (acc + n * 2 ^ shift) else acc + n * 2 ^ shift)), rest).
Proof.
  induction fuel as [|fuel IH]; intros n minus shift acc rest Hf Hn Hs; [lia|]. cbn [zarith_tail].
  destruct (Z.ltb_spec n 128).
  - cbn [app decode_int_from]. rewrite testbit_7_small by lia. change (2 ^ 7) with 128.
    rewrite Z.mod_small, Z.shiftl_mul_pow2 by lia. done.
  - assert (Hm : 0 <= n mod 128 < 128) by (apply Z.mod_pos_bound; lia).
    cbn [app decode_int_from]. rewrite testbit_7_high by done. change (2 ^ 7) with 128.
    replace (128 + n mod 128) with (n mod 128 + 1 * 128) by lia.
    rewrite Z.mod_add, Z.mod_mod, Z.shiftl_mul_pow2 by lia.
    assert (Hp : 2 ^ (7 * Z.of_nat (S fuel)) = 128 * 2 ^ (7 * Z.of_nat fuel)).
    { replace (7 * Z.of_nat (S fuel)) with (7 + 7 * Z.of_nat fuel) by lia. rewrite Z.pow_add_r by lia. done. }
    destruct fuel as [|fuel]; [simpl in Hp; change (2 ^ 0) with 1 in Hp; lia|].
    assert (Hdiv : 0 <= n / 128 < 2 ^ (7 * Z.of_nat (S fuel)))
      by (split; [apply Z.div_pos; lia | apply Z.div_lt_upper_bound; lia]).
    rewrite IH by lia.
    rewrite Z.pow_add_r by lia. change (2 ^ 7) with 128.
    pose proof (Z.div_mod n 128 ltac:(lia)) as Hd. do 2 f_equal.
    replace (n * 2 ^ shift) with ((128 * (n / 128) + n mod 128) * 2 ^ shift) by (rewrite <- Hd; done).
    destruct minus; f_equal; ring.
Qed.

Lemma decode_zarith z rest : decode_int (zarith_bytes z ++ rest) = (Done (MInt z), rest).
Proof.
  unfold zarith_bytes, decode_int. set (n := Z.abs z). set (sign := if z <? 0 then 64 else 0).
  assert (Hn : 0 <= n) by (unfold n; lia).
  assert (Hsig : forall b hi, 0 <= b < 64 -> hi = 0 \/ hi = 128 ->
    Z.testbit (hi + sign + b) 6 = (z <? 0) /\ (hi + sign + b) mod 2 ^ 6 = b /\ Z.testbit (hi + sign + b) 7 = (hi =? 128)).
  { intros b hi Hb Hhi. unfold sign. split_and!.
    - rewrite Z.testbit_eqb by lia. change (2 ^ 6) with 64.
      destruct Hhi as [-> | ->], (z <? 0); apply Z.eqb_eq || apply Z.eqb_neq; Z.to_euclidean_division_equations; lia.
    - change (2 ^ 6) with 64. destruct Hhi as [-> | ->], (z <? 0); Z.to_euclidean_division_equations; lia.
    - rewrite Z.testbit_eqb by lia. change (2 ^ 7) with 128.
      destruct Hhi as [-> | ->], (z <? 0); apply Z.eqb_eq || apply Z.eqb_neq; Z.to_euclidean_division_equations; lia. }
  destruct (Z.ltb_spec n 64).
  - destruct (Hsig n 0) as (H6 & Hm & H7); [lia|by left|]. rewrite Z.add_0_l in H6, Hm, H7.
    cbn [app decode_int_from]. rewrite H6, H7, Hm. simpl. rewrite Z.shiftl_0_r.
    do 3 f_equal. unfold n. destruct (Z.ltb_spec z 0); lia.
  - assert (Hmod : 0 <= n mod 64 < 64) by (apply Z.mod_pos_bound; lia).
    destruct (Hsig (n mod 64) 128) as (H6 & Hm & H7); [lia|by right|].
    cbn [app decode_int_from]. rewrite H6, H7, Hm. change (128 =? 128) with true. cbv iota.
    pose proof (Z.log2_spec n ltac:(lia)) as [_ Hlog]. pose proof (Z.log2_nonneg n) as Hl0.
    assert (Hlt : 2 ^ Z.succ (Z.log2 n) <= 2 ^ (7 * Z.of_nat (S (Z.to_nat (Z.log2 n)))))
      by (apply Z.pow_le_mono_r; lia).
    rewrite decode_tail; [|lia| |lia].
    + do 3 f_equal. rewrite Z.shiftl_0_r. change (2 ^ (0 + 6)) with 64.
      pose proof (Z.div_mod n 64 ltac:(lia)). unfold n in *. destruct (Z.ltb_spec z 0); lia.
    + split; [apply Z.div_pos; lia|]. apply Z.div_lt_upper_bound; lia.
Qed.

(** ** Lengths and strings *)
Lemma length_put_len n : length (put_len n) = 4%nat.
Proof. unfold put_len. by rewrite length_rev, length_le_bytes. Qed.

Lemma take_bytes_app (bs rest : list Z) : take_bytes (length bs) (bs ++ rest) = (Done bs, rest).
Proof.
  unfold take_bytes. rewrite decide_False by (rewrite length_app; lia).
  by rewrite take_app_length, drop_app_length.
Qed.

Lemma get_len_app n rest : 0 <= n < 2 ^ 32 -> get_len (put_len n ++ rest) = (Done n, rest).
Proof.
  intros Hn. unfold get_len, bind. rewrite <- (length_put_len n), take_bytes_app. unfold put_len, ret.
  rewrite rev_involutive, le_value_bytes. change (8 * Z.of_nat 4) with 32. unfold wrap.
  by rewrite !Z.mod_small by (try apply Z.mod_pos_bound; lia).
Qed.

Lemma get_bytes_app bs rest : len bs < 2 ^ 32 -> get_bytes (with_len bs ++ rest) = (Done bs, rest).
Proof.
  intros Hn. unfold get_bytes, with_len, bind. rewrite <- app_assoc, get_len_app by (unfold len in *; lia).
  unfold len. by rewrite Nat2Z.id, take_bytes_app.
Qed.

Lemma length_str_bytes s : len (str_bytes s) = slen s.
Proof.
  unfold len, slen, str_bytes. rewrite length_map. f_equal. induction s as [|c s IH]; simpl; [done | by rewrite IH].
Qed.

Lemma bytes_str_bytes s : bytes_str (str_bytes s) = s.
Proof.
  unfold bytes_str, str_bytes. rewrite map_map. induction s as [|c s IH]; simpl; [done|].
  rewrite N2Z.id, Ascii.ascii_N_embedding. by f_equal.
Qed.

(** ** Annotations *)

(** The annotations the syntax allows. *)
Definition ann_ok (a : Annotation) : bool :=
  let name s := match str_bytes s with c :: rest => alpha_num c && forallb ann_tail_byte rest | [] => false end in
  match a with
  | Ann_Special s => bool_decide (s = "@%" \/ s = "@%%" \/ s = "%@")%string
  | Ann_Field s | Ann_Variable s | Ann_Type s => name s
  end.

Lemma alpha_num_spec c : alpha_num c = true -> c <> 37 /\ c <> 64 /\ c <> 32.
Proof. unfold alpha_num, in_range. intros H. split_and!; intros ->; discriminate. Qed.

Lemma ann_tail_spec c : ann_tail_byte c = true -> c <> 32.
Proof. intros H ->. discriminate. Qed.

(** A valid annotation is read back from its bytes, which hold no space. *)
Lemma validate_annotation {S} a (st : S) : ann_ok a = true ->
  validate_ann (annotation_bytes a) st = (Done a, st) /\ Forall (fun c => c <> 32) (annotation_bytes a) /\
  annotation_bytes a <> [].
Proof.
  intros Ha. destruct a as [s|s|s|s]; simpl in Ha.
  { apply bool_decide_eq_true in Ha as [->|[->| ->]]; (split_and!; [reflexivity|by repeat constructor|done]). }
  all: destruct (str_bytes s) as [|c rest] eqn:Es; [discriminate|]; apply andb_true_iff in Ha as [Hc Hr];
    pose proof (alpha_num_spec c Hc) as (H37 & H64 & H32); simpl; rewrite Es; split_and!; [| |done];
    [| repeat constructor; try done; rewrite forallb_forall in Hr; apply Forall_forall; intros x Hx%list_elem_of_In;
       by apply ann_tail_spec, Hr].
  all: unfold validate_ann, valid_ann, try_ann_from_bytes; rewrite Hc, Hr;
    rewrite !bool_decide_eq_false_2 by congruence; simpl; rewrite <- Es, bytes_str_bytes; reflexivity.
Qed.

Lemma split_join ws : ws <> [] -> Forall (Forall (fun c => c <> 32)) ws -> split_spaces (join_spaces ws) = ws.
Proof.
  assert (Hone : forall w rest, Forall (fun c => c <> 32) w ->
    split_spaces (w ++ rest) = match split_spaces rest with x :: xs => (w ++ x) :: xs | [] => [w] end).
  { intros w rest. induction 1 as [|c w Hc _ IH]; simpl.
    - destruct rest as [|b rest]; simpl; [done|]. case_match; [done|]. by destruct (split_spaces rest).
    - rewrite (proj2 (Z.eqb_neq c 32) Hc), IH. by destruct (split_spaces rest). }
  induction ws as [|w ws IH]; intros Hne Hall; [done|]. apply Forall_cons in Hall as [Hw Hws].
  destruct ws as [|w' ws].
  - simpl. rewrite <- (app_nil_r w) at 1. rewrite Hone by done. simpl. by rewrite app_nil_r.
  - change (join_spaces (w :: w' :: ws)) with (w ++ 32 :: join_spaces (w' :: ws)). rewrite Hone by done.
    cbn [split_spaces]. change (32 =? 32) with true. cbv iota. rewrite IH by done. by rewrite app_nil_r.
Qed.

Lemma validate_annotations {S} anns (st : S) : forallb ann_ok anns = true ->
  validate_anns (map annotation_bytes anns) st = (Done anns, st).
Proof.
  induction anns as [|a anns IH]; simpl; [done|]. intros [Ha Hanns]%andb_true_iff.
  unfold bind. by rewrite (proj1 (validate_annotation a st Ha)), IH.
Qed.

Lemma decode_annotations anns rest :
  forallb ann_ok anns = true -> len (annotations_bytes anns) < 2 ^ 32 ->
  decode_anns true (annotations_bytes anns ++ rest) = (Done anns, rest).
Proof.
  intros Ha Hlen. unfold decode_anns, bind, annotations_bytes in *.
  rewrite get_bytes_app by (unfold with_len, len in *; rewrite length_app in Hlen; lia).
  destruct anns as [|a anns]; [done|].
  assert (Hall : forall x, x ∈ a :: anns -> ann_ok x = true).
  { intros x Hx%list_elem_of_In. rewrite forallb_forall in Ha. by apply Ha. }
  rewrite bool_decide_eq_false_2.
  - rewrite split_join; [by apply validate_annotations|done|]. apply Forall_forall.
    intros w (x & -> & Hx)%list_elem_of_fmap. by apply (validate_annotation x tt), Hall.
  - destruct (validate_annotation a tt (Hall a ltac:(by left))) as (_ & _ & Hne). intros Hj. apply Hne.
    destruct anns; simpl in Hj; [done|]. by apply app_eq_nil in Hj as [? _].
Qed.

(** ** Nodes *)

(** What the decoder accepts: printable strings and well-formed annotations. *)
Fixpoint encodable (m : Micheline) : bool :=
  match m with
  | MString s => forallb valid_str_byte (str_bytes s)
  | MApp _ args anns => forallb encodable args && forallb ann_ok anns
  | MSeq ms => forallb encodable ms
  | _ => true
  end.

Section Nodes.
Context {Bls : BlsTypes} {X : Extern} {ZF : ZarithFormat X}.
Implicit Types (m : Micheline) (ms : list Micheline).

(** [m] is read back from its encoding. *)
Definition decodes m : Prop :=
  encodable m = true -> len (encode_micheline m) < 2 ^ 32 -> forall fuel rest,
  (length (encode_micheline m) <= fuel)%nat ->
  decode_micheline fuel (encode_micheline m ++ rest) = (Done m, rest).

Lemma encode_nonempty m : (1 <= length (encode_micheline m))%nat.
Proof. destruct m as [| | |p [|x [|y [|]]] anns|]; simpl; lia. Qed.

Lemma decode_all_encoded fuel : forall ms n,
  Forall decodes ms -> forallb encodable ms = true -> len (concat (map encode_micheline ms)) < 2 ^ 32 ->
  (length (concat (map encode_micheline ms)) <= fuel)%nat ->
  (length (concat (map encode_micheline ms)) <= n)%nat ->
  decode_all (decode_micheline fuel) n (concat (map encode_micheline ms)) = (Done ms, []).
Proof.
  induction ms as [|m ms IH]; intros n Hms Hok Hlen Hf Hn; simpl in *; [by destruct n|].
  apply Forall_cons in Hms as [Hm Hms]. apply andb_true_iff in Hok as [Hokm Hok].
  pose proof (encode_nonempty m) as Hne. unfold len in *. rewrite length_app in Hlen, Hf, Hn.
  destruct n as [|n]; [lia|]. cbn [decode_all].
  destruct (encode_micheline m ++ concat (map encode_micheline ms)) as [|b bs] eqn:E.
  { apply app_eq_nil in E as [E _]. rewrite E in Hne. simpl in Hne. lia. }
  rewrite <- E. unfold bind. rewrite Hm by (unfold len; try done; lia). by rewrite IH by (unfold len; try done; lia).
Qed.

(** The tags of applications with at most two arguments. *)
Lemma decode_app_tag fuel num no_annots_tag with_annots_tag (plain : bool) bs :
  (num, no_annots_tag, with_annots_tag) ∈
    [(NumArgs_Zero, APP_NO_ARGS_NO_ANNOTS_TAG, APP_NO_ARGS_WITH_ANNOTS_TAG);
     (NumArgs_One, APP_ONE_ARG_NO_ANNOTS_TAG, APP_ONE_ARG_WITH_ANNOTS_TAG);
     (NumArgs_Two, APP_TWO_ARGS_NO_ANNOTS_TAG, APP_TWO_ARGS_WITH_ANNOTS_TAG)] ->
  decode_micheline (S fuel) ((if plain then no_annots_tag else with_annots_tag) :: bs) =
  decode_app (decode_micheline fuel) fuel num (negb plain) bs.
Proof.
  rewrite !elem_of_cons, elem_of_nil. by intros [[= -> -> ->]|[[= -> -> ->]|[[= -> -> ->]|[]]]]; destruct plain.
Qed.

Lemma decode_generic_tag fuel bs :
  decode_micheline (S fuel) (APP_GENERIC :: bs) = decode_app (decode_micheline fuel) fuel NumArgs_Many true bs.
Proof. reflexivity. Qed.

Lemma decode_args dec fuel num p bytes args rest anns annotations tail :
  (forall r, match num with
   | NumArgs_Zero => ret []
   | NumArgs_One => let+ a := dec in ret [a]
   | NumArgs_Two => let+ a := dec in let+ b := dec in ret [a; b]
   | NumArgs_Many => decode_seq_raw dec fuel
   end (bytes ++ r) = (Done args, r)) ->
  decode_anns annotations (tail ++ rest) = (Done anns, rest) ->
  decode_app dec fuel num annotations (Z.of_nat (Prim.code_of p) :: bytes ++ tail ++ rest) = (Done (MApp p args anns), rest).
Proof.
  intros Hargs Hanns. unfold decode_app, bind at 1, next_byte. rewrite Nat2Z.id, Prim.all_code_of.
  unfold bind. rewrite Hargs, Hanns. done.
Qed.

Lemma decode_small_args dec fuel num p args anns rest :
  forallb ann_ok anns = true -> (anns <> [] -> len (annotations_bytes anns) < 2 ^ 32) ->
  match num, args with
  | NumArgs_Zero, [] => True
  | NumArgs_One, [a] => forall r, dec (encode_micheline a ++ r) = (Done a, r)
  | NumArgs_Two, [a; b] =>
      (forall r, dec (encode_micheline a ++ r) = (Done a, r)) /\ (forall r, dec (encode_micheline b ++ r) = (Done b, r))
  | _, _ => False
  end ->
  decode_app dec fuel num (negb (bool_decide (anns = [])))
    ((Z.of_nat (Prim.code_of p) :: concat (map encode_micheline args)
      ++ (if bool_decide (anns = []) then [] else annotations_bytes anns)) ++ rest) = (Done (MApp p args anns), rest).
Proof.
  intros Hanns Hlen Hargs. simpl. rewrite <- app_assoc. apply decode_args.
  - intros r. destruct num, args as [|a [|b [|]]]; try done; simpl; unfold bind, ret.
    + by rewrite app_nil_r, Hargs.
    + destruct Hargs as [Ha Hb]. by rewrite app_nil_r, <- app_assoc, Ha, Hb.
  - destruct (bool_decide_reflect (anns = [])) as [->|Hne]; [done|]. by apply decode_annotations, Hlen.
Qed.

Lemma decode_application p args anns : Forall decodes args -> decodes (MApp p args anns).
Proof.
  intros Hargs Hok Hlen fuel rest Hf. simpl in Hok. apply andb_true_iff in Hok as [Hok Hanns].
  destruct fuel as [|fuel]; [pose proof (encode_nonempty (MApp p args anns)); lia|].
  destruct args as [|a [|b [|c args]]]; cbn [encode_micheline map app_encode] in *; cbv zeta in *;
    unfold len in *; cbn [length] in Hlen, Hf; rewrite ?length_app in Hlen, Hf; cbn [concat] in Hlen, Hf;
    rewrite ?length_app in Hlen, Hf.
  4: { cbn [app]. rewrite decode_generic_tag, <- app_assoc. apply decode_args.
       - intros r. unfold decode_seq_raw, bind. unfold with_len, len in Hlen, Hf. rewrite !length_app, length_put_len in Hlen, Hf.
         rewrite get_bytes_app by (unfold len; cbn [concat]; rewrite !length_app; lia). unfold on_bytes.
         rewrite (decode_all_encoded fuel (a :: b :: c :: args)); try done; unfold len; cbn [map concat];
           rewrite !length_app; lia.
       - apply decode_annotations; [done|]. unfold len. lia. }
  all: set (annots := if bool_decide (anns = []) then _ else annotations_bytes anns) in *;
    assert (Ha : anns <> [] -> annots = annotations_bytes anns)
      by (intros Hne; unfold annots; by rewrite bool_decide_eq_false_2);
    assert (Hlena : anns <> [] -> len (annotations_bytes anns) < 2 ^ 32)
      by (intros Hne; rewrite <- (Ha Hne); unfold len; lia);
    rewrite ?Forall_cons in Hargs; cbn [forallb] in Hok; rewrite ?andb_true_iff in Hok; destruct_and?;
    cbn [app]; erewrite decode_app_tag by (rewrite !elem_of_cons; eauto);
    apply (decode_small_args _ _ _ _ [a; b] anns rest) || apply (decode_small_args _ _ _ _ [a] anns rest)
      || apply (decode_small_args _ _ _ _ [] anns rest); try done.
  - intros r. match goal with H : decodes a |- _ => apply H end; try done; unfold len; lia.
  - split; intros r; match goal with |- decode_micheline _ (encode_micheline ?m ++ _) = _ =>
      match goal with H : decodes m |- _ => apply H end end; try done; unfold len; lia.
Qed.

Lemma decode_encoded m : decodes m.
Proof using ZF.
  induction m as [z|s|bs|p args anns IH|ms IH] using micheline_nested_ind.
  4: by apply decode_application.
  all: intros Hok Hlen [|fuel] rest Hf; simpl in Hf; [lia|]; unfold len in Hlen; simpl in Hlen, Hok.
  - simpl. rewrite zarith_format. apply decode_zarith.
  - cbn [encode_micheline]. unfold put_string in *. simpl in *. rewrite <- length_str_bytes in *.
    change (decode_string (with_len (str_bytes s) ++ rest) = (Done (MString s), rest)).
    unfold decode_string, bind. rewrite get_bytes_app by (unfold len; lia).
    unfold validate_str. rewrite Hok. unfold ret. by rewrite bytes_str_bytes.
  - cbn [encode_micheline]. unfold put_bytes in *. simpl in *.
    change (decode_bytes (with_len bs ++ rest) = (Done (MBytes bs), rest)).
    unfold decode_bytes, bind. by rewrite get_bytes_app by (unfold len; lia).
  - change (bind (decode_seq_raw (decode_micheline fuel) fuel) (fun ms => ret (MSeq ms))
      (with_len (concat (map encode_micheline ms)) ++ rest) = (Done (MSeq ms), rest)).
    unfold decode_seq_raw, bind. rewrite get_bytes_app by (unfold len; lia). unfold on_bytes.
    by rewrite decode_all_encoded by (unfold len; try done; lia).
Qed.

(** C25: unpacking what was packed gives it back: the decoder inverts the encoder on every node
    with printable strings and well-formed annotations whose encoding is shorter than 4 GiB. *)
Theorem unpack_inverts_pack m :
  encodable m = true -> len (encode m) < 2 ^ 32 ->
  decode_packed (encode_for_pack m) = Done m /\ decode_raw (encode m) = Done m.
Proof using ZF.
  intros Hok Hlen. assert (H : decode_raw (encode m) = Done m); [|split; exact H]. unfold decode_raw, encode in *.
  pose proof (decode_encoded m Hok Hlen (S (length (encode_micheline m))) [] ltac:(lia)) as H.
  rewrite app_nil_r in H. by rewrite H.
Qed.
End Nodes.
End MirPack.
Export MirPack.
