(* ===== verification/MirOpsProps.v ===== *)
(** What individual instructions and checks compute.

    An instruction is shown equal to a computation that charges its cost and returns its
    result, so that the statement covers every context, with or without enough gas. *)

From stdpp Require Import strings.
From S2P Require Import Prelude MirAst MirGas MirStack MirCompare MirExtern MirSerial MirCtx MirTypes MirTcInstr MirTypecheck MirOps MirInterp MirTyping MirStorageSpec.

Open Scope Z_scope.

Module MirOpsProps.
Section Instructions.
Context {Bls : BlsTypes} {X : Extern} {St : Type} {LS : LazyStorage St}.
Implicit Types (s : list TypedValue) (ctx : Ctx St).

(** ** Maps *)
Lemma map_change_assoc {E} tk k o (m : list (TypedValue * TypedValue)) :
  keyed tk m -> is_key tk k = true ->
  exists m', map_change (E := E) k o m = Done (assoc k m, m') /\ keyed tk m' /\
    forall k', assoc k' m' = if decide (k' = k) then o else assoc k' m.
Proof.
  intros Hm Hk. unfold map_change.
  destruct o as [v|]; [by apply map_insert_assoc | by apply map_remove_assoc].
Qed.

(** [UPDATE] and [GET_AND_UPDATE] on a map charge for the size of the map and change the value
    of the given key only, keeping the map sorted; [GET] and [MEM] then read the change. *)
Theorem map_instructions tk k o m s :
  keyed tk m -> is_key tk k = true ->
  exists m', keyed tk m' /\
    (forall ctx, op_update Update_Map (k :: VOption o :: VMap m :: s) ctx =
      bind (charge (interpret_cost.map_update k (len m))) (fun _ => ret (VMap m' :: s)) ctx) /\
    (forall ctx, op_get_and_update GetAndUpdate_Map (k :: VOption o :: VMap m :: s) ctx =
      bind (charge (interpret_cost.map_get_and_update k (len m)))
        (fun _ => ret (VOption (assoc k m) :: VMap m' :: s)) ctx) /\
    forall k', is_key tk k' = true -> forall ctx,
      op_get Get_Map (k' :: VMap m' :: s) ctx =
        bind (charge (interpret_cost.map_get k' (len m')))
          (fun _ => ret (VOption (if decide (k' = k) then o else assoc k' m) :: s)) ctx /\
      op_mem Mem_Map (k' :: VMap m' :: s) ctx =
        bind (charge (interpret_cost.map_mem k' (len m')))
          (fun _ => ret (VBool (bool_decide (is_Some (if decide (k' = k) then o else assoc k' m))) :: s)) ctx.
Proof.
  intros Hm Hk. destruct (map_change_assoc (E := InterpretError) tk k o m Hm Hk) as (m' & E & Hm' & Ha).
  exists m'. split_and!; [done| | |intros k' Hk' ctx; split].
  - intros ctx. unfold op_update, bind. simpl. destruct (charge _ ctx) as [[[]| | |] ctx']; try done. by rewrite E.
  - intros ctx. unfold op_get_and_update, bind. simpl. destruct (charge _ ctx) as [[[]| | |] ctx']; try done. by rewrite E.
  - unfold op_get, bind. simpl. destruct (charge _ ctx) as [[[]| | |] ctx']; try done. unfold lift.
    by rewrite (map_get_assoc tk), Ha.
  - unfold op_mem, bind. simpl. destruct (charge _ ctx) as [[[]| | |] ctx']; try done. unfold lift.
    by rewrite (map_get_assoc tk), Ha.
Qed.

(** ** Tickets *)

(** [SPLIT_TICKET] splits a ticket only into two non-empty tickets of the same ticketer and
    content whose amounts sum to its amount, and [JOIN_TICKETS] of the two gives it back. *)
Theorem tickets_are_conserved t a b s :
  (forall ctx, op_split_ticket (VTicket t :: VPair (VNat a) (VNat b) :: s) ctx =
    bind (charge interpret_cost.split_ticket) (fun _ => ret (VOption
      (if bool_decide (a + b = tk_amount t /\ a <> 0 /\ b <> 0)%N
       then Some (VPair (VTicket (mkTicket (tk_ticketer t) (tk_content t) a))
                        (VTicket (mkTicket (tk_ticketer t) (tk_content t) b)))
       else None) :: s)) ctx) /\
  (forall h c ctx,
    op_join_tickets (VPair (VTicket (mkTicket (tk_ticketer t) (tk_content t) a)) (VTicket (mkTicket h c b)) :: s) ctx =
    bind (charge (interpret_cost.join_tickets (mkTicket (tk_ticketer t) (tk_content t) a) (mkTicket h c b)))
      (fun _ => ret (VOption
        (if bool_decide (tk_ticketer t = h /\ tk_content t = c)
         then Some (VTicket (mkTicket h c (a + b))) else None) :: s)) ctx) /\
  ((a + b)%N = tk_amount t -> mkTicket (tk_ticketer t) (tk_content t) (a + b) = t).
Proof.
  split_and!.
  - intros ctx. unfold op_split_ticket, bind. simpl. destruct (charge _ ctx) as [[[]| | |] ctx']; try done.
    unfold ret. do 4 f_equal. destruct (N.eqb_spec (a + b) (tk_amount t)), (N.ltb_spec 0 a), (N.ltb_spec 0 b); simpl;
      case_bool_decide; try done; lia.
  - intros h c ctx. unfold op_join_tickets, bind. simpl. destruct (charge _ ctx) as [[[]| | |] ctx']; try done.
    unfold ret. do 4 f_equal. repeat case_bool_decide; simpl; destruct_and?; subst; done || tauto.
  - intros ->. by destruct t.
Qed.

(** ** Numbers as bytes *)
Lemma big_bits_spec y : 0 <= y -> 0 <= big_bits y /\ y < 2 ^ big_bits y.
Proof.
  intros Hy. unfold big_bits. destruct (Z.eqb_spec y 0) as [->|]; [done|]. rewrite Z.abs_eq by done.
  pose proof (Z.log2_nonneg y). destruct (Z.log2_spec y ltac:(lia)) as [_ Hlog]. split; [lia|].
  by replace (Z.log2 y + 1) with (Z.succ (Z.log2 y)) by lia.
Qed.

Lemma bits_to_bytes_spec b : 0 <= b -> b <= 8 * bits_to_bytes b.
Proof.
  intros Hb. unfold bits_to_bytes. rewrite Z.shiftr_div_pow2 by lia. change (2 ^ 3) with 8.
  Z.to_euclidean_division_equations; lia.
Qed.

Lemma le_bytes_nil n z : (0 < n)%nat -> rev (le_bytes n z) <> [].
Proof.
  intros Hn E. apply (f_equal (@length Z)) in E. rewrite length_rev, length_le_bytes in E. simpl in E. lia.
Qed.

Lemma int_bytes_roundtrip z : int_from_signed_bytes_be (int_to_signed_bytes_be z) = z.
Proof.
  unfold int_from_signed_bytes_be, int_to_signed_bytes_be. set (n := signed_byte_size z).
  set (y := if z <? 0 then - z - 1 else z).
  assert (Hy : 0 <= y) by (unfold y; destruct (Z.ltb_spec z 0); lia).
  destruct (big_bits_spec y Hy) as [Hb0 Hb]. assert (Hn : big_bits y + 1 <= 8 * n) by (apply bits_to_bytes_spec; lia).
  assert (Hne : rev (le_bytes (Z.to_nat n) (wrap (8 * n) z)) <> []) by (apply le_bytes_nil; lia).
  destruct (rev (le_bytes (Z.to_nat n) (wrap (8 * n) z))) as [|x l] eqn:E; [done|]. rewrite <- E.
  unfold len. rewrite rev_involutive, le_value_bytes, length_rev, length_le_bytes, Z2Nat.id by lia.
  rewrite wrap_wrap, sint_wrap. apply sint_small; [lia|].
  assert (2 ^ big_bits y <= 2 ^ (8 * n - 1)) by (apply Z.pow_le_mono_r; lia).
  unfold in_s, y in *. destruct (Z.ltb_spec z 0); lia.
Qed.

Lemma nat_bytes_roundtrip n : nat_from_bytes_be (nat_to_bytes_be n) = n.
Proof.
  unfold nat_from_bytes_be, nat_to_bytes_be. rewrite rev_involutive, le_value_bytes, wrap_small; [apply N2Z.id|].
  destruct (big_bits_spec (Z.of_N n) ltac:(lia)) as [Hb0 Hb].
  pose proof (bits_to_bytes_spec (big_bits (Z.of_N n)) Hb0) as Hn. unfold byte_size.
  split; [lia|]. eapply Z.lt_le_trans; [exact Hb|]. apply Z.pow_le_mono_r; lia.
Qed.

(** [BYTES] of an [int] or a [nat] and then [INT] or [NAT] gives the number back, whatever
    its size and sign. *)
Theorem numbers_survive_bytes z n s :
  (exists bs, forall ctx,
    op_bytes Bytes_Int (VInt z :: s) ctx = bind (charge (interpret_cost.bytes_int z)) (fun _ => ret (VBytes bs :: s)) ctx /\
    op_int Int_Bytes (VBytes bs :: s) ctx = bind (charge (interpret_cost.int_bytes (len bs))) (fun _ => ret (VInt z :: s)) ctx) /\
  (exists bs, forall ctx,
    op_bytes Bytes_Nat (VNat n :: s) ctx = bind (charge (interpret_cost.bytes_nat (Z.of_N n))) (fun _ => ret (VBytes bs :: s)) ctx /\
    op_nat (VBytes bs :: s) ctx = bind (charge (interpret_cost.int_bytes (len bs))) (fun _ => ret (VNat n :: s)) ctx).
Proof.
  split.
  - exists (if z =? 0 then [] else int_to_signed_bytes_be z). intros ctx. split; [done|].
    assert (E : int_from_signed_bytes_be (if z =? 0 then [] else int_to_signed_bytes_be z) = z).
    { destruct (Z.eqb_spec z 0) as [->|]; [done|apply int_bytes_roundtrip]. }
    unfold op_int, bind. simpl. destruct (charge _ ctx) as [[[]| | |] ctx']; try done. unfold ret. by rewrite E.
  - exists (if (n =? 0)%N then [] else nat_to_bytes_be n). intros ctx. split; [done|].
    assert (E : nat_from_bytes_be (if (n =? 0)%N then [] else nat_to_bytes_be n) = n).
    { destruct (N.eqb_spec n 0) as [->|]; [done|apply nat_bytes_roundtrip]. }
    unfold op_nat, bind. simpl. destruct (charge _ ctx) as [[[]| | |] ctx']; try done. unfold ret. by rewrite E.
Qed.

(** ** Amounts *)

(** C35: amounts are computed exactly or not at all: additions, and multiplications by a natural
    number on either side, that leave 63 bits fail with an overflow, and subtractions below
    zero give [None]. *)
Theorem mutez_never_wraps a b n s ctx :
  mutez_range a -> mutez_range b ->
  op_add Add_MutezMutez (VMutez a :: VMutez b :: s) ctx =
    bind (consume interpret_cost.ADD_TEZ)
      (fun _ => if a + b <? 2 ^ 63 then ret (VMutez (a + b) :: s) else fail MutezOverflow) ctx /\
  op_mul Mul_MutezNat (VMutez a :: VNat n :: s) ctx =
    bind (consume interpret_cost.MUL_TEZ_NAT)
      (fun _ => if (Z.of_N n <? 2 ^ 63) && (a * Z.of_N n <? 2 ^ 63) then ret (VMutez (a * Z.of_N n) :: s)
                else fail MutezOverflow) ctx /\
  op_mul Mul_NatMutez (VNat n :: VMutez a :: s) ctx =
    bind (consume interpret_cost.MUL_NAT_TEZ)
      (fun _ => if (Z.of_N n <? 2 ^ 63) && (Z.of_N n * a <? 2 ^ 63) then ret (VMutez (Z.of_N n * a) :: s)
                else fail MutezOverflow) ctx /\
  op_sub_mutez (VMutez a :: VMutez b :: s) ctx =
    bind (consume interpret_cost.SUB_MUTEZ)
      (fun _ => ret (VOption (if b <=? a then Some (VMutez (a - b)) else None) :: s)) ctx.
Proof.
  unfold mutez_range. intros Ha Hb.
  assert (Hck : forall z, 0 <= z -> i64_checked z = if z <? 2 ^ 63 then Some z else None).
  { intros z Hz. unfold i64_checked. by rewrite (proj2 (Z.leb_le (- 2 ^ 63) z)) by lia. }
  split_and!.
  - unfold op_add, bind. simpl. destruct (consume _ ctx) as [[[]| | |] ctx']; try done. rewrite Hck by lia.
    by destruct (a + b <? 2 ^ 63).
  - unfold op_mul, bind. simpl. destruct (consume _ ctx) as [[[]| | |] ctx']; try done. rewrite Hck by lia.
    destruct (Z.of_N n <? 2 ^ 63); [|done]. simpl. rewrite Hck by nia. by destruct (a * Z.of_N n <? 2 ^ 63).
  - unfold op_mul, bind. simpl. destruct (consume _ ctx) as [[[]| | |] ctx']; try done. rewrite Hck by lia.
    destruct (Z.of_N n <? 2 ^ 63); [|done]. simpl. rewrite Hck by nia. by destruct (Z.of_N n * a <? 2 ^ 63).
  - unfold op_sub_mutez, bind. simpl. destruct (consume _ ctx) as [[[]| | |] ctx']; try done. unfold ret.
    destruct (Z.leb_spec b a); [|done]. by rewrite sint_small by (unfold in_s; simpl; lia).
Qed.
End Instructions.

(** ** Type properties *)

(** The types visited by a check that succeeds. *)
Fixpoint prop_steps (t : Ty) : Z :=
  match t with
  | TPair l r | TOr l r => 1 + prop_steps l + prop_steps r
  | TOption x | TList x | TSet x | TMap _ x | TBigMap _ x => 1 + prop_steps x
  | _ => 1
  end.

Lemma prop_steps_size t : 1 <= prop_steps t <= size_for_gas t.
Proof. induction t; simpl; lia. Qed.

Lemma gas_use_some {E} `{FromOutOfGas E} c g :
  gas_use c (Some g) = if c <=? g then (Done tt, Some (g - c)) else (Error from_out_of_gas, None).
Proof.
  unfold gas_use, gas_charge, map_err, bind, lift, gas_consume, milligas, checked_sub. simpl. by destruct (c <=? g).
Qed.

Lemma ensure_prop_holds p t : has_prop p t = true -> forall g,
  ensure_prop t p (Some g) =
  if 60 * prop_steps t <=? g then (Done tt, Some (g - 60 * prop_steps t)) else (Error TcOutOfGas, None).
Proof.
  assert (Hone : forall g, bind (gas_use tc_cost.TYPE_PROP_STEP) (fun _ => ret tt) (Some g) =
    if 60 * 1 <=? g then (Done tt, Some (g - 60 * 1)) else (Error TcOutOfGas, None)).
  { intros g. unfold bind. rewrite gas_use_some. change tc_cost.TYPE_PROP_STEP with (60 * 1). by destruct (60 * 1 <=? g). }
  assert (Hsub : forall n g (c : M Gas TcError unit), 1 <= n ->
    (forall g, c (Some g) = if 60 * n <=? g then (Done tt, Some (g - 60 * n)) else (Error TcOutOfGas, None)) ->
    bind (gas_use tc_cost.TYPE_PROP_STEP) (fun _ => c) (Some g) =
    if 60 * (1 + n) <=? g then (Done tt, Some (g - 60 * (1 + n))) else (Error TcOutOfGas, None)).
  { intros n g c Hn Hc. unfold bind. rewrite gas_use_some. change tc_cost.TYPE_PROP_STEP with 60.
    destruct (Z.leb_spec 60 g), (Z.leb_spec (60 * (1 + n)) g); try lia; try done; rewrite Hc;
      destruct (Z.leb_spec (60 * n) (g - 60)); try lia; try done; do 2 f_equal; lia. }
  induction t; intros Hp g; simpl in Hp; try apply Hone; try (destruct p; try discriminate Hp; apply Hone).
  all: cbn [ensure_prop prop_steps].
  all: try (destruct p; try discriminate Hp; (apply Hsub; [apply prop_steps_size|]); intros g';
            match goal with IH : _ -> forall g, ensure_prop _ _ _ = _ |- _ => by apply IH end).
  all: apply andb_true_iff in Hp as [Hl Hr]; pose proof (prop_steps_size t1); pose proof (prop_steps_size t2);
    rewrite <- Z.add_assoc; apply Hsub; [lia|]; intros g'; unfold bind;
    rewrite (IHt1 Hl); destruct (Z.leb_spec (60 * prop_steps t1) g'), (Z.leb_spec (60 * (prop_steps t1 + prop_steps t2)) g');
    try lia; try done; rewrite (IHt2 Hr); destruct (Z.leb_spec (60 * prop_steps t2) (g' - 60 * prop_steps t1));
    try lia; try done; do 2 f_equal; lia.
Qed.

Lemma ensure_prop_fails p t : has_prop p t = false -> forall g,
  (exists e g', ensure_prop t p (Some g) = (Error e, g')) /\
  (60 * size_for_gas t <= g -> exists t' g', ensure_prop t p (Some g) = (Error (InvalidTypeProperty p t'), g')).
Proof.
  intros Hp g. cut (exists e g', ensure_prop t p (Some g) = (Error e, g') /\
    (60 * size_for_gas t <= g -> exists t', e = InvalidTypeProperty p t')).
  { intros (e & g' & E & He). split; [eauto|]. intros (t' & ->)%He. eauto. }
  revert Hp g.
  assert (Hone : forall t S g, 1 <= S -> exists e g',
    bind (gas_use tc_cost.TYPE_PROP_STEP) (fun _ => fail (A := unit) (InvalidTypeProperty p t)) (Some g) = (Error e, g') /\
    (60 * S <= g -> exists t', e = InvalidTypeProperty p t')).
  { intros u S g HS. unfold bind. rewrite gas_use_some. change tc_cost.TYPE_PROP_STEP with 60.
    destruct (Z.leb_spec 60 g); do 2 eexists; (split; [reflexivity|]); [eauto | lia]. }
  assert (Hsub : forall n S g (c : M Gas TcError unit), 1 <= n -> 1 + n <= S ->
    (forall g, exists e g', c (Some g) = (Error e, g') /\ (60 * n <= g -> exists t', e = InvalidTypeProperty p t')) ->
    exists e g', bind (gas_use tc_cost.TYPE_PROP_STEP) (fun _ => c) (Some g) = (Error e, g') /\
      (60 * S <= g -> exists t', e = InvalidTypeProperty p t')).
  { intros n S g c Hn HS Hc. unfold bind. rewrite gas_use_some. change tc_cost.TYPE_PROP_STEP with 60.
    destruct (Z.leb_spec 60 g); [|do 2 eexists; split; [reflexivity|lia]].
    destruct (Hc (g - 60)) as (e & g' & -> & He). do 2 eexists. split; [reflexivity|]. intros ?. apply He. lia. }
  assert (Hsize : forall t, 1 <= size_for_gas t) by (intros u; pose proof (prop_steps_size u); lia).
  induction t; intros Hp g; simpl in Hp; try discriminate Hp; try (destruct p; try discriminate Hp; apply Hone, Hsize).
  all: try pose proof (Hsize t); try (pose proof (Hsize t1); pose proof (Hsize t2)); cbn [ensure_prop size_for_gas].
  all: try (destruct p; try discriminate Hp;
      first [ apply Hone; lia
            | match goal with IH : has_prop _ ?t = false -> _ |- _ =>
                apply (Hsub (size_for_gas t)); [lia | lia |]; intros g'; by apply IH end ]).
  all: apply (Hsub (size_for_gas t1 + size_for_gas t2)); [lia | lia |]; intros g'; unfold bind;
    destruct (has_prop p t1) eqn:H1; simpl in Hp.
  all: try (destruct (IHt1 eq_refl g') as (e & g1 & -> & He); do 2 eexists; (split; [reflexivity|]); intros ?; apply He; lia).
  all: rewrite (ensure_prop_holds p t1 H1); pose proof (prop_steps_size t1);
    destruct (Z.leb_spec (60 * prop_steps t1) g'); [|do 2 eexists; split; [reflexivity | lia]];
    destruct (IHt2 Hp (g' - 60 * prop_steps t1)) as (e & g1 & -> & He); do 2 eexists; (split; [reflexivity|]);
    intros ?; apply He; lia.
Qed.

(** Checking a property of a type succeeds exactly when the type has the property and
    there is enough gas for the visited types; otherwise it is an error, which names the
    property when there is enough gas for the whole type. *)
Theorem type_properties_are_decided p t g :
  (has_prop p t = true -> ensure_prop t p (Some g) =
    if 60 * prop_steps t <=? g then (Done tt, Some (g - 60 * prop_steps t)) else (Error TcOutOfGas, None)) /\
  (has_prop p t = false -> (exists e g', ensure_prop t p (Some g) = (Error e, g')) /\
    (60 * size_for_gas t <= g -> exists t' g', ensure_prop t p (Some g) = (Error (InvalidTypeProperty p t'), g'))).
Proof. split; intros H; [by apply ensure_prop_holds | by apply ensure_prop_fails]. Qed.

(** ** Panics that the checks let through *)
Section Panics.
Context {Bls : BlsTypes} {X : Extern} {St : Type} {LS : LazyStorage St}.
Implicit Types (s : list TypedValue) (ctx : Ctx St) (stack : list Ty).

Lemma bind_ext {S E A B} (c : M S E A) (k k' : A -> M S E B) x :
  (forall a x, k a x = k' a x) -> bind c k x = bind c k' x.
Proof. intros Hk. unfold bind. destruct (c x) as [[a| | |] y]; [apply Hk | done ..]. Qed.

Lemma validate_small n : (n < 1024)%nat -> validate_u10 (Z.of_nat n) = ret n.
Proof.
  intros Hn. unfold validate_u10. destruct (Z.leb_spec 0 (Z.of_nat n)), (Z.ltb_spec (Z.of_nat n) 65536); try lia.
  cbn [andb]. destruct (Z.leb_spec 1024 (Z.of_nat n)); [lia |]. by rewrite Nat2Z.id.
Qed.

Lemma too_short p stack n : ensure_stack_len p stack n =
  if decide (length stack < n)%nat then fail (NoMatchingOverload p stack (Some (StackTooShort n))) else ret tt.
Proof. unfold ensure_stack_len. do 2 case_decide; done || lia. Qed.

(** [DIG n] is refused on a stack of fewer than [n] types and moves the type below the [n] upper
    ones to the top on a stack of more than [n] types; on a stack of exactly [n] types the check
    of the length passes and the typechecker panics. *)
Theorem dig_by_stack_length env fuel n anns eps stack g : (0 < n < 1024)%nat ->
  typecheck_instruction env (S fuel) (MApp Prim.DIG [MInt (Z.of_nat n)] anns) eps (FOk stack) g =
  (gas_use tc_cost.INSTR_STEP >>;
   if decide (length stack < n)%nat then fail (NoMatchingOverload Prim.DIG stack (Some (StackTooShort n)))
   else gas_charge (tc_cost.dig_n n) >>;
        match stack !! n with
        | None => panic StackOutOfBounds
        | Some t => typed (IDig n) (t :: take n stack ++ drop (S n) stack)
        end) g /\
  (stack !! n = None /\ ~ (length stack < n)%nat <-> length stack = n).
Proof.
  intros Hn. split; [| rewrite lookup_ge_None; lia]. cbn [typecheck_instruction access_mut]. unfold bind at 1, ret at 1.
  apply bind_ext. intros _ g1. unfold tc_dig. rewrite validate_small by lia. unfold bind at 1, ret at 1. rewrite too_short.
  case_decide; [done |]. unfold bind at 1, ret at 1. apply bind_ext. intros _ g2.
  rewrite decide_True by lia. unfold Top.remove, res_option.
  destruct (stack !! n) as [t|] eqn:E; [by rewrite (drop_S _ _ _ E) |].
  rewrite drop_ge by (by apply lookup_ge_None_1). done.
Qed.

(** [DUG n] in the same way: the upper type goes below the next [n]. *)
Theorem dug_by_stack_length env fuel n anns eps t stack g : (0 < n < 1024)%nat ->
  typecheck_instruction env (S fuel) (MApp Prim.DUG [MInt (Z.of_nat n)] anns) eps (FOk (t :: stack)) g =
  (gas_use tc_cost.INSTR_STEP >>;
   gas_charge (tc_cost.dug_n n) >>;
   match Nat.compare (S (length stack)) n with
   | Lt => fail (NoMatchingOverload Prim.DUG (t :: stack) (Some (StackTooShort n)))
   | Eq => panic StackOutOfBounds
   | Gt => typed (IDug n) (take n stack ++ t :: drop n stack)
   end) g.
Proof.
  intros Hn. cbn [typecheck_instruction access_mut]. unfold bind at 1, ret at 1.
  apply bind_ext. intros _ g1. unfold tc_dug. rewrite validate_small by lia. unfold bind at 1, ret at 1.
  apply bind_ext. intros _ g2. rewrite decide_True, too_short by lia. cbn [length].
  destruct (Nat.compare_spec (S (length stack)) n); [rewrite decide_False by lia | by rewrite decide_True | rewrite decide_False by lia].
  - unfold bind at 1, ret at 1, Top.pop, res_option, bind at 1, lift at 1, Top.insert. by rewrite decide_False by lia.
  - unfold bind at 1, ret at 1, Top.pop, res_option, bind at 1, lift at 1, Top.insert. by rewrite decide_True by lia.
Qed.

(** The values that cannot be compared, whatever they are compared with. *)
Definition never_compared (v : TypedValue) : bool :=
  match v with
  | VList _ | VSet _ | VMap _ | VBigMap _ | VContract _ | VLambda _ | VOperation _ _ | VTicket _
  | VBls12381Fr _ | VBls12381G1 _ | VBls12381G2 _ => true
  | _ => false
  end.

(** The typechecker lets [TICKET] make tickets of any type and [JOIN_TICKETS] join them; joining
    two tickets whose contents cannot be compared panics in the computation of the cost. *)
Theorem incomparable_tickets_panic t stack tl tr s g fuel ctx : never_compared (tk_content tl) = true ->
  tc_ticket (t :: TNat :: stack) g = (Done (ITicket, FOk (TOption (TTicket t) :: stack)), g) /\
  instruction_interpret (S fuel) IJoinTickets (VPair (VTicket tl) (VTicket tr) :: s) ctx = (Panics Incomparable, ctx).
Proof.
  intros Hc. split; [done |]. cbn [instruction_interpret interpret_one]. unfold op_join_tickets, pop_as, the, bind. cbn.
  unfold charge, on_gas, gas_charge, map_err, interpret_cost.join_tickets.
  assert (E : interpret_cost.compare (tk_content tl) (tk_content tr) = Panics Incomparable) by (by destruct (tk_content tl)).
  rewrite E. cbn. by destruct ctx.
Qed.

(** When the typechecking of the value in [UNPACK] runs out of gas, the instruction returns
    [None] instead of failing, and the next use of gas, at the end of the block if not before,
    panics. *)
Theorem unpack_hides_exhausted_gas fuel ty bs s ctx ctx1 mich e :
  charge (E := InterpretError) (interpret_cost.unpack bs) ctx = (Done tt, ctx1) -> decode_packed bs = Done mich ->
  typecheck_value (tc_env ctx1) (S fuel) mich ty (gas ctx1) = (Error e, None) ->
  instruction_interpret (S fuel) (IUnpack ty) (VBytes bs :: s) ctx = (Done (VOption None :: s), set_gas None ctx1) /\
  interpret (instruction_interpret (S fuel)) [IUnpack ty] (VBytes bs :: s) ctx =
    (Panics AccessToGasAfterExhaustion, set_gas None ctx1).
Proof.
  intros Ec Ed Et.
  assert (E : instruction_interpret (S fuel) (IUnpack ty) (VBytes bs :: s) ctx = (Done (VOption None :: s), set_gas None ctx1)).
  { cbn [instruction_interpret interpret_one]. unfold op_unpack. change (pop_as as_bytes (VBytes bs :: s)) with (ret (S := Ctx St) (E := InterpretError) (bs, s)).
    unfold bind, ret at 1. rewrite Ec. unfold get_state. rewrite Ed. unfold ok. by rewrite Et. }
  split; [exact E |]. cbn [interpret]. unfold bind at 1. by rewrite E.
Qed.

End Panics.

End MirOpsProps.
Export MirOpsProps.
