(* ===== verification/MirConcrete.v ===== *)
(** A concrete runtime, on which the theorems of the Michelson runtime are applied: the
    in-memory big map storage, and stand-ins for the external crates that satisfy what the
    runtime relies on. *)

From stdpp Require Import strings.
From S2P Require Import Prelude MirAst MirGas MirStack MirCompare MirExtern MirSerial MirCtx MirTypes MirTcInstr MirTypecheck MirOps MirInterp MirTyping MirSerialProps MirSound MirTcSound MirSafety MirGasProps MirContract MirBigMap MirStorageSpec MirDump MirPack MirOpsProps.

Open Scope Z_scope.

Module MirConcrete.

(** Scalars are integers and the points of the curves are not told apart. *)
#[export] Instance sample_bls : BlsTypes := {| Fr := Z; G1 := unit; G2 := unit |}.

#[export] Instance sample_extern : Extern := {|
  hash_from_b58check _ s := Some (str_bytes s);
  hash_try_from_bytes _ bs := Some bs;
  from_base58check s := Some (str_bytes s);
  from_base58 s := Some (str_bytes s);
  pk_hash _ k := k;
  verify_signature _ _ _ _ := Some true;
  aggregate_verify _ _ _ := Some true;
  blake2b_256 bs := bs;
  blake2b_digest bs n := take (Z.to_nat n) bs;
  keccak256 bs := bs;
  sha256 bs := bs;
  sha3_256 bs := bs;
  sha512 bs := bs;
  fr_of_lendian bs := Some (le_value bs);
  lendian_of_fr x := le_bytes 32 x;
  fr_add x y := (x + y) mod fr_order;
  fr_mul x y := (x * y) mod fr_order;
  fr_neg x := (- x) mod fr_order;
  g1_from_bytes _ := Some tt;
  g1_to_bytes _ := [];
  g1_add _ _ := tt;
  g1_mul _ _ := tt;
  g1_neg _ := tt;
  g2_from_bytes _ := Some tt;
  g2_to_bytes _ := [];
  g2_add _ _ := tt;
  g2_mul _ _ := tt;
  g2_neg _ := tt;
  pairing_check _ := true;
  parse_from_rfc3339 _ := None;
  zarith_bin_write := zarith_bytes
|}.

#[export] Instance sample_extern_sound : ExternSound sample_extern.
Proof. split; intros; eexists; reflexivity. Qed.

#[export] Instance sample_zarith : ZarithFormat sample_extern.
Proof. done. Qed.

#[export] Instance memory_returns : StorageReturns InMemoryLazyStorage.
Proof.
  split; intros; simpl; unfold mem_big_map_get, mem_big_map_mem, mem_big_map_get_type, access_big_map;
    try done; apply returns_bind; try apply returns_option; intros info; try apply returns_map_get.
  apply returns_bind; [apply returns_map_get | done].
Qed.

#[export] Instance empty_storage_sound F : StorageSound F storage_new.
Proof. by split; intros id tk tv k [=]. Qed.

(** A memory that is sorted and holds values of the declared types is sound. *)
Lemma memory_sound F (s : InMemoryLazyStorage) :
  memory_inv s ->
  (forall id info k v, big_maps s !! id = Some info -> assoc k (mi_map info) = Some v ->
     value_typed F s v (mi_value_type info)) ->
  StorageSound F s.
Proof.
  intros Hinv Hval. split; intros id tk tv k Hty Hc Hk; apply (is_key_typed F s tk Hc) in Hk;
    change (big_map_get_type s id) with (mem_big_map_get_type s id) in Hty; unfold mem_big_map_get_type in Hty;
    destruct (big_maps s !! id) as [info|] eqn:Hi; try discriminate; injection Hty as <- <-.
  - rewrite (law_get s id (mi_key_type info) (mi_value_type info)); [|done|by simpl; rewrite Hi|done].
    simpl. unfold memory_stored. rewrite Hi. simpl. destruct (assoc k (mi_map info)) eqn:Ha; constructor. eauto.
  - by rewrite (law_mem s id (mi_key_type info) (mi_value_type info)); [|done|simpl; rewrite Hi|].
Qed.

(** ** A contract that adds its parameter to its storage *)
Definition adder : Micheline :=
  MSeq [MApp Prim.parameter [prim0 Prim.nat] NO_ANNS;
        MApp Prim.storage [prim0 Prim.nat] NO_ANNS;
        MApp Prim.code [MSeq [prim0 Prim.UNPAIR; prim0 Prim.ADD; prim1 Prim.NIL (prim0 Prim.operation);
                              prim0 Prim.PAIR]] NO_ANNS].

Definition adder_script : ContractScript :=
  mkContractScript TNat TNat (ISeq [IUnpair; IAdd Add_NatNat; INil; IPair]).

Definition sample_gas : Gas := Some 30000.
Definition sample_fuel : nat := Z.to_nat 30001.

Definition sample_ctx : Ctx InMemoryLazyStorage :=
  mkCtx sample_gas 10 20 1%N (Kt1 []) (Kt1 []) 1%N [] (Kt1 []) (fun _ => None) (fun _ => 0%N) 0 0%N []
    storage_new 0 0.

Definition sample_env : TcEnv InMemoryLazyStorage := tc_env sample_ctx.

Lemma sample_fuel_enough : gas_left sample_gas < Z.of_nat sample_fuel.
Proof. unfold sample_fuel. rewrite Z2Nat.id; done. Qed.

Lemma sample_ctx_ok F : ctx_ok F storage_new sample_ctx.
Proof. by split. Qed.

(** The contract typechecks, and running it adds. *)
Example adder_typechecks : (typecheck_script sample_env sample_fuel adder sample_gas).1 = Done adder_script.
Proof. vm_compute. reflexivity. Qed.

Example adder_runs :
  (contract_interpret sample_fuel adder_script (MInt 2) (MInt 40) sample_ctx).1 = Done ([], VNat 42).
Proof. vm_compute. reflexivity. Qed.

(** ** The theorems at work *)
Lemma result_is {A B} (p : A * B) a b a' : p = (a, b) -> p.1 = a' -> a = a'.
Proof. by intros -> <-. Qed.
Lemma state_is {A B C} (p : A * B) a b (f : B -> C) c : p = (a, b) -> f p.2 = c -> f b = c.
Proof. by intros -> <-. Qed.

Lemma comparison_is_a_total_order_witness :
  partial_cmp (VPair (VInt 1) (VNat 7)) (VPair (VInt 2) (VNat 3)) = Some Lt /\
  partial_cmp (VPair (VInt 1) (VNat 7)) (VPair (VInt 3) (VNat 0)) = Some Lt.
Proof.
  split; [reflexivity|].
  assert (T : forall a b, value_typed strict storage_new (VPair (VInt a) (VNat b)) (TPair TInt TNat))
    by (intros; repeat constructor).
  apply (comparison_is_a_total_order (F := strict) (st := storage_new) (TPair TInt TNat) _ (VPair (VInt 2) (VNat 3)) _); auto.
Defined.

Lemma typechecked_code_is_well_typed_witness :
  instr_typed strict storage_new (IAdd Add_NatNat) [TNat; TNat] [TNat].
Proof.
  exact (typechecked_code_is_well_typed strict sample_env 2 (prim0 Prim.ADD) None [TNat; TNat]
           (IAdd Add_NatNat) (FOk [TNat]) (Some 1000) (Some 560) ltac:(by split) eq_refl).
Defined.

Lemma typechecked_value_is_well_typed_witness :
  value_typed strict storage_new (VSet [VInt 1; VInt 2]) (TSet TInt).
Proof.
  exact (typechecked_value_is_well_typed strict sample_env 3 (MSeq [MInt 1; MInt 2]) (TSet TInt)
           (VSet [VInt 1; VInt 2]) (Some 1000) (Some 401) ltac:(by split) eq_refl eq_refl).
Defined.

Lemma typechecking_terminates_witness :
  exists g, typecheck_value sample_env sample_fuel (MSeq [MInt 1; MInt 2]) (TSet TInt) sample_gas =
    (Done (VSet [VInt 1; VInt 2]), g) /\ gas_left g <= 30000.
Proof.
  pose proof (typechecking_terminates sample_env sample_fuel (MSeq [MInt 1; MInt 2]) (TSet TInt) sample_gas
                ltac:(done) sample_fuel_enough) as H.
  destruct (typecheck_value sample_env sample_fuel (MSeq [MInt 1; MInt 2]) (TSet TInt) sample_gas)
    as [r g] eqn:E.
  assert (Hr : r = Done (VSet [VInt 1; VInt 2])) by (apply (result_is _ _ _ _ E); vm_compute; reflexivity).
  subst r. exists g. split; [reflexivity | apply H].
Defined.

Lemma interpretation_terminates_witness :
  match instruction_interpret sample_fuel (ILoop [IPush (VBool true)]) [VBool true] sample_ctx with
  | (NoFuel, _) => False
  | (_, ctx') => gas_ok (gas ctx') /\ gas_left (gas ctx') <= 30000
  end.
Proof.
  exact (interpretation_terminates sample_fuel (ILoop [IPush (VBool true)]) [VBool true] sample_ctx
           ltac:(done) sample_fuel_enough).
Defined.

Lemma well_typed_code_is_safe_witness :
  exists ctx', instruction_interpret sample_fuel (IAdd Add_NatNat) [VNat 1; VNat 2] sample_ctx = (Done [VNat 3], ctx') /\
    ctx_ok strict storage_new ctx'.
Proof.
  pose proof (well_typed_code_is_safe strict storage_new sample_fuel (IAdd Add_NatNat) [TNat; TNat] [TNat]
                [VNat 1; VNat 2] sample_ctx _ (sample_ctx_ok strict) ltac:(done) sample_fuel_enough
                (IT_Mono strict storage_new (IAdd Add_NatNat) [TNat; TNat] [TNat] [] eq_refl)
                ltac:(repeat constructor)) as H.
  destruct (instruction_interpret sample_fuel (IAdd Add_NatNat) [VNat 1; VNat 2] sample_ctx) as [r ctx'] eqn:E.
  assert (Hr : r = Done [VNat 3]) by (apply (result_is _ _ _ _ E); vm_compute; reflexivity).
  subst r. exists ctx'. split; [reflexivity | apply H].
Defined.

Lemma contract_run_is_safe_witness :
  exists ctx', contract_interpret sample_fuel adder_script (MInt 2) (MInt 40) sample_ctx = (Done ([], VNat 42), ctx') /\
    value_typed strict storage_new (VNat 42) TNat.
Proof.
  destruct (typecheck_script sample_env sample_fuel adder sample_gas) as [r g] eqn:T.
  assert (Hr : r = Done adder_script) by (apply (result_is _ _ _ _ T); vm_compute; reflexivity).
  subst r.
  pose proof (contract_run_is_safe strict sample_fuel sample_fuel sample_env adder adder_script (MInt 2) (MInt 40)
                sample_gas g sample_ctx _ (sample_ctx_ok strict) ltac:(done) sample_fuel_enough eq_refl
                ltac:(by split) ltac:(by split) ltac:(by split) T) as H.
  destruct (contract_interpret sample_fuel adder_script (MInt 2) (MInt 40) sample_ctx) as [r' ctx'] eqn:E.
  assert (Hr : r' = Done ([], VNat 42)) by (apply (result_is _ _ _ _ E); vm_compute; reflexivity).
  subst r'. exists ctx'. split; [reflexivity | apply H].
Defined.

(** Two maps with the same stored part, and one that is new. *)
Definition sample_storage : InMemoryLazyStorage :=
  mkStorage 2 (<[0 := mkMapInfo [(VInt 1, VNat 10)] TInt TNat]> (<[1 := mkMapInfo [] TInt TNat]> ∅)).

Definition sample_maps : list BigMap :=
  [mkBigMap (Some 0) [(VInt 1, None)] TInt TNat;
   mkBigMap (Some 0) [(VInt 2, Some (VNat 20))] TInt TNat;
   mkBigMap None [(VInt 3, Some (VNat 30))] TInt TNat].

Lemma keyed_singleton {A} z (v : A) : keyed TInt [(VInt z, v)].
Proof. by split_and!; repeat constructor. Qed.

Lemma sample_storage_inv : storage_inv sample_storage.
Proof.
  intros id info. simpl. rewrite !lookup_insert_Some, lookup_empty.
  intros [[<- <-]|[_ [[<- <-]|[_ [=]]]]]; (split; [lia|]); [apply keyed_singleton | by apply keyed_nil].
Qed.

Lemma sample_maps_ok : Forall (bm_ok sample_storage) sample_maps.
Proof.
  repeat constructor; try (apply keyed_singleton); simpl; intros id [= <-]; reflexivity.
Qed.

Lemma dump_keeps_big_maps_witness :
  exists s ms, dump_big_map_updates [0; 1] (sample_storage, sample_maps) = (Done tt, (s, ms)) /\
    bm_id <$> ms = [Some 0; Some 3; Some 2] /\ big_map_get_type s 1 = Done None /\ NoDup (bm_id <$> ms).
Proof.
  destruct (dump_keeps_big_maps sample_storage sample_maps [0; 1] sample_storage_inv sample_maps_ok
              ltac:(repeat constructor)) as (s & ms & E & _ & _ & Hnd & Hgone & _).
  exists s, ms. split; [exact E|]. split.
  - change ms with (s, ms).2. change (s, ms) with ((Done (E := LazyStorageError) tt, (s, ms)).2). rewrite <- E.
    vm_compute. reflexivity.
  - split; [|exact Hnd]. apply Hgone; [by right; left|]. simpl. rewrite !elem_of_cons, elem_of_nil. intuition discriminate.
Defined.

Lemma big_map_reads_its_updates_witness :
  exists m, bm_update (E := LazyStorageError) (mkBigMap (Some 0) [] TInt TNat) (VInt 1) None = Done m /\
    bm_get m (VInt 1) sample_storage = Done None.
Proof.
  destruct (big_map_reads_its_updates sample_storage (mkBigMap (Some 0) [] TInt TNat) (VInt 1) None
              sample_storage_inv) as (m & E & _ & H); [|reflexivity|].
  - split; [by apply keyed_nil|]. intros id [= <-]. reflexivity.
  - exists m. split; [exact E|]. destruct (H (VInt 1) eq_refl) as [-> _]. reflexivity.
Defined.

Lemma value_big_maps_lens_witness :
  exists v, write_big_maps (VPair (VList [VBigMap (mkBigMap None [] TInt TNat)]) VUnit) [mkBigMap (Some 7) [] TInt TNat] = (v, []) /\
    view_big_map_ids v = [7].
Proof.
  destruct (value_big_maps_lens (VPair (VList [VBigMap (mkBigMap None [] TInt TNat)]) VUnit)
              [mkBigMap (Some 7) [] TInt TNat] eq_refl) as (v & E & _ & Hids & _).
  exists v. split; [exact E | exact Hids].
Defined.

Lemma unpack_inverts_pack_witness :
  decode_packed (encode_for_pack (MApp Prim.Pair [MInt (-1000); MString "ok"; MSeq []] [Ann_Field "x"])) =
  Done (MApp Prim.Pair [MInt (-1000); MString "ok"; MSeq []] [Ann_Field "x"]).
Proof.
  apply (unpack_inverts_pack (MApp Prim.Pair [MInt (-1000); MString "ok"; MSeq []] [Ann_Field "x"]));
    [reflexivity | vm_compute; reflexivity].
Defined.

Lemma map_instructions_witness :
  exists m, forall ctx : Ctx InMemoryLazyStorage,
    op_update Update_Map [VInt 2; VOption (Some VUnit); VMap [(VInt 1, VUnit)]] ctx =
    bind (charge (interpret_cost.map_update (VInt 2) 1)) (fun _ => ret [VMap m]) ctx.
Proof.
  destruct (map_instructions TInt (VInt 2) (Some VUnit) [(VInt 1, VUnit)] [] (keyed_singleton 1 VUnit) eq_refl)
    as (m & _ & H & _).
  exists m. exact H.
Defined.

Lemma mutez_never_wraps_witness :
  (op_add Add_MutezMutez [VMutez (2 ^ 63 - 1); VMutez 1] sample_ctx).1 = Error MutezOverflow.
Proof.
  destruct (mutez_never_wraps (2 ^ 63 - 1) 1 0%N [] sample_ctx) as (-> & _); [done..|]. reflexivity.
Defined.

(** ** Panics the runtime does not exclude *)

(** [DIG 1] and [DUG 1] on a stack of one type. *)
Lemma dig_to_the_bottom_panics (t : Ty) :
  (typecheck_instruction sample_env 1 (MApp Prim.DIG [MInt 1] NO_ANNS) None (FOk [t]) (Some 10000)).1 = Panics StackOutOfBounds /\
  (typecheck_instruction sample_env 1 (MApp Prim.DUG [MInt 1] NO_ANNS) None (FOk [t]) (Some 10000)).1 = Panics StackOutOfBounds.
Proof.
  change 1 with (Z.of_nat 1). destruct (dig_by_stack_length sample_env 0 1 NO_ANNS None [t] (Some 10000) ltac:(lia)) as [-> _].
  rewrite (dug_by_stack_length sample_env 0 1 NO_ANNS None t [] (Some 10000) ltac:(lia)). split; vm_compute; reflexivity.
Qed.

(** Code that makes and joins two tickets whose contents cannot be compared. *)
Definition join_lists : Micheline :=
  let ticket := [MApp Prim.PUSH [prim0 Prim.nat; MInt 1] NO_ANNS; prim1 Prim.NIL (prim0 Prim.nat);
                 prim0 Prim.TICKET;
                 prim2 Prim.IF_NONE (MSeq [prim0 Prim.UNIT; prim0 Prim.FAILWITH]) (MSeq [])] in
  MSeq (ticket ++ ticket ++ [prim0 Prim.PAIR; prim0 Prim.JOIN_TICKETS]).

(** The typechecker lets [TICKET] take contents that cannot be compared, and
    joining two such tickets panics in the computation of the cost. *)
Lemma joining_incomparable_tickets_panics :
  exists i, (typecheck_instruction sample_env 20 join_lists None (FOk []) sample_gas).1 =
      Done (i, FOk [TOption (TTicket (TList TNat))]) /\
    (instruction_interpret 20 i [] sample_ctx).1 = Panics Incomparable.
Proof.
  exists match typecheck_instruction sample_env 20 join_lists None (FOk []) sample_gas with
         | (Done (i, _), _) => i
         | _ => IUnit
         end.
  split; vm_compute; reflexivity.
Qed.

(** A list of forty numbers is unpacked with too little gas. *)
Lemma unpack_hides_exhausted_gas_sample :
  let ctx := set_gas (Some 3000) sample_ctx in
  let packed := VBytes (encode_for_pack (MSeq (replicate 40 (MInt 1)))) in
  (exists ctx', instruction_interpret 100 (IUnpack (TList TInt)) [packed] ctx = (Done [VOption None], ctx') /\ gas ctx' = None) /\
  (instruction_interpret 100 (ISeq [IUnpack (TList TInt); IDrop None]) [packed] ctx).1 = Panics AccessToGasAfterExhaustion.
Proof.
  cbv zeta. split; [|vm_compute; reflexivity].
  destruct (instruction_interpret 100 (IUnpack (TList TInt)) [VBytes (encode_for_pack (MSeq (replicate 40 (MInt 1))))]
              (set_gas (Some 3000) sample_ctx)) as [r ctx'] eqn:E.
  exists ctx'. split.
  - f_equal. apply (result_is _ _ _ _ E). vm_compute. reflexivity.
  - apply (state_is _ _ _ gas _ E). vm_compute. reflexivity.
Qed.

End MirConcrete.
Export MirConcrete.
