(* ===== verification/SdkPath.v ===== *)
(** Storage paths of the kernel SDK ([src/src/kernel_sdk/host/src/path.rs]).

    A path is the byte string a [RefPath] or an [OwnedPath] holds; the two differ only in who
    owns the bytes.  The grammar of the documentation, a sequence of non-empty steps over a
    small alphabet each preceded by a separator, is [is_path]; [validate_path_iff] shows that
    the byte loop of the code decides it. *)

From Stdlib Require Import String Ascii.
From stdpp Require Import strings.
From S2P Require Import Prelude.

Open Scope Z_scope.

Module SdkPath.

(** A byte string literal, [b"..."]. *)
Definition ascii_bytes (s : string) : list Z :=
  map (fun c => Z.of_N (Ascii.N_of_ascii c)) (String.list_ascii_of_string s).

Abbreviation bytes := (list Z).
Abbreviation len bs := (Z.of_nat (length bs)).

Definition PATH_SEPARATOR : Z := 47.
Definition DURABLE_STORAGE_PREFIX_INNER : bytes := ascii_bytes "/durable".
Definition PATH_MAX_SIZE : Z := 250 - len DURABLE_STORAGE_PREFIX_INNER.

(** The byte string of a [RefPath] or an [OwnedPath]. *)
Definition Path : Type := bytes.

(** [Path::size]. *)
Definition size (p : Path) : Z := len p.

(** [Path::len_steps]. *)
Definition len_steps (p : Path) : Z :=
  len (List.filter (fun b => b =? PATH_SEPARATOR) p).

Inductive PathError : Type :=
| PathEmpty
| PathTooLong
| InvalidStart
| InvalidEmptyStep
| InvalidByteInStep
| ReadOnly.

#[export] Instance PathError_eq_dec : EqDecision PathError.
Proof. solve_decision. Defined.

(** [u8::is_ascii_alphanumeric]. *)
Definition is_ascii_alphanumeric (b : Z) : bool :=
  ((48 <=? b) && (b <=? 57)) || ((65 <=? b) && (b <=? 90)) || ((97 <=? b) && (b <=? 122)).

Definition is_allowed_step_byte (byte : Z) : bool :=
  is_ascii_alphanumeric byte || (byte =? 46) || (byte =? 95) || (byte =? 45).

(** The loop of [validate_path_internal]: [prev] is [path[i - 1]] and [rest] is [path[i..]]. *)
Fixpoint validate_loop (prev : Z) (rest : bytes) : result unit PathError :=
  match rest with
  | [] => Ok tt
  | c :: rest =>
      if (prev =? PATH_SEPARATOR) && (c =? PATH_SEPARATOR) then Err InvalidEmptyStep
      else if c =? PATH_SEPARATOR then validate_loop c rest
      else if negb (is_allowed_step_byte c) then Err InvalidByteInStep
      else validate_loop c rest
  end.

Definition validate_path_internal (path : bytes) : result unit PathError :=
  match path with
  | [] => Err PathEmpty
  | first :: rest =>
      if List.last path 0 =? PATH_SEPARATOR then Err InvalidEmptyStep
      else if PATH_MAX_SIZE <? len path then Err PathTooLong
      else if first =? PATH_SEPARATOR then validate_loop first rest
      else Err InvalidStart
  end.

Definition READONLY : bytes := ascii_bytes "/readonly".

(** The patterns [[/, r, e, a, d, o, n, l, y]] and [[/, r, e, a, d, o, n, l, y, /, ..]]. *)
Definition is_readonly (path : bytes) : bool :=
  bool_decide (path = READONLY) || bool_decide (take 10 path = READONLY ++ [PATH_SEPARATOR]).

Definition validate_path (path : bytes) : result unit PathError :=
  match validate_path_internal path with
  | Ok tt => if is_readonly path then Err ReadOnly else Ok tt
  | Err e => Err e
  end.

(** [RefPath::try_from] and [OwnedPath::try_from]. *)
Definition try_from (path : bytes) : result Path PathError :=
  match validate_path path with Ok tt => Ok path | Err e => Err e end.

(** [RefPath::assert_from]: [None] is the panic of [assert_ok]. *)
Definition assert_from (path : bytes) : option Path :=
  match validate_path path with Ok tt => Some path | Err _ => None end.

Definition assert_from_readonly (path : bytes) : option Path :=
  match validate_path_internal path with Ok tt => Some path | Err _ => None end.

(** [owned::concat]. *)
Definition concat (prefix suffix : Path) : result Path PathError :=
  let bytes := prefix ++ suffix in
  if len bytes <=? PATH_MAX_SIZE then Ok bytes else Err PathTooLong.

(** ** Splitting: [str::split('/')] and the steps of a path *)
Fixpoint split (sep : Z) (bs : bytes) : list bytes :=
  match bs with
  | [] => [[]]
  | c :: bs =>
      if c =? sep then [] :: split sep bs
      else match split sep bs with
           | h :: t => (c :: h) :: t
           | [] => [[c]]
           end
  end.

(** [path_steps] of [src/src/kernel_sdk/mock/src/state/store.rs]. *)
Definition path_steps (path : bytes) : list bytes := tail (split PATH_SEPARATOR path).

(** ** The grammar of paths *)

(** A step of a path. *)
Definition step_ok (s : bytes) : bool :=
  bool_decide (s <> []) && forallb is_allowed_step_byte s.

(** The bytes of a sequence of steps. *)
Definition join (steps : list bytes) : bytes := List.concat (map (cons PATH_SEPARATOR) steps).

(** [(/[A-Za-z0-9._-]+)+], at most [PATH_MAX_SIZE] bytes. *)
Definition path_grammar (p : bytes) (steps : list bytes) : Prop :=
  p = join steps /\ steps <> [] /\ Forall step_ok steps /\ len p <= PATH_MAX_SIZE.

(** A path that may be written: its first step is not [readonly]. *)
Definition is_path (p : bytes) (steps : list bytes) : Prop :=
  path_grammar p steps /\ hd [] steps <> ascii_bytes "readonly".

(** ** The loop decides the grammar *)
Lemma allowed_not_sep c : is_allowed_step_byte c = true -> c <> PATH_SEPARATOR.
Proof. intros H ->. vm_compute in H. discriminate. Qed.

Lemma step_ok_cons c s : step_ok (c :: s) = is_allowed_step_byte c && forallb is_allowed_step_byte s.
Proof. unfold step_ok. by rewrite bool_decide_true. Qed.

(** From inside a step the loop accepts the rest of the step and further steps. *)
Lemma validate_loop_iff rest : forall prev,
  List.last (prev :: rest) 0 <> PATH_SEPARATOR ->
  (validate_loop prev rest = Ok tt <->
   exists s steps, rest = s ++ join steps /\ forallb is_allowed_step_byte s = true /\
     (prev = PATH_SEPARATOR -> s <> []) /\ Forall step_ok steps).
Proof.
  induction rest as [|c rest IH]; intros prev Hl; cbn [validate_loop].
  - split; [| done]. intros _. exists [], []. split_and!; try done; try constructor.
  - assert (Hl' : List.last (c :: rest) 0 <> PATH_SEPARATOR) by (by destruct rest).
    specialize (IH c Hl'). destruct (Z.eqb_spec c PATH_SEPARATOR) as [Hc|Hc].
    + rewrite andb_true_r. destruct (Z.eqb_spec prev PATH_SEPARATOR) as [Hp|Hp].
      * split; [done |]. intros (s & steps & E & Hs & Hne & _). specialize (Hne Hp).
        destruct s as [|c' s]; [done |]. injection E as -> _. apply andb_true_iff in Hs as [Hs _].
        by apply allowed_not_sep in Hs.
      * rewrite IH. split.
        -- intros (s & steps & -> & Hs & Hne & Hst). exists [], (s :: steps). subst c.
           split_and!; try done. constructor; [| done]. unfold step_ok.
           rewrite Hs, bool_decide_true by auto. done.
        -- intros (s & steps & E & Hs & Hne & Hst).
           destruct s as [|c' s];
             [| injection E as -> _; apply andb_true_iff in Hs as [Hs _]; by apply allowed_not_sep in Hs].
           destruct steps as [|s steps]; [by subst|]. injection E as -> ->.
           apply Forall_cons in Hst as [H1 H2]. apply Is_true_true, andb_true_iff in H1 as [H1 H3].
           exists s, steps. split_and!; try done. intros _. by apply bool_decide_eq_true in H1.
    + rewrite andb_false_r. destruct (is_allowed_step_byte c) eqn:Hal; cbn [negb].
      * rewrite IH. split.
        -- intros (s & steps & -> & Hs & Hne & Hst). exists (c :: s), steps. cbn [forallb].
           rewrite Hal. split_and!; done.
        -- intros (s & steps & E & Hs & Hne & Hst). destruct s as [|c' s].
           ++ destruct steps as [|s steps]; [done |]. injection E as E _. by destruct Hc.
           ++ injection E as <- ->. cbn [forallb] in Hs. apply andb_true_iff in Hs as [_ Hs].
              exists s, steps. split_and!; try done.
      * split; [done |]. intros (s & steps & E & Hs & Hne & Hst). destruct s as [|c' s].
        -- destruct steps as [|s steps]; [done |]. injection E as E _. by destruct Hc.
        -- injection E as <- ->. cbn [forallb] in Hs. by rewrite Hal in Hs.
Qed.

Lemma last_join steps : Forall step_ok steps -> steps <> [] ->
  List.last (join steps) 0 <> PATH_SEPARATOR.
Proof.
  intros Hs Hne. destruct (exists_last Hne) as (init & s & ->).
  apply Forall_app in Hs as [_ [H _]%Forall_cons].
  apply Is_true_true, andb_true_iff in H as [H1%bool_decide_eq_true H2].
  destruct (exists_last H1) as (s' & c & ->). unfold join.
  rewrite map_app, concat_app. cbn [map List.concat]. rewrite app_nil_r, app_comm_cons, app_assoc, last_last.
  rewrite forallb_app in H2. apply andb_true_iff in H2 as [_ H2]. cbn in H2. rewrite andb_true_r in H2.
  by apply allowed_not_sep.
Qed.

Lemma validate_path_internal_iff p :
  validate_path_internal p = Ok tt <-> exists steps, path_grammar p steps.
Proof.
  unfold path_grammar. destruct p as [|first rest]; cbn [validate_path_internal].
  { split; [done |]. intros (steps & E & Hne & _). by destruct steps. }
  set (p := first :: rest). destruct (Z.eqb_spec (List.last p 0) PATH_SEPARATOR) as [Hl|Hl].
  { split; [done |]. intros (steps & E & Hne & Hs & _). rewrite E in Hl.
    by apply last_join in Hl. }
  destruct (Z.ltb_spec PATH_MAX_SIZE (len p)) as [Hm|Hm].
  { split; [done |]. intros (steps & _ & _ & _ & ?). lia. }
  destruct (Z.eqb_spec first PATH_SEPARATOR) as [->|Hf].
  2: { split; [done |]. intros (steps & E & Hne & _). destruct steps; [done |]. by injection E. }
  rewrite (validate_loop_iff rest PATH_SEPARATOR Hl). split.
  - intros (s & steps & -> & Hs & Hne & Hst). exists (s :: steps). split_and!; try done.
    constructor; [| done]. unfold step_ok. rewrite Hs, bool_decide_true by auto. done.
  - intros ([|s steps] & E & Hne & Hs & _); [done |]. injection E as ->.
    apply Forall_cons in Hs as [H1 H2]. apply Is_true_true, andb_true_iff in H1 as [H1 H3].
    exists s, steps. split_and!; try done. intros _. by apply bool_decide_eq_true in H1.
Qed.

(** ** Steps of a joined path *)
Lemma split_sep_free s : Forall (fun c => c <> PATH_SEPARATOR) s ->
  split PATH_SEPARATOR s = [s].
Proof.
  induction 1 as [|c s Hc _ IH]; cbn [split]; [done |].
  destruct (Z.eqb_spec c PATH_SEPARATOR); [done | by rewrite IH].
Qed.

Lemma split_app_sep s rest : Forall (fun c => c <> PATH_SEPARATOR) s ->
  split PATH_SEPARATOR (s ++ PATH_SEPARATOR :: rest) = s :: split PATH_SEPARATOR rest.
Proof.
  induction 1 as [|c s Hc _ IH]; cbn [split app]; [by rewrite Z.eqb_refl |].
  destruct (Z.eqb_spec c PATH_SEPARATOR); [done | by rewrite IH].
Qed.

Lemma step_ok_sep_free s : step_ok s -> Forall (fun c => c <> PATH_SEPARATOR) s.
Proof.
  intros H. apply Is_true_true, andb_true_iff in H as [_ H].
  rewrite forallb_forall in H. apply Forall_forall. intros c Hc. apply allowed_not_sep, H.
  by apply list_elem_of_In.
Qed.

(** Cutting a joined path gives back its steps. *)
Lemma path_steps_join steps : Forall step_ok steps -> path_steps (join steps) = steps.
Proof.
  intros Hs. destruct steps as [|s steps]; [done |]. unfold path_steps, join.
  cbn [map List.concat app split]. rewrite Z.eqb_refl. cbn [tail].
  revert s Hs. induction steps as [|s' steps IH]; intros s [H1 H2]%Forall_cons;
    apply step_ok_sep_free in H1; cbn [map List.concat app].
  - rewrite app_nil_r. by apply split_sep_free.
  - rewrite split_app_sep by done. by rewrite IH.
Qed.

Lemma join_app a b : join (a ++ b) = join a ++ join b.
Proof. unfold join. by rewrite map_app, concat_app. Qed.

Lemma join_inj a b : Forall step_ok a -> Forall step_ok b -> join a = join b -> a = b.
Proof. intros Ha Hb E. by rewrite <- (path_steps_join a), <- (path_steps_join b), E. Qed.

Lemma path_grammar_steps p steps : path_grammar p steps -> path_steps p = steps.
Proof. intros (-> & _ & Hs & _). by apply path_steps_join. Qed.

Lemma is_readonly_join steps : Forall step_ok steps -> steps <> [] ->
  is_readonly (join steps) = bool_decide (hd [] steps = ascii_bytes "readonly").
Proof.
  intros Hs Hne. unfold is_readonly.
  assert (Hro : Forall step_ok [ascii_bytes "readonly"]) by (repeat constructor).
  destruct (decide (steps = [ascii_bytes "readonly"])) as [->|Hn]; [done |].
  rewrite (bool_decide_false (join steps = READONLY)).
  2: { intros E. apply Hn. apply join_inj; [done | done | by rewrite E]. }
  cbn [orb]. apply bool_decide_ext. destruct steps as [|s steps]; [done |]. cbn [hd].
  apply Forall_cons in Hs as [H1 H2]. split.
  - intros E. assert (Ej : join (s :: steps) = READONLY ++ PATH_SEPARATOR :: drop 10 (join (s :: steps))).
    { rewrite <- (take_drop 10 (join (s :: steps))) at 1. rewrite E. by rewrite <- app_assoc. }
    apply (f_equal (fun l => hd [] (path_steps l))) in Ej. rewrite path_steps_join in Ej by (by constructor).
    cbn [hd] in Ej. rewrite Ej. unfold path_steps.
    change READONLY with (PATH_SEPARATOR :: ascii_bytes "readonly"). cbn [app split].
    rewrite Z.eqb_refl. cbn [tail]. rewrite split_app_sep; [done |]. apply step_ok_sep_free.
    by apply Forall_cons in Hro as [? _].
  - intros ->. destruct steps as [|s' steps]; [by destruct Hn |]. done.
Qed.

(** The check the code makes is the grammar of its documentation. *)
Lemma validate_path_iff p : validate_path p = Ok tt <-> exists steps, is_path p steps.
Proof.
  unfold validate_path, is_path. pose proof (validate_path_internal_iff p) as Hi.
  destruct (validate_path_internal p) as [[]|e].
  - destruct (proj1 Hi eq_refl) as (steps & Hg). pose proof Hg as (-> & Hne & Hs & Hl).
    rewrite is_readonly_join by done. case_bool_decide as Hr; split; try done.
    + intros (steps' & Hg' & Hr'). apply path_grammar_steps in Hg, Hg'. congruence.
    + intros _. by exists steps.
  - split; [done |]. intros (steps & Hg & _). assert (Err e = Ok tt) by (apply Hi; eauto). done.
Qed.

(** ** Concatenation *)
Lemma concat_is_path p ps q qs r : is_path p ps -> path_grammar q qs -> concat p q = Ok r ->
  is_path r (ps ++ qs).
Proof.
  intros [(-> & Hne & Hs & Hl) Hr] (-> & Hne' & Hs' & Hl'). unfold concat.
  destruct (Z.leb_spec (len (join ps ++ join qs)) PATH_MAX_SIZE) as [Hm|]; [| done].
  intros [= <-]. rewrite <- join_app in *. repeat split; try done.
  - by destruct ps.
  - apply Forall_app. done.
  - by destruct ps.
Qed.

Lemma len_steps_join steps : Forall step_ok steps -> len_steps (join steps) = len steps.
Proof.
  unfold len_steps. induction 1 as [|s steps H1 _ IH]; [done |]. unfold join. cbn [map List.concat app].
  cbn [List.filter]. rewrite Z.eqb_refl, List.filter_app, length_cons, length_app.
  apply step_ok_sep_free in H1.
  replace (List.filter (fun b => b =? PATH_SEPARATOR) s) with (@nil Z).
  { cbn [length]. unfold join in IH. lia. }
  symmetry. induction H1 as [|c s Hc _ IH']; [done |]. cbn [List.filter].
  by destruct (Z.eqb_spec c PATH_SEPARATOR).
Qed.

(** A literal path is legal. *)
Ltac closed_path :=
  split; [split_and!; [done | done | by repeat constructor | done]
         | let E := fresh in intros E; vm_compute in E; discriminate E].

End SdkPath.
Export SdkPath.
