(* ===== verification/SdkStore.v ===== *)
(** The durable store of the mock host ([src/src/kernel_sdk/mock/src/state/store.rs]).

    A node holds an optional value and its named children; a node with a value also has a
    child named [@], as the host's count of subkeys includes the value.  The reference counted
    pointers of the code are copied before they are written ([Rc::make_mut]), so a node is a
    value.  [node_at] is the node a sequence of steps leads to; every operation on paths is
    described by what [node_at] gives afterwards. *)

From Stdlib Require Import String Ascii.
From stdpp Require Import strings.
From S2P Require Import Prelude SdkPath.

Open Scope Z_scope.

Module SdkStore.

#[local] Set Warnings "-register-all".
Inductive Node : Type := mkNode { value : option bytes; inner : gmap bytes Node }.

(** [Node::default]. *)
Definition node_default : Node := mkNode None ∅.

(** [self == &Node::default()]. *)
Definition is_default (n : Node) : bool :=
  bool_decide (value n = None) && bool_decide (inner n = ∅).

Definition VALUE_NAME : bytes := ascii_bytes "@".

Definition with_value (n : Node) (v : option bytes) : Node := mkNode v (inner n).

Definition with_inner (n : Node) (i : gmap bytes Node) : Node := mkNode (value n) i.

(** The loop of [node_from_path]. *)
Fixpoint node_at (n : Node) (steps : list bytes) : option Node :=
  match steps with
  | [] => Some n
  | next :: steps =>
      match inner n !! next with
      | Some child => node_at child steps
      | None => None
      end
  end.

(** [node_from_path_mut], then the update of the node it leads to. *)
Fixpoint node_update (n : Node) (steps : list bytes) (f : Node -> Node) : option Node :=
  match steps with
  | [] => Some (f n)
  | next :: steps =>
      match inner n !! next with
      | Some child =>
          match node_update child steps f with
          | Some child => Some (with_inner n (<[next := child]> (inner n)))
          | None => None
          end
      | None => None
      end
  end.

(** The loop of [node_insert]: the missing nodes on the way are created. *)
Fixpoint insert_at (n : Node) (steps : list bytes) (insertee : Node) : Node :=
  match steps with
  | [] => insertee
  | next :: steps =>
      let child := default node_default (inner n !! next) in
      with_inner n (<[next := insert_at child steps insertee]> (inner n))
  end.

(** One round of the loop of [node_delete], over [steps ++ [last]]: [None] when a node on the
    way is missing; otherwise the tree without the last node, and whether its parent has
    become empty. *)
Fixpoint remove_at (n : Node) (steps : list bytes) (last : bytes) : option (Node * bool) :=
  match steps with
  | [] =>
      let n := with_inner n (base.delete last (inner n)) in Some (n, is_default n)
  | next :: steps =>
      match inner n !! next with
      | Some child =>
          match remove_at child steps last with
          | Some (child, empty) => Some (with_inner n (<[next := child]> (inner n)), empty)
          | None => None
          end
      | None => None
      end
  end.

(** The loop of [node_delete], over the steps in reverse order. *)
Fixpoint delete_at (n : Node) (rev_steps : list bytes) : Node :=
  match rev_steps with
  | [] => n
  | last :: rev_steps =>
      match remove_at n (rev rev_steps) last with
      | None => n
      | Some (n, false) => n
      | Some (n, true) => delete_at n rev_steps
      end
  end.

(** What a store keeps beside the nodes: preimages by hash, and the outbox by level. *)
Record Store : Type := mkStore {
  durable : Node;
  preimages : gmap bytes bytes;
  outbox : gmap Z (list bytes)
}.

Definition store_default : Store := mkStore node_default ∅ ∅.

Definition with_durable (s : Store) (n : Node) : Store := mkStore n (preimages s) (outbox s).

Definition outbox_at (s : Store) (level : Z) : list bytes := default [] (outbox s !! level).

Definition outbox_insert (s : Store) (level : Z) (message : bytes) : Store :=
  mkStore (durable s) (preimages s)
    (match outbox s !! level with
     | Some l => <[level := l ++ [message]]> (outbox s)
     | None => <[level := [message]]> (outbox s)
     end).

Definition node_from_path (s : Store) (path : bytes) : option Node :=
  node_at (durable s) (path_steps path).

Definition node_insert (s : Store) (path : bytes) (insertee : Node) : Store :=
  with_durable s (insert_at (durable s) (path_steps path) insertee).

Definition node_delete (s : Store) (path : bytes) : Store :=
  with_durable s (delete_at (durable s) (rev (path_steps path))).

Definition maybe_get_value (s : Store) (path : bytes) : option bytes :=
  match node_from_path s path with Some n => value n | None => None end.

(** [get_value]: [None] is the panic. *)
Definition get_value (s : Store) (path : bytes) : option bytes := maybe_get_value s path.

(** The update [set_value] makes to a node. *)
Definition put_value (v : bytes) (n : Node) : Node :=
  mkNode (Some v) (<[VALUE_NAME := node_default]> (inner n)).

Definition set_value (s : Store) (path : bytes) (v : bytes) : Store :=
  match node_update (durable s) (path_steps path) (put_value v) with
  | Some d => with_durable s d
  | None => node_insert s path (put_value v node_default)
  end.

(** The update [delete_value] makes to a node. *)
Definition drop_value (n : Node) : Node := mkNode None (base.delete VALUE_NAME (inner n)).

Definition delete_value (s : Store) (path : bytes) : Store :=
  match node_update (durable s) (path_steps path) drop_value with
  | Some d => with_durable s d
  | None => s
  end.

Definition has_entry (s : Store) (path : bytes) : bool :=
  match node_from_path s path with
  | Some n => bool_decide (is_Some (value n))
  | None => false
  end.

(** [retrieve_preimage]: [None] is the panic. *)
Definition retrieve_preimage (s : Store) (hash : bytes) : option bytes := preimages s !! hash.

(** ** Reference deletion: the node is removed, and the nodes on the way that this leaves
    empty; [None] when a node on the way is missing *)
Fixpoint prune (n : Node) (steps : list bytes) : option Node :=
  match steps with
  | [] => None
  | [last] => Some (with_inner n (base.delete last (inner n)))
  | next :: steps =>
      match inner n !! next with
      | Some child =>
          match prune child steps with
          | Some child =>
              Some (with_inner n
                (if is_default child then base.delete next (inner n) else <[next := child]> (inner n)))
          | None => None
          end
      | None => None
      end
  end.

(** What is stored at and below a path: an empty node when there is nothing. *)
Definition subtree (n : Node) (steps : list bytes) : Node := default node_default (node_at n steps).

(** Neither path leads to the other. *)
Definition diverge (a b : list bytes) : Prop := ~ a `prefix_of` b /\ ~ b `prefix_of` a.

(** ** Lemmas on nodes *)
Lemma is_default_true n : is_default n = true <-> n = node_default.
Proof.
  unfold is_default, node_default. rewrite andb_true_iff, !bool_decide_eq_true.
  destruct n as [v i]. cbn. split; [intros [-> ->]; done | by intros [= -> ->]].
Qed.

Lemma is_default_false n : is_default n = false <-> n <> node_default.
Proof. rewrite <- is_default_true. by destruct (is_default n). Qed.

Lemma is_default_insert n k c : is_default (with_inner n (<[k := c]> (inner n))) = false.
Proof.
  apply is_default_false. intros [= _ E]. by apply insert_non_empty in E.
Qed.

Lemma node_at_app n a b :
  node_at n (a ++ b) = match node_at n a with Some m => node_at m b | None => None end.
Proof. revert n. induction a as [|s a IH]; intros n; cbn; [done |]. by destruct (inner n !! s). Qed.

Lemma node_at_default s steps : node_at node_default (s :: steps) = None.
Proof. cbn. by rewrite lookup_empty. Qed.

Lemma insert_at_app n a b m :
  insert_at n (a ++ b) m = insert_at n a (insert_at (default node_default (node_at n a)) b m).
Proof.
  revert n. induction a as [|s a IH]; intros n; cbn; [done |]. rewrite IH. do 3 f_equal.
  destruct (inner n !! s); [done |]. cbn. by destruct a; [| rewrite node_at_default].
Qed.

Lemma node_at_insert n a m b : node_at (insert_at n a m) (a ++ b) = node_at m b.
Proof. revert n. induction a as [|s a IH]; intros n; cbn; [done |]. by rewrite lookup_insert_eq, IH. Qed.

Lemma node_at_insert_eq n a m : node_at (insert_at n a m) a = Some m.
Proof. rewrite <- (app_nil_r a) at 2. by rewrite node_at_insert. Qed.

Lemma diverge_sym a b : diverge a b -> diverge b a.
Proof. intros [? ?]. by split. Qed.

Lemma diverge_nil_l b : ~ diverge [] b.
Proof. intros [H _]. apply H, prefix_nil. Qed.

Lemma diverge_cons s t a b : diverge (s :: a) (t :: b) <-> s <> t \/ diverge a b.
Proof.
  unfold diverge. split.
  - intros [H1 H2]. destruct (decide (s = t)) as [->|]; [right | by left].
    split; intros H; [apply H1 | apply H2]; by apply prefix_cons.
  - intros H. split; intros Hp; pose proof (prefix_cons_inv_1 _ _ _ _ Hp);
      apply prefix_cons_inv_2 in Hp; destruct H as [|[??]]; congruence.
Qed.

Lemma diverge_app_l a b c : diverge a b -> diverge (a ++ c) b.
Proof.
  revert b. induction a as [|s a IH]; intros b H; [by apply diverge_nil_l in H |].
  destruct b as [|t b]; [by apply diverge_sym, diverge_nil_l in H |].
  cbn. apply diverge_cons in H. apply diverge_cons. destruct H; auto.
Qed.

Lemma diverge_app_r a b c : diverge a b -> diverge a (b ++ c).
Proof. intros H. by apply diverge_sym, diverge_app_l, diverge_sym. Qed.

Lemma diverge_app_same p a b : diverge a b -> diverge (p ++ a) (p ++ b).
Proof. intros H. induction p as [|x p IH]; cbn; [done |]. apply diverge_cons. by right. Qed.

(** Two names below the same path. *)
Lemma diverge_snoc p s t : s <> t -> diverge (p ++ [s]) (p ++ [t]).
Proof. intros Hst. apply diverge_app_same, diverge_cons. by left. Qed.

Lemma node_at_insert_diverge n a m b : diverge a b -> node_at (insert_at n a m) b = node_at n b.
Proof.
  revert n b. induction a as [|s a IH]; intros n b H; [by apply diverge_nil_l in H |].
  destruct b as [|t b]; [by apply diverge_sym, diverge_nil_l in H |]. cbn.
  destruct (decide (s = t)) as [->|Hn].
  - rewrite lookup_insert_eq. apply diverge_cons in H as [|H]; [done |]. rewrite IH by done.
    destruct (inner n !! t); [done |]. cbn. destruct b; [by apply diverge_sym, diverge_nil_l in H |].
    by rewrite node_at_default.
  - by rewrite lookup_insert_ne.
Qed.

Lemma prune_cons n s a : a <> [] ->
  prune n (s :: a) =
  match inner n !! s with
  | Some child =>
      match prune child a with
      | Some child =>
          Some (with_inner n
            (if is_default child then base.delete s (inner n) else <[s := child]> (inner n)))
      | None => None
      end
  | None => None
  end.
Proof. by destruct a. Qed.

Lemma node_at_prune_diverge n a n' b : prune n a = Some n' -> diverge a b -> node_at n' b = node_at n b.
Proof.
  revert n n' b. induction a as [|s a IH]; intros n n' b Hp H; [done |].
  destruct b as [|t b]; [by apply diverge_sym, diverge_nil_l in H |].
  destruct a as [|s' a].
  - injection Hp as <-. cbn. apply diverge_cons in H as [H|H]; [| by apply diverge_nil_l in H].
    by rewrite lookup_delete_ne.
  - rewrite prune_cons in Hp by done.
    destruct (inner n !! s) as [c|] eqn:Ec; [| done].
    destruct (prune c (s' :: a)) as [c'|] eqn:Ep; [| done]. injection Hp as <-. cbn.
    destruct (decide (s = t)) as [<-|Hn].
    + apply diverge_cons in H as [|H]; [done |]. rewrite Ec. specialize (IH c c' b Ep H).
      destruct (is_default c') eqn:Ed.
      * apply is_default_true in Ed as ->. rewrite lookup_delete_eq.
        destruct b; [by apply diverge_sym, diverge_nil_l in H |]. by rewrite node_at_default in IH.
      * by rewrite lookup_insert_eq.
    + by destruct (is_default c'); rewrite ?lookup_delete_ne, ?lookup_insert_ne.
Qed.

(** Nothing is left at or below a deleted path. *)
Lemma node_at_prune n a n' b : prune n a = Some n' -> node_at n' (a ++ b) = None.
Proof.
  revert n n'. induction a as [|s a IH]; intros n n' Hp; [done |].
  destruct (decide (a = [])) as [->|Ha].
  - injection Hp as <-. cbn. by rewrite lookup_delete_eq.
  - rewrite prune_cons in Hp by done. destruct (inner n !! s) as [c|] eqn:Ec; [| done].
    destruct (prune c a) as [c'|] eqn:Ep; [| done]. injection Hp as <-. cbn.
    destruct (is_default c'); [by rewrite lookup_delete_eq |]. rewrite lookup_insert_eq. eauto.
Qed.

(** Deleting below a node is deleting in the node, unless this leaves the node empty: then it
    is deleted too. *)
Lemma prune_app n a b : b <> [] ->
  prune n (a ++ b) =
  match node_at n a with
  | Some c =>
      match prune c b with
      | Some c' => if is_default c' && bool_decide (a <> []) then prune n a
                   else Some (insert_at n a c')
      | None => None
      end
  | None => None
  end.
Proof.
  intros Hb. revert n. induction a as [|s a IH]; intros n.
  - cbn. destruct (prune n b); [| done]. by rewrite andb_false_r.
  - cbn [app node_at]. rewrite prune_cons by (by destruct a, b).
    destruct (inner n !! s) as [c0|] eqn:Ec; [| done]. rewrite IH.
    destruct (node_at c0 a) as [c|] eqn:Ea; [| done]. destruct (prune c b) as [c'|]; [| done].
    rewrite (bool_decide_true (s :: a <> [])), andb_true_r by done.
    destruct (decide (a = [])) as [->|Hn].
    + injection Ea as ->. cbn. rewrite andb_false_r. by destruct (is_default c').
    + rewrite (bool_decide_true (a <> [])), andb_true_r by done.
      destruct (is_default c'); [by rewrite prune_cons, Ec |]. cbn. rewrite Ec. cbn.
      destruct a; [done |]. cbn [insert_at]. by rewrite is_default_insert.
Qed.

(** ** The code's loops compute the reference deletion *)
Lemma remove_at_prune n steps last :
  prune n (steps ++ [last]) =
  match remove_at n steps last with
  | None => None
  | Some (n', false) => Some n'
  | Some (n', true) => if bool_decide (steps = []) then Some n' else prune n' steps
  end.
Proof.
  revert n. induction steps as [|s r IH]; intros n; [by cbn; destruct (is_default _) |].
  cbn [app]. rewrite prune_cons by (by destruct r). cbn [remove_at].
  destruct (inner n !! s) as [c|] eqn:Ec; [| done]. rewrite IH.
  rewrite (bool_decide_false (s :: r = [])) by done.
  destruct (remove_at c r last) as [[c' e]|] eqn:Er; [| done].
  destruct (decide (r = [])) as [->|Hr].
  - injection Er as <- <-. cbn [bool_decide]. rewrite bool_decide_true by done.
    set (m := with_inner c _). destruct (is_default m) eqn:Em; rewrite ?Em; [| done].
    cbn. by rewrite delete_insert_eq.
  - rewrite (bool_decide_false (r = [])) by done.
    assert (Hd : is_default c' = false).
    { destruct r as [|s' r]; [done |]. cbn in Er. destruct (inner c !! s'); [| done].
      destruct (remove_at n0 r last) as [[? ?]|]; [| done]. injection Er as <- _. apply is_default_insert. }
    destruct e; [| by rewrite Hd]. rewrite prune_cons by done. cbn [inner with_inner].
    rewrite lookup_insert_eq. destruct (prune c' r) as [c''|]; [| done].
    by destruct (is_default c''); unfold with_inner; cbn; rewrite ?delete_insert_eq, ?insert_insert_eq.
Qed.

Lemma delete_at_prune n steps : delete_at n (rev steps) = default n (prune n steps).
Proof.
  revert n. induction steps as [|last steps IH] using rev_ind; intros n; [done |].
  rewrite rev_app_distr. cbn [rev app delete_at]. rewrite rev_involutive, remove_at_prune.
  destruct (remove_at n steps last) as [[n' [|]]|] eqn:Er; [| done | done]. rewrite IH.
  case_bool_decide as Hs; [by subst steps |]. destruct (prune n' steps) eqn:Ep; [done |].
  exfalso. clear IH. revert n n' Er Ep. induction steps as [|s r IH']; [done |]. intros n n' Er Ep.
  cbn in Er. destruct (inner n !! s) as [c|] eqn:Ec; [| done].
  destruct (remove_at c r last) as [[c' e]|] eqn:Er'; [| done]. injection Er as <- ->.
  destruct (decide (r = [])) as [->|Hr]; [done |]. rewrite prune_cons in Ep by done.
  cbn in Ep. rewrite lookup_insert_eq in Ep. destruct (prune c' r) eqn:Ep'; [done |].
  by eapply IH'.
Qed.

Lemma node_update_insert n steps f :
  node_update n steps f = match node_at n steps with
                          | Some m => Some (insert_at n steps (f m))
                          | None => None
                          end.
Proof.
  revert n. induction steps as [|s steps IH]; intros n; cbn; [done |].
  destruct (inner n !! s) as [c|]; [| done]. rewrite IH. by destruct (node_at c steps).
Qed.

(** ** The operations on nodes *)
Definition set_at (n : Node) (steps : list bytes) (v : bytes) : Node :=
  insert_at n steps (put_value v (default node_default (node_at n steps))).

Definition drop_at (n : Node) (steps : list bytes) : Node :=
  match node_at n steps with Some m => insert_at n steps (drop_value m) | None => n end.

Definition del (n : Node) (steps : list bytes) : Node := default n (prune n steps).

Lemma set_value_durable s p v : set_value s p v = with_durable s (set_at (durable s) (path_steps p) v).
Proof.
  unfold set_value, node_insert, set_at. rewrite node_update_insert.
  by destruct (node_at (durable s) (path_steps p)).
Qed.

Lemma delete_value_durable s p : delete_value s p = with_durable s (drop_at (durable s) (path_steps p)).
Proof.
  unfold delete_value, drop_at. rewrite node_update_insert.
  destruct (node_at (durable s) (path_steps p)); [done | by destruct s].
Qed.

Lemma node_delete_durable s p : node_delete s p = with_durable s (del (durable s) (path_steps p)).
Proof. unfold node_delete. by rewrite delete_at_prune. Qed.

(** ** What is below a path after an operation *)
Lemma subtree_app n a b : subtree n (a ++ b) = subtree (subtree n a) b.
Proof.
  unfold subtree. rewrite node_at_app. destruct (node_at n a); [done |]. cbn.
  destruct b; [done | by rewrite node_at_default].
Qed.

Lemma subtree_default a : subtree node_default a = node_default.
Proof. destruct a; [done |]. unfold subtree. by rewrite node_at_default. Qed.

Lemma subtree_insert n a m : subtree (insert_at n a m) a = m.
Proof. unfold subtree. by rewrite node_at_insert_eq. Qed.

Lemma subtree_insert_below n a b m :
  subtree (insert_at n (a ++ b) m) a = insert_at (subtree n a) b m.
Proof. by rewrite insert_at_app, subtree_insert. Qed.

Lemma subtree_insert_diverge n a m b : diverge a b -> subtree (insert_at n a m) b = subtree n b.
Proof. intros H. unfold subtree. by rewrite node_at_insert_diverge. Qed.

Lemma subtree_set_below n a b v : subtree (set_at n (a ++ b) v) a = set_at (subtree n a) b v.
Proof.
  unfold set_at. change (default node_default (node_at n (a ++ b))) with (subtree n (a ++ b)).
  by rewrite subtree_insert_below, subtree_app.
Qed.

Lemma subtree_set_diverge n a v b : diverge a b -> subtree (set_at n a v) b = subtree n b.
Proof. apply subtree_insert_diverge. Qed.

Lemma drop_at_default b : drop_at node_default b = node_default.
Proof. unfold drop_at. destruct b; [done | by rewrite node_at_default]. Qed.

Lemma subtree_drop_below n a b : subtree (drop_at n (a ++ b)) a = drop_at (subtree n a) b.
Proof.
  unfold drop_at at 1. rewrite node_at_app. unfold subtree at 2. destruct (node_at n a) as [c|] eqn:Ec.
  - cbn. unfold drop_at. destruct (node_at c b) eqn:Em.
    + rewrite subtree_insert_below. unfold subtree. by rewrite Ec.
    + unfold subtree. by rewrite Ec.
  - cbn. rewrite drop_at_default. unfold subtree. by rewrite Ec.
Qed.

Lemma subtree_drop_diverge n a b : diverge a b -> subtree (drop_at n a) b = subtree n b.
Proof. intros H. unfold drop_at. destruct (node_at n a); [by apply subtree_insert_diverge | done]. Qed.

Lemma node_at_del_diverge n a b : diverge a b -> node_at (del n a) b = node_at n b.
Proof. intros H. unfold del. destruct (prune n a) eqn:E; [by apply (node_at_prune_diverge n a) | done]. Qed.

Lemma subtree_del_diverge n a b : diverge a b -> subtree (del n a) b = subtree n b.
Proof. intros H. unfold subtree. by rewrite node_at_del_diverge. Qed.

Lemma prune_exists n a c : a <> [] -> node_at n a = Some c -> is_Some (prune n a).
Proof.
  revert n. induction a as [|s a IH]; intros n Ha Hn; [done |].
  destruct (decide (a = [])) as [->|Ha']; [by eexists |]. rewrite prune_cons by done.
  cbn in Hn. destruct (inner n !! s) as [c0|]; [| done]. destruct (IH c0 Ha' Hn) as [c' ->]. by eexists.
Qed.

Lemma node_at_del n a : a <> [] -> node_at (del n a) a = None.
Proof.
  intros Ha. unfold del. destruct (prune n a) as [n'|] eqn:E; cbn.
  - rewrite <- (app_nil_r a) at 1. by apply (node_at_prune n a).
  - destruct (node_at n a) as [c|] eqn:Ec; [| done].
    destruct (prune_exists n a c Ha Ec) as [n' E']. congruence.
Qed.

Lemma subtree_del n a : a <> [] -> subtree (del n a) a = node_default.
Proof. intros Ha. unfold subtree. by rewrite node_at_del. Qed.

Lemma del_default b : del node_default b = node_default.
Proof.
  unfold del. destruct b as [|x [|y b]]; [done | |].
  - cbn. unfold node_default, with_inner. cbn. by rewrite delete_empty.
  - rewrite prune_cons by done. cbn. by rewrite lookup_empty.
Qed.

Lemma subtree_del_below n a b : a <> [] -> b <> [] ->
  subtree (del n (a ++ b)) a = del (subtree n a) b.
Proof.
  intros Ha Hb. unfold del at 1. rewrite prune_app by done. unfold subtree at 2.
  destruct (node_at n a) as [c|] eqn:Ec; cbn [default from_option id].
  2: { rewrite del_default. unfold subtree. by rewrite Ec. }
  unfold del at 1. destruct (prune c b) as [c'|] eqn:Ep; cbn [default from_option id].
  - rewrite bool_decide_true, andb_true_r by done. destruct (is_default c') eqn:Ed.
    + apply is_default_true in Ed as ->. by apply subtree_del.
    + by apply subtree_insert.
  - unfold subtree. by rewrite Ec.
Qed.

(** A path that leads somewhere is not lost by an operation on a path that diverges. *)
Lemma is_default_set n a v : is_default (set_at n a v) = false.
Proof.
  apply is_default_false. intros E. apply (f_equal (fun n => node_at n a)) in E.
  unfold set_at in E. rewrite node_at_insert_eq in E. destruct a; [done |]. by rewrite node_at_default in E.
Qed.

Lemma insert_at_insert_at n a m1 m2 : insert_at (insert_at n a m1) a m2 = insert_at n a m2.
Proof.
  revert n. induction a as [|s a IH]; intros n; cbn; [done |]. rewrite lookup_insert_eq. cbn.
  rewrite IH. unfold with_inner. cbn. by rewrite insert_insert_eq.
Qed.

(** The last write to a path wins. *)
Lemma set_at_set_at n a v1 v2 : set_at (set_at n a v1) a v2 = set_at n a v2.
Proof.
  unfold set_at at 1 3. rewrite <- (insert_at_insert_at n a (put_value v1 (subtree n a))).
  unfold set_at at 1 2. fold (subtree n a). rewrite insert_at_insert_at, node_at_insert_eq. cbn.
  unfold put_value. cbn. by rewrite insert_insert_eq, insert_at_insert_at.
Qed.

Lemma set_at_drop_at n a v : set_at (drop_at n a) a v = set_at n a v.
Proof.
  unfold set_at, drop_at. destruct (node_at n a) as [m|] eqn:E; [| by rewrite E].
  rewrite insert_at_insert_at, node_at_insert_eq. cbn. unfold put_value, drop_value. cbn.
  by rewrite insert_delete_eq.
Qed.

(** ** Values *)
Definition value_at (n : Node) (steps : list bytes) : option bytes := value (subtree n steps).

Lemma value_at_set n a v : value_at (set_at n a v) a = Some v.
Proof. unfold value_at, set_at. by rewrite subtree_insert. Qed.

Lemma value_at_default a : value_at node_default a = None.
Proof. unfold value_at. by rewrite subtree_default. Qed.

Lemma maybe_get_value_at s p : maybe_get_value s p = value_at (durable s) (path_steps p).
Proof.
  unfold maybe_get_value, node_from_path, value_at, subtree.
  by destruct (node_at (durable s) (path_steps p)).
Qed.

Lemma has_entry_value s p :
  has_entry s p = bool_decide (is_Some (value_at (durable s) (path_steps p))).
Proof.
  unfold has_entry, node_from_path, value_at, subtree.
  by destruct (node_at (durable s) (path_steps p)).
Qed.

Lemma diverge_or_prefix a b : diverge a b \/ (exists r, b = a ++ r) \/ (exists s r, a = b ++ s :: r).
Proof.
  destruct (decide (a `prefix_of` b)) as [[r ->]|Ha]; [right; left; eauto |].
  destruct (decide (b `prefix_of` a)) as [[[|s r] ->]|Hb]; [| by eauto | by left; split].
  destruct Ha. by rewrite app_nil_r.
Qed.

Lemma value_insert_at n s a m : value (insert_at n (s :: a) m) = value n.
Proof. done. Qed.

Lemma value_at_insert_other n a m b : ~ a `prefix_of` b -> value_at (insert_at n a m) b = value_at n b.
Proof.
  intros H. unfold value_at.
  destruct (diverge_or_prefix a b) as [Hd|[[r ->]|(s & r & ->)]].
  - by rewrite subtree_insert_diverge.
  - destruct H. by exists r.
  - by rewrite subtree_insert_below.
Qed.

(** A write changes the value of its path only. *)
Lemma value_at_set_other n a v b : b <> a -> Forall (fun s => s <> VALUE_NAME) b ->
  value_at (set_at n a v) b = value_at n b.
Proof.
  intros Hne Hb. unfold value_at.
  destruct (diverge_or_prefix a b) as [Hd|[[r ->]|(s & r & ->)]].
  - by rewrite subtree_set_diverge.
  - destruct r as [|s r]; [by rewrite app_nil_r in Hne |].
    rewrite !subtree_app. unfold set_at. rewrite subtree_insert.
    apply Forall_app in Hb as [_ [Hs _]%Forall_cons].
    fold (subtree n a). unfold subtree at 1 2. cbn. by rewrite lookup_insert_ne.
  - by rewrite subtree_set_below.
Qed.

Lemma value_prune n a n' : prune n a = Some n' -> value n' = value n.
Proof.
  destruct a as [|s [|s' a]]; [done | by intros [= <-] |]. rewrite prune_cons by done.
  destruct (inner n !! s) as [c|]; [| done]. destruct (prune c _); [| done]. by intros [= <-].
Qed.

(** A deletion removes the values at and below its path and no other. *)
Lemma value_at_del n a b : a <> [] ->
  value_at (del n a) b = if decide (a `prefix_of` b) then None else value_at n b.
Proof.
  intros Ha. unfold value_at. destruct (diverge_or_prefix a b) as [Hd|[[r ->]|(s & r & ->)]].
  - rewrite subtree_del_diverge by done. destruct Hd as [Hd _]. by rewrite decide_False.
  - rewrite decide_True by (by exists r). by rewrite subtree_app, subtree_del, subtree_default.
  - rewrite decide_False.
    2: { intros [r' E]. apply (f_equal length) in E. rewrite !length_app in E. cbn in E. lia. }
    destruct (decide (b = [])) as [->|Hb].
    + unfold del. cbn [app]. destruct (prune n (s :: r)) eqn:E; [| done]. by apply value_prune in E.
    + rewrite subtree_del_below by done. unfold del.
      destruct (prune (subtree n b) (s :: r)) eqn:E; [| done]. by apply value_prune in E.
Qed.

Lemma value_at_drop n a b : Forall (fun s => s <> VALUE_NAME) b ->
  value_at (drop_at n a) b = if decide (b = a) then None else value_at n b.
Proof.
  intros Hb. unfold drop_at. destruct (node_at n a) as [m|] eqn:Em.
  - destruct (decide (b = a)) as [->|Hne]; [unfold value_at; by rewrite subtree_insert |].
    destruct (diverge_or_prefix a b) as [Hd|[[r ->]|(s & r & ->)]].
    + apply value_at_insert_other, Hd.
    + destruct r as [|s r]; [by rewrite app_nil_r in Hne |].
      unfold value_at. rewrite !subtree_app, subtree_insert.
      apply Forall_app in Hb as [_ [Hs _]%Forall_cons].
      unfold subtree at 1 2 3. cbn. rewrite Em. cbn. by rewrite lookup_delete_ne.
    + unfold value_at. by rewrite subtree_insert_below.
  - case_decide as Hba; [| done]. subst. unfold value_at, subtree. by rewrite Em.
Qed.

End SdkStore.
Export SdkStore.
