(* ===== verification/SdkHost.v ===== *)
(** The host functions and the mock host that implements them.

    - Error codes: [src/src/kernel_sdk/core/src/lib.rs], [src/src/kernel_sdk/host/src/lib.rs].
    - The host functions as a class, [SmartRollupCore]
      ([src/src/kernel_sdk/core/src/smart_rollup_core.rs]).  A pointer and a length are a byte
      string; a buffer that is written is a byte string of the result.
    - [InMemoryStore] ([src/src/kernel_sdk/mock/src/state/in_memory_store.rs]) and [HostState]
      ([src/src/kernel_sdk/mock/src/state/mod.rs]).
    - [MockHost] as an instance of the class ([src/src/kernel_sdk/mock/src/host.rs]). *)

From Stdlib Require Import String Ascii.
From stdpp Require Import strings.
From S2P Require Import Prelude SdkPath SdkStore.

Open Scope Z_scope.

Module SdkHost.

Definition MAX_INPUT_MESSAGE_SIZE : Z := 4096.
Definition MAX_OUTPUT_SIZE : Z := 4096.
Definition MAX_FILE_CHUNK_SIZE : Z := 2048.
Definition PREIMAGE_HASH_SIZE : Z := 33.
Definition STORE_KEY_TOO_LARGE : Z := -1.
Definition STORE_INVALID_KEY : Z := -2.
Definition STORE_NOT_A_VALUE : Z := -3.
Definition STORE_INVALID_ACCESS : Z := -4.
Definition STORE_VALUE_SIZE_EXCEEDED : Z := -5.
Definition MEMORY_INVALID_ACCESS : Z := -6.
Definition INPUT_OUTPUT_TOO_LARGE : Z := -7.
Definition GENERIC_INVALID_ACCESS : Z := -8.
Definition STORE_READONLY_VALUE : Z := -9.
Definition STORE_NOT_A_NODE : Z := -10.
Definition FULL_OUTBOX : Z := -11.
Definition VALUE_TYPE_NONE : Z := 0.
Definition VALUE_TYPE_VALUE : Z := 1.
Definition VALUE_TYPE_SUBTREE : Z := 2.
Definition VALUE_TYPE_VALUE_WITH_SUBTREE : Z := 3.

(** [tezos_smart_rollup_host::Error]. *)
Inductive Error : Type :=
| StoreKeyTooLarge
| StoreInvalidKey
| StoreNotAValue
| StoreInvalidAccess
| StoreValueSizeExceeded
| MemoryInvalidAccess
| InputOutputTooLarge
| GenericInvalidAccess
| StoreReadonlyValue
| StoreNotANode
| FullOutbox.

#[export] Instance Error_eq_dec : EqDecision Error.
Proof. solve_decision. Defined.

(** [Error::code]. *)
Definition code (e : Error) : Z :=
  match e with
  | StoreKeyTooLarge => STORE_KEY_TOO_LARGE
  | StoreInvalidKey => STORE_INVALID_KEY
  | StoreNotAValue => STORE_NOT_A_VALUE
  | StoreInvalidAccess => STORE_INVALID_ACCESS
  | StoreValueSizeExceeded => STORE_VALUE_SIZE_EXCEEDED
  | MemoryInvalidAccess => MEMORY_INVALID_ACCESS
  | InputOutputTooLarge => INPUT_OUTPUT_TOO_LARGE
  | GenericInvalidAccess => GENERIC_INVALID_ACCESS
  | StoreReadonlyValue => STORE_READONLY_VALUE
  | StoreNotANode => STORE_NOT_A_NODE
  | FullOutbox => FULL_OUTBOX
  end.

(** [From<i32> for Error]. *)
Definition error_from_i32 (c : Z) : Error :=
  switch c
    [(STORE_KEY_TOO_LARGE, StoreKeyTooLarge); (STORE_INVALID_KEY, StoreInvalidKey);
     (STORE_NOT_A_VALUE, StoreNotAValue); (STORE_VALUE_SIZE_EXCEEDED, StoreValueSizeExceeded);
     (STORE_INVALID_ACCESS, StoreInvalidAccess); (MEMORY_INVALID_ACCESS, MemoryInvalidAccess);
     (INPUT_OUTPUT_TOO_LARGE, InputOutputTooLarge); (GENERIC_INVALID_ACCESS, GenericInvalidAccess);
     (STORE_READONLY_VALUE, StoreReadonlyValue); (STORE_NOT_A_NODE, StoreNotANode);
     (FULL_OUTBOX, FullOutbox)]
    GenericInvalidAccess.

(** [From<i64> for Error]. *)
Definition error_from_i64 (c : Z) : Error :=
  if (- 2 ^ 31 <=? c) && (c <? 2 ^ 31) then error_from_i32 c else GenericInvalidAccess.

(** [Error::wrap]. *)
Definition error_wrap (c : Z) : result Z Error :=
  if 0 <=? c then Ok c else Err (error_from_i32 c).

Lemma error_code_roundtrip e : error_wrap (code e) = Err e.
Proof. by destruct e. Qed.

(** ** The host functions *)
Record ReadInputMessageInfo : Type := mkInfo { info_level : Z; info_id : Z }.

Class SmartRollupCore (H : Type) := {
  core_read_input : H -> Z -> Z * option ReadInputMessageInfo * bytes * H;
  core_write_output : H -> bytes -> Z * H;
  core_store_has : H -> bytes -> Z;
  core_store_read : H -> bytes -> Z -> Z -> Z * bytes;
  core_store_write : H -> bytes -> Z -> bytes -> Z * H;
  core_store_delete : H -> bytes -> Z * H;
  core_store_delete_value : H -> bytes -> Z * H;
  core_store_list_size : H -> bytes -> Z;
  core_store_move : H -> bytes -> bytes -> Z * H;
  core_store_copy : H -> bytes -> bytes -> Z * H;
  core_store_value_size : H -> bytes -> Z;
  core_reveal_metadata : H -> Z * bytes;
  core_reveal_preimage : H -> bytes -> Z -> option (Z * bytes)
}.

(** ** The in-memory store *)

(** [validate_path] of [in_memory_store.rs]. *)
Definition checked_path (s : bytes) : result bytes Error :=
  match try_from s with
  | Err PathTooLong => Err StoreKeyTooLarge
  | Err _ => Err StoreInvalidKey
  | Ok _ => Ok s
  end.

Definition READONLY_PATH_SEGMENT : bytes := ascii_bytes "/readonly/".
Definition READONLY_PREFIX : bytes := ascii_bytes "/readonly".

Definition validate_path_maybe_readonly (s : bytes) : result bytes Error :=
  if (len READONLY_PATH_SEGMENT <? len s)
     && bool_decide (take (length READONLY_PATH_SEGMENT) s = READONLY_PATH_SEGMENT) then
    match try_from (drop (length READONLY_PREFIX) s) with
    | Err PathTooLong => Err StoreKeyTooLarge
    | Err _ => Err StoreInvalidKey
    | Ok _ => Ok s
    end
  else if bool_decide (s = READONLY_PREFIX) then Ok READONLY_PREFIX
  else checked_path s.

Definition handle_store_list_size (st : Store) (prefix : bytes) : result Z Error :=
  match checked_path prefix with
  | Err e => Err e
  | Ok prefix =>
      match node_from_path st prefix with
      | Some n => Ok (Z.of_nat (base.size (inner n)))
      | None => Err StoreNotANode
      end
  end.

Definition handle_store_has (st : Store) (raw_path : bytes) : result Z Error :=
  match checked_path raw_path with
  | Err e => Err e
  | Ok path =>
      let has_value := has_entry st path in
      let list_size := match handle_store_list_size st raw_path with Ok n => n | Err _ => 0 end in
      let has_subvalue := Z.b2z has_value <? list_size in
      Ok (match has_value, has_subvalue with
          | false, false => VALUE_TYPE_NONE
          | true, false => VALUE_TYPE_VALUE
          | false, true => VALUE_TYPE_SUBTREE
          | true, true => VALUE_TYPE_VALUE_WITH_SUBTREE
          end)
  end.

Definition handle_store_read (st : Store) (path : bytes) (offset max_bytes : Z) : result bytes Error :=
  match validate_path_maybe_readonly path with
  | Err e => Err e
  | Ok path =>
      match maybe_get_value st path with
      | None => Err StoreNotAValue
      | Some bytes =>
          if len bytes <? offset then Err StoreInvalidAccess
          else
            let num_bytes := Z.min MAX_FILE_CHUNK_SIZE (Z.min max_bytes (len bytes - offset)) in
            Ok (take (Z.to_nat num_bytes) (drop (Z.to_nat offset) bytes))
      end
  end.

Definition handle_store_write (st : Store) (path : bytes) (offset : Z) (bytes : bytes)
    : result Store Error :=
  if MAX_FILE_CHUNK_SIZE <? len bytes then Err InputOutputTooLarge
  else match checked_path path with
  | Err e => Err e
  | Ok path =>
      let value := match maybe_get_value st path with Some v => v | None => [] end in
      if len value <? offset then Err StoreInvalidAccess
      else
        let value :=
          if (offset <? len value) && (offset + len bytes <=? len value) then
            take (Z.to_nat offset) value ++ bytes ++ drop (Z.to_nat (offset + len bytes)) value
          else take (Z.to_nat offset) value ++ bytes in
        Ok (set_value st path value)
  end.

Definition handle_store_delete (st : Store) (prefix : bytes) : result Store Error :=
  match checked_path prefix with
  | Err e => Err e
  | Ok p => Ok (node_delete st p)
  end.

Definition handle_store_delete_value (st : Store) (prefix : bytes) : result Store Error :=
  match checked_path prefix with
  | Err e => Err e
  | Ok p => Ok (delete_value st p)
  end.

Definition handle_store_move (st : Store) (from_path to_path : bytes) : result Store Error :=
  match checked_path from_path with
  | Err e => Err e
  | Ok from_path =>
      match checked_path to_path with
      | Err e => Err e
      | Ok to_path =>
          match node_from_path st from_path with
          | None => Err StoreNotANode
          | Some from_node => Ok (node_insert (node_delete st from_path) to_path from_node)
          end
      end
  end.

Definition handle_store_copy (st : Store) (from_path to_path : bytes) : result Store Error :=
  match checked_path from_path with
  | Err e => Err e
  | Ok from_path =>
      match checked_path to_path with
      | Err e => Err e
      | Ok to_path =>
          match node_from_path st from_path with
          | None => Err StoreNotANode
          | Some from_node => Ok (node_insert st to_path from_node)
          end
      end
  end.

(** The size is cast to a signed integer of 32 bits. *)
Definition handle_store_value_size (st : Store) (path : bytes) : result Z Error :=
  match checked_path path with
  | Err e => Err e
  | Ok path =>
      match maybe_get_value st path with
      | None => Err StoreNotAValue
      | Some v => Ok (sint 32 (len v))
      end
  end.

(** [unwrap_or_else(Error::code)] on a number, and on an updated state. *)
Definition code_of (r : result Z Error) : Z := match r with Ok c => c | Err e => code e end.

Definition code_and_state {S} (r : result S Error) (s : S) : Z * S :=
  match r with Ok s' => (0, s') | Err e => (code e, s) end.

(** ** The state of the mock host *)
Record RollupMetadata : Type := mkMetadata { raw_rollup_address : bytes; origination_level : Z }.

Record HostState : Type := mkHost {
  store : Store;
  metadata : RollupMetadata;
  curr_level : Z;
  curr_input_id : Z;
  input : list bytes
}.

Definition with_store (h : HostState) (st : Store) : HostState :=
  mkHost st (metadata h) (curr_level h) (curr_input_id h) (input h).

Definition MAX_OUTPUTS_PER_LEVEL : Z := 100.

Definition handle_write_output (h : HostState) (output : bytes) : result HostState Error :=
  if MAX_OUTPUT_SIZE <? len output then Err InputOutputTooLarge
  else if len (outbox_at (store h) (curr_level h)) <? MAX_OUTPUTS_PER_LEVEL then
    Ok (with_store h (outbox_insert (store h) (curr_level h) output))
  else Err FullOutbox.

(** [add_input]: [None] is the panic. *)
Definition add_input (h : HostState) (message : bytes) : option HostState :=
  if MAX_INPUT_MESSAGE_SIZE <? len message then None
  else Some (mkHost (store h) (metadata h) (curr_level h) (curr_input_id h) (input h ++ [message])).

Record NextInput : Type := mkNext { next_level : Z; next_id : Z; next_payload : bytes }.

Definition handle_read_input (h : HostState) (max_bytes : Z) : option NextInput * HostState :=
  (match input h !! Z.to_nat (curr_input_id h) with
   | Some m =>
       Some (mkNext (curr_level h) (wrap 32 (curr_input_id h))
               (take (Z.to_nat (Z.min max_bytes (len m))) m))
   | None => None
   end,
   mkHost (store h) (metadata h) (curr_level h) (curr_input_id h + 1) (input h)).

(** [handle_reveal_preimage]: [None] is the panic of [retrieve_preimage]. *)
Definition handle_reveal_preimage (h : HostState) (hash : bytes) (max_bytes : Z) : option bytes :=
  match retrieve_preimage (store h) hash with
  | Some preimage => Some (if len preimage <? max_bytes then preimage else take (Z.to_nat max_bytes) preimage)
  | None => None
  end.

(** [From<RollupMetadata> for [u8; METADATA_SIZE]]. *)
Definition METADATA_SIZE : Z := 24.

Definition metadata_bytes (m : RollupMetadata) : bytes :=
  raw_rollup_address m ++ rev (le_bytes 4 (origination_level m)).

(** [From<[u8; METADATA_SIZE]> for RollupMetadata]. *)
Definition metadata_of_bytes (bs : bytes) : RollupMetadata :=
  mkMetadata (take 20 bs) (wrap 32 (sint 32 (le_value (rev (drop 20 bs))))).

#[export] Instance MockHost : SmartRollupCore HostState := {
  core_read_input h max_bytes :=
    match handle_read_input h max_bytes with
    | (Some n, h) =>
        (len (next_payload n), Some (mkInfo (sint 32 (next_level n)) (sint 32 (next_id n))),
         next_payload n, h)
    | (None, h) => (0, None, [], h)
    end;
  core_write_output h output := code_and_state (handle_write_output h output) h;
  core_store_has h path := code_of (handle_store_has (store h) path);
  core_store_read h path offset max_bytes :=
    match handle_store_read (store h) path offset max_bytes with
    | Ok bytes => (len bytes, bytes)
    | Err e => (code e, [])
    end;
  core_store_write h path offset bytes :=
    let (c, st) := code_and_state (handle_store_write (store h) path offset bytes) (store h) in
    (c, with_store h st);
  core_store_delete h path :=
    let (c, st) := code_and_state (handle_store_delete (store h) path) (store h) in
    (c, with_store h st);
  core_store_delete_value h path :=
    let (c, st) := code_and_state (handle_store_delete_value (store h) path) (store h) in
    (c, with_store h st);
  core_store_list_size h path := code_of (handle_store_list_size (store h) path);
  core_store_move h from_path to_path :=
    let (c, st) := code_and_state (handle_store_move (store h) from_path to_path) (store h) in
    (c, with_store h st);
  core_store_copy h from_path to_path :=
    let (c, st) := code_and_state (handle_store_copy (store h) from_path to_path) (store h) in
    (c, with_store h st);
  core_store_value_size h path := code_of (handle_store_value_size (store h) path);
  core_reveal_metadata h := (METADATA_SIZE, metadata_bytes (metadata h));
  core_reveal_preimage h hash max_bytes :=
    match handle_reveal_preimage h hash max_bytes with
    | Some bytes => Some (len bytes, bytes)
    | None => None
    end
}.

End SdkHost.
Export SdkHost.
