(* ===== verification/SdkRuntime.v ===== *)
(** The safe host interface of kernels ([src/src/kernel_sdk/host/src/runtime.rs]).

    The trait [Runtime] is the class of the same name; every implementation of the host
    functions implements it ([core_runtime]).  What it promises about the durable storage is
    stated by [RuntimeLaws], on the tree of nodes a host shows. *)

From Stdlib Require Import String Ascii.
From stdpp Require Import strings.
From S2P Require Import Prelude SdkPath SdkStore SdkHost.

Open Scope Z_scope.

Module SdkRuntime.

Inductive RuntimeError : Type :=
| PathNotFound
| StoreListIndexOutOfBounds
| HostErr (e : Error)
| DecodingError.

#[export] Instance RuntimeError_eq_dec : EqDecision RuntimeError.
Proof. solve_decision. Defined.

Inductive ValueType : Type := Value | Subtree | ValueWithSubtree.

#[export] Instance ValueType_eq_dec : EqDecision ValueType.
Proof. solve_decision. Defined.

(** [Message] of [input.rs]. *)
Record Message : Type := mkMessage { msg_level : Z; msg_id : Z; msg_payload : bytes }.

(** The trait, less the reads of the data availability layer and the debug output.  Reading a
    whole value is a loop: [None] when it does not end. *)
Class Runtime (H : Type) := {
  write_output : bytes -> comp H RuntimeError unit;
  read_input : comp H RuntimeError (option Message);
  store_has : H -> Path -> result (option ValueType) RuntimeError;
  store_read : H -> Path -> Z -> Z -> result bytes RuntimeError;
  store_read_slice : H -> Path -> Z -> bytes -> result (Z * bytes) RuntimeError;
  store_read_all : H -> Path -> option (result bytes RuntimeError);
  store_write : Path -> bytes -> Z -> comp H RuntimeError unit;
  store_write_all : Path -> bytes -> comp H RuntimeError unit;
  store_delete : Path -> comp H RuntimeError unit;
  store_delete_value : Path -> comp H RuntimeError unit;
  store_count_subkeys : H -> Path -> result Z RuntimeError;
  store_move : Path -> Path -> comp H RuntimeError unit;
  store_copy : Path -> Path -> comp H RuntimeError unit;
  reveal_preimage : H -> bytes -> bytes -> option (result (Z * bytes) RuntimeError);
  store_value_size : H -> Path -> result Z RuntimeError;
  mark_for_reboot : comp H RuntimeError unit;
  reveal_metadata : H -> RollupMetadata;
  last_run_aborted : H -> result bool RuntimeError;
  upgrade_failed : H -> result bool RuntimeError;
  restart_forced : H -> result bool RuntimeError;
  reboot_left : H -> result Z RuntimeError;
  runtime_version : H -> result bytes RuntimeError
}.

Definition REBOOT_PATH : Path := ascii_bytes "/kernel/env/reboot".
Definition PATH_STUCK_FLAG : Path := ascii_bytes "/readonly/kernel/env/stuck".
Definition PATH_UPGRADE_ERROR_FLAG : Path := ascii_bytes "/readonly/kernel/env/upgrade_error".
Definition PATH_TOO_MANY_REBOOT_FLAG : Path := ascii_bytes "/readonly/kernel/env/too_many_reboot".
Definition PATH_REBOOT_COUNTER : Path := ascii_bytes "/readonly/kernel/env/reboot_counter".
Definition PATH_VERSION : Path := ascii_bytes "/readonly/wasm_version".

(** The bytes of a buffer after a host wrote [bs] at its start. *)
Definition fill (bs buffer : bytes) : bytes := bs ++ drop (length bs) buffer.

(** ** The blanket implementation *)
Section Blanket.
Context {H : Type} {Core : SmartRollupCore H}.

(** The end of a function that only checks the code of a host function. *)
Definition checked (r : Z * H) : outcome H RuntimeError unit :=
  match error_wrap (fst r) with
  | Ok _ => Ret tt (snd r)
  | Err e => Throw (HostErr e) (snd r)
  end.

Definition rt_write_output (output : bytes) : comp H RuntimeError unit :=
  fun h => checked (core_write_output h output).

Definition rt_read_input : comp H RuntimeError (option Message) :=
  fun h =>
    let '(bytes_read, info, buffer, h) := core_read_input h MAX_INPUT_MESSAGE_SIZE in
    match error_wrap bytes_read, info with
    | Err e, _ => Throw (HostErr e) h
    | Ok 0, _ => Ret None h
    | Ok size, Some info =>
        Ret (Some (mkMessage (wrap 32 (info_level info)) (wrap 32 (info_id info))
               (take (Z.to_nat size) buffer))) h
    | Ok _, None => Panic
    end.

Definition rt_store_has (h : H) (path : Path) : result (option ValueType) RuntimeError :=
  match error_wrap (core_store_has h path) with
  | Err e => Err (HostErr e)
  | Ok value_type =>
      switch value_type
        [(VALUE_TYPE_NONE, Ok None); (VALUE_TYPE_VALUE, Ok (Some Value));
         (VALUE_TYPE_SUBTREE, Ok (Some Subtree));
         (VALUE_TYPE_VALUE_WITH_SUBTREE, Ok (Some ValueWithSubtree))]
        (Err (HostErr GenericInvalidAccess))
  end.

Definition check_path_has_value (h : H) (path : Path) : result unit RuntimeError :=
  match rt_store_has h path with
  | Ok (Some Value) | Ok (Some ValueWithSubtree) => Ok tt
  | _ => Err PathNotFound
  end.

Definition check_path_exists (h : H) (path : Path) : result unit RuntimeError :=
  match rt_store_has h path with
  | Ok (Some _) => Ok tt
  | _ => Err PathNotFound
  end.

Definition rt_store_read_slice (h : H) (path : Path) (from_offset : Z) (buffer : bytes)
    : result (Z * bytes) RuntimeError :=
  let (c, bs) := core_store_read h path from_offset (len buffer) in
  match error_wrap c with
  | Ok i => Ok (i, fill bs buffer)
  | Err e => Err (HostErr e)
  end.

(** [store_read]: the buffer is not initialised, only what the host wrote is kept. *)
Definition rt_store_read (h : H) (path : Path) (from_offset max_bytes : Z) : result bytes RuntimeError :=
  match check_path_has_value h path with
  | Err e => Err e
  | Ok tt =>
      let (c, bs) := core_store_read h path from_offset (Z.min MAX_FILE_CHUNK_SIZE max_bytes) in
      match error_wrap c with
      | Ok size => Ok (take (Z.to_nat size) bs)
      | Err e => Err (HostErr e)
      end
  end.

Definition rt_store_value_size (h : H) (path : Path) : result Z RuntimeError :=
  match check_path_exists h path with
  | Err e => Err e
  | Ok tt =>
      match error_wrap (core_store_value_size h path) with
      | Ok size => Ok size
      | Err e => Err (HostErr e)
      end
  end.

(** The loop of [store_read_all]. *)
Fixpoint read_chunks (fuel : nat) (h : H) (path : Path) (length : Z) (buffer : bytes)
    : option (result bytes RuntimeError) :=
  if len buffer <? length then
    match fuel with
    | O => None
    | S fuel =>
        let offset := len buffer in
        let max_length := Z.min MAX_FILE_CHUNK_SIZE (length - offset) in
        let (c, bs) := core_store_read h path offset max_length in
        match error_wrap c with
        | Err e => Some (Err (HostErr e))
        | Ok chunk_size => read_chunks fuel h path length (buffer ++ take (Z.to_nat chunk_size) bs)
        end
    end
  else Some (Ok buffer).

(** [store_read_all]: a round that ends reads at least one byte, so that [length] rounds are
    enough. *)
Definition rt_store_read_all (h : H) (path : Path) : option (result bytes RuntimeError) :=
  match rt_store_value_size h path with
  | Err e => Some (Err e)
  | Ok length => read_chunks (Z.to_nat length) h path length []
  end.

(** The closure [write] of [store_write]. *)
Definition write_chunk (path : Path) (bs : bytes) (offset : Z) : comp H RuntimeError unit :=
  fun h => checked (core_store_write h path offset bs).

(** The loop of [store_write] and the write after it.  A round shortens [src], so that the
    length of [src] bounds the rounds and the first case is not reached. *)
Fixpoint write_chunks (fuel : nat) (path : Path) (src : bytes) (at_offset : Z)
    : comp H RuntimeError unit :=
  if MAX_FILE_CHUNK_SIZE <? len src then
    match fuel with
    | O => fun _ => Panic
    | S fuel =>
        write_chunk path (take (Z.to_nat MAX_FILE_CHUNK_SIZE) src) at_offset ;;;
        write_chunks fuel path (drop (Z.to_nat MAX_FILE_CHUNK_SIZE) src)
          (at_offset + MAX_FILE_CHUNK_SIZE)
    end
  else if bool_decide (src = []) then comp_ret tt
  else write_chunk path src at_offset.

Definition rt_store_write (path : Path) (src : bytes) (at_offset : Z) : comp H RuntimeError unit :=
  if len src <=? MAX_FILE_CHUNK_SIZE then write_chunk path src at_offset
  else write_chunks (length src) path src at_offset.

Definition rt_store_delete_value (path : Path) : comp H RuntimeError unit :=
  fun h => checked (core_store_delete_value h path).

Definition rt_store_write_all (path : Path) (src : bytes) : comp H RuntimeError unit :=
  rt_store_delete_value path ;;; rt_store_write path src 0.

(** [check_path_exists(self, path)?]. *)
Definition require_path (path : Path) : comp H RuntimeError unit :=
  fun h => match check_path_exists h path with Ok tt => Ret tt h | Err e => Throw e h end.

Definition rt_store_delete (path : Path) : comp H RuntimeError unit :=
  require_path path ;;; fun h => checked (core_store_delete h path).

Definition rt_store_count_subkeys (h : H) (path : Path) : result Z RuntimeError :=
  let count := core_store_list_size h path in
  if 0 <=? count then Ok count else Err (HostErr (error_from_i64 count)).

Definition rt_store_move (from_path to_path : Path) : comp H RuntimeError unit :=
  require_path from_path ;;; fun h => checked (core_store_move h from_path to_path).

Definition rt_store_copy (from_path to_path : Path) : comp H RuntimeError unit :=
  require_path from_path ;;; fun h => checked (core_store_copy h from_path to_path).

Definition rt_reveal_preimage (h : H) (hash buffer : bytes) : option (result (Z * bytes) RuntimeError) :=
  match core_reveal_preimage h hash (len buffer) with
  | None => None
  | Some (c, bs) =>
      Some (match error_wrap c with Ok size => Ok (size, fill bs buffer) | Err e => Err (HostErr e) end)
  end.

(** A flag of the read-only part: whether its path has something. *)
Definition flag (h : H) (path : Path) : result bool RuntimeError :=
  match rt_store_has h path with
  | Ok v => Ok (bool_decide (is_Some v))
  | Err e => Err e
  end.

Definition rt_reboot_left (h : H) : result Z RuntimeError :=
  match rt_store_read_slice h PATH_REBOOT_COUNTER 0 (replicate 4 0) with
  | Ok (_, bs) => Ok (le_value bs)
  | Err e => Err e
  end.

#[export] Instance core_runtime : Runtime H := {
  write_output := rt_write_output;
  read_input := rt_read_input;
  store_has := rt_store_has;
  store_read := rt_store_read;
  store_read_slice := rt_store_read_slice;
  store_read_all := rt_store_read_all;
  store_write := rt_store_write;
  store_write_all := rt_store_write_all;
  store_delete := rt_store_delete;
  store_delete_value := rt_store_delete_value;
  store_count_subkeys := rt_store_count_subkeys;
  store_move := rt_store_move;
  store_copy := rt_store_copy;
  reveal_preimage := rt_reveal_preimage;
  store_value_size := rt_store_value_size;
  mark_for_reboot := rt_store_write REBOOT_PATH [0] 0;
  reveal_metadata h := metadata_of_bytes (snd (core_reveal_metadata h));
  last_run_aborted h := flag h PATH_STUCK_FLAG;
  upgrade_failed h := flag h PATH_UPGRADE_ERROR_FLAG;
  restart_forced h := flag h PATH_TOO_MANY_REBOOT_FLAG;
  reboot_left := rt_reboot_left;
  runtime_version h := rt_store_read h PATH_VERSION 0 9
}.

End Blanket.

(** ** What a runtime promises about the durable storage *)

(** What [store_has] says of a node. *)
Definition kind_of (n : Node) : option ValueType :=
  let has_value := bool_decide (is_Some (value n)) in
  match has_value, Z.b2z has_value <? Z.of_nat (base.size (inner n)) with
  | false, false => None
  | true, false => Some Value
  | false, true => Some Subtree
  | true, true => Some ValueWithSubtree
  end.

(** [src] written over [old] from [offset] on. *)
Definition splice (old : bytes) (offset : Z) (src : bytes) : bytes :=
  take (Z.to_nat offset) old ++ src ++ drop (Z.to_nat (offset + len src)) old.

Class RuntimeLaws (H : Type) {R : Runtime H} := {
  (** The tree a host shows, and the longest paths it takes. *)
  view : H -> Node;
  limit : Z;
  limit_max : limit <= PATH_MAX_SIZE;

  law_has h p ps : is_path p ps -> len p <= limit ->
    store_has h p = Ok (kind_of (subtree (view h) ps));

  law_read h p ps offset max_bytes : is_path p ps -> len p <= limit -> 0 <= offset -> 0 <= max_bytes ->
    store_read h p offset max_bytes =
    match value_at (view h) ps with
    | None => Err PathNotFound
    | Some v =>
        if len v <? offset then Err (HostErr StoreInvalidAccess)
        else Ok (take (Z.to_nat (Z.min MAX_FILE_CHUNK_SIZE max_bytes)) (drop (Z.to_nat offset) v))
    end;

  law_read_slice h p ps offset buffer : is_path p ps -> len p <= limit -> 0 <= offset ->
    len buffer <= MAX_FILE_CHUNK_SIZE ->
    store_read_slice h p offset buffer =
    match value_at (view h) ps with
    | None => Err (HostErr StoreNotAValue)
    | Some v =>
        if len v <? offset then Err (HostErr StoreInvalidAccess)
        else
          let bs := take (length buffer) (drop (Z.to_nat offset) v) in
          Ok (len bs, fill bs buffer)
    end;

  law_read_all h p ps v : is_path p ps -> len p <= limit ->
    value_at (view h) ps = Some v -> len v < 2 ^ 31 -> store_read_all h p = Some (Ok v);

  law_read_all_none h p ps : is_path p ps -> len p <= limit -> value_at (view h) ps = None ->
    store_read_all h p =
    Some (Err (if is_default (subtree (view h) ps) then PathNotFound else HostErr StoreNotAValue));

  law_write h p ps src offset : is_path p ps -> len p <= limit -> 0 <= offset ->
    let old := default [] (value_at (view h) ps) in
    if len old <? offset then store_write p src offset h = Throw (HostErr StoreInvalidAccess) h
    else exists h', store_write p src offset h = Ret tt h' /\
                    view h' = set_at (view h) ps (splice old offset src);

  law_write_all h p ps src : is_path p ps -> len p <= limit ->
    exists h', store_write_all p src h = Ret tt h' /\ view h' = set_at (view h) ps src;

  law_delete h p ps : is_path p ps -> len p <= limit ->
    if is_default (subtree (view h) ps) then store_delete p h = Throw PathNotFound h
    else exists h', store_delete p h = Ret tt h' /\ view h' = del (view h) ps;

  law_delete_value h p ps : is_path p ps -> len p <= limit ->
    exists h', store_delete_value p h = Ret tt h' /\ view h' = drop_at (view h) ps;

  law_count h p ps : is_path p ps -> len p <= limit ->
    store_count_subkeys h p =
    match node_at (view h) ps with
    | Some n => Ok (Z.of_nat (base.size (inner n)))
    | None => Err (HostErr StoreNotANode)
    end;

  law_move h p ps q qs : is_path p ps -> len p <= limit -> is_path q qs -> len q <= limit ->
    let n := subtree (view h) ps in
    if is_default n then store_move p q h = Throw PathNotFound h
    else exists h', store_move p q h = Ret tt h' /\ view h' = insert_at (del (view h) ps) qs n;

  law_copy h p ps q qs : is_path p ps -> len p <= limit -> is_path q qs -> len q <= limit ->
    let n := subtree (view h) ps in
    if is_default n then store_copy p q h = Throw PathNotFound h
    else exists h', store_copy p q h = Ret tt h' /\ view h' = insert_at (view h) qs n;

  law_value_size h p ps : is_path p ps -> len p <= limit ->
    store_value_size h p =
    match value_at (view h) ps with
    | Some v =>
        match error_wrap (sint 32 (len v)) with Ok size => Ok size | Err e => Err (HostErr e) end
    | None => Err (if is_default (subtree (view h) ps) then PathNotFound else HostErr StoreNotAValue)
    end
}.

Lemma kind_of_none n : kind_of n = None <-> n = node_default.
Proof.
  unfold kind_of. rewrite <- is_default_true. unfold is_default.
  destruct (value n) as [v|].
  - rewrite bool_decide_true by done. by destruct (_ <? _).
  - rewrite bool_decide_false by (by intros [? ?]). cbn [Z.b2z].
    destruct (Z.ltb_spec 0 (Z.of_nat (base.size (inner n)))) as [Hs|Hs].
    + split; [done |]. intros [_ E%bool_decide_eq_true]%andb_true_iff. rewrite E in Hs.
      rewrite map_size_empty in Hs. lia.
    + split; [| done]. intros _. rewrite !bool_decide_true; try done.
      apply map_size_empty_inv. lia.
Qed.

End SdkRuntime.
Export SdkRuntime.
