(* ===== verification/SdkMock.v ===== *)
(** The mock host keeps the promises of a runtime. *)

From Stdlib Require Import String Ascii.
From stdpp Require Import strings.
From S2P Require Import Prelude SdkPath SdkStore SdkHost SdkRuntime.

Open Scope Z_scope.

Module SdkMock.

(** ** Paths *)
Lemma is_path_validate p ps : is_path p ps -> validate_path p = Ok tt.
Proof. intros Hp. apply validate_path_iff. by exists ps. Qed.

Lemma is_path_checked p ps : is_path p ps -> checked_path p = Ok p.
Proof. intros Hp. unfold checked_path, try_from. by rewrite (is_path_validate p ps). Qed.

Lemma is_path_steps p ps : is_path p ps -> path_steps p = ps.
Proof. intros [Hg _]. by apply path_grammar_steps. Qed.

Lemma is_path_nonnil p ps : is_path p ps -> ps <> [].
Proof. by intros [(_ & ? & _) _]. Qed.

(** A path that may be written is not taken for a path of the read-only part. *)
Lemma is_path_readable p ps : is_path p ps -> validate_path_maybe_readonly p = Ok p.
Proof.
  intros Hp. unfold validate_path_maybe_readonly.
  pose proof Hp as [(-> & Hne & Hs & _) Hr]. pose proof (is_readonly_join ps Hs Hne) as Hro.
  rewrite (bool_decide_false (hd [] ps = _)) in Hro by done. unfold is_readonly in Hro.
  apply orb_false_iff in Hro as [H1 H2].
  change (length READONLY_PATH_SEGMENT) with 10%nat.
  change READONLY_PATH_SEGMENT with (READONLY ++ [PATH_SEPARATOR]).
  change READONLY_PREFIX with READONLY. rewrite H1, H2, andb_false_r. by apply (is_path_checked _ ps).
Qed.

(** ** The handlers *)
Section Handlers.
Context (st : Store) (p : bytes) (ps : list bytes) (Hp : is_path p ps).

Lemma list_size_spec :
  handle_store_list_size st p =
  match node_at (durable st) ps with
  | Some n => Ok (Z.of_nat (base.size (inner n)))
  | None => Err StoreNotANode
  end.
Proof using Hp.
  unfold handle_store_list_size, node_from_path. by rewrite (is_path_checked p ps), (is_path_steps p ps).
Qed.

Lemma has_spec :
  handle_store_has st p =
  Ok (match kind_of (subtree (durable st) ps) with
      | None => VALUE_TYPE_NONE
      | Some Value => VALUE_TYPE_VALUE
      | Some Subtree => VALUE_TYPE_SUBTREE
      | Some ValueWithSubtree => VALUE_TYPE_VALUE_WITH_SUBTREE
      end).
Proof using Hp.
  unfold handle_store_has. rewrite list_size_spec, (is_path_checked p ps) by done.
  rewrite has_entry_value, (is_path_steps p ps) by done. unfold kind_of, value_at, subtree.
  f_equal. destruct (node_at (durable st) ps) as [n|]; cbn [default from_option id]; [| done].
  by destruct (value n) as [v|]; cbn; destruct (_ <? _).
Qed.

Lemma read_spec offset max_bytes :
  handle_store_read st p offset max_bytes =
  match value_at (durable st) ps with
  | None => Err StoreNotAValue
  | Some v =>
      if len v <? offset then Err StoreInvalidAccess
      else Ok (take (Z.to_nat (Z.min MAX_FILE_CHUNK_SIZE (Z.min max_bytes (len v - offset))))
                 (drop (Z.to_nat offset) v))
  end.
Proof using Hp.
  unfold handle_store_read. rewrite (is_path_readable p ps) by done.
  by rewrite maybe_get_value_at, (is_path_steps p ps).
Qed.

Lemma write_spec offset bs : 0 <= offset -> len bs <= MAX_FILE_CHUNK_SIZE ->
  let old := default [] (value_at (durable st) ps) in
  handle_store_write st p offset bs =
  if len old <? offset then Err StoreInvalidAccess
  else Ok (with_durable st (set_at (durable st) ps (splice old offset bs))).
Proof using Hp.
  intros Ho Hb old. unfold handle_store_write.
  destruct (Z.ltb_spec MAX_FILE_CHUNK_SIZE (len bs)); [lia |].
  rewrite (is_path_checked p ps) by done. rewrite maybe_get_value_at, (is_path_steps p ps) by done.
  change (match value_at (durable st) ps with Some v => v | None => [] end) with old.
  destruct (Z.ltb_spec (len old) offset); [done |].
  rewrite set_value_durable, (is_path_steps p ps) by done. do 3 f_equal. unfold splice.
  destruct (Z.ltb_spec offset (len old)), (Z.leb_spec (offset + len bs) (len old)); cbn [andb]; try done;
    rewrite (drop_ge old) by lia; by rewrite app_nil_r.
Qed.

Lemma delete_spec : handle_store_delete st p = Ok (with_durable st (del (durable st) ps)).
Proof using Hp.
  unfold handle_store_delete. rewrite (is_path_checked p ps) by done.
  by rewrite node_delete_durable, (is_path_steps p ps).
Qed.

Lemma delete_value_spec : handle_store_delete_value st p = Ok (with_durable st (drop_at (durable st) ps)).
Proof using Hp.
  unfold handle_store_delete_value. rewrite (is_path_checked p ps) by done.
  by rewrite delete_value_durable, (is_path_steps p ps).
Qed.

Lemma value_size_spec :
  handle_store_value_size st p =
  match value_at (durable st) ps with Some v => Ok (sint 32 (len v)) | None => Err StoreNotAValue end.
Proof using Hp.
  unfold handle_store_value_size. rewrite (is_path_checked p ps) by done.
  by rewrite maybe_get_value_at, (is_path_steps p ps).
Qed.

Lemma copy_spec q qs : is_path q qs ->
  handle_store_copy st p q =
  match node_at (durable st) ps with
  | Some n => Ok (with_durable st (insert_at (durable st) qs n))
  | None => Err StoreNotANode
  end.
Proof using Hp.
  intros Hq. unfold handle_store_copy, node_from_path, node_insert.
  by rewrite (is_path_checked p ps), (is_path_checked q qs), (is_path_steps p ps), (is_path_steps q qs).
Qed.

Lemma move_spec q qs : is_path q qs ->
  handle_store_move st p q =
  match node_at (durable st) ps with
  | Some n => Ok (with_durable st (insert_at (del (durable st) ps) qs n))
  | None => Err StoreNotANode
  end.
Proof using Hp.
  intros Hq. unfold handle_store_move, node_from_path, node_insert.
  rewrite (is_path_checked p ps), (is_path_checked q qs), (is_path_steps p ps), (is_path_steps q qs) by done.
  destruct (node_at (durable st) ps); [| done]. by rewrite node_delete_durable, (is_path_steps p ps).
Qed.

End Handlers.

(** ** The runtime on the mock host *)
Definition mock_view (h : HostState) : Node := durable (store h).

Lemma mock_has h p ps : is_path p ps -> rt_store_has h p = Ok (kind_of (subtree (mock_view h) ps)).
Proof.
  intros Hp. unfold rt_store_has. cbn. rewrite (has_spec (store h) p ps Hp). cbn.
  unfold mock_view. by destruct (kind_of _) as [[]|].
Qed.

Lemma mock_exists h p ps : is_path p ps ->
  check_path_exists h p = if is_default (subtree (mock_view h) ps) then Err PathNotFound else Ok tt.
Proof.
  intros Hp. unfold check_path_exists. rewrite (mock_has h p ps Hp).
  destruct (kind_of _) as [k|] eqn:Ek.
  - replace (is_default _) with false; [done |]. symmetry. apply is_default_false.
    intros E. apply kind_of_none in E. congruence.
  - apply kind_of_none in Ek as ->. done.
Qed.

Lemma mock_has_value h p ps : is_path p ps ->
  check_path_has_value h p =
  match value_at (mock_view h) ps with Some _ => Ok tt | None => Err PathNotFound end.
Proof.
  intros Hp. unfold check_path_has_value. rewrite (mock_has h p ps Hp). unfold kind_of, value_at.
  destruct (value _).
  - rewrite bool_decide_true by done. by destruct (_ <? _).
  - rewrite bool_decide_false by (by intros [? ?]). by destruct (_ <? _).
Qed.

(** A node that is not empty is a node. *)
Lemma node_at_nonempty n ps : is_default (subtree n ps) = false -> node_at n ps = Some (subtree n ps).
Proof. unfold subtree. by destruct (node_at n ps). Qed.

Lemma len_take_drop (v : bytes) offset n :
  0 <= offset <= len v -> 0 <= n -> len (take (Z.to_nat n) (drop (Z.to_nat offset) v)) = Z.min n (len v - offset).
Proof. intros. rewrite length_take, length_drop. lia. Qed.

Lemma mock_read h p ps offset max_bytes : is_path p ps -> 0 <= offset -> 0 <= max_bytes ->
  rt_store_read h p offset max_bytes =
  match value_at (mock_view h) ps with
  | None => Err PathNotFound
  | Some v =>
      if len v <? offset then Err (HostErr StoreInvalidAccess)
      else Ok (take (Z.to_nat (Z.min MAX_FILE_CHUNK_SIZE max_bytes)) (drop (Z.to_nat offset) v))
  end.
Proof.
  intros Hp Ho Hm. unfold rt_store_read. rewrite (mock_has_value h p ps Hp).
  destruct (value_at (mock_view h) ps) as [v|] eqn:Ev; [| done]. cbn -[Z.min].
  rewrite (read_spec (store h) p ps Hp). unfold mock_view in Ev. rewrite Ev.
  destruct (Z.ltb_spec (len v) offset); [done |]. unfold error_wrap.
  destruct (Z.leb_spec 0 (len (take (Z.to_nat (Z.min MAX_FILE_CHUNK_SIZE
    (Z.min (Z.min MAX_FILE_CHUNK_SIZE max_bytes) (len v - offset)))) (drop (Z.to_nat offset) v)))); [| lia].
  f_equal. rewrite Nat2Z.id, firstn_all.
  destruct (Z.le_gt_cases (Z.min MAX_FILE_CHUNK_SIZE max_bytes) (len v - offset)).
  - f_equal. lia.
  - rewrite !take_ge; [done | |]; rewrite length_drop; unfold MAX_FILE_CHUNK_SIZE in *; lia.
Qed.

Lemma mock_read_slice h p ps offset buffer : is_path p ps -> 0 <= offset ->
  len buffer <= MAX_FILE_CHUNK_SIZE ->
  rt_store_read_slice h p offset buffer =
  match value_at (mock_view h) ps with
  | None => Err (HostErr StoreNotAValue)
  | Some v =>
      if len v <? offset then Err (HostErr StoreInvalidAccess)
      else
        let bs := take (length buffer) (drop (Z.to_nat offset) v) in
        Ok (len bs, fill bs buffer)
  end.
Proof.
  intros Hp Ho Hm. unfold rt_store_read_slice. cbn -[Z.min]. rewrite (read_spec (store h) p ps Hp).
  change (durable (store h)) with (mock_view h).
  destruct (value_at (mock_view h) ps) as [v|]; [| done].
  destruct (Z.ltb_spec (len v) offset); [done |].
  replace (take (Z.to_nat (Z.min MAX_FILE_CHUNK_SIZE (Z.min (len buffer) (len v - offset))))
             (drop (Z.to_nat offset) v)) with (take (length buffer) (drop (Z.to_nat offset) v)).
  - unfold error_wrap. destruct (Z.leb_spec 0 (len (take (length buffer) (drop (Z.to_nat offset) v)))); [done | lia].
  - destruct (Z.le_gt_cases (len buffer) (len v - offset)).
    + f_equal. lia.
    + rewrite !take_ge; [done | |]; rewrite length_drop; lia.
Qed.

(** ** Reading a whole value *)
Lemma mock_core_read h p ps v offset : is_path p ps -> value_at (mock_view h) ps = Some v ->
  0 <= offset <= len v ->
  core_store_read h p offset (Z.min MAX_FILE_CHUNK_SIZE (len v - offset)) =
  (Z.min MAX_FILE_CHUNK_SIZE (len v - offset),
   take (Z.to_nat (Z.min MAX_FILE_CHUNK_SIZE (len v - offset))) (drop (Z.to_nat offset) v)).
Proof.
  intros Hp Hv Ho. cbn -[Z.min]. rewrite (read_spec (store h) p ps Hp). unfold mock_view in Hv. rewrite Hv.
  destruct (Z.ltb_spec (len v) offset); [lia |].
  replace (Z.min MAX_FILE_CHUNK_SIZE (Z.min (Z.min MAX_FILE_CHUNK_SIZE (len v - offset)) (len v - offset)))
    with (Z.min MAX_FILE_CHUNK_SIZE (len v - offset)) by lia.
  f_equal. rewrite len_take_drop; unfold MAX_FILE_CHUNK_SIZE; lia.
Qed.

Lemma mock_read_chunks h p ps v : is_path p ps -> value_at (mock_view h) ps = Some v ->
  forall fuel k, (length v - k <= fuel)%nat -> (k <= length v)%nat ->
  read_chunks fuel h p (len v) (take k v) = Some (Ok v).
Proof.
  intros Hp Hv. induction fuel as [|fuel IH]; intros k Hf Hk; cbn -[Z.min];
    rewrite length_take, Nat.min_l by lia;
    destruct (Z.ltb_spec (Z.of_nat k) (len v)) as [Hlt|Hge];
    try (rewrite take_ge by lia; done); [lia |].
  change (core_store_read h p (Z.of_nat k) (Z.min MAX_FILE_CHUNK_SIZE (len v - Z.of_nat k)))
    with (@core_store_read HostState MockHost h p (Z.of_nat k) (Z.min MAX_FILE_CHUNK_SIZE (len v - Z.of_nat k))).
  pose proof (mock_core_read h p ps v (Z.of_nat k) Hp Hv ltac:(lia)) as Hr. cbn -[Z.min] in Hr. rewrite Hr.
  set (c := Z.min MAX_FILE_CHUNK_SIZE (len v - Z.of_nat k)).
  assert (0 < c) by (unfold c, MAX_FILE_CHUNK_SIZE; lia).
  unfold error_wrap. destruct (Z.leb_spec 0 c); [| lia].
  rewrite take_take, Nat.min_id, Nat2Z.id, take_take_drop. apply IH; lia.
Qed.

Lemma mock_value_size h p ps : is_path p ps ->
  rt_store_value_size h p =
  match value_at (mock_view h) ps with
  | Some v => match error_wrap (sint 32 (len v)) with Ok size => Ok size | Err e => Err (HostErr e) end
  | None => Err (if is_default (subtree (mock_view h) ps) then PathNotFound else HostErr StoreNotAValue)
  end.
Proof.
  intros Hp. unfold rt_store_value_size. rewrite (mock_exists h p ps Hp). cbn.
  rewrite (value_size_spec (store h) p ps Hp). change (durable (store h)) with (mock_view h).
  destruct (is_default _) eqn:Ed.
  - apply is_default_true in Ed. unfold value_at. by rewrite Ed.
  - by destruct (value_at (mock_view h) ps).
Qed.

Lemma mock_read_all h p ps v : is_path p ps -> value_at (mock_view h) ps = Some v -> len v < 2 ^ 31 ->
  rt_store_read_all h p = Some (Ok v).
Proof.
  intros Hp Hv Hl. unfold rt_store_read_all. rewrite (mock_value_size h p ps Hp), Hv.
  rewrite sint_small by (unfold in_s; lia). unfold error_wrap.
  destruct (Z.leb_spec 0 (len v)); [| lia]. apply (mock_read_chunks h p ps v Hp Hv _ 0); lia.
Qed.

(** ** Writing in chunks *)
Lemma splice_app old offset a b : 0 <= offset <= len old ->
  splice (splice old offset a) (offset + len a) b = splice old offset (a ++ b).
Proof.
  intros Ho. unfold splice. rewrite length_app.
  assert (Ht : length (take (Z.to_nat offset) old ++ a) = Z.to_nat (offset + len a)).
  { rewrite length_app, length_take. lia. }
  rewrite app_assoc, (app_assoc _ a). rewrite take_app_length' by done.
  rewrite drop_app_ge by lia. rewrite drop_drop, <- !app_assoc. do 4 f_equal. lia.
Qed.

Lemma splice_length old offset a : 0 <= offset <= len old -> offset + len a <= len (splice old offset a).
Proof. intros Ho. unfold splice. rewrite !length_app, length_take. lia. Qed.

Lemma splice_empty a : splice [] 0 a = a.
Proof. unfold splice. by rewrite drop_nil, app_nil_r. Qed.

Lemma mock_write_chunk h p ps offset bs : is_path p ps -> 0 <= offset -> len bs <= MAX_FILE_CHUNK_SIZE ->
  let old := default [] (value_at (mock_view h) ps) in
  write_chunk p bs offset h =
  if len old <? offset then Throw (HostErr StoreInvalidAccess) h
  else Ret tt (with_store h (with_durable (store h) (set_at (mock_view h) ps (splice old offset bs)))).
Proof.
  intros Hp Ho Hb old. unfold write_chunk. cbn. rewrite (write_spec (store h) p ps Hp offset bs Ho Hb).
  change (default [] (value_at (durable (store h)) ps)) with old.
  destruct (len old <? offset); [| done]. cbn. by destruct h.
Qed.

Lemma mock_write_chunks p ps : is_path p ps -> forall fuel src offset h,
  (length src <= fuel)%nat ->
  let old := default [] (value_at (mock_view h) ps) in
  0 <= offset <= len old ->
  exists h', write_chunks fuel p src offset h = Ret tt h' /\
    mock_view h' = if bool_decide (src = []) then mock_view h
                   else set_at (mock_view h) ps (splice old offset src).
Proof.
  intros Hp. induction fuel as [|fuel IH]; intros src offset h Hf old Ho; cbn [write_chunks].
  - destruct src; [| cbn in Hf; lia]. by exists h.
  - destruct (Z.ltb_spec MAX_FILE_CHUNK_SIZE (len src)) as [Hl|Hl].
    + set (c := take (Z.to_nat MAX_FILE_CHUNK_SIZE) src). set (r := drop (Z.to_nat MAX_FILE_CHUNK_SIZE) src).
      assert (Hc : len c = MAX_FILE_CHUNK_SIZE) by (unfold c; rewrite length_take; unfold MAX_FILE_CHUNK_SIZE in *; lia).
      assert (Hr : r <> []).
      { intros E. apply (f_equal length) in E. unfold r in E. rewrite length_drop in E. cbn in E.
        unfold MAX_FILE_CHUNK_SIZE in *. lia. }
      unfold comp_bind. rewrite (mock_write_chunk h p ps offset c Hp) by lia.
      fold old. destruct (Z.ltb_spec (len old) offset); [lia |].
      set (h1 := with_store h _).
      destruct (IH r (offset + MAX_FILE_CHUNK_SIZE) h1) as (h' & E & Hv).
      * unfold r. rewrite length_drop. unfold MAX_FILE_CHUNK_SIZE in *. lia.
      * unfold h1, mock_view. cbn. rewrite value_at_set. cbn. rewrite <- Hc.
        pose proof (splice_length old offset c ltac:(lia)). lia.
      * exists h'. split; [done |]. rewrite Hv. rewrite !bool_decide_false by (by destruct src).
        unfold h1, mock_view. cbn. rewrite value_at_set. cbn. rewrite set_at_set_at.
        rewrite <- Hc, splice_app by lia. unfold c, r. by rewrite take_drop.
    + case_bool_decide as He; [by exists h |].
      rewrite (mock_write_chunk h p ps offset src Hp) by lia. fold old.
      destruct (Z.ltb_spec (len old) offset); [lia |]. eexists. by split.
Qed.

Lemma mock_write h p ps src offset : is_path p ps -> 0 <= offset ->
  let old := default [] (value_at (mock_view h) ps) in
  if len old <? offset then rt_store_write p src offset h = Throw (HostErr StoreInvalidAccess) h
  else exists h', rt_store_write p src offset h = Ret tt h' /\
                  mock_view h' = set_at (mock_view h) ps (splice old offset src).
Proof.
  intros Hp Ho old. unfold rt_store_write. destruct (Z.leb_spec (len src) MAX_FILE_CHUNK_SIZE) as [Hl|Hl].
  - rewrite (mock_write_chunk h p ps offset src Hp Ho Hl). fold old.
    destruct (len old <? offset); [done |]. eexists. by split.
  - destruct (Z.ltb_spec (len old) offset) as [Hlt|Hge].
    + destruct src as [|b src]; [cbn in Hl; unfold MAX_FILE_CHUNK_SIZE in Hl; lia |].
      set (src' := b :: src) in *. unfold src' at 1. cbn [length write_chunks].
      destruct (Z.ltb_spec MAX_FILE_CHUNK_SIZE (len src')); [| lia]. unfold comp_bind.
      rewrite (mock_write_chunk h p ps offset _ Hp Ho) by (rewrite length_take; unfold MAX_FILE_CHUNK_SIZE; lia). fold old.
      by destruct (Z.ltb_spec (len old) offset); [| lia].
    + destruct (mock_write_chunks p ps Hp (length src) src offset h ltac:(lia)) as (h' & E & Hv); [fold old; lia |].
      exists h'. split; [done |]. rewrite Hv, bool_decide_false; [done |]. intros ->. cbn in Hl.
      unfold MAX_FILE_CHUNK_SIZE in Hl. lia.
Qed.

Lemma mock_delete_value h p ps : is_path p ps ->
  rt_store_delete_value p h = Ret tt (with_store h (with_durable (store h) (drop_at (mock_view h) ps))).
Proof. intros Hp. unfold rt_store_delete_value. cbn. by rewrite (delete_value_spec (store h) p ps Hp). Qed.

Lemma mock_write_all h p ps src : is_path p ps -> Forall (fun s => s <> VALUE_NAME) ps ->
  exists h', rt_store_write_all p src h = Ret tt h' /\ mock_view h' = set_at (mock_view h) ps src.
Proof.
  intros Hp Hn. unfold rt_store_write_all, comp_bind. rewrite (mock_delete_value h p ps Hp).
  set (h1 := with_store h _).
  pose proof (mock_write h1 p ps src 0 Hp ltac:(lia)) as Hw. cbn zeta in Hw.
  assert (Hv : value_at (mock_view h1) ps = None).
  { unfold h1, mock_view. cbn. rewrite value_at_drop by done. by rewrite decide_True. }
  rewrite Hv in Hw. cbn in Hw. destruct Hw as (h' & E & Hs). exists h'. split; [done |].
  rewrite Hs, splice_empty. unfold h1, mock_view. cbn. apply set_at_drop_at.
Qed.

Lemma step_ok_not_value s : step_ok s -> s <> VALUE_NAME.
Proof. intros H ->. vm_compute in H. done. Qed.

Lemma is_path_not_value p ps : is_path p ps -> Forall (fun s => s <> VALUE_NAME) ps.
Proof.
  intros [(_ & _ & Hs & _) _]. eapply Forall_impl; [exact Hs |]. intros s. apply step_ok_not_value.
Qed.

(** The end of an operation that requires its path to exist. *)
Lemma mock_require h p ps : is_path p ps ->
  require_path p h =
  if is_default (subtree (mock_view h) ps) then Throw PathNotFound h else Ret tt h.
Proof. intros Hp. unfold require_path. rewrite (mock_exists h p ps Hp). by destruct (is_default _). Qed.

#[export] Program Instance mock_laws : RuntimeLaws HostState := {
  view := mock_view;
  limit := PATH_MAX_SIZE
}.
Next Obligation. lia. Qed.
Next Obligation. intros. by apply mock_has. Qed.
Next Obligation. intros. by apply mock_read. Qed.
Next Obligation. intros. by apply mock_read_slice. Qed.
Next Obligation. intros. by apply (mock_read_all h p ps). Qed.
Next Obligation.
  intros h p ps Hp _ Hv. cbn. unfold rt_store_read_all. by rewrite (mock_value_size h p ps Hp), Hv.
Qed.
Next Obligation. intros h p ps src offset Hp _ Ho. by apply mock_write. Qed.
Next Obligation. intros h p ps src Hp _. apply mock_write_all; [done | by apply (is_path_not_value p)]. Qed.
Next Obligation.
  intros h p ps Hp _. cbn. unfold rt_store_delete, comp_bind. rewrite (mock_require h p ps Hp).
  destruct (is_default _); [done |]. cbn. rewrite (delete_spec (store h) p ps Hp). eexists. by split.
Qed.
Next Obligation. intros h p ps Hp _. eexists. split; [by apply (mock_delete_value h p ps) | done]. Qed.
Next Obligation.
  intros h p ps Hp _. cbn. unfold rt_store_count_subkeys. cbn. rewrite (list_size_spec (store h) p ps Hp).
  change (durable (store h)) with (mock_view h). destruct (node_at (mock_view h) ps); cbn -[error_from_i64]; [| done].
  by destruct (Z.leb_spec 0 (Z.of_nat (base.size (inner n)))); [| lia].
Qed.
Next Obligation.
  intros h p ps q qs Hp _ Hq _. cbn. unfold rt_store_move, comp_bind. rewrite (mock_require h p ps Hp).
  destruct (is_default _) eqn:Ed; [done |]. cbn. rewrite (move_spec (store h) p ps Hp q qs Hq).
  apply node_at_nonempty in Ed. unfold mock_view in *. rewrite Ed. eexists. by split.
Qed.
Next Obligation.
  intros h p ps q qs Hp _ Hq _. cbn. unfold rt_store_copy, comp_bind. rewrite (mock_require h p ps Hp).
  destruct (is_default _) eqn:Ed; [done |]. cbn. rewrite (copy_spec (store h) p ps Hp q qs Hq).
  apply node_at_nonempty in Ed. unfold mock_view in *. rewrite Ed. eexists. by split.
Qed.
Next Obligation. intros h p ps Hp _. by apply mock_value_size. Qed.

End SdkMock.
Export SdkMock.

(** The operations of a runtime that change the durable storage, as data, and their effect on
    the tree a runtime shows. *)
Module SdkOps.

Inductive StoreOp : Type :=
| OWrite (p : Path) (src : bytes) (offset : Z)
| OWriteAll (p : Path) (src : bytes)
| ODelete (p : Path)
| ODeleteValue (p : Path)
| OMove (p q : Path)
| OCopy (p q : Path).

(** The paths an operation changes. *)
Definition op_paths (o : StoreOp) : list Path :=
  match o with
  | OWrite p _ _ | OWriteAll p _ | ODelete p | ODeleteValue p => [p]
  | OMove p q | OCopy p q => [p; q]
  end.

(** An operation on legal paths of at most [l] bytes. *)
Definition op_ok (l : Z) (o : StoreOp) : Prop :=
  Forall (fun p => (exists ps, is_path p ps) /\ len p <= l) (op_paths o) /\
  match o with OWrite _ _ offset => 0 <= offset | _ => True end.

Definition effect (o : StoreOp) (n : Node) : Node :=
  match o with
  | OWrite p src offset =>
      let old := default [] (value_at n (path_steps p)) in
      if len old <? offset then n else set_at n (path_steps p) (splice old offset src)
  | OWriteAll p src => set_at n (path_steps p) src
  | ODelete p => if is_default (subtree n (path_steps p)) then n else del n (path_steps p)
  | ODeleteValue p => drop_at n (path_steps p)
  | OMove p q =>
      let m := subtree n (path_steps p) in
      if is_default m then n else insert_at (del n (path_steps p)) (path_steps q) m
  | OCopy p q =>
      let m := subtree n (path_steps p) in
      if is_default m then n else insert_at n (path_steps q) m
  end.

Definition effects (os : list StoreOp) (n : Node) : Node := fold_left (fun n o => effect o n) os n.

Section Exec.
Context {H : Type} {R : Runtime H}.

Definition exec (o : StoreOp) : comp H RuntimeError unit :=
  match o with
  | OWrite p src offset => store_write p src offset
  | OWriteAll p src => store_write_all p src
  | ODelete p => store_delete p
  | ODeleteValue p => store_delete_value p
  | OMove p q => store_move p q
  | OCopy p q => store_copy p q
  end.

(** The state a sequence of operations leaves, whatever their results; [None] is a panic. *)
Fixpoint exec_all (os : list StoreOp) (h : H) : option H :=
  match os with
  | [] => Some h
  | o :: os =>
      match exec o h with
      | Ret _ h | Throw _ h => exec_all os h
      | Panic => None
      end
  end.

Context {L : RuntimeLaws H}.

Lemma exec_effect o h : op_ok limit o ->
  exists h', (exec o h = Ret tt h' \/ exists e, exec o h = Throw e h') /\ view h' = effect o (view h).
Proof.
  intros [Hp Ho]. destruct o as [p src off|p src|p|p|p q|p q]; cbn [op_paths] in Hp; cbn [exec effect];
    apply Forall_cons in Hp as [[[ps Hps] Hl] Hq]; rewrite (is_path_steps p ps Hps).
  - pose proof (law_write h p ps src off Hps Hl Ho) as Hw. cbn zeta in Hw.
    destruct (_ <? off); [rewrite Hw; eauto 6 |]. destruct Hw as (h' & -> & Hv). eauto.
  - destruct (law_write_all h p ps src Hps Hl) as (h' & -> & Hv). eauto.
  - pose proof (law_delete h p ps Hps Hl) as Hw.
    destruct (is_default _); [rewrite Hw; eauto 6 |]. destruct Hw as (h' & -> & Hv). eauto.
  - destruct (law_delete_value h p ps Hps Hl) as (h' & -> & Hv). eauto.
  - apply Forall_cons in Hq as [[[qs Hqs] Hlq] _]. rewrite (is_path_steps q qs Hqs).
    pose proof (law_move h p ps q qs Hps Hl Hqs Hlq) as Hw. cbn zeta in Hw. cbn zeta.
    destruct (is_default _); [rewrite Hw; eauto 6 |]. destruct Hw as (h' & -> & Hv). eauto.
  - apply Forall_cons in Hq as [[[qs Hqs] Hlq] _]. rewrite (is_path_steps q qs Hqs).
    pose proof (law_copy h p ps q qs Hps Hl Hqs Hlq) as Hw. cbn zeta in Hw. cbn zeta.
    destruct (is_default _); [rewrite Hw; eauto 6 |]. destruct Hw as (h' & -> & Hv). eauto.
Qed.

Lemma exec_all_effects os : forall h, Forall (op_ok limit) os ->
  exists h', exec_all os h = Some h' /\ view h' = effects os (view h).
Proof.
  induction os as [|o os IH]; intros h Hos; cbn; [by exists h |].
  apply Forall_cons in Hos as [Ho Hos].
  destruct (exec_effect o h Ho) as (h1 & [-> | [e ->]] & Hv);
    destruct (IH h1 Hos) as (h2 & E & Hv2); exists h2; by rewrite E, Hv2, Hv.
Qed.

End Exec.

(** An operation on paths below [a] does not change what diverges from [a]. *)
Lemma effect_frame o n a q :
  Forall (fun p => exists r, path_steps p = a ++ r) (op_paths o) -> diverge a q ->
  subtree (effect o n) q = subtree n q.
Proof.
  intros Hp Hq. destruct o; cbn [op_paths] in Hp; cbn [effect];
    apply Forall_cons in Hp as [[r Hr] Hp2]; rewrite Hr;
    assert (Hd : diverge (a ++ r) q) by (by apply diverge_app_l).
  - cbn zeta. destruct (_ <? _); [done |]. by apply subtree_set_diverge.
  - by apply subtree_set_diverge.
  - destruct (is_default _); [done |]. by apply subtree_del_diverge.
  - by apply subtree_drop_diverge.
  - apply Forall_cons in Hp2 as [[r2 Hr2] _]. rewrite Hr2. cbn zeta. destruct (is_default _); [done |].
    rewrite subtree_insert_diverge by (by apply diverge_app_l). by apply subtree_del_diverge.
  - apply Forall_cons in Hp2 as [[r2 Hr2] _]. rewrite Hr2. cbn zeta. destruct (is_default _); [done |].
    by rewrite subtree_insert_diverge by (by apply diverge_app_l).
Qed.

Lemma effects_frame os a q : forall n,
  Forall (fun o => Forall (fun p => exists r, path_steps p = a ++ r) (op_paths o)) os -> diverge a q ->
  subtree (effects os n) q = subtree n q.
Proof.
  induction os as [|o os IH]; intros n Hos Hq; cbn; [done |]. apply Forall_cons in Hos as [Ho Hos].
  fold (effects os (effect o n)). rewrite IH by done. by apply (effect_frame o n a).
Qed.

End SdkOps.
Export SdkOps.
