(* ===== verification/SdkStorage.v ===== *)
(** Transactional storage ([src/src/kernel_sdk/storage/src/layer.rs], [storage.rs]).

    A storage is a stack of layers: each layer is a path of the durable storage, the bottom
    one holds the original values, and a transaction works on a copy of the layer below it.
    The last layer of the list is the top. *)

From Stdlib Require Import String Ascii.
From stdpp Require Import strings.
From S2P Require Import Prelude SdkPath SdkStore SdkHost SdkRuntime.

Open Scope Z_scope.

Module SdkStorage.

(** ** Formatting: the decimal digits of an unsigned integer *)
Fixpoint dec_digits (fuel : nat) (z : Z) : bytes :=
  if z <? 10 then [48 + z]
  else match fuel with
       | O => []
       | S fuel => dec_digits fuel (z / 10) ++ [48 + z mod 10]
       end.

(** [format!("{}", z)]: a division by ten takes at least one bit, so that the logarithm of
    [z] bounds the number of digits. *)
Definition decimal (z : Z) : bytes := dec_digits (Z.to_nat (Z.log2 z)) z.

(** [String::from_utf8] *)
Definition cont (b : Z) : bool := (128 <=? b) && (b <=? 191).
Definition between (lo hi b : Z) : bool := (lo <=? b) && (b <=? hi).

Fixpoint utf8_valid (bs : bytes) : bool :=
  match bs with
  | [] => true
  | a :: bs =>
      if a <? 128 then utf8_valid bs
      else match bs with
      | [] => false
      | b :: bs =>
          if between 194 223 a then cont b && utf8_valid bs
          else match bs with
          | [] => false
          | c :: bs =>
              if a =? 224 then between 160 191 b && cont c && utf8_valid bs
              else if a =? 237 then between 128 159 b && cont c && utf8_valid bs
              else if between 225 239 a then cont b && cont c && utf8_valid bs
              else match bs with
              | [] => false
              | d :: bs =>
                  if a =? 240 then between 144 191 b && cont c && cont d && utf8_valid bs
                  else if between 241 243 a then cont b && cont c && cont d && utf8_valid bs
                  else if a =? 244 then between 128 143 b && cont c && cont d && utf8_valid bs
                  else false
              end
          end
      end
  end.

(** [StorageError] of [storage/src/lib.rs]. *)
Inductive StorageError : Type :=
| InvalidAccountsPath
| StorageInUse
| NoStorage
| NoCurrentTransaction
| PathErr (e : PathError)
| RuntimeErr (e : RuntimeError).

(** [map_err(StorageError::from)]. *)
Definition runtime_err {H A} (o : outcome H RuntimeError A) : outcome H StorageError A :=
  match o with
  | Ret a h => Ret a h
  | Throw e h => Throw (RuntimeErr e) h
  | Panic => Panic
  end.

Section Layers.
Context {H : Type} {R : Runtime H} {T : Type} (object : Path -> T).

(** [Layer]: its path; [with_path] makes the bottom layer. *)
Definition Layer : Type := Path.

Definition with_path (name : Path) : Layer := name.

Definition has_subtree_res (v : result (option ValueType) RuntimeError) : bool :=
  match v with
  | Ok (Some Subtree) | Ok (Some ValueWithSubtree) => true
  | _ => false
  end.

Definition force_make_copy (self : Layer) (name : Path) : comp H StorageError Layer :=
  fun h =>
    match store_copy self name h with
    | Ret tt h => Ret name h
    | Throw PathNotFound h => Ret name h
    | Throw e h => Throw (RuntimeErr e) h
    | Panic => Panic
    end.

Definition layer_consume (self layer : Layer) : comp H StorageError unit :=
  fun h =>
    match store_has h layer with
    | Ok (Some _) => runtime_err (store_move layer self h)
    | _ =>
        match store_has h self with
        | Ok (Some _) => runtime_err (store_delete self h)
        | _ => Ret tt h
        end
    end.

Definition layer_create_new (self : Layer) (h : H) (id : Path) : result (option T) StorageError :=
  match concat self id with
  | Err e => Err (PathErr e)
  | Ok account_path =>
      if has_subtree_res (store_has h account_path) then Ok None else Ok (Some (object account_path))
  end.

Definition layer_get (self : Layer) (h : H) (id : Path) : result (option T) StorageError :=
  match concat self id with
  | Err e => Err (PathErr e)
  | Ok account_path =>
      if has_subtree_res (store_has h account_path) then Ok (Some (object account_path)) else Ok None
  end.

Definition layer_get_or_create (self : Layer) (id : Path) : result T StorageError :=
  match concat self id with
  | Err e => Err (PathErr e)
  | Ok account_path => Ok (object account_path)
  end.

Definition layer_delete (self : Layer) (id : Path) : comp H StorageError unit :=
  fun h =>
    match concat self id with
    | Err e => Throw (PathErr e) h
    | Ok account_path => runtime_err (store_delete account_path h)
    end.

Definition layer_discard (self : Layer) : comp H StorageError unit :=
  fun h =>
    match store_has h self with
    | Ok (Some _) => runtime_err (store_delete self h)
    | _ => Ret tt h
    end.

(** ** The storage *)
Record Storage : Type := mkStorage { prefix : bytes; layers : list Layer }.

Definition storage_init (name : Path) : result Storage StorageError :=
  if utf8_valid name then Ok (mkStorage name [with_path name]) else Err InvalidAccountsPath.

Definition storage_get (s : Storage) (h : H) (id : Path) : result (option T) StorageError :=
  match last (layers s) with
  | Some top_layer => layer_get top_layer h id
  | None => Err NoStorage
  end.

Definition storage_get_original (s : Storage) (h : H) (id : Path) : result (option T) StorageError :=
  match head (layers s) with
  | Some bottom_layer => layer_get bottom_layer h id
  | None => Err NoStorage
  end.

Definition storage_create_new (s : Storage) (h : H) (id : Path) : result (option T) StorageError :=
  match last (layers s) with
  | Some top_layer => layer_create_new top_layer h id
  | None => Err NoStorage
  end.

Definition storage_get_or_create (s : Storage) (id : Path) : result T StorageError :=
  match last (layers s) with
  | Some top_layer => layer_get_or_create top_layer id
  | None => Err NoStorage
  end.

Definition storage_delete (s : Storage) (id : Path) : comp H StorageError unit :=
  match last (layers s) with
  | Some top_layer => layer_delete top_layer id
  | None => comp_throw NoStorage
  end.

(** The name of the layer at an index, [{prefix}.{index}]. *)
Definition layer_name (prefix : bytes) (index : Z) : bytes := prefix ++ [46] ++ decimal index.

(** A computation on the host while the storage is as given. *)
Definition on_host {A} (s : Storage) (o : outcome H StorageError A) : outcome (Storage * H) StorageError A :=
  match o with
  | Ret a h => Ret a (s, h)
  | Throw e h => Throw e (s, h)
  | Panic => Panic
  end.

Definition begin_transaction : comp (Storage * H) StorageError unit :=
  fun '(s, h) =>
    let new_layer_index := len (layers s) + 1 in
    match last (layers s) with
    | None => Throw NoStorage (s, h)
    | Some top =>
        match try_from (layer_name (prefix s) new_layer_index) with
        | Err e => Throw (PathErr e) (s, h)
        | Ok new_layer_path =>
            match force_make_copy top new_layer_path h with
            | Ret new_top h => Ret tt (mkStorage (prefix s) (layers s ++ [new_top]), h)
            | Throw e h => Throw e (s, h)
            | Panic => Panic
            end
        end
    end.

Definition pop {A} (l : list A) : list A := take (length l - 1) l.

(** The top layer is taken off before it is merged. *)
Definition commit_transaction : comp (Storage * H) StorageError unit :=
  fun '(s, h) =>
    if 1 <? len (layers s) then
      let s' := mkStorage (prefix s) (pop (layers s)) in
      match last (layers s), last (layers s') with
      | Some top, Some below => on_host s' (layer_consume below top h)
      | _, _ => Panic
      end
    else Throw NoCurrentTransaction (s, h).

Definition rollback_transaction : comp (Storage * H) StorageError unit :=
  fun '(s, h) =>
    if 1 <? len (layers s) then
      match last (layers s) with
      | Some top => on_host (mkStorage (prefix s) (pop (layers s))) (layer_discard top h)
      | None => Panic
      end
    else Throw NoCurrentTransaction (s, h).

Definition stack_depth (s : Storage) : Z := len (layers s) - 1.

End Layers.

End SdkStorage.
Export SdkStorage.
