(* ===== verification/SdkTxn.v ===== *)
(** Transactions: a storage behaves as a stack of trees.

    [spec_step] is the abstract storage: a list of trees, bottom first, which a transaction
    grows by a copy of its top, which a commit shrinks by dropping the tree below the top and
    a rollback by dropping the top.  The paths of the layers, the copies, the moves and the
    deletions of the code implement it: [step_refines]. *)

From Stdlib Require Import String Ascii.
From stdpp Require Import strings.
From S2P Require Import Prelude SdkPath SdkStore SdkHost SdkRuntime SdkMock SdkStorage.

Open Scope Z_scope.

Module SdkTxn.

(** ** Decimal digits *)
Definition undecimal (bs : bytes) : Z := fold_left (fun a b => a * 10 + (b - 48)) bs 0.

Lemma undec_digits fuel z : 0 <= z -> (Z.log2 z <= Z.of_nat fuel) -> undecimal (dec_digits fuel z) = z.
Proof.
  revert z. induction fuel as [|fuel IH]; intros z Hz Hf; cbn [dec_digits].
  - destruct (Z.ltb_spec z 10) as [H|H]; [unfold undecimal; cbn [fold_left]; lia |].
    assert (3 <= Z.log2 z) by (apply (Z.log2_le_pow2 z 3); lia). lia.
  - destruct (Z.ltb_spec z 10) as [H|H]; [unfold undecimal; cbn [fold_left]; lia |].
    unfold undecimal. rewrite fold_left_app. cbn [fold_left].
    fold (undecimal (dec_digits fuel (z / 10))). rewrite IH.
    + pose proof (Z.div_mod z 10). lia.
    + apply Z.div_pos; lia.
    + assert (z / 10 <= z / 2) by (apply Z.div_le_compat_l; lia).
      assert (Z.log2 (z / 10) <= Z.log2 (z / 2)) by (by apply Z.log2_le_mono).
      assert (Z.log2 (z / 2) = Z.log2 z - 1).
      { change (z / 2) with (z / 2 ^ 1). rewrite <- (Z.shiftr_div_pow2 z 1) by lia. rewrite Z.log2_shiftr by lia.
        assert (3 <= Z.log2 z) by (apply (Z.log2_le_pow2 z 3); lia). lia. }
      lia.
Qed.

Lemma undecimal_decimal z : 0 <= z -> undecimal (decimal z) = z.
Proof. intros Hz. apply undec_digits; [done |]. pose proof (Z.log2_nonneg z). lia. Qed.

Lemma decimal_inj a b : 0 <= a -> 0 <= b -> decimal a = decimal b -> a = b.
Proof. intros Ha Hb E. by rewrite <- (undecimal_decimal a), <- (undecimal_decimal b), E. Qed.

Lemma digit_allowed d : 0 <= d < 10 -> is_allowed_step_byte (48 + d) = true.
Proof.
  intros Hd. unfold is_allowed_step_byte, is_ascii_alphanumeric.
  destruct (Z.leb_spec 48 (48 + d)), (Z.leb_spec (48 + d) 57); done || lia.
Qed.

Lemma dec_digits_allowed fuel z : 0 <= z -> forallb is_allowed_step_byte (dec_digits fuel z) = true.
Proof.
  revert z. induction fuel as [|fuel IH]; intros z Hz; cbn [dec_digits];
    (destruct (Z.ltb_spec z 10) as [H|H]; [cbn; by rewrite digit_allowed by lia |]); [done |].
  rewrite forallb_app, IH by (apply Z.div_pos; lia). cbn. rewrite digit_allowed; [done |].
  apply Z.mod_pos_bound. lia.
Qed.

Lemma decimal_nonnil z : 0 <= z -> decimal z <> [].
Proof.
  intros Hz E. unfold decimal in E. destruct (Z.to_nat (Z.log2 z)) as [|f] eqn:Ef; cbn in E;
    destruct (Z.ltb_spec z 10) as [H|H]; try done.
  - assert (3 <= Z.log2 z) by (apply (Z.log2_le_pow2 z 3); lia). lia.
  - by apply app_nil in E as [_ ?].
Qed.

(** ** The paths of the layers *)
Definition suffix_of (i : nat) : bytes :=
  match i with O => [] | S _ => [46] ++ decimal (Z.of_nat i + 1) end.

Definition layer_path (P : bytes) (i : nat) : Path := P ++ suffix_of i.

Definition layer_steps (ps : list bytes) (i : nat) : list bytes :=
  take (length ps - 1) ps ++ [List.last ps [] ++ suffix_of i].

Lemma suffix_allowed i : forallb is_allowed_step_byte (suffix_of i) = true.
Proof. destruct i; [done |]. cbn -[decimal]. apply dec_digits_allowed. lia. Qed.

Lemma suffix_inj i j : suffix_of i = suffix_of j -> i = j.
Proof.
  destruct i, j; cbn -[decimal Z.of_nat]; try done. intros [= E].
  apply decimal_inj in E; lia.
Qed.

Lemma layer_name_path P n : (0 < n)%nat -> layer_name P (Z.of_nat n + 1) = layer_path P n.
Proof. intros Hn. destruct n; [lia |]. done. Qed.

Lemma steps_snoc (ps : list bytes) : ps <> [] -> ps = take (length ps - 1) ps ++ [List.last ps []].
Proof.
  intros Hne. destruct (exists_last Hne) as (init & l & ->). rewrite length_app, last_last. cbn [length].
  rewrite Nat.add_sub, take_app_length. done.
Qed.

Section Paths.
Context (P : bytes) (ps : list bytes) (HP : is_path P ps).

Lemma layer_path_join i : layer_path P i = join (layer_steps ps i).
Proof using HP.
  destruct HP as [(-> & Hne & _ & _) _]. unfold layer_path, layer_steps. rewrite join_app.
  rewrite (steps_snoc ps Hne) at 1. rewrite join_app, <- app_assoc. f_equal. unfold join. cbn.
  by rewrite !app_nil_r.
Qed.

Lemma layer_steps_ok i : Forall step_ok (layer_steps ps i).
Proof using HP.
  destruct HP as [(_ & Hne & Hs & _) _]. unfold layer_steps. rewrite (steps_snoc ps Hne) in Hs.
  apply Forall_app in Hs as [H1 [H2 _]%Forall_cons]. apply Forall_app. split; [done |].
  constructor; [| done]. apply Is_true_true, andb_true_iff in H2 as [H2%bool_decide_eq_true H3].
  unfold step_ok. rewrite bool_decide_true by (intros [? _]%app_nil; done).
  by rewrite forallb_app, H3, suffix_allowed.
Qed.

Lemma layer_steps_nonnil i : layer_steps ps i <> [].
Proof. unfold layer_steps. by intros [_ ?]%app_nil. Qed.

Lemma layer_not_readonly i : hd [] (layer_steps ps i) <> ascii_bytes "readonly".
Proof using HP.
  destruct HP as [(_ & Hne & Hs & _) Hr]. unfold layer_steps. intros E.
  rewrite (steps_snoc ps Hne) in Hr. destruct (take (length ps - 1) ps); [| done].
  cbn [app hd] in E, Hr. destruct i; [by rewrite app_nil_r in E |].
  assert (Hin : In 46 (ascii_bytes "readonly")) by (rewrite <- E; apply in_or_app; right; by left).
  vm_compute in Hin. repeat destruct Hin as [Hin|Hin]; done.
Qed.

Lemma layer_is_path i : len (layer_path P i) <= PATH_MAX_SIZE -> is_path (layer_path P i) (layer_steps ps i).
Proof using HP.
  intros Hl. repeat split; try done.
  - apply layer_path_join.
  - apply layer_steps_nonnil.
  - apply layer_steps_ok.
  - apply layer_not_readonly.
Qed.

Lemma layers_diverge i j : i <> j -> diverge (layer_steps ps i) (layer_steps ps j).
Proof.
  intros Hij. apply diverge_snoc. intros E. apply app_inv_head in E. by apply suffix_inj in E.
Qed.

End Paths.

(** ** The abstract storage *)
Inductive Cmd : Type :=
| CBegin
| CCommit
| CRollback
| CGet (id : Path)
| CGetOriginal (id : Path)
| CCreate (id : Path)
| CDelete (id : Path)
| CPut (id field : Path) (v : bytes)
| CFetch (id field : Path) (offset max_bytes : Z).

Inductive Answer : Type :=
| AUnit
| AObject (o : option Path)
| ABytes (bs : bytes)
| AErr (e : StorageError).

(** The paths a command names, and its offsets, are legal. *)
Definition cmd_ok (c : Cmd) : Prop :=
  match c with
  | CBegin | CCommit | CRollback => True
  | CGet id | CGetOriginal id | CCreate id | CDelete id => exists ids, is_path id ids
  | CPut id field _ => (exists ids, is_path id ids) /\ (exists fs, is_path field fs)
  | CFetch id field offset max_bytes =>
      (exists ids, is_path id ids) /\ (exists fs, is_path field fs) /\ 0 <= offset /\ 0 <= max_bytes
  end.

(** The path of an object, or of a field of it, in a layer. *)
Definition object_path (layer id : Path) (f : Path -> Answer * list Node) (stk : list Node)
    : Answer * list Node :=
  match concat layer id with
  | Err e => (AErr (PathErr e), stk)
  | Ok p => f p
  end.

(** Whether an object has something below it. *)
Definition has_object (n : Node) (ids : list bytes) : bool :=
  has_subtree_res (Ok (kind_of (subtree n ids))).

Definition spec_step (P : bytes) (c : Cmd) (stk : list Node) : Answer * list Node :=
  let below := pop stk in
  let top := List.last stk node_default in
  let top_path := layer_path P (length below) in
  match c with
  | CBegin =>
      if PATH_MAX_SIZE <? len (layer_path P (length stk)) then (AErr (PathErr PathTooLong), stk)
      else (AUnit, stk ++ [top])
  | CCommit => if 1 <? len stk then (AUnit, pop below ++ [top]) else (AErr NoCurrentTransaction, stk)
  | CRollback => if 1 <? len stk then (AUnit, below) else (AErr NoCurrentTransaction, stk)
  | CGet id =>
      object_path top_path id
        (fun p => (AObject (if has_object top (path_steps id) then Some p else None), stk)) stk
  | CGetOriginal id =>
      object_path P id
        (fun p => (AObject (if has_object (hd node_default stk) (path_steps id) then Some p else None), stk)) stk
  | CCreate id =>
      object_path top_path id
        (fun p => (AObject (if has_object top (path_steps id) then None else Some p), stk)) stk
  | CDelete id =>
      object_path top_path id
        (fun p => if is_default (subtree top (path_steps id)) then (AErr (RuntimeErr PathNotFound), stk)
                  else (AUnit, below ++ [del top (path_steps id)])) stk
  | CPut id field v =>
      object_path top_path id
        (fun p => object_path p field
          (fun _ => (AUnit, below ++ [set_at top (path_steps id ++ path_steps field) v])) stk) stk
  | CFetch id field offset max_bytes =>
      object_path top_path id
        (fun p => object_path p field
          (fun _ =>
             (match value_at top (path_steps id ++ path_steps field) with
              | None => AErr (RuntimeErr PathNotFound)
              | Some v =>
                  if len v <? offset then AErr (RuntimeErr (HostErr StoreInvalidAccess))
                  else ABytes (take (Z.to_nat (Z.min MAX_FILE_CHUNK_SIZE max_bytes))
                                 (drop (Z.to_nat offset) v))
              end, stk)) stk) stk
  end.

Fixpoint spec_run (P : bytes) (cs : list Cmd) (stk : list Node) : list Answer * list Node :=
  match cs with
  | [] => ([], stk)
  | c :: cs =>
      let (a, stk) := spec_step P c stk in
      let (l, stk) := spec_run P cs stk in (a :: l, stk)
  end.

(** ** The same commands on the code *)
Section Concrete.
Context {H : Type} {R : Runtime H}.

Definition answer {S A} (f : A -> Answer) (o : outcome S StorageError A) : option (Answer * S) :=
  match o with
  | Ret a s => Some (f a, s)
  | Throw e s => Some (AErr e, s)
  | Panic => None
  end.

Definition answer_of {A} (f : A -> Answer) (r : result A StorageError) : Answer :=
  match r with Ok a => f a | Err e => AErr e end.

(** A field of an object is reached by the path the object was made from. *)
Definition field_path (s : Storage) (id field : Path) : result Path StorageError :=
  match storage_get_or_create (fun p => p) s id with
  | Err e => Err e
  | Ok account =>
      match concat account field with Err e => Err (PathErr e) | Ok p => Ok p end
  end.

Definition step (c : Cmd) (sh : Storage * H) : option (Answer * (Storage * H)) :=
  let (s, h) := sh in
  match c with
  | CBegin => answer (fun _ => AUnit) (begin_transaction (s, h))
  | CCommit => answer (fun _ => AUnit) (commit_transaction (s, h))
  | CRollback => answer (fun _ => AUnit) (rollback_transaction (s, h))
  | CGet id => Some (answer_of AObject (storage_get (fun p => p) s h id), (s, h))
  | CGetOriginal id => Some (answer_of AObject (storage_get_original (fun p => p) s h id), (s, h))
  | CCreate id => Some (answer_of AObject (storage_create_new (fun p => p) s h id), (s, h))
  | CDelete id => answer (fun _ => AUnit) (on_host s (storage_delete s id h))
  | CPut id field v =>
      match field_path s id field with
      | Err e => Some (AErr e, (s, h))
      | Ok p => answer (fun _ => AUnit) (on_host s (runtime_err (store_write_all p v h)))
      end
  | CFetch id field offset max_bytes =>
      match field_path s id field with
      | Err e => Some (AErr e, (s, h))
      | Ok p =>
          Some (match store_read h p offset max_bytes with
                | Ok bs => ABytes bs
                | Err e => AErr (RuntimeErr e)
                end, (s, h))
      end
  end.

Fixpoint run (cs : list Cmd) (sh : Storage * H) : option (list Answer * (Storage * H)) :=
  match cs with
  | [] => Some ([], sh)
  | c :: cs =>
      match step c sh with
      | None => None
      | Some (a, sh) =>
          match run cs sh with
          | None => None
          | Some (l, sh) => Some (a :: l, sh)
          end
      end
  end.

End Concrete.

(** ** Refinement *)
Section Refinement.
Context {H : Type} {R : Runtime H} {L : RuntimeLaws H}.
Context (Hlim : limit = PATH_MAX_SIZE).
Context (P : bytes) (ps : list bytes) (HP : is_path P ps) (outside : Node).
Implicit Types (h : H) (stk : list Node).

(** The layers in use hold the trees of the stack, the paths of further layers are empty, and
    what is not below a layer is as in [outside]. *)
Record rel (s : Storage) h stk : Prop := {
  rel_prefix : prefix s = P;
  rel_layers : layers s = map (layer_path P) (seq 0 (length stk));
  rel_nonempty : stk <> [];
  rel_fits i : (i < length stk)%nat -> len (layer_path P i) <= PATH_MAX_SIZE;
  rel_used i n : stk !! i = Some n -> subtree (view h) (layer_steps ps i) = n;
  rel_unused i : (length stk <= i)%nat -> subtree (view h) (layer_steps ps i) = node_default;
  rel_frame q : (forall i, diverge (layer_steps ps i) q) -> subtree (view h) q = subtree outside q
}.

Lemma pop_snoc {A} (l : list A) x : pop (l ++ [x]) = l.
Proof. unfold pop. rewrite length_app. cbn. rewrite Nat.add_sub. apply take_app_length. Qed.

Lemma layers_snoc b n : map (layer_path P) (seq 0 (length (b ++ [n : Node]))) =
  map (layer_path P) (seq 0 (length b)) ++ [layer_path P (length b)].
Proof. rewrite length_app. cbn. rewrite seq_app, map_app. done. Qed.

Lemma last_layers s h b top : rel s h (b ++ [top]) ->
  last (layers s) = Some (layer_path P (length b)).
Proof. intros Hr. rewrite (rel_layers _ _ _ Hr), layers_snoc. apply last_snoc. Qed.

Lemma head_layers s h stk : rel s h stk -> head (layers s) = Some P.
Proof.
  intros Hr. rewrite (rel_layers _ _ _ Hr). pose proof (rel_nonempty _ _ _ Hr).
  destruct stk; [done |]. cbn. unfold layer_path. cbn. by rewrite app_nil_r.
Qed.

Lemma top_subtree s h b top : rel s h (b ++ [top]) ->
  subtree (view h) (layer_steps ps (length b)) = top.
Proof.
  intros Hr. apply (rel_used _ _ _ Hr). rewrite lookup_app_r by lia. by rewrite Nat.sub_diag.
Qed.

Lemma layer_limit s h stk i : rel s h stk -> (i < length stk)%nat ->
  is_path (layer_path P i) (layer_steps ps i) /\ len (layer_path P i) <= limit.
Proof using Hlim HP.
  intros Hr Hi. pose proof (rel_fits _ _ _ Hr i Hi). split; [by apply layer_is_path | by rewrite Hlim].
Qed.

Lemma top_limit s h b top : rel s h (b ++ [top]) ->
  is_path (layer_path P (length b)) (layer_steps ps (length b)) /\
  len (layer_path P (length b)) <= limit.
Proof using Hlim HP. intros Hr. apply (layer_limit s h _ _ Hr). rewrite length_app. cbn. lia. Qed.

(** A change of the host below the top layer changes the top of the stack. *)
Lemma rel_top_update s h b top h' n' : rel s h (b ++ [top]) ->
  subtree (view h') (layer_steps ps (length b)) = n' ->
  (forall q, diverge (layer_steps ps (length b)) q -> subtree (view h') q = subtree (view h) q) ->
  rel s h' (b ++ [n']).
Proof.
  intros Hr Hn Hf. destruct Hr as [H1 H2 H3 H4 H5 H6 H7].
  assert (Hlen : length (b ++ [n']) = length (b ++ [top])) by (by rewrite !length_app).
  constructor; rewrite ?Hlen; try done.
  - by destruct b.
  - intros i n Hi. destruct (decide (i = length b)) as [->|Hne].
    + rewrite lookup_app_r, Nat.sub_diag in Hi by lia. by injection Hi as <-.
    + rewrite Hf by (by apply layers_diverge). apply H5. rewrite lookup_app_l in *; [done | |];
        apply lookup_lt_Some in Hi; rewrite length_app in Hi; cbn in Hi; lia.
  - intros i Hi. rewrite Hf; [by apply H6 |]. apply layers_diverge. rewrite length_app in Hi. cbn in Hi. lia.
  - intros q Hq. rewrite Hf by done. by apply H7.
Qed.

(** Paths below a layer. *)
Lemma concat_limit p qs id ids r : is_path p qs -> is_path id ids -> concat p id = Ok r ->
  is_path r (qs ++ ids) /\ len r <= limit.
Proof using Hlim.
  intros Hp [Hi _] E. pose proof (concat_is_path _ _ _ _ _ Hp Hi E) as Hr. split; [done |].
  rewrite Hlim. by destruct Hr as [(_ & _ & _ & ?) _].
Qed.

Lemma layer_has s h stk i n id ids r : rel s h stk -> stk !! i = Some n -> is_path id ids ->
  concat (layer_path P i) id = Ok r -> store_has h r = Ok (kind_of (subtree n (path_steps id))).
Proof using Hlim HP.
  intros Hr Hi Hid E. destruct (layer_limit s h stk i Hr) as [Hp _]; [by apply lookup_lt_Some in Hi |].
  destruct (concat_limit _ _ _ _ _ Hp Hid E) as [Hpr Hl]. rewrite (law_has h r _ Hpr Hl).
  by rewrite subtree_app, (rel_used _ _ _ Hr i n Hi), (is_path_steps id ids).
Qed.

Lemma layer_path_0 : layer_path P 0 = P.
Proof. unfold layer_path. cbn. apply app_nil_r. Qed.

Lemma step_get s h b top c : rel s h (b ++ [top]) -> cmd_ok c ->
  (exists id, c = CGet id \/ c = CGetOriginal id \/ c = CCreate id) ->
  step c (s, h) = Some (fst (spec_step P c (b ++ [top])), (s, h)) /\
  snd (spec_step P c (b ++ [top])) = b ++ [top].
Proof using Hlim HP.
  intros Hr Hc (id & Hid).
  assert (Hi : exists ids, is_path id ids) by (by destruct Hid as [-> | [-> | ->]]).
  destruct Hi as [ids Hi].
  assert (Htop : (b ++ [top]) !! length b = Some top) by (by rewrite lookup_app_r, Nat.sub_diag by lia).
  assert (Hbot : (b ++ [top]) !! 0%nat = Some (hd node_default (b ++ [top]))) by (by destruct b).
  assert (Hhas : forall i n r, (b ++ [top]) !! i = Some n -> concat (layer_path P i) id = Ok r ->
    has_subtree_res (store_has h r) = has_object n (path_steps id)).
  { intros i n r Hn E. by rewrite (layer_has s h _ i n id ids r Hr Hn Hi E). }
  destruct Hid as [-> | [-> | ->]]; cbn -[layer_path has_object];
    unfold storage_get, storage_get_original, storage_create_new, layer_get, layer_create_new, object_path;
    rewrite ?(last_layers s h b top Hr), ?(head_layers s h _ Hr), ?pop_snoc, ?last_last.
  - destruct (concat _ id) as [r|e] eqn:E; [| done]. rewrite (Hhas _ _ _ Htop E).
    by destruct (has_object top _).
  - destruct (concat P id) as [r|e] eqn:E; [| done]. rewrite <- layer_path_0 in E.
    rewrite (Hhas _ _ _ Hbot E). by destruct (has_object _ _).
  - destruct (concat _ id) as [r|e] eqn:E; [| done]. rewrite (Hhas _ _ _ Htop E).
    by destruct (has_object top _).
Qed.

(** The path of a field, as the code and as the specification compute it. *)
Lemma field_path_spec s h b top id field : rel s h (b ++ [top]) ->
  field_path s id field =
  match concat (layer_path P (length b)) id with
  | Err e => Err (PathErr e)
  | Ok p => match concat p field with Err e => Err (PathErr e) | Ok p => Ok p end
  end.
Proof.
  intros Hr. unfold field_path, storage_get_or_create, layer_get_or_create.
  rewrite (last_layers s h b top Hr). by destruct (concat _ id).
Qed.

Lemma field_limit s h b top id ids field fs p r : rel s h (b ++ [top]) -> is_path id ids ->
  is_path field fs -> concat (layer_path P (length b)) id = Ok p -> concat p field = Ok r ->
  is_path r (layer_steps ps (length b) ++ (path_steps id ++ path_steps field)) /\ len r <= limit.
Proof using Hlim HP.
  intros Hr Hi Hf E1 E2. destruct (top_limit s h b top Hr) as [Hp _].
  destruct (concat_limit _ _ _ _ _ Hp Hi E1) as [Hp1 _].
  destruct (concat_limit _ _ _ _ _ Hp1 Hf E2) as [Hp2 Hl2].
  rewrite (is_path_steps id ids Hi), (is_path_steps field fs Hf), app_assoc. done.
Qed.

(** What a command does: the answer of the specification, and a host that shows its stack. *)
Definition refines (c : Cmd) s h stk : Prop :=
  exists s' h', step c (s, h) = Some (fst (spec_step P c stk), (s', h')) /\
                rel s' h' (snd (spec_step P c stk)).

Lemma step_put s h b top id field v : rel s h (b ++ [top]) -> cmd_ok (CPut id field v) ->
  refines (CPut id field v) s h (b ++ [top]).
Proof using Hlim HP.
  intros Hr [[ids Hi] [fs Hf]]. unfold refines. cbn -[layer_path]. rewrite pop_snoc, last_last.
  rewrite (field_path_spec s h b top id field Hr). unfold object_path.
  destruct (concat _ id) as [p|e] eqn:E1; [| by exists s, h].
  destruct (concat p field) as [r|e] eqn:E2; [| by exists s, h].
  destruct (field_limit _ _ _ _ _ _ _ _ _ _ Hr Hi Hf E1 E2) as [Hp Hl].
  destruct (law_write_all h r _ v Hp Hl) as (h' & -> & Hv). exists s, h'. split; [done |].
  apply (rel_top_update s h b top h' _ Hr).
  - by rewrite Hv, subtree_set_below, (top_subtree s h b top).
  - intros q Hq. rewrite Hv. apply subtree_set_diverge. by apply diverge_app_l.
Qed.

Lemma step_fetch s h b top id field offset max_bytes : rel s h (b ++ [top]) ->
  cmd_ok (CFetch id field offset max_bytes) ->
  refines (CFetch id field offset max_bytes) s h (b ++ [top]).
Proof using Hlim HP.
  intros Hr ([ids Hi] & [fs Hf] & Ho & Hm). unfold refines. cbn -[layer_path]. rewrite pop_snoc, last_last.
  rewrite (field_path_spec s h b top id field Hr). unfold object_path.
  destruct (concat _ id) as [p|e] eqn:E1; [| by exists s, h].
  destruct (concat p field) as [r|e] eqn:E2; [| by exists s, h].
  destruct (field_limit _ _ _ _ _ _ _ _ _ _ Hr Hi Hf E1 E2) as [Hp Hl].
  exists s, h. split; [| done]. rewrite (law_read h r _ offset max_bytes Hp Hl Ho Hm).
  replace (value_at (view h) _) with (value_at top (path_steps id ++ path_steps field)).
  - cbn. destruct (value_at top _) as [v|]; [| done]. by destruct (len v <? offset).
  - unfold value_at. by rewrite (subtree_app _ (layer_steps _ _)), (top_subtree s h b top).
Qed.

Lemma step_delete s h b top id : rel s h (b ++ [top]) -> cmd_ok (CDelete id) ->
  refines (CDelete id) s h (b ++ [top]).
Proof using Hlim HP.
  intros Hr [ids Hi]. unfold refines. cbn -[layer_path]. rewrite pop_snoc, last_last.
  unfold storage_delete, layer_delete, object_path. rewrite (last_layers s h b top Hr).
  destruct (concat _ id) as [p|e] eqn:E1; [| by exists s, h].
  destruct (top_limit s h b top Hr) as [Ht _].
  destruct (concat_limit _ _ _ _ _ Ht Hi E1) as [Hp Hl].
  pose proof (law_delete h p _ Hp Hl) as Hd.
  rewrite subtree_app, (top_subtree s h b top Hr) in Hd. rewrite (is_path_steps id ids Hi).
  destruct (is_default (subtree top ids)); [rewrite Hd; by exists s, h |].
  destruct Hd as (h' & -> & Hv). exists s, h'. split; [done |].
  apply (rel_top_update s h b top h' _ Hr).
  - rewrite Hv, subtree_del_below, (top_subtree s h b top Hr); try done.
    + apply layer_steps_nonnil.
    + by apply (is_path_nonnil id).
  - intros q Hq. rewrite Hv. apply subtree_del_diverge. by apply diverge_app_l.
Qed.

(** The path of a new layer is legal unless it is too long. *)
Lemma try_from_layer k : try_from (layer_path P k) =
  if PATH_MAX_SIZE <? len (layer_path P k) then Err PathTooLong else Ok (layer_path P k).
Proof using HP.
  unfold try_from. destruct (Z.ltb_spec PATH_MAX_SIZE (len (layer_path P k))) as [Hlong|Hshort].
  - unfold validate_path, validate_path_internal. pose proof (layer_path_join P ps HP k) as Hj.
    destruct (layer_path P k) as [|c r] eqn:Ep; [by vm_compute in Hlong |].
    rewrite Hj at 1. destruct (Z.eqb_spec (List.last (join (layer_steps ps k)) 0) PATH_SEPARATOR) as [E|_].
    + exfalso. revert E. apply last_join; [by apply (layer_steps_ok P) | apply layer_steps_nonnil].
    + by destruct (Z.ltb_spec PATH_MAX_SIZE (len (c :: r))); [| lia].
  - by rewrite (is_path_validate _ _ (layer_is_path P ps HP k Hshort)).
Qed.

(** A new layer on top of the stack. *)
Lemma rel_push s h stk h' n : rel s h stk -> let k := length stk in
  len (layer_path P k) <= PATH_MAX_SIZE ->
  subtree (view h') (layer_steps ps k) = n ->
  (forall q, diverge (layer_steps ps k) q -> subtree (view h') q = subtree (view h) q) ->
  rel (mkStorage P (layers s ++ [layer_path P k])) h' (stk ++ [n]).
Proof.
  intros Hr k Hl Hn Hf. destruct Hr as [H1 H2 H3 H4 H5 H6 H7]. constructor; try done.
  - cbn. by rewrite H2, layers_snoc.
  - by intros [? ?]%app_nil.
  - intros i Hi. destruct (decide (i = k)) as [->|]; [done |]. apply H4.
    rewrite length_app in Hi. cbn in Hi. unfold k in *. lia.
  - intros i m Hi. destruct (decide (i = k)) as [->|Hne].
    + rewrite lookup_app_r in Hi by done. fold k in Hi. rewrite Nat.sub_diag in Hi. by injection Hi as <-.
    + rewrite Hf by (by apply layers_diverge). apply H5. rewrite lookup_app_l in Hi; [done |].
      apply lookup_lt_Some in Hi. rewrite length_app in Hi. cbn in Hi. unfold k in *. lia.
  - intros i Hi. rewrite length_app in Hi. cbn in Hi.
    rewrite Hf by (apply layers_diverge; unfold k; lia). apply H6. lia.
  - intros q Hq. rewrite Hf by done. by apply H7.
Qed.

(** The top layer taken off the stack, its path being empty. *)
Lemma rel_pop s h b m top h' n : rel s h ((b ++ [m]) ++ [top]) ->
  let j := length b in let k := length (b ++ [m]) in
  subtree (view h') (layer_steps ps k) = node_default ->
  subtree (view h') (layer_steps ps j) = n ->
  (forall q, diverge (layer_steps ps k) q -> diverge (layer_steps ps j) q ->
             subtree (view h') q = subtree (view h) q) ->
  rel (mkStorage P (pop (layers s))) h' (b ++ [n]).
Proof.
  intros Hr j k Hk Hj Hf. destruct Hr as [H1 H2 H3 H4 H5 H6 H7].
  assert (Hkj : k = S j) by (unfold j, k; rewrite length_app; cbn; lia).
  assert (Hlen : length (b ++ [n]) = k) by (unfold k; by rewrite !length_app).
  assert (Hlen' : length ((b ++ [m]) ++ [top]) = S k) by (rewrite length_app; cbn; unfold k; lia).
  constructor; rewrite ?Hlen; try done.
  - cbn. rewrite H2, layers_snoc, pop_snoc. done.
  - by intros [? ?]%app_nil.
  - intros i Hi. apply H4. lia.
  - intros i x Hi. destruct (decide (i = j)) as [->|Hne].
    + rewrite lookup_app_r in Hi by done. unfold j in Hi. rewrite Nat.sub_diag in Hi. by injection Hi as <-.
    + pose proof (lookup_lt_Some _ _ _ Hi) as Hi'. rewrite Hlen in Hi'.
      rewrite Hf by (apply layers_diverge; lia). apply H5.
      rewrite lookup_app_l in Hi by (fold j; lia). by rewrite !lookup_app_l by (rewrite ?length_app; fold j; lia).
  - intros i Hi. destruct (decide (i = k)) as [->|Hne]; [done |].
    rewrite Hf by (apply layers_diverge; lia). apply H6. lia.
  - intros q Hq. rewrite Hf by done. by apply H7.
Qed.

Lemma step_begin s h b top : rel s h (b ++ [top]) -> refines CBegin s h (b ++ [top]).
Proof using Hlim HP.
  intros Hr. unfold refines. cbn -[layer_path layer_name].
  rewrite (last_layers s h b top Hr), last_last, (rel_prefix _ _ _ Hr).
  set (k := length (b ++ [top])).
  assert (Hk : len (layers s) = Z.of_nat k) by (by rewrite (rel_layers _ _ _ Hr), length_map, length_seq).
  rewrite Hk, layer_name_path by (unfold k; rewrite length_app; cbn; lia). rewrite try_from_layer.
  destruct (Z.ltb_spec PATH_MAX_SIZE (len (layer_path P k))) as [_|Hl]; [by exists s, h |].
  destruct (top_limit s h b top Hr) as [Ht Htl].
  pose proof (law_copy h _ _ _ _ Ht Htl (layer_is_path P ps HP k Hl) ltac:(by rewrite Hlim)) as Hc.
  cbn zeta in Hc. rewrite (top_subtree s h b top Hr) in Hc. unfold force_make_copy.
  destruct (is_default top) eqn:Ed.
  - rewrite Hc. eexists _, h. split; [done |]. apply (rel_push s h); try done.
    apply is_default_true in Ed. transitivity node_default; [by apply (rel_unused _ _ _ Hr) | done].
  - destruct Hc as (h' & -> & Hv). eexists _, h'. split; [done |]. apply (rel_push s h); try done.
    + by rewrite Hv, subtree_insert.
    + intros q Hq. rewrite Hv. by apply subtree_insert_diverge.
Qed.

(** What [store_has] finds at a layer. *)
Lemma has_layer s h stk i n : rel s h stk -> stk !! i = Some n ->
  store_has h (layer_path P i) = Ok (kind_of n).
Proof using Hlim HP.
  intros Hr Hi. destruct (layer_limit s h stk i Hr) as [Hp Hl]; [by apply lookup_lt_Some in Hi |].
  by rewrite (law_has h _ _ Hp Hl), (rel_used _ _ _ Hr i n Hi).
Qed.

Lemma kind_of_default n : (exists k, kind_of n = Some k /\ is_default n = false) \/
  (kind_of n = None /\ n = node_default).
Proof.
  destruct (kind_of n) as [k|] eqn:E.
  - left. exists k. split; [done |]. apply is_default_false. intros Hd. apply kind_of_none in Hd. congruence.
  - right. split; [done | by apply kind_of_none].
Qed.

Lemma pop_layers s h b m top : rel s h ((b ++ [m]) ++ [top]) ->
  (1 <? len (layers s)) = true /\ last (pop (layers s)) = Some (layer_path P (length b)).
Proof.
  intros Hr. rewrite (rel_layers _ _ _ Hr). split.
  - apply Z.ltb_lt. rewrite length_map, length_seq, !length_app. cbn. lia.
  - by rewrite layers_snoc, pop_snoc, layers_snoc, last_snoc.
Qed.

Lemma step_rollback s h b m top : rel s h ((b ++ [m]) ++ [top]) ->
  exists s' h', step CRollback (s, h) = Some (AUnit, (s', h')) /\ rel s' h' (b ++ [m]).
Proof using Hlim HP.
  intros Hr. destruct (pop_layers s h b m top Hr) as [Hlt _]. cbn -[layer_path].
  rewrite Hlt, (last_layers s h (b ++ [m]) top Hr), (rel_prefix _ _ _ Hr).
  set (k := length (b ++ [m])). unfold layer_discard.
  rewrite (has_layer s h _ k top Hr) by (unfold k; by rewrite lookup_app_r, Nat.sub_diag by lia).
  assert (Hm : subtree (view h) (layer_steps ps (length b)) = m).
  { apply (rel_used _ _ _ Hr). rewrite lookup_app_l by (rewrite length_app; cbn; lia).
    by rewrite lookup_app_r, Nat.sub_diag by lia. }
  destruct (kind_of_default top) as [(kd & -> & Ed)|[-> Et]].
  - destruct (top_limit s h (b ++ [m]) top Hr) as [Ht Htl].
    pose proof (law_delete h _ _ Ht Htl) as Hd. rewrite (top_subtree s h _ top Hr), Ed in Hd.
    destruct Hd as (h' & E & Hv). fold k in E. rewrite E. eexists _, h'. split; [done |].
    apply (rel_pop s h b m top); try done; rewrite Hv.
    + apply subtree_del, layer_steps_nonnil.
    + rewrite subtree_del_diverge; [done |]. apply layers_diverge. rewrite length_app. cbn. lia.
    + intros q Hq _. by apply subtree_del_diverge.
  - eexists _, h. split; [done |]. apply (rel_pop s h b m top); try done.
    by rewrite (top_subtree s h _ top Hr).
Qed.

Lemma step_commit s h b m top : rel s h ((b ++ [m]) ++ [top]) ->
  exists s' h', step CCommit (s, h) = Some (AUnit, (s', h')) /\ rel s' h' (b ++ [top]).
Proof using Hlim HP.
  intros Hr. destruct (pop_layers s h b m top Hr) as [Hlt Hl]. cbn -[layer_path].
  rewrite Hlt, (last_layers s h (b ++ [m]) top Hr), Hl, (rel_prefix _ _ _ Hr).
  set (k := length (b ++ [m])). set (j := length b). unfold layer_consume.
  assert (Hjk : j <> k) by (unfold j, k; rewrite length_app; cbn; lia).
  assert (Hm : ((b ++ [m]) ++ [top]) !! j = Some m).
  { rewrite lookup_app_l by (rewrite length_app; cbn; unfold j; lia).
    unfold j. by rewrite lookup_app_r, Nat.sub_diag by lia. }
  rewrite (has_layer s h _ k top Hr) by (unfold k; by rewrite lookup_app_r, Nat.sub_diag by lia).
  rewrite (has_layer s h _ j m Hr Hm).
  destruct (top_limit s h (b ++ [m]) top Hr) as [Ht Htl].
  destruct (layer_limit s h _ j Hr) as [Hp Hpl]; [by apply lookup_lt_Some in Hm |].
  destruct (kind_of_default top) as [(kd & -> & Ed)|[-> Et]].
  - pose proof (law_move h _ _ _ _ Ht Htl Hp Hpl) as Hd. cbn zeta in Hd.
    rewrite (top_subtree s h _ top Hr), Ed in Hd. destruct Hd as (h' & E & Hv). fold k in E. rewrite E.
    eexists _, h'. split; [done |]. apply (rel_pop s h b m top); try done; rewrite Hv.
    + rewrite subtree_insert_diverge by (by apply layers_diverge). apply subtree_del, layer_steps_nonnil.
    + apply subtree_insert.
    + intros q Hq Hq'. rewrite subtree_insert_diverge by done. by apply subtree_del_diverge.
  - assert (Hk : subtree (view h) (layer_steps ps k) = node_default) by (transitivity top; [apply (top_subtree s h _ top Hr) | done]).
    rewrite Et. destruct (kind_of_default m) as [(kd & -> & Ed)|[-> Em]].
    + pose proof (law_delete h _ _ Hp Hpl) as Hd. rewrite (rel_used _ _ _ Hr j m Hm), Ed in Hd.
      destruct Hd as (h' & E & Hv). rewrite E. eexists _, h'. split; [done |].
      apply (rel_pop s h b m top); try done; rewrite Hv.
      * by rewrite subtree_del_diverge by (by apply layers_diverge).
      * apply subtree_del, layer_steps_nonnil.
      * intros q _ Hq. by apply subtree_del_diverge.
    + eexists _, h. split; [done |]. apply (rel_pop s h b m top); try done.
      rewrite <- Em. by apply (rel_used _ _ _ Hr).
Qed.

(** Without a transaction, commits and rollbacks are refused. *)
Lemma step_no_transaction s h top c : rel s h [top] -> c = CCommit \/ c = CRollback ->
  step c (s, h) = Some (AErr NoCurrentTransaction, (s, h)).
Proof. intros Hr Hc. by destruct Hc as [-> | ->]; cbn; rewrite (rel_layers _ _ _ Hr). Qed.

Lemma snoc_cases {A} (l : list A) : l = [] \/ exists b x, l = b ++ [x].
Proof. destruct l as [|x l _] using rev_ind; [by left | right; eauto]. Qed.

Lemma step_refines c s h stk : rel s h stk -> cmd_ok c -> refines c s h stk.
Proof using Hlim HP.
  intros Hr Hc. destruct (snoc_cases stk) as [->|(b & top & ->)]; [by destruct (rel_nonempty _ _ _ Hr) |].
  destruct c as [| | |id|id|id|id|id field v|id field off mx].
  - by apply step_begin.
  - unfold refines. destruct (snoc_cases b) as [->|(b' & m & ->)].
    + exists s, h. rewrite (step_no_transaction s h top) by auto. done.
    + destruct (step_commit s h b' m top Hr) as (s' & h' & E & Hr'). exists s', h'. rewrite E. cbn.
      rewrite !pop_snoc, last_last. replace (1 <? len ((b' ++ [m]) ++ [top])) with true; [done |].
      symmetry. apply Z.ltb_lt. rewrite !length_app. cbn. lia.
  - unfold refines. destruct (snoc_cases b) as [->|(b' & m & ->)].
    + exists s, h. rewrite (step_no_transaction s h top) by auto. done.
    + destruct (step_rollback s h b' m top Hr) as (s' & h' & E & Hr'). exists s', h'. rewrite E. cbn.
      rewrite pop_snoc. replace (1 <? len ((b' ++ [m]) ++ [top])) with true; [done |].
      symmetry. apply Z.ltb_lt. rewrite !length_app. cbn. lia.
  - destruct (step_get s h b top (CGet id) Hr Hc) as [E Es]; [by exists id; auto |].
    exists s, h. by rewrite E, Es.
  - destruct (step_get s h b top (CGetOriginal id) Hr Hc) as [E Es]; [by exists id; auto |].
    exists s, h. by rewrite E, Es.
  - destruct (step_get s h b top (CCreate id) Hr Hc) as [E Es]; [by exists id; auto |].
    exists s, h. by rewrite E, Es.
  - by apply step_delete.
  - by apply step_put.
  - by apply step_fetch.
Qed.

Lemma txn_run_refines cs : forall s h stk, rel s h stk -> Forall cmd_ok cs ->
  exists s' h', run cs (s, h) = Some (fst (spec_run P cs stk), (s', h')) /\
                rel s' h' (snd (spec_run P cs stk)).
Proof using Hlim HP.
  induction cs as [|c cs IH]; intros s h stk Hr Hc; cbn [run spec_run]; [by exists s, h |].
  apply Forall_cons in Hc as [Hc1 Hc2]. destruct (step_refines c s h stk Hr Hc1) as (s1 & h1 & -> & Hr1).
  destruct (spec_step P c stk) as [a stk1]. cbn [fst snd] in *.
  destruct (IH s1 h1 stk1 Hr1 Hc2) as (s2 & h2 & -> & Hr2).
  destruct (spec_run P cs stk1) as [l stk2]. by exists s2, h2.
Qed.

(** A new storage shows what its path holds, when the paths of its layers are free. *)
Lemma init_rel h s : outside = view h -> storage_init P = Ok s ->
  (forall i, (0 < i)%nat -> subtree (view h) (layer_steps ps i) = node_default) ->
  rel s h [subtree (view h) ps].
Proof using HP.
  intros Ho Hs Hf. unfold storage_init, with_path in Hs. destruct (utf8_valid P); [| done].
  injection Hs as <-.
  assert (H0 : layer_steps ps 0 = ps).
  { unfold layer_steps. cbn. rewrite app_nil_r. symmetry. apply steps_snoc. by apply (is_path_nonnil P). }
  constructor; try done.
  - cbn. by rewrite layer_path_0.
  - intros i Hi. cbn in Hi. replace i with 0%nat by lia. rewrite layer_path_0.
    by destruct HP as [(_ & _ & _ & ?) _].
  - intros [|i] n Hi; [| done]. injection Hi as <-. by rewrite H0.
  - intros q _. by rewrite Ho.
Qed.

End Refinement.

End SdkTxn.
Export SdkTxn.
