(* ===== verification/SdkProps.v ===== *)
(** What the kernel SDK guarantees: paths, the durable storage of a host, transactions. *)

From Stdlib Require Import String Ascii.
From stdpp Require Import strings.
From S2P Require Import Prelude SdkPath SdkStore SdkHost SdkRuntime SdkMock SdkStorage SdkTxn.

Open Scope Z_scope.

Module SdkProps.

(** ** Examples *)
Definition sample_host : HostState := mkHost store_default (mkMetadata [] 0) 0 0 [].

Definition accounts : Path := ascii_bytes "/accounts".
Definition alpha : Path := ascii_bytes "/alpha".
Definition field : Path := ascii_bytes "/a".

Lemma alpha_path : is_path alpha (path_steps alpha).
Proof. closed_path. Qed.

Lemma field_is_path : is_path field (path_steps field).
Proof. closed_path. Qed.

Lemma accounts_path : is_path accounts (path_steps accounts).
Proof. closed_path. Qed.

(** A byte string is accepted as a path exactly when it is
    the text of at least one step over the allowed bytes, each preceded by a separator, of at
    most [PATH_MAX_SIZE] bytes and not below [readonly]; the store cuts an accepted path into
    exactly these steps, which are as many as [len_steps] counts; and the concatenation of two
    accepted paths, when it is not too long, is an accepted path with the steps of both. *)
Theorem path_checks_are_the_grammar p :
  (validate_path p = Ok tt <-> exists steps, is_path p steps) /\
  (forall steps, is_path p steps -> path_steps p = steps /\ len_steps p = len steps) /\
  (forall steps q qs r, is_path p steps -> is_path q qs -> concat p q = Ok r ->
     validate_path r = Ok tt /\ path_steps r = steps ++ qs).
Proof.
  split; [apply validate_path_iff |]. split.
  - intros steps Hp. split; [by apply is_path_steps |]. destruct Hp as [(-> & _ & Hs & _) _].
    by apply len_steps_join.
  - intros steps q qs r Hp [Hq _] E. pose proof (concat_is_path _ _ _ _ _ Hp Hq E) as Hr.
    split; [by apply (is_path_validate r (steps ++ qs)) | by apply is_path_steps].
Qed.

Lemma path_checks_are_the_grammar_witness :
  validate_path (ascii_bytes "/accounts/alpha") = Ok tt /\
  path_steps (ascii_bytes "/accounts/alpha") = path_steps accounts ++ path_steps alpha.
Proof.
  destruct (path_checks_are_the_grammar accounts) as (_ & _ & Hc).
  apply (Hc (path_steps accounts) alpha (path_steps alpha)); [exact accounts_path | exact alpha_path | done].
Defined.

(** On any host that keeps the promises of a runtime, as the mock
    host does, a value of less than two gigabytes written to a path, in chunks, is read back
    whole, in chunks, and no read of another path changes. *)
Theorem stored_values_read_back {H : Type} {R : Runtime H} {L : RuntimeLaws H} h p ps v :
  is_path p ps -> len p <= limit -> len v < 2 ^ 31 ->
  exists h', store_write_all p v h = Ret tt h' /\ store_read_all h' p = Some (Ok v) /\
    forall q qs offset max_bytes, is_path q qs -> len q <= limit -> q <> p -> 0 <= offset -> 0 <= max_bytes ->
      store_read h' q offset max_bytes = store_read h q offset max_bytes.
Proof.
  intros Hp Hl Hv. destruct (law_write_all h p ps v Hp Hl) as (h' & E & Hview). exists h'.
  split; [done |]. split.
  - apply (law_read_all h' p ps v Hp Hl); [by rewrite Hview, value_at_set | done].
  - intros q qs offset max_bytes Hq Hlq Hne Ho Hm.
    rewrite !(law_read _ q qs offset max_bytes Hq Hlq Ho Hm), Hview.
    rewrite value_at_set_other; [done | | by apply (is_path_not_value q)].
    intros ->. apply Hne. destruct Hp as [(-> & _) _], Hq as [(-> & _) _]. done.
Qed.

Lemma stored_values_read_back_witness :
  exists h', store_write_all (H := HostState) alpha (repeat 7 5000) sample_host = Ret tt h' /\
             store_read_all h' alpha = Some (Ok (repeat 7 5000)) /\
             store_read h' field 0 10 = store_read sample_host field 0 10.
Proof.
  destruct (stored_values_read_back (H := HostState) sample_host alpha (path_steps alpha) (repeat 7 5000))
    as (h' & H1 & H2 & H3); [exact alpha_path | vm_compute; discriminate | vm_compute; reflexivity |].
  exists h'. split; [exact H1 |]. split; [exact H2 |].
  apply (H3 field (path_steps field)); [exact field_is_path | vm_compute; discriminate | discriminate | lia | lia].
Defined.

(** C34: a sequence of writes, deletions, moves and copies on legal paths
    never panics on the mock host, and leaves the tree that the same sequence of tree
    operations gives: a write replaces bytes of the value of its path, a deletion removes the
    subtree and the nodes it leaves empty, a move and a copy replace the subtree of their
    target. *)
Theorem mock_host_is_a_tree os h : Forall (op_ok PATH_MAX_SIZE) os ->
  exists h', exec_all (H := HostState) os h = Some h' /\
    durable (store h') = effects os (durable (store h)).
Proof. intros Hos. apply (exec_all_effects (L := mock_laws) os h Hos). Qed.

Lemma mock_host_is_a_tree_witness :
  exists h', exec_all (H := HostState) [OWriteAll alpha [1]; ODelete alpha] sample_host = Some h' /\
    durable (store h') = effects [OWriteAll alpha [1]; ODelete alpha] node_default.
Proof.
  apply (mock_host_is_a_tree [OWriteAll alpha [1]; ODelete alpha] sample_host).
  repeat constructor; (exists (path_steps alpha); exact alpha_path) || (vm_compute; discriminate).
Defined.

(** C6: a storage of accounts behaves as a stack of trees.  Every
    sequence of transactions begun, committed and rolled back, objects looked up, created and
    deleted, and fields of them written and read, gives on the durable storage the answers it
    gives on the stack, errors included, and leaves the layers of the storage holding the trees
    of the stack, the paths of layers that are not in use empty, and the rest of the durable
    storage as it was. *)
Theorem transactions_refine_a_stack {H : Type} {R : Runtime H} {L : RuntimeLaws H} P ps h s cs :
  limit = PATH_MAX_SIZE -> is_path P ps -> storage_init P = Ok s ->
  (forall i, (0 < i)%nat -> subtree (view h) (layer_steps ps i) = node_default) ->
  Forall cmd_ok cs ->
  let stk := [subtree (view h) ps] in
  exists s' h', run cs (s, h) = Some (fst (spec_run P cs stk), (s', h')) /\
                rel P ps (view h) s' h' (snd (spec_run P cs stk)).
Proof.
  intros Hlim HP Hs Hfree Hcs stk. apply (txn_run_refines Hlim P ps HP (view h) cs s h stk); [| done].
  by apply (init_rel P ps HP (view h) h s).
Qed.

Definition sample_cmds : list Cmd :=
  [CBegin; CPut alpha field [1; 2]; CBegin; CPut alpha field [3]; CRollback;
   CFetch alpha field 0 10; CCommit; CFetch alpha field 0 10; CCommit].

Lemma transactions_refine_a_stack_witness :
  exists s' h',
    run (H := HostState) sample_cmds (mkStorage accounts [accounts], sample_host) =
    Some ([AUnit; AUnit; AUnit; AUnit; AUnit; ABytes [1; 2]; AUnit; ABytes [1; 2];
           AErr NoCurrentTransaction], (s', h')).
Proof.
  destruct (transactions_refine_a_stack (H := HostState) accounts (path_steps accounts) sample_host
    (mkStorage accounts [accounts]) sample_cmds) as (s' & h' & E & _).
  - reflexivity.
  - exact accounts_path.
  - vm_compute. reflexivity.
  - intros i _. apply subtree_default.
  - repeat constructor; try (exists (path_steps alpha); exact alpha_path);
      try (exists (path_steps field); exact field_is_path); lia.
  - exists s', h'. rewrite E. vm_compute. reflexivity.
Defined.

End SdkProps.
Export SdkProps.
