(* ===== verification/EvmSafeStorage.v ===== *)
(** The protected storage of the Etherlink kernel
    ([src/etherlink/kernel_evm/kernel/src/safe_storage.rs]).

    A kernel run works below [/tmp], on a copy of the world state; it promotes the copy when a
    block is produced and reverts it otherwise.  [SafeStorage] is a runtime on top of a
    runtime: it keeps the promises of a runtime on the tree below [/tmp], for paths shorter by
    that prefix. *)

From Stdlib Require Import String Ascii.
From stdpp Require Import strings.
From S2P Require Import Prelude SdkPath SdkStore SdkHost SdkRuntime SdkMock.

Open Scope Z_scope.

Module EvmSafeStorage.

Definition TMP_PATH : Path := ascii_bytes "/tmp".
Definition WORLD_STATE_PATH : Path := ascii_bytes "/evm/world_state".
Definition TMP_WORLD_STATE_PATH : Path := ascii_bytes "/tmp/evm/world_state".

(** [SafeStorage]: the host it wraps; the internal runtime only serves hashes. *)
Record SafeStorage (H : Type) : Type := mkSafe { host : H }.
Arguments mkSafe {H} host.
Arguments host {H} s.

Definition safe_path (path : Path) : result Path RuntimeError :=
  match concat TMP_PATH path with
  | Ok p => Ok p
  | Err _ => Err PathNotFound
  end.

Section Safe.
Context {H : Type} {R : Runtime H}.

(** An operation of the host on the state of the safe storage. *)
Definition lift {A} (c : comp H RuntimeError A) : comp (SafeStorage H) RuntimeError A :=
  fun s =>
    match c (host s) with
    | Ret a h => Ret a (mkSafe h)
    | Throw e h => Throw e (mkSafe h)
    | Panic => Panic
    end.

(** [let path = safe_path(path)?]. *)
Definition reading {A} (path : Path) (k : Path -> result A RuntimeError) : result A RuntimeError :=
  match safe_path path with Ok p => k p | Err e => Err e end.

Definition writing {A} (path : Path) (k : Path -> comp (SafeStorage H) RuntimeError A)
    : comp (SafeStorage H) RuntimeError A :=
  match safe_path path with Ok p => k p | Err e => comp_throw e end.

#[export] Instance safe_runtime : Runtime (SafeStorage H) := {
  write_output from := lift (write_output from);
  read_input := lift read_input;
  store_has s path := reading path (store_has (host s));
  store_read s path from_offset max_bytes :=
    reading path (fun p => store_read (host s) p from_offset max_bytes);
  store_read_slice s path from_offset buffer :=
    reading path (fun p => store_read_slice (host s) p from_offset buffer);
  store_read_all s path :=
    match safe_path path with Ok p => store_read_all (host s) p | Err e => Some (Err e) end;
  store_write path src at_offset := writing path (fun p => lift (store_write p src at_offset));
  store_write_all path src := writing path (fun p => lift (store_write_all p src));
  store_delete path := writing path (fun p => lift (store_delete p));
  store_delete_value path := writing path (fun p => lift (store_delete_value p));
  store_count_subkeys s path := reading path (store_count_subkeys (host s));
  store_move from_path to_path :=
    writing from_path (fun p => writing to_path (fun q => lift (store_move p q)));
  store_copy from_path to_path :=
    writing from_path (fun p => writing to_path (fun q => lift (store_copy p q)));
  reveal_preimage s := reveal_preimage (host s);
  store_value_size s path := reading path (store_value_size (host s));
  mark_for_reboot := lift mark_for_reboot;
  reveal_metadata s := reveal_metadata (host s);
  last_run_aborted s := last_run_aborted (host s);
  upgrade_failed s := upgrade_failed (host s);
  restart_forced s := restart_forced (host s);
  reboot_left s := reboot_left (host s);
  runtime_version s := runtime_version (host s)
}.

Definition start : comp (SafeStorage H) RuntimeError unit :=
  lift (store_copy WORLD_STATE_PATH TMP_WORLD_STATE_PATH).

Definition promote : comp (SafeStorage H) RuntimeError unit :=
  lift (store_move TMP_WORLD_STATE_PATH WORLD_STATE_PATH).

Definition revert : comp (SafeStorage H) RuntimeError unit := lift (store_delete TMP_PATH).

End Safe.

(** ** The safe storage is a runtime *)
Definition TMP : list bytes := [ascii_bytes "tmp"].
Definition WORLD : list bytes := [ascii_bytes "evm"; ascii_bytes "world_state"].

Lemma tmp_is_path : is_path TMP_PATH TMP.
Proof. closed_path. Qed.

Lemma world_is_path : is_path WORLD_STATE_PATH WORLD.
Proof. closed_path. Qed.

Lemma tmp_world_is_path : is_path TMP_WORLD_STATE_PATH (TMP ++ WORLD).
Proof. closed_path. Qed.

#[local] Arguments subtree : simpl never.
#[local] Arguments value_at : simpl never.
#[local] Arguments TMP : simpl never.

Section Laws.
Context {H : Type} {R : Runtime H} {L : RuntimeLaws H}.

Lemma safe_path_ok p ps : is_path p ps -> len p <= limit - 4 ->
  exists q, safe_path p = Ok q /\ is_path q (TMP ++ ps) /\ len q <= limit.
Proof.
  intros Hp Hl. unfold safe_path. pose proof limit_max as Hm.
  assert (Ht : len (TMP_PATH ++ p) = 4 + len p) by (rewrite length_app; cbn; lia).
  assert (E : concat TMP_PATH p = Ok (TMP_PATH ++ p)).
  { unfold concat. destruct (Z.leb_spec (len (TMP_PATH ++ p)) PATH_MAX_SIZE); [done | lia]. }
  rewrite E. exists (TMP_PATH ++ p). split; [done |]. split; [| lia].
  destruct Hp as [Hg _]. by apply (concat_is_path _ _ _ _ _ tmp_is_path Hg).
Qed.

(** What the safe storage shows: the tree below [/tmp]. *)
Definition safe_view (s : SafeStorage H) : Node := subtree (view (host s)) TMP.

#[local] Arguments safe_view : simpl never.

Lemma safe_value s ps : value_at (view (host s)) (TMP ++ ps) = value_at (safe_view s) ps.
Proof. unfold value_at, safe_view. by rewrite subtree_app. Qed.

Lemma safe_subtree s ps : subtree (view (host s)) (TMP ++ ps) = subtree (safe_view s) ps.
Proof. apply subtree_app. Qed.

Lemma safe_node_at s ps : ps <> [] -> node_at (view (host s)) (TMP ++ ps) = node_at (safe_view s) ps.
Proof.
  intros Hne. unfold safe_view, subtree. rewrite node_at_app. destruct (node_at _ TMP); [done |].
  cbn. destruct ps; [done | by rewrite node_at_default].
Qed.

(** The path of the host for a path of the safe storage. *)
Ltac on_tmp p Hp Hl q Hq Hlq :=
  let E := fresh "E" in
  destruct (safe_path_ok p _ Hp Hl) as (q & E & Hq & Hlq);
  cbn; unfold reading, writing; rewrite E.

(** The result of a lifted operation, from the law [Hw] of the host. *)
Ltac lifted h' Hw Hv :=
  unfold lift; cbn; rewrite Hw; exists (mkSafe h'); split; [done |]; unfold safe_view; cbn [host]; rewrite Hv.

#[export] Program Instance safe_laws : RuntimeLaws (SafeStorage H) := {
  view := safe_view;
  limit := limit - 4
}.
Next Obligation. pose proof limit_max. lia. Qed.
Next Obligation.
  intros s p ps Hp Hl. on_tmp p Hp Hl q Hq Hlq. by rewrite (law_has _ q _ Hq Hlq), safe_subtree.
Qed.
Next Obligation.
  intros s p ps o m Hp Hl Ho Hm. on_tmp p Hp Hl q Hq Hlq. by rewrite (law_read _ q _ o m Hq Hlq), safe_value.
Qed.
Next Obligation.
  intros s p ps o m Hp Hl Ho Hm. on_tmp p Hp Hl q Hq Hlq.
  by rewrite (law_read_slice _ q _ o m Hq Hlq), safe_value.
Qed.
Next Obligation.
  intros s p ps v Hp Hl Hv Hlv. on_tmp p Hp Hl q Hq Hlq. rewrite <- safe_value in Hv.
  by apply (law_read_all _ q _ v Hq Hlq).
Qed.
Next Obligation.
  intros s p ps Hp Hl Hv. on_tmp p Hp Hl q Hq Hlq. rewrite <- safe_value in Hv.
  by rewrite (law_read_all_none _ q _ Hq Hlq Hv), safe_subtree.
Qed.
Next Obligation.
  intros s p ps src o Hp Hl Ho. on_tmp p Hp Hl q Hq Hlq.
  pose proof (law_write (host s) q _ src o Hq Hlq Ho) as Hw. cbn zeta in Hw. rewrite safe_value in Hw.
  destruct (_ <? o).
  - unfold lift. rewrite Hw. by destruct s.
  - destruct Hw as (h' & Hw & Hv). lifted h' Hw Hv. by rewrite subtree_set_below.
Qed.
Next Obligation.
  intros s p ps src Hp Hl. on_tmp p Hp Hl q Hq Hlq.
  destruct (law_write_all (host s) q _ src Hq Hlq) as (h' & Hw & Hv). lifted h' Hw Hv.
  by rewrite subtree_set_below.
Qed.
Next Obligation.
  intros s p ps Hp Hl. on_tmp p Hp Hl q Hq Hlq.
  pose proof (law_delete (host s) q _ Hq Hlq) as Hw. rewrite safe_subtree in Hw.
  destruct (is_default _).
  - unfold lift. rewrite Hw. by destruct s.
  - destruct Hw as (h' & Hw & Hv). lifted h' Hw Hv.
    rewrite subtree_del_below; [done | done | by apply (is_path_nonnil p)].
Qed.
Next Obligation.
  intros s p ps Hp Hl. on_tmp p Hp Hl q Hq Hlq.
  destruct (law_delete_value (host s) q _ Hq Hlq) as (h' & Hw & Hv). lifted h' Hw Hv.
  by rewrite subtree_drop_below.
Qed.
Next Obligation.
  intros s p ps Hp Hl. on_tmp p Hp Hl q Hq Hlq.
  by rewrite (law_count _ q _ Hq Hlq), safe_node_at by (by apply (is_path_nonnil p)).
Qed.
Next Obligation.
  intros s p ps r rs Hp Hl Hr Hlr. on_tmp p Hp Hl q Hq Hlq. on_tmp r Hr Hlr q' Hq' Hlq'.
  pose proof (law_move (host s) q _ q' _ Hq Hlq Hq' Hlq') as Hw. cbn zeta in Hw. rewrite safe_subtree in Hw.
  destruct (is_default _).
  - unfold lift. rewrite Hw. by destruct s.
  - destruct Hw as (h' & Hw & Hv). lifted h' Hw Hv.
    by rewrite subtree_insert_below, subtree_del_below by (done || by apply (is_path_nonnil p)).
Qed.
Next Obligation.
  intros s p ps r rs Hp Hl Hr Hlr. on_tmp p Hp Hl q Hq Hlq. on_tmp r Hr Hlr q' Hq' Hlq'.
  pose proof (law_copy (host s) q _ q' _ Hq Hlq Hq' Hlq') as Hw. cbn zeta in Hw. rewrite safe_subtree in Hw.
  destruct (is_default _).
  - unfold lift. rewrite Hw. by destruct s.
  - destruct Hw as (h' & Hw & Hv). lifted h' Hw Hv. by rewrite subtree_insert_below.
Qed.
Next Obligation.
  intros s p ps Hp Hl. on_tmp p Hp Hl q Hq Hlq. by rewrite (law_value_size _ q _ Hq Hlq), safe_value, safe_subtree.
Qed.

(** ** Operations through the safe storage *)
Definition below_tmp (p : Path) : Path := TMP_PATH ++ p.

Definition shift (o : StoreOp) : StoreOp :=
  match o with
  | OWrite p src offset => OWrite (below_tmp p) src offset
  | OWriteAll p src => OWriteAll (below_tmp p) src
  | ODelete p => ODelete (below_tmp p)
  | ODeleteValue p => ODeleteValue (below_tmp p)
  | OMove p q => OMove (below_tmp p) (below_tmp q)
  | OCopy p q => OCopy (below_tmp p) (below_tmp q)
  end.

Lemma shift_paths o : op_paths (shift o) = map below_tmp (op_paths o).
Proof. by destruct o. Qed.

Lemma safe_path_below p : (exists ps, is_path p ps) /\ len p <= limit - 4 ->
  safe_path p = Ok (below_tmp p) /\
  (exists ps, is_path (below_tmp p) ps) /\ len (below_tmp p) <= limit /\
  (exists r, path_steps (below_tmp p) = TMP ++ r).
Proof.
  intros [[ps Hps] Hl]. destruct (safe_path_ok p ps Hps Hl) as (q & E & Hq & Hlq).
  assert (Hqe : q = below_tmp p).
  { unfold safe_path, concat in E. destruct (_ <=? _); [by injection E as <- | done]. }
  subst q. split_and!; [done | by eexists | done |]. exists ps. by apply is_path_steps.
Qed.

Lemma shift_ok o : op_ok (limit - 4) o ->
  op_ok limit (shift o) /\ Forall (fun p => exists r, path_steps p = TMP ++ r) (op_paths (shift o)) /\
  forall s : SafeStorage H, exec o s = lift (exec (shift o)) s.
Proof.
  intros [Hp Ho]. rewrite shift_paths. split; [split | split].
  - rewrite shift_paths. apply Forall_map. eapply Forall_impl; [exact Hp |].
    intros p Hpl. by destruct (safe_path_below p Hpl) as (_ & ? & ? & _).
  - by destruct o.
  - apply Forall_map. eapply Forall_impl; [exact Hp |].
    intros p Hpl. by destruct (safe_path_below p Hpl) as (_ & _ & _ & ?).
  - intros s. destruct o; cbn [op_paths] in Hp; apply Forall_cons in Hp as [Hp1 Hp2];
      destruct (safe_path_below _ Hp1) as (E1 & _);
      try (apply Forall_cons in Hp2 as [Hp3 _]; destruct (safe_path_below _ Hp3) as (E2 & _));
      cbn; unfold writing; rewrite E1, ?E2; done.
Qed.

Lemma safe_exec_all os : forall s : SafeStorage H, Forall (op_ok (limit - 4)) os ->
  exec_all os s = match exec_all (map shift os) (host s) with Some h => Some (mkSafe h) | None => None end.
Proof.
  induction os as [|o os IH]; intros s Hos; cbn; [by destruct s |].
  apply Forall_cons in Hos as [Ho Hos]. destruct (shift_ok o Ho) as (_ & _ & ->). unfold lift.
  destruct (exec (shift o) (host s)); try done; by rewrite IH.
Qed.

(** A run through the safe storage does what it says below [/tmp] and nothing elsewhere. *)
Lemma safe_run os (s : SafeStorage H) : Forall (op_ok (limit - 4)) os ->
  exists s', exec_all os s = Some s' /\ safe_view s' = effects os (safe_view s) /\
    forall q, diverge TMP q -> subtree (view (host s')) q = subtree (view (host s)) q.
Proof.
  intros Hos. destruct (exec_all_effects (L := safe_laws) os s Hos) as (s' & E & Hv).
  exists s'. split; [done |]. split; [done |]. intros q Hq.
  rewrite safe_exec_all in E by done.
  assert (Hok : Forall (op_ok limit) (map shift os)).
  { apply Forall_map. eapply Forall_impl; [exact Hos |]. intros o Ho. by apply shift_ok. }
  destruct (exec_all_effects (L := L) (map shift os) (host s) Hok) as (h' & E' & Hv').
  rewrite E' in E. injection E as <-. cbn. rewrite Hv'. apply effects_frame with TMP; [| done].
  apply Forall_map. eapply Forall_impl; [exact Hos |]. intros o Ho. by apply shift_ok.
Qed.

(** ** The life of a block *)
Context (Hlong : len TMP_WORLD_STATE_PATH <= limit).

Lemma world_limits : len WORLD_STATE_PATH <= limit /\ len TMP_PATH <= limit.
Proof using Hlong. vm_compute len in *. lia. Qed.

Lemma tmp_world_diverge : diverge TMP WORLD.
Proof. apply diverge_cons. left. intros E. vm_compute in E. discriminate. Qed.

Lemma start_spec (s : SafeStorage H) :
  if is_default (subtree (view (host s)) WORLD) then start s = Throw PathNotFound s
  else exists s', start s = Ret tt s' /\
    subtree (safe_view s') WORLD = subtree (view (host s)) WORLD /\
    forall q, diverge TMP q -> subtree (view (host s')) q = subtree (view (host s)) q.
Proof using Hlong.
  destruct world_limits as [Hw Ht].
  pose proof (law_copy (host s) _ _ _ _ world_is_path Hw tmp_world_is_path Hlong) as Hc. cbn zeta in Hc.
  unfold start, lift. destruct (is_default _); [rewrite Hc; by destruct s |].
  destruct Hc as (h' & -> & Hv). exists (mkSafe h'). split; [done |]. cbn [host].
  split; [| intros q Hq; rewrite Hv; by apply subtree_insert_diverge, diverge_app_l].
  unfold safe_view. cbn [host]. by rewrite <- subtree_app, Hv, subtree_insert.
Qed.

Lemma promote_spec (s : SafeStorage H) :
  let w := subtree (safe_view s) WORLD in
  if is_default w then promote s = Throw PathNotFound s
  else exists s', promote s = Ret tt s' /\ subtree (view (host s')) WORLD = w /\
    forall q, diverge TMP q -> diverge WORLD q -> subtree (view (host s')) q = subtree (view (host s)) q.
Proof using Hlong.
  destruct world_limits as [Hw Ht].
  pose proof (law_move (host s) _ _ _ _ tmp_world_is_path Hlong world_is_path Hw) as Hc. cbn zeta in *.
  rewrite safe_subtree in Hc. unfold promote, lift. destruct (is_default _); [rewrite Hc; by destruct s |].
  destruct Hc as (h' & -> & Hv). exists (mkSafe h'). split; [done |]. cbn [host]. rewrite Hv. split.
  - apply subtree_insert.
  - intros q Hq Hq'. rewrite subtree_insert_diverge by done. by apply subtree_del_diverge, diverge_app_l.
Qed.

Lemma revert_spec (s : SafeStorage H) :
  if is_default (safe_view s) then revert s = Throw PathNotFound s
  else exists s', revert s = Ret tt s' /\ safe_view s' = node_default /\
    forall q, diverge TMP q -> subtree (view (host s')) q = subtree (view (host s)) q.
Proof using Hlong.
  destruct world_limits as [Hw Ht].
  pose proof (law_delete (host s) _ _ tmp_is_path Ht) as Hc.
  unfold revert, lift. change (subtree (view (host s)) TMP) with (safe_view s) in Hc.
  destruct (is_default _); [rewrite Hc; by destruct s |].
  destruct Hc as (h' & -> & Hv). exists (mkSafe h'). split; [done |].
  unfold safe_view. cbn [host]. rewrite Hv. split; [by apply subtree_del |].
  intros q Hq. by apply subtree_del_diverge.
Qed.

End Laws.

End EvmSafeStorage.
Export EvmSafeStorage.
