(* ===== verification/EvmIndexable.v ===== *)
(** Push-only indexed storage of the Etherlink kernel
    ([src/etherlink/kernel_evm/kernel/src/indexable_storage.rs]): the values pushed so far,
    each at a path named by its index, and their number. *)

From Stdlib Require Import String Ascii.
From stdpp Require Import strings.
From S2P Require Import Prelude SdkPath SdkStore SdkHost SdkRuntime SdkMock SdkStorage SdkTxn.

Open Scope Z_scope.

Module EvmIndexable.

(** The errors of [src/etherlink/kernel_evm/kernel/src/error.rs] these functions return. *)
Inductive KernelStorageError : Type :=
| KPath (e : PathError)
| KRuntime (e : RuntimeError)
| IndexOutOfBounds.

Definition LENGTH : Path := ascii_bytes "/length".

Definition length_step : bytes := ascii_bytes "length".

(** ** Indices as steps *)
Lemma dec_digits_length fuel z k : 0 <= z < 10 ^ Z.of_nat (S k) ->
  (length (dec_digits fuel z) <= S k)%nat.
Proof.
  revert z k. induction fuel as [|fuel IH]; intros z k Hz; cbn [dec_digits];
    destruct (Z.ltb_spec z 10) as [Hs|Hs]; try (cbn; lia).
  rewrite length_app. cbn [length]. destruct k as [|k].
  - change (10 ^ Z.of_nat 1) with 10 in Hz. lia.
  - enough (length (dec_digits fuel (z / 10)) <= S k)%nat by lia. apply IH. split.
    + apply Z.div_pos; lia.
    + apply Z.div_lt_upper_bound; [lia |]. rewrite (Nat2Z.inj_succ (S k)), Z.pow_succ_r in Hz by lia. lia.
Qed.

Lemma decimal_length z : in_u 64 z -> (length (decimal z) <= 20)%nat.
Proof. intros Hz. apply dec_digits_length. unfold in_u in Hz. cbn. lia. Qed.

Lemma decimal_step z : in_u 64 z -> step_ok (decimal z) /\ decimal z <> ascii_bytes "readonly" /\
  (length (decimal z) <= 20)%nat.
Proof.
  intros Hz. assert (0 <= z) by (unfold in_u in Hz; lia). split_and!.
  - unfold step_ok. rewrite bool_decide_true by (by apply decimal_nonnil).
    unfold decimal. by rewrite dec_digits_allowed.
  - intros E. apply (f_equal (fun bs => hd 0 (rev bs))) in E. unfold decimal in E.
    assert (Hd : forall fuel z, 0 <= z -> dec_digits fuel z <> [] -> 48 <= hd 0 (rev (dec_digits fuel z)) <= 57).
    { clear. intros fuel z Hz. destruct fuel as [|fuel]; cbn [dec_digits];
        (destruct (Z.ltb_spec z 10); [cbn; lia |]); [done |].
      intros _. rewrite rev_app_distr. cbn. pose proof (Z.mod_pos_bound z 10). lia. }
    pose proof (Hd (Z.to_nat (Z.log2 z)) z ltac:(lia) (decimal_nonnil z ltac:(lia))) as Hb.
    rewrite E in Hb. vm_compute in Hb. destruct Hb as [_ Hb]. by apply Hb.
  - by apply decimal_length.
Qed.

Lemma length_not_decimal z : 0 <= z -> length_step <> decimal z.
Proof.
  intros Hz E. pose proof (undecimal_decimal z Hz) as Hu. rewrite <- E in Hu. vm_compute in Hu.
  subst z. vm_compute in E. discriminate.
Qed.

Section Indexable.
Context {H : Type} {R : Runtime H}.

Definition read_u64 (h : H) (path : Path) : result Z RuntimeError :=
  match store_read_slice h path 0 (replicate 8 0) with
  | Err e => Err e
  | Ok (value, buffer) => if value =? 8 then Ok (le_value buffer) else Err DecodingError
  end.

Definition store_u64 (path : Path) (value : Z) : comp H RuntimeError unit :=
  store_write_all path (le_bytes 8 value).

(** [IndexableStorage]: its path. *)
Record IndexableStorage : Type := mkIndexable { ix_path : Path }.

Definition indexable_new (path : Path) : IndexableStorage := mkIndexable path.

(** [value_path]: [None] is the panic of [assert_from]. *)
Definition value_path (self : IndexableStorage) (index : Z) : option (result Path KernelStorageError) :=
  match assert_from (47 :: decimal index) with
  | None => None
  | Some index_subkey =>
      Some (match concat (ix_path self) index_subkey with Ok p => Ok p | Err e => Err (KPath e) end)
  end.

(** An error of the runtime as an error of the kernel. *)
Definition kernel_err {A} (o : outcome H RuntimeError A) : outcome H KernelStorageError A :=
  match o with
  | Ret a h => Ret a h
  | Throw e h => Throw (KRuntime e) h
  | Panic => Panic
  end.

Definition store_index (self : IndexableStorage) (index : Z) (value_repr : bytes)
    : comp H KernelStorageError unit :=
  fun h =>
    match value_path self index with
    | None => Panic
    | Some (Err e) => Throw e h
    | Some (Ok key_path) => kernel_err (store_write_all key_path value_repr h)
    end.

(** The addition overflows a [u64] after [2 ^ 64 - 1] values. *)
Definition get_length_and_increment (self : IndexableStorage) : comp H KernelStorageError Z :=
  fun h =>
    match concat (ix_path self) LENGTH with
    | Err e => Throw (KPath e) h
    | Ok path =>
        let length := match read_u64 h path with Ok l => l | Err _ => 0 end in
        match checked_add 64 length 1 with
        | None => Panic
        | Some next =>
            match kernel_err (store_u64 path next h) with
            | Ret _ h => Ret length h
            | Throw e h => Throw e h
            | Panic => Panic
            end
        end
    end.

Definition indexable_length (self : IndexableStorage) (h : H) : result Z KernelStorageError :=
  match concat (ix_path self) LENGTH with
  | Err e => Err (KPath e)
  | Ok path =>
      match read_u64 h path with
      | Ok l => Ok l
      | Err PathNotFound | Err (HostErr StoreNotAValue) | Err (HostErr StoreInvalidAccess) => Ok 0
      | Err e => Err (KRuntime e)
      end
  end.

(** [unsafe_get_value]: [None] is a panic or a loop. *)
Definition unsafe_get_value (self : IndexableStorage) (h : H) (index : Z)
    : option (result bytes KernelStorageError) :=
  match value_path self index with
  | None => None
  | Some (Err e) => Some (Err e)
  | Some (Ok key_path) =>
      match store_read_all h key_path with
      | None => None
      | Some (Ok v) => Some (Ok v)
      | Some (Err e) => Some (Err (KRuntime e))
      end
  end.

Definition indexable_get_value (self : IndexableStorage) (h : H) (index : Z)
    : option (result bytes KernelStorageError) :=
  match indexable_length self h with
  | Err e => Some (Err e)
  | Ok length => if length <=? index then Some (Err IndexOutOfBounds) else unsafe_get_value self h index
  end.

Definition push_value (self : IndexableStorage) (value : bytes) : comp H KernelStorageError unit :=
  let! new_index := get_length_and_increment self in store_index self new_index value.

(** ** The storage holds a list *)
Context {L : RuntimeLaws H}.
Context (P : Path) (ps : list bytes) (HP : is_path P ps) (Hfit : len P + 21 <= limit).
Implicit Types (h : H) (l : list bytes).

Record holds h l : Prop := {
  holds_length : value_at (view h) (ps ++ [length_step]) = Some (le_bytes 8 (len l)) \/
                 (l = [] /\ value_at (view h) (ps ++ [length_step]) = None);
  holds_value i v : l !! i = Some v -> value_at (view h) (ps ++ [decimal (Z.of_nat i)]) = Some v
}.

Lemma step_path s : step_ok s -> s <> ascii_bytes "readonly" -> (length s <= 20)%nat ->
  exists q, validate_path (47 :: s) = Ok tt /\ concat P (47 :: s) = Ok q /\ is_path q (ps ++ [s]) /\ len q <= limit.
Proof using HP Hfit.
  intros Hs Hr Hl. pose proof limit_max as Hm.
  assert (Hj : 47 :: s = join [s]) by (unfold join; cbn; by rewrite app_nil_r).
  assert (Hp : is_path (47 :: s) [s]).
  { split; [| done]. split_and!; [done | done | by constructor |].
    change PATH_MAX_SIZE with 242. cbn [length]. lia. }
  exists (P ++ 47 :: s). assert (Hlen : len (P ++ 47 :: s) <= limit) by (rewrite length_app; cbn; lia).
  assert (E : concat P (47 :: s) = Ok (P ++ 47 :: s)).
  { unfold concat. destruct (Z.leb_spec (len (P ++ 47 :: s)) PATH_MAX_SIZE); [done | lia]. }
  split_and!; [by apply (is_path_validate _ [s]) | done | | done].
  destruct Hp as [Hg _]. by apply (concat_is_path _ _ _ _ _ HP Hg E).
Qed.

Lemma length_path : exists q, concat P LENGTH = Ok q /\ is_path q (ps ++ [length_step]) /\ len q <= limit.
Proof using HP Hfit.
  destruct (step_path length_step) as (q & _ & E & Hq & Hl); [done | done | cbn; lia |]. by exists q.
Qed.

Lemma value_path_ok index : in_u 64 index ->
  exists q, value_path (mkIndexable P) index = Some (Ok q) /\
            is_path q (ps ++ [decimal index]) /\ len q <= limit.
Proof using HP Hfit.
  intros Hi. destruct (decimal_step index Hi) as (H1 & H2 & H3).
  destruct (step_path (decimal index) H1 H2 H3) as (q & Hv & E & Hq & Hl). exists q.
  unfold value_path, assert_from. rewrite Hv. cbn [ix_path]. by rewrite E.
Qed.

(** The number read at [/length]. *)
Lemma read_length h l q : holds h l -> in_u 64 (len l) -> is_path q (ps ++ [length_step]) -> len q <= limit ->
  read_u64 h q = Ok (len l) \/ (l = [] /\ read_u64 h q = Err (HostErr StoreNotAValue)).
Proof using HP Hfit.
  intros [[Hv|[Hn Hv]] _] Hl Hq Hlq; unfold read_u64;
    rewrite (law_read_slice h q _ 0 _ Hq Hlq) by (cbn; unfold MAX_FILE_CHUNK_SIZE; lia); rewrite Hv; [left | by right].
  rewrite length_le_bytes. cbv zeta.
  change (length (replicate 8 0)) with 8%nat. rewrite drop_0, take_ge by (by rewrite length_le_bytes).
  rewrite length_le_bytes. unfold fill. rewrite length_le_bytes, drop_ge, app_nil_r by done.
  change (Z.of_nat 8 <? 0) with false. change (Z.of_nat 8 =? 8) with true. cbv beta iota.
  rewrite le_value_bytes. f_equal. by apply wrap_small.
Qed.

Lemma value_at_set_sibling n s t v : s <> t ->
  value_at (set_at n (ps ++ [s]) v) (ps ++ [t]) = value_at n (ps ++ [t]).
Proof. intros Hst. unfold value_at. by rewrite subtree_set_diverge by (by apply diverge_snoc). Qed.

Lemma indexable_length_spec h l : holds h l -> in_u 64 (len l) ->
  indexable_length (mkIndexable P) h = Ok (len l).
Proof using HP Hfit.
  intros Hh Hl. unfold indexable_length. destruct length_path as (q & E & Hq & Hlq). cbn [ix_path]. rewrite E.
  destruct (read_length h l q Hh Hl Hq Hlq) as [-> | [-> ->]]; done.
Qed.

Lemma push_value_spec h l v : holds h l -> in_u 64 (len l + 1) ->
  exists h', push_value (mkIndexable P) v h = Ret tt h' /\ holds h' (l ++ [v]) /\
    (forall q, ~ ps `prefix_of` q -> value_at (view h') q = value_at (view h) q) /\
    (forall q, diverge ps q -> subtree (view h') q = subtree (view h) q).
Proof using HP Hfit.
  intros Hh Hl. assert (Hl' : in_u 64 (len l)) by (unfold in_u in *; lia).
  unfold push_value, comp_bind, get_length_and_increment. cbn [ix_path].
  destruct length_path as (q & E & Hq & Hlq). rewrite E.
  assert (Hr : match read_u64 h q with Ok n => n | Err _ => 0 end = len l).
  { by destruct (read_length h l q Hh Hl' Hq Hlq) as [-> | [-> ->]]. }
  rewrite Hr. unfold checked_add. destruct (Z.ltb_spec (len l + 1) (2 ^ 64)); [| unfold in_u in Hl; lia].
  unfold store_u64. destruct (law_write_all h q _ (le_bytes 8 (len l + 1)) Hq Hlq) as (h1 & -> & Hv1).
  cbn [kernel_err]. unfold store_index.
  destruct (value_path_ok (len l) Hl') as (q2 & -> & Hq2 & Hlq2).
  destruct (law_write_all h1 q2 _ v Hq2 Hlq2) as (h2 & -> & Hv2). exists h2. split; [done |].
  assert (Hz : length_step <> decimal (len l)) by (apply length_not_decimal; lia).
  split; [split |]; [| | split].
  - left. rewrite Hv2, value_at_set_sibling, Hv1, value_at_set by done. rewrite length_app. do 2 f_equal. cbn. lia.
  - intros i w Hi. rewrite Hv2. destruct (decide (i = length l)) as [->|Hne].
    + rewrite lookup_app_r, Nat.sub_diag in Hi by lia. injection Hi as <-. by rewrite value_at_set.
    + rewrite lookup_app_l in Hi.
      2: { apply lookup_lt_Some in Hi. rewrite length_app in Hi. cbn in Hi. lia. }
      rewrite value_at_set_sibling.
      2: { intros Ed. apply decimal_inj in Ed; lia. }
      rewrite Hv1, value_at_set_sibling by (apply length_not_decimal; lia). by apply (holds_value _ _ Hh).
  - intros r Hr'. assert (Hn : forall x, ~ (ps ++ [x]) `prefix_of` r).
    { intros x [t Ht]. apply Hr'. exists ([x] ++ t). by rewrite app_assoc. }
    rewrite Hv2. unfold set_at at 1. rewrite value_at_insert_other, Hv1 by done.
    unfold set_at. by rewrite value_at_insert_other.
  - intros r Hr'. by rewrite Hv2, subtree_set_diverge, Hv1, subtree_set_diverge by (by apply diverge_app_l).
Qed.

Lemma get_value_spec h l index : holds h l -> in_u 64 (len l) -> in_u 64 index ->
  Forall (fun v : bytes => len v < 2 ^ 31) l ->
  indexable_get_value (mkIndexable P) h index =
  Some (match l !! Z.to_nat index with Some v => Ok v | None => Err IndexOutOfBounds end).
Proof using HP Hfit.
  intros Hh Hl Hi Hf. unfold indexable_get_value. rewrite (indexable_length_spec h l Hh Hl).
  assert (0 <= index) by (unfold in_u in Hi; lia).
  destruct (Z.leb_spec (len l) index) as [Hge|Hlt].
  - rewrite lookup_ge_None_2 by lia. done.
  - destruct (lookup_lt_is_Some_2 l (Z.to_nat index) ltac:(lia)) as [v Hv]. rewrite Hv.
    unfold unsafe_get_value. destruct (value_path_ok index Hi) as (q & -> & Hq & Hlq).
    rewrite (law_read_all h q _ v Hq Hlq); [done | |].
    + replace index with (Z.of_nat (Z.to_nat index)) by lia. by apply (holds_value _ _ Hh).
    + rewrite Forall_lookup in Hf. by apply (Hf (Z.to_nat index)).
Qed.

End Indexable.

End EvmIndexable.
Export EvmIndexable.
