(* ===== verification/EvmRlp.v ===== *)
(** RLP items and the helpers of the Etherlink kernel on them
    ([src/etherlink/kernel_evm/ethereum/src/rlp_helpers.rs]), and the storage of encoded
    values ([src/etherlink/kernel_evm/kernel/src/storage.rs]).

    The crate [rlp] is not part of the sources: [RlpLib] is its writing of an item as bytes and
    its view of bytes as an item, [None] when the bytes are malformed. *)

From Stdlib Require Import String Ascii.
From stdpp Require Import strings.
From S2P Require Import Prelude SdkPath SdkStore SdkHost SdkRuntime SdkMock.

Open Scope Z_scope.

Module EvmRlp.

#[local] Set Warnings "-register-all".
Inductive Rlp : Type :=
| RData (bs : bytes)
| RList (items : list Rlp).

Class RlpLib := { rlp_out : Rlp -> bytes; rlp_in : bytes -> option Rlp }.

(** Bytes that were written as an item are seen as this item. *)
Class RlpLaws {RL : RlpLib} := {
  rlp_in_out i : rlp_in (rlp_out i) = Some i
}.

(** The traits [Encodable] and [Decodable]. *)
Class Codec (T : Type) := { enc : T -> Rlp; dec : Rlp -> option T }.

Class CodecLaws (T : Type) {C : Codec T} := { dec_enc (x : T) : dec (enc x) = Some x }.

(** [Rlp::is_empty]: the empty string and the empty list. *)
Definition rlp_is_empty (i : Rlp) : bool :=
  match i with RData [] | RList [] => true | _ => false end.

(** [append_option] and [decode_option]. *)
Definition append_option {T} {C : Codec T} (o : option T) : Rlp :=
  match o with Some x => enc x | None => RData [] end.

Definition decode_option {T} {C : Codec T} (i : Rlp) : option (option T) :=
  if rlp_is_empty i then Some None
  else match dec i with Some x => Some (Some x) | None => None end.

Lemma decode_append_option {T} {C : Codec T} {CL : CodecLaws T} (o : option T) :
  (forall x, rlp_is_empty (enc x) = false) -> decode_option (append_option o) = Some o.
Proof.
  intros Hne. unfold decode_option, append_option. destruct o as [x|]; [| done].
  by rewrite Hne, dec_enc.
Qed.

(** What can fail when a value is stored or read ([anyhow::Error]; its messages are left
    out). *)
Inductive KError : Type :=
| KErrPath (e : PathError)
| KErrRuntime (e : RuntimeError)
| KErrDecode.

(** A node with a value and nothing below it. *)
Definition plain (v : bytes) : Node := mkNode (Some v) {[VALUE_NAME := node_default]}.

Lemma kind_of_plain v : kind_of (plain v) = Some Value.
Proof. unfold kind_of, plain. cbn [value inner]. by rewrite bool_decide_true, map_size_singleton by done. Qed.

(** A write to a path without anything below it leaves a plain value there. *)
Lemma subtree_set_plain n ps v : (subtree n ps = node_default \/ exists w, subtree n ps = plain w) ->
  subtree (set_at n ps v) ps = plain v.
Proof.
  intros Hk. unfold set_at. rewrite subtree_insert. fold (subtree n ps). unfold put_value, plain. f_equal.
  destruct Hk as [Hk|[w Hk]]; rewrite Hk; cbn [inner plain node_default]; [done |].
  apply insert_singleton_eq.
Qed.

Section Storage.
Context {H : Type} {R : Runtime H} {RL : RlpLib}.

Definition store_rlp {T} {C : Codec T} (src : T) (path : Path) : comp H KError unit :=
  fun h =>
    match store_write_all path (rlp_out (enc src)) h with
    | Ret a h => Ret a h
    | Throw e h => Throw (KErrRuntime e) h
    | Panic => Panic
    end.

(** Decoding bytes, [FromRlpBytes::from_rlp_bytes]. *)
Definition from_rlp_bytes {T} {C : Codec T} (bs : bytes) : result T KError :=
  match rlp_in bs with
  | None => Err KErrDecode
  | Some i => match dec i with Some x => Ok x | None => Err KErrDecode end
  end.

(** [read_rlp]: [None] when reading the value does not end. *)
Definition read_rlp {T} {C : Codec T} (h : H) (path : Path) : option (result T KError) :=
  match store_read_all h path with
  | None => None
  | Some (Err e) => Some (Err (KErrRuntime e))
  | Some (Ok bs) => Some (from_rlp_bytes bs)
  end.

Definition read_optional_rlp {T} {C : Codec T} (h : H) (path : Path) : option (result (option T) KError) :=
  match store_has h path with
  | Err e => Some (Err (KErrRuntime e))
  | Ok (Some Value) =>
      match read_rlp h path with
      | None => None
      | Some (Err e) => Some (Err e)
      | Some (Ok x) => Some (Ok (Some x))
      end
  | Ok _ => Some (Ok None)
  end.

(** ** What is stored is read back *)
Context {L : RuntimeLaws H} {RLL : RlpLaws}.

Lemma store_rlp_spec {T} {C : Codec T} h (x : T) p ps : is_path p ps -> len p <= limit ->
  exists h', store_rlp x p h = Ret tt h' /\ view h' = set_at (view h) ps (rlp_out (enc x)).
Proof.
  intros Hp Hl. unfold store_rlp.
  destruct (law_write_all h p ps (rlp_out (enc x)) Hp Hl) as (h' & -> & Hv). eauto.
Qed.

(** A value that can be stored and read back: its encoding is short enough, and is decoded. *)
Definition storable {T} {C : Codec T} (x : T) : Prop :=
  len (rlp_out (enc x)) < 2 ^ 31 /\ dec (enc x) = Some x.

(** A path that holds the encoding of [x] and nothing below it. *)
Definition stored {T} {C : Codec T} (n : Node) (ps : list bytes) (x : T) : Prop :=
  subtree n ps = plain (rlp_out (enc x)) /\ storable x.

Lemma read_rlp_spec {T} {C : Codec T} h p ps (x : T) :
  is_path p ps -> len p <= limit -> stored (view h) ps x -> read_rlp h p = Some (Ok x).
Proof using RLL.
  intros Hp Hl [Hv [Hs Hd]]. unfold read_rlp. rewrite (law_read_all h p ps (rlp_out (enc x)) Hp Hl).
  - unfold from_rlp_bytes. by rewrite rlp_in_out, Hd.
  - unfold value_at. by rewrite Hv.
  - done.
Qed.

Lemma read_optional_some {T} {C : Codec T} h p ps (x : T) :
  is_path p ps -> len p <= limit -> stored (view h) ps x -> read_optional_rlp h p = Some (Ok (Some x)).
Proof using RLL.
  intros Hp Hl Hs. unfold read_optional_rlp.
  by rewrite (law_has h p ps Hp Hl), (proj1 Hs), kind_of_plain, (read_rlp_spec h p ps x).
Qed.

Lemma read_optional_none {T} {C : Codec T} h p ps : is_path p ps -> len p <= limit ->
  subtree (view h) ps = node_default -> read_optional_rlp (T := T) h p = Some (Ok None).
Proof.
  intros Hp Hl Hs. unfold read_optional_rlp. by rewrite (law_has h p ps Hp Hl), Hs.
Qed.

End Storage.

End EvmRlp.
Export EvmRlp.
