(* ===== verification/EvmLinkedList.v ===== *)
(** Doubly linked lists in the durable storage
    ([src/etherlink/kernel_evm/kernel/src/linked_list.rs]).

    An element is stored below the hexadecimal name of its identifier: a pointer, with the
    identifiers before and after it, and its data.  The list itself keeps a copy of the first
    and of the last pointer. *)

From Stdlib Require Import String Ascii.
From stdpp Require Import strings.
From S2P Require Import Prelude SdkPath SdkStore SdkHost SdkRuntime SdkMock EvmRlp.

Open Scope Z_scope.

Module EvmLinkedList.

(** The crate [hex]: [hex::encode]. *)
Class HexLib := { hex_encode : bytes -> bytes }.

(** The trait [AsRef<[u8]>]. *)
Class AsRef (T : Type) := { as_ref : T -> bytes }.

(** [Pointer]. *)
Record Pointer (Id : Type) : Type := mkPointer {
  ptr_id : Id;
  ptr_previous : option Id;
  ptr_next : option Id
}.
Arguments mkPointer {Id} ptr_id ptr_previous ptr_next.
Arguments ptr_id {Id} p.
Arguments ptr_previous {Id} p.
Arguments ptr_next {Id} p.

(** [LinkedListPointer]. *)
Record ListPointers (Id : Type) : Type := mkPointers { front : Pointer Id; back : Pointer Id }.
Arguments mkPointers {Id} front back.
Arguments front {Id} l.
Arguments back {Id} l.

(** [LinkedList]. *)
Record LinkedList (Id : Type) : Type := mkList { ll_path : Path; pointers : option (ListPointers Id) }.
Arguments mkList {Id} ll_path pointers.
Arguments ll_path {Id} l.
Arguments pointers {Id} l.

Section Codecs.
Context {Id : Type} {CI : Codec Id}.

#[export] Instance pointer_codec : Codec (Pointer Id) := {
  enc p := RList [enc (ptr_id p); append_option (ptr_previous p); append_option (ptr_next p)];
  dec i :=
    match i with
    | RList [i1; i2; i3] =>
        match dec i1, decode_option i2, decode_option i3 with
        | Some id, Some previous, Some next => Some (mkPointer id previous next)
        | _, _, _ => None
        end
    | _ => None
    end
}.

#[export] Instance pointers_codec : Codec (ListPointers Id) := {
  enc p := RList [enc (front p); enc (back p)];
  dec i :=
    match i with
    | RList [i1; i2] =>
        match dec i1, dec i2 with
        | Some front, Some back => Some (mkPointers front back)
        | _, _ => None
        end
    | _ => None
    end
}.

(** The path is decoded from the data of the item and checked. *)
#[export] Instance list_codec : Codec (LinkedList Id) := {
  enc l := RList [RData (ll_path l); append_option (pointers l)];
  dec i :=
    match i with
    | RList [RData path; i2] =>
        match try_from path, decode_option i2 with
        | Ok path, Some pointers => Some (mkList path pointers)
        | _, _ => None
        end
    | _ => None
    end
}.

End Codecs.

Section List.
Context {H : Type} {R : Runtime H} {RL : RlpLib} {HL : HexLib}.
Context {Id : Type} {CI : Codec Id} {RI : AsRef Id} {Elt : Type} {CE : Codec Elt}.
Abbreviation LL := (LinkedList Id).

(** [concat(prefix, &OwnedPath::try_from(path)?)?]. *)
Definition sub_path (prefix : Path) (path : bytes) : result Path KError :=
  match try_from path with
  | Err e => Err (KErrPath e)
  | Ok path => match concat prefix path with Err e => Err (KErrPath e) | Ok p => Ok p end
  end.

Definition pointer_path (id : Id) (prefix : Path) : result Path KError :=
  sub_path prefix (47 :: hex_encode (as_ref id) ++ ascii_bytes "/pointer").

Definition data_path (id : Id) (prefix : Path) : result Path KError :=
  sub_path prefix (47 :: hex_encode (as_ref id) ++ ascii_bytes "/data").

(** A computation that needs a path first. *)
Definition at_path {A} (p : result Path KError) (k : Path -> comp H KError A) : comp H KError A :=
  match p with Ok p => k p | Err e => comp_throw e end.

(** A read of the storage, as a computation: a read that does not end is a panic. *)
Definition reads {A} (f : H -> option (result A KError)) : comp H KError A :=
  fun h => match f h with Some (Ok a) => Ret a h | Some (Err e) => Throw e h | None => Panic end.

(** [Pointer::save_data], [get_data], [read], [save], [remove_with_data]. *)
Definition save_data (p : Pointer Id) (prefix : Path) (data : Elt) : comp H KError unit :=
  at_path (data_path (ptr_id p) prefix) (store_rlp data).

Definition get_data (p : Pointer Id) (prefix : Path) : comp H KError Elt :=
  at_path (data_path (ptr_id p) prefix) (fun path => reads (fun h => read_rlp h path)).

Definition read_pointer (prefix : Path) (id : Id) : comp H KError (option (Pointer Id)) :=
  at_path (pointer_path id prefix) (fun path => reads (fun h => read_optional_rlp h path)).

Definition save_pointer (p : Pointer Id) (prefix : Path) : comp H KError unit :=
  at_path (pointer_path (ptr_id p) prefix) (store_rlp p).

(** The error of the runtime as an error of the kernel. *)
Definition runtime_kerr {A} (c : comp H RuntimeError A) : comp H KError A :=
  fun h =>
    match c h with
    | Ret a h => Ret a h
    | Throw e h => Throw (KErrRuntime e) h
    | Panic => Panic
    end.

Definition remove_with_data (p : Pointer Id) (prefix : Path) : comp H KError unit :=
  at_path (sub_path prefix (47 :: hex_encode (as_ref (ptr_id p))))
    (fun path => runtime_kerr (store_delete path)).

Definition metadata_path (root : Path) : result Path KError := sub_path root (ascii_bytes "/meta").

(** [LinkedList::save], [read], [new]. *)
Definition save_list (l : LL) : comp H KError unit := at_path (metadata_path (ll_path l)) (store_rlp l).

Definition read_list (path : Path) : comp H KError (option LL) :=
  at_path (metadata_path path) (fun path => reads (fun h => read_optional_rlp h path)).

Definition list_new (path : Path) : comp H KError LL :=
  let! l := read_list path in comp_ret (default (mkList path None) l).

Definition list_is_empty (l : LL) : bool := bool_decide (pointers l = None).

(** The methods on [&mut self] work on the list and the host. *)
Definition LLM (A : Type) : Type := comp (LL * H) KError A.

Definition on_store {A} (c : comp H KError A) : LLM A :=
  fun '(l, h) =>
    match c h with
    | Ret a h => Ret a (l, h)
    | Throw e h => Throw e (l, h)
    | Panic => Panic
    end.

Definition set_pointers (p : option (ListPointers Id)) : LLM unit :=
  fun '(l, h) => Ret tt (mkList (ll_path l) p, h).

Definition save_self : LLM unit := fun '(l, h) => on_store (save_list l) (l, h).

Definition get_self : LLM LL := fun '(l, h) => Ret l (l, h).

Definition list_push (id : Id) (elt : Elt) : LLM unit :=
  let! self := get_self in
  let path := ll_path self in
  let! present := on_store (read_pointer path id) in
  match present with
  | Some _ => comp_ret tt
  | None =>
      match pointers self with
      | Some ptrs =>
          let old := back ptrs in
          let penultimate := mkPointer (ptr_id old) (ptr_previous old) (Some id) in
          let new_back := mkPointer id (Some (ptr_id penultimate)) None in
          on_store (save_pointer penultimate path) ;;;
          on_store (save_pointer new_back path) ;;;
          on_store (save_data new_back path elt) ;;;
          set_pointers (Some (mkPointers (front ptrs) new_back))
      | None =>
          let new_back := mkPointer id None None in
          on_store (save_pointer new_back path) ;;;
          on_store (save_data new_back path elt) ;;;
          set_pointers (Some (mkPointers new_back new_back))
      end ;;;
      save_self
  end.

Definition list_find (id : Id) : LLM (option Elt) :=
  let! self := get_self in
  let path := ll_path self in
  let! pointer := on_store (read_pointer path id) in
  match pointer with
  | None => comp_ret None
  | Some p => on_store (at_path (data_path (ptr_id p) path) (fun q => reads (fun h => read_optional_rlp h q)))
  end.

(** [match pointer.previous] and [match pointer.next] of [remove]. *)
Definition neighbour (path : Path) (id : option Id) : LLM (option (Pointer Id)) :=
  match id with Some id => on_store (read_pointer path id) | None => comp_ret None end.

(** The last [match] of [remove]: the neighbours of a removed pointer are linked. *)
Definition relink (path : Path) (ptrs : ListPointers Id) (previous next : option (Pointer Id)) : LLM unit :=
  match previous, next with
  | None, None => set_pointers None
  | None, Some next =>
      let new_front := mkPointer (ptr_id next) None (ptr_next next) in
      on_store (save_pointer new_front path) ;;;
      set_pointers (Some (mkPointers new_front (back ptrs)))
  | Some previous, None =>
      let new_back := mkPointer (ptr_id previous) (ptr_previous previous) None in
      on_store (save_pointer new_back path) ;;;
      set_pointers (Some (mkPointers (front ptrs) new_back))
  | Some previous, Some next =>
      let new_previous := mkPointer (ptr_id previous) (ptr_previous previous) (Some (ptr_id next)) in
      let new_next := mkPointer (ptr_id next) (Some (ptr_id previous)) (ptr_next next) in
      on_store (save_pointer new_previous path) ;;;
      on_store (save_pointer new_next path)
  end.

Definition list_remove (id : Id) : LLM (option Elt) :=
  let! self := get_self in
  let path := ll_path self in
  match pointers self with
  | None => comp_ret None
  | Some ptrs =>
      let! found := on_store (read_pointer path id) in
      match found with
      | None => comp_ret None
      | Some pointer =>
          let! previous := neighbour path (ptr_previous pointer) in
          let! next := neighbour path (ptr_next pointer) in
          let! data := on_store (get_data pointer path) in
          on_store (remove_with_data pointer path) ;;;
          relink path ptrs previous next ;;;
          save_self ;;;
          comp_ret (Some data)
      end
  end.

Definition list_first : LLM (option Elt) :=
  let! self := get_self in
  match pointers self with
  | None => comp_ret None
  | Some ptrs => let! data := on_store (get_data (front ptrs) (ll_path self)) in comp_ret (Some data)
  end.

Definition list_first_with_id : LLM (option (Id * Elt)) :=
  let! self := get_self in
  match pointers self with
  | None => comp_ret None
  | Some ptrs =>
      let! data := on_store (get_data (front ptrs) (ll_path self)) in
      comp_ret (Some (ptr_id (front ptrs), data))
  end.

Definition list_pop_first : LLM (option Elt) :=
  let! self := get_self in
  match pointers self with
  | None => comp_ret None
  | Some ptrs => list_remove (ptr_id (front ptrs))
  end.

Definition list_delete : LLM unit :=
  let! self := get_self in
  on_store (fun h =>
    match store_has h (ll_path self) with
    | Err e => Throw (KErrRuntime e) h
    | Ok None => Ret tt h
    | Ok (Some _) => runtime_kerr (store_delete (ll_path self)) h
    end) ;;;
  set_pointers None.

End List.

(** ** The laws of the libraries *)
Definition is_hex_digit (b : Z) : bool := ((48 <=? b) && (b <=? 57)) || ((97 <=? b) && (b <=? 102)).

Class HexLaws {HL : HexLib} := {
  hex_digits bs : forallb is_hex_digit (hex_encode bs) = true;
  hex_length bs : length (hex_encode bs) = (2 * length bs)%nat;
  hex_inj bs bs' : Forall (in_u 8) bs -> Forall (in_u 8) bs' -> hex_encode bs = hex_encode bs' -> bs = bs'
}.

(** Identifiers are hashes: byte strings of the same kind, at most 32 bytes. *)
Class IdLaws (Id : Type) {CI : Codec Id} {RI : AsRef Id} := {
  id_bytes (i : Id) : Forall (in_u 8) (as_ref i);
  id_inj (i j : Id) : as_ref i = as_ref j -> i = j;
  id_nonnil (i : Id) : (0 < length (as_ref i) <= 32)%nat;
  id_not_empty (i : Id) : rlp_is_empty (enc i) = false
}.

Section CodecProofs.
Context {Id : Type} {CI : Codec Id} {CL : CodecLaws Id} {RI : AsRef Id} {IL : IdLaws Id}.

#[export] Instance pointer_codec_laws : CodecLaws (Pointer Id).
Proof using CL IL.
  constructor. intros [i p n]. cbn. rewrite dec_enc, !decode_append_option; [done | |]; apply id_not_empty.
Qed.

#[export] Instance pointers_codec_laws : CodecLaws (ListPointers Id).
Proof using CL IL. constructor. intros [f b]. cbn [enc dec pointers_codec front back]. by rewrite !dec_enc. Qed.

Lemma list_codec_law (l : LinkedList Id) ps : is_path (ll_path l) ps -> dec (enc l) = Some l.
Proof using CL IL.
  intros Hp. destruct l as [p o]. cbn [enc dec list_codec ll_path pointers] in *. unfold try_from.
  by rewrite (is_path_validate p ps Hp), decode_append_option.
Qed.

End CodecProofs.

Lemma hex_allowed b : is_hex_digit b = true -> is_allowed_step_byte b = true.
Proof.
  unfold is_hex_digit, is_allowed_step_byte, is_ascii_alphanumeric.
  destruct (Z.leb_spec 48 b), (Z.leb_spec b 57), (Z.leb_spec 97 b), (Z.leb_spec b 102), (Z.leb_spec b 122);
    try done; lia.
Qed.

(** A function updated at a key. *)
Definition upd {K V} `{EqDecision K} (f : K -> V) (k : K) (v : V) : K -> V :=
  fun x => if decide (k = x) then v else f x.

Lemma upd_eq {K V} `{EqDecision K} (f : K -> V) k v : upd f k v k = v.
Proof. unfold upd. by rewrite decide_True. Qed.

Lemma upd_ne {K V} `{EqDecision K} (f : K -> V) k v x : k <> x -> upd f k v x = f x.
Proof. intros Hk. unfold upd. by rewrite decide_False. Qed.

(** ** Linked entries and the list they form *)
Section Linked.
Context {Id Elt : Type} {EqI : EqDecision Id}.
Implicit Types (xs : list (Id * Elt)) (gone : list Id) (k : nat) (id : Id).

Definition ids xs : list Id := map fst xs.

(** The identifier after and before a position.  The first pointer may still name an
    identifier that was removed. *)
Definition next_of xs k : option Id := fst <$> xs !! S k.

Definition prev_ok gone xs k (prev : option Id) : Prop :=
  match k with
  | O => match prev with None => True | Some d => d ∈ gone end
  | S j => prev = fst <$> xs !! j
  end.

Definition ends gone xs (ptrs : option (ListPointers Id)) : Prop :=
  match ptrs with
  | None => xs = []
  | Some p =>
      fst <$> xs !! 0%nat = Some (ptr_id (front p)) /\ fst <$> last xs = Some (ptr_id (back p)) /\
      prev_ok gone xs (length xs - 1) (ptr_previous (back p))
  end.

(** The entries [pt] and [dt] and the ends of the list form [xs]; [gone] are the identifiers
    that were removed. *)
Record linked (ptrs : option (ListPointers Id)) (pt : Id -> option (Pointer Id)) (dt : Id -> option Elt)
    xs gone : Prop := {
  li_nodup : NoDup (ids xs);
  li_gone d : d ∈ gone -> d ∉ ids xs;
  li_in k id e : xs !! k = Some (id, e) ->
    dt id = Some e /\ exists prev, pt id = Some (mkPointer id prev (next_of xs k)) /\ prev_ok gone xs k prev;
  li_out id : id ∉ ids xs -> pt id = None /\ dt id = None;
  li_ends : ends gone xs ptrs
}.

Lemma ids_lookup xs k id e : xs !! k = Some (id, e) -> ids xs !! k = Some id.
Proof. intros Hk. unfold ids. by rewrite list_lookup_fmap, Hk. Qed.

Lemma ids_in xs id : id ∈ ids xs -> exists k e, xs !! k = Some (id, e).
Proof.
  intros Hin. apply list_elem_of_lookup in Hin as [k Hk]. unfold ids in Hk.
  rewrite list_lookup_fmap in Hk. destruct (xs !! k) as [[i e]|] eqn:E; [| done]. injection Hk as ->. by exists k, e.
Qed.

Lemma ids_unique xs (i j : nat) id e e' : NoDup (ids xs) -> xs !! i = Some (id, e) -> xs !! j = Some (id, e') -> i = j.
Proof. intros Hn Hi Hj. apply (NoDup_lookup (ids xs) i j id Hn); by eapply ids_lookup. Qed.

Lemma prev_ok_app gone xs ys k prev : (k <= length xs)%nat -> prev_ok gone xs k prev -> prev_ok gone (xs ++ ys) k prev.
Proof. intros Hk. destruct k as [|j]; [done |]. cbn. intros ->. by rewrite lookup_app_l by lia. Qed.

(** *** A new last element *)
Definition push_entries (ptrs : option (ListPointers Id)) (pt : Id -> option (Pointer Id)) (id : Id)
    : Id -> option (Pointer Id) :=
  match ptrs with
  | None => upd pt id (Some (mkPointer id None None))
  | Some p =>
      upd (upd pt (ptr_id (back p)) (Some (mkPointer (ptr_id (back p)) (ptr_previous (back p)) (Some id))))
        id (Some (mkPointer id (Some (ptr_id (back p))) None))
  end.

Definition push_ends (ptrs : option (ListPointers Id)) (id : Id) : ListPointers Id :=
  match ptrs with
  | None => mkPointers (mkPointer id None None) (mkPointer id None None)
  | Some p => mkPointers (front p) (mkPointer id (Some (ptr_id (back p))) None)
  end.

Lemma ids_app xs ys : ids (xs ++ ys) = ids xs ++ ids ys.
Proof. apply map_app. Qed.

Lemma linked_push_in ptrs pt dt xs gone id e k i x :
  linked ptrs pt dt xs gone -> id ∉ ids xs -> xs !! k = Some (i, x) ->
  exists prev, push_entries ptrs pt id i = Some (mkPointer i prev (next_of (xs ++ [(id, e)]) k)) /\
               prev_ok gone (xs ++ [(id, e)]) k prev.
Proof.
  intros Hl Hid Hk. pose proof (lookup_lt_Some _ _ _ Hk) as Hlt.
  destruct (li_in _ _ _ _ _ Hl k i x Hk) as (_ & prev & Hp & Hprev).
  assert (Hi : id <> i) by (intros ->; apply Hid; apply list_elem_of_lookup; eexists; by eapply ids_lookup).
  pose proof (li_ends _ _ _ _ _ Hl) as He. destruct ptrs as [p|]; [| cbn in He; by subst xs].
  destruct He as (_ & Hb & Hbp). unfold push_entries. rewrite upd_ne by done.
  rewrite last_lookup in Hb. unfold next_of.
  destruct (xs !! pred (length xs)) as [[b xb]|] eqn:Eb; [| done]. cbn in Hb. injection Hb as Hb. subst b.
  destruct (decide (k = pred (length xs))) as [->|Hne].
  - rewrite Hk in Eb. injection Eb as -> ->. rewrite upd_eq. exists (ptr_previous (back p)). split.
    + rewrite lookup_app_r by lia. replace (S (pred (length xs)) - length xs)%nat with 0%nat by lia. done.
    + apply prev_ok_app; [lia |]. by replace (pred (length xs)) with (length xs - 1)%nat by lia.
  - rewrite upd_ne.
    2: { intros <-. apply Hne. apply (ids_unique xs k _ _ x xb (li_nodup _ _ _ _ _ Hl) Hk Eb). }
    exists prev. rewrite lookup_app_l by lia. split; [done |]. apply prev_ok_app; [lia | done].
Qed.

Lemma linked_push ptrs pt dt xs gone id e : linked ptrs pt dt xs gone -> id ∉ ids xs -> id ∉ gone ->
  linked (Some (push_ends ptrs id)) (push_entries ptrs pt id) (upd dt id (Some e)) (xs ++ [(id, e)]) gone.
Proof.
  intros Hl Hid Hg. pose proof Hl as [Hn Hgone Hin Hout He]. split.
  - rewrite ids_app. apply NoDup_app. split_and!; [done | | apply NoDup_singleton].
    intros x Hx [->|?%not_elem_of_nil]%elem_of_cons; done.
  - intros d Hd. rewrite ids_app. intros [Hx|[->|?%not_elem_of_nil]%elem_of_cons]%elem_of_app; try done.
    by apply (Hgone d).
  - intros k i x Hk. apply lookup_app_Some in Hk as [Hk|[Hlen Hk]].
    + split; [| by apply (linked_push_in _ _ dt _ _ _ _ k i x)].
      rewrite upd_ne; [by apply (Hin k i x) |]. intros ->. apply Hid. apply list_elem_of_lookup. eexists.
      by eapply ids_lookup.
    + destruct (k - length xs)%nat as [|m] eqn:Em; [| done]. injection Hk as <- <-.
      replace k with (length xs) by lia. rewrite upd_eq. split; [done |].
      assert (Hnext : next_of (xs ++ [(id, e)]) (length xs) = None).
      { unfold next_of. rewrite lookup_app_r by lia. by replace (S (length xs) - length xs)%nat with 1%nat by lia. }
      rewrite Hnext. destruct ptrs as [p|]; unfold push_entries; rewrite upd_eq.
      * eexists. split; [done |]. destruct He as (_ & Hb & _). rewrite last_lookup in Hb.
        destruct (length xs) as [|j] eqn:Ej; [by destruct xs |]. cbn [prev_ok].
        rewrite lookup_app_l by lia. cbn [Init.Nat.pred] in Hb. by rewrite Hb.
      * eexists. split; [done |]. cbn in He. by subst xs.
  - intros i Hi. rewrite ids_app in Hi. apply not_elem_of_app in Hi as [H1 H2].
    apply not_elem_of_cons in H2 as [H2 _]. destruct (Hout i H1) as [Hp Hd].
    rewrite upd_ne by done. split; [| done]. destruct ptrs as [p|]; unfold push_entries; rewrite !upd_ne; try done.
    intros <-. apply H1. destruct He as (_ & Hb & _). rewrite last_lookup in Hb.
    apply list_elem_of_lookup. exists (pred (length xs)). unfold ids. by rewrite list_lookup_fmap.
  - destruct ptrs as [p|]; cbn [ends push_ends front back ptr_id ptr_previous].
    + destruct He as (Hf & Hb & _). rewrite last_snoc. split_and!; [| done |].
      * destruct xs; done.
      * rewrite length_app, Nat.add_sub. rewrite last_lookup in Hb.
        destruct (length xs) as [|j] eqn:Ej; [by destruct xs |]. cbn [prev_ok].
        rewrite lookup_app_l by lia. cbn [Init.Nat.pred] in Hb. by rewrite Hb.
    + cbn in He. subst xs. done.
Qed.

(** *** An element removed *)

(** The entries after the removal of position [k]: its neighbours are linked to each other. *)
Definition relinked xs k (pt pt' : Id -> option (Pointer Id)) : Prop :=
  forall i id e p, xs !! i = Some (id, e) -> i <> k -> pt id = Some p ->
    pt' id = Some (mkPointer id
      (if decide (i = S k) then match k with O => None | S j => fst <$> xs !! j end else ptr_previous p)
      (if decide (S i = k) then next_of xs k else ptr_next p)).

Lemma delete_lookup_cases {A} (l : list A) k i x : base.delete k l !! i = Some x ->
  ((i < k)%nat /\ l !! i = Some x) \/ ((k <= i)%nat /\ l !! S i = Some x).
Proof.
  intros Hi. destruct (decide (i < k)%nat) as [Hlt|Hge].
  - left. by rewrite list_lookup_delete_lt in Hi.
  - right. rewrite list_lookup_delete_ge in Hi by lia. split; [lia | done].
Qed.

Lemma ids_delete xs k id : id ∈ ids (base.delete k xs) -> id ∈ ids xs.
Proof.
  intros (i & e & Hi)%ids_in. apply list_elem_of_lookup.
  apply delete_lookup_cases in Hi as [[_ Hi]|[_ Hi]]; eexists; by eapply ids_lookup.
Qed.

Lemma ids_delete_self xs k id e : NoDup (ids xs) -> xs !! k = Some (id, e) -> id ∉ ids (base.delete k xs).
Proof.
  intros Hn Hk (i & e' & Hi)%ids_in. apply delete_lookup_cases in Hi as [[? Hi]|[? Hi]];
    pose proof (ids_unique xs _ _ _ _ _ Hn Hi Hk); lia.
Qed.

Lemma ids_delete_other xs k id id' e : xs !! k = Some (id, e) -> id' ∈ ids xs -> id' <> id ->
  id' ∈ ids (base.delete k xs).
Proof.
  intros Hk (i & e' & Hi)%ids_in Hne. apply list_elem_of_lookup.
  destruct (decide (i < k)%nat) as [Hlt|Hge].
  - exists i. apply (ids_lookup _ _ _ e'). by rewrite list_lookup_delete_lt.
  - assert (i <> k) by (intros ->; rewrite Hk in Hi; by injection Hi as ->).
    exists (pred i). apply (ids_lookup _ _ _ e'). rewrite list_lookup_delete_ge by lia.
    by replace (S (pred i)) with i by lia.
Qed.

(** The positions around an element of the shortened list. *)
Lemma next_of_delete xs k i : next_of (base.delete k xs) i =
  if decide (S i < k)%nat then next_of xs i else next_of xs (S i).
Proof.
  unfold next_of. case_decide.
  - by rewrite list_lookup_delete_lt.
  - by rewrite list_lookup_delete_ge by lia.
Qed.

Lemma linked_remove_in ptrs pt dt xs gone k id e pt' i i' x :
  linked ptrs pt dt xs gone -> xs !! k = Some (id, e) -> relinked xs k pt pt' ->
  base.delete k xs !! i = Some (i', x) ->
  exists prev, pt' i' = Some (mkPointer i' prev (next_of (base.delete k xs) i)) /\
               prev_ok (id :: gone) (base.delete k xs) i prev.
Proof.
  intros Hl Hk Hre Hi. rewrite next_of_delete.
  apply delete_lookup_cases in Hi as [[Hlt Hi]|[Hge Hi]].
  - destruct (li_in _ _ _ _ _ Hl i i' x Hi) as (_ & prev & Hp & Hprev).
    rewrite (Hre i i' x _ Hi ltac:(lia) Hp). rewrite (decide_False (P := i = S k)) by lia.
    cbn [ptr_previous ptr_next]. exists prev. split.
    + do 2 f_equal. destruct (decide (S i = k)) as [<-|]; [by rewrite decide_False by lia |].
      by rewrite decide_True by lia.
    + destruct i as [|j]; cbn [prev_ok] in *.
      * destruct prev; [| done]. by apply elem_of_cons; right.
      * by rewrite list_lookup_delete_lt by lia.
  - destruct (li_in _ _ _ _ _ Hl (S i) i' x Hi) as (_ & prev & Hp & Hprev).
    rewrite (Hre (S i) i' x _ Hi ltac:(lia) Hp). cbn [ptr_previous ptr_next].
    rewrite (decide_False (P := S (S i) = k)) by lia. rewrite (decide_False (P := (S i < k)%nat)) by lia.
    eexists. split; [done |]. destruct (decide (S i = S k)) as [[= ->]|Hne].
    + destruct k as [|j]; cbn [prev_ok]; [done |]. by rewrite list_lookup_delete_lt by lia.
    + destruct i as [|j]; [lia |]. cbn [prev_ok] in *. by rewrite list_lookup_delete_ge by lia.
Qed.

Lemma linked_remove ptrs pt dt xs gone k id e ptrs' pt' :
  linked ptrs pt dt xs gone -> xs !! k = Some (id, e) -> relinked xs k pt pt' ->
  (forall i, i ∉ ids xs \/ i = id -> pt' i = None) ->
  ends (id :: gone) (base.delete k xs) ptrs' ->
  linked ptrs' pt' (upd dt id None) (base.delete k xs) (id :: gone).
Proof.
  intros Hl Hk Hre Hnone He. pose proof Hl as [Hn Hgone Hin Hout _].
  assert (Hself : id ∉ ids (base.delete k xs)) by (by eapply ids_delete_self). split.
  - unfold ids. rewrite list_fmap_delete. eapply sublist_NoDup; [exact Hn | apply sublist_delete].
  - intros d [->|Hd]%elem_of_cons; [done |]. intros Hx%ids_delete. by apply (Hgone d).
  - intros i i' x Hi. split; [| by eapply linked_remove_in].
    rewrite upd_ne.
    + apply delete_lookup_cases in Hi as [[_ Hi]|[_ Hi]]; by apply Hin in Hi as [? _].
    + intros <-. apply Hself, list_elem_of_lookup. eexists. by eapply ids_lookup.
  - intros i Hi. destruct (decide (id = i)) as [<-|Hne].
    + rewrite upd_eq. split; [| done]. apply Hnone. by right.
    + assert (i ∉ ids xs) by (intros Hx; apply Hi; by eapply ids_delete_other).
      rewrite upd_ne by done. split; [apply Hnone; by left | by apply Hout].
  - done.
Qed.

(** *** The four ways of relinking *)
Section Relink.
Context (ptrs : option (ListPointers Id)) (pt : Id -> option (Pointer Id)) (dt : Id -> option Elt).
Context xs gone (Hl : linked ptrs pt dt xs gone) k id e (Hk : xs !! k = Some (id, e)).

Lemma ids_ne (i j : nat) a b x y : xs !! i = Some (a, x) -> xs !! j = Some (b, y) -> i <> j -> a <> b.
Proof using Hl. intros Hi Hj Hne ->. apply Hne. apply (ids_unique xs i j b x y (li_nodup _ _ _ _ _ Hl) Hi Hj). Qed.

Definition cut : Id -> option (Pointer Id) := upd pt id None.

Lemma cut_other (i : nat) a x : xs !! i = Some (a, x) -> i <> k -> cut a = pt a.
Proof using Hl Hk. intros Hi Hne. apply upd_ne. by apply (ids_ne k i id a e x). Qed.

(** Entries [pt'] in which only the neighbours of [k] differ from [cut]. *)
Lemma relinked_intro pt' :
  (forall i a x, xs !! i = Some (a, x) -> i <> k -> S i <> k -> i <> S k -> pt' a = pt a) ->
  (forall j a x p, k = S j -> xs !! j = Some (a, x) -> pt a = Some p ->
     pt' a = Some (mkPointer a (ptr_previous p) (next_of xs k))) ->
  (forall a x p, xs !! S k = Some (a, x) -> pt a = Some p ->
     pt' a = Some (mkPointer a (match k with O => None | S j => fst <$> xs !! j end) (ptr_next p))) ->
  relinked xs k pt pt'.
Proof using Hl.
  intros Hother Hprev Hnext i a x p Hi Hne Hp.
  destruct (decide (i = S k)) as [->|Hn1].
  - rewrite (decide_False (P := S (S k) = k)) by lia. by apply (Hnext a x).
  - destruct (decide (S i = k)) as [Hn2|Hn2].
    + by apply (Hprev i a x).
    + rewrite (Hother i a x Hi Hne Hn2 Hn1), Hp. f_equal.
      destruct (li_in _ _ _ _ _ Hl i a x Hi) as (_ & prev & Hp' & _). rewrite Hp in Hp'. by injection Hp' as ->.
Qed.

Lemma relinked_single : length xs = 1%nat -> relinked xs k pt cut.
Proof using Hl Hk.
  intros H1. apply lookup_lt_Some in Hk. apply relinked_intro.
  - intros i a x Hi. apply lookup_lt_Some in Hi. lia.
  - intros j a x p -> Hj. lia.
  - intros a x p Ha. apply lookup_lt_Some in Ha. lia.
Qed.

Lemma relinked_front a x p : k = 0%nat -> xs !! 1%nat = Some (a, x) -> pt a = Some p ->
  relinked xs k pt (upd cut a (Some (mkPointer a None (ptr_next p)))).
Proof using Hl Hk.
  intros Hz Ha Hp. apply relinked_intro.
  - intros i b y Hi Hne _ Hn1. rewrite upd_ne; [by apply (cut_other i b y) |].
    apply (ids_ne 1 i a b x y Ha Hi). lia.
  - intros j b y q Hj. lia.
  - intros b y q Hb Hq. rewrite Hz in Hb. rewrite Ha in Hb. injection Hb as <- <-.
    rewrite Hp in Hq. injection Hq as <-. rewrite upd_eq. by rewrite Hz.
Qed.

Lemma relinked_back j a x p : k = S j -> xs !! j = Some (a, x) -> pt a = Some p -> xs !! S k = None ->
  relinked xs k pt (upd cut a (Some (mkPointer a (ptr_previous p) None))).
Proof using Hl Hk.
  intros Hz Ha Hp Hlast. apply relinked_intro.
  - intros i b y Hi Hne Hn1 _. rewrite upd_ne; [by apply (cut_other i b y) |].
    apply (ids_ne j i a b x y Ha Hi). lia.
  - intros j' b y q Hj Hb Hq. replace j' with j in * by lia. rewrite Ha in Hb. injection Hb as <- <-.
    rewrite Hp in Hq. injection Hq as <-. rewrite upd_eq. unfold next_of. by rewrite Hlast.
  - intros b y q Hb. by rewrite Hlast in Hb.
Qed.

Lemma relinked_middle j a x p b y q : k = S j -> xs !! j = Some (a, x) -> pt a = Some p ->
  xs !! S k = Some (b, y) -> pt b = Some q ->
  relinked xs k pt (upd (upd cut a (Some (mkPointer a (ptr_previous p) (Some b))))
                      b (Some (mkPointer b (Some a) (ptr_next q)))).
Proof using Hl Hk.
  intros Hz Ha Hp Hb Hq. apply relinked_intro.
  - intros i c z Hi Hne Hn1 Hn2. rewrite !upd_ne; [by apply (cut_other i c z) | |].
    + apply (ids_ne j i a c x z Ha Hi). lia.
    + apply (ids_ne (S k) i b c y z Hb Hi). lia.
  - intros j' c z r Hj Hc Hr. replace j' with j in * by lia. rewrite Ha in Hc. injection Hc as <- <-.
    rewrite Hp in Hr. injection Hr as <-. rewrite upd_ne, upd_eq.
    + unfold next_of. by rewrite Hb.
    + apply (ids_ne (S k) j b a y x Hb Ha). lia.
  - intros c z r Hc Hr. rewrite Hb in Hc. injection Hc as <- <-. rewrite Hq in Hr. injection Hr as <-.
    rewrite upd_eq, Hz. by rewrite Ha.
Qed.

(** Nothing is left of the element. *)
Lemma cut_none i : i ∉ ids xs \/ i = id -> cut i = None.
Proof using Hl.
  intros Hi. unfold cut. destruct (decide (id = i)) as [<-|Hne]; [by rewrite upd_eq |].
  rewrite upd_ne by done. destruct Hi as [Hi|]; [by apply (li_out _ _ _ _ _ Hl) | by subst].
Qed.

Lemma upd_none (f : Id -> option (Pointer Id)) (j : nat) a x v : xs !! j = Some (a, x) -> j <> k ->
  (forall i, i ∉ ids xs \/ i = id -> f i = None) -> forall i, i ∉ ids xs \/ i = id -> upd f a v i = None.
Proof using Hl Hk.
  intros Ha Hne Hf i Hi. rewrite upd_ne; [by apply Hf |]. intros <-. destruct Hi as [Hi| ->].
  - apply Hi, list_elem_of_lookup. eexists. by eapply ids_lookup.
  - by apply (ids_ne j k id id x e Ha Hk).
Qed.

(** The ends of the shortened list. *)
Lemma prev_ok_weaken i prev : prev_ok gone xs i prev -> (i < k)%nat -> prev_ok (id :: gone) (base.delete k xs) i prev.
Proof.
  intros Hp Hi. destruct i as [|j]; cbn [prev_ok] in *.
  - destruct prev; [| done]. by apply elem_of_cons; right.
  - by rewrite list_lookup_delete_lt by lia.
Qed.

Lemma last_delete : (S k < length xs)%nat -> last (base.delete k xs) = last xs.
Proof.
  intros Hlt. rewrite !last_lookup, length_delete by (by apply lookup_lt_is_Some_2; lia).
  rewrite list_lookup_delete_ge by lia. f_equal. lia.
Qed.

Lemma back_ok p : ends gone xs (Some p) -> (S k < length xs)%nat -> k = 0%nat \/ S (S k) <> length xs ->
  prev_ok (id :: gone) (base.delete k xs) (length (base.delete k xs) - 1) (ptr_previous (back p)).
Proof using Hk.
  intros (_ & _ & Hb) Hlt Hnp. rewrite length_delete by (by apply lookup_lt_is_Some_2; lia).
  destruct (length xs) as [|[|[|m]]] eqn:En; [lia | lia | |]; cbn [Nat.sub prev_ok] in *.
  - replace k with 0%nat in Hk by lia. rewrite Hb, Hk. apply elem_of_cons. by left.
  - rewrite Hb, list_lookup_delete_ge by lia. done.
Qed.

End Relink.

(** *** Entries *)

(** An entry that is found by its identifier. *)
Definition at_entry (pt : Id -> option (Pointer Id)) (dt : Id -> option Elt) (id : Id) (e : Elt) : Prop :=
  (exists prev next, pt id = Some (mkPointer id prev next)) /\ dt id = Some e.

Lemma entry_upd pt dt id e i v w : at_entry pt dt id e -> i <> id -> at_entry (upd pt i v) (upd dt i w) id e.
Proof. intros [Hp Hd] Hne. split; by rewrite upd_ne. Qed.

Lemma entry_pointer pt dt id e i prev next : at_entry pt dt id e -> at_entry (upd pt i (Some (mkPointer i prev next))) dt id e.
Proof.
  intros [Hp Hd]. split; [| done]. destruct (decide (i = id)) as [->|Hne]; [rewrite upd_eq; eauto | by rewrite upd_ne].
Qed.

(** The end of a list of at least three elements. *)
Lemma linked_end o pt (dt : Id -> option Elt) xs gone a ea b eb c ec : linked o pt dt (xs ++ [(a, ea); (b, eb); (c, ec)]) gone ->
  (exists p, o = Some p /\ ptr_id (back p) = c /\ ptr_previous (back p) = Some b) /\
  (exists pa, pt a = Some (mkPointer a pa (Some b))) /\ (exists pc, pt c = Some (mkPointer c pc None)) /\
  pt b = Some (mkPointer b (Some a) (Some c)) /\ dt b = Some eb.
Proof.
  set (ys := xs ++ _). intros [_ _ Hin _ He].
  assert (Hat : forall k, ys !! (k + length xs)%nat = [(a, ea); (b, eb); (c, ec)] !! k).
  { intros k. unfold ys. rewrite lookup_app_r by lia. by replace (k + length xs - length xs)%nat with k by lia. }
  pose proof (Hat 0%nat) as Ea. pose proof (Hat 1%nat) as Eb. pose proof (Hat 2%nat) as Ec. pose proof (Hat 3%nat) as En. cbn in *.
  assert (Hlen : length ys = S (S (S (length xs)))) by (unfold ys; rewrite length_app; cbn; lia).
  destruct (Hin _ _ _ Ea) as (_ & pa & Hpa & _). destruct (Hin _ _ _ Eb) as (Hdb & pb & Hpb & Hprev).
  destruct (Hin _ _ _ Ec) as (_ & pc & Hpc & _). cbn [prev_ok] in Hprev. rewrite Ea in Hprev. cbn in Hprev. subst pb.
  unfold next_of in *. rewrite Eb in Hpa. rewrite Ec in Hpb. rewrite En in Hpc. split_and!; [| eauto | eauto | done | done].
  destruct o as [p|]; [| cbn in He; by rewrite He in Hlen]. exists p. destruct He as (_ & Hb & Hbp).
  rewrite last_lookup, Hlen in Hb. cbn [Init.Nat.pred] in Hb. rewrite Ec in Hb. injection Hb as Hb.
  rewrite Hlen in Hbp. cbn [Nat.sub prev_ok] in Hbp. rewrite Eb in Hbp. by split_and!.
Qed.

Lemma linked_entry o pt dt xs gone id e : linked o pt dt xs gone -> (id, e) ∈ xs -> at_entry pt dt id e.
Proof.
  intros Hl [k Hk]%list_elem_of_lookup. destruct (li_in _ _ _ _ _ Hl _ _ _ Hk) as (Hd & prev & Hp & _). split; [eauto | done].
Qed.

End Linked.

(** ** What the storage of a list shows *)
Section Store.
Context {H : Type} {R : Runtime H} {L : RuntimeLaws H}.
Context {RL : RlpLib} {RLL : RlpLaws} {HL : HexLib} {HLL : HexLaws}.
Context {Id : Type} {CI : Codec Id} {CIL : CodecLaws Id} {RI : AsRef Id} {IL : IdLaws Id} {EqI : EqDecision Id}.
Context {Elt : Type} {CE : Codec Elt}.
Implicit Types (h : H) (id : Id).

Definition name (id : Id) : bytes := hex_encode (as_ref id).
Definition pointer_step : bytes := ascii_bytes "pointer".
Definition data_step : bytes := ascii_bytes "data".
Definition meta_step : bytes := ascii_bytes "meta".
Lemma name_digits id : forallb is_hex_digit (name id) = true.
Proof using HLL. apply hex_digits. Qed.

Lemma name_ok id : step_ok (name id) /\ (length (name id) <= 64)%nat.
Proof using HLL IL.
  pose proof (id_nonnil id) as Hn. pose proof (hex_length (as_ref id)) as Hl. unfold name. split; [| lia].
  unfold step_ok. rewrite bool_decide_true by (intros E; rewrite E in Hl; cbn in Hl; lia).
  cbn. apply Is_true_true, forallb_forall. intros b Hb. apply hex_allowed.
  pose proof (hex_digits (as_ref id)) as Hd. rewrite forallb_forall in Hd. by apply Hd.
Qed.

(** Names are not words with other letters. *)
Lemma name_not w id b : In b w -> is_hex_digit b = false -> name id <> w.
Proof using HLL.
  intros Hb Hx E. pose proof (name_digits id) as Hd. rewrite E, forallb_forall in Hd.
  by rewrite Hd in Hx.
Qed.

Lemma name_inj id id' : name id = name id' -> id = id'.
Proof using HLL IL.
  intros E. apply id_inj. apply hex_inj; [apply id_bytes | apply id_bytes | done].
Qed.

Context (P : Path) (ps : list bytes) (HP : is_path P ps) (Hfit : len P + 73 <= limit).
Context (Hptr : forall x : Pointer Id, len (rlp_out (enc x)) < 2 ^ 31).
Context (Hlist : forall o : option (ListPointers Id), len (rlp_out (enc (mkList P o))) < 2 ^ 31).

(** What the storage shows outside the list, which no operation on the list changes. *)
Context (F : list bytes -> Node).

Lemma pointer_storable (x : Pointer Id) : storable x.
Proof using CIL IL Hptr. split; [apply Hptr | apply dec_enc]. Qed.

Lemma list_storable o : storable (mkList (Id := Id) P o).
Proof using CIL IL HP Hlist. split; [apply Hlist | by apply (list_codec_law _ ps)]. Qed.

Definition ptr_at id : list bytes := ps ++ [name id; pointer_step].
Definition data_at id : list bytes := ps ++ [name id; data_step].
Definition meta_at : list bytes := ps ++ [meta_step].

(** Paths below the list. *)
Lemma sub_path_ok qs : Forall step_ok qs -> qs <> [] -> hd [] qs <> ascii_bytes "readonly" ->
  len (join qs) <= 73 ->
  exists q, sub_path P (join qs) = Ok q /\ is_path q (ps ++ qs) /\ len q <= limit.
Proof using HP Hfit.
  intros Hs Hne Hr Hl. pose proof limit_max as Hm.
  assert (Hg : path_grammar (join qs) qs) by (split_and!; try done; change PATH_MAX_SIZE with 242; lia).
  assert (Hq : is_path (join qs) qs) by done.
  exists (P ++ join qs). assert (Hlen : len (P ++ join qs) <= limit) by (rewrite length_app; lia).
  assert (E : concat P (join qs) = Ok (P ++ join qs)).
  { unfold concat. destruct (Z.leb_spec (len (P ++ join qs)) PATH_MAX_SIZE); [done | lia]. }
  unfold sub_path, try_from. rewrite (is_path_validate _ qs Hq), E.
  split_and!; [done | by apply (concat_is_path _ _ _ _ _ HP Hg E) | done].
Qed.

Lemma join_name id w : join [name id; w] = 47 :: name id ++ 47 :: w.
Proof. unfold join. cbn. by rewrite app_nil_r. Qed.

Lemma name_not_readonly id : name id <> ascii_bytes "readonly".
Proof using HLL. apply (name_not _ id 114); [by left | done]. Qed.

Lemma entry_path id w : step_ok w -> (length w <= 7)%nat ->
  exists q, sub_path P (47 :: name id ++ 47 :: w) = Ok q /\ is_path q (ps ++ [name id; w]) /\ len q <= limit.
Proof using HLL IL HP Hfit.
  intros Hw Hl. destruct (name_ok id) as [Hn Hnl]. rewrite <- join_name. apply sub_path_ok.
  - by repeat constructor.
  - done.
  - apply name_not_readonly.
  - rewrite join_name. cbn [length]. rewrite length_app. cbn [length]. lia.
Qed.

Lemma pointer_path_ok id : exists q, pointer_path id P = Ok q /\ is_path q (ptr_at id) /\ len q <= limit.
Proof using HLL IL HP Hfit. apply (entry_path id pointer_step); [done | cbn; lia]. Qed.

Lemma data_path_ok id : exists q, data_path id P = Ok q /\ is_path q (data_at id) /\ len q <= limit.
Proof using HLL IL HP Hfit. apply (entry_path id data_step); [done | cbn; lia]. Qed.

Lemma name_path_ok id : exists q, sub_path P (47 :: name id) = Ok q /\ is_path q (ps ++ [name id]) /\ len q <= limit.
Proof using HLL IL HP Hfit.
  destruct (name_ok id) as [Hn Hnl].
  replace (47 :: name id) with (join [name id]) by (unfold join; cbn; by rewrite app_nil_r).
  apply sub_path_ok; [by constructor | done | apply name_not_readonly |].
  unfold join. cbn. rewrite app_nil_r. lia.
Qed.

Lemma meta_path_ok : exists q, metadata_path P = Ok q /\ is_path q meta_at /\ len q <= limit.
Proof using HP Hfit. apply (sub_path_ok [meta_step]); [by constructor | done | done | cbn; lia]. Qed.

(** A path that shows an optional value: its encoding and nothing below, or nothing. *)
Definition shown {T} {C : Codec T} (n : Node) (qs : list bytes) (o : option T) : Prop :=
  match o with
  | Some x => stored n qs x
  | None => subtree n qs = node_default
  end.

(** What the storage shows of a list: the pointer and the data of every identifier, and the
    list itself. *)
Record shows h (pt : Id -> option (Pointer Id)) (dt : Id -> option Elt) (mt : option (LinkedList Id)) : Prop := {
  shows_pointer id : shown (view h) (ptr_at id) (pt id);
  shows_data id : shown (view h) (data_at id) (dt id);
  shows_meta : shown (view h) meta_at mt;
  shows_outside q : diverge ps q -> subtree (view h) q = F q
}.

(** *** Paths of different entries diverge *)
Lemma names_diverge id id' a b : id <> id' -> diverge (ps ++ [name id; a]) (ps ++ [name id'; b]).
Proof using HLL IL.
  intros Hne. apply diverge_app_same, diverge_cons. left. intros E. by apply name_inj in E.
Qed.

Lemma entries_diverge id a b : a <> b -> diverge (ps ++ [name id; a]) (ps ++ [name id; b]).
Proof. intros Hab. apply diverge_app_same, diverge_cons. right. apply diverge_cons. by left. Qed.

Lemma ptr_ptr_diverge id id' : id <> id' -> diverge (ptr_at id) (ptr_at id').
Proof using HLL IL. apply names_diverge. Qed.

Lemma data_data_diverge id id' : id <> id' -> diverge (data_at id) (data_at id').
Proof using HLL IL. apply names_diverge. Qed.

Lemma ptr_data_diverge id id' : diverge (ptr_at id) (data_at id').
Proof using HLL IL EqI.
  destruct (decide (id = id')) as [<-|Hne]; [by apply entries_diverge | by apply names_diverge].
Qed.

Lemma name_meta_diverge id r : diverge (ps ++ name id :: r) meta_at.
Proof using HLL.
  apply diverge_app_same, diverge_cons. left. apply (name_not _ id 109); [by left | done].
Qed.

Lemma shown_set_other {T} {C : Codec T} n qs rs v (o : option T) :
  diverge qs rs -> shown n rs o -> shown (set_at n qs v) rs o.
Proof. intros Hd. unfold shown, stored. by rewrite subtree_set_diverge. Qed.

Lemma shown_set {T} {C : Codec T} {T'} {C' : Codec T'} n qs (o : option T') (x : T) :
  shown n qs o -> storable x -> shown (set_at n qs (rlp_out (enc x))) qs (Some x).
Proof.
  intros Hs Hl. split; [| done]. apply subtree_set_plain. destruct o as [y|].
  - right. eexists. apply Hs.
  - by left.
Qed.

(** *** The operations on entries *)
Section Ops.
Context h (pt : Id -> option (Pointer Id)) (dt : Id -> option Elt) (mt : option (LinkedList Id)).
Context (Hs : shows h pt dt mt).

Lemma read_pointer_spec id : read_pointer P id h = Ret (pt id) h.
Proof using All.
  unfold read_pointer, at_path, reads. destruct (pointer_path_ok id) as (q & -> & Hq & Hl).
  pose proof (shows_pointer _ _ _ _ Hs id) as Hp. destruct (pt id) as [p|].
  - by rewrite (read_optional_some h q _ p Hq Hl Hp).
  - by rewrite (read_optional_none h q _ Hq Hl Hp).
Qed.

Lemma save_pointer_spec p : exists h', save_pointer p P h = Ret tt h' /\
  shows h' (upd pt (ptr_id p) (Some p)) dt mt.
Proof using All.
  unfold save_pointer, at_path. destruct (pointer_path_ok (ptr_id p)) as (q & -> & Hq & Hl).
  destruct (store_rlp_spec h p q _ Hq Hl) as (h' & -> & Hv). exists h'. split; [done |].
  destruct Hs as [H1 H2 H3 H4]. split; rewrite Hv.
  - intros id. destruct (decide (ptr_id p = id)) as [<-|Hne].
    + rewrite upd_eq. apply (shown_set _ _ (pt (ptr_id p))); [done | apply pointer_storable].
    + rewrite upd_ne by done. by apply shown_set_other; [apply ptr_ptr_diverge |].
  - intros id. by apply shown_set_other; [apply ptr_data_diverge |].
  - apply shown_set_other; [apply name_meta_diverge | done].
  - intros r Hr. rewrite subtree_set_diverge by (by apply diverge_app_l). by apply H4.
Qed.

Lemma save_data_spec p x : storable x -> exists h', save_data p P x h = Ret tt h' /\
  shows h' pt (upd dt (ptr_id p) (Some x)) mt.
Proof using All.
  intros Hx. unfold save_data, at_path. destruct (data_path_ok (ptr_id p)) as (q & -> & Hq & Hl).
  destruct (store_rlp_spec h x q _ Hq Hl) as (h' & -> & Hv). exists h'. split; [done |].
  destruct Hs as [H1 H2 H3 H4]. split; rewrite Hv.
  - intros id. by apply shown_set_other; [apply diverge_sym, ptr_data_diverge |].
  - intros id. destruct (decide (ptr_id p = id)) as [<-|Hne].
    + rewrite upd_eq. by apply (shown_set _ _ (dt (ptr_id p))).
    + rewrite upd_ne by done. by apply shown_set_other; [apply data_data_diverge |].
  - apply shown_set_other; [apply name_meta_diverge | done].
  - intros r Hr. rewrite subtree_set_diverge by (by apply diverge_app_l). by apply H4.
Qed.

Lemma get_data_spec p x : dt (ptr_id p) = Some x -> get_data p P h = Ret x h.
Proof using All.
  intros Hx. unfold get_data, at_path, reads. destruct (data_path_ok (ptr_id p)) as (q & -> & Hq & Hl).
  pose proof (shows_data _ _ _ _ Hs (ptr_id p)) as Hd. rewrite Hx in Hd.
  by rewrite (read_rlp_spec h q _ x Hq Hl Hd).
Qed.

Lemma save_list_spec o : exists h', save_list (mkList P o) h = Ret tt h' /\
  shows h' pt dt (Some (mkList P o)).
Proof using All.
  unfold save_list, at_path. cbn [ll_path]. destruct meta_path_ok as (q & -> & Hq & Hl).
  destruct (store_rlp_spec h (mkList P o) q _ Hq Hl) as (h' & -> & Hv). exists h'. split; [done |].
  destruct Hs as [H1 H2 H3 H4]. split.
  - intros id. rewrite Hv. by apply shown_set_other; [apply diverge_sym, name_meta_diverge |].
  - intros id. rewrite Hv. by apply shown_set_other; [apply diverge_sym, name_meta_diverge |].
  - rewrite Hv. apply (shown_set _ _ mt); [done | apply list_storable].
  - intros r Hr. rewrite Hv, subtree_set_diverge by (by apply diverge_app_l). by apply H4.
Qed.

Lemma remove_with_data_spec p : pt (ptr_id p) <> None ->
  exists h', remove_with_data p P h = Ret tt h' /\
    shows h' (upd pt (ptr_id p) None) (upd dt (ptr_id p) None) mt.
Proof using All.
  intros Hne. unfold remove_with_data, at_path, runtime_kerr.
  change (hex_encode (as_ref (ptr_id p))) with (name (ptr_id p)).
  destruct (name_path_ok (ptr_id p)) as (q & -> & Hq & Hl).
  pose proof (law_delete h q _ Hq Hl) as Hd. destruct Hs as [H1 H2 H3 H4].
  destruct (is_default _) eqn:Ed.
  - exfalso. apply Hne. pose proof (H1 (ptr_id p)) as Hp. destruct (pt (ptr_id p)) as [x|]; [| done].
    apply is_default_true in Ed. unfold ptr_at in Hp.
    change [name (ptr_id p); pointer_step] with ([name (ptr_id p)] ++ [pointer_step]) in Hp.
    destruct Hp as [Hp _]. rewrite app_assoc, subtree_app, Ed, subtree_default in Hp. done.
  - destruct Hd as (h' & -> & Hv). exists h'. split; [done |].
    assert (Hgone : forall w, subtree (view h') (ps ++ [name (ptr_id p); w]) = node_default).
    { intros w. change [name (ptr_id p); w] with ([name (ptr_id p)] ++ [w]).
      rewrite app_assoc, subtree_app, Hv, subtree_del by (by intros [? ?]%app_nil). apply subtree_default. }
    assert (Hkeep : forall id w T (C : Codec T) (o : option T), ptr_id p <> id ->
      shown (view h) (ps ++ [name id; w]) o -> shown (view h') (ps ++ [name id; w]) o).
    { intros id w T C o Hn. unfold shown, stored. rewrite Hv, subtree_del_diverge; [done |].
      apply diverge_app_same, diverge_cons. left. intros E. by apply name_inj in E. }
    split.
    + intros id. destruct (decide (ptr_id p = id)) as [<-|Hn].
      * rewrite upd_eq. apply Hgone.
      * rewrite upd_ne by done. apply (Hkeep id pointer_step _ _ _ Hn), H1.
    + intros id. destruct (decide (ptr_id p = id)) as [<-|Hn].
      * rewrite upd_eq. apply Hgone.
      * rewrite upd_ne by done. apply (Hkeep id data_step _ _ _ Hn), H2.
    + unfold shown, stored in *. rewrite Hv, subtree_del_diverge; [done |]. apply name_meta_diverge.
    + intros r Hr. rewrite Hv, subtree_del_diverge by (by apply diverge_app_l). by apply H4.
Qed.

Lemma read_list_spec : (forall l, mt = Some l -> ll_path l = P) -> read_list P h = Ret mt h.
Proof using All.
  intros Hm. unfold read_list, at_path, reads. destruct meta_path_ok as (q & -> & Hq & Hl).
  pose proof (shows_meta _ _ _ _ Hs) as Hmeta. destruct mt as [l|].
  - destruct Hmeta as [Hv [Hlen _]]. unfold read_optional_rlp, read_rlp.
    rewrite (law_has h q _ Hq Hl), Hv, kind_of_plain.
    rewrite (law_read_all h q _ (rlp_out (enc l)) Hq Hl); [| unfold value_at; by rewrite Hv | done].
    unfold from_rlp_bytes. rewrite rlp_in_out, (list_codec_law l ps); [done |].
    by rewrite (Hm l eq_refl).
  - by rewrite (read_optional_none h q _ Hq Hl Hmeta).
Qed.

End Ops.

(** ** The operations on lists *)

(** The list [l] and the storage form [xs]; [gone] are the identifiers that were removed. *)
Record rel (l : LinkedList Id) h (xs : list (Id * Elt)) (gone : list Id) : Prop := {
  rel_path : ll_path l = P;
  rel_shows : exists pt dt mt, shows h pt dt mt /\ linked (pointers l) pt dt xs gone /\
                (mt = Some l \/ mt = None /\ l = mkList P None)
}.

Ltac open_rel Hr pt dt mt Hs Hl Hm :=
  destruct Hr as [Hpath (pt & dt & mt & Hs & Hl & Hm)];
  match type of Hpath with ll_path ?l = _ => destruct l as [lp lptrs]; cbn [ll_path pointers] in *; subst lp end.

Ltac run_ll :=
  repeat (progress unfold comp_bind, get_self, on_store, set_pointers, save_self; cbv beta iota);
  cbn [ll_path pointers ptr_id ptr_previous ptr_next].

Lemma rel_intro h o pt dt xs gone : shows h pt dt (Some (mkList P o)) -> linked o pt dt xs gone ->
  rel (mkList P o) h xs gone.
Proof. intros Hs Hl. split; [done |]. exists pt, dt, (Some (mkList P o)). auto. Qed.

Lemma push_present l h xs gone id e : rel l h xs gone -> id ∈ ids xs ->
  list_push id e (l, h) = Ret tt (l, h).
Proof using All.
  intros Hr Hin. open_rel Hr pt dt mt Hs Hl Hm. unfold list_push. run_ll.
  rewrite (read_pointer_spec h pt dt mt Hs id).
  apply ids_in in Hin as (k & x & Hk). destruct (li_in _ _ _ _ _ Hl k id x Hk) as (_ & prev & -> & _). done.
Qed.

(** An element is pushed on a list that is not empty. *)
Lemma push_step h pt dt mt p id e : shows h pt dt mt -> pt id = None -> storable e ->
  exists h', list_push id e (mkList P (Some p), h) = Ret tt (mkList P (Some (push_ends (Some p) id)), h') /\
    shows h' (push_entries (Some p) pt id) (upd dt id (Some e)) (Some (mkList P (Some (push_ends (Some p) id)))).
Proof using All.
  intros Hs Hnone Hst. unfold list_push. run_ll. rewrite (read_pointer_spec h pt dt mt Hs id), Hnone.
  destruct (save_pointer_spec h pt dt mt Hs
    (mkPointer (ptr_id (back p)) (ptr_previous (back p)) (Some id))) as (h1 & -> & Hs1).
  destruct (save_pointer_spec h1 _ dt mt Hs1
    (mkPointer id (Some (ptr_id (back p))) None)) as (h2 & E2 & Hs2). cbn [ptr_id] in *. rewrite E2.
  destruct (save_data_spec h2 _ dt mt Hs2
    (mkPointer id (Some (ptr_id (back p))) None) e Hst) as (h3 & E3 & Hs3). cbn [ptr_id] in *. rewrite E3.
  run_ll. destruct (save_list_spec h3 _ _ mt Hs3
    (Some (mkPointers (front p) (mkPointer id (Some (ptr_id (back p))) None)))) as (h4 & -> & Hs4).
  by exists h4.
Qed.

Lemma push_spec l h xs gone id e : rel l h xs gone -> id ∉ ids xs -> id ∉ gone -> storable e ->
  exists l' h', list_push id e (l, h) = Ret tt (l', h') /\ rel l' h' (xs ++ [(id, e)]) gone.
Proof using All.
  intros Hr Hid Hg Hst. open_rel Hr pt dt mt Hs Hl Hm.
  pose proof (linked_push _ _ _ _ _ id e Hl Hid Hg) as Hl'. destruct (li_out _ _ _ _ _ Hl id Hid) as [Hnone _].
  destruct lptrs as [p|].
  - destruct (push_step h pt dt mt p id e Hs Hnone Hst) as (h' & E & Hs').
    eexists _, h'. split; [exact E |]. eapply rel_intro; [exact Hs' | exact Hl'].
  - unfold list_push. run_ll. rewrite (read_pointer_spec h pt dt mt Hs id), Hnone.
    destruct (save_pointer_spec h pt dt mt Hs (mkPointer id None None)) as (h2 & -> & Hs2). cbn [ptr_id] in *.
    destruct (save_data_spec h2 _ dt mt Hs2 (mkPointer id None None) e Hst) as (h3 & -> & Hs3). cbn [ptr_id] in *.
    run_ll. destruct (save_list_spec h3 _ _ mt Hs3
      (Some (mkPointers (mkPointer id None None) (mkPointer id None None)))) as (h4 & -> & Hs4).
    eexists _, h4. split; [done |]. eapply rel_intro; [exact Hs4 | exact Hl'].
Qed.

Lemma neighbour_spec o h pt dt mt i : shows h pt dt mt ->
  neighbour P i (mkList P o, h) = Ret (match i with Some i => pt i | None => None end) (mkList P o, h).
Proof using All.
  intros Hs. destruct i as [i|]; [| done]. unfold neighbour. run_ll.
  by rewrite (read_pointer_spec h pt dt mt Hs i).
Qed.

(** A removal up to the moment when the neighbours are linked. *)
Lemma remove_step h pt dt mt p id prev next e : shows h pt dt mt -> pt id = Some (mkPointer id prev next) -> dt id = Some e ->
  exists h1, shows h1 (cut pt id) (upd dt id None) mt /\
    list_remove id (mkList P (Some p), h) =
      (relink P p (match prev with Some i => pt i | None => None end) (match next with Some i => pt i | None => None end) ;;;
       save_self ;;; comp_ret (Some e)) (mkList P (Some p), h1).
Proof using All.
  intros Hs Hp Hd. unfold list_remove. run_ll. rewrite (read_pointer_spec h pt dt mt Hs id), Hp. run_ll.
  rewrite !(neighbour_spec _ h pt dt mt _ Hs). run_ll.
  rewrite (get_data_spec h pt dt mt Hs (mkPointer id prev next) e Hd).
  destruct (remove_with_data_spec h pt dt mt Hs (mkPointer id prev next)) as (h1 & -> & Hs1); [cbn [ptr_id]; by rewrite Hp |].
  exists h1. by split.
Qed.

(** The pointers a removal reads beside its own. *)
Lemma neighbours pt (dt : Id -> option Elt) (xs : list (Id * Elt)) gone lptrs k id e prev : linked lptrs pt dt xs gone ->
  xs !! k = Some (id, e) -> prev_ok gone xs k prev ->
  match prev with Some i => pt i | None => None end =
  match k with
  | O => None
  | S j => match xs !! j with Some (i, _) => pt i | None => None end
  end.
Proof.
  intros Hl Hk Hp. destruct k as [|j]; cbn [prev_ok] in Hp.
  - destruct prev as [d|]; [| done]. apply (li_out _ _ _ _ _ Hl). by apply (li_gone _ _ _ _ _ Hl).
  - rewrite Hp. by destruct (xs !! j) as [[i x]|].
Qed.

Lemma relink_spec h1 pt dt mt (xs : list (Id * Elt)) gone p k id e : shows h1 (cut pt id) (upd dt id None) mt ->
  linked (Some p) pt dt xs gone -> xs !! k = Some (id, e) -> k = 0%nat \/ S (S k) <> length xs ->
  exists o h2 pt',
    relink P p
      (match k with O => None | S j => match xs !! j with Some (i, _) => pt i | None => None end end)
      (match xs !! S k with Some (i, _) => pt i | None => None end)
      (mkList P (Some p), h1) = Ret tt (mkList P o, h2) /\
    shows h2 pt' (upd dt id None) mt /\ linked o pt' (upd dt id None) (base.delete k xs) (id :: gone).
Proof using All.
  intros Hs Hl Hk Hnp. pose proof (lookup_lt_Some _ _ _ Hk) as Hlt.
  pose proof (li_ends _ _ _ _ _ Hl) as Hends. pose proof Hends as (Hf & Hb & _).
  assert (Hcut : forall i, i ∉ ids xs \/ i = id -> cut pt id i = None) by (by eapply cut_none).
  destruct (xs !! S k) as [[b y]|] eqn:Eb.
  - pose proof (lookup_lt_Some _ _ _ Eb) as Hlt'.
    destruct (li_in _ _ _ _ _ Hl (S k) b y Eb) as (_ & pb & Hpb & _). rewrite Hpb.
    destruct k as [|j].
    + unfold relink. run_ll.
      destruct (save_pointer_spec h1 _ _ mt Hs (mkPointer b None (next_of xs 1))) as (h2 & -> & Hs2).
      eexists _, h2, _. split; [done |]. split; [exact Hs2 |]. cbn [ptr_id].
      eapply linked_remove; [exact Hl | exact Hk | | |].
      * apply (relinked_front _ _ _ _ _ Hl 0 id e Hk b y _ eq_refl Eb Hpb).
      * by apply (upd_none _ _ _ _ _ Hl 0 id e Hk _ 1 b y).
      * cbn [ends front back ptr_id]. rewrite last_delete by lia. split_and!; [| done |].
        -- rewrite list_lookup_delete_ge by lia. by rewrite Eb.
        -- by apply (back_ok xs gone 0 id e Hk).
    + destruct (lookup_lt_is_Some_2 xs j ltac:(lia)) as [[a x] Ea]. rewrite Ea.
      destruct (li_in _ _ _ _ _ Hl j a x Ea) as (_ & pa & Hpa & _). rewrite Hpa. unfold relink. run_ll.
      destruct (save_pointer_spec h1 _ _ mt Hs (mkPointer a pa (Some b))) as (h2 & -> & Hs2).
      destruct (save_pointer_spec h2 _ _ mt Hs2 (mkPointer b (Some a) (next_of xs (S (S j))))) as (h3 & -> & Hs3).
      eexists _, h3, _. split; [done |]. split; [exact Hs3 |]. cbn [ptr_id].
      eapply linked_remove; [exact Hl | exact Hk | | |].
      * apply (relinked_middle _ _ _ _ _ Hl (S j) id e Hk j a x _ b y _ eq_refl Ea Hpa Eb Hpb).
      * apply (upd_none _ _ _ _ _ Hl (S j) id e Hk _ (S (S j)) b y _ Eb ltac:(lia)).
        by apply (upd_none _ _ _ _ _ Hl (S j) id e Hk _ j a x _ Ea ltac:(lia)).
      * cbn [ends front back ptr_id]. rewrite last_delete by lia. split_and!; [| done |].
        -- by rewrite list_lookup_delete_lt by lia.
        -- by apply (back_ok xs gone (S j) id e Hk).
  - assert (Hlen : length xs = S k) by (apply lookup_ge_None_1 in Eb; lia).
    destruct k as [|j].
    + unfold relink. run_ll. eexists None, h1, _. split; [done |]. split; [exact Hs |].
      eapply linked_remove; [exact Hl | exact Hk | | done |].
      * by apply (relinked_single _ _ _ _ _ Hl 0 id e Hk).
      * destruct xs as [|z [|? ?]]; done.
    + destruct (lookup_lt_is_Some_2 xs j ltac:(lia)) as [[a x] Ea]. rewrite Ea.
      destruct (li_in _ _ _ _ _ Hl j a x Ea) as (_ & pa & Hpa & Hpok). rewrite Hpa. unfold relink. run_ll.
      destruct (save_pointer_spec h1 _ _ mt Hs (mkPointer a pa None)) as (h2 & -> & Hs2).
      eexists _, h2, _. split; [done |]. split; [exact Hs2 |]. cbn [ptr_id].
      eapply linked_remove; [exact Hl | exact Hk | | |].
      * apply (relinked_back _ _ _ _ _ Hl (S j) id e Hk j a x _ eq_refl Ea Hpa Eb).
      * by apply (upd_none _ _ _ _ _ Hl (S j) id e Hk _ j a x _ Ea ltac:(lia)).
      * cbn [ends front back ptr_id ptr_previous].
        assert (Hd : length (base.delete (S j) xs) = S j) by (rewrite length_delete by (by eexists); lia).
        split_and!.
        -- by rewrite list_lookup_delete_lt by lia.
        -- rewrite last_lookup, Hd. cbn [Init.Nat.pred]. rewrite list_lookup_delete_lt by lia. by rewrite Ea.
        -- rewrite Hd. replace (S j - 1)%nat with j by lia. by apply prev_ok_weaken; [| lia].
Qed.

(** Removing an element, unless it is the last but one of at least three. *)
Lemma remove_spec l h xs gone k id e : rel l h xs gone -> xs !! k = Some (id, e) ->
  k = 0%nat \/ S (S k) <> length xs ->
  exists l' h', list_remove id (l, h) = Ret (Some e) (l', h') /\ rel l' h' (base.delete k xs) (id :: gone).
Proof using All.
  intros Hr Hk Hnp. open_rel Hr pt dt mt Hs Hl Hm.
  destruct lptrs as [p|]; [| pose proof (li_ends _ _ _ _ _ Hl) as He; cbn in He; by subst xs].
  destruct (li_in _ _ _ _ _ Hl k id e Hk) as (Hd & prev & Hp & Hprev).
  destruct (remove_step h pt dt mt p id _ _ e Hs Hp Hd) as (h1 & Hs1 & ->).
  rewrite (neighbours _ _ _ _ _ _ _ _ _ Hl Hk Hprev).
  destruct (relink_spec h1 pt dt mt xs gone p k id e Hs1 Hl Hk Hnp) as (o & h2 & pt' & E & Hs2 & Hl2).
  replace (match next_of xs k with Some i => pt i | None => None end)
    with (match xs !! S k with Some (i, _) => pt i | None => None end)
    by (unfold next_of; by destruct (xs !! S k) as [[? ?]|]).
  unfold comp_bind at 1. rewrite E. run_ll. destruct (save_list_spec h2 _ _ mt Hs2 o) as (h3 & -> & Hs3).
  eexists _, h3. split; [done |]. by eapply rel_intro.
Qed.

Lemma remove_absent l h xs gone id : rel l h xs gone -> id ∉ ids xs ->
  list_remove (Elt := Elt) id (l, h) = Ret None (l, h).
Proof using All.
  intros Hr Hid. open_rel Hr pt dt mt Hs Hl Hm. unfold list_remove. run_ll.
  destruct lptrs as [p|]; [| done]. rewrite (read_pointer_spec h pt dt mt Hs id).
  by destruct (li_out _ _ _ _ _ Hl id Hid) as [-> _].
Qed.

Lemma find_entry h pt dt mt o id e : shows h pt dt mt -> at_entry pt dt id e ->
  list_find id (mkList P o, h) = Ret (Some e) (mkList P o, h).
Proof using All.
  intros Hs [(prev & next & Hp) Hd]. unfold list_find. run_ll.
  rewrite (read_pointer_spec h pt dt mt Hs id), Hp. unfold at_path, reads. run_ll.
  destruct (data_path_ok id) as (q & -> & Hq & Hlq).
  pose proof (shows_data _ _ _ _ Hs id) as Hdata. rewrite Hd in Hdata.
  by rewrite (read_optional_some h q _ e Hq Hlq Hdata).
Qed.

Lemma find_spec l h xs gone k id e : rel l h xs gone -> xs !! k = Some (id, e) ->
  list_find id (l, h) = Ret (Some e) (l, h).
Proof using All.
  intros Hr Hk. open_rel Hr pt dt mt Hs Hl Hm. destruct (li_in _ _ _ _ _ Hl k id e Hk) as (Hd & prev & Hp & _).
  apply (find_entry h pt dt mt); [done |]. split; [eauto | done].
Qed.

Lemma find_absent l h xs gone id : rel l h xs gone -> id ∉ ids xs ->
  list_find (Elt := Elt) id (l, h) = Ret None (l, h).
Proof using All.
  intros Hr Hid. open_rel Hr pt dt mt Hs Hl Hm. unfold list_find. run_ll.
  rewrite (read_pointer_spec h pt dt mt Hs id). by destruct (li_out _ _ _ _ _ Hl id Hid) as [-> _].
Qed.

Lemma first_spec l h xs gone : rel l h xs gone -> list_first_with_id (l, h) = Ret (head xs) (l, h).
Proof using All.
  intros Hr. open_rel Hr pt dt mt Hs Hl Hm. unfold list_first_with_id. run_ll.
  pose proof (li_ends _ _ _ _ _ Hl) as He. destruct lptrs as [p|]; [| cbn in He; by subst xs].
  destruct He as (Hf & _). destruct xs as [|[i e] xs]; [done |]. cbn in Hf. injection Hf as ->.
  destruct (li_in _ _ _ _ _ Hl 0 (ptr_id (front p)) e eq_refl) as (Hd & _).
  by rewrite (get_data_spec h pt dt mt Hs (front p) e Hd).
Qed.

Lemma pop_first_spec l h id e xs gone : rel l h ((id, e) :: xs) gone ->
  exists l' h', list_pop_first (l, h) = Ret (Some e) (l', h') /\ rel l' h' xs (id :: gone).
Proof using All.
  intros Hr. destruct (remove_spec l h _ gone 0 id e Hr eq_refl ltac:(by left)) as (l' & h' & E & Hr').
  exists l', h'. split; [| done]. destruct Hr as [_ (pt & dt & mt & _ & Hl & _)].
  pose proof (li_ends _ _ _ _ _ Hl) as He. unfold list_pop_first. run_ll.
  destruct (pointers l) as [p|]; [| done]. destruct He as (Hf & _). cbn in Hf. injection Hf as <-. done.
Qed.

Lemma pop_first_empty l h gone : rel l h [] gone -> list_pop_first (Elt := Elt) (l, h) = Ret None (l, h).
Proof using All.
  intros [_ (pt & dt & mt & _ & Hl & _)]. pose proof (li_ends _ _ _ _ _ Hl) as He.
  unfold list_pop_first. run_ll. destruct (pointers l) as [p|]; [| done]. by destruct He as (Hf & _).
Qed.

(** *** The last but one element removed *)

(** The removal of [b], before the last element [c]: the entries are right, but the end of the
    list still names [b] as the one before [c]. *)
Lemma remove_penultimate l h xs gone a ea b eb c ec : rel l h (xs ++ [(a, ea); (b, eb); (c, ec)]) gone ->
  exists p h1 pt dt, list_remove b (l, h) = Ret (Some eb) (mkList P (Some p), h1) /\
    shows h1 pt dt (Some (mkList P (Some p))) /\ ptr_id (back p) = c /\ ptr_previous (back p) = Some b /\ pt b = None /\
    (forall id e, (id, e) ∈ xs ++ [(a, ea); (b, eb); (c, ec)] -> id <> b -> at_entry pt dt id e) /\
    (forall id, id ∉ ids (xs ++ [(a, ea); (b, eb); (c, ec)]) -> pt id = None).
Proof using All.
  intros Hr. open_rel Hr pt dt mt Hs Hl Hm.
  destruct (linked_end _ _ _ _ _ _ _ _ _ _ _ Hl) as ((p & -> & Hb & Hbp) & (pa & Hpa) & (pc & Hpc) & Hpb & Hdb).
  assert (Hne : a <> b /\ c <> b).
  { pose proof (li_nodup _ _ _ _ _ Hl) as Hnd. rewrite ids_app in Hnd. apply NoDup_app in Hnd as (_ & _ & Hnd).
    cbn in Hnd. apply NoDup_cons in Hnd as [Ha [Hbc _]%NoDup_cons]. split; intros ->; [by apply Ha; left | by apply Hbc; left]. }
  destruct Hne as [Hab Hcb]. destruct (remove_step h pt dt mt p b _ _ eb Hs Hpb Hdb) as (h1 & Hs1 & ->). rewrite Hpa, Hpc.
  unfold relink. run_ll. destruct (save_pointer_spec h1 _ _ mt Hs1 (mkPointer a pa (Some c))) as (h2 & -> & Hs2).
  destruct (save_pointer_spec h2 _ _ mt Hs2 (mkPointer c (Some a) None)) as (h3 & -> & Hs3). run_ll.
  destruct (save_list_spec h3 _ _ mt Hs3 (Some p)) as (h4 & -> & Hs4). eexists p, h4, _, _. split; [done |]. split; [exact Hs4 |].
  cbn [ptr_id]. split_and!; [done | done | unfold cut; by rewrite !upd_ne, upd_eq by done | |].
  - intros id e Hid Hidb. apply entry_pointer, entry_pointer, entry_upd; [by eapply linked_entry | done].
  - intros id Hid. destruct (li_out _ _ _ _ _ Hl id Hid) as [Hn _]. rewrite ids_app in Hid. cbn in Hid.
    apply not_elem_of_app in Hid as [_ Hid]. rewrite !not_elem_of_cons in Hid. destruct Hid as (Ha & Hb' & Hc & _). unfold cut.
    by rewrite !upd_ne by done.
Qed.

(** The next push writes the stale pointer to the entry of [c]; when [c] is removed, the list
    starts with the new element. *)
Lemma push_remove_stale p h pt dt mt b c ec d ed : shows h pt dt mt -> ptr_id (back p) = c -> ptr_previous (back p) = Some b ->
  pt b = None -> dt c = Some ec -> pt d = None -> b <> c -> d <> b -> d <> c -> storable ed ->
  exists s1 h2 pt' dt', list_push d ed (mkList P (Some p), h) = Ret tt s1 /\
    let l2 := mkList P (Some (mkPointers (mkPointer d None None) (mkPointer d (Some c) None))) in
    list_remove c s1 = Ret (Some ec) (l2, h2) /\ shows h2 pt' dt' (Some l2) /\
    pt' d = Some (mkPointer d None None) /\ dt' d = Some ed /\
    (forall id e, at_entry pt dt id e -> id <> c -> id <> d -> at_entry pt' dt' id e).
Proof using All.
  intros Hs Hc Hb Hnb Hdc Hnd Hbc Hdb Hdc' Hst. destruct (push_step h pt dt mt p d ed Hs Hnd Hst) as (h1 & E1 & Hs1).
  set (pt1 := push_entries (Some p) pt d) in *. set (dt1 := upd dt d (Some ed)) in *. set (p1 := push_ends (Some p) d) in *.
  assert (Epc : pt1 c = Some (mkPointer c (Some b) (Some d))).
  { unfold pt1, push_entries. rewrite upd_ne, Hc, upd_eq, Hb by done. done. }
  assert (Epb : pt1 b = None) by (unfold pt1, push_entries; by rewrite Hc, !upd_ne by done).
  assert (Epd : pt1 d = Some (mkPointer d (Some c) None)) by (unfold pt1, push_entries; by rewrite upd_eq, Hc).
  assert (Ebk : back p1 = mkPointer d (Some c) None) by (unfold p1; cbn [push_ends back]; by rewrite Hc).
  destruct (remove_step h1 pt1 dt1 _ p1 c _ _ ec Hs1 Epc) as (h2 & Hs2 & E2); [unfold dt1; by rewrite upd_ne |].
  rewrite Epb, Epd in E2. unfold relink in E2. revert E2. run_ll.
  destruct (save_pointer_spec h2 _ _ _ Hs2 (mkPointer d None None)) as (h3 & -> & Hs3). run_ll.
  rewrite Ebk.
  destruct (save_list_spec h3 _ _ _ Hs3 (Some (mkPointers (mkPointer d None None) (mkPointer d (Some c) None)))) as (h4 & -> & Hs4).
  intros E2. eexists _, h4, _, _. split; [exact E1 |]. cbn zeta. split; [exact E2 |]. split; [exact Hs4 |]. cbn [ptr_id].
  split_and!; [by rewrite upd_eq | unfold dt1; by rewrite upd_ne, upd_eq by done |].
  intros id e He Hidc Hidd. apply entry_pointer, entry_upd; [| done]. destruct He as [He Hdt]. unfold pt1, dt1, push_entries.
  split; rewrite ?Hc, !upd_ne by done; done.
Qed.

(** A list whose only entry is popped is empty, whatever else is stored. *)
Lemma pop_single h pt dt mt d back ed : shows h pt dt mt -> pt d = Some (mkPointer d None None) -> dt d = Some ed ->
  exists h', list_pop_first (mkList P (Some (mkPointers (mkPointer d None None) back)), h) = Ret (Some ed) (mkList P None, h') /\
    shows h' (cut pt d) (upd dt d None) (Some (mkList P None)).
Proof using All.
  intros Hs Hp Hd. unfold list_pop_first. run_ll. cbn [front ptr_id].
  destruct (remove_step h pt dt mt (mkPointers (mkPointer d None None) back) d None None ed Hs Hp Hd) as (h1 & Hs1 & ->).
  unfold relink. run_ll. destruct (save_list_spec h1 _ _ _ Hs1 None) as (h2 & -> & Hs2). by exists h2.
Qed.

(** A list is found again in the storage. *)
Lemma new_spec l h xs gone : rel l h xs gone -> list_new P h = Ret l h.
Proof using All.
  intros Hr. open_rel Hr pt dt mt Hs Hl Hm. unfold list_new, comp_bind.
  rewrite (read_list_spec h pt dt mt Hs).
  - destruct Hm as [-> | [-> [= ->]]]; done.
  - intros l ->. destruct Hm as [[= ->]|[? ?]]; done.
Qed.

(** Nothing stored below a path is the empty list. *)
Lemma empty_rel h : subtree (view h) ps = node_default -> (forall q, diverge ps q -> subtree (view h) q = F q) -> rel (mkList P None) h [] [].
Proof.
  intros He Ho. split; [done |]. exists (fun _ => None), (fun _ => None), None. split_and!.
  - split; [intros id | intros id | | done]; unfold shown, ptr_at, data_at, meta_at;
      by rewrite subtree_app, He, subtree_default.
  - constructor; try done; [apply NoDup_nil_2 | by intros d ?%not_elem_of_nil].
  - by right.
Qed.

End Store.

(** The storage outside the list may change without changing the list. *)
Section Frame.
Context {H : Type} {R : Runtime H} {L : RuntimeLaws H} {RL : RlpLib} {HL : HexLib}.
Context {Id : Type} {CI : Codec Id} {RI : AsRef Id} {Elt : Type} {CE : Codec Elt}.

Lemma rel_frame P ps F F' l (h h' : H) (xs : list (Id * Elt)) gone : rel P ps F l h xs gone ->
  subtree (view h') ps = subtree (view h) ps -> (forall q, diverge ps q -> subtree (view h') q = F' q) ->
  rel P ps F' l h' xs gone.
Proof.
  intros [Hp (pt & dt & mt & [H1 H2 H3 _] & Hl & Hm)] Hsub Ho. split; [done |]. exists pt, dt, mt. split; [| done].
  split; [intros id; specialize (H1 id) | intros id; specialize (H2 id) | | done]; revert H1 H2 H3;
    unfold shown, stored, ptr_at, data_at, meta_at; by rewrite !subtree_app, Hsub.
Qed.

(** What the storage shows outside the list. *)
Lemma rel_outside P ps F l (h : H) (xs : list (Id * Elt)) gone : rel P ps F l h xs gone ->
  forall q, diverge ps q -> subtree (view h) q = F q.
Proof. intros [_ (pt & dt & mt & Hs & _)]. apply Hs. Qed.

End Frame.

End EvmLinkedList.
Export EvmLinkedList.
