(* ===== verification/EvmConcrete.v ===== *)
(** Concrete libraries for the Etherlink components, on which the code runs. *)

From Stdlib Require Import String Ascii.
From stdpp Require Import strings countable.
From S2P Require Import Prelude SdkPath SdkStore SdkHost SdkRuntime SdkMock EvmRlp EvmLinkedList.

Open Scope Z_scope.

Module EvmConcrete.

(** ** A writing of items as bytes
    Tagged bytes: [0] opens data, each byte of it is preceded by [1], and [2] closes it; [3]
    opens a list and [4] closes it. *)
Fixpoint tagged (i : Rlp) : bytes :=
  match i with
  | RData bs => 0 :: flat_map (fun b => [1; b]) bs ++ [2]
  | RList items => 3 :: flat_map tagged items ++ [4]
  end.

(** Adds an item to the innermost open list. *)
Definition add_item (i : Rlp) (open : list (list Rlp)) : list (list Rlp) :=
  match open with top :: rest => (top ++ [i]) :: rest | [] => [] end.

(** The reader: the data being read, if any, and the open lists, the innermost first. *)
Fixpoint untag (bs : bytes) (data : option bytes) (open : list (list Rlp)) : option Rlp :=
  match bs, data with
  | [], None => match open with [[i]] => Some i | _ => None end
  | [], Some _ => None
  | 1 :: b :: rest, Some d => untag rest (Some (d ++ [b])) open
  | 2 :: rest, Some d => untag rest None (add_item (RData d) open)
  | 0 :: rest, None => untag rest (Some []) open
  | 3 :: rest, None => untag rest None ([] :: open)
  | 4 :: rest, None =>
      match open with items :: open' => untag rest None (add_item (RList items) open') | [] => None end
  | _, _ => None
  end.

Lemma untag_data bs : forall d rest open,
  untag (flat_map (fun b => [1; b]) bs ++ 2 :: rest) (Some d) open = untag rest None (add_item (RData (d ++ bs)) open).
Proof.
  induction bs as [|b bs IH]; intros d rest open; [cbn; by rewrite app_nil_r |].
  cbn [flat_map app untag]. by rewrite IH, <- app_assoc.
Qed.

Lemma untag_tagged : forall i rest top open,
  untag (tagged i ++ rest) None (top :: open) = untag rest None ((top ++ [i]) :: open).
Proof.
  fix IH 1. intros [bs|items] rest top open.
  - cbn [tagged app untag]. rewrite <- app_assoc. cbn [app]. by rewrite untag_data.
  - assert (Hitems : forall items, forall rest top open,
      untag (flat_map tagged items ++ rest) None (top :: open) = untag rest None ((top ++ items) :: open)).
    { clear items rest top open. induction items as [|i items IHl]; intros rest top open; cbn [flat_map app].
      - by rewrite app_nil_r.
      - by rewrite <- app_assoc, IH, IHl, <- app_assoc. }
    cbn [tagged app untag]. by rewrite <- app_assoc, Hitems.
Qed.

#[export] Instance concrete_rlp : RlpLib := { rlp_out := tagged; rlp_in bs := untag bs None [[]] }.

#[export] Instance concrete_rlp_laws : RlpLaws.
Proof.
  constructor. intros i. cbn [rlp_in rlp_out concrete_rlp].
  pose proof (untag_tagged i [] [] []) as E. by rewrite app_nil_r in E.
Qed.

(** ** Hexadecimal names *)
Definition hex_digit (d : Z) : Z := if d <? 10 then 48 + d else 87 + d.

#[export] Instance concrete_hex : HexLib := {
  hex_encode bs := flat_map (fun b => [hex_digit (wrap 8 b / 16); hex_digit (wrap 8 b mod 16)]) bs
}.

(** ** Identifiers of one byte, and bytes as elements *)
Inductive Key : Type := KA | KB | KC | KD.

#[export] Instance Key_eq_dec : EqDecision Key.
Proof. solve_decision. Defined.

Definition key_byte (k : Key) : Z := match k with KA => 10 | KB => 11 | KC => 12 | KD => 13 end.

Definition byte_key (b : Z) : option Key :=
  switch b [(10, Some KA); (11, Some KB); (12, Some KC); (13, Some KD)] None.

#[export] Instance key_codec : Codec Key := {
  enc k := RData [key_byte k];
  dec i := match i with RData [b] => byte_key b | _ => None end
}.

#[export] Instance key_codec_laws : CodecLaws Key.
Proof. constructor. by intros []. Qed.

#[export] Instance key_as_ref : AsRef Key := { as_ref k := [key_byte k] }.

#[export] Instance key_id_laws : IdLaws Key.
Proof.
  constructor.
  - intros []; by repeat constructor.
  - by intros [] [].
  - intros []; cbn; lia.
  - by intros [].
Qed.

Lemma hex_digit_ok d : 0 <= d < 16 -> is_hex_digit (hex_digit d) = true.
Proof.
  intros Hd. unfold hex_digit, is_hex_digit. destruct (Z.ltb_spec d 10).
  - destruct (Z.leb_spec 48 (48 + d)), (Z.leb_spec (48 + d) 57); done || lia.
  - destruct (Z.leb_spec 97 (87 + d)), (Z.leb_spec (87 + d) 102); [| lia ..]. by rewrite orb_true_r.
Qed.

Lemma hex_digit_inj d d' : 0 <= d < 16 -> 0 <= d' < 16 -> hex_digit d = hex_digit d' -> d = d'.
Proof. intros H1 H2. unfold hex_digit. destruct (Z.ltb_spec d 10), (Z.ltb_spec d' 10); lia. Qed.

Lemma byte_halves b : in_u 8 b -> 0 <= b / 16 < 16 /\ 0 <= b mod 16 < 16.
Proof.
  intros [H1 H2]. split; [| apply Z.mod_pos_bound; lia]. split; [apply Z.div_pos; lia |].
  apply Z.div_lt_upper_bound; lia.
Qed.

#[export] Instance concrete_hex_laws : HexLaws.
Proof.
  constructor.
  - intros bs. cbn. induction bs as [|b bs IH]; cbn; [done |].
    destruct (byte_halves (wrap 8 b) (wrap_range 8 b ltac:(lia))) as [H1 H2].
    by rewrite !hex_digit_ok.
  - intros bs. cbn. induction bs as [|b bs IH]; cbn; lia.
  - intros bs bs' Hb. revert bs'. induction Hb as [|b bs Hb _ IH]; intros bs' Hb' E.
    + destruct bs'; done.
    + destruct bs' as [|b' bs']; [done |]. apply Forall_cons in Hb' as [Hb' Hbs']. cbn in E.
      rewrite !wrap_small in E by done. injection E as E1 E2 E3.
      destruct (byte_halves b Hb), (byte_halves b' Hb').
      apply hex_digit_inj in E1; [| lia ..]. apply hex_digit_inj in E2; [| lia ..].
      f_equal; [| by apply IH]. rewrite (Z.div_mod b 16), (Z.div_mod b' 16) by lia. congruence.
Qed.

(** ** A list that loses an element *)
Definition empty_host : HostState := mkHost store_default (mkMetadata [] 0) 0 0 [].

Definition list_path : Path := ascii_bytes "/list".

(** [a], [b] and [c] are pushed, [b] is removed, [d] is pushed and [c] is removed. *)
Definition history : LLM (H := HostState) (Id := Key) (option Key) :=
  list_push KA KA ;;; list_push KB KB ;;; list_push KC KC ;;;
  (let! _ := list_remove (Elt := Key) KB in
   list_push KD KD ;;;
   (let! _ := list_remove (Elt := Key) KC in
    list_pop_first)).

(** ** All the encodings of these lists are short *)
Definition keys : list Key := [KA; KB; KC; KD].
Definition opt_keys : list (option Key) := None :: map Some keys.
Definition all_pointers : list (Pointer Key) :=
  flat_map (fun i => flat_map (fun p => map (mkPointer i p) opt_keys) opt_keys) keys.

Definition short (bs : bytes) : bool := len bs <? 2 ^ 31.

Lemma key_in k : In k keys.
Proof. destruct k; cbn; auto. Qed.

Lemma opt_key_in o : In o opt_keys.
Proof. destruct o as [k|]; [right; apply in_map, key_in | by left]. Qed.

Lemma pointer_in p : In p all_pointers.
Proof.
  destruct p as [i p n]. apply in_flat_map. exists i. split; [apply key_in |].
  apply in_flat_map. exists p. split; [apply opt_key_in | apply in_map, opt_key_in].
Qed.

Lemma pointer_short (x : Pointer Key) : len (rlp_out (enc x)) < 2 ^ 31.
Proof.
  assert (Hall : forallb (fun x => short (rlp_out (enc x))) all_pointers = true) by (vm_compute; reflexivity).
  rewrite forallb_forall in Hall. apply Z.ltb_lt, (Hall x), pointer_in.
Qed.

Lemma key_short (x : Key) : len (rlp_out (enc x)) < 2 ^ 31.
Proof. destruct x; vm_compute; reflexivity. Qed.

Lemma list_short (o : option (ListPointers Key)) : len (rlp_out (enc (mkList list_path o))) < 2 ^ 31.
Proof.
  assert (Hall : forallb (fun f => forallb (fun b =>
    short (rlp_out (enc (mkList list_path (Some (mkPointers f b)))))) all_pointers) all_pointers = true)
    by (vm_compute; reflexivity).
  destruct o as [[f b]|]; [| vm_compute; reflexivity].
  rewrite forallb_forall in Hall. specialize (Hall f (pointer_in f)). rewrite forallb_forall in Hall.
  apply Z.ltb_lt, (Hall b), pointer_in.
Qed.

End EvmConcrete.
Export EvmConcrete.
