(* ===== verification/EvmProps.v ===== *)
(** What the storage of the Etherlink kernel guarantees: blocks are isolated until they are
    promoted, indexed storages are lists, and linked lists are queues, as long as the last but
    one element of a list is not removed. *)

From Stdlib Require Import String Ascii.
From stdpp Require Import strings.
From S2P Require Import Prelude SdkPath SdkStore SdkHost SdkRuntime SdkMock SdkTxn SdkProps EvmSafeStorage EvmIndexable EvmRlp EvmLinkedList EvmConcrete.

Open Scope Z_scope.

Module EvmProps.

(** ** Blocks *)

(** C9: a block is applied to a copy of the world state.  Unless there is
    no world state to copy, the run starts from this copy; whatever sequence of storage
    operations it makes through the safe storage does not panic, acts on what the safe storage
    shows and changes nothing outside [/tmp]; then a promotion makes the world state of the run
    the world state and changes nothing else outside [/tmp], and a revert leaves everything
    outside [/tmp] as it was before the block, and nothing below it. *)
Theorem blocks_are_isolated {H : Type} {R : Runtime H} {L : RuntimeLaws H} (h : H) os :
  len TMP_WORLD_STATE_PATH <= limit -> Forall (op_ok (limit - 4)) os ->
  let world := subtree (view h) WORLD in
  if is_default world then start (mkSafe h) = Throw PathNotFound (mkSafe h)
  else exists s1 s2, start (mkSafe h) = Ret tt s1 /\ exec_all os s1 = Some s2 /\
    subtree (safe_view s1) WORLD = world /\ safe_view s2 = effects os (safe_view s1) /\
    (forall q, diverge TMP q -> subtree (view (host s2)) q = subtree (view h) q) /\
    (let w := subtree (safe_view s2) WORLD in
     if is_default w then promote s2 = Throw PathNotFound s2
     else exists s3, promote s2 = Ret tt s3 /\ subtree (view (host s3)) WORLD = w /\
       forall q, diverge TMP q -> diverge WORLD q -> subtree (view (host s3)) q = subtree (view h) q) /\
    (if is_default (safe_view s2) then revert s2 = Throw PathNotFound s2
     else exists s4, revert s2 = Ret tt s4 /\ safe_view s4 = node_default /\
       forall q, diverge TMP q -> subtree (view (host s4)) q = subtree (view h) q).
Proof.
  intros Hlong Hos world. pose proof (start_spec Hlong (mkSafe h)) as Hst. cbn [host] in Hst.
  fold world in Hst. destruct (is_default world); [done |].
  destruct Hst as (s1 & E1 & Hw & Hf1). destruct (safe_run os s1 Hos) as (s2 & E2 & Hv2 & Hf2).
  exists s1, s2. assert (Hf : forall q, diverge TMP q -> subtree (view (host s2)) q = subtree (view h) q).
  { intros q Hq. by rewrite Hf2, Hf1. }
  split_and!; try done.
  - pose proof (promote_spec Hlong s2) as Hp. cbn zeta in *. destruct (is_default _); [done |].
    destruct Hp as (s3 & E3 & Hw3 & Hf3). exists s3. split_and!; try done.
    intros q Hq Hq'. by rewrite Hf3, Hf.
  - pose proof (revert_spec Hlong s2) as Hp. destruct (is_default _); [done |].
    destruct Hp as (s4 & E4 & Hw4 & Hf4). exists s4. split_and!; try done.
    intros q Hq. by rewrite Hf4, Hf.
Qed.

(** A host with a world state, and a block that writes an account. *)
Definition account : Path := ascii_bytes "/evm/world_state/account".

Definition block_ops : list StoreOp := [OWriteAll account [2]].

Definition world_host : HostState :=
  with_store sample_host (set_value (store sample_host) account [1]).

Lemma block_ops_ok : Forall (op_ok (limit (H := HostState) - 4)) block_ops.
Proof.
  apply Forall_singleton. split; [| done]. apply Forall_singleton.
  split; [apply validate_path_iff; vm_compute; reflexivity | vm_compute; discriminate].
Qed.

Lemma tmp_world_fits : len TMP_WORLD_STATE_PATH <= limit (H := HostState).
Proof. vm_compute. discriminate. Qed.

Lemma blocks_are_isolated_witness :
  exists s1 s2 s3, start (mkSafe world_host) = Ret tt s1 /\ exec_all block_ops s1 = Some s2 /\
    promote s2 = Ret tt s3 /\
    value_at (subtree (view (host s2)) WORLD) [ascii_bytes "account"] = Some [1] /\
    value_at (subtree (view (host s3)) WORLD) [ascii_bytes "account"] = Some [2].
Proof.
  pose proof (blocks_are_isolated (H := HostState) world_host block_ops tmp_world_fits block_ops_ok) as Hb.
  cbv zeta in Hb.
  replace (is_default (subtree (view world_host) WORLD)) with false in Hb by (vm_compute; reflexivity).
  destruct Hb as (s1 & s2 & E1 & E2 & Hw1 & Hv2 & Hf & Hp & _).
  assert (Hw2 : subtree (safe_view s2) WORLD =
    set_at (subtree (view world_host) WORLD) [ascii_bytes "account"] [2]).
  { rewrite Hv2. unfold effects, block_ops. cbn [fold_left effect].
    replace (path_steps account) with (WORLD ++ [ascii_bytes "account"]) by (vm_compute; reflexivity).
    rewrite subtree_set_below, Hw1. reflexivity. }
  rewrite Hw2, is_default_set in Hp. destruct Hp as (s3 & E3 & Hw3 & _).
  exists s1, s2, s3. split; [exact E1 |]. split; [exact E2 |]. split; [exact E3 |]. split.
  - rewrite (Hf WORLD tmp_world_diverge). vm_compute. reflexivity.
  - rewrite Hw3. apply value_at_set.
Defined.

(** ** Indexed storage *)

(** Pushes of a list of values. *)
Fixpoint push_all {H : Type} {R : Runtime H} (self : IndexableStorage) (vs : list bytes)
    : comp H KernelStorageError unit :=
  match vs with
  | [] => comp_ret tt
  | v :: vs => push_value self v ;;; push_all self vs
  end.

(** Pushing values to an empty indexed storage succeeds, then
    the length is their number, every index below it gives its value in the order of the
    pushes, an index from it on is out of bounds, and no value outside the storage changed. *)
Theorem indexed_storage_is_a_list {H : Type} {R : Runtime H} {L : RuntimeLaws H} P ps (h : H) vs :
  is_path P ps -> len P + 21 <= limit -> subtree (view h) ps = node_default ->
  len vs < 2 ^ 64 -> Forall (fun v : bytes => len v < 2 ^ 31) vs ->
  exists h', push_all (mkIndexable P) vs h = Ret tt h' /\
    indexable_length (mkIndexable P) h' = Ok (len vs) /\
    (forall index, in_u 64 index ->
       indexable_get_value (mkIndexable P) h' index =
       Some (match vs !! Z.to_nat index with Some v => Ok v | None => Err IndexOutOfBounds end)) /\
    (forall q, ~ ps `prefix_of` q -> value_at (view h') q = value_at (view h) q).
Proof.
  intros HP Hfit Hempty Hlen Hvs.
  assert (Hrun : forall l h0, holds ps h0 l -> len (l ++ vs) < 2 ^ 64 ->
    exists h', push_all (mkIndexable P) vs h0 = Ret tt h' /\ holds ps h' (l ++ vs) /\
      forall q, ~ ps `prefix_of` q -> value_at (view h') q = value_at (view h0) q).
  { clear Hlen Hvs. induction vs as [|v vs IH]; intros l h0 Hh Hl.
    - exists h0. by rewrite app_nil_r.
    - cbn [push_all]. unfold comp_bind.
      destruct (push_value_spec P ps HP Hfit h0 l v Hh) as (h1 & -> & Hh1 & Hf1 & _).
      { rewrite length_app in Hl. cbn [length] in Hl. unfold in_u. lia. }
      destruct (IH (l ++ [v]) h1 Hh1) as (h2 & E & Hh2 & Hf2).
      { by rewrite <- app_assoc. }
      exists h2. rewrite <- app_assoc in Hh2. split_and!; [done | done |].
      intros q Hq. by rewrite Hf2, Hf1. }
  assert (Hh : holds ps h []).
  { split; [right; split; [done |] | done]. unfold value_at. by rewrite subtree_app, Hempty, subtree_default. }
  destruct (Hrun [] h Hh Hlen) as (h' & E & Hh' & Hf). cbn [app] in Hh'.
  assert (Hu : in_u 64 (len vs)) by (unfold in_u; lia).
  exists h'. split_and!; [done | by apply (indexable_length_spec P ps HP Hfit h' vs) | | done].
  intros index Hi. by apply (get_value_spec P ps HP Hfit h' vs index).
Qed.

Lemma indexed_storage_is_a_list_witness :
  exists h', push_all (H := HostState) (mkIndexable accounts) [[5]; [6; 7]] sample_host = Ret tt h' /\
    indexable_get_value (mkIndexable accounts) h' 1 = Some (Ok [6; 7]) /\
    indexable_get_value (mkIndexable accounts) h' 2 = Some (Err IndexOutOfBounds).
Proof.
  destruct (indexed_storage_is_a_list (H := HostState) accounts (path_steps accounts) sample_host [[5]; [6; 7]])
    as (h' & E & _ & Hg & _).
  - exact accounts_path.
  - vm_compute. discriminate.
  - apply subtree_default.
  - vm_compute. reflexivity.
  - repeat constructor.
  - exists h'. split; [exact E |]. split.
    + rewrite (Hg 1); [reflexivity | unfold in_u; lia].
    + rewrite (Hg 2); [reflexivity | unfold in_u; lia].
Defined.

(** ** Linked lists *)
Inductive ListOp (Id Elt : Type) : Type :=
| LPush (id : Id) (e : Elt)
| LRemove (id : Id)
| LFind (id : Id)
| LFirst
| LPop.
Arguments LPush {Id Elt} id e.
Arguments LRemove {Id Elt} id.
Arguments LFind {Id Elt} id.
Arguments LFirst {Id Elt}.
Arguments LPop {Id Elt}.

Inductive ListAnswer (Id Elt : Type) : Type :=
| LUnit
| LElt (o : option Elt)
| LEntry (o : option (Id * Elt)).
Arguments LUnit {Id Elt}.
Arguments LElt {Id Elt} o.
Arguments LEntry {Id Elt} o.

Section Sequence.
Context {Id Elt : Type} {EqI : EqDecision Id}.
Implicit Types (xs : list (Id * Elt)) (gone : list Id).

(** The position of an identifier in a sequence, and its element. *)
Fixpoint position (id : Id) xs : option (nat * Elt) :=
  match xs with
  | [] => None
  | (i, e) :: xs =>
      if decide (i = id) then Some (0%nat, e)
      else match position id xs with Some (k, e) => Some (S k, e) | None => None end
  end.

Lemma position_some id xs k e : position id xs = Some (k, e) -> xs !! k = Some (id, e).
Proof.
  revert k. induction xs as [|[i x] xs IH]; intros k; cbn; [done |]. case_decide as Hd.
  - intros [= <- <-]. by subst.
  - destruct (position id xs) as [[k' e']|]; [| done]. intros [= <- <-]. by apply IH.
Qed.

Lemma position_none id xs : position id xs = None -> id ∉ ids xs.
Proof.
  induction xs as [|[i x] xs IH]; cbn; [by intros _ ?%not_elem_of_nil |]. case_decide as Hd; [done |].
  destruct (position id xs) as [[k' e']|]; [done |]. intros _ [->|Hin]%elem_of_cons; [done |]. by apply IH.
Qed.

(** The operations on a sequence, with the identifiers that were removed. *)
Definition seq_step (o : ListOp Id Elt) (st : list (Id * Elt) * list Id)
    : ListAnswer Id Elt * (list (Id * Elt) * list Id) :=
  let (xs, gone) := st in
  match o with
  | LPush id e =>
      (LUnit, (match position id xs with Some _ => xs | None => xs ++ [(id, e)] end, gone))
  | LRemove id =>
      match position id xs with
      | Some (k, e) => (LElt (Some e), (base.delete k xs, id :: gone))
      | None => (LElt None, st)
      end
  | LFind id => (LElt (match position id xs with Some (_, e) => Some e | None => None end), st)
  | LFirst => (LEntry (head xs), st)
  | LPop =>
      match xs with
      | [] => (LElt None, st)
      | (id, e) :: xs => (LElt (Some e), (xs, id :: gone))
      end
  end.

Fixpoint seq_run (os : list (ListOp Id Elt)) (st : list (Id * Elt) * list Id)
    : list (ListAnswer Id Elt) * (list (Id * Elt) * list Id) :=
  match os with
  | [] => ([], st)
  | o :: os =>
      let (a, st) := seq_step o st in
      let (l, st) := seq_run os st in (a :: l, st)
  end.

(** A use of a list that is safe: an identifier that was removed is not pushed again, and the
    last but one element is not removed, unless it is the first. *)
Definition seq_safe (o : ListOp Id Elt) (st : list (Id * Elt) * list Id) : Prop :=
  let (xs, gone) := st in
  match o with
  | LPush id _ => id ∉ gone
  | LRemove id =>
      match position id xs with Some (k, _) => k = 0%nat \/ S (S k) <> length xs | None => True end
  | _ => True
  end.

Fixpoint seq_all_safe (os : list (ListOp Id Elt)) (st : list (Id * Elt) * list Id) : Prop :=
  match os with
  | [] => True
  | o :: os => seq_safe o st /\ seq_all_safe os (snd (seq_step o st))
  end.

(** ** The same operations on the code *)
Context {H : Type} {R : Runtime H} {RL : RlpLib} {HL : HexLib}.
Context {CI : Codec Id} {RI : AsRef Id} {CE : Codec Elt}.

Definition ll_answer {A} (f : A -> ListAnswer Id Elt) (o : outcome (LinkedList Id * H) KError A)
    : option (ListAnswer Id Elt * (LinkedList Id * H)) :=
  match o with Ret a s => Some (f a, s) | _ => None end.

Definition ll_step (o : ListOp Id Elt) (s : LinkedList Id * H)
    : option (ListAnswer Id Elt * (LinkedList Id * H)) :=
  match o with
  | LPush id e => ll_answer (fun _ => LUnit) (list_push id e s)
  | LRemove id => ll_answer LElt (list_remove id s)
  | LFind id => ll_answer LElt (list_find id s)
  | LFirst => ll_answer LEntry (list_first_with_id s)
  | LPop => ll_answer LElt (list_pop_first s)
  end.

(** [None] when an operation fails. *)
Fixpoint ll_run (os : list (ListOp Id Elt)) (s : LinkedList Id * H)
    : option (list (ListAnswer Id Elt) * (LinkedList Id * H)) :=
  match os with
  | [] => Some ([], s)
  | o :: os =>
      match ll_step o s with
      | None => None
      | Some (a, s) => match ll_run os s with None => None | Some (l, s) => Some (a :: l, s) end
      end
  end.

Context {L : RuntimeLaws H} {RLL : RlpLaws} {HLL : HexLaws}.
Context {CIL : CodecLaws Id} {IL : IdLaws Id} {CEL : CodecLaws Elt}.
Context (P : Path) (ps : list bytes) (HP : is_path P ps) (Hfit : len P + 73 <= limit).
Context (Hptr : forall x : Pointer Id, len (rlp_out (enc x)) < 2 ^ 31).
Context (Helt : forall x : Elt, len (rlp_out (enc x)) < 2 ^ 31).
Context (Hlist : forall o : option (ListPointers Id), len (rlp_out (enc (mkList P o))) < 2 ^ 31).

Lemma ends_apart (xs : list (Id * Elt)) a ea b eb c ec d : NoDup (ids (xs ++ [(a, ea); (b, eb); (c, ec)])) ->
  d ∉ ids (xs ++ [(a, ea); (b, eb); (c, ec)]) ->
  c <> b /\ d <> b /\ d <> c /\ forall id e, (id, e) ∈ xs ++ [(a, ea)] -> id <> b /\ id <> c /\ id <> d.
Proof.
  change [(a, ea); (b, eb); (c, ec)] with ([(a, ea)] ++ [(b, eb); (c, ec)]). rewrite app_assoc, ids_app.
  change (ids [(b, eb); (c, ec)]) with [b; c]. intros (_ & Hdis & Hbc)%NoDup_app Hd.
  apply not_elem_of_app in Hd as [Hd1 Hd2]. rewrite !not_elem_of_cons in Hd2. destruct Hd2 as (Hdb & Hdc & _).
  apply NoDup_cons in Hbc as [Hbc _]. rewrite not_elem_of_cons in Hbc. split_and!; [| done | done |]; [by intros ->; destruct Hbc |].
  intros id e Hin. assert (Hid : id ∈ ids (xs ++ [(a, ea)])) by (apply list_elem_of_In, in_map_iff; exists (id, e); split; [done | by apply list_elem_of_In]).
  specialize (Hdis id Hid). rewrite !not_elem_of_cons in Hdis. split_and!; [apply Hdis | apply Hdis | by intros ->].
Qed.

Section Refinement.
Context (F : list bytes -> Node).

#[local] Abbreviation related := (EvmLinkedList.rel P ps F).

Lemma elt_storable (x : Elt) : storable x.
Proof using CEL Helt. split; [apply Helt | apply dec_enc]. Qed.

Lemma ll_step_refines o l h xs gone : related l h xs gone -> seq_safe o (xs, gone) ->
  exists l' h', ll_step o (l, h) = Some (fst (seq_step o (xs, gone)), (l', h')) /\
    related l' h' (fst (snd (seq_step o (xs, gone)))) (snd (snd (seq_step o (xs, gone)))).
Proof using All.
  intros Hr Hsafe. destruct o as [id e|id|id| |]; cbn [ll_step seq_step seq_safe] in *.
  - destruct (position id xs) as [[k x]|] eqn:Ep.
    + exists l, h. rewrite (push_present (Elt := Elt) P ps HP Hfit Hptr Hlist F l h xs gone id e Hr); [done |].
      apply position_some, ids_lookup in Ep. apply list_elem_of_lookup. eauto.
    + destruct (push_spec P ps HP Hfit Hptr Hlist F l h xs gone id e Hr (position_none _ _ Ep) Hsafe (elt_storable e))
        as (l' & h' & -> & Hr'). by exists l', h'.
  - destruct (position id xs) as [[k x]|] eqn:Ep.
    + destruct (remove_spec P ps HP Hfit Hptr Hlist F l h xs gone k id x Hr (position_some _ _ _ _ Ep) Hsafe)
        as (l' & h' & -> & Hr'). by exists l', h'.
    + exists l, h. by rewrite (remove_absent P ps HP Hfit Hptr Hlist F l h xs gone id Hr (position_none _ _ Ep)).
  - exists l, h. destruct (position id xs) as [[k x]|] eqn:Ep.
    + by rewrite (find_spec P ps HP Hfit Hptr Hlist F l h xs gone k id x Hr (position_some _ _ _ _ Ep)).
    + by rewrite (find_absent P ps HP Hfit Hptr Hlist F l h xs gone id Hr (position_none _ _ Ep)).
  - exists l, h. by rewrite (first_spec P ps HP Hfit Hptr Hlist F l h xs gone Hr).
  - destruct xs as [|[id e] xs].
    + exists l, h. by rewrite (pop_first_empty P ps HP Hfit Hptr Hlist F l h gone Hr).
    + destruct (pop_first_spec P ps HP Hfit Hptr Hlist F l h id e xs gone Hr) as (l' & h' & -> & Hr').
      by exists l', h'.
Qed.

Lemma ll_run_refines os : forall l h xs gone, related l h xs gone -> seq_all_safe os (xs, gone) ->
  exists l' h', ll_run os (l, h) = Some (fst (seq_run os (xs, gone)), (l', h')) /\
    related l' h' (fst (snd (seq_run os (xs, gone)))) (snd (snd (seq_run os (xs, gone)))).
Proof using All.
  induction os as [|o os IH]; intros l h xs gone Hr Hs; cbn [ll_run seq_run]; [by exists l, h |].
  destruct Hs as [Ho Hos]. destruct (ll_step_refines o l h xs gone Hr Ho) as (l1 & h1 & -> & Hr1).
  destruct (seq_step o (xs, gone)) as [a [xs1 gone1]]. cbn [fst snd] in *.
  destruct (IH l1 h1 xs1 gone1 Hr1 Hos) as (l2 & h2 & -> & Hr2).
  destruct (seq_run os (xs1, gone1)) as [as2 st2]. by exists l2, h2.
Qed.

End Refinement.

Abbreviation related h := (EvmLinkedList.rel P ps (subtree (view h))).

(** C13: from an empty storage, a use of a linked list that never
    pushes an identifier again after it was removed, and never removes the last but one of at
    least three elements, gives the answers it gives on a sequence: pushes append, removals
    return and delete the element wherever it is, searches find it, and the first element is
    the oldest.  The list found in the storage afterwards is the list in memory, and nothing
    outside its path has changed. *)
Theorem linked_list_is_a_sequence os (h : H) :
  subtree (view h) ps = node_default -> seq_all_safe os ([], []) ->
  exists l' h', list_new (Id := Id) P h = Ret (mkList P None) h /\
    ll_run os (mkList P None, h) = Some (fst (seq_run os ([], [])), (l', h')) /\
    list_new P h' = Ret l' h' /\
    (forall q, diverge ps q -> subtree (view h') q = subtree (view h) q).
Proof using All.
  intros Hempty Hos. pose proof (empty_rel (Elt := Elt) P ps _ h Hempty (fun q _ => eq_refl)) as Hr.
  destruct (ll_run_refines (subtree (view h)) os (mkList P None) h [] [] Hr Hos) as (l' & h' & E & Hr').
  exists l', h'. split; [exact (new_spec P ps HP Hfit Hptr Hlist _ _ h [] [] Hr) |].
  split; [done |]. split; [exact (new_spec P ps HP Hfit Hptr Hlist _ l' h' _ _ Hr') | exact (rel_outside _ _ _ _ _ _ _ Hr')].
Qed.

(** C14: after any safe use of a linked list, popping as many times
    as there are elements serves every one of them, oldest first, and the next pop finds the
    list empty: no element that was pushed and not removed is lost. *)
Theorem queued_elements_are_served os (h : H) :
  subtree (view h) ps = node_default -> seq_all_safe os ([], []) ->
  let xs := fst (snd (seq_run os ([], []))) in
  exists answers s1 s2 s3, ll_run os (mkList P None, h) = Some (answers, s1) /\
    ll_run (repeat LPop (length xs)) s1 = Some (map (fun x => LElt (Some (snd x))) xs, s2) /\
    ll_step LPop s2 = Some (LElt None, s3).
Proof using All.
  intros Hempty Hos xs. pose proof (empty_rel (Elt := Elt) P ps _ h Hempty (fun q _ => eq_refl)) as Hr.
  pose proof (ll_step_refines (subtree (view h))) as Hstep.
  destruct (ll_run_refines (subtree (view h)) os (mkList P None) h [] [] Hr Hos) as (l1 & h1 & E1 & Hr1).
  fold xs in Hr1. revert Hr1. generalize (snd (snd (seq_run os ([], [])))) as gone. intros gone Hr1.
  assert (Hdrain : forall ys gone l h0, related h l h0 ys gone ->
    exists l' h' gone', ll_run (repeat LPop (length ys)) (l, h0) =
      Some (map (fun x => LElt (Some (snd x))) ys, (l', h')) /\ related h l' h' [] gone').
  { clear E1 Hr1. induction ys as [|[id e] ys IH]; intros g l h0 Hy; cbn [length repeat ll_run map]; [eauto |].
    destruct (Hstep LPop l h0 _ g Hy I) as (l2 & h2 & -> & Hr2). cbn [seq_step fst snd] in *.
    destruct (IH (id :: g) l2 h2 Hr2) as (l3 & h3 & gone3 & -> & Hr3). eauto. }
  destruct (Hdrain xs gone l1 h1 Hr1) as (l2 & h2 & gone2 & E2 & Hr2).
  destruct (Hstep LPop l2 h2 [] gone2 Hr2 I) as (l3 & h3 & E3 & _).
  by eexists _, (l1, h1), (l2, h2), (l3, h3).
Qed.

(** C36: removing the last but one of at least three elements leaves a stale pointer in
    the end of the list, and elements are lost.  After any safe use that leaves [xs], [a], [b]
    and [c] in the list, remove [b], push a new element [d] and remove [c]: the list should
    start with [xs] and [a], but its first element is [d], and once [d] is popped the list is
    empty.  The elements of [xs] and [a], which were never removed, cannot be popped, though
    they are still found in the storage. *)
Theorem removal_loses_elements os (h : H) xs a ea b eb c ec d ed gone :
  subtree (view h) ps = node_default -> seq_all_safe os ([], []) ->
  snd (seq_run os ([], [])) = (xs ++ [(a, ea); (b, eb); (c, ec)], gone) ->
  d ∉ ids (xs ++ [(a, ea); (b, eb); (c, ec)]) ->
  exists answers s1 s2, ll_run os (mkList P None, h) = Some (answers, s1) /\
    ll_run [LRemove b; LPush d ed; LRemove c; LFirst; LPop; LPop] s1 =
      Some ([LElt (Some eb); LUnit; LElt (Some ec); LEntry (Some (d, ed)); LElt (Some ed); LElt None], s2) /\
    (forall id e, (id, e) ∈ xs ++ [(a, ea)] -> ll_step (LFind id) s2 = Some (LElt (Some e), s2)).
Proof using All.
  intros Hempty Hos Hend Hd. pose proof (empty_rel (Elt := Elt) P ps _ h Hempty (fun q _ => eq_refl)) as Hr.
  destruct (ll_run_refines (subtree (view h)) os (mkList P None) h [] [] Hr Hos) as (l1 & h1 & E1 & Hr1).
  rewrite Hend in Hr1. cbn [fst snd] in Hr1.
  assert (Hne : c <> b /\ d <> b /\ d <> c /\ forall id e, (id, e) ∈ xs ++ [(a, ea)] -> id <> b /\ id <> c /\ id <> d).
  { destruct Hr1 as [_ (pt & dt & mt & _ & Hl & _)]. eapply ends_apart; [exact (li_nodup _ _ _ _ _ Hl) | exact Hd]. }
  destruct Hne as (Hcb & Hdb & Hdc & Hne).
  destruct (remove_penultimate P ps HP Hfit Hptr Hlist _ l1 h1 xs gone a ea b eb c ec Hr1)
    as (p & h2 & pt & dt & E2 & Hs & Hc & Hb & Hnb & Hat & Hout).
  assert (Hcin : at_entry pt dt c ec) by (apply Hat; [| done]; apply elem_of_app; right; right; right; left).
  destruct (push_remove_stale P ps HP Hfit Hptr Hlist _ p h2 pt dt _ b c ec d ed Hs Hc Hb Hnb (proj2 Hcin) (Hout d Hd))
    as (s1 & h3 & pt' & dt' & E3 & E4 & Hs' & Hpd & Hdd & Hkeep); try done; try apply elt_storable.
  destruct (pop_single P ps HP Hfit Hptr Hlist _ h3 pt' dt' _ d (mkPointer d (Some c) None) ed Hs' Hpd Hdd) as (h4 & E5 & Hs4).
  eexists _, (l1, h1), (mkList P None, h4). split; [exact E1 |]. split.
  - cbn [ll_run ll_step]. rewrite E2. cbn [ll_answer]. rewrite E3. cbn [ll_answer]. rewrite E4. cbn [ll_answer].
    unfold list_first_with_id, comp_bind, get_self, on_store. cbn [pointers ll_path front ptr_id].
    erewrite (get_data_spec P ps HP Hfit Hptr Hlist _ h3 pt' dt' _ Hs' (mkPointer d None None) ed Hdd). cbn [ll_answer comp_ret].
    by rewrite E5.
  - intros id e Hin. destruct (Hne id e Hin) as (Nb & Nc & Nd). cbn [ll_step].
    rewrite (find_entry P ps HP Hfit Hptr Hlist _ h4 _ _ _ None id e Hs4); [done |].
    apply entry_upd; [| done]. apply Hkeep; [| done | done]. apply Hat; [| done].
    apply elem_of_app in Hin as [Hin|[= -> ->]%list_elem_of_singleton]; apply elem_of_app; [by left | right; left].
Qed.

End Sequence.

Lemma list_path_ok : is_path list_path (path_steps list_path).
Proof. closed_path. Qed.

Lemma list_path_fits : len list_path + 73 <= limit (H := HostState).
Proof. vm_compute. discriminate. Qed.

Lemma empty_host_view : subtree (view (H := HostState) empty_host) (path_steps list_path) = node_default.
Proof. apply subtree_default. Qed.

Definition sample_ops : list (ListOp Key Key) :=
  [LPush KA KA; LPush KB KB; LPush KC KC; LRemove KA; LPush KD KD; LFind KB; LRemove KD; LFirst].

Lemma sample_safe : seq_all_safe sample_ops ([], []).
Proof.
  cbn. split_and!; try done; try (by intros ?%not_elem_of_nil); try (by left); try (by right).
  by intros [?|?%not_elem_of_nil]%elem_of_cons.
Qed.

Lemma linked_list_is_a_sequence_witness :
  exists l' h', ll_run (H := HostState) sample_ops (mkList list_path None, empty_host) =
    Some ([LUnit; LUnit; LUnit; LElt (Some KA); LUnit; LElt (Some KB); LElt (Some KD); LEntry (Some (KB, KB))],
          (l', h')) /\ list_new list_path h' = Ret l' h'.
Proof.
  destruct (linked_list_is_a_sequence (H := HostState) list_path (path_steps list_path) list_path_ok
    list_path_fits pointer_short key_short list_short sample_ops empty_host empty_host_view sample_safe) as (l' & h' & _ & E & En & _).
  exists l', h'. split; [rewrite E; vm_compute; reflexivity | exact En].
Defined.

Lemma queued_elements_are_served_witness :
  exists answers s1 s2, ll_run (H := HostState) sample_ops (mkList list_path None, empty_host) = Some (answers, s1) /\
    ll_run [LPop; LPop] s1 = Some ([LElt (Some KB); LElt (Some KC)], s2).
Proof.
  destruct (queued_elements_are_served (H := HostState) list_path (path_steps list_path) list_path_ok
    list_path_fits pointer_short key_short list_short sample_ops empty_host empty_host_view sample_safe) as (answers & s1 & s2 & s3 & E1 & E2 & _).
  exists answers, s1, s2. split; [exact E1 | exact E2].
Defined.

(** [a], [b] and [c] are pushed, [b] and then [c] are removed, with [d] pushed between. *)
Lemma removal_loses_elements_witness :
  exists answers s1 s2, ll_run (H := HostState) [LPush KA KA; LPush KB KB; LPush KC KC] (mkList list_path None, empty_host) =
      Some (answers, s1) /\
    ll_run [LRemove KB; LPush KD KD; LRemove KC; LFirst; LPop; LPop] s1 =
      Some ([LElt (Some KB); LUnit; LElt (Some KC); LEntry (Some (KD, KD)); LElt (Some KD); LElt None], s2) /\
    ll_step (LFind KA) s2 = Some (LElt (Some KA), s2).
Proof.
  destruct (removal_loses_elements (H := HostState) list_path (path_steps list_path) list_path_ok
    list_path_fits pointer_short key_short list_short [LPush KA KA; LPush KB KB; LPush KC KC] empty_host
    [] KA KA KB KB KC KC KD KD []) as (answers & s1 & s2 & E1 & E2 & Hfind).
  - exact empty_host_view.
  - repeat split; vm_compute; intros H; inversion H.
  - vm_compute. reflexivity.
  - apply (bool_decide_unpack _). vm_compute. exact I.
  - exists answers, s1, s2. split; [exact E1 |]. split; [exact E2 |]. apply (Hfind KA KA). left.
Defined.

End EvmProps.
Export EvmProps.
