(* ===== verification/EvmAccount.v ===== *)
(** Ethereum accounts in the durable storage
    ([src/etherlink/kernel_evm/evm_execution/src/account_storage.rs]).

    An account is a path; below it are its nonce, its balance, its code with the hash of it,
    and the words of its contract storage.  A 256-bit integer is a [Z] in [[0, 2^256)], an
    [H160] or an [H256] the list of its bytes.  The reference is the record [AccountState]:
    [account_step_refines] shows that every operation on a path does what it does on the
    record. *)

From Stdlib Require Import String Ascii.
From stdpp Require Import strings.
From S2P Require Import Prelude SdkPath SdkStore SdkHost SdkRuntime SdkMock SdkStorage EvmRlp EvmLinkedList.

Open Scope Z_scope.

Module EvmAccount.

(** The hash function of the crate [sha3]. *)
Class KeccakLib := { keccak256 : bytes -> bytes }.

Class KeccakLaws {KL : KeccakLib} := {
  keccak_length bs : len (keccak256 bs) = 32;
  keccak_bytes bs : Forall (in_u 8) (keccak256 bs)
}.

(** [DurableStorageError] of [evm_execution/src/lib.rs]. *)
Inductive DurableStorageError : Type :=
| DRuntimeError (e : RuntimeError)
| DPathError (e : PathError).

Inductive AccountStorageError : Type :=
| ADurable (e : DurableStorageError)
| AStorage (e : StorageError)
| BalanceOverflow
| NonceOverflow.

(** The conversions of [From] and the question mark. *)
Definition of_runtime (e : RuntimeError) : AccountStorageError := ADurable (DRuntimeError e).
Definition of_path (e : PathError) : AccountStorageError := ADurable (DPathError e).

Record StorageEffect : Type := mkEffect { from_default : bool; to_default : bool }.

(** [EthereumAccount]: its path. *)
Record EthereumAccount : Type := mkAccount { account : Path }.

Definition WORD_SIZE : Z := 32.
Definition EVM_ACCOUNTS_PATH : Path := ascii_bytes "/evm/world_state/eth_accounts".
Definition NONCE_PATH : Path := ascii_bytes "/nonce".
Definition BALANCE_PATH : Path := ascii_bytes "/balance".
Definition CODE_HASH_PATH : Path := ascii_bytes "/code.hash".
Definition CODE_PATH : Path := ascii_bytes "/code".
Definition STORAGE_ROOT_PATH : Path := ascii_bytes "/storage".
Definition INDEXED_PATH : Path := ascii_bytes "/indexed".
Definition STORAGE_DEFAULT_VALUE : bytes := replicate 32 0.
Definition BALANCE_DEFAULT_VALUE : Z := 0.
Definition NONCE_DEFAULT_VALUE : Z := 0.
Definition NONCE_ENCODING_SIZE : nat := 8.

(** The hash of the empty string. *)
Definition CODE_HASH_DEFAULT : bytes :=
  [197; 210; 70; 1; 134; 247; 35; 60; 146; 126; 125; 178; 220; 199; 3; 192;
   229; 0; 182; 83; 202; 130; 39; 59; 123; 250; 216; 4; 93; 133; 164; 112].

Section Account.
Context {H : Type} {R : Runtime H} {HL : HexLib} {KL : KeccakLib}.

(** An operation on the host of an account. *)
Definition AM (A : Type) : Type := comp H AccountStorageError A.

(** [concat(..)?] and [map_err(AccountStorageError::from)]. *)
Definition with_concat {A} (prefix suffix : Path) (k : Path -> AM A) : AM A :=
  match concat prefix suffix with Ok p => k p | Err e => comp_throw (of_path e) end.

Definition runtime {A} (c : comp H RuntimeError A) : AM A :=
  fun h => match c h with Ret a h => Ret a h | Throw e h => Throw (of_runtime e) h | Panic => Panic end.

(** [host.store_has(path)?]. *)
Definition has (path : Path) : AM (option ValueType) :=
  fun h => match store_has h path with Ok v => Ret v h | Err e => Throw (of_runtime e) h end.

(** The three readers: a value of another size, or none, is the default; a read that does not
    end is a panic. *)
Definition read_all (path : Path) (default : bytes) (keep : bytes -> bool) : AM bytes :=
  fun h =>
    match store_read_all h path with
    | None => Panic
    | Some (Ok bs) => Ret (if keep bs then bs else default) h
    | Some (Err PathNotFound) => Ret default h
    | Some (Err e) => Throw (of_runtime e) h
    end.

Definition read_u256 (path : Path) (default : Z) : AM Z :=
  fun h =>
    match store_read_all h path with
    | None => Panic
    | Some (Ok bs) => Ret (if len bs =? WORD_SIZE then le_value bs else default) h
    | Some (Err PathNotFound) => Ret default h
    | Some (Err e) => Throw (of_runtime e) h
    end.

Definition read_u64 (path : Path) (default : Z) : AM Z :=
  fun h =>
    match store_read h path 0 8 with
    | Ok bs => Ret (if len bs =? 8 then le_value bs else default) h
    | Err PathNotFound => Ret default h
    | Err e => Throw (of_runtime e) h
    end.

Definition read_h256 (path : Path) (default : bytes) : AM bytes :=
  read_all path default (fun bs => len bs =? WORD_SIZE).

Definition path_from_h256 (index : bytes) : result Path PathError := try_from (47 :: hex_encode index).

Definition bytes_hash (bs : bytes) : bytes := keccak256 bs.

Definition account_path (address : bytes) : result Path PathError := try_from (47 :: hex_encode address).

Definition from_address (address : bytes) : result EthereumAccount DurableStorageError :=
  match account_path address with
  | Err e => Err (DPathError e)
  | Ok p => match concat EVM_ACCOUNTS_PATH p with Err e => Err (DPathError e) | Ok p => Ok (mkAccount p) end
  end.

(** ** Nonce *)
Definition nonce (self : EthereumAccount) : AM Z :=
  with_concat (account self) NONCE_PATH (fun path => read_u64 path NONCE_DEFAULT_VALUE).

Definition increment_nonce (self : EthereumAccount) : AM unit :=
  with_concat (account self) NONCE_PATH (fun path =>
    let! old_value := nonce self in
    match checked_add 64 old_value 1 with
    | None => comp_throw NonceOverflow
    | Some new_value => runtime (store_write_all path (le_bytes NONCE_ENCODING_SIZE new_value))
    end).

Definition decrement_nonce (self : EthereumAccount) : AM unit :=
  with_concat (account self) NONCE_PATH (fun path =>
    let! old_value := nonce self in
    let new_value := default 0 (checked_sub old_value 1) in
    runtime (store_write path (le_bytes NONCE_ENCODING_SIZE new_value) 0)).

Definition set_nonce (self : EthereumAccount) (nonce : Z) : AM unit :=
  with_concat (account self) NONCE_PATH (fun path =>
    runtime (store_write_all path (le_bytes NONCE_ENCODING_SIZE nonce))).

(** ** Balance *)
Definition balance (self : EthereumAccount) : AM Z :=
  with_concat (account self) BALANCE_PATH (fun path => read_u256 path BALANCE_DEFAULT_VALUE).

Definition balance_add (self : EthereumAccount) (amount : Z) : AM unit :=
  with_concat (account self) BALANCE_PATH (fun path =>
    let! value := balance self in
    match checked_add 256 value amount with
    | Some new_value => runtime (store_write_all path (le_bytes 32 new_value))
    | None => comp_throw BalanceOverflow
    end).

Definition balance_remove (self : EthereumAccount) (amount : Z) : AM bool :=
  with_concat (account self) BALANCE_PATH (fun path =>
    let! value := balance self in
    match checked_sub value amount with
    | Some new_value => runtime (store_write_all path (le_bytes 32 new_value)) ;;; comp_ret true
    | None => comp_ret false
    end).

Definition set_balance (self : EthereumAccount) (new_balance : Z) : AM unit :=
  with_concat (account self) BALANCE_PATH (fun path =>
    runtime (store_write_all path (le_bytes 32 new_balance))).

(** ** Storage *)
Definition storage_path (self : EthereumAccount) (index : bytes) : result Path PathError :=
  match concat (account self) STORAGE_ROOT_PATH with
  | Err e => Err e
  | Ok storage_path =>
      match path_from_h256 index with Err e => Err e | Ok index_path => concat storage_path index_path end
  end.

Definition with_storage {A} (self : EthereumAccount) (index : bytes) (k : Path -> AM A) : AM A :=
  match storage_path self index with Ok p => k p | Err e => comp_throw (of_path e) end.

Definition clear_storage (self : EthereumAccount) : AM unit :=
  with_concat (account self) STORAGE_ROOT_PATH (fun storage_path =>
    let! v := has storage_path in
    match v with
    | Some _ => runtime (store_delete storage_path)
    | None => comp_ret tt
    end).

Definition get_storage (self : EthereumAccount) (index : bytes) : AM bytes :=
  with_storage self index (fun path => read_h256 path STORAGE_DEFAULT_VALUE).

Definition set_storage_checked (self : EthereumAccount) (index value : bytes) : AM StorageEffect :=
  with_storage self index (fun path =>
    let! old_value := get_storage self index in
    let from_default := bool_decide (old_value = STORAGE_DEFAULT_VALUE) in
    let to_default := bool_decide (value = STORAGE_DEFAULT_VALUE) in
    (if negb from_default && to_default then runtime (store_delete path) else comp_ret tt) ;;;
    (if negb to_default then runtime (store_write_all path value) else comp_ret tt) ;;;
    comp_ret (mkEffect from_default to_default)).

Definition set_storage (self : EthereumAccount) (index value : bytes) : AM unit :=
  with_storage self index (fun path => runtime (store_write_all path value)).

(** ** Code *)
Definition code_exists (self : EthereumAccount) : AM bool :=
  with_concat (account self) CODE_PATH (fun path =>
    let! v := has path in
    comp_ret (match v with Some Value | Some ValueWithSubtree => true | _ => false end)).

Definition code (self : EthereumAccount) : AM bytes :=
  with_concat (account self) CODE_PATH (fun path => read_all path [] (fun _ => true)).

Definition code_hash (self : EthereumAccount) : AM bytes :=
  with_concat (account self) CODE_HASH_PATH (fun path => read_h256 path CODE_HASH_DEFAULT).

Definition code_size (self : EthereumAccount) : AM Z :=
  with_concat (account self) CODE_PATH (fun path =>
    fun h =>
      match store_value_size h path with
      | Ok size => Ret size h
      | Err PathNotFound => Ret 0 h
      | Err e => Throw (of_runtime e) h
      end).

Definition set_code (self : EthereumAccount) (code : bytes) : AM unit :=
  let code_hash := bytes_hash code in
  with_concat (account self) CODE_HASH_PATH (fun code_hash_path =>
    runtime (store_write_all code_hash_path code_hash) ;;;
    with_concat (account self) CODE_PATH (fun code_path =>
      let! store_has_program := has code_path in
      (match store_has_program with
       | Some _ => runtime (store_delete code_path)
       | None => comp_ret tt
       end) ;;;
      runtime (store_write_all code_path code))).

(** [if let Some(ValueType::Value | ValueType::ValueWithSubtree) = ..] of [delete_code]. *)
Definition delete_value_at (path : Path) : AM unit :=
  let! v := has path in
  match v with
  | Some Value | Some ValueWithSubtree => runtime (store_delete path)
  | _ => comp_ret tt
  end.

Definition delete_code (self : EthereumAccount) : AM unit :=
  with_concat (account self) CODE_HASH_PATH (fun code_hash_path =>
    delete_value_at code_hash_path ;;;
    with_concat (account self) CODE_PATH (fun code_path => delete_value_at code_path)).

(** ** The mark of an indexed account: these two return a [DurableStorageError] *)
Definition indexed (self : EthereumAccount) : AM bool :=
  with_concat (account self) INDEXED_PATH (fun path =>
    let! v := has path in comp_ret (bool_decide (is_Some v))).

Definition set_indexed (self : EthereumAccount) : AM unit :=
  with_concat (account self) INDEXED_PATH (fun path => runtime (store_write_all path [])).

(** [init_account_storage]: the objects of the storage are accounts. *)
Definition init_account_storage : result Storage AccountStorageError :=
  match storage_init EVM_ACCOUNTS_PATH with Ok s => Ok s | Err e => Err (AStorage e) end.

End Account.

(** ** The reference: an account is a record *)
Record AccountState : Type := mkState {
  s_nonce : Z;
  s_balance : Z;
  s_code : option bytes;
  s_code_hash : option bytes;
  s_word : bytes -> bytes;
  s_indexed : bool
}.

Definition empty_account : AccountState := mkState 0 0 None None (fun _ => STORAGE_DEFAULT_VALUE) false.

Inductive AccountOp : Type :=
| Nonce
| IncrementNonce
| DecrementNonce
| SetNonce (n : Z)
| Balance
| BalanceAdd (amount : Z)
| BalanceRemove (amount : Z)
| SetBalance (b : Z)
| ClearStorage
| GetStorage (index : bytes)
| SetStorageChecked (index word : bytes)
| SetStorage (index word : bytes)
| CodeExists
| Code
| CodeHash
| CodeSize
| SetCode (c : bytes)
| DeleteCode
| Indexed
| SetIndexed.

Inductive AccountAnswer : Type :=
| RUnit
| RNum (n : Z)
| RBool (b : bool)
| RBytes (bs : bytes)
| REffect (e : StorageEffect)
| RError (e : AccountStorageError).

Definition is_h256 (i : bytes) : Prop := length i = 32%nat /\ Forall (in_u 8) i.
Definition is_h160 (i : bytes) : Prop := length i = 20%nat /\ Forall (in_u 8) i.

(** The arguments are of the types of the code. *)
Definition account_op_ok (o : AccountOp) : Prop :=
  match o with
  | SetNonce n => in_u 64 n
  | BalanceAdd b | BalanceRemove b | SetBalance b => in_u 256 b
  | GetStorage i => is_h256 i
  | SetStorageChecked i w | SetStorage i w => is_h256 i /\ is_h256 w
  | SetCode c => len c < 2 ^ 31
  | _ => True
  end.

Definition with_nonce (a : AccountState) n := mkState n (s_balance a) (s_code a) (s_code_hash a) (s_word a) (s_indexed a).
Definition with_balance (a : AccountState) b := mkState (s_nonce a) b (s_code a) (s_code_hash a) (s_word a) (s_indexed a).
Definition with_code (a : AccountState) c := mkState (s_nonce a) (s_balance a) c (s_code_hash a) (s_word a) (s_indexed a).
Definition with_hash (a : AccountState) c := mkState (s_nonce a) (s_balance a) (s_code a) c (s_word a) (s_indexed a).
Definition with_words (a : AccountState) w := mkState (s_nonce a) (s_balance a) (s_code a) (s_code_hash a) w (s_indexed a).
Definition with_indexed (a : AccountState) := mkState (s_nonce a) (s_balance a) (s_code a) (s_code_hash a) (s_word a) true.

Definition account_step {KL : KeccakLib} (o : AccountOp) (a : AccountState) : AccountAnswer * AccountState :=
  match o with
  | Nonce => (RNum (s_nonce a), a)
  | IncrementNonce =>
      if s_nonce a + 1 <? 2 ^ 64 then (RUnit, with_nonce a (s_nonce a + 1)) else (RError NonceOverflow, a)
  | DecrementNonce => (RUnit, with_nonce a (Z.max 0 (s_nonce a - 1)))
  | SetNonce n => (RUnit, with_nonce a n)
  | Balance => (RNum (s_balance a), a)
  | BalanceAdd b =>
      if s_balance a + b <? 2 ^ 256 then (RUnit, with_balance a (s_balance a + b)) else (RError BalanceOverflow, a)
  | BalanceRemove b =>
      if b <=? s_balance a then (RBool true, with_balance a (s_balance a - b)) else (RBool false, a)
  | SetBalance b => (RUnit, with_balance a b)
  | ClearStorage => (RUnit, with_words a (fun _ => STORAGE_DEFAULT_VALUE))
  | GetStorage i => (RBytes (s_word a i), a)
  | SetStorageChecked i w =>
      (REffect (mkEffect (bool_decide (s_word a i = STORAGE_DEFAULT_VALUE)) (bool_decide (w = STORAGE_DEFAULT_VALUE))),
       with_words a (upd (s_word a) i w))
  | SetStorage i w => (RUnit, with_words a (upd (s_word a) i w))
  | CodeExists => (RBool (bool_decide (is_Some (s_code a))), a)
  | Code => (RBytes (default [] (s_code a)), a)
  | CodeHash => (RBytes (default CODE_HASH_DEFAULT (s_code_hash a)), a)
  | CodeSize => (RNum (len (default [] (s_code a))), a)
  | SetCode c => (RUnit, with_code (with_hash a (Some (keccak256 c))) (Some c))
  | DeleteCode => (RUnit, with_code (with_hash a None) None)
  | Indexed => (RBool (s_indexed a), a)
  | SetIndexed => (RUnit, with_indexed a)
  end.

(** The same operations on the code. *)
Definition account_answer {H A} (f : A -> AccountAnswer) (o : outcome H AccountStorageError A)
    : option (AccountAnswer * H) :=
  match o with
  | Ret a h => Some (f a, h)
  | Throw e h => Some (RError e, h)
  | Panic => None
  end.

Definition account_exec {H} {R : Runtime H} {HL : HexLib} {KL : KeccakLib}
    (o : AccountOp) (self : EthereumAccount) (h : H) : option (AccountAnswer * H) :=
  match o with
  | Nonce => account_answer RNum (nonce self h)
  | IncrementNonce => account_answer (fun _ => RUnit) (increment_nonce self h)
  | DecrementNonce => account_answer (fun _ => RUnit) (decrement_nonce self h)
  | SetNonce n => account_answer (fun _ => RUnit) (set_nonce self n h)
  | Balance => account_answer RNum (balance self h)
  | BalanceAdd b => account_answer (fun _ => RUnit) (balance_add self b h)
  | BalanceRemove b => account_answer RBool (balance_remove self b h)
  | SetBalance b => account_answer (fun _ => RUnit) (set_balance self b h)
  | ClearStorage => account_answer (fun _ => RUnit) (clear_storage self h)
  | GetStorage i => account_answer RBytes (get_storage self i h)
  | SetStorageChecked i w => account_answer REffect (set_storage_checked self i w h)
  | SetStorage i w => account_answer (fun _ => RUnit) (set_storage self i w h)
  | CodeExists => account_answer RBool (code_exists self h)
  | Code => account_answer RBytes (code self h)
  | CodeHash => account_answer RBytes (code_hash self h)
  | CodeSize => account_answer RNum (code_size self h)
  | SetCode c => account_answer (fun _ => RUnit) (set_code self c h)
  | DeleteCode => account_answer (fun _ => RUnit) (delete_code self h)
  | Indexed => account_answer RBool (indexed self h)
  | SetIndexed => account_answer (fun _ => RUnit) (set_indexed self h)
  end.

(** ** What the tree of an account holds *)
Inductive Field : Type := FNonce | FBalance | FCode | FCodeHash | FIndexed | FWord (i : bytes).

#[export] Instance Field_eq_dec : EqDecision Field.
Proof. solve_decision. Defined.

Definition field_ok (f : Field) : Prop := match f with FWord i => is_h256 i | _ => True end.

Definition field_steps {HL : HexLib} (f : Field) : list bytes :=
  match f with
  | FNonce => [ascii_bytes "nonce"]
  | FBalance => [ascii_bytes "balance"]
  | FCode => [ascii_bytes "code"]
  | FCodeHash => [ascii_bytes "code.hash"]
  | FIndexed => [ascii_bytes "indexed"]
  | FWord i => [ascii_bytes "storage"; hex_encode i]
  end.

(** A place of the tree with a value and nothing below it, or with nothing. *)
Definition slot (n : Node) (steps : list bytes) (o : option bytes) : Prop :=
  subtree n steps = match o with Some v => plain v | None => node_default end.

(** A number is written on as many bytes as its type has; nothing stands for zero. *)
Definition number (w : nat) (z : Z) (o : option bytes) : Prop :=
  in_u (8 * Z.of_nat w) z /\ (o = Some (le_bytes w z) \/ (o = None /\ z = 0)).

Definition content (a : AccountState) (f : Field) (o : option bytes) : Prop :=
  match f with
  | FNonce => number 8 (s_nonce a) o
  | FBalance => number 32 (s_balance a) o
  | FCode => o = s_code a /\ len (default [] (s_code a)) < 2 ^ 31
  | FCodeHash => o = s_code_hash a /\ len (default CODE_HASH_DEFAULT (s_code_hash a)) = 32
  | FIndexed => o = if s_indexed a then Some [] else None
  | FWord i => len (s_word a i) = 32 /\ s_word a i = default STORAGE_DEFAULT_VALUE o
  end.

(** The node of an account: it has no value of its own, and every field is in its place. *)
Record represents {HL : HexLib} (n : Node) (a : AccountState) : Prop := mkRepresents {
  represents_value : value n = None;
  represents_at : forall f, field_ok f -> exists o, slot n (field_steps f) o /\ content a f o
}.

Coercion represents_at : represents >-> Funclass.

Lemma value_set_below n s ps v : value (set_at n (s :: ps) v) = value n.
Proof. done. Qed.

Lemma value_del n ps : ps <> [] -> value (del n ps) = value n.
Proof.
  intros Hps. unfold del. destruct ps as [|s [|t ps]]; [done | done |]. cbn [prune].
  destruct (inner n !! s) as [c|]; [| done].
  by destruct (match ps with [] => _ | _ => _ end).
Qed.

Lemma field_steps_cons {HL : HexLib} f : exists s ps, field_steps f = s :: ps.
Proof. destruct f; cbn; eauto. Qed.

Section Represents.
Context {HL : HexLib} {HLL : HexLaws}.

Lemma fields_diverge f g : field_ok f -> field_ok g -> f <> g -> diverge (field_steps f) (field_steps g).
Proof using HLL.
  intros Hf Hg Hne. destruct f as [| | | | |i], g as [| | | | |j]; try done; cbn [field_steps];
    try (apply diverge_cons; left; discriminate).
  apply diverge_cons. right. apply diverge_cons. left. intros E. apply Hne. f_equal.
  destruct Hf, Hg. by apply hex_inj.
Qed.

(** Writing and deleting one field. *)
Lemma represents_set n a f v a' : represents n a -> field_ok f -> content a' f (Some v) ->
  (forall g o, field_ok g -> g <> f -> content a g o -> content a' g o) ->
  represents (set_at n (field_steps f) v) a'.
Proof using HLL.
  intros Hn Hf Hv Ho. split.
  { destruct (field_steps_cons f) as (s & ps & ->). rewrite value_set_below. apply Hn. }
  intros g Hg. destruct (decide (f = g)) as [<-|Hne].
  - exists (Some v). split; [| done]. destruct (Hn f Hf) as (o & Hs & _). unfold slot in *.
    apply subtree_set_plain. destruct o; eauto.
  - destruct (Hn g Hg) as (o & Hs & Hc). exists o. split; [| apply Ho; auto].
    unfold slot in *. rewrite subtree_set_diverge; [done | by apply fields_diverge].
Qed.

Lemma represents_del n a f a' : represents n a -> field_ok f -> content a' f None ->
  (forall g o, field_ok g -> g <> f -> content a g o -> content a' g o) ->
  represents (del n (field_steps f)) a'.
Proof using HLL.
  intros Hn Hf Hv Ho. split.
  { rewrite value_del by (by destruct f). apply Hn. }
  intros g Hg. destruct (decide (f = g)) as [<-|Hne].
  - exists None. split; [| done]. apply subtree_del. by destruct f.
  - destruct (Hn g Hg) as (o & Hs & Hc). exists o. split; [| apply Ho; auto].
    unfold slot in *. rewrite subtree_del_diverge; [done | by apply fields_diverge].
Qed.

(** Nothing represents an empty account. *)
Lemma represents_default : represents node_default empty_account.
Proof.
  split; [done |]. intros f _. exists None. split; [apply subtree_default |]. destruct f; cbn; try done.
  all: split; [by split | by right].
Qed.

Lemma represents_clear n a : represents n a ->
  represents (del n [ascii_bytes "storage"]) (with_words a (fun _ => STORAGE_DEFAULT_VALUE)).
Proof.
  intros Hn. split; [rewrite value_del by done; apply Hn |].
  intros g Hg. destruct (Hn g Hg) as (o & Hs & Hc). destruct g as [| | | | |i].
  6: { exists None. split; [| done]. cbn [field_steps]. unfold slot.
       change [ascii_bytes "storage"; hex_encode i] with ([ascii_bytes "storage"] ++ [hex_encode i]).
       by rewrite subtree_app, subtree_del, subtree_default. }
  all: exists o; split; [| exact Hc]; unfold slot in *; rewrite subtree_del_diverge; [done |];
       apply diverge_cons; left; discriminate.
Qed.

(** Without a node for the storage, every word is the default. *)
Lemma represents_no_words n a i : represents n a -> subtree n [ascii_bytes "storage"] = node_default ->
  is_h256 i -> s_word a i = STORAGE_DEFAULT_VALUE.
Proof.
  intros Hn Hd Hi. destruct (Hn (FWord i) Hi) as (o & Hs & _ & Hw). rewrite Hw.
  unfold slot in Hs. cbn [field_steps] in Hs.
  change [ascii_bytes "storage"; hex_encode i] with ([ascii_bytes "storage"] ++ [hex_encode i]) in Hs.
  rewrite subtree_app, Hd, subtree_default in Hs. by destruct o.
Qed.

End Represents.

(** ** Every operation refines the reference *)
Section Refines.
Context {H : Type} {R : Runtime H} {L : RuntimeLaws H}.
Context {HL : HexLib} {HLL : HexLaws} {KL : KeccakLib} {KLL : KeccakLaws}.
Context (A : Path) (aps : list bytes) (HA : is_path A aps) (Hfit : len A + 73 <= limit).
Implicit Types (h : H) (a : AccountState).

Definition node_of h : Node := subtree (view h) aps.

Definition framed h h' : Prop := forall q, diverge aps q -> subtree (view h') q = subtree (view h) q.

Definition field_path (f : Field) : Path := A ++ join (field_steps f).

Lemma field_steps_ok f : field_ok f ->
  Forall step_ok (field_steps f) /\ field_steps f <> [] /\ hd [] (field_steps f) <> ascii_bytes "readonly" /\
  len (join (field_steps f)) <= 73.
Proof using HLL.
  intros Hf. destruct f as [| | | | |i]; cbn [field_steps]; try (split_and!; [by repeat constructor | done | done | done]).
  destruct Hf as [Hi _]. split_and!; [| done | done |].
  - repeat constructor. unfold step_ok. pose proof (hex_length i) as Hl. rewrite Hi in Hl.
    rewrite bool_decide_true by (intros E; rewrite E in Hl; done). cbn.
    apply Is_true_true, forallb_forall. intros b Hb. apply hex_allowed.
    pose proof (hex_digits i) as Hd. rewrite forallb_forall in Hd. by apply Hd.
  - unfold join. cbn [map List.concat]. rewrite app_nil_r, length_app. cbn [length].
    rewrite hex_length, Hi. vm_compute. discriminate.
Qed.

Lemma field_path_ok f : field_ok f ->
  is_path (field_path f) (aps ++ field_steps f) /\ len (field_path f) <= limit /\
  concat A (join (field_steps f)) = Ok (field_path f).
Proof using HLL HA Hfit.
  intros Hf. destruct (field_steps_ok f Hf) as (Hs & Hne & Hr & Hl). pose proof limit_max as Hm.
  assert (Hlen : len (A ++ join (field_steps f)) <= limit) by (rewrite length_app; lia).
  assert (E : concat A (join (field_steps f)) = Ok (field_path f)).
  { unfold concat. destruct (Z.leb_spec (len (A ++ join (field_steps f))) PATH_MAX_SIZE); [done | lia]. }
  split_and!; [| done | done]. apply (concat_is_path _ _ (join (field_steps f)) _ _ HA); [| done].
  split_and!; try done. change PATH_MAX_SIZE with 242. lia.
Qed.

Lemma node_of_slot h f o : slot (node_of h) (field_steps f) o -> slot (view h) (aps ++ field_steps f) o.
Proof. unfold slot, node_of. by rewrite subtree_app. Qed.

Lemma write_field f v h : field_ok f ->
  exists h', runtime (store_write_all (field_path f) v) h = Ret tt h' /\
    node_of h' = set_at (node_of h) (field_steps f) v /\ framed h h'.
Proof using HLL HA Hfit.
  intros Hf. destruct (field_path_ok f Hf) as (Hp & Hl & _).
  destruct (law_write_all h _ _ v Hp Hl) as (h' & E & Hv). exists h'. unfold runtime. rewrite E.
  split_and!; [done | unfold node_of; by rewrite Hv, subtree_set_below |].
  intros q Hq. rewrite Hv. apply subtree_set_diverge. by apply diverge_app_l.
Qed.

Lemma aps_nonnil : aps <> [].
Proof using HA. destruct HA as [(_ & Hn & _) _]. exact Hn. Qed.

Lemma delete_field f v h : field_ok f -> slot (node_of h) (field_steps f) (Some v) ->
  exists h', runtime (store_delete (field_path f)) h = Ret tt h' /\
    node_of h' = del (node_of h) (field_steps f) /\ framed h h'.
Proof using HLL HA Hfit.
  intros Hf Hs. destruct (field_path_ok f Hf) as (Hp & Hl & _). apply node_of_slot in Hs.
  pose proof (law_delete h _ _ Hp Hl) as Hd. rewrite Hs in Hd. destruct Hd as (h' & E & Hv).
  exists h'. unfold runtime. rewrite E. split_and!; [done | |].
  - unfold node_of. rewrite Hv. apply subtree_del_below; [apply aps_nonnil | by destruct f].
  - intros q Hq. rewrite Hv. apply subtree_del_diverge. by apply diverge_app_l.
Qed.

Lemma has_field f o h : field_ok f -> slot (node_of h) (field_steps f) o ->
  has (field_path f) h = Ret (match o with Some _ => Some Value | None => None end) h.
Proof using HLL HA Hfit.
  intros Hf Hs. destruct (field_path_ok f Hf) as (Hp & Hl & _). apply node_of_slot in Hs.
  unfold has. rewrite (law_has h _ _ Hp Hl), Hs. destruct o; [by rewrite kind_of_plain | done].
Qed.

Lemma read_all_field f o h : field_ok f -> slot (node_of h) (field_steps f) o ->
  len (default [] o) < 2 ^ 31 ->
  store_read_all h (field_path f) = Some (match o with Some v => Ok v | None => Err PathNotFound end).
Proof using HLL HA Hfit.
  intros Hf Hs Hlen. destruct (field_path_ok f Hf) as (Hp & Hl & _). apply node_of_slot in Hs.
  unfold slot in Hs. destruct o as [v|].
  - apply (law_read_all h _ _ v Hp Hl); [| done]. unfold value_at. by rewrite Hs.
  - rewrite (law_read_all_none h _ _ Hp Hl) by (unfold value_at; by rewrite Hs). by rewrite Hs.
Qed.

Lemma with_concat_field {B} f (k : Path -> AM B) h : field_ok f ->
  with_concat A (join (field_steps f)) k h = k (field_path f) h.
Proof using HLL HA Hfit.
  intros Hf. destruct (field_path_ok f Hf) as (_ & _ & E). unfold with_concat. by rewrite E.
Qed.

Lemma storage_path_ok i : is_h256 i -> storage_path (mkAccount A) i = Ok (field_path (FWord i)).
Proof using HLL HA Hfit.
  intros Hi. destruct (field_path_ok (FWord i) Hi) as (Hp & Hl & E).
  pose proof limit_max as Hm. destruct (field_steps_ok (FWord i) Hi) as (Hs & _ & _ & Hlen).
  assert (Hj : A ++ join (field_steps (FWord i)) = (A ++ STORAGE_ROOT_PATH) ++ (47 :: hex_encode i)).
  { unfold join. cbn [field_steps map List.concat]. by rewrite app_nil_r, <- app_assoc. }
  unfold storage_path, concat. cbn [account]. unfold field_path in *. rewrite Hj in *.
  rewrite !length_app in Hl. destruct (Z.leb_spec (len (A ++ STORAGE_ROOT_PATH)) PATH_MAX_SIZE) as [_|Hc].
  2: { rewrite length_app in Hc. lia. }
  unfold path_from_h256, try_from. rewrite (is_path_validate (47 :: hex_encode i) [hex_encode i]).
  - destruct (Z.leb_spec (len ((A ++ STORAGE_ROOT_PATH) ++ 47 :: hex_encode i)) PATH_MAX_SIZE) as [_|Hc]; [done |].
    rewrite !length_app in Hc. lia.
  - apply Forall_cons in Hs as [_ [Hs _]%Forall_cons]. split.
    + split_and!; [unfold join; cbn; by rewrite app_nil_r | done | by constructor |].
      change PATH_MAX_SIZE with 242. cbn [length]. rewrite hex_length, (proj1 Hi). lia.
    + cbn [hd]. intros Eq. pose proof (hex_digits i) as Hd. rewrite Eq in Hd. done.
Qed.

(** *** Reads *)
Lemma read_number w z o : number w z o -> (match o with Some v => le_value v | None => 0 end) = z /\
  match o with Some v => length v = w | None => True end.
Proof.
  intros (Hz & [-> | [-> ->]]); [| done]. by rewrite le_value_bytes, wrap_small, length_le_bytes.
Qed.

Lemma nonce_spec h a : represents (node_of h) a -> nonce (mkAccount A) h = Ret (s_nonce a) h.
Proof using HLL HA Hfit.
  intros Hr. destruct (Hr FNonce I) as (o & Hs & Hc). destruct (read_number _ _ _ Hc) as [Hv Hl].
  unfold nonce. cbn [account]. change NONCE_PATH with (join (field_steps FNonce)).
  rewrite with_concat_field by done. unfold read_u64.
  destruct (field_path_ok FNonce I) as (Hp & Hlim & _). rewrite (law_read h _ _ 0 8 Hp Hlim) by done.
  apply node_of_slot in Hs. unfold value_at. rewrite Hs. destruct o as [v|]; cbn [value plain node_default].
  - destruct (Z.ltb_spec (len v) 0); [lia |]. rewrite drop_0.
    change (Z.to_nat (Z.min MAX_FILE_CHUNK_SIZE 8)) with 8%nat. rewrite take_ge by lia.
    rewrite Hl. by rewrite Hv.
  - by rewrite <- Hv.
Qed.

Lemma balance_spec h a : represents (node_of h) a -> balance (mkAccount A) h = Ret (s_balance a) h.
Proof using HLL HA Hfit.
  intros Hr. destruct (Hr FBalance I) as (o & Hs & Hc). destruct (read_number _ _ _ Hc) as [Hv Hl].
  unfold balance. cbn [account]. change BALANCE_PATH with (join (field_steps FBalance)).
  rewrite with_concat_field by done. unfold read_u256.
  rewrite (read_all_field FBalance o h I Hs) by (destruct o; cbn [from_option id]; [rewrite Hl; done | done]).
  destruct o as [v|]; [| by rewrite <- Hv]. rewrite Hl. cbn [Z.eqb]. by rewrite Hv.
Qed.

Lemma get_storage_spec h a i : represents (node_of h) a -> is_h256 i ->
  get_storage (mkAccount A) i h = Ret (s_word a i) h.
Proof using HLL HA Hfit.
  intros Hr Hi. destruct (Hr (FWord i) Hi) as (o & Hs & Hlen & Hw). unfold get_storage, with_storage.
  rewrite storage_path_ok by done. unfold read_h256, read_all.
  rewrite (read_all_field (FWord i) o h Hi Hs) by (destruct o; cbn in *; [rewrite <- Hw, Hlen |]; done).
  rewrite Hw in *. destruct o as [v|]; [| done]. cbn [from_option id] in *. by rewrite Hlen.
Qed.

Lemma code_exists_spec h a : represents (node_of h) a ->
  code_exists (mkAccount A) h = Ret (bool_decide (is_Some (s_code a))) h.
Proof using HLL HA Hfit.
  intros Hr. destruct (Hr FCode I) as (o & Hs & -> & _). unfold code_exists. cbn [account].
  change CODE_PATH with (join (field_steps FCode)). rewrite with_concat_field by done.
  unfold comp_bind. rewrite (has_field FCode _ h I Hs). by destruct (s_code a).
Qed.

Lemma code_spec h a : represents (node_of h) a -> code (mkAccount A) h = Ret (default [] (s_code a)) h.
Proof using HLL HA Hfit.
  intros Hr. destruct (Hr FCode I) as (o & Hs & -> & Hl). unfold code. cbn [account].
  change CODE_PATH with (join (field_steps FCode)). rewrite with_concat_field by done.
  unfold read_all. rewrite (read_all_field FCode _ h I Hs Hl). by destruct (s_code a).
Qed.

Lemma code_size_spec h a : represents (node_of h) a -> code_size (mkAccount A) h = Ret (len (default [] (s_code a))) h.
Proof using HLL HA Hfit.
  intros Hr. destruct (Hr FCode I) as (o & Hs & -> & Hl). unfold code_size. cbn [account].
  change CODE_PATH with (join (field_steps FCode)). rewrite with_concat_field by done.
  destruct (field_path_ok FCode I) as (Hp & Hlim & _). rewrite (law_value_size h _ _ Hp Hlim).
  apply node_of_slot in Hs. unfold slot in Hs. unfold value_at. rewrite !Hs.
  destruct (s_code a) as [c|]; cbn [value plain node_default from_option id] in *; [| done].
  rewrite sint_small by (unfold in_s; lia). unfold error_wrap.
  destruct (Z.leb_spec 0 (len c)); [done | lia].
Qed.

Lemma code_hash_spec h a : represents (node_of h) a ->
  code_hash (mkAccount A) h = Ret (default CODE_HASH_DEFAULT (s_code_hash a)) h.
Proof using HLL HA Hfit.
  intros Hr. destruct (Hr FCodeHash I) as (o & Hs & -> & Hl). unfold code_hash. cbn [account].
  change CODE_HASH_PATH with (join (field_steps FCodeHash)). rewrite with_concat_field by done.
  unfold read_h256, read_all. rewrite (read_all_field FCodeHash _ h I Hs).
  - destruct (s_code_hash a) as [c|]; cbn [from_option id] in *; [by rewrite Hl | done].
  - destruct (s_code_hash a); cbn [from_option id] in *; [by rewrite Hl | done].
Qed.

Lemma indexed_spec h a : represents (node_of h) a -> indexed (mkAccount A) h = Ret (s_indexed a) h.
Proof using HLL HA Hfit.
  intros Hr. destruct (Hr FIndexed I) as (o & Hs & ->). unfold indexed. cbn [account].
  change INDEXED_PATH with (join (field_steps FIndexed)). rewrite with_concat_field by done.
  unfold comp_bind. rewrite (has_field FIndexed _ h I Hs). by destruct (s_indexed a).
Qed.

(** *** Updates *)

(** The fields other than [f] have in [a'] the contents they have in [a]. *)
Definition only (f : Field) a a' : Prop :=
  forall g o, field_ok g -> g <> f -> content a g o -> content a' g o.

Definition reached h h' a' : Prop := represents (node_of h') a' /\ framed h h'.

Lemma framed_refl h : framed h h.
Proof. by intros q _. Qed.

Lemma framed_trans h1 h2 h3 : framed h1 h2 -> framed h2 h3 -> framed h1 h3.
Proof. intros F1 F2 q Hq. by rewrite F2, F1. Qed.

Lemma field_write_spec f v h a a' : represents (node_of h) a -> field_ok f -> content a' f (Some v) -> only f a a' ->
  exists h', runtime (store_write_all (field_path f) v) h = Ret tt h' /\ reached h h' a'.
Proof using HLL HA Hfit.
  intros Hr Hf Hv Ho. destruct (write_field f v h Hf) as (h' & E & Hn & Hfr). exists h'.
  split; [done |]. split; [| done]. rewrite Hn. by apply (represents_set _ a).
Qed.

Lemma field_delete_spec f v h a a' : represents (node_of h) a -> field_ok f ->
  slot (node_of h) (field_steps f) (Some v) -> content a' f None -> only f a a' ->
  exists h', runtime (store_delete (field_path f)) h = Ret tt h' /\ reached h h' a'.
Proof using HLL HA Hfit.
  intros Hr Hf Hs Hv Ho. destruct (delete_field f v h Hf Hs) as (h' & E & Hn & Hfr). exists h'.
  split; [done |]. split; [| done]. rewrite Hn. by apply (represents_del _ a).
Qed.

(** A field that is not there is already deleted. *)
Lemma absent_spec f h a a' : represents (node_of h) a ->
  slot (node_of h) (field_steps f) None -> content a' f None -> only f a a' -> represents (node_of h) a'.
Proof.
  intros Hr Hs Hv Ho. split; [apply Hr |]. intros g Hg. destruct (decide (g = f)) as [->|Hne]; [by exists None |].
  destruct (Hr g Hg) as (o & Hso & Hc). exists o. split; [done | by apply Ho].
Qed.

Ltac other_fields := let g := fresh in intros g; destruct g; intros ? ? ? ?; done.

Lemma only_nonce a n : only FNonce a (with_nonce a n).
Proof. other_fields. Qed.
Lemma only_balance a n : only FBalance a (with_balance a n).
Proof. other_fields. Qed.
Lemma only_code a c : only FCode a (with_code a c).
Proof. other_fields. Qed.
Lemma only_hash a c : only FCodeHash a (with_hash a c).
Proof. other_fields. Qed.
Lemma only_indexed a : only FIndexed a (with_indexed a).
Proof. other_fields. Qed.
Lemma only_word a i w : only (FWord i) a (with_words a (upd (s_word a) i w)).
Proof.
  intros g o Hg Hne Hc. destruct g as [| | | | |j]; try done. cbn [content with_words s_word] in *.
  rewrite upd_ne; [done |]. by intros ->.
Qed.

Lemma number_some w z : in_u (8 * Z.of_nat w) z -> number w z (Some (le_bytes w z)).
Proof. intros Hz. split; [done | by left]. Qed.

Lemma nonce_range h a : represents (node_of h) a -> in_u 64 (s_nonce a).
Proof. intros Hr. by destruct (Hr FNonce I) as (o & _ & Hz & _). Qed.

Lemma balance_range h a : represents (node_of h) a -> in_u 256 (s_balance a).
Proof. intros Hr. by destruct (Hr FBalance I) as (o & _ & Hz & _). Qed.

Lemma set_nonce_spec h a n : represents (node_of h) a -> in_u 64 n ->
  exists h', set_nonce (mkAccount A) n h = Ret tt h' /\ reached h h' (with_nonce a n).
Proof using HLL HA Hfit.
  intros Hr Hn. unfold set_nonce. cbn [account]. change NONCE_PATH with (join (field_steps FNonce)).
  rewrite with_concat_field by done. apply (field_write_spec FNonce _ h a); [done | done | | apply only_nonce].
  by apply number_some.
Qed.

Lemma increment_nonce_spec h a : represents (node_of h) a ->
  if s_nonce a + 1 <? 2 ^ 64
  then exists h', increment_nonce (mkAccount A) h = Ret tt h' /\ reached h h' (with_nonce a (s_nonce a + 1))
  else increment_nonce (mkAccount A) h = Throw NonceOverflow h.
Proof using HLL HA Hfit.
  intros Hr. pose proof (nonce_range h a Hr) as Hn. unfold in_u in Hn. unfold increment_nonce. cbn [account].
  change NONCE_PATH with (join (field_steps FNonce)). rewrite with_concat_field by done.
  unfold comp_bind. rewrite (nonce_spec h a Hr). unfold checked_add.
  destruct (Z.ltb_spec (s_nonce a + 1) (2 ^ 64)) as [Hlt|Hge]; [| done].
  apply (field_write_spec FNonce _ h a); [done | done | | apply only_nonce].
  apply (number_some 8). change (in_u 64 (s_nonce a + 1)). split; lia.
Qed.

Lemma decrement_nonce_spec h a : represents (node_of h) a ->
  exists h', decrement_nonce (mkAccount A) h = Ret tt h' /\ reached h h' (with_nonce a (Z.max 0 (s_nonce a - 1))).
Proof using HLL HA Hfit.
  intros Hr. pose proof (nonce_range h a Hr) as Hn. unfold in_u in Hn. unfold decrement_nonce. cbn [account].
  change NONCE_PATH with (join (field_steps FNonce)). rewrite with_concat_field by done.
  unfold comp_bind. rewrite (nonce_spec h a Hr).
  assert (Hd : default 0 (checked_sub (s_nonce a) 1) = Z.max 0 (s_nonce a - 1)).
  { unfold checked_sub. destruct (Z.leb_spec 1 (s_nonce a)); cbn; lia. }
  rewrite Hd. set (n := Z.max 0 (s_nonce a - 1)).
  destruct (Hr FNonce I) as (o & Hs & Hc). destruct (read_number _ _ _ Hc) as [_ Hl].
  destruct (field_path_ok FNonce I) as (Hp & Hlim & _).
  pose proof (law_write h _ _ (le_bytes 8 n) 0 Hp Hlim ltac:(lia)) as Hw. cbn zeta in Hw.
  pose proof (node_of_slot _ _ _ Hs) as Hs'. unfold slot in Hs'.
  assert (Hold : (length (default [] (value_at (view h) (aps ++ field_steps FNonce))) <= 8)%nat).
  { unfold value_at. rewrite Hs'. destruct o; cbn in *; lia. }
  destruct (Z.ltb_spec (len (default [] (value_at (view h) (aps ++ field_steps FNonce)))) 0); [lia |].
  destruct Hw as (h' & E & Hv). exists h'. unfold runtime, NONCE_ENCODING_SIZE. rewrite E.
  assert (Hsp : splice (default [] (value_at (view h) (aps ++ field_steps FNonce))) 0 (le_bytes 8 n) = le_bytes 8 n).
  { unfold splice. rewrite length_le_bytes, drop_ge by (rewrite Z.add_0_l, Nat2Z.id; exact Hold).
    by rewrite app_nil_r. }
  rewrite Hsp in Hv. split; [done |]. split.
  - unfold node_of. rewrite Hv, subtree_set_below. apply (represents_set _ a); [done | done | | apply only_nonce].
    apply (number_some 8). change (in_u 64 n). split; lia.
  - intros q Hq. rewrite Hv. apply subtree_set_diverge. by apply diverge_app_l.
Qed.

Lemma number_word z : in_u 256 z -> number 32 z (Some (le_bytes 32 z)).
Proof. apply (number_some 32). Qed.

Lemma set_balance_spec h a b : represents (node_of h) a -> in_u 256 b ->
  exists h', set_balance (mkAccount A) b h = Ret tt h' /\ reached h h' (with_balance a b).
Proof using HLL HA Hfit.
  intros Hr Hb. unfold set_balance. cbn [account]. change BALANCE_PATH with (join (field_steps FBalance)).
  rewrite with_concat_field by done. apply (field_write_spec FBalance _ h a); [done | done | | apply only_balance].
  by apply number_word.
Qed.

Lemma balance_add_spec h a b : represents (node_of h) a -> in_u 256 b ->
  if s_balance a + b <? 2 ^ 256
  then exists h', balance_add (mkAccount A) b h = Ret tt h' /\ reached h h' (with_balance a (s_balance a + b))
  else balance_add (mkAccount A) b h = Throw BalanceOverflow h.
Proof using HLL HA Hfit.
  intros Hr Hb. pose proof (balance_range h a Hr) as Hn. unfold in_u in *. unfold balance_add. cbn [account].
  change BALANCE_PATH with (join (field_steps FBalance)). rewrite with_concat_field by done.
  unfold comp_bind. rewrite (balance_spec h a Hr). unfold checked_add.
  destruct (Z.ltb_spec (s_balance a + b) (2 ^ 256)) as [Hlt|Hge]; [| done].
  apply (field_write_spec FBalance _ h a); [done | done | | apply only_balance].
  apply number_word. change (in_u 256 (s_balance a + b)). split; lia.
Qed.

Lemma balance_remove_spec h a b : represents (node_of h) a -> in_u 256 b ->
  if b <=? s_balance a
  then exists h', balance_remove (mkAccount A) b h = Ret true h' /\ reached h h' (with_balance a (s_balance a - b))
  else balance_remove (mkAccount A) b h = Ret false h.
Proof using HLL HA Hfit.
  intros Hr Hb. pose proof (balance_range h a Hr) as Hn. unfold in_u in *. unfold balance_remove. cbn [account].
  change BALANCE_PATH with (join (field_steps FBalance)). rewrite with_concat_field by done.
  unfold comp_bind. rewrite (balance_spec h a Hr). unfold checked_sub.
  destruct (Z.leb_spec b (s_balance a)) as [Hle|Hgt]; [| done].
  destruct (field_write_spec FBalance (le_bytes 32 (s_balance a - b)) h a (with_balance a (s_balance a - b)))
    as (h' & -> & Hh'); [done | done | | apply only_balance | by exists h'].
  apply number_word. change (in_u 256 (s_balance a - b)). split; lia.
Qed.

Lemma word_content a i w : is_h256 w -> content (with_words a (upd (s_word a) i w)) (FWord i) (Some w).
Proof. intros [Hw _]. cbn. rewrite upd_eq. split; [by rewrite Hw | done]. Qed.

Lemma set_storage_spec h a i w : represents (node_of h) a -> is_h256 i -> is_h256 w ->
  exists h', set_storage (mkAccount A) i w h = Ret tt h' /\ reached h h' (with_words a (upd (s_word a) i w)).
Proof using HLL HA Hfit.
  intros Hr Hi Hw. unfold set_storage, with_storage. rewrite storage_path_ok by done.
  apply (field_write_spec (FWord i) _ h a); [done | done | by apply word_content | apply only_word].
Qed.

(** The checked write: the default word is not stored. *)
Lemma set_storage_checked_spec h a i w : represents (node_of h) a -> is_h256 i -> is_h256 w ->
  exists h', set_storage_checked (mkAccount A) i w h =
    Ret (mkEffect (bool_decide (s_word a i = STORAGE_DEFAULT_VALUE)) (bool_decide (w = STORAGE_DEFAULT_VALUE))) h' /\
    reached h h' (with_words a (upd (s_word a) i w)).
Proof using HLL HA Hfit.
  intros Hr Hi Hw. unfold set_storage_checked, with_storage. rewrite storage_path_ok by done.
  unfold comp_bind at 1. rewrite (get_storage_spec h a i Hr Hi).
  destruct (bool_decide_reflect (w = STORAGE_DEFAULT_VALUE)) as [->|Hnd]; cbn [negb andb].
  2: { rewrite andb_false_r. unfold comp_bind, comp_ret.
       destruct (field_write_spec (FWord i) w h a (with_words a (upd (s_word a) i w))) as (h' & -> & Hh');
         [done | done | by apply word_content | apply only_word | by exists h']. }
  rewrite andb_true_r.
  assert (Hnone : content (with_words a (upd (s_word a) i STORAGE_DEFAULT_VALUE)) (FWord i) None).
  { cbn. by rewrite upd_eq. }
  destruct (Hr (FWord i) Hi) as (o & Hs & Hl & Hv).
  destruct (bool_decide_reflect (s_word a i = STORAGE_DEFAULT_VALUE)) as [Hd|Hd]; cbn [negb];
    unfold comp_bind, comp_ret.
  - exists h. split; [done |]. split; [| apply framed_refl].
    split; [apply Hr |]. intros g Hg. destruct (decide (g = FWord i)) as [->|Hne].
    + exists o. split; [done |]. cbn [content with_words s_word]. by rewrite upd_eq, <- Hv, Hd.
    + destruct (Hr g Hg) as (o' & Hs' & Hc'). exists o'. split; [done |]. by apply only_word.
  - destruct o as [v|]; [| by rewrite Hv in Hd].
    destruct (field_delete_spec (FWord i) v h a (with_words a (upd (s_word a) i STORAGE_DEFAULT_VALUE)))
      as (h' & -> & Hh'); [done | done | done | done | apply only_word | by exists h'].
Qed.

Lemma clear_storage_spec h a : represents (node_of h) a ->
  exists h', clear_storage (mkAccount A) h = Ret tt h' /\ reached h h' (with_words a (fun _ => STORAGE_DEFAULT_VALUE)).
Proof using HLL HA Hfit.
  intros Hr. pose proof limit_max as Hm. unfold clear_storage, with_concat. cbn [account].
  assert (Hlen : len (A ++ STORAGE_ROOT_PATH) <= limit) by 
    (rewrite length_app; change (length STORAGE_ROOT_PATH) with 8%nat; lia).
  assert (E : concat A STORAGE_ROOT_PATH = Ok (A ++ STORAGE_ROOT_PATH)).
  { unfold concat. destruct (Z.leb_spec (len (A ++ STORAGE_ROOT_PATH)) PATH_MAX_SIZE); [done | lia]. }
  assert (Hp : is_path (A ++ STORAGE_ROOT_PATH) (aps ++ [ascii_bytes "storage"])).
  { apply (concat_is_path A aps STORAGE_ROOT_PATH [ascii_bytes "storage"] _ HA); [| done].
    split_and!; [done | done | by repeat constructor | done]. }
  rewrite E. unfold comp_bind, has. rewrite (law_has h _ _ Hp Hlen), subtree_app. fold (node_of h).
  pose proof (law_delete h _ _ Hp Hlen) as Hdel. rewrite subtree_app in Hdel. fold (node_of h) in Hdel.
  destruct (kind_of (subtree (node_of h) [ascii_bytes "storage"])) eqn:Hk.
  - destruct (is_default _) eqn:Hd.
    { apply is_default_true in Hd. rewrite Hd in Hk. done. }
    destruct Hdel as (h' & Ed & Hv). exists h'. unfold runtime. rewrite Ed. split; [done |]. split.
    + unfold node_of. rewrite Hv, subtree_del_below; [by apply represents_clear | apply aps_nonnil | done].
    + intros q Hq. rewrite Hv. apply subtree_del_diverge. by apply diverge_app_l.
  - apply kind_of_none in Hk. exists h. split; [done |]. split; [| apply framed_refl].
    split; [apply Hr |]. intros g Hg. destruct (Hr g Hg) as (o & Hs & Hc). exists o. split; [done |].
    destruct g as [| | | | |i]; try exact Hc. cbn [content with_words s_word] in *. split; [done |].
    by rewrite <- (proj2 Hc), (represents_no_words _ a i Hr Hk Hg).
Qed.

Lemma set_indexed_spec h a : represents (node_of h) a ->
  exists h', set_indexed (mkAccount A) h = Ret tt h' /\ reached h h' (with_indexed a).
Proof using HLL HA Hfit.
  intros Hr. unfold set_indexed. cbn [account]. change INDEXED_PATH with (join (field_steps FIndexed)).
  rewrite with_concat_field by done. by apply (field_write_spec FIndexed _ h a); [done | done | | apply only_indexed].
Qed.

Lemma set_code_spec h a c : represents (node_of h) a -> len c < 2 ^ 31 ->
  exists h', set_code (mkAccount A) c h = Ret tt h' /\
    reached h h' (with_code (with_hash a (Some (keccak256 c))) (Some c)).
Proof using HLL HA Hfit KLL.
  intros Hr Hc. unfold set_code. cbn [account]. change CODE_HASH_PATH with (join (field_steps FCodeHash)).
  change CODE_PATH with (join (field_steps FCode)). rewrite with_concat_field by done.
  unfold comp_bind, bytes_hash.
  destruct (field_write_spec FCodeHash (keccak256 c) h a (with_hash a (Some (keccak256 c)))) as (h1 & -> & Hr1 & F1);
    [done | done | split; [done | apply keccak_length] | apply only_hash |].
  rewrite with_concat_field by done. set (a1 := with_hash a (Some (keccak256 c))) in *.
  assert (Hend : forall h2 a2, represents (node_of h2) a2 -> framed h1 h2 -> with_code a2 (Some c) = with_code a1 (Some c) ->
    exists h', runtime (store_write_all (field_path FCode) c) h2 = Ret tt h' /\ reached h h' (with_code a1 (Some c))).
  { intros h2 a2 Hr2 F2 <-.
    destruct (field_write_spec FCode c h2 a2 (with_code a2 (Some c))) as (h3 & E3 & Hr3 & F3);
      [done | done | by split | apply only_code |].
    exists h3. split; [done |]. split; [done |]. eapply framed_trans; [eapply framed_trans |]; eassumption. }
  destruct (Hr1 FCode I) as (o & Hs & Ho & _). rewrite (has_field FCode o h1 I Hs).
  destruct o as [v|]; [| by apply (Hend h1 a1 Hr1 (framed_refl h1))].
  destruct (field_delete_spec FCode v h1 a1 (with_code a1 None)) as (h2 & -> & Hr2 & F2);
    [done | done | done | done | apply only_code |].
  by apply (Hend h2 (with_code a1 None) Hr2 F2).
Qed.

(** Deleting the value of a field that has nothing below. *)
Lemma delete_value_at_spec f h a a' : represents (node_of h) a -> field_ok f ->
  content a' f None -> only f a a' ->
  exists h', delete_value_at (field_path f) h = Ret tt h' /\ reached h h' a'.
Proof using HLL HA Hfit.
  intros Hr Hf Hc Ho. destruct (Hr f Hf) as (o & Hs & _). unfold delete_value_at, comp_bind.
  rewrite (has_field f o h Hf Hs). destruct o as [v|].
  - by apply (field_delete_spec f v h a a').
  - exists h. split; [done |]. split; [by apply (absent_spec f h a a') | apply framed_refl].
Qed.

Lemma delete_code_spec h a : represents (node_of h) a ->
  exists h', delete_code (mkAccount A) h = Ret tt h' /\ reached h h' (with_code (with_hash a None) None).
Proof using HLL HA Hfit.
  intros Hr. unfold delete_code. cbn [account]. change CODE_HASH_PATH with (join (field_steps FCodeHash)).
  change CODE_PATH with (join (field_steps FCode)). rewrite with_concat_field by done. unfold comp_bind.
  destruct (delete_value_at_spec FCodeHash h a (with_hash a None)) as (h1 & -> & Hr1 & F1);
    [done | done | done | apply only_hash |].
  rewrite with_concat_field by done.
  destruct (delete_value_at_spec FCode h1 (with_hash a None) (with_code (with_hash a None) None))
    as (h2 & -> & Hr2 & F2); [done | done | done | apply only_code |].
  exists h2. split; [done |]. split; [done |]. by eapply framed_trans.
Qed.

(** *** The refinement *)
Lemma account_step_refines o h a : represents (node_of h) a -> account_op_ok o ->
  exists h', account_exec o (mkAccount A) h = Some (fst (account_step o a), h') /\
             reached h h' (snd (account_step o a)).
Proof using HLL HA Hfit KLL.
  intros Hr Ho. assert (Hstay : reached h h a) by (split; [done | apply framed_refl]).
  destruct o; cbn [account_exec account_step account_op_ok fst snd] in *;
    try (exists h; split; [| exact Hstay]).
  - by rewrite (nonce_spec h a Hr).
  - pose proof (increment_nonce_spec h a Hr) as Hi. destruct (_ <? _).
    + destruct Hi as (h' & -> & Hh'). by exists h'.
    + rewrite Hi. by exists h.
  - destruct (decrement_nonce_spec h a Hr) as (h' & -> & Hh'). by exists h'.
  - destruct (set_nonce_spec h a n Hr Ho) as (h' & -> & Hh'). by exists h'.
  - by rewrite (balance_spec h a Hr).
  - pose proof (balance_add_spec h a amount Hr Ho) as Hi. destruct (_ <? _).
    + destruct Hi as (h' & -> & Hh'). by exists h'.
    + rewrite Hi. by exists h.
  - pose proof (balance_remove_spec h a amount Hr Ho) as Hi. destruct (_ <=? _).
    + destruct Hi as (h' & -> & Hh'). by exists h'.
    + rewrite Hi. by exists h.
  - destruct (set_balance_spec h a b Hr Ho) as (h' & -> & Hh'). by exists h'.
  - destruct (clear_storage_spec h a Hr) as (h' & -> & Hh'). by exists h'.
  - by rewrite (get_storage_spec h a index Hr Ho).
  - destruct Ho as [Hi Hw]. destruct (set_storage_checked_spec h a index word Hr Hi Hw) as (h' & -> & Hh'). by exists h'.
  - destruct Ho as [Hi Hw]. destruct (set_storage_spec h a index word Hr Hi Hw) as (h' & -> & Hh'). by exists h'.
  - by rewrite (code_exists_spec h a Hr).
  - by rewrite (code_spec h a Hr).
  - by rewrite (code_hash_spec h a Hr).
  - by rewrite (code_size_spec h a Hr).
  - destruct (set_code_spec h a c Hr Ho) as (h' & -> & Hh'). by exists h'.
  - destruct (delete_code_spec h a Hr) as (h' & -> & Hh'). by exists h'.
  - by rewrite (indexed_spec h a Hr).
  - destruct (set_indexed_spec h a Hr) as (h' & -> & Hh'). by exists h'.
Qed.

End Refines.

End EvmAccount.
Export EvmAccount.

(** The accounts of a storage as a ledger: a map from addresses to records.

    The storage of accounts ([init_account_storage] in
    [src/etherlink/kernel_evm/evm_execution/src/account_storage.rs]) finds an account at the
    name of its address below the path of the top layer.  [ledger_step] lifts the refinement of
    one account to all of them: an operation on one address changes its record and leaves the
    others, and everything outside the accounts, as they are. *)
Module EvmLedger.

(** ** Names that are hexadecimal digits *)
Section Names.
Context {HL : HexLib} {HLL : HexLaws}.

Lemma hex_step bs : bs <> [] -> step_ok (hex_encode bs).
Proof using HLL.
  intros Hne. unfold step_ok. rewrite bool_decide_true.
  2: { intros E. pose proof (hex_length bs) as Hl. rewrite E in Hl. destruct bs; done. }
  apply Is_true_true, forallb_forall. intros b Hb. apply hex_allowed.
  pose proof (hex_digits bs) as Hd. rewrite forallb_forall in Hd. by apply Hd.
Qed.

Lemma hex_name bs : bs <> [] -> len bs <= 64 -> is_path (47 :: hex_encode bs) [hex_encode bs].
Proof using HLL.
  intros Hne Hlen. split.
  - split_and!; [unfold join; cbn; by rewrite app_nil_r | done | constructor; [by apply hex_step | done] |].
    change PATH_MAX_SIZE with 242. cbn [length]. rewrite hex_length. lia.
  - cbn [hd]. intros Eq. pose proof (hex_digits bs) as Hd. rewrite Eq in Hd. done.
Qed.

(** A name below a path. *)
Lemma hex_below P ps bs : is_path P ps -> bs <> [] -> len bs <= 64 -> len P + 2 * len bs + 1 <= PATH_MAX_SIZE ->
  try_from (47 :: hex_encode bs) = Ok (47 :: hex_encode bs) /\
  concat P (47 :: hex_encode bs) = Ok (P ++ 47 :: hex_encode bs) /\
  is_path (P ++ 47 :: hex_encode bs) (ps ++ [hex_encode bs]) /\
  len (P ++ 47 :: hex_encode bs) = len P + 2 * len bs + 1.
Proof using HLL.
  intros HP Hne Hlen Hmax. pose proof (hex_name bs Hne Hlen) as Hn.
  assert (Hl : len (P ++ 47 :: hex_encode bs) = len P + 2 * len bs + 1).
  { rewrite length_app. cbn [length]. rewrite hex_length. lia. }
  assert (E : concat P (47 :: hex_encode bs) = Ok (P ++ 47 :: hex_encode bs)).
  { unfold concat. rewrite Hl. destruct (Z.leb_spec (len P + 2 * len bs + 1) PATH_MAX_SIZE); [done | lia]. }
  split_and!; [| done | | done].
  - unfold try_from. by rewrite (is_path_validate _ _ Hn).
  - by apply (concat_is_path P ps _ [hex_encode bs] _ HP (proj1 Hn)).
Qed.

End Names.

(** ** A write over a field that is not longer *)
Lemma overwrite {H} {R : Runtime H} {L : RuntimeLaws H} (h : H) p ps o v :
  is_path p ps -> len p <= limit -> slot (view h) ps o -> (length (default [] o) <= length v)%nat ->
  exists h', store_write p v 0 h = Ret tt h' /\ slot (view h') ps (Some v) /\
    forall q, diverge ps q -> subtree (view h') q = subtree (view h) q.
Proof.
  intros Hp Hl Hs Hlen. pose proof (law_write h p ps v 0 Hp Hl ltac:(lia)) as Hw. cbn zeta in Hw.
  assert (Hold : default [] (value_at (view h) ps) = default [] o).
  { unfold value_at. rewrite Hs. by destruct o. }
  rewrite Hold in Hw. destruct (Z.ltb_spec (len (default [] o)) 0); [lia |]. destruct Hw as (h' & E & Hv).
  assert (Hsp : splice (default [] o) 0 v = v).
  { unfold splice. rewrite drop_ge by (rewrite Z.add_0_l, Nat2Z.id; exact Hlen). by rewrite app_nil_r. }
  rewrite Hsp in Hv. exists h'. split_and!; [done | |].
  - unfold slot in *. rewrite Hv. apply subtree_set_plain. rewrite Hs. destruct o; eauto.
  - intros q Hq. rewrite Hv. by apply subtree_set_diverge.
Qed.

(** ** The ledger *)
Section Ledger.
Context {H : Type} {R : Runtime H} {L : RuntimeLaws H}.
Context {HL : HexLib} {HLL : HexLaws} {KL : KeccakLib} {KLL : KeccakLaws}.
Context (D : Path) (ds : list bytes) (HD : is_path D ds) (Hfit : len D + 114 <= limit).
Implicit Types (h : H) (g : bytes -> AccountState) (a : bytes).

(** Where the storage keeps the account of an address. *)
Definition located a : EthereumAccount := mkAccount (D ++ 47 :: hex_encode a).

Definition steps_of a : list bytes := ds ++ [hex_encode a].

Definition ledger h g : Prop := forall a, is_h160 a -> represents (subtree (view h) (steps_of a)) (g a).

(** Nothing outside the accounts changed. *)
Definition outside h h' : Prop := forall q, diverge ds q -> subtree (view h') q = subtree (view h) q.

Lemma outside_refl h : outside h h.
Proof. by intros q Hq. Qed.

Lemma outside_trans h h1 h2 : outside h h1 -> outside h1 h2 -> outside h h2.
Proof. intros H1 H2 q Hq. by rewrite H2, H1. Qed.

Lemma address_nonnil a : is_h160 a -> a <> [] /\ len a = 20.
Proof. intros [Hl _]. rewrite Hl. split; [by destruct a | done]. Qed.

Lemma located_ok a : is_h160 a ->
  account_path a = Ok (47 :: hex_encode a) /\ concat D (47 :: hex_encode a) = Ok (account (located a)) /\
  is_path (account (located a)) (steps_of a) /\ len (account (located a)) + 73 <= limit.
Proof using HLL HD Hfit.
  intros Ha. destruct (address_nonnil a Ha) as [Hne Hlen]. pose proof limit_max as Hm.
  destruct (hex_below D ds a HD Hne) as (E1 & E2 & Hp & Hl); [lia | lia |].
  split_and!; try done. cbn [located account]. rewrite Hl. lia.
Qed.

Lemma addresses_diverge a b : is_h160 a -> is_h160 b -> a <> b -> diverge (steps_of a) (steps_of b).
Proof using HLL.
  intros [_ Ha] [_ Hb] Hne. apply diverge_snoc. intros E. apply Hne. by apply hex_inj.
Qed.

(** Nothing below the path is a ledger of empty accounts. *)
Lemma ledger_empty h : subtree (view h) ds = node_default -> ledger h (fun _ => empty_account).
Proof.
  intros He a _. unfold steps_of. rewrite subtree_app, He, subtree_default. apply represents_default.
Qed.

(** A change of one account. *)
Lemma ledger_reached h h' g a s : ledger h g -> is_h160 a -> reached (steps_of a) h h' s ->
  ledger h' (upd g a s) /\ outside h h'.
Proof using HLL.
  intros Hg Ha [Hr Hf]. split.
  - intros b Hb. destruct (decide (a = b)) as [<-|Hne]; [by rewrite upd_eq |].
    rewrite upd_ne by done. rewrite Hf by (by apply addresses_diverge). by apply Hg.
  - intros q Hq. apply Hf. by apply diverge_app_l.
Qed.

Lemma ledger_step h g a o : ledger h g -> is_h160 a -> account_op_ok o ->
  exists h', account_exec o (located a) h = Some (fst (account_step o (g a)), h') /\
    ledger h' (upd g a (snd (account_step o (g a)))) /\ outside h h'.
Proof using All.
  intros Hg Ha Ho. destruct (located_ok a Ha) as (_ & _ & Hp & Hl).
  destruct (account_step_refines _ _ Hp Hl o h (g a) (Hg a Ha) Ho) as (h' & E & Hr).
  exists h'. split; [exact E |]. by apply ledger_reached.
Qed.

(** ** Sequences of operations *)
Fixpoint ledger_exec (os : list (bytes * AccountOp)) h : option (list AccountAnswer * H) :=
  match os with
  | [] => Some ([], h)
  | (a, o) :: os =>
      match account_exec o (located a) h with
      | Some (r, h) => match ledger_exec os h with Some (rs, h) => Some (r :: rs, h) | None => None end
      | None => None
      end
  end.

(** The reference: each address has its record. *)
Fixpoint ledger_run (os : list (bytes * AccountOp)) g : list AccountAnswer * (bytes -> AccountState) :=
  match os with
  | [] => ([], g)
  | (a, o) :: os =>
      let r := account_step o (g a) in
      let rest := ledger_run os (upd g a (snd r)) in
      (fst r :: fst rest, snd rest)
  end.

Definition ledger_op_ok (x : bytes * AccountOp) : Prop := is_h160 (fst x) /\ account_op_ok (snd x).

Lemma ledger_refines os : forall h g, ledger h g -> Forall ledger_op_ok os ->
  exists h', ledger_exec os h = Some (fst (ledger_run os g), h') /\
    ledger h' (snd (ledger_run os g)) /\ outside h h'.
Proof using All.
  induction os as [|[a o] os IH]; intros h g Hg Hos; cbn [ledger_exec ledger_run].
  - exists h. by split_and!.
  - apply Forall_cons in Hos as [[Ha Ho] Hos]. cbn [fst snd] in *.
    destruct (ledger_step h g a o Hg Ha Ho) as (h1 & -> & Hg1 & F1).
    destruct (IH h1 _ Hg1 Hos) as (h2 & -> & Hg2 & F2).
    exists h2. split_and!; [done | done |]. by eapply outside_trans.
Qed.

(** The storage of accounts gives the account of an address. *)
Lemma get_or_create_located s a : last (layers s) = Some D -> is_h160 a ->
  storage_get_or_create mkAccount s (47 :: hex_encode a) = Ok (located a).
Proof using HLL HD Hfit.
  intros Hs Ha. destruct (located_ok a Ha) as (_ & E & _). unfold storage_get_or_create. rewrite Hs.
  unfold layer_get_or_create. by rewrite E.
Qed.

End Ledger.

End EvmLedger.
Export EvmLedger.
