(* ===== verification/EvmTx.v ===== *)
(** Ethereum transactions: their encodings and their signatures
    ([src/etherlink/kernel_evm/ethereum/src/tx_common.rs], [tx_signature.rs], [access_list.rs],
    [rlp_helpers.rs], [transaction.rs]).

    An [H160] or an [H256] is the list of its bytes, a [U256] or a [u64] a [Z] in its range.
    The crates [rlp], [sha3], [hex] and [libsecp256k1] are not part of the sources: the classes
    [RlpScalars] and [Secp] are what the code uses of them, besides [RlpLib], [KeccakLib] and
    [HexLib]. *)

From Stdlib Require Import String Ascii.
From stdpp Require Import strings.
From S2P Require Import Prelude SdkPath SdkStore SdkHost SdkRuntime SdkMock EvmRlp EvmLinkedList EvmAccount.

Open Scope Z_scope.

Module EvmTx.

(** ** What the code uses of [rlp] *)

(** Unsigned integers as items, at a width in bits, and the iterator over the items of a list
    (what it gives on data is not used). *)
Class RlpScalars := {
  scalar_out : Z -> Rlp;
  scalar_in : Z -> Rlp -> option Z;
  rlp_iter : Rlp -> list Rlp
}.

Class RlpScalarsLaws {RL : RlpLib} {RS : RlpScalars} := {
  scalar_in_out w z : in_u w z -> scalar_in w (scalar_out z) = Some z;
  scalar_in_range w i z : scalar_in w i = Some z -> in_u w z;
  rlp_iter_list l : rlp_iter (RList l) = l;
  (** The first byte of an encoded list is not the tag of a typed transaction. *)
  rlp_list_first l : exists b bs, rlp_out (RList l) = b :: bs /\ b <> 1 /\ b <> 2
}.

(** Data of a fixed length. *)
Definition hash_in (n : nat) (i : Rlp) : option bytes :=
  match i with RData bs => if bool_decide (length bs = n) then Some bs else None | RList _ => None end.

Definition data_in (i : Rlp) : option bytes := match i with RData bs => Some bs | RList _ => None end.

Definition zeros (n : nat) : bytes := replicate n 0.

(** [decode_h256]: missing leading zeroes are added. *)
Definition decode_h256 (i : Rlp) : option bytes :=
  match i with
  | RData bs =>
      if bool_decide (length bs = 32%nat) then Some bs
      else if bool_decide (length bs < 32)%nat && bool_decide (0 < length bs)%nat
      then Some (zeros (32 - length bs) ++ bs)
      else if bool_decide (bs = []) then Some (zeros 32)
      else None
  | RList _ => None
  end.

Definition append_h256 (h : bytes) : Rlp := if bool_decide (h = zeros 32) then RData [] else RData h.

Definition append_vec (data : bytes) : Rlp := match data with [] => RData [] | _ => RData data end.

(** [append_option] and [decode_option] on addresses. *)
Definition append_option_h160 (o : option bytes) : Rlp := match o with Some h => RData h | None => RData [] end.

Definition decode_option_h160 (i : Rlp) : option (option bytes) :=
  if rlp_is_empty i then Some None
  else match hash_in 20 i with Some h => Some (Some h) | None => None end.

(** [decode_list]: every item, or an error. *)
Definition decode_list {RS : RlpScalars} {A} (f : Rlp -> option A) (i : Rlp) : option (list A) := mapM f (rlp_iter i).

(** ** Reading the items of a list one after the other *)
Definition Dec (A : Type) : Type := list Rlp -> option (A * list Rlp).

Definition dec_ret {A} (a : A) : Dec A := fun it => Some (a, it).
Definition dec_err {A} : Dec A := fun _ => None.

Definition dec_bind {A B} (c : Dec A) (k : A -> Dec B) : Dec B :=
  fun it => match c it with Some (a, it) => k a it | None => None end.

(** [decode_field(&next(&mut it)?, ..)?]. *)
Definition next_as {A} (f : Rlp -> option A) : Dec A :=
  fun it =>
    match it with
    | i :: it => match f i with Some a => Some (a, it) | None => None end
    | [] => None
    end.

#[local] Notation "'field' x <- f ; k" := (dec_bind (next_as f) (fun x => k))
  (at level 10, x name, f at level 100, k at level 200).

(** ** Access lists *)
Record AccessListItem : Type := mkAccess { al_address : bytes; storage_keys : list bytes }.

Definition access_out (a : AccessListItem) : Rlp :=
  RList [RData (al_address a); RList (map RData (storage_keys a))].

Definition access_in {RS : RlpScalars} (i : Rlp) : option AccessListItem :=
  match i with
  | RData _ => None
  | RList items =>
      match (field address <- hash_in 20; field keys <- decode_list (hash_in 32);
             dec_ret (mkAccess address keys)) items with
      | Some (a, []) => Some a
      | _ => None
      end
  end.

(** ** Signatures *)
Record TxSignature : Type := mkSig { sig_v : Z; sig_r : bytes; sig_s : bytes }.

Inductive ParityError : Type := PChainId (c : Z) | PV (v : Z).

Inductive EcdsaError : Type := InvalidSignature | InvalidRecoveryId | OtherEcdsa.

Inductive TxSigError : Type :=
| HexError
| ECDSAError (e : EcdsaError)
| Parity (e : ParityError)
| InvalidRS (r s : bytes).

Inductive SigError : Type :=
| SigDecoder
| SlicingError
| SigTxSig (e : TxSigError)
| UnsignedTransactionError.

(** The crate [libsecp256k1], and [hex::decode]. *)
Class Secp := {
  Scalar : Type;
  SecretKey : Type;
  PublicKey : Type;
  scalar_of_b32 : bytes -> Scalar;
  b32 : Scalar -> bytes;
  is_high : Scalar -> bool;
  hex_decode : bytes -> option bytes;
  parse_secret : bytes -> option SecretKey;
  parse_recovery : Z -> option Z;
  ec_sign : bytes -> SecretKey -> (Scalar * Scalar) * Z;
  ec_recover : bytes -> Scalar * Scalar -> Z -> option PublicKey;
  public_key : SecretKey -> PublicKey;
  serialize : PublicKey -> bytes
}.

(** A signature is recovered to the key that made it; its scalars are not zero and its second
    one is low. *)
Class SecpLaws {SE : Secp} := {
  b32_scalar s : scalar_of_b32 (b32 s) = s;
  b32_length s : length (b32 s) = 32%nat;
  b32_bytes s : Forall (in_u 8) (b32 s);
  parse_recovery_ok p : 0 <= p < 4 -> parse_recovery p = Some p;
  sign_recid m sk : 0 <= snd (ec_sign m sk) < 4;
  sign_low m sk : is_high (snd (fst (ec_sign m sk))) = false;
  sign_nonzero m sk : b32 (fst (fst (ec_sign m sk))) <> zeros 32 /\ b32 (snd (fst (ec_sign m sk))) <> zeros 32;
  recover_sign m sk : ec_recover m (fst (ec_sign m sk)) (snd (ec_sign m sk)) = Some (public_key sk)
}.

(** [TxSignature::new]. *)
Definition sig_new (v : Z) (r s : bytes) : result TxSignature TxSigError :=
  if bool_decide (r <> zeros 32) && bool_decide (s <> zeros 32) then Ok (mkSig v r s) else Err (InvalidRS r s).

Definition u256_checked_mul (a b : Z) : option Z := if a * b <? 2 ^ 256 then Some (a * b) else None.

(** [chain_id.checked_mul(2)?.checked_add(35)?]. *)
Definition chain_id_encoding (chain_id : Z) : option Z :=
  match u256_checked_mul chain_id 2 with Some d => checked_add 256 d 35 | None => None end.

Definition legacy_compute_parity (self : TxSignature) (chain_id : option Z) : result bool TxSigError :=
  let err := Parity (PV (sig_v self)) in
  let parity :=
    match chain_id with
    | Some c => match chain_id_encoding c with Some e => Ok (checked_sub (sig_v self) e) | None => Err err end
    | None => Ok (checked_sub (sig_v self) 27)
    end in
  match parity with
  | Err e => Err e
  | Ok (Some p) => if p <? 2 then Ok (p =? 1) else Err err
  | Ok None => Err err
  end.

Section Signatures.
Context {SE : Secp}.

Definition recovery_id (p : Z) : result Z TxSigError :=
  match parse_recovery p with Some ri => Ok ri | None => Err (ECDSAError OtherEcdsa) end.

Definition signature_legacy (self : TxSignature) (chain_id : option Z)
    : result ((Scalar * Scalar) * Z) TxSigError :=
  let r := scalar_of_b32 (sig_r self) in
  let s := scalar_of_b32 (sig_s self) in
  if is_high s then Err (ECDSAError InvalidSignature)
  else match legacy_compute_parity self chain_id with
  | Err e => Err e
  | Ok parity =>
      match recovery_id (Z.b2z parity) with Ok ri => Ok ((r, s), ri) | Err e => Err e end
  end.

Definition sig_signature (self : TxSignature) : result ((Scalar * Scalar) * Z) TxSigError :=
  let r := scalar_of_b32 (sig_r self) in
  let s := scalar_of_b32 (sig_s self) in
  if is_high s then Err (ECDSAError InvalidSignature)
  else if sig_v self <? 4 then
    match recovery_id (wrap 8 (sig_v self)) with Ok ri => Ok ((r, s), ri) | Err e => Err e end
  else Err (ECDSAError InvalidRecoveryId).

Definition compute_v (chain_id : option Z) (parity : Z) : option Z :=
  match chain_id with
  | Some c =>
      if c =? 0 then None
      else match chain_id_encoding c with Some e => checked_add 256 parity e | None => None end
  | None => checked_add 256 parity 27
  end.

Definition sign_secp256k1 (msg string_sk : bytes) : result ((Scalar * Scalar) * Z) TxSigError :=
  match hex_decode string_sk with
  | None => Err HexError
  | Some hex =>
      match parse_secret hex with
      | None => Err (ECDSAError OtherEcdsa)
      | Some sk => Ok (ec_sign msg sk)
      end
  end.

Definition sign_legacy (msg string_sk : bytes) (chain_id : option Z) : result TxSignature TxSigError :=
  match sign_secp256k1 msg string_sk with
  | Err e => Err e
  | Ok ((r, s), parity) =>
      match compute_v chain_id parity with
      | None => Err (Parity (PChainId (default 0 chain_id)))
      | Some v => Ok (mkSig v (b32 r) (b32 s))
      end
  end.

Definition sig_sign (msg string_sk : bytes) : result TxSignature TxSigError :=
  match sign_secp256k1 msg string_sk with
  | Err e => Err e
  | Ok ((r, s), parity) => Ok (mkSig parity (b32 r) (b32 s))
  end.

End Signatures.

(** ** Transactions *)
Inductive TransactionType : Type := Legacy | Eip2930 | Eip1559.

#[export] Instance TransactionType_eq_dec : EqDecision TransactionType.
Proof. solve_decision. Defined.

Definition type_tag (t : TransactionType) : Z := match t with Legacy => 0 | Eip2930 => 1 | Eip1559 => 2 end.

Definition type_of_tag (tag : Z) : option TransactionType :=
  if tag =? 0 then Some Legacy else if tag =? 1 then Some Eip2930 else if tag =? 2 then Some Eip1559 else None.

Record EthereumTransactionCommon : Type := mkTx {
  type_ : TransactionType;
  chain_id : option Z;
  tx_nonce : Z;
  max_priority_fee_per_gas : Z;
  max_fee_per_gas : Z;
  gas_limit : Z;
  to : option bytes;
  tx_value : Z;
  tx_data : bytes;
  access_list : list AccessListItem;
  tx_signature : option TxSignature
}.

Definition with_signature (tx : EthereumTransactionCommon) (s : option TxSignature) : EthereumTransactionCommon :=
  mkTx (type_ tx) (chain_id tx) (tx_nonce tx) (max_priority_fee_per_gas tx) (max_fee_per_gas tx) (gas_limit tx)
    (to tx) (tx_value tx) (tx_data tx) (access_list tx) s.

Section Encoding.
Context {RL : RlpLib} {RS : RlpScalars}.

(** *** Decoding *)
Definition rlp_decode_vrs : Dec (option (Z * bytes * bytes)) :=
  fun it =>
    match it with
    | v :: r :: s :: it =>
        match scalar_in 256 v, decode_h256 r, decode_h256 s with
        | Some v, Some r, Some s => Some (Some (v, r, s), it)
        | _, _, _ => None
        end
    | [] => Some (None, [])
    | _ => None
    end.

(** The signature and the chain of a legacy transaction, from [v], [r] and [s]. *)
Definition legacy_chain_id (v : Z) (is_unsigned : bool) : option (option Z) :=
  if is_unsigned then Some (Some v)
  else if 36 <? v then Some (Some ((v - 35) / 2))
  else if (v =? 27) || (v =? 28) then Some None
  else None.

Definition rlp_decode_legacy_tx (items : list Rlp) : option EthereumTransactionCommon :=
  if negb (bool_decide (length items = 9%nat)) then None
  else option_map fst ((
    field nonce <- scalar_in 64;
    field gas_price <- scalar_in 256;
    field gas_limit <- scalar_in 64;
    field to <- decode_option_h160;
    field value <- scalar_in 256;
    field data <- data_in;
    dec_bind rlp_decode_vrs (fun vrs =>
      match vrs with
      | None => dec_err
      | Some (v, r, s) =>
          let is_unsigned := bool_decide (r = zeros 32) && bool_decide (s = zeros 32) in
          match legacy_chain_id v is_unsigned with
          | None => dec_err
          | Some chain_id =>
              let tx sig := dec_ret (mkTx Legacy chain_id nonce gas_price gas_price gas_limit to value data [] sig) in
              if is_unsigned then tx None
              else match sig_new v r s with Ok sig => tx (Some sig) | Err _ => dec_err end
          end
      end)) items).

(** [let signature = match vrs ..] of the typed transactions. *)
Definition vrs_signature (vrs : option (Z * bytes * bytes)) : option (option TxSignature) :=
  match vrs with
  | Some (v, r, s) => match sig_new v r s with Ok sig => Some (Some sig) | Err _ => None end
  | None => Some None
  end.

Definition rlp_decode_eip2930_tx (items : list Rlp) : option EthereumTransactionCommon :=
  if negb (bool_decide (length items = 8%nat)) && negb (bool_decide (length items = 11%nat)) then None
  else option_map fst ((
    field chain_id <- scalar_in 256;
    field nonce <- scalar_in 64;
    field gas_price <- scalar_in 256;
    field gas_limit <- scalar_in 64;
    field to <- decode_option_h160;
    field value <- scalar_in 256;
    field data <- data_in;
    field access_list <- decode_list access_in;
    dec_bind rlp_decode_vrs (fun vrs =>
      match vrs_signature vrs with
      | None => dec_err
      | Some signature =>
          dec_ret (mkTx Eip2930 (Some chain_id) nonce gas_price gas_price gas_limit to value data access_list signature)
      end)) items).

Definition rlp_decode_eip1559_tx (items : list Rlp) : option EthereumTransactionCommon :=
  if negb (bool_decide (length items = 9%nat)) && negb (bool_decide (length items = 12%nat)) then None
  else option_map fst ((
    field chain_id <- scalar_in 256;
    field nonce <- scalar_in 64;
    field max_priority_fee_per_gas <- scalar_in 256;
    field max_fee_per_gas <- scalar_in 256;
    field gas_limit <- scalar_in 64;
    field to <- decode_option_h160;
    field value <- scalar_in 256;
    field data <- data_in;
    field access_list <- decode_list access_in;
    dec_bind rlp_decode_vrs (fun vrs =>
      match vrs_signature vrs with
      | None => dec_err
      | Some signature =>
          dec_ret (mkTx Eip1559 (Some chain_id) nonce max_priority_fee_per_gas max_fee_per_gas gas_limit to value data
            access_list signature)
      end)) items).

Definition from_rlp_any (decoder : option Rlp) (tx_version : TransactionType) : option EthereumTransactionCommon :=
  match decoder with
  | Some (RList items) =>
      match tx_version with
      | Legacy => rlp_decode_legacy_tx items
      | Eip2930 => rlp_decode_eip2930_tx items
      | Eip1559 => rlp_decode_eip1559_tx items
      end
  | _ => None
  end.

Definition from_bytes (bs : bytes) : option EthereumTransactionCommon :=
  match bs with
  | [] => None
  | first :: rest =>
      if first =? 1 then from_rlp_any (rlp_in rest) Eip2930
      else if first =? 2 then from_rlp_any (rlp_in rest) Eip1559
      else from_rlp_any (rlp_in bs) Legacy
  end.

(** *** Encoding: [None] is the panic of [unwrap] on a missing chain *)
Definition sig_items (s : TxSignature) : list Rlp := [scalar_out (sig_v s); RData (sig_r s); RData (sig_s s)].

Definition opt_sig_items (o : option TxSignature) : list Rlp := match o with Some s => sig_items s | None => [] end.

(** The fields of a transaction from the gas limit to the data. *)
Definition call_items (tx : EthereumTransactionCommon) : list Rlp :=
  [scalar_out (gas_limit tx); append_option_h160 (to tx); scalar_out (tx_value tx); append_vec (tx_data tx)].

Definition rlp_encode_legacy_pre_eip155 (tx : EthereumTransactionCommon) : Rlp :=
  RList ([scalar_out (tx_nonce tx); scalar_out (max_fee_per_gas tx)] ++ call_items tx ++ opt_sig_items (tx_signature tx)).

Definition rlp_encode_legacy_post_eip155 (tx : EthereumTransactionCommon) (chain_id : Z) : Rlp :=
  RList ([scalar_out (tx_nonce tx); scalar_out (max_fee_per_gas tx)] ++ call_items tx ++
    match tx_signature tx with
    | None => [scalar_out chain_id; append_h256 (zeros 32); append_h256 (zeros 32)]
    | Some sig => sig_items sig
    end).

Definition rlp_encode_legacy_tx (tx : EthereumTransactionCommon) : Rlp :=
  match chain_id tx with
  | Some c => rlp_encode_legacy_post_eip155 tx c
  | None => rlp_encode_legacy_pre_eip155 tx
  end.

Definition rlp_encode_eip2930_tx (tx : EthereumTransactionCommon) : option Rlp :=
  match chain_id tx with
  | None => None
  | Some c =>
      Some (RList ([scalar_out c; scalar_out (tx_nonce tx); scalar_out (max_fee_per_gas tx)] ++ call_items tx ++
        [RList (map access_out (access_list tx))] ++ opt_sig_items (tx_signature tx)))
  end.

Definition rlp_encode_eip1559_tx (tx : EthereumTransactionCommon) : option Rlp :=
  match chain_id tx with
  | None => None
  | Some c =>
      Some (RList ([scalar_out c; scalar_out (tx_nonce tx); scalar_out (max_priority_fee_per_gas tx);
                    scalar_out (max_fee_per_gas tx)] ++ call_items tx ++
        [RList (map access_out (access_list tx))] ++ opt_sig_items (tx_signature tx)))
  end.

Definition to_rlp_any (tx : EthereumTransactionCommon) : option Rlp :=
  match type_ tx with
  | Legacy => Some (rlp_encode_legacy_tx tx)
  | Eip2930 => rlp_encode_eip2930_tx tx
  | Eip1559 => rlp_encode_eip1559_tx tx
  end.

Definition to_bytes (tx : EthereumTransactionCommon) : option bytes :=
  match to_rlp_any tx with
  | None => None
  | Some i =>
      let rlp_enc := rlp_out i in
      Some (match type_ tx with Legacy => rlp_enc | t => type_tag t :: rlp_enc end)
  end.

(** *** Signing and recovering the signer *)
Context {KL : KeccakLib} {SE : Secp}.

Definition message (tx : EthereumTransactionCommon) : option bytes :=
  option_map keccak256 (to_bytes (with_signature tx None)).

Definition signature (tx : EthereumTransactionCommon) : result ((Scalar * Scalar) * Z) SigError :=
  match tx_signature tx with
  | None => Err UnsignedTransactionError
  | Some s =>
      match (match type_ tx with Legacy => signature_legacy s (chain_id tx) | _ => sig_signature s end) with
      | Ok r => Ok r
      | Err e => Err (SigTxSig e)
      end
  end.

(** [kec.as_slice()[12..]] of the key without its tag. *)
Definition address_of_key (pk : PublicKey) : bytes := drop 12 (keccak256 (drop 1 (serialize pk))).

Definition caller (tx : EthereumTransactionCommon) : option (result bytes SigError) :=
  match message tx with
  | None => None
  | Some mes =>
      Some (match signature tx with
            | Err e => Err e
            | Ok (sig, ri) =>
                match ec_recover mes sig ri with
                | None => Err (SigTxSig (ECDSAError OtherEcdsa))
                | Some pk =>
                    let value := address_of_key pk in
                    if bool_decide (length value = 20%nat) then Ok value else Err SlicingError
                end
            end)
  end.

Definition sign_transaction (tx : EthereumTransactionCommon) (string_sk : bytes)
    : option (result EthereumTransactionCommon SigError) :=
  match message tx with
  | None => None
  | Some mes =>
      Some (match (match type_ tx with
                   | Legacy => sign_legacy mes string_sk (chain_id tx)
                   | _ => sig_sign mes string_sk
                   end) with
            | Err e => Err (SigTxSig e)
            | Ok signature => Ok (with_signature tx (Some signature))
            end)
  end.

Definition gas_limit_with_fees (tx : EthereumTransactionCommon) : Z := gas_limit tx.

End Encoding.

(** ** The transactions the encoding is for *)
Definition sig_ok (s : TxSignature) : Prop :=
  in_u 256 (sig_v s) /\ length (sig_r s) = 32%nat /\ length (sig_s s) = 32%nat /\
  sig_r s <> zeros 32 /\ sig_s s <> zeros 32.

Definition access_ok (a : AccessListItem) : Prop :=
  length (al_address a) = 20%nat /\ Forall (fun k => length k = 32%nat) (storage_keys a).

Definition call_ok (tx : EthereumTransactionCommon) : Prop :=
  in_u 64 (tx_nonce tx) /\ in_u 256 (max_fee_per_gas tx) /\ in_u 64 (gas_limit tx) /\
  match to tx with Some a => length a = 20%nat | None => True end /\ in_u 256 (tx_value tx).

(** A legacy transaction carries its chain in its signature, or in place of it; an old one has
    no chain and is signed. *)
Definition legacy_ok (tx : EthereumTransactionCommon) : Prop :=
  access_list tx = [] /\ max_priority_fee_per_gas tx = max_fee_per_gas tx /\
  match tx_signature tx, chain_id tx with
  | None, Some c => in_u 256 c
  | None, None => False
  | Some s, Some c => sig_ok s /\ 0 < c /\ (sig_v s = 2 * c + 35 \/ sig_v s = 2 * c + 36)
  | Some s, None => sig_ok s /\ (sig_v s = 27 \/ sig_v s = 28)
  end.

Definition typed_ok (tx : EthereumTransactionCommon) : Prop :=
  (exists c, chain_id tx = Some c /\ in_u 256 c) /\ Forall access_ok (access_list tx) /\
  match tx_signature tx with Some s => sig_ok s | None => True end.

Definition tx_ok (tx : EthereumTransactionCommon) : Prop :=
  call_ok tx /\
  match type_ tx with
  | Legacy => legacy_ok tx
  | Eip2930 => typed_ok tx /\ max_priority_fee_per_gas tx = max_fee_per_gas tx
  | Eip1559 => typed_ok tx /\ in_u 256 (max_priority_fee_per_gas tx)
  end.

Section RoundTrip.
Context {RL : RlpLib} {RLL : RlpLaws} {RS : RlpScalars} {RSL : RlpScalarsLaws}.

Lemma decode_h256_exact bs : length bs = 32%nat -> decode_h256 (RData bs) = Some bs.
Proof. intros Hl. cbn. by rewrite bool_decide_true. Qed.

Lemma hash_in_exact n bs : length bs = n -> hash_in n (RData bs) = Some bs.
Proof. intros Hl. cbn. by rewrite bool_decide_true. Qed.

Lemma decode_option_to o : match o with Some a => length a = 20%nat | None => True end ->
  decode_option_h160 (append_option_h160 o) = Some o.
Proof. intros Ho. destruct o as [a|]; [| done]. destruct a; [done |]. cbn. by rewrite bool_decide_true. Qed.

Lemma data_in_append data : data_in (append_vec data) = Some data.
Proof. by destruct data. Qed.

Lemma mapM_map {A} (f : Rlp -> option A) (g : A -> Rlp) l : Forall (fun a => f (g a) = Some a) l ->
  mapM f (map g l) = Some l.
Proof. induction 1 as [|a l Ha _ IH]; [done |]. cbn. rewrite Ha. cbn. by rewrite IH. Qed.

Lemma decode_list_out {A} (f : Rlp -> option A) (g : A -> Rlp) l : Forall (fun a => f (g a) = Some a) l ->
  decode_list f (RList (map g l)) = Some l.
Proof using RSL. intros Hl. unfold decode_list. rewrite rlp_iter_list. by apply mapM_map. Qed.

Lemma access_in_out a : access_ok a -> access_in (access_out a) = Some a.
Proof using RSL.
  intros [Ha Hk]. destruct a as [address keys]. cbn [al_address storage_keys] in *.
  unfold access_in, access_out, dec_bind, next_as. cbn [al_address storage_keys].
  rewrite (hash_in_exact 20) by done. rewrite decode_list_out; [done |].
  apply (Forall_impl _ _ _ Hk). intros k Hl. by apply hash_in_exact.
Qed.

Lemma access_list_in_out l : Forall access_ok l -> decode_list access_in (RList (map access_out l)) = Some l.
Proof using RSL.
  intros Hl. apply decode_list_out. apply (Forall_impl _ _ _ Hl). intros a. apply access_in_out.
Qed.

Lemma vrs_sig s it : sig_ok s -> rlp_decode_vrs (sig_items s ++ it) = Some (Some (sig_v s, sig_r s, sig_s s), it).
Proof using RSL.
  intros (Hv & Hr & Hs & _). unfold rlp_decode_vrs, sig_items. cbn [app].
  by rewrite scalar_in_out, !decode_h256_exact.
Qed.

Lemma sig_new_ok s : sig_ok s -> sig_new (sig_v s) (sig_r s) (sig_s s) = Ok s.
Proof.
  intros (_ & _ & _ & Hr & Hs). unfold sig_new. rewrite !bool_decide_true by done. by destruct s.
Qed.

Lemma vrs_opt o : match o with Some s => sig_ok s | None => True end ->
  exists vrs it, rlp_decode_vrs (opt_sig_items o) = Some (vrs, it) /\ vrs_signature vrs = Some o.
Proof using RSL.
  intros Ho. destruct o as [s|]; [| by exists None, []]. exists (Some (sig_v s, sig_r s, sig_s s)), [].
  cbn [opt_sig_items]. rewrite <- (app_nil_r (sig_items s)), (vrs_sig s []) by done.
  split; [done |]. cbn [vrs_signature]. by rewrite sig_new_ok.
Qed.

(** What follows the fields of a call, when these decode. *)
Ltac decode_fields :=
  unfold dec_bind, next_as, call_items; cbn [app];
  repeat first
    [ rewrite scalar_in_out by assumption
    | rewrite decode_option_to by assumption
    | rewrite data_in_append
    | rewrite access_list_in_out by assumption ].

Lemma legacy_round_trip tx : tx_ok tx -> type_ tx = Legacy ->
  exists items, rlp_encode_legacy_tx tx = RList items /\ rlp_decode_legacy_tx items = Some tx.
Proof using RSL.
  destruct tx as [t c nonce prio fee gl to value data al sig]. unfold tx_ok. cbn [type_].
  intros [(Hn & Hf & Hg & Ht & Hv) Hl] ->. cbn in Hn, Hf, Hg, Ht, Hv. destruct Hl as (Hal & Hp & Hs). cbn in Hal, Hp, Hs.
  subst al prio. unfold rlp_encode_legacy_tx, rlp_encode_legacy_pre_eip155, rlp_encode_legacy_post_eip155.
  cbn [chain_id tx_signature tx_nonce max_fee_per_gas].
  destruct c as [c|], sig as [s|]; try done; eexists; (split; [reflexivity |]);
    unfold rlp_decode_legacy_tx, sig_items; cbn [opt_sig_items sig_items call_items app length];
    rewrite bool_decide_true by done; cbn [negb]; decode_fields;
    cbn [EvmTx.gas_limit EvmTx.to tx_value tx_data]; decode_fields.
  - destruct Hs as (Hs & Hc & Hsv). pose proof Hs as (Hv1 & Hr1 & Hs1 & Hr0 & Hs0).
    pose proof (vrs_sig s [] Hs) as Ev. cbn [sig_items app] in Ev. rewrite Ev.
    rewrite (bool_decide_false (sig_r s = zeros 32)) by done. cbn [andb]. unfold legacy_chain_id.
    destruct (Z.ltb_spec 36 (sig_v s)); [| lia]. rewrite sig_new_ok by done. cbn. do 2 f_equal.
    f_equal. destruct Hsv as [-> | ->].
    + replace (2 * c + 35 - 35) with (c * 2) by lia. apply Z.div_mul. lia.
    + replace (2 * c + 36 - 35) with (1 + c * 2) by lia. rewrite Z.div_add by lia. done.
  - unfold rlp_decode_vrs. rewrite scalar_in_out by done. reflexivity.
  - destruct Hs as (Hs & Hsv). pose proof Hs as (Hv1 & Hr1 & Hs1 & Hr0 & Hs0).
    pose proof (vrs_sig s [] Hs) as Ev. rewrite app_nil_r in Ev. rewrite Ev.
    rewrite (bool_decide_false (sig_r s = zeros 32)) by done. cbn [andb]. unfold legacy_chain_id.
    destruct (Z.ltb_spec 36 (sig_v s)); [lia |]. rewrite sig_new_ok by done.
    by destruct Hsv as [-> | ->].
Qed.

(** The number of items is the one of a signed or of an unsigned transaction. *)
Ltac count_items sig :=
  match goal with |- (if ?b then _ else _) = _ => replace b with false by (by destruct sig) end.

Lemma eip2930_round_trip tx : tx_ok tx -> type_ tx = Eip2930 ->
  exists items, rlp_encode_eip2930_tx tx = Some (RList items) /\ rlp_decode_eip2930_tx items = Some tx.
Proof using RSL.
  destruct tx as [t c nonce prio fee gl to value data al sig]. unfold tx_ok. cbn [type_].
  intros [(Hn & Hf & Hg & Ht & Hv) Hty'] ->. destruct Hty' as [Hty Hp]. cbn in Hn, Hf, Hg, Ht, Hv, Hp. subst prio.
  destruct Hty as ((c' & Hc & Hcr) & Hal & Hs). cbn in Hc, Hal, Hs. subst c.
  unfold rlp_encode_eip2930_tx. cbn [chain_id]. eexists. split; [reflexivity |].
  unfold rlp_decode_eip2930_tx. count_items sig. decode_fields.
  cbn [EvmTx.gas_limit EvmTx.to tx_value tx_data tx_nonce max_fee_per_gas access_list tx_signature]. decode_fields.
  destruct (vrs_opt sig Hs) as (vrs & it & -> & ->). reflexivity.
Qed.

Lemma eip1559_round_trip tx : tx_ok tx -> type_ tx = Eip1559 ->
  exists items, rlp_encode_eip1559_tx tx = Some (RList items) /\ rlp_decode_eip1559_tx items = Some tx.
Proof using RSL.
  destruct tx as [t c nonce prio fee gl to value data al sig]. unfold tx_ok. cbn [type_].
  intros [(Hn & Hf & Hg & Ht & Hv) Hty'] ->. destruct Hty' as [Hty Hp]. cbn in Hn, Hf, Hg, Ht, Hv, Hp.
  destruct Hty as ((c' & Hc & Hcr) & Hal & Hs). cbn in Hc, Hal, Hs. subst c.
  unfold rlp_encode_eip1559_tx. cbn [chain_id]. eexists. split; [reflexivity |].
  unfold rlp_decode_eip1559_tx. count_items sig. decode_fields.
  cbn [EvmTx.gas_limit EvmTx.to tx_value tx_data tx_nonce max_fee_per_gas max_priority_fee_per_gas access_list
       tx_signature]. decode_fields.
  destruct (vrs_opt sig Hs) as (vrs & it & -> & ->). reflexivity.
Qed.

(** Every well-formed transaction is read back from its bytes. *)
Lemma from_to_bytes tx : tx_ok tx -> exists bs, to_bytes tx = Some bs /\ from_bytes bs = Some tx.
Proof using RLL RSL.
  intros Hok. unfold to_bytes, to_rlp_any. destruct (type_ tx) eqn:Ht.
  - destruct (legacy_round_trip tx Hok Ht) as (items & -> & Hd). eexists. split; [reflexivity |].
    destruct (rlp_list_first items) as (b & bs & E & H1 & H2). unfold from_bytes. rewrite E.
    destruct (Z.eqb_spec b 1); [done |]. destruct (Z.eqb_spec b 2); [done |].
    by rewrite <- E, rlp_in_out.
  - destruct (eip2930_round_trip tx Hok Ht) as (items & -> & Hd). eexists. split; [reflexivity |].
    unfold from_bytes. cbn [type_tag Z.eqb Pos.eqb]. by rewrite rlp_in_out.
  - destruct (eip1559_round_trip tx Hok Ht) as (items & -> & Hd). eexists. split; [reflexivity |].
    unfold from_bytes. cbn [type_tag Z.eqb Pos.eqb]. by rewrite rlp_in_out.
Qed.

(** *** What is read is well-formed *)
Lemma next_as_inv {A B} (f : Rlp -> option A) (k : A -> Dec B) it r :
  dec_bind (next_as f) k it = Some r -> exists i it' a, it = i :: it' /\ f i = Some a /\ k a it' = Some r.
Proof.
  unfold dec_bind, next_as. destruct it as [|i it]; [done |]. destruct (f i) as [a|] eqn:E; [| done].
  intros Hk. by exists i, it, a.
Qed.

Lemma hash_in_length n i h : hash_in n i = Some h -> length h = n.
Proof. destruct i; cbn; [| done]. case_bool_decide; [| done]. by intros [= <-]. Qed.

Lemma decode_h256_length i h : decode_h256 i = Some h -> length h = 32%nat.
Proof.
  destruct i as [bs|]; cbn [decode_h256]; [| done]. case_bool_decide; [by intros [= <-] |].
  case_bool_decide; cbn [andb]; [case_bool_decide; cbn [andb]|].
  - intros [= <-]. unfold zeros. rewrite length_app, length_replicate. lia.
  - case_bool_decide; [| done]. intros E. by injection E as <-.
  - case_bool_decide; [| done]. intros E. by injection E as <-.
Qed.

Lemma decode_option_h160_length i o : decode_option_h160 i = Some o ->
  match o with Some a => length a = 20%nat | None => True end.
Proof.
  unfold decode_option_h160. destruct (rlp_is_empty i); [by intros [= <-] |].
  destruct (hash_in 20 i) as [h|] eqn:E; [| done]. intros [= <-]. by apply hash_in_length in E.
Qed.

Lemma access_in_ok i a : access_in i = Some a -> access_ok a.
Proof.
  destruct i as [|items]; [done |]. unfold access_in.
  destruct (dec_bind _ _ items) as [[a' [|]]|] eqn:E; try done. intros [= ->].
  apply next_as_inv in E as (i1 & it1 & address & -> & E1 & E).
  apply next_as_inv in E as (i2 & it2 & keys & -> & E2 & E). injection E as <- _.
  split; [by apply hash_in_length in E1 |]. cbn. apply mapM_Some in E2.
  induction E2 as [|x y l k Hx _ IH]; constructor; [by apply hash_in_length in Hx | done].
Qed.

Lemma access_list_ok i l : decode_list access_in i = Some l -> Forall access_ok l.
Proof.
  unfold decode_list. intros E%mapM_Some.
  induction E as [|x y l' k Hx _ IH]; constructor; [by apply access_in_ok in Hx | done].
Qed.

Lemma vrs_inv it v r s it' : rlp_decode_vrs it = Some (Some (v, r, s), it') ->
  in_u 256 v /\ length r = 32%nat /\ length s = 32%nat.
Proof using RSL.
  unfold rlp_decode_vrs. destruct it as [|i1 [|i2 [|i3 it]]]; try done.
  destruct (scalar_in 256 i1) eqn:E1; [| done]. destruct (decode_h256 i2) eqn:E2; [| done].
  destruct (decode_h256 i3) eqn:E3; [| done]. intros [= -> -> -> ->].
  split_and!; [by apply scalar_in_range in E1 | by apply decode_h256_length in E2 | by apply decode_h256_length in E3].
Qed.

Lemma sig_new_inv v r s sig : in_u 256 v /\ length r = 32%nat /\ length s = 32%nat -> sig_new v r s = Ok sig ->
  sig_ok sig /\ sig_v sig = v.
Proof.
  intros (Hv & Hr & Hs). unfold sig_new. case_bool_decide; [| done]. case_bool_decide; [| done].
  by intros [= <-].
Qed.

Lemma vrs_signature_ok it vrs it' o : rlp_decode_vrs it = Some (vrs, it') -> vrs_signature vrs = Some o ->
  match o with Some s => sig_ok s | None => True end.
Proof using RSL.
  intros E. destruct vrs as [[[v r] s]|]; cbn; [| by intros [= <-]].
  destruct (sig_new v r s) as [sig|] eqn:Es; [| done]. intros [= <-].
  by apply (sig_new_inv v r s sig) in Es as [? _]; [| apply (vrs_inv it v r s it')].
Qed.

(** Splits what was read into its fields. *)
Ltac fields_inv H :=
  repeat (apply next_as_inv in H as (? & ? & ? & -> & ? & H));
  repeat match goal with
  | E : scalar_in _ _ = Some _ |- _ => apply scalar_in_range in E
  | E : decode_option_h160 _ = Some _ |- _ => apply decode_option_h160_length in E
  | E : decode_list access_in _ = Some _ |- _ => apply access_list_ok in E
  end.

Lemma legacy_decoded items tx : rlp_decode_legacy_tx items = Some tx -> tx_ok tx.
Proof using RSL.
  unfold rlp_decode_legacy_tx. destruct (negb _); [done |].
  destruct (dec_bind _ _ items) as [[tx' it']|] eqn:E; cbn [option_map fst]; [| done]. intros [= ->].
  fields_inv E. unfold dec_bind in E. destruct (rlp_decode_vrs _) as [[[[[v r] s]|] it2]|] eqn:Ev; try done.
  pose proof (vrs_inv _ _ _ _ _ Ev) as Hv. unfold legacy_chain_id in E.
  destruct (bool_decide (r = zeros 32) && bool_decide (s = zeros 32)).
  { injection E as <- _. split; [by split_and! |]. split_and!; [done | done | exact (proj1 Hv)]. }
  destruct (Z.ltb_spec 36 v) as [Hlt|Hle].
  - destruct (sig_new v r s) as [sig|] eqn:Es; [| done]. injection E as <- _.
    destruct (sig_new_inv v r s sig Hv Es) as [Hs <-]. split; [by split_and! |]. split_and!; try done.
    cbn. split_and!; [done | apply Z.div_str_pos; lia |].
    pose proof (Z.div_mod (sig_v sig - 35) 2). pose proof (Z.mod_pos_bound (sig_v sig - 35) 2). lia.
  - destruct ((v =? 27) || (v =? 28)) eqn:Eb; [| done].
    destruct (sig_new v r s) as [sig|] eqn:Es; [| done]. injection E as <- _.
    destruct (sig_new_inv v r s sig Hv Es) as [Hs <-]. split; [by split_and! |]. split_and!; try done.
    cbn. split; [done |]. apply orb_true_iff in Eb as [Eb|Eb]; apply Z.eqb_eq in Eb; auto.
Qed.

Lemma eip2930_decoded items tx : rlp_decode_eip2930_tx items = Some tx -> tx_ok tx.
Proof using RSL.
  unfold rlp_decode_eip2930_tx. destruct (negb _ && _); [done |].
  destruct (dec_bind _ _ items) as [[tx' it']|] eqn:E; cbn [option_map fst]; [| done]. intros [= ->].
  fields_inv E. unfold dec_bind in E. destruct (rlp_decode_vrs _) as [[vrs it2]|] eqn:Ev; [| done].
  destruct (vrs_signature vrs) as [o|] eqn:Eo; [| done]. pose proof (vrs_signature_ok _ _ _ _ Ev Eo) as Ho.
  injection E as <- _. split; [by split_and! |]. split; [| done]. split_and!; [eexists; by split | done | done].
Qed.

Lemma eip1559_decoded items tx : rlp_decode_eip1559_tx items = Some tx -> tx_ok tx.
Proof using RSL.
  unfold rlp_decode_eip1559_tx. destruct (negb _ && _); [done |].
  destruct (dec_bind _ _ items) as [[tx' it']|] eqn:E; cbn [option_map fst]; [| done]. intros [= ->].
  fields_inv E. unfold dec_bind in E. destruct (rlp_decode_vrs _) as [[vrs it2]|] eqn:Ev; [| done].
  destruct (vrs_signature vrs) as [o|] eqn:Eo; [| done]. pose proof (vrs_signature_ok _ _ _ _ Ev Eo) as Ho.
  injection E as <- _. split; [by split_and! |]. split; [| done]. split_and!; [eexists; by split | done | done].
Qed.

Lemma from_bytes_ok bs tx : from_bytes bs = Some tx -> tx_ok tx.
Proof using RSL.
  unfold from_bytes. destruct bs as [|b bs]; [done |].
  destruct (b =? 1); [| destruct (b =? 2)]; unfold from_rlp_any; destruct (rlp_in _) as [[|items]|]; try done.
  - apply eip2930_decoded.
  - apply eip1559_decoded.
  - apply legacy_decoded.
Qed.

End RoundTrip.

(** ** Signed transactions *)

(** A transaction that may be signed: what holds of it besides its signature. *)
Definition signable (tx : EthereumTransactionCommon) : Prop :=
  call_ok tx /\
  match type_ tx with
  | Legacy =>
      access_list tx = [] /\ max_priority_fee_per_gas tx = max_fee_per_gas tx /\
      match chain_id tx with Some c => in_u 256 c | None => True end
  | Eip2930 => typed_ok (with_signature tx None) /\ max_priority_fee_per_gas tx = max_fee_per_gas tx
  | Eip1559 => typed_ok (with_signature tx None) /\ in_u 256 (max_priority_fee_per_gas tx)
  end.

Section Signed.
Context {RL : RlpLib} {RS : RlpScalars} {KL : KeccakLib} {KLL : KeccakLaws} {SE : Secp} {SEL : SecpLaws}.

Lemma chain_id_encoding_inv c e : chain_id_encoding c = Some e -> e = 2 * c + 35 /\ e < 2 ^ 256.
Proof.
  unfold chain_id_encoding, u256_checked_mul, checked_add. destruct (Z.ltb_spec (c * 2) (2 ^ 256)); [| done].
  destruct (Z.ltb_spec (c * 2 + 35) (2 ^ 256)); [| done]. intros [= <-]. lia.
Qed.

(** The parity is read back from [v]. *)
Lemma compute_v_parity chain_id parity v r s :
  match chain_id with Some c => in_u 256 c | None => True end -> 0 <= parity < 2 ->
  compute_v chain_id parity = Some v ->
  legacy_compute_parity (mkSig v r s) chain_id = Ok (parity =? 1) /\ in_u 256 v /\
  match chain_id with
  | Some c => 0 < c /\ (v = 2 * c + 35 \/ v = 2 * c + 36)
  | None => v = 27 \/ v = 28
  end.
Proof.
  intros Hc Hp. unfold compute_v, legacy_compute_parity, checked_sub, checked_add. cbn [sig_v].
  destruct chain_id as [c|].
  - destruct (Z.eqb_spec c 0); [done |]. destruct (chain_id_encoding c) as [e|] eqn:Ee; [| done].
    apply chain_id_encoding_inv in Ee as [-> He]. unfold in_u in *.
    destruct (Z.ltb_spec (parity + (2 * c + 35)) (2 ^ 256)); [| done]. intros [= <-].
    destruct (Z.leb_spec (2 * c + 35) (parity + (2 * c + 35))); [| lia].
    replace (parity + (2 * c + 35) - (2 * c + 35)) with parity by lia.
    destruct (Z.ltb_spec parity 2); [| lia]. split_and!; try lia. done.
  - destruct (Z.ltb_spec (parity + 27) (2 ^ 256)); [| lia]. intros [= <-]. unfold in_u.
    destruct (Z.leb_spec 27 (parity + 27)); [| lia]. replace (parity + 27 - 27) with parity by lia.
    destruct (Z.ltb_spec parity 2); [| lia]. split_and!; try lia. done.
Qed.

Lemma address_length pk : length (address_of_key pk) = 20%nat.
Proof using KLL.
  unfold address_of_key. pose proof (keccak_length (drop 1 (serialize pk))). rewrite length_drop. lia.
Qed.

(** What [caller] finds, given the recovered signature. *)
Lemma caller_recovers tx mes sk : message tx = Some mes ->
  signature tx = Ok (ec_sign mes sk) -> caller tx = Some (Ok (address_of_key (public_key sk))).
Proof using KLL SEL.
  intros Hm Hs. unfold caller. rewrite Hm, Hs. pose proof (recover_sign mes sk) as Hr.
  destruct (ec_sign mes sk) as [rs ri]. cbn [fst snd] in Hr. rewrite Hr.
  by rewrite bool_decide_true by apply address_length.
Qed.

Lemma sig_scalars_ok mes sk v : in_u 256 v ->
  sig_ok (mkSig v (b32 (fst (fst (ec_sign mes sk)))) (b32 (snd (fst (ec_sign mes sk))))).
Proof using SEL. intros Hv. destruct (sign_nonzero mes sk). split_and!; try done; apply b32_length. Qed.

Lemma signed_ok tx s : signable tx -> sig_ok s ->
  (type_ tx = Legacy -> match chain_id tx with
                        | Some c => 0 < c /\ (sig_v s = 2 * c + 35 \/ sig_v s = 2 * c + 36)
                        | None => sig_v s = 27 \/ sig_v s = 28
                        end) ->
  tx_ok (with_signature tx (Some s)).
Proof.
  intros [Hc Ht] Hs Hv. split; [exact Hc |]. cbn [type_ with_signature]. destruct (type_ tx).
  - destruct Ht as (Ha & Hp & Hch). split_and!; [exact Ha | exact Hp |]. cbn [tx_signature chain_id with_signature].
    specialize (Hv eq_refl). by destruct (chain_id tx).
  - destruct Ht as ((Hch & Ha & _) & Hp). split; [split_and!; [exact Hch | exact Ha | exact Hs] | exact Hp].
  - destruct Ht as ((Hch & Ha & _) & Hp). split; [split_and!; [exact Hch | exact Ha | exact Hs] | exact Hp].
Qed.

(** A signed transaction is well-formed, and its caller is its signer.  A recovery identifier
    above one has no place in the [v] of a legacy transaction. *)
Lemma sign_then_caller tx string_sk sk tx' :
  signable tx -> match hex_decode string_sk with Some b => parse_secret b | None => None end = Some sk ->
  (forall mes, type_ tx = Legacy -> message tx = Some mes -> snd (ec_sign mes sk) < 2) ->
  sign_transaction tx string_sk = Some (Ok tx') ->
  tx_ok tx' /\ caller tx' = Some (Ok (address_of_key (public_key sk))).
Proof using KLL SEL.
  intros Hok Hsk Hlow. unfold sign_transaction. destruct (message tx) as [mes|] eqn:Hm; [| done].
  assert (Hsec : sign_secp256k1 mes string_sk = Ok (ec_sign mes sk)).
  { unfold sign_secp256k1. destruct (hex_decode string_sk); [| done]. by rewrite Hsk. }
  pose proof (sign_recid mes sk) as Hrec. pose proof (sign_low mes sk) as Hhigh.
  destruct (decide (type_ tx = Legacy)) as [Ht|Ht].
  - rewrite Ht. specialize (Hlow mes Ht eq_refl). unfold sign_legacy. rewrite Hsec.
    destruct (ec_sign mes sk) as [[r s] parity] eqn:Esig. cbn [fst snd] in *.
    destruct (compute_v (chain_id tx) parity) as [v|] eqn:Ev; [| done]. intros [= <-].
    assert (Hch : match chain_id tx with Some c => in_u 256 c | None => True end).
    { destruct Hok as [_ Hok]. rewrite Ht in Hok. by destruct Hok as (_ & _ & ?). }
    destruct (compute_v_parity _ parity v (b32 r) (b32 s) Hch ltac:(lia) Ev) as (Hpar & Hv & Hval). split.
    + apply signed_ok; [done | | done]. pose proof (sig_scalars_ok mes sk v Hv) as Hs. by rewrite Esig in Hs.
    + apply (caller_recovers _ mes sk); [done |]. unfold signature. cbn [tx_signature type_ chain_id with_signature].
      rewrite Ht. unfold signature_legacy. cbn [sig_r sig_s]. rewrite !b32_scalar, Hhigh, Hpar, Esig.
      assert (Hp : Z.b2z (parity =? 1) = parity) by (destruct (Z.eqb_spec parity 1); cbn; lia).
      unfold recovery_id. by rewrite Hp, parse_recovery_ok by lia.
  - intros Hs. assert (Hs' : Ok (with_signature tx (Some (mkSig (snd (ec_sign mes sk))
      (b32 (fst (fst (ec_sign mes sk)))) (b32 (snd (fst (ec_sign mes sk))))))) = Ok (E := SigError) tx').
    { destruct (type_ tx); [done | |]; unfold sig_sign in Hs; rewrite Hsec in Hs;
        destruct (ec_sign mes sk) as [[r s] parity]; cbn [fst snd]; by simplify_eq. }
    injection Hs' as <-. clear Hs. split.
    + apply signed_ok; [done | | done]. apply sig_scalars_ok. unfold in_u. lia.
    + apply (caller_recovers _ mes sk); [done |]. unfold signature. cbn [tx_signature type_ chain_id with_signature].
      replace (match type_ tx with Legacy => _ | _ => _ end) with
        (sig_signature (mkSig (snd (ec_sign mes sk)) (b32 (fst (fst (ec_sign mes sk)))) (b32 (snd (fst (ec_sign mes sk))))))
        by (by destruct (type_ tx)).
      unfold sig_signature. cbn [sig_v sig_r sig_s]. rewrite !b32_scalar, Hhigh.
      destruct (Z.ltb_spec (snd (ec_sign mes sk)) 4); [| lia].
      unfold recovery_id. rewrite wrap_small by (unfold in_u; lia). rewrite parse_recovery_ok by lia.
      by destruct (ec_sign mes sk) as [[r s] parity].
Qed.

End Signed.

End EvmTx.
Export EvmTx.
