(* ===== verification/EvmStorage.v ===== *)
(** The storage of the Etherlink kernel ([src/etherlink/kernel_evm/kernel/src/storage.rs]):
    numbers at fixed paths, the addresses of stored objects, the indexes, and the transactions
    that arrive in chunks. *)

From Stdlib Require Import String Ascii.
From stdpp Require Import strings.
From S2P Require Import Prelude SdkPath SdkStore SdkHost SdkRuntime SdkMock SdkStorage EvmIndexable EvmRlp EvmLinkedList EvmAccount.

Open Scope Z_scope.

Module EvmStorage.

(** The part of [Error] ([error.rs]) these functions return; [EStorage] is the constructor that
    holds a [StorageError]. *)
Inductive KernelError : Type :=
| EStorage (e : KernelStorageError)
| InvalidLoadValue (expected actual : Z)
| InvalidConversion.

Definition path_err (e : PathError) : KernelError := EStorage (KPath e).
Definition runtime_error (e : RuntimeError) : KernelError := EStorage (KRuntime e).

(** ** Paths *)
Definition STORAGE_VERSION_PATH : Path := ascii_bytes "/evm/storage_version".
Definition EVM_CURRENT_BLOCK : Path := ascii_bytes "/evm/world_state/blocks/current".
Definition EVM_BLOCKS : Path := ascii_bytes "/evm/world_state/blocks".
Definition BLOCK_NUMBER : Path := ascii_bytes "/number".
Definition BLOCK_HASH : Path := ascii_bytes "/hash".
Definition EVM_TRANSACTIONS_RECEIPTS : Path := ascii_bytes "/evm/world_state/transactions_receipts".
Definition EVM_TRANSACTIONS_OBJECTS : Path := ascii_bytes "/evm/world_state/transactions_objects".
Definition EVM_CHAIN_ID : Path := ascii_bytes "/evm/chain_id".
Definition EVM_BASE_FEE_PER_GAS : Path := ascii_bytes "/evm/world_state/fees/base_fee_per_gas".
Definition EVM_MINIMUM_BASE_FEE_PER_GAS : Path := ascii_bytes "/evm/world_state/fees/minimum_base_fee_per_gas".
Definition EVM_DA_FEE : Path := ascii_bytes "/evm/world_state/fees/da_fee_per_byte".
Definition TICK_BACKLOG_PATH : Path := ascii_bytes "/evm/world_state/fees/backlog".
Definition TICK_BACKLOG_TIMESTAMP_PATH : Path := ascii_bytes "/evm/world_state/fees/last_timestamp".
Definition SEQUENCER_POOL_PATH : Path := ascii_bytes "/evm/sequencer_pool_address".
Definition EVM_L1_LEVEL : Path := ascii_bytes "/evm/l1_level".
Definition EVM_BURNED_FEES : Path := ascii_bytes "/evm/world_state/fees/burned".
Definition EVM_INFO_PER_LEVEL_TIMESTAMP : Path := ascii_bytes "/evm/info_per_level/timestamp".
Definition EVM_INFO_PER_LEVEL_STATS_NUMBERS : Path := ascii_bytes "/evm/info_per_level/stats/numbers".
Definition EVM_INFO_PER_LEVEL_STATS_TOTAL : Path := ascii_bytes "/evm/info_per_level/stats/total".
Definition DEPOSIT_NONCE : Path := ascii_bytes "/evm/deposit_nonce".
Definition EVM_INDEXES : Path := ascii_bytes "/evm/world_state/indexes".
Definition ACCOUNTS_INDEX : Path := ascii_bytes "/accounts".
Definition BLOCKS_INDEX : Path := ascii_bytes "/blocks".
Definition TRANSACTIONS_INDEX : Path := ascii_bytes "/transactions".
Definition EVM_DELAYED_INBOX_TIMEOUT : Path := ascii_bytes "/evm/delayed_inbox_timeout".
Definition EVM_DELAYED_INBOX_MIN_LEVELS : Path := ascii_bytes "/evm/delayed_inbox_min_levels".
Definition EVENTS : Path := ascii_bytes "/evm/events".
Definition CHUNKED_TRANSACTIONS : Path := ascii_bytes "/chunked_transactions".
Definition CHUNKED_TRANSACTION_NUM_CHUNKS : Path := ascii_bytes "/num_chunks".
Definition CHUNKED_HASHES : Path := ascii_bytes "/chunk_hashes".

Section Kernel.
Context {H : Type} {R : Runtime H} {RL : RlpLib} {HL : HexLib} {KL : KeccakLib}.

Definition KM (A : Type) : Type := comp H KernelError A.

(** The question mark on the results of the runtime and of paths. *)
Definition kruntime {A} (c : comp H RuntimeError A) : KM A :=
  fun h => match c h with Ret a h => Ret a h | Throw e h => Throw (runtime_error e) h | Panic => Panic end.

Definition kread {A} (f : H -> result A RuntimeError) : KM A :=
  fun h => match f h with Ok a => Ret a h | Err e => Throw (runtime_error e) h end.

(** [None] is a read that does not end. *)
Definition kread_all (path : Path) : KM bytes :=
  fun h =>
    match store_read_all h path with
    | None => Panic
    | Some (Ok bs) => Ret bs h
    | Some (Err e) => Throw (runtime_error e) h
    end.

Definition kpath {A} (p : result Path PathError) (k : Path -> KM A) : KM A :=
  match p with Ok p => k p | Err e => comp_throw (path_err e) end.

Definition kindex {A} (c : comp H KernelStorageError A) : KM A :=
  fun h => match c h with Ret a h => Ret a h | Throw e h => Throw (EStorage e) h | Panic => Panic end.

(** A computation whose errors are replaced by a default, [unwrap_or]. *)
Definition unwrap_or {A} (c : KM A) (d : A) : KM A :=
  fun h => match c h with Ret a h => Ret a h | Throw _ h => Ret d h | Panic => Panic end.

(** [store_read_slice(host, path, &mut buffer, expected_size)] with a buffer of zeroes of the
    expected size: the buffer. *)
Definition read_exact (path : Path) (size : nat) : KM bytes :=
  let! r := kread (fun h => store_read_slice h path 0 (replicate size 0)) in
  let (n, buffer) := (r : Z * bytes) in
  if n =? Z.of_nat size then comp_ret buffer else comp_throw (InvalidLoadValue (Z.of_nat size) n).

(** ** Numbers *)
Definition k_read_u256 (path : Path) : KM Z :=
  let! bs := kread (fun h => store_read h path 0 32) in comp_ret (le_value bs).

Definition write_u256 (path : Path) (value : Z) : KM unit := kruntime (store_write path (le_bytes 32 value) 0).

(** [read_u64] does not check how much was read. *)
Definition k_read_u64 (path : Path) : KM Z :=
  let! r := kread (fun h => store_read_slice h path 0 (replicate 8 0)) in comp_ret (le_value (snd r)).

Definition write_u64 (path : Path) (value : Z) : KM unit := kruntime (store_write_all path (le_bytes 8 value)).

(** ** Paths of objects *)
Definition named_path (prefix : Path) (hash : bytes) : result Path PathError :=
  match try_from (47 :: hex_encode hash) with Ok p => concat prefix p | Err e => Err e end.

Definition block_path (hash : bytes) : result Path PathError := named_path EVM_BLOCKS hash.
Definition receipt_path (hash : bytes) : result Path PathError := named_path EVM_TRANSACTIONS_RECEIPTS hash.
Definition object_path (hash : bytes) : result Path PathError := named_path EVM_TRANSACTIONS_OBJECTS hash.

(** ** The current block *)
Definition read_current_block_number : KM Z :=
  kpath (concat EVM_CURRENT_BLOCK BLOCK_NUMBER) (fun path =>
    let! buffer := read_exact path 8 in comp_ret (le_value buffer)).

Definition read_current_block_hash : KM bytes :=
  kpath (concat EVM_CURRENT_BLOCK BLOCK_HASH) (fun path => read_exact path 32).

Definition store_current_block_number_and_hash (block_path : Path) (block_number : Z) (block_hash : bytes) : KM unit :=
  kpath (concat block_path BLOCK_NUMBER) (fun number_path =>
    kpath (concat block_path BLOCK_HASH) (fun hash_path =>
      kruntime (store_write number_path (le_bytes 32 block_number) 0) ;;;
      kruntime (store_write hash_path block_hash 0))).

(** ** Fees *)
Definition store_chain_id (chain_id : Z) : KM unit := write_u256 EVM_CHAIN_ID chain_id.
Definition read_chain_id : KM Z := k_read_u256 EVM_CHAIN_ID.
Definition store_base_fee_per_gas (fee : Z) : KM unit := write_u256 EVM_BASE_FEE_PER_GAS fee.
Definition read_base_fee_per_gas : KM Z := k_read_u256 EVM_BASE_FEE_PER_GAS.
Definition read_minimum_base_fee_per_gas : KM Z := k_read_u256 EVM_MINIMUM_BASE_FEE_PER_GAS.
Definition read_tick_backlog : KM Z := k_read_u64 TICK_BACKLOG_PATH.
Definition store_tick_backlog (value : Z) : KM unit := write_u64 TICK_BACKLOG_PATH value.
Definition read_tick_backlog_timestamp : KM Z := k_read_u64 TICK_BACKLOG_TIMESTAMP_PATH.
Definition store_tick_backlog_timestamp (value : Z) : KM unit := write_u64 TICK_BACKLOG_TIMESTAMP_PATH value.
Definition store_da_fee (fee : Z) : KM unit := write_u256 EVM_DA_FEE fee.
Definition read_da_fee : KM Z := k_read_u256 EVM_DA_FEE.

Definition saturating_add (w a b : Z) : Z := Z.min (2 ^ w - 1) (a + b).

Definition update_burned_fees (burned_fee : Z) : KM unit :=
  let! current := unwrap_or (k_read_u256 EVM_BURNED_FEES) 0 in
  write_u256 EVM_BURNED_FEES (saturating_add 256 current burned_fee).

(** [read_sequencer_pool_address]: an error of the read is an absent address. *)
Definition read_sequencer_pool_address (h : H) : option bytes :=
  match store_read_slice h SEQUENCER_POOL_PATH 0 (replicate 20 0) with
  | Ok (20, bytes) => Some bytes
  | _ => None
  end.

Definition store_sequencer_pool_address (address : bytes) : KM unit :=
  kruntime (store_write_all SEQUENCER_POOL_PATH address).

(** ** Levels and timestamps, signed integers of 64 bits *)
Definition store_timestamp_path (path : Path) (timestamp : Z) : KM unit :=
  kruntime (store_write path (le_bytes 8 timestamp) 0).

Definition read_timestamp_path (path : Path) : KM Z :=
  let! buffer := read_exact path 8 in comp_ret (sint 64 (le_value buffer)).

Definition read_l1_level : KM Z := let! buffer := read_exact EVM_L1_LEVEL 4 in comp_ret (le_value buffer).

Definition store_l1_level (level : Z) : KM unit := kruntime (store_write EVM_L1_LEVEL (le_bytes 4 level) 0).

Definition read_last_info_per_level_timestamp : KM Z := read_timestamp_path EVM_INFO_PER_LEVEL_TIMESTAMP.

Definition read_last_info_per_level_timestamp_stats : KM (Z * Z) :=
  let! numbers := read_exact EVM_INFO_PER_LEVEL_STATS_NUMBERS 8 in
  let! total := read_exact EVM_INFO_PER_LEVEL_STATS_TOTAL 8 in
  comp_ret (sint 64 (le_value numbers), sint 64 (le_value total)).

(** [a + b] and [a - b] on [i64] with overflow checks. *)
Definition i64_checked (z : Z) : option Z := if (- 2 ^ 63 <=? z) && (z <? 2 ^ 63) then Some z else None.

Definition or_panic {A B} (o : option A) (k : A -> KM B) : KM B :=
  match o with Some a => k a | None => fun _ => Panic end.

Definition store_info_per_level_stats (new_timestamp : Z) : KM unit :=
  let! old_timestamp := unwrap_or read_last_info_per_level_timestamp 0 in
  or_panic (i64_checked (new_timestamp - old_timestamp)) (fun diff =>
    let! stats := unwrap_or read_last_info_per_level_timestamp_stats (0, 0) in
    let (numbers, total) := (stats : Z * Z) in
    or_panic (i64_checked (total + diff)) (fun total =>
      or_panic (i64_checked (numbers + 1)) (fun numbers =>
        kruntime (store_write EVM_INFO_PER_LEVEL_STATS_TOTAL (le_bytes 8 total) 0) ;;;
        kruntime (store_write EVM_INFO_PER_LEVEL_STATS_NUMBERS (le_bytes 8 numbers) 0)))).

Definition store_last_info_per_level_timestamp (timestamp : Z) : KM unit :=
  store_timestamp_path EVM_INFO_PER_LEVEL_TIMESTAMP timestamp ;;; store_info_per_level_stats timestamp.

(** [current_timestamp] of [lib.rs]: the last timestamp and the average block time; the division
    panics on zero. *)
Definition current_timestamp : KM Z :=
  let! timestamp := unwrap_or read_last_info_per_level_timestamp 0 in
  let! stats := unwrap_or read_last_info_per_level_timestamp_stats (1, 0) in
  let (numbers, total) := (stats : Z * Z) in
  or_panic (if numbers =? 0 then None else i64_checked (Z.quot total numbers)) (fun average_block_time =>
    or_panic (i64_checked (timestamp + average_block_time)) comp_ret).

(** ** Indexes *)
Definition init_account_index : result IndexableStorage PathError :=
  match concat EVM_INDEXES ACCOUNTS_INDEX with Ok p => Ok (indexable_new p) | Err e => Err e end.
Definition init_blocks_index : result IndexableStorage PathError :=
  match concat EVM_INDEXES BLOCKS_INDEX with Ok p => Ok (indexable_new p) | Err e => Err e end.
Definition init_transaction_hashes_index : result IndexableStorage PathError :=
  match concat EVM_INDEXES TRANSACTIONS_INDEX with Ok p => Ok (indexable_new p) | Err e => Err e end.

(** [From<DurableStorageError> for Error]: the accounts' errors here are of this kind. *)
Definition of_account {A} (c : comp H AccountStorageError A) : KM A :=
  fun h =>
    match c h with
    | Ret a h => Ret a h
    | Throw (ADurable (DPathError e)) h => Throw (path_err e) h
    | Throw (ADurable (DRuntimeError e)) h => Throw (runtime_error e) h
    | Throw _ _ | Panic => Panic
    end.

Definition index_account (address : bytes) (index : IndexableStorage) : KM unit :=
  match from_address address with
  | Err (DPathError e) => comp_throw (path_err e)
  | Err (DRuntimeError e) => comp_throw (runtime_error e)
  | Ok account =>
      let! seen := of_account (indexed account) in
      if (seen : bool) then comp_ret tt
      else kindex (push_value index address) ;;; of_account (set_indexed account)
  end.

Definition index_block (block_hash : bytes) (index : IndexableStorage) : KM unit := kindex (push_value index block_hash).
Definition index_transaction_hash (hash : bytes) (index : IndexableStorage) : KM unit := kindex (push_value index hash).

(** [get_and_increment_deposit_nonce]: the closure gives nothing when the value is missing or
    is not four bytes long. *)
Definition get_and_increment_deposit_nonce : KM Z :=
  let! nonce := unwrap_or
    (let! bs := kread_all DEPOSIT_NONCE in
     if bool_decide (length bs = 4%nat) then comp_ret (le_value bs) else comp_throw InvalidConversion) 0 in
  or_panic (checked_add 32 nonce 1) (fun new_nonce =>
    kruntime (store_write_all DEPOSIT_NONCE (le_bytes 4 new_nonce)) ;;; comp_ret nonce).

Definition store_storage_version (version : Z) : KM unit :=
  kruntime (store_write_all STORAGE_VERSION_PATH (le_bytes 8 version)).

Definition read_storage_version : KM Z :=
  let! bs := kread_all STORAGE_VERSION_PATH in
  if bool_decide (length bs = 8%nat) then comp_ret (le_value bs) else comp_throw InvalidConversion.

Definition clear_events : KM unit :=
  let! v := kread (fun h => store_has h EVENTS) in
  match v with Some _ => kruntime (store_delete EVENTS) | None => comp_ret tt end.

(** A number with a default when nothing is stored. *)
Definition delayed_inbox_timeout : KM Z :=
  let! v := kread (fun h => store_has h EVM_DELAYED_INBOX_TIMEOUT) in
  match v with
  | Some _ => let! buffer := read_exact EVM_DELAYED_INBOX_TIMEOUT 8 in comp_ret (le_value buffer)
  | None => comp_ret 43200
  end.

Definition delayed_inbox_min_levels : KM Z :=
  let! v := kread (fun h => store_has h EVM_DELAYED_INBOX_MIN_LEVELS) in
  match v with
  | Some _ => let! buffer := read_exact EVM_DELAYED_INBOX_MIN_LEVELS 4 in comp_ret (le_value buffer)
  | None => comp_ret 720
  end.

(** ** Transactions in chunks *)
Definition chunked_transaction_path (tx_hash : bytes) : result Path PathError := named_path CHUNKED_TRANSACTIONS tx_hash.

Definition chunked_transaction_num_chunks_path (path : Path) : result Path PathError :=
  concat path CHUNKED_TRANSACTION_NUM_CHUNKS.

Definition chunked_hash_transaction_path (chunked_hash : bytes) (path : Path) : result Path PathError :=
  match named_path CHUNKED_HASHES chunked_hash with Ok p => concat path p | Err e => Err e end.

Definition transaction_chunk_path (path : Path) (i : Z) : result Path PathError :=
  match try_from (47 :: decimal i) with Ok p => concat path p | Err e => Err e end.

(** The cast to [u16], then the comparison; [num_chunks + 2] overflows for the last two
    numbers of the type. *)
Definition is_transaction_complete (path : Path) (num_chunks : Z) : KM bool :=
  let! n_subkeys := kread (fun h => store_count_subkeys h path) in
  or_panic (checked_add 16 num_chunks 2) (fun n => comp_ret (n <=? wrap 16 n_subkeys)).

Definition chunked_transaction_num_chunks_by_path (path : Path) : KM Z :=
  kpath (chunked_transaction_num_chunks_path path) (fun p =>
    let! buffer := read_exact p 2 in comp_ret (le_value buffer)).

Definition chunked_transaction_num_chunks (tx_hash : bytes) : KM Z :=
  kpath (chunked_transaction_path tx_hash) chunked_transaction_num_chunks_by_path.

Definition store_transaction_chunk_data (path : Path) (data : bytes) : KM unit :=
  let! v := kread (fun h => store_has h path) in
  match v with
  | Some Value | Some ValueWithSubtree => comp_ret tt
  | _ =>
      if MAX_FILE_CHUNK_SIZE <? len data then
        let data1 := take (Z.to_nat MAX_FILE_CHUNK_SIZE) data in
        let data2 := drop (Z.to_nat MAX_FILE_CHUNK_SIZE) data in
        kruntime (store_write path data1 0) ;;; kruntime (store_write path data2 MAX_FILE_CHUNK_SIZE)
      else kruntime (store_write path data 0)
  end.

Definition read_transaction_chunk_data (path : Path) : KM bytes :=
  let! data_size := kread (fun h => store_value_size h path) in
  if MAX_FILE_CHUNK_SIZE <? data_size then
    let! data1 := kread (fun h => store_read h path 0 MAX_FILE_CHUNK_SIZE) in
    let! data2 := kread (fun h => store_read h path MAX_FILE_CHUNK_SIZE MAX_FILE_CHUNK_SIZE) in
    comp_ret (data1 ++ data2)
  else kread (fun h => store_read h path 0 MAX_FILE_CHUNK_SIZE).

(** The loop [for i in 0..num_chunks], from [i] on with [n] chunks left. *)
Fixpoint get_chunks (path : Path) (n : nat) (i : Z) (buffer : bytes) : KM bytes :=
  match n with
  | O => comp_ret buffer
  | S n =>
      kpath (transaction_chunk_path path i) (fun p =>
        let! data := read_transaction_chunk_data p in
        get_chunks path n (i + 1) (buffer ++ data))
  end.

Definition get_full_transaction (path : Path) (num_chunks : Z) : KM bytes :=
  get_chunks path (Z.to_nat num_chunks) 0 [].

Definition remove_chunked_transaction_by_path (path : Path) : KM unit := kruntime (store_delete path).

Definition remove_chunked_transaction (tx_hash : bytes) : KM unit :=
  kpath (chunked_transaction_path tx_hash) remove_chunked_transaction_by_path.

Definition store_transaction_chunk (tx_hash : bytes) (i : Z) (data : bytes) : KM (option bytes) :=
  kpath (chunked_transaction_path tx_hash) (fun path =>
    let! num_chunks := chunked_transaction_num_chunks_by_path path in
    kpath (transaction_chunk_path path i) (fun chunk_path =>
      store_transaction_chunk_data chunk_path data ;;;
      (let! complete := is_transaction_complete path num_chunks in
       if (complete : bool) then
         let! data := get_full_transaction path num_chunks in
         kruntime (store_delete path) ;;; comp_ret (Some data)
       else comp_ret None))).

(** The loop over the announced hashes. *)
Fixpoint store_chunk_hashes (path : Path) (chunk_hashes : list bytes) : KM unit :=
  match chunk_hashes with
  | [] => comp_ret tt
  | chunk_hash :: chunk_hashes =>
      kpath (chunked_hash_transaction_path chunk_hash path) (fun p =>
        kruntime (store_write p [0] 0) ;;; store_chunk_hashes path chunk_hashes)
  end.

Definition create_chunked_transaction (tx_hash : bytes) (num_chunks : Z) (chunk_hashes : list bytes) : KM unit :=
  kpath (chunked_transaction_path tx_hash) (fun path => fun h =>
    let subkeys := match store_count_subkeys h path with Ok n => n | Err _ => 0 end in
    if 0 <? subkeys then Ret tt h
    else kpath (chunked_transaction_num_chunks_path path) (fun p =>
      kruntime (store_write p (le_bytes 2 num_chunks) 0) ;;; store_chunk_hashes path chunk_hashes) h).

End Kernel.

End EvmStorage.
Export EvmStorage.
