(* ===== verification/EvmInbox.v ===== *)
(** The inbox of the Etherlink kernel in proxy mode
    ([src/etherlink/kernel_evm/kernel/src/inbox.rs], [parsing.rs], and the frame of external
    messages in [src/src/kernel_sdk/encoding/src/inbox.rs]).

    An external message is a transaction, the announcement of a transaction in chunks, or a
    chunk of one.  The logs are left out. *)

From Stdlib Require Import String Ascii.
From stdpp Require Import strings.
From S2P Require Import Prelude SdkPath SdkStore SdkHost SdkRuntime SdkMock SdkStorage EvmIndexable EvmRlp EvmLinkedList EvmAccount EvmTx EvmStorage.

Open Scope Z_scope.

Module EvmInbox.

(** ** Transactions *)
Record Deposit : Type := mkDeposit { amount : Z; receiver : bytes }.

Inductive TransactionContent : Type :=
| Ethereum (tx : EthereumTransactionCommon)
| TDeposit (d : Deposit)
| EthereumDelayed (tx : EthereumTransactionCommon).

Record Transaction : Type := mkTransaction { tx_hash : bytes; tx_content : TransactionContent }.

Definition ETHEREUM_TX_TAG : Z := 1.
Definition DEPOSIT_TX_TAG : Z := 2.
Definition ETHEREUM_DELAYED_TX_TAG : Z := 3.
Definition TRANSACTION_HASH_SIZE : nat := 32.

Section Codecs.
Context {RL : RlpLib} {RS : RlpScalars}.

Definition deposit_out (d : Deposit) : Rlp := RList [scalar_out (amount d); RData (receiver d)].

Definition deposit_in (i : Rlp) : option Deposit :=
  match i with
  | RList [a; r] =>
      match scalar_in 256 a, hash_in 20 r with Some a, Some r => Some (mkDeposit a r) | _, _ => None end
  | _ => None
  end.

(** [None] is the panic of [to_bytes]. *)
Definition content_out (c : TransactionContent) : option Rlp :=
  match c with
  | Ethereum tx =>
      match to_bytes tx with Some bs => Some (RList [scalar_out ETHEREUM_TX_TAG; RData bs]) | None => None end
  | TDeposit d => Some (RList [scalar_out DEPOSIT_TX_TAG; deposit_out d])
  | EthereumDelayed tx =>
      match to_bytes tx with Some bs => Some (RList [scalar_out ETHEREUM_DELAYED_TX_TAG; RData bs]) | None => None end
  end.

(** [tx.as_val()?] and [EthereumTransactionCommon::from_bytes(&bytes)?]. *)
Definition ethereum_in (i : Rlp) : option EthereumTransactionCommon :=
  match data_in i with Some bs => from_bytes bs | None => None end.

Definition content_in (i : Rlp) : option TransactionContent :=
  match i with
  | RList [t; tx] =>
      match scalar_in 8 t with
      | None => None
      | Some tag =>
          if tag =? DEPOSIT_TX_TAG then match deposit_in tx with Some d => Some (TDeposit d) | None => None end
          else if tag =? ETHEREUM_TX_TAG then match ethereum_in tx with Some t => Some (Ethereum t) | None => None end
          else if tag =? ETHEREUM_DELAYED_TX_TAG
          then match ethereum_in tx with Some t => Some (EthereumDelayed t) | None => None end
          else None
      end
  | _ => None
  end.

Definition decode_tx_hash (i : Rlp) : option bytes := hash_in TRANSACTION_HASH_SIZE i.

Definition transaction_out (t : Transaction) : option Rlp :=
  match content_out (tx_content t) with Some c => Some (RList [RData (tx_hash t); c]) | None => None end.

Definition transaction_in (i : Rlp) : option Transaction :=
  match i with
  | RList [h; c] =>
      match decode_tx_hash h, content_in c with Some h, Some c => Some (mkTransaction h c) | _, _ => None end
  | _ => None
  end.

End Codecs.

Definition data_size (t : Transaction) : Z :=
  match tx_content t with TDeposit _ => 0 | Ethereum e | EthereumDelayed e => len (tx_data e) end.

Definition is_delayed (t : Transaction) : bool :=
  match tx_content t with TDeposit _ | EthereumDelayed _ => true | Ethereum _ => false end.

Definition transaction_type (t : Transaction) : TransactionType :=
  match tx_content t with TDeposit _ => Legacy | Ethereum tx | EthereumDelayed tx => type_ tx end.

(** ** External messages *)
Inductive ProxyInput : Type :=
| SimpleTransaction (tx : Transaction)
| NewChunkedTransaction (tx_hash : bytes) (num_chunks : Z) (chunk_hashes : list bytes)
| TransactionChunk (tx_hash : bytes) (i : Z) (chunk_hash data : bytes).

(** What an external message can be: [Unparsable], or an [Input]. *)
Inductive InputResult : Type :=
| ModeSpecific (p : ProxyInput)
| ForceKernelUpgrade
| Unparsable.

Definition SIMPLE_TRANSACTION_TAG : Z := 0.
Definition NEW_CHUNKED_TRANSACTION_TAG : Z := 1.
Definition TRANSACTION_CHUNK_TAG : Z := 2.
Definition FORCE_KERNEL_UPGRADE_TAG : Z := 255.
Definition TARGETTED_TAG : Z := 0.
Definition MAX_SIZE_PER_CHUNK : Z := 4095 - 1 - 20 - 1 - 2 - 32 - 32.

Definition split_at (bs : bytes) (mid : nat) : option (bytes * bytes) :=
  if bool_decide (mid <= length bs)%nat then Some (take mid bs, drop mid bs) else None.

(** [parsable!]. *)
Definition parsable {A} (o : option A) (k : A -> InputResult) : InputResult :=
  match o with Some x => k x | None => Unparsable end.

Section Parsing.
Context {RL : RlpLib} {RS : RlpScalars} {KL : KeccakLib}.

Definition parse_simple_transaction (bs : bytes) : InputResult :=
  parsable (split_at bs TRANSACTION_HASH_SIZE) (fun '(tx_hash, remaining) =>
    let produced_hash := keccak256 remaining in
    if bool_decide (tx_hash <> produced_hash) then Unparsable
    else parsable (from_bytes remaining) (fun tx => ModeSpecific (SimpleTransaction (mkTransaction tx_hash (Ethereum tx))))).

(** The loop [for _ in 0..num_chunks] over the hashes. *)
Fixpoint parse_hashes (n : nat) (remaining : bytes) : option (list bytes) :=
  match n with
  | O => Some []
  | S n =>
      match split_at remaining TRANSACTION_HASH_SIZE with
      | None => None
      | Some (chunk_hash, remaining) =>
          match parse_hashes n remaining with Some l => Some (chunk_hash :: l) | None => None end
      end
  end.

Definition parse_new_chunked_transaction (bs : bytes) : InputResult :=
  parsable (split_at bs TRANSACTION_HASH_SIZE) (fun '(tx_hash, remaining) =>
    parsable (split_at remaining 2) (fun '(n, remaining) =>
      let num_chunks := le_value n in
      if negb (len remaining =? Z.of_nat TRANSACTION_HASH_SIZE * num_chunks) then Unparsable
      else parsable (parse_hashes (Z.to_nat num_chunks) remaining) (fun chunk_hashes =>
        ModeSpecific (NewChunkedTransaction tx_hash num_chunks chunk_hashes)))).

Definition parse_transaction_chunk (bs : bytes) : InputResult :=
  parsable (split_at bs TRANSACTION_HASH_SIZE) (fun '(tx_hash, remaining) =>
    parsable (split_at remaining 2) (fun '(i, remaining) =>
      let i := le_value i in
      parsable (split_at remaining TRANSACTION_HASH_SIZE) (fun '(chunk_hash, remaining) =>
        let data_hash := keccak256 remaining in
        if bool_decide (chunk_hash <> data_hash) then Unparsable
        else ModeSpecific (TransactionChunk tx_hash i chunk_hash remaining)))).

Definition proxy_parse_external (tag : Z) (input : bytes) : InputResult :=
  if tag =? SIMPLE_TRANSACTION_TAG then parse_simple_transaction input
  else if tag =? NEW_CHUNKED_TRANSACTION_TAG then parse_new_chunked_transaction input
  else if tag =? TRANSACTION_CHUNK_TAG then parse_transaction_chunk input
  else Unparsable.

(** [ExternalMessageFrame::parse]: a tag, the address of a rollup, the contents. *)
Definition parse_frame (input : bytes) : option (bytes * bytes) :=
  match input with
  | tag :: rest => if tag =? TARGETTED_TAG then split_at rest 20 else None
  | [] => None
  end.

Definition parse_external (input smart_rollup_address : bytes) : InputResult :=
  match parse_frame input with
  | Some (address, remaining) =>
      if bool_decide (address = smart_rollup_address) then
        match remaining with
        | [] => Unparsable
        | transaction_tag :: remaining =>
            if transaction_tag =? FORCE_KERNEL_UPGRADE_TAG then ForceKernelUpgrade
            else proxy_parse_external transaction_tag remaining
        end
      else Unparsable
  | None => Unparsable
  end.

End Parsing.

(** ** Handling *)
Section Handling.
Context {H : Type} {R : Runtime H} {RL : RlpLib} {RS : RlpScalars} {HL : HexLib} {KL : KeccakLib}.

(** [handle_transaction_chunk]. *)
Definition handle_transaction_chunk (tx_hash : bytes) (i : Z) (chunk_hash data : bytes) : KM (H := H) (option Transaction) :=
  fun h =>
    match chunked_transaction_num_chunks tx_hash h with
    | Panic => Panic
    | Throw _ h => Ret None h
    | Ret num_chunks h =>
        if num_chunks <=? i then Ret None h
        else
          kpath (chunked_transaction_path tx_hash) (fun path =>
            kpath (chunked_hash_transaction_path chunk_hash path) (fun chunk_hash_path => fun h =>
              match store_read h chunk_hash_path 0 0 with
              | Err _ => Ret None h
              | Ok _ =>
                  if negb (i =? num_chunks - 1) && (len data <? MAX_SIZE_PER_CHUNK)
                  then (remove_chunked_transaction tx_hash ;;; comp_ret None) h
                  else
                    (let! full := store_transaction_chunk tx_hash i data in
                     match full with
                     | Some data =>
                         if bool_decide (keccak256 data = tx_hash) then
                           match from_bytes data with
                           | Some tx => comp_ret (Some (mkTransaction tx_hash (Ethereum tx)))
                           | None => comp_ret None
                           end
                         else comp_ret None
                     | None => comp_ret None
                     end) h
              end)) h
    end.

(** [handle_deposit]. *)
Definition handle_deposit (deposit : Deposit) : KM (H := H) Transaction :=
  let! deposit_nonce := get_and_increment_deposit_nonce in
  let to_hash := le_bytes 32 (amount deposit) ++ receiver deposit ++ le_bytes 4 deposit_nonce in
  let kec := keccak256 to_hash in
  if bool_decide (length kec = TRANSACTION_HASH_SIZE) then comp_ret (mkTransaction kec (TDeposit deposit))
  else comp_throw InvalidConversion.

(** [handle_input] of [ProxyInput]: the inbox is the list of the transactions. *)
Definition handle_input (input : ProxyInput) (inbox : list Transaction) : KM (H := H) (list Transaction) :=
  match input with
  | SimpleTransaction tx => comp_ret (inbox ++ [tx])
  | NewChunkedTransaction tx_hash num_chunks chunk_hashes =>
      create_chunked_transaction tx_hash num_chunks chunk_hashes ;;; comp_ret inbox
  | TransactionChunk tx_hash i chunk_hash data =>
      let! tx := handle_transaction_chunk tx_hash i chunk_hash data in
      comp_ret (match tx with Some tx => inbox ++ [tx] | None => inbox end)
  end.

Definition proxy_handle_deposit (deposit : Deposit) (inbox : list Transaction) : KM (H := H) (list Transaction) :=
  let! tx := handle_deposit deposit in comp_ret (inbox ++ [tx]).

End Handling.

(** ** Well-formed transactions are encoded and decoded *)
Definition content_ok (c : TransactionContent) : Prop :=
  match c with
  | Ethereum tx | EthereumDelayed tx => tx_ok tx
  | TDeposit d => in_u 256 (amount d) /\ length (receiver d) = 20%nat
  end.

Definition transaction_ok (t : Transaction) : Prop := length (tx_hash t) = 32%nat /\ content_ok (tx_content t).

Section RoundTrip.
Context {RL : RlpLib} {RLL : RlpLaws} {RS : RlpScalars} {RSL : RlpScalarsLaws}.

Lemma scalar_tag z : in_u 8 z -> scalar_in 8 (scalar_out z) = Some z.
Proof using RSL. apply scalar_in_out. Qed.

Lemma content_round_trip c : content_ok c -> exists i, content_out c = Some i /\ content_in i = Some c.
Proof using RLL RSL.
  destruct c as [tx|d|tx]; cbn [content_ok content_out].
  - intros Hok. destruct (from_to_bytes tx Hok) as (bs & -> & E). eexists. split; [done |].
    cbn [content_in]. rewrite scalar_tag by done. cbn. unfold ethereum_in. cbn. by rewrite E.
  - intros [Ha Hr]. eexists. split; [done |]. cbn [content_in]. rewrite scalar_tag by done. cbn [Z.eqb].
    unfold deposit_out, deposit_in. rewrite scalar_in_out, hash_in_exact by done. by destruct d.
  - intros Hok. destruct (from_to_bytes tx Hok) as (bs & -> & E). eexists. split; [done |].
    cbn [content_in]. rewrite scalar_tag by done. cbn. unfold ethereum_in. cbn. by rewrite E.
Qed.

Lemma content_in_ok i c : content_in i = Some c -> content_ok c.
Proof using RSL.
  unfold content_in, ethereum_in, deposit_in. destruct i as [|[|t [|x [|? ?]]]]; try done.
  destruct (scalar_in 8 t) as [tag|]; [| done]. destruct (tag =? DEPOSIT_TX_TAG).
  - destruct x as [|[|a [|r [|? ?]]]]; try done. destruct (scalar_in 256 a) eqn:Ea; [| done].
    destruct (hash_in 20 r) eqn:Er; [| done]. intros [= <-]. split; [by eapply scalar_in_range | by eapply hash_in_length].
  - destruct (tag =? ETHEREUM_TX_TAG); [| destruct (tag =? ETHEREUM_DELAYED_TX_TAG); [| done]];
      (destruct (data_in x) as [bs|]; [| done]); (destruct (from_bytes bs) eqn:Eb; [| done]);
      intros [= <-]; by eapply from_bytes_ok.
Qed.

Lemma transaction_round_trip t : transaction_ok t ->
  exists i, transaction_out t = Some i /\ transaction_in i = Some t.
Proof using RLL RSL.
  destruct t as [h c]. unfold transaction_ok, transaction_out, transaction_in, decode_tx_hash. cbn [tx_hash tx_content].
  intros [Hh Hc]. destruct (content_round_trip c Hc) as (i & -> & E). eexists. split; [done |].
  cbv iota. by rewrite hash_in_exact, E by done.
Qed.

End RoundTrip.

End EvmInbox.
Export EvmInbox.
