(* ===== verification/EvmChunks.v ===== *)
(** Transactions that arrive in chunks are put back together: what the storage holds while
    chunks are missing, and that [handle_transaction_chunk] and its callers keep it
    ([src/etherlink/kernel_evm/kernel/src/inbox.rs], [storage.rs]). *)

From Stdlib Require Import String Ascii.
From stdpp Require Import strings fin_maps.
From stdpp Require Import strings.
From S2P Require Import Prelude SdkPath SdkStore SdkHost SdkRuntime SdkMock SdkStorage SdkTxn EvmIndexable EvmRlp EvmLinkedList EvmAccount EvmTx EvmStorage EvmInbox.

Open Scope Z_scope.

Module EvmChunks.

(** ** The node of a transaction some chunks of which are missing *)
Definition NUM : bytes := ascii_bytes "num_chunks".
Definition HASHES : bytes := ascii_bytes "chunk_hashes".

Definition chunk_step (i : nat) : bytes := decimal (Z.of_nat i).

#[export] Instance chunk_step_inj : Inj (=) (=) chunk_step.
Proof. intros i j E. apply decimal_inj in E; lia. Qed.

Lemma not_a_chunk s i : undecimal s < 0 \/ decimal (undecimal s) <> s -> s <> chunk_step i.
Proof.
  intros Hs E. unfold chunk_step in E. pose proof (undecimal_decimal (Z.of_nat i) ltac:(lia)) as Hu.
  rewrite <- E in Hu. destruct Hs as [Hs|Hs]; [lia |]. apply Hs. by rewrite Hu.
Qed.

Lemma num_not_chunk i : NUM <> chunk_step i.
Proof. apply not_a_chunk. right. vm_compute. discriminate. Qed.

Lemma hashes_not_chunk i : HASHES <> chunk_step i.
Proof. apply not_a_chunk. right. vm_compute. discriminate. Qed.

Definition chunk_nodes (rec : gmap nat bytes) : gmap bytes Node := kmap chunk_step (plain <$> rec).

Definition pending_node (n : Z) (hashes : Node) (rec : gmap nat bytes) : Node :=
  mkNode None (<[NUM := plain (le_bytes 2 n)]> (<[HASHES := hashes]> (chunk_nodes rec))).

Lemma chunk_nodes_lookup rec i : chunk_nodes rec !! chunk_step i = plain <$> rec !! i.
Proof. unfold chunk_nodes. by rewrite (lookup_kmap chunk_step), lookup_fmap. Qed.

Lemma chunk_nodes_none rec s : (forall i, s <> chunk_step i) -> chunk_nodes rec !! s = None.
Proof. intros Hs. apply lookup_kmap_None; [apply _ |]. intros i E. by destruct (Hs i). Qed.

Lemma pending_size n hashes rec : base.size (inner (pending_node n hashes rec)) = S (S (base.size rec)).
Proof.
  cbn [inner pending_node]. rewrite !map_size_insert_None.
  - unfold chunk_nodes. rewrite <- length_map_to_list, (Permutation_length (map_to_list_kmap chunk_step _)).
    by rewrite length_fmap, length_map_to_list, map_size_fmap.
  - apply chunk_nodes_none, hashes_not_chunk.
  - rewrite lookup_insert_ne by discriminate. apply chunk_nodes_none, num_not_chunk.
Qed.

Lemma pending_at n hashes rec s : subtree (pending_node n hashes rec) [s] =
  default node_default (inner (pending_node n hashes rec) !! s).
Proof. unfold subtree. cbn [node_at]. by destruct (inner _ !! s). Qed.

Lemma pending_num n hashes rec : subtree (pending_node n hashes rec) [NUM] = plain (le_bytes 2 n).
Proof. rewrite pending_at. cbn [inner pending_node]. by rewrite lookup_insert_eq. Qed.

Lemma pending_hashes n hashes rec : subtree (pending_node n hashes rec) [HASHES] = hashes.
Proof.
  rewrite pending_at. cbn [inner pending_node].
  by rewrite lookup_insert_ne, lookup_insert_eq by discriminate.
Qed.

Lemma pending_chunk n hashes rec i :
  subtree (pending_node n hashes rec) [chunk_step i] =
  match rec !! i with Some d => plain d | None => node_default end.
Proof.
  rewrite pending_at. cbn [inner pending_node].
  rewrite !lookup_insert_ne by (apply num_not_chunk || apply hashes_not_chunk).
  rewrite chunk_nodes_lookup. by destruct (rec !! i).
Qed.

(** Storing a missing chunk. *)
Lemma pending_store n hashes rec i d : rec !! i = None ->
  set_at (pending_node n hashes rec) [chunk_step i] d = pending_node n hashes (<[i := d]> rec).
Proof.
  intros Hi. unfold set_at. change (default node_default (node_at (pending_node n hashes rec) [chunk_step i]))
    with (subtree (pending_node n hashes rec) [chunk_step i]). rewrite pending_chunk, Hi.
  cbn [insert_at]. unfold pending_node at 1, with_inner. cbn [value inner]. unfold pending_node. cbn [inner]. f_equal.
  rewrite (insert_insert_ne _ (chunk_step i) NUM) by (apply not_eq_sym, num_not_chunk).
  rewrite (insert_insert_ne _ (chunk_step i) HASHES) by (apply not_eq_sym, hashes_not_chunk).
  f_equal. f_equal. unfold chunk_nodes. by rewrite fmap_insert, (kmap_insert chunk_step).
Qed.

(** ** Reads of a known length *)
Lemma read_exact_spec {H} {R : Runtime H} {L : RuntimeLaws H} (h : H) p ps v :
  is_path p ps -> len p <= limit -> value_at (view h) ps = Some v -> len v <= MAX_FILE_CHUNK_SIZE ->
  read_exact p (length v) h = Ret v h.
Proof.
  intros Hp Hl Hv Hlen. unfold read_exact, comp_bind, kread.
  rewrite (law_read_slice h p ps 0 _ Hp Hl) by (lia || by rewrite length_replicate).
  rewrite Hv. destruct (Z.ltb_spec (len v) 0); [lia |].
  change (Z.to_nat 0) with O. rewrite drop_0, length_replicate, take_ge by done. cbn [fst snd].
  rewrite Z.eqb_refl. unfold comp_ret, fill. by rewrite drop_ge, app_nil_r by (by rewrite length_replicate).
Qed.

Lemma read_exact_missing {H} {R : Runtime H} {L : RuntimeLaws H} (h : H) p ps size :
  is_path p ps -> len p <= limit -> value_at (view h) ps = None -> Z.of_nat size <= MAX_FILE_CHUNK_SIZE ->
  read_exact p size h = Throw (runtime_error (HostErr StoreNotAValue)) h.
Proof.
  intros Hp Hl Hv Hlen. unfold read_exact, comp_bind, kread.
  rewrite (law_read_slice h p ps 0 _ Hp Hl) by (lia || by rewrite length_replicate). by rewrite Hv.
Qed.

Lemma value_size_small z : 0 <= z < 2 ^ 31 ->
  match error_wrap (sint 32 z) with Ok size => Ok size | Err e => Err (HostErr e) end = Ok z.
Proof.
  intros Hz. rewrite sint_small by (unfold in_s; lia). unfold error_wrap.
  destruct (Z.leb_spec 0 z); [done | lia].
Qed.

(** ** Messages *)
Definition framed (address m : bytes) : bytes := TARGETTED_TAG :: address ++ m.

Definition chunk_message {KL : KeccakLib} (txh : bytes) (i : nat) (d : bytes) : bytes :=
  TRANSACTION_CHUNK_TAG :: txh ++ le_bytes 2 (Z.of_nat i) ++ keccak256 d ++ d.

Definition announcement {KL : KeccakLib} (txh : bytes) (cs : list bytes) : bytes :=
  NEW_CHUNKED_TRANSACTION_TAG :: txh ++ le_bytes 2 (len cs) ++ List.concat (map keccak256 cs).

Lemma split_at_app (a b : bytes) n : length a = n -> split_at (a ++ b) n = Some (a, b).
Proof.
  intros <-. unfold split_at. rewrite bool_decide_true by (rewrite length_app; lia).
  by rewrite take_app_length, drop_app_length.
Qed.

Lemma keccak_length_nat {KL : KeccakLib} {KLL : KeccakLaws} d : length (keccak256 d) = 32%nat.
Proof. apply Nat2Z.inj. by rewrite keccak_length. Qed.

Lemma parse_hashes_concat hs : Forall (fun c => length c = 32%nat) hs ->
  parse_hashes (length hs) (List.concat hs) = Some hs /\ length (List.concat hs) = (32 * length hs)%nat.
Proof.
  induction 1 as [|c hs Hc _ [IH IHl]]; [done |]. cbn [length parse_hashes List.concat].
  rewrite (split_at_app c) by done. rewrite IH, length_app, IHl. split; [done | lia].
Qed.

Section Parse.
Context {RL : RlpLib} {RS : RlpScalars} {KL : KeccakLib} {KLL : KeccakLaws}.
Context (address txh : bytes) (Ha : length address = 20%nat) (Ht : length txh = 32%nat).

Lemma parse_framed tag m : tag <> FORCE_KERNEL_UPGRADE_TAG ->
  parse_external (framed address (tag :: m)) address = proxy_parse_external tag m.
Proof using Ha.
  intros Htag. unfold parse_external, framed, parse_frame. rewrite Z.eqb_refl, split_at_app by done.
  rewrite bool_decide_true by done. apply Z.eqb_neq in Htag. by rewrite Htag.
Qed.

Lemma parse_chunk i d : Z.of_nat i < 2 ^ 16 ->
  parse_external (framed address (chunk_message txh i d)) address =
  ModeSpecific (TransactionChunk txh (Z.of_nat i) (keccak256 d) d).
Proof using Ha Ht KLL.
  intros Hi. unfold chunk_message. rewrite parse_framed by done.
  change (proxy_parse_external TRANSACTION_CHUNK_TAG ?m) with (parse_transaction_chunk m).
  unfold parse_transaction_chunk, parsable, TRANSACTION_HASH_SIZE. rewrite (split_at_app txh) by done.
  rewrite (split_at_app (le_bytes 2 _)) by apply length_le_bytes.
  rewrite (split_at_app (keccak256 d)) by apply keccak_length_nat.
  rewrite bool_decide_false by (by intros []). rewrite le_value_bytes, wrap_small by (unfold in_u; lia). done.
Qed.

Lemma parse_announcement cs : len cs < 2 ^ 16 ->
  parse_external (framed address (announcement txh cs)) address =
  ModeSpecific (NewChunkedTransaction txh (len cs) (map keccak256 cs)).
Proof using Ha Ht KLL.
  intros Hn. unfold announcement. rewrite parse_framed by done.
  change (proxy_parse_external NEW_CHUNKED_TRANSACTION_TAG ?m) with (parse_new_chunked_transaction m).
  unfold parse_new_chunked_transaction, parsable, TRANSACTION_HASH_SIZE. rewrite (split_at_app txh) by done.
  rewrite (split_at_app (le_bytes 2 _)) by apply length_le_bytes.
  destruct (parse_hashes_concat (map keccak256 cs)) as [Hp Hl].
  { apply Forall_forall. intros c Hc. apply list_elem_of_In, in_map_iff in Hc as (d & <- & _). apply keccak_length_nat. }
  rewrite length_map in Hp, Hl. rewrite le_value_bytes, wrap_small by (unfold in_u; lia).
  rewrite Hl. destruct (Z.eqb_spec (Z.of_nat (32 * length cs)) (Z.of_nat 32 * len cs)) as [_|Hne]; [| lia].
  cbn [negb]. by rewrite Nat2Z.id, Hp.
Qed.

End Parse.

(** External messages one after the other; those that are not for the rollup, or are
    malformed, are ignored. *)
Fixpoint process {H} {R : Runtime H} {RL : RlpLib} {RS : RlpScalars} {HL : HexLib} {KL : KeccakLib}
    (address : bytes) (messages : list bytes) (inbox : list Transaction) : KM (H := H) (list Transaction) :=
  match messages with
  | [] => comp_ret inbox
  | m :: messages =>
      let! inbox := (match parse_external m address with
                     | ModeSpecific p => handle_input p inbox
                     | _ => comp_ret inbox
                     end) in
      process address messages inbox
  end.

(** ** The storage *)
Section Chunks.
Context {H : Type} {R : Runtime H} {L : RuntimeLaws H}.
Context {RL : RlpLib} {RS : RlpScalars} {HL : HexLib} {HLL : HexLaws} {KL : KeccakLib} {KLL : KeccakLaws}.
Context (Hfit : 164 <= limit (H := H)).
Context (txh : bytes) (Htxh : length txh = 32%nat).
Implicit Types (h : H) (rec : gmap nat bytes) (i : nat) (d c : bytes).

Definition T : Path := CHUNKED_TRANSACTIONS ++ 47 :: hex_encode txh.
Definition ts : list bytes := [ascii_bytes "chunked_transactions"; hex_encode txh].

Lemma hash_fits c : length c = 32%nat -> c <> [] /\ len c <= 64.
Proof. intros Hc. split; [by destruct c | by rewrite Hc]. Qed.

Lemma T_ok : chunked_transaction_path txh = Ok T /\ is_path T ts /\ len T = 86 /\ len T <= limit.
Proof using HLL Hfit Htxh.
  destruct (hash_fits txh Htxh) as [Hne Hl].
  assert (HC : is_path CHUNKED_TRANSACTIONS [ascii_bytes "chunked_transactions"]).
  { closed_path. }
  destruct (hex_below _ _ txh HC Hne Hl) as (E1 & E2 & Hp & HlT).
  { change (len CHUNKED_TRANSACTIONS) with 21. change PATH_MAX_SIZE with 242. lia. }
  change (len CHUNKED_TRANSACTIONS) with 21 in HlT.
  unfold chunked_transaction_path, named_path. rewrite E1, E2. fold T in Hp, HlT. split_and!; [done | done | lia | lia].
Qed.

(** A short name below the node. *)
Lemma below_T s : step_ok s -> (length s <= 20)%nat ->
  concat T (47 :: s) = Ok (T ++ 47 :: s) /\ is_path (T ++ 47 :: s) (ts ++ [s]) /\ len (T ++ 47 :: s) <= limit.
Proof using HLL Hfit Htxh.
  intros Hs Hl. destruct T_ok as (_ & Hp & HT & _). pose proof limit_max as Hm.
  assert (Hlen : len (T ++ 47 :: s) <= 107) by (rewrite length_app; cbn [length]; lia).
  assert (E : concat T (47 :: s) = Ok (T ++ 47 :: s)).
  { unfold concat. change PATH_MAX_SIZE with 242. destruct (Z.leb_spec (len (T ++ 47 :: s)) 242); [done | lia]. }
  split_and!; [done | | lia]. apply (concat_is_path T ts (47 :: s) [s] _ Hp); [| done].
  split_and!; [unfold join; cbn; by rewrite app_nil_r | done | by constructor |].
  change PATH_MAX_SIZE with 242. cbn [length]. lia.
Qed.

Lemma chunk_path_ok i : Z.of_nat i < 2 ^ 16 ->
  transaction_chunk_path T (Z.of_nat i) = Ok (T ++ 47 :: chunk_step i) /\
  is_path (T ++ 47 :: chunk_step i) (ts ++ [chunk_step i]) /\ len (T ++ 47 :: chunk_step i) <= limit.
Proof using HLL Hfit Htxh.
  intros Hi. destruct (decimal_step (Z.of_nat i)) as (Hs & Hr & Hl); [unfold in_u; lia |].
  destruct (below_T _ Hs Hl) as (E & Hp & Hlim). split_and!; [| done | done].
  unfold transaction_chunk_path, try_from. rewrite (is_path_validate _ [decimal (Z.of_nat i)]); [done |].
  split; [| done]. split_and!; [unfold join; cbn; by rewrite app_nil_r | done | by constructor |].
  change PATH_MAX_SIZE with 242. cbn [length]. lia.
Qed.

Lemma num_path_ok : chunked_transaction_num_chunks_path T = Ok (T ++ 47 :: NUM) /\
  is_path (T ++ 47 :: NUM) (ts ++ [NUM]) /\ len (T ++ 47 :: NUM) <= limit.
Proof using HLL Hfit Htxh. by apply below_T; vm_compute; [| lia]. Qed.

Lemma hash_path_ok c : length c = 32%nat ->
  exists p, chunked_hash_transaction_path c T = Ok p /\ is_path p (ts ++ [HASHES; hex_encode c]) /\ len p <= limit.
Proof using HLL Hfit Htxh.
  intros Hc. destruct (hash_fits c Hc) as [Hne Hl]. destruct T_ok as (_ & HpT & HT & _). pose proof limit_max as Hm.
  assert (HC : is_path CHUNKED_HASHES [HASHES]).
  { closed_path. }
  destruct (hex_below _ _ c HC Hne Hl) as (E1 & E2 & Hp & Hlen).
  { change (len CHUNKED_HASHES) with 13. change PATH_MAX_SIZE with 242. lia. }
  change (len CHUNKED_HASHES) with 13 in Hlen.
  unfold chunked_hash_transaction_path, named_path. rewrite E1, E2.
  set (q := CHUNKED_HASHES ++ 47 :: hex_encode c) in *. exists (T ++ q).
  assert (HlT : len (T ++ q) <= 164) by (rewrite length_app; lia).
  assert (E : concat T q = Ok (T ++ q)).
  { unfold concat. destruct (Z.leb_spec (len (T ++ q)) PATH_MAX_SIZE); [done |].
    change PATH_MAX_SIZE with 242 in *. lia. }
  split_and!; [done | | lia]. by apply (concat_is_path T ts q _ _ HpT (proj1 Hp)).
Qed.

(** Some chunks are stored, and the hashes were announced. *)
Definition pending h (n : Z) (hs : list bytes) rec : Prop :=
  exists hn, subtree (view h) ts = pending_node n hn rec /\
    Forall (fun c => is_Some (value_at hn [hex_encode c])) hs.

Lemma read_num h n hs rec : pending h n hs rec -> in_u 16 n ->
  chunked_transaction_num_chunks_by_path T h = Ret n h.
Proof using HLL Hfit Htxh.
  intros (hn & Hn & _) Hu. destruct num_path_ok as (E & Hp & Hl).
  unfold chunked_transaction_num_chunks_by_path, kpath. rewrite E. unfold comp_bind.
  assert (Hv : value_at (view h) (ts ++ [NUM]) = Some (le_bytes 2 n)).
  { unfold value_at. by rewrite subtree_app, Hn, pending_num. }
  pose proof (read_exact_spec h _ _ _ Hp Hl Hv) as Hr. rewrite length_le_bytes in Hr. rewrite Hr by done.
  unfold comp_ret. rewrite le_value_bytes. by rewrite wrap_small.
Qed.

Lemma known_hash h n hs rec c : pending h n hs rec -> c ∈ hs -> length c = 32%nat ->
  exists p, chunked_hash_transaction_path c T = Ok p /\ exists bs, store_read h p 0 0 = Ok bs.
Proof using HLL Hfit Htxh.
  intros (hn & Hn & Hh) Hc Hl. destruct (hash_path_ok c Hl) as (p & E & Hp & Hlim). exists p. split; [done |].
  rewrite (law_read h _ _ 0 0 Hp Hlim) by lia.
  change (ts ++ [HASHES; hex_encode c]) with (ts ++ [HASHES] ++ [hex_encode c]).
  unfold value_at. rewrite !subtree_app, Hn, pending_hashes.
  rewrite Forall_forall in Hh. destruct (Hh c Hc) as [v Hv]. unfold value_at in Hv. rewrite Hv.
  destruct (Z.ltb_spec (len v) 0); [lia | eauto].
Qed.

(** Storing the data of a chunk, in one or two writes; a chunk that is there stays. *)
Lemma store_data h n hs rec i d : pending h n hs rec -> Z.of_nat i < 2 ^ 16 -> len d <= 2 * MAX_FILE_CHUNK_SIZE ->
  exists h', store_transaction_chunk_data (T ++ 47 :: chunk_step i) d h = Ret tt h' /\
    pending h' n hs (match rec !! i with Some _ => rec | None => <[i := d]> rec end) /\
    (forall q, diverge ts q -> subtree (view h') q = subtree (view h) q).
Proof using HLL Hfit Htxh.
  intros (hn & Hn & Hh) Hi Hd. destruct (chunk_path_ok i Hi) as (_ & Hp & Hl). set (p := T ++ 47 :: chunk_step i) in *.
  unfold store_transaction_chunk_data, comp_bind, kread. rewrite (law_has h p _ Hp Hl), subtree_app, Hn, pending_chunk.
  destruct (rec !! i) as [d0|] eqn:Hr.
  { exists h. rewrite kind_of_plain. split_and!; [done | by exists hn | done]. }
  change (kind_of node_default) with (@None ValueType). cbv beta iota.
  assert (Hold : value_at (view h) (ts ++ [chunk_step i]) = None).
  { unfold value_at. by rewrite subtree_app, Hn, pending_chunk, Hr. }
  assert (Hend : forall h', view h' = set_at (view h) (ts ++ [chunk_step i]) d ->
    pending h' n hs (<[i := d]> rec) /\ forall q, diverge ts q -> subtree (view h') q = subtree (view h) q).
  { intros h' Hv. split.
    - exists hn. split; [| done]. by rewrite Hv, subtree_set_below, Hn, pending_store.
    - intros q Hq. rewrite Hv. apply subtree_set_diverge. by apply diverge_app_l. }
  destruct (Z.ltb_spec MAX_FILE_CHUNK_SIZE (len d)) as [Hbig|Hsmall].
  - set (d1 := take _ d). set (d2 := drop _ d).
    assert (Hl1 : len d1 = MAX_FILE_CHUNK_SIZE) by (unfold d1; rewrite length_take; change MAX_FILE_CHUNK_SIZE with 2048 in *; lia).
    pose proof (law_write h p _ d1 0 Hp Hl ltac:(lia)) as Hw. rewrite Hold in Hw. cbn zeta in Hw.
    change (len (default [] None) <? 0) with false in Hw. cbv iota in Hw. destruct Hw as (h1 & E1 & Hv1).
    change (splice (default [] None) 0 d1) with (d1 ++ drop (Z.to_nat (0 + len d1)) []) in Hv1.
    rewrite drop_nil, app_nil_r in Hv1.
    pose proof (law_write h1 p _ d2 MAX_FILE_CHUNK_SIZE Hp Hl ltac:(done)) as Hw2. cbn zeta in Hw2.
    rewrite Hv1, value_at_set in Hw2. cbn [from_option id] in Hw2. rewrite Hl1, Z.ltb_irrefl in Hw2.
    destruct Hw2 as (h2 & E2 & Hv2). exists h2. unfold kruntime. rewrite E1, E2. split; [done |].
    apply Hend. rewrite Hv2, set_at_set_at. f_equal. unfold splice.
    rewrite take_ge by (rewrite <- Hl1; lia). rewrite drop_ge by (rewrite <- Hl1; lia).
    rewrite app_nil_r. apply take_drop.
  - pose proof (law_write h p _ d 0 Hp Hl ltac:(lia)) as Hw. rewrite Hold in Hw. cbn zeta in Hw.
    change (len (default [] None) <? 0) with false in Hw. cbv iota in Hw. destruct Hw as (h1 & E1 & Hv1).
    change (splice (default [] None) 0 d) with (d ++ drop (Z.to_nat (0 + len d)) []) in Hv1.
    rewrite drop_nil, app_nil_r in Hv1. exists h1. unfold kruntime. rewrite E1. split; [done |]. by apply Hend.
Qed.

Lemma pending_node_at h n hs rec : pending h n hs rec ->
  exists hn, node_at (view h) ts = Some (pending_node n hn rec).
Proof.
  intros (hn & Hn & _). exists hn. unfold subtree in Hn.
  destruct (node_at (view h) ts) as [m|]; cbn in Hn; [by subst |].
  apply (f_equal inner) in Hn. symmetry in Hn. cbn [inner pending_node node_default] in Hn. by apply insert_non_empty in Hn.
Qed.

Lemma complete_spec h n hs rec : pending h n hs rec -> 0 <= n -> n + 2 < 2 ^ 16 -> Z.of_nat (base.size rec) <= n ->
  is_transaction_complete T n h = Ret (n <=? Z.of_nat (base.size rec)) h.
Proof using HLL Hfit Htxh.
  intros Hp Hn0 Hn Hs. destruct (pending_node_at _ _ _ _ Hp) as (hn & Hat). destruct T_ok as (_ & HpT & _ & HlT).
  unfold is_transaction_complete, comp_bind, kread. rewrite (law_count h _ _ HpT HlT), Hat, pending_size.
  unfold checked_add. destruct (Z.ltb_spec (n + 2) (2 ^ 16)); [| lia]. cbn [or_panic]. unfold comp_ret. f_equal.
  rewrite wrap_small by (unfold in_u; lia).
  destruct (Z.leb_spec (n + 2) (Z.of_nat (S (S (base.size rec))))), (Z.leb_spec n (Z.of_nat (base.size rec))); done || lia.
Qed.

Lemma read_data h n hs rec i d : pending h n hs rec -> Z.of_nat i < 2 ^ 16 -> rec !! i = Some d ->
  len d <= 2 * MAX_FILE_CHUNK_SIZE -> read_transaction_chunk_data (T ++ 47 :: chunk_step i) h = Ret d h.
Proof using HLL Hfit Htxh.
  intros (hn & Hn & _) Hi Hd Hlen. destruct (chunk_path_ok i Hi) as (_ & Hp & Hl). set (p := T ++ 47 :: chunk_step i) in *.
  assert (Hv : value_at (view h) (ts ++ [chunk_step i]) = Some d).
  { unfold value_at. by rewrite subtree_app, Hn, pending_chunk, Hd. }
  change MAX_FILE_CHUNK_SIZE with 2048 in *.
  unfold read_transaction_chunk_data, comp_bind, kread. rewrite (law_value_size h p _ Hp Hl), Hv.
  rewrite value_size_small by lia. change MAX_FILE_CHUNK_SIZE with 2048.
  destruct (Z.ltb_spec 2048 (len d)) as [Hbig|Hsmall];
    rewrite (law_read h p _ 0 2048 Hp Hl), Hv by lia.
  - destruct (Z.ltb_spec (len d) 0); [lia |]. rewrite (law_read h p _ 2048 2048 Hp Hl), Hv by lia. destruct (Z.ltb_spec (len d) 2048); [lia |].
    change MAX_FILE_CHUNK_SIZE with 2048. unfold comp_ret. rewrite drop_0.
    rewrite (take_ge (drop _ d)) by (rewrite length_drop; lia). by rewrite take_drop.
  - destruct (Z.ltb_spec (len d) 0); [lia |]. change MAX_FILE_CHUNK_SIZE with 2048.
    by rewrite drop_0, take_ge by lia.
Qed.

Definition gathered rec (k i : nat) : bytes := List.concat (map (fun j => default [] (rec !! j)) (seq i k)).

Lemma get_chunks_spec h n hs rec : pending h n hs rec -> (forall i d, rec !! i = Some d -> len d <= 2 * MAX_FILE_CHUNK_SIZE) ->
  forall k i buffer, (forall j, (i <= j < i + k)%nat -> is_Some (rec !! j)) -> Z.of_nat (i + k) <= 2 ^ 16 ->
  get_chunks T k (Z.of_nat i) buffer h = Ret (buffer ++ gathered rec k i) h.
Proof using HLL Hfit Htxh.
  intros Hp Hlen. induction k as [|k IH]; intros i buffer Hall Hk; cbn [get_chunks].
  - unfold comp_ret, gathered. cbn. by rewrite app_nil_r.
  - destruct (chunk_path_ok i ltac:(lia)) as (E & _). unfold kpath. rewrite E. unfold comp_bind.
    destruct (Hall i ltac:(lia)) as [d Hd].
    rewrite (read_data h n hs rec i d Hp ltac:(lia) Hd (Hlen i d Hd)).
    replace (Z.of_nat i + 1) with (Z.of_nat (S i)) by lia. rewrite IH; [| intros j Hj; apply Hall; lia | lia].
    unfold gathered. cbn [seq map List.concat]. rewrite Hd. cbn [from_option id]. by rewrite app_assoc.
Qed.

(** ** The announcement *)
Lemma set_hash nd c v : set_at nd [HASHES; hex_encode c] v =
  with_inner nd (<[HASHES := set_at (subtree nd [HASHES]) [hex_encode c] v]> (inner nd)).
Proof.
  unfold set_at. cbn [insert_at node_at]. unfold subtree. cbn [node_at].
  destruct (inner nd !! HASHES); [done |]. cbn [from_option id inner node_default]. by rewrite lookup_empty.
Qed.

Lemma known_after hn c v hs : Forall (fun c => is_Some (value_at hn [hex_encode c])) hs ->
  Forall (fun c => is_Some (value_at (set_at hn [hex_encode c] v) [hex_encode c])) [c] /\
  Forall (fun c' => is_Some (value_at (set_at hn [hex_encode c] v) [hex_encode c'])) hs.
Proof.
  intros Hh. split; [constructor; [| done]; rewrite value_at_set; eauto |].
  eapply Forall_impl; [exact Hh |]. intros c' Hc'. cbn beta in *.
  destruct (decide (hex_encode c = hex_encode c')) as [->|Hne]; [rewrite value_at_set; eauto |].
  unfold value_at in *. rewrite subtree_set_diverge; [done |]. apply diverge_cons. by left.
Qed.

(** One hash is written; before the first there is only the number of chunks. *)
Lemma write_hash h n c hs : length c = 32%nat ->
  pending h n hs ∅ \/ (hs = [] /\ subtree (view h) ts = mkNode None {[NUM := plain (le_bytes 2 n)]}) ->
  exists p h', chunked_hash_transaction_path c T = Ok p /\ store_write p [0] 0 h = Ret tt h' /\
    pending h' n (c :: hs) ∅ /\ (forall q, diverge ts q -> subtree (view h') q = subtree (view h) q).
Proof using HLL Hfit Htxh.
  intros Hc Hh. destruct (hash_path_ok c Hc) as (p & Ep & Hp & Hl). exists p.
  pose proof (law_write h p _ [0] 0 Hp Hl ltac:(lia)) as Hw. cbn zeta in Hw.
  destruct (Z.ltb_spec (len (default [] (value_at (view h) (ts ++ [HASHES; hex_encode c])))) 0); [lia |].
  destruct Hw as (h' & Ew & Hv). set (v := splice _ 0 [0]) in Hv. exists h'. split_and!; [done | done | |].
  2: { intros q Hq. rewrite Hv. apply subtree_set_diverge. by apply diverge_app_l. }
  unfold pending. rewrite Hv, subtree_set_below, set_hash. destruct Hh as [(hn & Hn & Hh)|[-> Hn]]; rewrite Hn.
  - rewrite pending_hashes. exists (set_at hn [hex_encode c] v). split.
    + unfold pending_node, with_inner. cbn [value inner].
      rewrite (insert_insert_ne _ HASHES NUM) by discriminate. by rewrite insert_insert_eq.
    + destruct (known_after hn c v hs Hh) as [H1 H2]. by apply Forall_cons; apply Forall_cons in H1 as [H1 _].
  - exists (set_at node_default [hex_encode c] v). split.
    + unfold pending_node, with_inner, subtree. cbn [value inner node_at].
      rewrite lookup_singleton_ne by discriminate. cbn [from_option id].
      rewrite (insert_insert_ne _ NUM HASHES) by discriminate. unfold chunk_nodes.
      by rewrite fmap_empty, kmap_empty.
    + constructor; [| done]. rewrite value_at_set. eauto.
Qed.

Lemma announce_hashes l : Forall (fun c => length c = 32%nat) l -> forall h n hs,
  pending h n hs ∅ ->
  exists h', store_chunk_hashes T l h = Ret tt h' /\ pending h' n (rev l ++ hs) ∅ /\
    (forall q, diverge ts q -> subtree (view h') q = subtree (view h) q).
Proof using HLL Hfit Htxh.
  induction 1 as [|c l Hc _ IH]; intros h n hs Hp; cbn [store_chunk_hashes]; [by exists h |].
  destruct (write_hash h n c hs Hc (or_introl Hp)) as (p & h1 & Ep & E1 & Hp1 & F1).
  destruct (IH h1 n (c :: hs) Hp1) as (h2 & E2 & Hp2 & F2).
  exists h2. unfold kpath, comp_bind, kruntime. rewrite Ep, E1, E2. split_and!; [done | |].
  - cbn [rev]. by rewrite <- app_assoc.
  - intros q Hq. by rewrite F2, F1.
Qed.

(** ** The chunks of one transaction *)
Context (cs : list bytes) (Hcs : Z.of_nat (length cs) + 2 < 2 ^ 16).
Context (Hsizes : forall i d, cs !! i = Some d ->
  len d <= 2 * MAX_FILE_CHUNK_SIZE /\ ((S i < length cs)%nat -> MAX_SIZE_PER_CHUNK <= len d)).

Definition count : Z := Z.of_nat (length cs).
Definition hashes : list bytes := map keccak256 cs.

(** All the chunks. *)
Definition full : gmap nat bytes := map_seq 0 cs.

Lemma full_size : base.size full = length cs.
Proof.
  unfold full. rewrite <- length_map_to_list, (Permutation_length (map_to_list_seq 0 cs)).
  rewrite length_zip_with, length_seq. apply Nat.min_id.
Qed.

Lemma full_gathered : gathered full (length cs) 0 = List.concat cs.
Proof.
  unfold gathered. f_equal. apply list_eq. intros i. rewrite list_lookup_fmap.
  destruct (cs !! i) as [d|] eqn:Hd.
  - pose proof (lookup_lt_Some _ _ _ Hd). rewrite lookup_seq_lt by done. cbn.
    unfold full. by rewrite lookup_map_seq_0, Hd.
  - apply lookup_ge_None in Hd. by rewrite lookup_seq_ge.
Qed.

Lemma chunk_index i d : cs !! i = Some d -> (i < length cs)%nat /\ Z.of_nat i < 2 ^ 16.
Proof using Hcs Htxh. intros Hd. pose proof (lookup_lt_Some _ _ _ Hd). lia. Qed.

Lemma partial_insert rec i d : rec ⊆ full -> cs !! i = Some d -> <[i := d]> rec ⊆ full.
Proof.
  intros Hr Hd. apply insert_subseteq_l; [| done]. unfold full. by rewrite lookup_map_seq_0.
Qed.

(** A chunk is stored, or ignored when another one has its index; the transaction comes out
    with the last missing one. *)
Lemma store_chunk_spec hs h rec i d d0 : pending h count hs rec -> rec ⊆ full -> cs !! i = Some d0 ->
  len d <= 2 * MAX_FILE_CHUNK_SIZE -> d = d0 \/ is_Some (rec !! i) ->
  exists h', (forall q, diverge ts q -> subtree (view h') q = subtree (view h) q) /\
    if bool_decide (<[i := d0]> rec = full)
    then store_transaction_chunk txh (Z.of_nat i) d h = Ret (Some (List.concat cs)) h' /\
         subtree (view h') ts = node_default
    else store_transaction_chunk txh (Z.of_nat i) d h = Ret None h' /\ pending h' count hs (<[i := d0]> rec).
Proof using HLL Hfit Htxh Hcs Hsizes.
  intros Hp Hr Hd Hlen Hsame. destruct (chunk_index i d0 Hd) as [Hi Hi16]. destruct T_ok as (ET & HpT & _ & HlT).
  destruct (chunk_path_ok i Hi16) as (Ei & _).
  destruct (store_data h count hs rec i d Hp Hi16 Hlen) as (h1 & E1 & Hp1 & F1).
  assert (Hrec : (match rec !! i with Some _ => rec | None => <[i := d]> rec end) = <[i := d0]> rec).
  { destruct (rec !! i) as [d'|] eqn:E; [| by destruct Hsame as [-> | [? ?]]]. symmetry. apply insert_id. rewrite E. f_equal.
    pose proof (lookup_weaken _ _ _ _ E Hr) as E'. unfold full in E'. rewrite lookup_map_seq_0 in E'. congruence. }
  rewrite Hrec in Hp1. set (rec' := <[i := d0]> rec) in *.
  pose proof (partial_insert rec i d0 Hr Hd) as Hr'. fold rec' in Hr'.
  pose proof (map_subseteq_size _ _ Hr') as Hsize. rewrite full_size in Hsize.
  unfold store_transaction_chunk, kpath, comp_bind. rewrite ET.
  rewrite (read_num h count hs rec Hp) by (unfold in_u, count; lia). rewrite Ei, E1.
  rewrite (complete_spec h1 count hs rec' Hp1) by (unfold count; lia).
  destruct (bool_decide_reflect (rec' = full)) as [Hfull|Hnot].
  - rewrite Hfull, full_size. unfold count at 1. rewrite Z.leb_refl.
    unfold get_full_transaction, count. rewrite Nat2Z.id. change 0 with (Z.of_nat 0).
    rewrite (get_chunks_spec h1 count hs rec' Hp1).
    + rewrite Hfull, full_gathered. cbn [app].
      pose proof (law_delete h1 _ _ HpT HlT) as Hdel.
      destruct (is_default (subtree (view h1) ts)) eqn:Edef.
      { apply is_default_true in Edef. destruct Hp1 as (hn & Hn & _). rewrite Edef in Hn.
        apply (f_equal inner) in Hn. symmetry in Hn. cbn [inner pending_node node_default] in Hn.
        by apply insert_non_empty in Hn. }
      destruct Hdel as (h2 & E2 & Hv2). exists h2. unfold kruntime. rewrite E2. split_and!; [| done |].
      * intros q Hq. rewrite Hv2, subtree_del_diverge by done. by apply F1.
      * rewrite Hv2. by apply subtree_del.
    + intros j d' Hj. rewrite Hfull in Hj. unfold full in Hj. rewrite lookup_map_seq_0 in Hj. by apply (Hsizes j).
    + intros j Hj. rewrite Hfull. unfold full. rewrite lookup_map_seq_0. apply lookup_lt_is_Some. lia.
    + lia.
  - exists h1. split; [done |]. destruct (Z.leb_spec count (Z.of_nat (base.size rec'))) as [Hle|_]; [| done].
    destruct Hnot. apply map_subseteq_size_eq; [done |]. rewrite full_size. unfold count in Hle. lia.
Qed.

Lemma hashes_length : Forall (fun c => length c = 32%nat) hashes.
Proof using KLL.
  unfold hashes. apply Forall_forall. intros c Hc. apply list_elem_of_In, in_map_iff in Hc as (d & <- & _).
  apply keccak_length_nat.
Qed.

Lemma create_spec h : cs <> [] -> subtree (view h) ts = node_default ->
  exists h', create_chunked_transaction txh count hashes h = Ret tt h' /\ pending h' count hashes ∅ /\
    (forall q, diverge ts q -> subtree (view h') q = subtree (view h) q).
Proof using HLL KLL Hfit Htxh.
  intros Hne He. destruct T_ok as (ET & HpT & _ & HlT). destruct num_path_ok as (En & Hpn & Hln).
  unfold create_chunked_transaction, kpath. rewrite ET.
  assert (Hcount : match store_count_subkeys h T with Ok n => n | Err _ => 0 end = 0).
  { rewrite (law_count h _ _ HpT HlT). unfold subtree in He. destruct (node_at (view h) ts); [| done].
    cbn in He. subst. done. }
  rewrite Hcount, En. cbn [Z.ltb Z.compare].
  assert (Hold : value_at (view h) (ts ++ [NUM]) = None).
  { unfold value_at. by rewrite subtree_app, He, subtree_default. }
  pose proof (law_write h _ _ (le_bytes 2 count) 0 Hpn Hln ltac:(lia)) as Hw. rewrite Hold in Hw. cbn zeta in Hw.
  change (len (default [] None) <? 0) with false in Hw. cbv iota in Hw. destruct Hw as (h1 & E1 & Hv1).
  assert (F1 : forall q, diverge ts q -> subtree (view h1) q = subtree (view h) q).
  { intros q Hq. rewrite Hv1. apply subtree_set_diverge. by apply diverge_app_l. }
  assert (H1 : subtree (view h1) ts = mkNode None {[NUM := plain (le_bytes 2 count)]}).
  { by rewrite Hv1, subtree_set_below, He. }
  pose proof hashes_length as Hall.
  assert (Hhs : exists c l, hashes = c :: l).
  { unfold hashes. destruct (map keccak256 cs) as [|c l] eqn:E; [| by exists c, l]. by apply map_eq_nil in E. }
  destruct Hhs as (c & l & Hhs). rewrite Hhs in Hall |- *. apply Forall_cons in Hall as [Hc Hl].
  cbn [store_chunk_hashes].
  destruct (write_hash h1 count c [] Hc (or_intror (conj eq_refl H1))) as (p & h2 & Ep & E2 & Hp2 & F2).
  destruct (announce_hashes l Hl h2 count [c] Hp2) as (h3 & E3 & (hn & Hn & Hh) & F3).
  exists h3. unfold kpath, comp_bind, kruntime. rewrite E1, Ep, E2, E3. split_and!; [done | |].
  - exists hn. split; [done |]. rewrite Forall_forall in Hh |- *. intros x Hx. apply Hh.
    rewrite list_elem_of_In in Hx |- *. apply in_or_app. destruct Hx as [->|Hx]; [by right; left |].
    left. by apply -> in_rev.
  - intros q Hq. by rewrite F3, F2, F1.
Qed.

(** ** Handling the chunks *)

(** What the chunks give: the transaction, when the hash is the announced one. *)
Definition whole : option Transaction :=
  if bool_decide (keccak256 (List.concat cs) = txh)
  then match from_bytes (List.concat cs) with Some tx => Some (mkTransaction txh (Ethereum tx)) | None => None end
  else None.

(** A chunk that will be accepted: it has an announced hash and a size for its index, and either
    it is the chunk of this index or another one is there already. *)
Definition suits (hs : list bytes) rec (x : nat * bytes) : Prop :=
  exists d0, cs !! fst x = Some d0 /\ (snd x = d0 \/ is_Some (rec !! fst x)) /\ keccak256 (snd x) ∈ hs /\
    len (snd x) <= 2 * MAX_FILE_CHUNK_SIZE /\ ((S (fst x) < length cs)%nat -> MAX_SIZE_PER_CHUNK <= len (snd x)).

Lemma suits_later hs rec x i d0 : suits hs rec x -> suits hs (<[i := d0]> rec) x.
Proof.
  intros (d & Hd & Hsame & Hrest). exists d. split_and!; [done | | apply Hrest ..]. destruct Hsame as [?|Hs]; [by left | right].
  destruct (decide (i = fst x)) as [->|]; [rewrite lookup_insert_eq; eauto | by rewrite lookup_insert_ne].
Qed.

Lemma handle_chunk hs h rec x : pending h count hs rec -> rec ⊆ full -> suits hs rec x ->
  exists h' d0, cs !! fst x = Some d0 /\ (forall q, diverge ts q -> subtree (view h') q = subtree (view h) q) /\
    if bool_decide (<[fst x := d0]> rec = full)
    then handle_transaction_chunk txh (Z.of_nat (fst x)) (keccak256 (snd x)) (snd x) h = Ret whole h' /\
         subtree (view h') ts = node_default
    else handle_transaction_chunk txh (Z.of_nat (fst x)) (keccak256 (snd x)) (snd x) h = Ret None h' /\
         pending h' count hs (<[fst x := d0]> rec).
Proof using HLL KLL Hfit Htxh Hcs Hsizes.
  destruct x as [i d]. cbn [fst snd]. intros Hp Hr (d0 & Hd & Hsame & Hin & Hlen & Hbig). cbn [fst snd] in *.
  destruct (chunk_index i d0 Hd) as [Hi Hi16]. destruct T_ok as (ET & _).
  destruct (known_hash h count hs rec _ Hp Hin (keccak_length_nat d)) as (p & Ep & bs & Eb).
  unfold handle_transaction_chunk, chunked_transaction_num_chunks, kpath. rewrite ET.
  rewrite (read_num h count hs rec Hp) by (unfold in_u, count; lia).
  destruct (Z.leb_spec count (Z.of_nat i)) as [Hle|_]; [unfold count in Hle; lia |].
  rewrite Ep, Eb.
  assert (Hs : negb (Z.of_nat i =? count - 1) && (len d <? MAX_SIZE_PER_CHUNK) = false).
  { destruct (Z.eqb_spec (Z.of_nat i) (count - 1)) as [_|Hne]; [done |]. cbn [negb andb].
    apply Z.ltb_ge. apply Hbig. unfold count in Hne. lia. }
  rewrite Hs. destruct (store_chunk_spec hs h rec i d d0 Hp Hr Hd Hlen Hsame) as (h' & F & Hst).
  exists h', d0. split_and!; [done | done |]. unfold comp_bind. destruct (bool_decide (<[i := d0]> rec = full)).
  - destruct Hst as [-> Hdel]. split; [| done]. unfold whole. destruct (bool_decide _); [| done]. by destruct (from_bytes _).
  - destruct Hst as [-> Hp']. by split.
Qed.

(** Chunks of a transaction that is not there are ignored. *)
Lemma handle_unknown h (k : Z) c d : subtree (view h) ts = node_default ->
  handle_transaction_chunk txh k c d h = Ret None h.
Proof using HLL Hfit Htxh.
  intros He. destruct T_ok as (ET & _). destruct num_path_ok as (En & Hpn & Hln).
  unfold handle_transaction_chunk, chunked_transaction_num_chunks, kpath. rewrite ET.
  unfold chunked_transaction_num_chunks_by_path, kpath. rewrite En. unfold comp_bind.
  rewrite (read_exact_missing h _ _ 2 Hpn Hln); [done | | done].
  unfold value_at. by rewrite subtree_app, He, subtree_default.
Qed.

(** ** Chunks in any order *)
Context (address : bytes) (Haddress : length address = 20%nat).

Definition message_of i : bytes := framed address (chunk_message txh i (default [] (cs !! i))).

(** Every chunk is among the ones that come or the ones that are there. *)
Definition all_there (order : list nat) rec : bool :=
  forallb (fun i => bool_decide (i ∈ order) || bool_decide (is_Some (rec !! i))) (seq 0 (length cs)).

Lemma all_there_iff order rec :
  all_there order rec = true <-> forall i, (i < length cs)%nat -> i ∈ order \/ is_Some (rec !! i).
Proof.
  unfold all_there. rewrite forallb_forall. split; intros Hall i Hi.
  - specialize (Hall i). rewrite in_seq in Hall. specialize (Hall ltac:(clear - Hi; lia)).
    apply orb_true_iff in Hall as [E|E]; apply bool_decide_eq_true in E; auto.
  - rewrite in_seq in Hi. destruct (Hall i ltac:(clear - Hi; lia)) as [E|E]; apply orb_true_iff;
      [left | right]; by apply bool_decide_eq_true.
Qed.

Lemma all_there_cons i d order rec : all_there (i :: order) rec = all_there order (<[i := d]> rec).
Proof.
  apply eq_true_iff_eq. rewrite !all_there_iff. split; intros Hall j Hj; destruct (Hall j Hj) as [Hi|Hi].
  - apply elem_of_cons in Hi as [->|Hi]; [| by left]. right. rewrite lookup_insert_eq. eauto.
  - destruct (decide (i = j)) as [<-|Hne]; right; [rewrite lookup_insert_eq; eauto | by rewrite lookup_insert_ne].
  - left. by right.
  - destruct (decide (i = j)) as [<-|Hne]; [left; left | right; by rewrite lookup_insert_ne in Hi].
Qed.

Lemma all_there_nil rec : rec ⊆ full -> all_there [] rec = bool_decide (rec = full).
Proof.
  intros Hr. apply eq_true_iff_eq. rewrite all_there_iff, bool_decide_eq_true. split.
  - intros Hall. apply map_eq. intros j. destruct (rec !! j) as [d|] eqn:Hd.
    + symmetry. by apply (lookup_weaken _ _ _ _ Hd Hr).
    + symmetry. unfold full. rewrite lookup_map_seq_0. apply lookup_ge_None. destruct (decide (length cs <= j)%nat) as [|Hj]; [done |].
      destruct (Hall j ltac:(clear - Hj; lia)) as [Hi|Hi]; [by apply not_elem_of_nil in Hi | by rewrite Hd in Hi; destruct Hi].
  - intros -> j Hj. right. unfold full. rewrite lookup_map_seq_0. by apply lookup_lt_is_Some.
Qed.

(** The messages of chunks, each with an index. *)
Definition sent (x : nat * bytes) : bytes := framed address (chunk_message txh (fst x) (snd x)).

Lemma parse_sent x : (fst x < length cs)%nat ->
  parse_external (sent x) address = ModeSpecific (TransactionChunk txh (Z.of_nat (fst x)) (keccak256 (snd x)) (snd x)).
Proof using KLL Haddress Htxh Hcs. intros Hi. apply parse_chunk; [done | done | lia]. Qed.

(** Late chunks. *)
Lemma late_chunks xs : Forall (fun x => fst x < length cs)%nat xs -> forall h inbox,
  subtree (view h) ts = node_default -> process address (map sent xs) inbox h = Ret inbox h.
Proof using HLL KLL Hfit Htxh Haddress Hcs.
  induction 1 as [|x xs Hx _ IH]; intros h inbox He; cbn [map process]; [done |].
  rewrite (parse_sent x Hx). unfold comp_bind, handle_input, comp_bind.
  rewrite (handle_unknown h _ _ _ He). unfold comp_ret at 1. by apply IH.
Qed.

Lemma suits_index hs rec x : suits hs rec x -> (fst x < length cs)%nat.
Proof. intros (d & Hd & _). by apply lookup_lt_Some in Hd. Qed.

Lemma chunks_run hs xs : forall h inbox rec, Forall (suits hs rec) xs ->
  pending h count hs rec -> rec ⊆ full -> rec <> full ->
  exists h', process address (map sent xs) inbox h =
      Ret (inbox ++ if all_there (map fst xs) rec then option_list whole else []) h' /\
    (all_there (map fst xs) rec = true -> subtree (view h') ts = node_default) /\
    (forall q, diverge ts q -> subtree (view h') q = subtree (view h) q).
Proof using HLL KLL Hfit Htxh Haddress Hcs Hsizes.
  induction xs as [|x xs IH]; intros h inbox rec Hxs Hp Hr Hne; cbn [map process].
  - exists h. rewrite all_there_nil, bool_decide_false, app_nil_r by done. by split_and!.
  - apply Forall_cons in Hxs as [Hx Hxs]. rewrite (parse_sent x (suits_index _ _ _ Hx)).
    destruct (handle_chunk hs h rec x Hp Hr Hx) as (h1 & d & Hd & F1 & Hst). rewrite (all_there_cons (fst x) d).
    unfold handle_input, comp_bind. destruct (bool_decide_reflect (<[fst x := d]> rec = full)) as [Hfull|Hnot].
    + destruct Hst as [-> He]. exists h1. unfold comp_ret at 1.
      rewrite late_chunks; [| eapply Forall_impl; [exact Hxs | intros y; apply suits_index] | done]. split_and!; try done.
      assert (Hall : all_there (map fst xs) (<[fst x := d]> rec) = true).
      { rewrite Hfull, all_there_iff. intros j Hj. right. unfold full. rewrite lookup_map_seq_0. by apply lookup_lt_is_Some. }
      rewrite Hall. destruct whole; cbn [option_list]; by rewrite ?app_nil_r.
    + destruct Hst as [-> Hp1]. unfold comp_ret at 1.
      destruct (IH h1 inbox _ ltac:(eapply Forall_impl; [exact Hxs | intros y; apply suits_later]) Hp1
        (partial_insert rec (fst x) d Hr Hd) Hnot) as (h2 & E2 & Hd2 & F2).
      exists h2. split_and!; [done | done |]. intros q Hq. by rewrite F2, F1.
Qed.

(** The chunks under their own indices. *)
Definition own i : nat * bytes := (i, default [] (cs !! i)).

Lemma own_indices order : map fst (map own order) = order.
Proof. rewrite map_map. apply map_id. Qed.

Lemma own_messages order : map sent (map own order) = map message_of order.
Proof. by rewrite map_map. Qed.

Lemma own_hash i : (i < length cs)%nat -> keccak256 (snd (own i)) ∈ hashes.
Proof.
  intros Hi. destruct (lookup_lt_is_Some_2 cs i Hi) as [d Hd]. unfold own. rewrite Hd. cbn [from_option id snd].
  apply list_elem_of_In, in_map_iff. exists d. split; [done |]. apply list_elem_of_In. by apply (list_elem_of_lookup_2 _ i).
Qed.

Lemma own_suits rec order : Forall (fun i => i < length cs)%nat order -> Forall (suits hashes rec) (map own order).
Proof using Hsizes.
  intros Ho. apply Forall_map. eapply Forall_impl; [exact Ho |]. intros i Hi. pose proof (own_hash i Hi) as Hh.
  destruct (lookup_lt_is_Some_2 cs i Hi) as [d Hd]. destruct (Hsizes i d Hd) as [Hl Hb]. exists d.
  unfold own in *. cbn [compose fst snd] in *. rewrite Hd in *. cbn [from_option id] in *. split_and!; try done. by left.
Qed.

End Chunks.

End EvmChunks.
Export EvmChunks.

(** The timestamps of the levels and their statistics
    ([src/etherlink/kernel_evm/kernel/src/storage.rs], and [current_timestamp] in [lib.rs]). *)
Module EvmLevels.

Definition INFO : list bytes := [ascii_bytes "evm"; ascii_bytes "info_per_level"].
Definition TIMESTAMP : list bytes := INFO ++ [ascii_bytes "timestamp"].
Definition NUMBERS : list bytes := INFO ++ [ascii_bytes "stats"; ascii_bytes "numbers"].
Definition TOTAL : list bytes := INFO ++ [ascii_bytes "stats"; ascii_bytes "total"].

Lemma timestamp_is_path : is_path EVM_INFO_PER_LEVEL_TIMESTAMP TIMESTAMP.
Proof. closed_path. Qed.

Lemma numbers_is_path : is_path EVM_INFO_PER_LEVEL_STATS_NUMBERS NUMBERS.
Proof. closed_path. Qed.

Lemma total_is_path : is_path EVM_INFO_PER_LEVEL_STATS_TOTAL TOTAL.
Proof. closed_path. Qed.

Lemma timestamp_numbers : diverge TIMESTAMP NUMBERS.
Proof. apply diverge_app_same, diverge_cons. left. discriminate. Qed.

Lemma timestamp_total : diverge TIMESTAMP TOTAL.
Proof. apply diverge_app_same, diverge_cons. left. discriminate. Qed.

Lemma numbers_total : diverge NUMBERS TOTAL.
Proof. apply diverge_app_same, diverge_cons. right. apply diverge_cons. left. discriminate. Qed.

Section Levels.
Context {H : Type} {R : Runtime H} {L : RuntimeLaws H}.
Context (Hfit : 64 <= limit (H := H)).
Implicit Types (h : H).

(** A signed number of eight bytes, or nothing. *)
Definition signed (o : option Z) : option bytes := le_bytes 8 <$> o.

Lemma read_signed h p ps z : is_path p ps -> len p <= limit -> slot (view h) ps (signed (Some z)) ->
  read_exact p 8 h = Ret (le_bytes 8 z) h.
Proof.
  intros Hp Hl Hs. pose proof (read_exact_spec h p ps (le_bytes 8 z) Hp Hl) as Hr. rewrite length_le_bytes in Hr.
  apply Hr; [| done]. unfold value_at. unfold slot in Hs. by rewrite Hs.
Qed.

Lemma signed_value z : in_s 64 z -> sint 64 (le_value (le_bytes 8 z)) = z.
Proof. intros Hz. rewrite le_value_bytes. change (8 * Z.of_nat 8) with 64. by rewrite sint_wrap, sint_small by done. Qed.

Lemma i64_checked_in z : in_s 64 z -> i64_checked z = Some z.
Proof.
  intros Hz. unfold i64_checked. unfold in_s in Hz. change (2 ^ (64 - 1)) with (2 ^ 63) in Hz.
  destruct (Z.leb_spec (- 2 ^ 63) z), (Z.ltb_spec z (2 ^ 63)); done || lia.
Qed.

Lemma level_path (p : Path) : len p <= 64 -> len p <= limit (H := H).
Proof using Hfit. lia. Qed.

(** What is stored after some levels: the last timestamp, how many there were, and the sum of
    the differences. *)
Record levels h (t n total : option Z) : Prop := {
  levels_timestamp : slot (view h) TIMESTAMP (signed t);
  levels_numbers : slot (view h) NUMBERS (signed n);
  levels_total : slot (view h) TOTAL (signed total)
}.

Lemma write_signed h p ps o z : is_path p ps -> len p <= 64 -> slot (view h) ps (signed o) ->
  exists h', kruntime (store_write p (le_bytes 8 z) 0) h = Ret tt h' /\ slot (view h') ps (signed (Some z)) /\
    forall q, diverge ps q -> subtree (view h') q = subtree (view h) q.
Proof using Hfit.
  intros Hp Hl Hs. destruct (overwrite h p ps _ (le_bytes 8 z) Hp (level_path p Hl) Hs) as (h' & E & Hs' & F).
  { rewrite length_le_bytes. destruct o; cbn [signed fmap option_fmap option_map from_option id]; [by rewrite length_le_bytes | cbn; lia]. }
  exists h'. unfold kruntime. by rewrite E.
Qed.

Lemma read_stats h t n total : levels h t (Some n) (Some total) -> in_s 64 n -> in_s 64 total ->
  read_last_info_per_level_timestamp_stats h = Ret (n, total) h.
Proof using Hfit.
  intros [_ Hn Ht] Un Ut. unfold read_last_info_per_level_timestamp_stats, comp_bind.
  rewrite (read_signed h _ _ n numbers_is_path (level_path EVM_INFO_PER_LEVEL_STATS_NUMBERS ltac:(done)) Hn).
  rewrite (read_signed h _ _ total total_is_path (level_path EVM_INFO_PER_LEVEL_STATS_TOTAL ltac:(done)) Ht).
  unfold comp_ret. by rewrite !signed_value.
Qed.

Lemma read_no_stats h t : levels h t None None ->
  unwrap_or read_last_info_per_level_timestamp_stats (0, 0) h = Ret (0, 0) h.
Proof using Hfit.
  intros [_ Hn _]. unfold unwrap_or, read_last_info_per_level_timestamp_stats, comp_bind.
  rewrite (read_exact_missing h _ _ 8 numbers_is_path (level_path EVM_INFO_PER_LEVEL_STATS_NUMBERS ltac:(done))); [done | | done].
  unfold value_at. unfold slot in Hn. by rewrite Hn.
Qed.

Lemma read_timestamp h t n total : levels h (Some t) n total -> in_s 64 t ->
  read_last_info_per_level_timestamp h = Ret t h.
Proof using Hfit.
  intros [Ht _ _] Ut. unfold read_last_info_per_level_timestamp, read_timestamp_path, comp_bind.
  rewrite (read_signed h _ _ t timestamp_is_path (level_path EVM_INFO_PER_LEVEL_TIMESTAMP ltac:(done)) Ht).
  unfold comp_ret. by rewrite signed_value.
Qed.

(** The statistics of a level: the timestamp it reads is the one that was just written. *)
Lemma store_level_spec h t n now : levels h t n (match n with Some _ => Some 0 | None => None end) ->
  in_s 64 now -> 0 <= default 0 n < 2 ^ 62 ->
  exists h', store_last_info_per_level_timestamp now h = Ret tt h' /\
    levels h' (Some now) (Some (default 0 n + 1)) (Some 0).
Proof using Hfit.
  intros [Ht Hn Htot] Unow Un. unfold store_last_info_per_level_timestamp, store_timestamp_path, comp_bind.
  destruct (write_signed h _ _ _ now timestamp_is_path ltac:(done) Ht) as (h1 & -> & S1 & F1).
  assert (L1 : levels h1 (Some now) n (match n with Some _ => Some 0 | None => None end)).
  { split; [done | |]; unfold slot; rewrite F1 by (apply timestamp_numbers || apply timestamp_total); done. }
  unfold store_info_per_level_stats, comp_bind, unwrap_or at 1. rewrite (read_timestamp h1 now _ _ L1 Unow).
  rewrite Z.sub_diag. change (i64_checked 0) with (Some 0). cbn [or_panic].
  assert (Hs : unwrap_or read_last_info_per_level_timestamp_stats (0, 0) h1 = Ret (default 0 n, 0) h1).
  { destruct n as [n|]; cbn [from_option id] in *; [| by apply (read_no_stats h1 (Some now))].
    unfold unwrap_or. rewrite (read_stats h1 _ n 0 L1); [done | |]; unfold in_s; lia. }
  rewrite Hs. change (i64_checked (0 + 0)) with (Some 0). rewrite i64_checked_in by (unfold in_s; lia). cbn [or_panic].
  destruct (write_signed h1 _ _ _ 0 total_is_path ltac:(done) (levels_total _ _ _ _ L1)) as (h2 & -> & S2 & F2).
  assert (Hn2 : slot (view h2) NUMBERS (signed n)).
  { unfold slot. rewrite F2 by (apply diverge_sym, numbers_total). apply L1. }
  destruct (write_signed h2 _ _ _ (default 0 n + 1) numbers_is_path ltac:(done) Hn2) as (h3 & -> & S3 & F3).
  exists h3. split; [done |]. split; [| done |]; unfold slot.
  - rewrite F3 by (apply diverge_sym, timestamp_numbers). rewrite F2 by (apply diverge_sym, timestamp_total). apply L1.
  - rewrite F3 by (apply numbers_total). exact S2.
Qed.

(** Levels one after the other. *)
Fixpoint store_levels (ts : list Z) : KM (H := H) unit :=
  match ts with
  | [] => comp_ret tt
  | t :: ts => store_last_info_per_level_timestamp t ;;; store_levels ts
  end.

Lemma store_levels_spec ts : Forall (in_s 64) ts -> forall h t n,
  levels h (Some t) (Some n) (Some 0) -> 0 <= n -> n + len ts < 2 ^ 62 -> in_s 64 t ->
  exists h', store_levels ts h = Ret tt h' /\
    levels h' (Some (List.last ts t)) (Some (n + len ts)) (Some 0) /\ in_s 64 (List.last ts t).
Proof using Hfit.
  induction 1 as [|t' ts Ht _ IH]; intros h t n Hl Hn Hlen Ut; cbn [store_levels length] in *.
  - exists h. by rewrite Z.add_0_r.
  - destruct (store_level_spec h (Some t) (Some n) t' Hl Ht) as (h1 & E1 & L1); [cbn; lia |].
    cbn [from_option id] in L1. destruct (IH h1 t' (n + 1) L1 ltac:(lia) ltac:(lia) Ht) as (h2 & E2 & L2 & U2).
    exists h2. unfold comp_bind. rewrite E1, E2. split; [done |].
    assert (El : List.last (t' :: ts) t = List.last ts t').
    { destruct ts as [|x ts]; [done |]. cbn [List.last]. clear. revert x. induction ts; intros x; [done |]. cbn. apply IHts. }
    rewrite El. split; [| done]. by replace (n + Z.of_nat (S (length ts))) with (n + 1 + len ts) by lia.
Qed.

End Levels.

End EvmLevels.
Export EvmLevels.
