(* ===== verification/EvmFees.v ===== *)
(** Fees ([src/etherlink/kernel_evm/kernel/src/fees.rs]) and the container of the fees of a block
    ([BlockFees] in [src/etherlink/kernel_evm/ethereum/src/block.rs]).

    The operators of [U256] panic on an overflow: they are partial here, and [None] is the
    panic.  The logs are left out. *)

From Stdlib Require Import String Ascii.
From stdpp Require Import strings.
From S2P Require Import Prelude SdkPath SdkStore SdkHost SdkRuntime SdkMock SdkStorage EvmIndexable EvmRlp EvmLinkedList EvmAccount EvmTx EvmStorage EvmInbox.

Open Scope Z_scope.

Module EvmFees.

(** ** Arithmetic on 256 bits *)
Definition u256_add (a b : Z) : option Z := checked_add 256 a b.
Definition u256_sub (a b : Z) : option Z := checked_sub a b.
Definition u256_mul (a b : Z) : option Z := u256_checked_mul a b.
Definition saturating_mul (w a b : Z) : Z := Z.min (2 ^ w - 1) (a * b).

(** [cdiv]: [div_mod] panics on zero. *)
Definition cdiv (l r : Z) : option Z :=
  if r =? 0 then None
  else if l mod r =? 0 then Some (l / r) else Some (saturating_add 256 (l / r) 1).

(** ** The fees of a block *)
Record BlockFees : Type := mkFees { minimum_base_fee_per_gas : Z; base_fee_per_gas : Z; da_fee_per_byte : Z }.

Definition set_base_fee_per_gas (self : BlockFees) (price : Z) : BlockFees :=
  mkFees (minimum_base_fee_per_gas self) price (da_fee_per_byte self).

Definition MINIMUM_BASE_FEE_PER_GAS : Z := 10 ^ 9.
Definition ASSUMED_TX_ENCODED_SIZE : Z := 150.
Definition DA_FEE_PER_BYTE : Z := 4 * 10 ^ 12.

(** ** Instructions for balancing the books *)
Record FeeUpdates : Type := mkUpdates {
  overall_gas_price : Z;
  overall_gas_used : Z;
  burn_amount : Z;
  charge_user_amount : Z;
  compensate_sequencer_amount : Z
}.

(** The sum of the sizes of the items of an access list ([usize]; sizes of things in memory, so
    that the sum does not overflow). *)
Definition access_data_size (l : list AccessListItem) : Z :=
  foldr (fun ali acc => 20 + 32 * len (storage_keys ali) + acc) 0 l.

Definition da_fee (da_fee_per_byte : Z) (tx_data : bytes) (access_list : list AccessListItem) : Z :=
  saturating_mul 256
    (saturating_add 256 (saturating_add 256 (len tx_data) ASSUMED_TX_ENCODED_SIZE) (access_data_size access_list))
    da_fee_per_byte.

Definition for_deposit (gas_used : Z) : FeeUpdates := mkUpdates 0 gas_used 0 0 0.

Definition of_gas_and_da_fee (block_fees : BlockFees) (execution_gas_used da_fee : Z) : option FeeUpdates :=
  let? execution_gas_fees := u256_mul execution_gas_used (base_fee_per_gas block_fees) in
  let initial_added_fees := da_fee in
  let? initial_total_fees := u256_add initial_added_fees execution_gas_fees in
  let gas_price := base_fee_per_gas block_fees in
  let? gas_used := cdiv initial_total_fees gas_price in
  let? total_fees := u256_mul gas_price gas_used in
  let? sum := u256_add execution_gas_fees total_fees in
  let? burn_amount := u256_sub sum initial_total_fees in
  let? charge_user_amount := u256_sub total_fees execution_gas_fees in
  Some (mkUpdates gas_price gas_used burn_amount charge_user_amount da_fee).

Definition for_tx (tx : EthereumTransactionCommon) (block_fees : BlockFees) (execution_gas_used : Z) : option FeeUpdates :=
  let da_fee := da_fee (da_fee_per_byte block_fees) (tx_data tx) (access_list tx) in
  of_gas_and_da_fee block_fees execution_gas_used da_fee.

Definition for_delayed_tx (block_fees : BlockFees) (execution_gas_used : Z) : option FeeUpdates :=
  of_gas_and_da_fee block_fees execution_gas_used 0.

Definition fee_updates (self : TransactionContent) (block_fees : BlockFees) (execution_gas_used : Z) : option FeeUpdates :=
  match self with
  | TDeposit _ => Some (for_deposit execution_gas_used)
  | Ethereum tx => for_tx tx block_fees execution_gas_used
  | EthereumDelayed _ => for_delayed_tx block_fees execution_gas_used
  end.

(** ** Gas *)
Inductive GasError : Type := GasToFeesUnderflow | FeesToGasOverflow.

Definition gas_as_u64 (gas : Z) : result Z GasError := if gas <? 2 ^ 64 then Ok gas else Err FeesToGasOverflow.

(** [as_u64] panics on a number that does not fit. *)
Definition as_u64 (z : Z) : option Z := if z <? 2 ^ 64 then Some z else None.

Definition gas_for_fees (da_fee_per_byte gas_price : Z) (tx_data : bytes) (access_list : list AccessListItem)
    : option (result Z GasError) :=
  let fees := da_fee da_fee_per_byte tx_data access_list in
  let? gas_for_fees := cdiv fees gas_price in
  Some (gas_as_u64 gas_for_fees).

Definition tx_execution_gas_limit (tx : EthereumTransactionCommon) (fees : BlockFees) (delayed : bool)
    : option (result Z GasError) :=
  if delayed then Some (Ok (gas_limit_with_fees tx))
  else
    let? r := gas_for_fees (da_fee_per_byte fees) (base_fee_per_gas fees) (tx_data tx) (access_list tx) in
    Some (match r with
          | Err e => Err e
          | Ok g =>
              match checked_sub (gas_limit_with_fees tx) g with
              | Some l => Ok l
              | None => Err GasToFeesUnderflow
              end
          end).

(** ** Outcomes: the fields [fees.rs] uses, and the rest *)
Record ExecutionOutcome (Rest : Type) : Type := mkOutcome { outcome_gas_used : Z; outcome_rest : Rest }.
Arguments mkOutcome {Rest}.
Arguments outcome_gas_used {Rest}.
Arguments outcome_rest {Rest}.

Definition modify_outcome {Rest} (self : FeeUpdates) (outcome : ExecutionOutcome Rest) : option (ExecutionOutcome Rest) :=
  let? gas := as_u64 (overall_gas_used self) in Some (mkOutcome gas (outcome_rest outcome)).

Definition simulation_add_gas_for_fees {Rest} (outcome : ExecutionOutcome Rest) (block_fees : BlockFees) (tx_data : bytes)
    : option (result (ExecutionOutcome Rest) GasError) :=
  let? r := gas_for_fees (da_fee_per_byte block_fees) (minimum_base_fee_per_gas block_fees) tx_data [] in
  Some (match r with
        | Err e => Err e
        | Ok g => Ok (mkOutcome (saturating_add 64 (outcome_gas_used outcome) g) (outcome_rest outcome))
        end).

(** ** Paying *)

(** The errors of [apply] ([anyhow::Error]). *)
Inductive FeeError : Type :=
| FPath (e : PathError)
| FStorage (e : StorageError)
| FAccount (e : AccountStorageError)
| FKernel (e : KernelError)
| FailedToCharge (caller : bytes) (amount : Z).

Section Apply.
Context {H : Type} {R : Runtime H} {HL : HexLib} {KL : KeccakLib}.

Definition fee_account {A} (c : comp H AccountStorageError A) : comp H FeeError A :=
  fun h => match c h with Ret a h => Ret a h | Throw e h => Throw (FAccount e) h | Panic => Panic end.

Definition fee_kernel {A} (c : comp H KernelError A) : comp H FeeError A :=
  fun h => match c h with Ret a h => Ret a h | Throw e h => Throw (FKernel e) h | Panic => Panic end.

(** [accounts.get_or_create(host, &account_path(&address)?)?]. *)
Definition fee_get_or_create (accounts : Storage) (address : bytes) : result EthereumAccount FeeError :=
  match account_path address with
  | Err e => Err (FPath e)
  | Ok path =>
      match storage_get_or_create mkAccount accounts path with Ok a => Ok a | Err e => Err (FStorage e) end
  end.

Definition fee_lift {A} (r : result A FeeError) : comp H FeeError A :=
  fun h => match r with Ok a => Ret a h | Err e => Throw e h end.

Definition apply (self : FeeUpdates) (accounts : Storage) (caller : bytes) : comp H FeeError unit :=
  let! caller_account := fee_lift (fee_get_or_create accounts caller) in
  let! charged := fee_account (balance_remove caller_account (charge_user_amount self)) in
  if negb charged then comp_throw (FailedToCharge caller (charge_user_amount self))
  else fun h =>
    match read_sequencer_pool_address h with
    | None =>
        let burned_fee := saturating_add 256 (burn_amount self) (compensate_sequencer_amount self) in
        fee_kernel (update_burned_fees burned_fee) h
    | Some sequencer =>
        (fee_kernel (update_burned_fees (burn_amount self)) ;;;
         (let! sequencer_account := fee_lift (fee_get_or_create accounts sequencer) in
          fee_account (balance_add sequencer_account (compensate_sequencer_amount self)))) h
    end.

End Apply.

(** ** The books balance *)
Lemma u256_add_in a b : 0 <= a -> 0 <= b -> a + b < 2 ^ 256 -> u256_add a b = Some (a + b).
Proof. intros. unfold u256_add, checked_add. destruct (Z.ltb_spec (a + b) (2 ^ 256)); [done | lia]. Qed.

Lemma u256_sub_in a b : b <= a -> u256_sub a b = Some (a - b).
Proof. intros. unfold u256_sub, checked_sub. destruct (Z.leb_spec b a); [done | lia]. Qed.

Lemma u256_mul_in a b : a * b < 2 ^ 256 -> u256_mul a b = Some (a * b).
Proof. intros. unfold u256_mul, u256_checked_mul. destruct (Z.ltb_spec (a * b) (2 ^ 256)); [done | lia]. Qed.

(** The ceiling of a quotient. *)
Definition ceiling (l r : Z) : Z := (l + r - 1) / r.

Lemma ceiling_spec l r : 0 <= l -> 0 < r -> l <= r * ceiling l r < l + r /\ 0 <= ceiling l r.
Proof.
  intros Hl Hr. unfold ceiling. pose proof (Z.div_mod (l + r - 1) r ltac:(lia)) as E.
  pose proof (Z.mod_pos_bound (l + r - 1) r Hr). split; [lia | apply Z.div_pos; lia].
Qed.

Lemma cdiv_ceiling l r : 0 <= l < 2 ^ 256 -> 0 < r -> cdiv l r = Some (ceiling l r).
Proof.
  intros Hl Hr. unfold cdiv. destruct (Z.eqb_spec r 0); [lia |].
  pose proof (Z.div_mod l r ltac:(lia)) as E. pose proof (Z.mod_pos_bound l r Hr) as Hm.
  assert (Hq : l mod r = 0 /\ ceiling l r = l / r \/ 0 < l mod r /\ ceiling l r = l / r + 1).
  { unfold ceiling. destruct (decide (l mod r = 0)) as [E0|E0]; [left | right]; (split; [lia |]); symmetry.
    - apply (Z.div_unique_pos _ _ _ (r - 1)); lia.
    - apply (Z.div_unique_pos _ _ _ (l mod r - 1)); lia. }
  destruct (Z.eqb_spec (l mod r) 0) as [E0|E0], Hq as [[H1 H2]|[H1 H2]]; try lia; rewrite H2; [done |].
  unfold saturating_add. f_equal. assert (r <> 1) by (intros ->; rewrite Z.mod_1_r in E0; lia).
  pose proof (Z.div_pos l r ltac:(lia) Hr). nia.
Qed.

(** What [of_gas_and_da_fee] computes when nothing overflows. *)
Definition fits (block_fees : BlockFees) (gas da : Z) : Prop :=
  0 <= gas /\ 0 <= da /\ 0 < base_fee_per_gas block_fees /\
  2 * (gas * base_fee_per_gas block_fees) + da + base_fee_per_gas block_fees <= 2 ^ 256.

Lemma of_gas_and_da_fee_spec bf gas da : fits bf gas da ->
  let price := base_fee_per_gas bf in
  let used := ceiling (da + gas * price) price in
  of_gas_and_da_fee bf gas da =
  Some (mkUpdates price used (gas * price + price * used - (da + gas * price)) (price * used - gas * price) da).
Proof.
  intros (Hg & Hd & Hp & Hmax) price used. unfold of_gas_and_da_fee. fold price in Hp, Hmax |- *.
  assert (0 <= gas * price) by nia.
  destruct (ceiling_spec (da + gas * price) price ltac:(lia) Hp) as [Hc Hc0]. fold used in Hc, Hc0.
  rewrite u256_mul_in by lia. cbn [option_bind]. cbv beta iota.
  rewrite u256_add_in by lia. cbv beta iota. rewrite cdiv_ceiling by lia. fold used. cbv beta iota.
  rewrite u256_mul_in by lia. cbv beta iota. rewrite u256_add_in by lia. cbv beta iota.
  rewrite u256_sub_in by lia. cbv beta iota. by rewrite u256_sub_in by lia.
Qed.

(** The gas that pays the data fee comes on top of the execution gas. *)
Lemma used_is_sum gas da price : 0 < price -> ceiling (da + gas * price) price = gas + ceiling da price.
Proof.
  intros Hp. unfold ceiling. replace (da + gas * price + price - 1) with (da + price - 1 + gas * price) by lia.
  rewrite Z.div_add by lia. lia.
Qed.

(** ** Paying from the ledger *)
Definition ACCOUNTS : list bytes := [ascii_bytes "evm"; ascii_bytes "world_state"; ascii_bytes "eth_accounts"].
Definition BURNED : list bytes := [ascii_bytes "evm"; ascii_bytes "world_state"; ascii_bytes "fees"; ascii_bytes "burned"].
Definition POOL : list bytes := [ascii_bytes "evm"; ascii_bytes "sequencer_pool_address"].

Lemma accounts_is_path : is_path EVM_ACCOUNTS_PATH ACCOUNTS.
Proof. closed_path. Qed.

Lemma burned_is_path : is_path EVM_BURNED_FEES BURNED.
Proof. closed_path. Qed.

Lemma pool_is_path : is_path SEQUENCER_POOL_PATH POOL.
Proof. closed_path. Qed.

Lemma diverge_by (a b : list bytes) i s t : a !! i = Some s -> b !! i = Some t -> s <> t -> diverge a b.
Proof.
  intros Ha Hb Hne. split; intros [r ->]; apply Hne.
  - rewrite (lookup_app_l_Some _ _ _ _ Ha) in Hb. congruence.
  - rewrite (lookup_app_l_Some _ _ _ _ Hb) in Ha. congruence.
Qed.

Lemma accounts_burned : diverge ACCOUNTS BURNED.
Proof. by apply (diverge_by _ _ 2 (ascii_bytes "eth_accounts") (ascii_bytes "fees")). Qed.

Lemma accounts_pool : diverge ACCOUNTS POOL.
Proof. by apply (diverge_by _ _ 1 (ascii_bytes "world_state") (ascii_bytes "sequencer_pool_address")). Qed.

Lemma burned_pool : diverge BURNED POOL.
Proof. by apply (diverge_by _ _ 1 (ascii_bytes "world_state") (ascii_bytes "sequencer_pool_address")). Qed.

Section Pay.
Context {H : Type} {R : Runtime H} {L : RuntimeLaws H}.
Context {HL : HexLib} {HLL : HexLaws} {KL : KeccakLib} {KLL : KeccakLaws}.
Context (Hfit : 143 <= limit (H := H)).
Implicit Types (h : H) (g : bytes -> AccountState).

Abbreviation book := (ledger ACCOUNTS).

Lemma base_fits : len EVM_ACCOUNTS_PATH + 114 <= limit (H := H).
Proof using Hfit. change (len EVM_ACCOUNTS_PATH) with 29. exact Hfit. Qed.

(** The storage of accounts outside of a transaction. *)
Definition base_storage : Storage := mkStorage EVM_ACCOUNTS_PATH [EVM_ACCOUNTS_PATH].

Lemma fee_account_found a : is_h160 a -> fee_get_or_create base_storage a = Ok (located EVM_ACCOUNTS_PATH a).
Proof using HLL Hfit.
  intros Ha. unfold fee_get_or_create.
  destruct (located_ok _ _ accounts_is_path base_fits a Ha) as (E & _). rewrite E.
  by rewrite (get_or_create_located _ _ accounts_is_path base_fits base_storage a eq_refl Ha).
Qed.

(** The number of fees burned so far. *)
Definition burned h (b : Z) : Prop := exists o, slot (view h) BURNED o /\ number 32 b o.

Lemma burned_fits : len EVM_BURNED_FEES <= limit (H := H).
Proof using Hfit. change (len EVM_BURNED_FEES) with 28. lia. Qed.

Lemma read_burned h b : burned h b -> unwrap_or (k_read_u256 EVM_BURNED_FEES) 0 h = Ret b h.
Proof using Hfit.
  intros (o & Hs & Hn). destruct (read_number _ _ _ Hn) as [Hv Hl]. unfold unwrap_or, k_read_u256, comp_bind, kread.
  rewrite (law_read h _ _ 0 32 burned_is_path burned_fits) by lia.
  unfold value_at. rewrite Hs. destruct o as [v|]; cbn [value plain node_default].
  - destruct (Z.ltb_spec (len v) 0); [lia |]. rewrite drop_0.
    change (Z.to_nat (Z.min MAX_FILE_CHUNK_SIZE 32)) with 32%nat. rewrite take_ge by lia.
    unfold comp_ret. by rewrite Hv.
  - by rewrite <- Hv.
Qed.

Lemma update_burned_spec h b f : burned h b -> in_u 256 f ->
  exists h', update_burned_fees f h = Ret tt h' /\ burned h' (saturating_add 256 b f) /\
    forall q, diverge BURNED q -> subtree (view h') q = subtree (view h) q.
Proof using Hfit.
  intros Hb Hf. unfold update_burned_fees, comp_bind. rewrite (read_burned h b Hb). unfold write_u256, kruntime.
  set (s := saturating_add 256 b f). destruct Hb as (o & Hs & Hn). destruct (read_number _ _ _ Hn) as [_ Hl].
  assert (Hu : in_u 256 s) by (destruct Hn as [Hn _]; unfold in_u, s, saturating_add in *; lia).
  destruct (overwrite h _ _ o (le_bytes 32 s) burned_is_path burned_fits Hs) as (h' & E & Hs' & F).
  { rewrite length_le_bytes. destruct o; cbn in *; lia. }
  exists h'. rewrite E. split_and!; [done | | done]. exists (Some (le_bytes 32 s)). split; [done | by apply number_word].
Qed.

(** The address of the pool is what its path holds. *)
Definition pool_of (n : Node) : option bytes :=
  match value n with Some v => if 20 <=? len v then Some (take 20 v) else None | None => None end.

Lemma read_pool h : read_sequencer_pool_address h = pool_of (subtree (view h) POOL).
Proof using Hfit.
  unfold read_sequencer_pool_address, pool_of.
  rewrite (law_read_slice h _ _ 0 _ pool_is_path) by
    (done || (change (len SEQUENCER_POOL_PATH) with 27; lia)).
  unfold value_at. destruct (value (subtree (view h) POOL)) as [v|]; [| done].
  destruct (Z.ltb_spec (len v) 0); [lia |]. change (Z.to_nat 0) with O. rewrite drop_0, length_replicate.
  destruct (Z.leb_spec 20 (len v)) as [Hle|Hgt].
  - rewrite length_take. replace (Z.of_nat (20 `min` length v)) with 20 by lia.
    unfold fill. rewrite drop_ge by (rewrite length_replicate, length_take; lia). by rewrite app_nil_r.
  - rewrite length_take. destruct (Z.of_nat (20 `min` length v)) as [|p|p] eqn:E; [done | | done].
    destruct (decide (p = 20%positive)) as [->|Hne]; [lia |].
    repeat (destruct p as [p|p|]; try done).
Qed.

(** Changes elsewhere. *)
Lemma book_frame h h' g : book h g -> (forall q, diverge BURNED q -> subtree (view h') q = subtree (view h) q) -> book h' g.
Proof.
  intros Hg Hf a Ha. rewrite Hf by (apply diverge_sym, diverge_app_l, accounts_burned). by apply Hg.
Qed.

Lemma burned_frame h h' b : burned h b -> outside ACCOUNTS h h' -> burned h' b.
Proof.
  intros (o & Hs & Hn) Hf. exists o. split; [| done]. unfold slot in *. by rewrite Hf by apply accounts_burned.
Qed.

Definition pay (s : AccountState) (amount : Z) : AccountState := with_balance s (s_balance s - amount).
Definition earn (s : AccountState) (amount : Z) : AccountState := with_balance s (s_balance s + amount).

(** What paying fees does to the accounts and to the burned fees. *)
Lemma apply_spec f h g b caller : book h g -> burned h b -> is_h160 caller ->
  in_u 256 (charge_user_amount f) -> in_u 256 (burn_amount f) -> in_u 256 (compensate_sequencer_amount f) ->
  let g1 := upd g caller (pay (g caller) (charge_user_amount f)) in
  if s_balance (g caller) <? charge_user_amount f
  then apply f base_storage caller h = Throw (FailedToCharge caller (charge_user_amount f)) h
  else match pool_of (subtree (view h) POOL) with
  | None =>
      exists h', apply f base_storage caller h = Ret tt h' /\ book h' g1 /\
        burned h' (saturating_add 256 b (saturating_add 256 (burn_amount f) (compensate_sequencer_amount f)))
  | Some s =>
      is_h160 s ->
      exists h', burned h' (saturating_add 256 b (burn_amount f)) /\
        if s_balance (g1 s) + compensate_sequencer_amount f <? 2 ^ 256
        then apply f base_storage caller h = Ret tt h' /\ book h' (upd g1 s (earn (g1 s) (compensate_sequencer_amount f)))
        else apply f base_storage caller h = Throw (FAccount BalanceOverflow) h' /\ book h' g1
  end.
Proof using HLL KLL Hfit.
  intros Hg Hb Hc Hch Hbu Hco g1. unfold apply, comp_bind, fee_lift, fee_account.
  rewrite (fee_account_found caller Hc).
  destruct (located_ok _ _ accounts_is_path base_fits caller Hc) as (_ & _ & Hp & Hl).
  pose proof (balance_remove_spec _ _ Hp Hl h (g caller) _ (Hg caller Hc) Hch) as Hrm.
  change (mkAccount (account (located EVM_ACCOUNTS_PATH caller))) with (located EVM_ACCOUNTS_PATH caller) in Hrm.
  rewrite Z.leb_antisym in Hrm.
  destruct (s_balance (g caller) <? charge_user_amount f); cbn [negb] in Hrm.
  { by rewrite Hrm. }
  destruct Hrm as (h1 & E1 & Hr1). rewrite E1. cbn [negb].
  destruct (ledger_reached ACCOUNTS h h1 g caller _ Hg Hc Hr1) as [Hg1 F1]. fold (pay (g caller) (charge_user_amount f)) in Hg1.
  fold g1 in Hg1. rewrite read_pool, F1 by apply accounts_pool. pose proof (burned_frame h h1 b Hb F1) as Hb1.
  destruct (pool_of (subtree (view h) POOL)) as [s|].
  - intros Hs. destruct (update_burned_spec h1 b (burn_amount f) Hb1 Hbu) as (h2 & E2 & Hb2 & F2).
    pose proof (book_frame h1 h2 g1 Hg1 F2) as Hg2. unfold fee_kernel. rewrite E2, (fee_account_found s Hs).
    destruct (located_ok _ _ accounts_is_path base_fits s Hs) as (_ & _ & Hps & Hls).
    pose proof (balance_add_spec _ _ Hps Hls h2 (g1 s) _ (Hg2 s Hs) Hco) as Had.
    change (mkAccount (account (located EVM_ACCOUNTS_PATH s))) with (located EVM_ACCOUNTS_PATH s) in Had.
    destruct (s_balance (g1 s) + compensate_sequencer_amount f <? 2 ^ 256).
    + destruct Had as (h3 & E3 & Hr3). rewrite E3.
      destruct (ledger_reached ACCOUNTS h2 h3 g1 s _ Hg2 Hs Hr3) as [Hg3 F3]. exists h3.
      split_and!; [by apply (burned_frame h2) | done | done].
    + rewrite Had. by exists h2.
  - destruct (update_burned_spec h1 b (saturating_add 256 (burn_amount f) (compensate_sequencer_amount f)) Hb1) as (h2 & E2 & Hb2 & F2).
    { unfold in_u, saturating_add in *. lia. }
    unfold fee_kernel. rewrite E2. exists h2. split_and!; [done | by apply (book_frame h1) | done].
Qed.

End Pay.

End EvmFees.
Export EvmFees.
