(* ===== verification/EvmApply.v ===== *)
(** Applying transactions ([src/etherlink/kernel_evm/kernel/src/apply.rs]): the checks before the
    execution, the deposits, the indexing of the accounts and the data of receipts and objects;
    and the payments around an execution ([pre_pay_transactions] and [repay_gas] in
    [src/etherlink/kernel_evm/evm_execution/src/handler.rs]).  The logs are left out. *)

From Stdlib Require Import String Ascii.
From stdpp Require Import strings.
From S2P Require Import Prelude SdkPath SdkStore SdkHost SdkRuntime SdkMock SdkStorage EvmIndexable EvmRlp EvmLinkedList EvmAccount EvmTx EvmStorage EvmInbox EvmFees.

Open Scope Z_scope.

Module EvmApply.

(** ** What receipts and objects take from a transaction *)
Definition transaction_to (t : Transaction) : option bytes :=
  match tx_content t with TDeposit d => Some (receiver d) | Ethereum tx | EthereumDelayed tx => to tx end.

Definition transaction_data (t : Transaction) : bytes :=
  match tx_content t with TDeposit _ => [] | Ethereum tx | EthereumDelayed tx => tx_data tx end.

Definition transaction_value (t : Transaction) : Z :=
  match tx_content t with TDeposit d => amount d | Ethereum tx | EthereumDelayed tx => tx_value tx end.

Definition transaction_nonce (t : Transaction) : Z :=
  match tx_content t with TDeposit _ => 0 | Ethereum tx | EthereumDelayed tx => tx_nonce tx end.

Definition transaction_signature (t : Transaction) : option TxSignature :=
  match tx_content t with TDeposit _ => None | Ethereum tx | EthereumDelayed tx => tx_signature tx end.

Record TransactionObjectInfo : Type := mkObject {
  obj_from : bytes;
  obj_gas : Z;
  obj_gas_price : Z;
  obj_hash : bytes;
  obj_input : bytes;
  obj_nonce : Z;
  obj_to : option bytes;
  obj_index : Z;
  obj_value : Z;
  obj_signature : option TxSignature
}.

Definition make_object_info (transaction : Transaction) (from : bytes) (index : Z) (fee_updates : FeeUpdates)
    : TransactionObjectInfo :=
  let '(gas, gas_price) :=
    match tx_content transaction with
    | Ethereum e | EthereumDelayed e => (gas_limit_with_fees e, max_fee_per_gas e)
    | TDeposit _ => (overall_gas_used fee_updates, overall_gas_price fee_updates)
    end in
  mkObject from gas gas_price (tx_hash transaction) (transaction_data transaction) (transaction_nonce transaction)
    (transaction_to transaction) index (transaction_value transaction) (transaction_signature transaction).

(** ** Validity *)
Inductive Validity : Type :=
| Valid (caller : bytes) (gas_limit : Z)
| InvalidChainId
| InvalidSignature
| InvalidNonce
| InvalidPrePay
| InvalidCode
| InvalidMaxBaseFee
| InvalidNotEnoughGasForFees.

Inductive ApplyError : Type :=
| APath (e : PathError)
| AStore (e : StorageError)
| AAccount (e : AccountStorageError)
| GasPaymentOverflow.

(** The fields of [BlockConstants] used here. *)
Record BlockConstants : Type := mkConstants { block_chain_id : Z; block_fees : BlockFees }.

Section Apply.
Context {H : Type} {R : Runtime H} {HL : HexLib} {KL : KeccakLib} {RL : RlpLib} {RS : RlpScalars} {SE : Secp}.

Definition PM (A : Type) : Type := comp H ApplyError A.

Definition on_account {A} (c : comp H AccountStorageError A) : PM A :=
  fun h => match c h with Ret a h => Ret a h | Throw e h => Throw (AAccount e) h | Panic => Panic end.

(** [account]. *)
Definition find_account (address : bytes) (accounts : Storage) : PM (option EthereumAccount) :=
  fun h =>
    match account_path address with
    | Err e => Throw (APath e) h
    | Ok path =>
        match storage_get mkAccount accounts h path with Ok o => Ret o h | Err e => Throw (AStore e) h end
    end.

(** [get_or_create_account]. *)
Definition get_or_create_account (address : bytes) (accounts : Storage) : PM EthereumAccount :=
  fun h =>
    match account_path address with
    | Err e => Throw (APath e) h
    | Ok path =>
        match storage_get_or_create mkAccount accounts path with Ok a => Ret a h | Err e => Throw (AStore e) h end
    end.

Definition panic_or {A B} (o : option A) (k : A -> PM B) : PM B :=
  match o with Some a => k a | None => fun _ => Panic end.

Definition is_valid_ethereum_transaction_common (accounts : Storage) (transaction : EthereumTransactionCommon)
    (block_constant : BlockConstants) (effective_gas_price : Z) (is_delayed : bool) : PM Validity :=
  if bool_decide (is_Some (chain_id transaction)) &&
     bool_decide (Some (block_chain_id block_constant) <> chain_id transaction)
  then comp_ret InvalidChainId
  else if max_fee_per_gas transaction <? base_fee_per_gas (block_fees block_constant)
  then comp_ret InvalidMaxBaseFee
  else panic_or (caller transaction) (fun r =>
    match r with
    | Err _ => comp_ret InvalidSignature
    | Ok caller =>
        let! account := find_account caller accounts in
        let! t := (match account with
                   | None => comp_ret (0, 0, false)
                   | Some account =>
                       let! nonce := on_account (nonce account) in
                       let! balance := on_account (balance account) in
                       let! code_exists := on_account (code_exists account) in
                       comp_ret (nonce, balance, code_exists)
                   end) in
        let '(nonce, balance, code_exists) := (t : Z * Z * bool) in
        if negb (nonce =? tx_nonce transaction) then comp_ret InvalidNonce
        else
          let total_gas_limit := gas_limit_with_fees transaction in
          let cost := saturating_mul 256 total_gas_limit effective_gas_price in
          let max_fee := saturating_mul 256 total_gas_limit (max_fee_per_gas transaction) in
          if (balance <? cost) || (balance <? max_fee) then comp_ret InvalidPrePay
          else if (code_exists : bool) then comp_ret InvalidCode
          else panic_or (tx_execution_gas_limit transaction (block_fees block_constant) is_delayed) (fun r =>
            match r with
            | Ok gas_limit => comp_ret (Valid caller gas_limit)
            | Err _ => comp_ret InvalidNotEnoughGasForFees
            end)
    end).

(** ** Payments around an execution *)
Definition pre_pay_transactions (accounts : Storage) (caller : bytes) (gas_limit : option Z) (effective_gas_price : Z) : PM bool :=
  match gas_limit with
  | None => comp_ret true
  | Some gas_limit =>
      match u256_checked_mul gas_limit effective_gas_price with
      | None => comp_throw GasPaymentOverflow
      | Some amount =>
          let! account := get_or_create_account caller accounts in on_account (balance_remove account amount)
      end
  end.

Definition repay_gas (accounts : Storage) (caller : bytes) (unused_gas : option Z) (effective_gas_price : Z) : PM unit :=
  match unused_gas with
  | None => comp_ret tt
  | Some unused_gas =>
      match u256_checked_mul unused_gas effective_gas_price with
      | None => comp_throw GasPaymentOverflow
      | Some amount =>
          let! account := get_or_create_account caller accounts in on_account (balance_add account amount)
      end
  end.

(** ** Deposits *)

(** The closure of [apply_deposit]: whether the receiver got the amount.  The outcome also has
    the gas of a call, the ticks of a deposit, and the null address as the caller. *)
Definition do_deposit (accounts : Storage) (deposit : Deposit) : comp H ApplyError bool :=
  fun h =>
    match (let! to_account := get_or_create_account (receiver deposit) accounts in
           on_account (balance_add to_account (amount deposit))) h with
    | Ret _ h => Ret true h
    | Throw _ h => Ret false h
    | Panic => Panic
    end.

(** ** Indexing *)
Definition index_new_accounts (accounts_index : IndexableStorage) (caller : bytes) (to new_address : option bytes)
    : KM (H := H) unit :=
  index_account caller accounts_index ;;;
  (match to with Some to => index_account to accounts_index | None => comp_ret tt end) ;;;
  (match new_address with Some to => index_account to accounts_index | None => comp_ret tt end).

End Apply.

(** ** On a ledger *)
Section Checks.
Context {H : Type} {R : Runtime H} {L : RuntimeLaws H}.
Context {HL : HexLib} {HLL : HexLaws} {KL : KeccakLib} {KLL : KeccakLaws}.
Context {RL : RlpLib} {RS : RlpScalars} {SE : Secp}.
Context (Hfit : 143 <= limit (H := H)).
Implicit Types (h : H) (g : bytes -> AccountState).

Abbreviation book := (ledger ACCOUNTS).

(** The caller of a transaction is an address. *)
Lemma caller_is_address tx a : caller tx = Some (Ok a) -> is_h160 a.
Proof using KLL.
  unfold caller. destruct (message tx) as [mes|]; [| done]. destruct (signature tx) as [[sig ri]|]; [| done].
  destruct (ec_recover mes sig ri) as [pk|]; [| done].
  destruct (bool_decide_reflect (length (address_of_key pk) = 20%nat)) as [Hl|]; [| done].
  intros [= <-]. split; [done |]. apply Forall_drop, keccak_bytes.
Qed.

(** An account without a subtree is empty. *)
Lemma no_subtree n a : represents n a -> has_subtree_res (Ok (kind_of n)) = false ->
  s_nonce a = 0 /\ s_balance a = 0 /\ s_code a = None.
Proof.
  intros Hr Hk. assert (Hi : inner n = ∅).
  { pose proof (represents_value _ _ Hr) as Hv. unfold kind_of in Hk. rewrite Hv in Hk.
    rewrite bool_decide_false in Hk by (by intros [? ?]). cbn [Z.b2z] in Hk.
    destruct (Z.ltb_spec 0 (Z.of_nat (base.size (inner n)))); [done |]. apply map_size_empty_inv. lia. }
  assert (Hs : forall s, subtree n [s] = node_default).
  { intros s. unfold subtree. cbn [node_at]. by rewrite Hi, lookup_empty. }
  assert (Hnone : forall s o, slot n [s] o -> o = None).
  { intros s o Ho. unfold slot in Ho. rewrite Hs in Ho. by destruct o. }
  destruct (Hr FNonce I) as (o1 & H1%Hnone & C1), (Hr FBalance I) as (o2 & H2%Hnone & C2), (Hr FCode I) as (o3 & H3%Hnone & C3 & _).
  subst. destruct (read_number _ _ _ C1) as [<- _], (read_number _ _ _ C2) as [<- _]. done.
Qed.

(** What the checks read of an account. *)
Lemma account_facts h g a : book h g -> is_h160 a ->
  exists o, find_account a base_storage h = Ret o h /\
    (match o with
     | None => comp_ret (0, 0, false)
     | Some account =>
         let! nonce := on_account (nonce account) in
         let! balance := on_account (balance account) in
         let! code_exists := on_account (code_exists account) in
         comp_ret (nonce, balance, code_exists)
     end) h = Ret (s_nonce (g a), s_balance (g a), bool_decide (is_Some (s_code (g a)))) h.
Proof using HLL Hfit.
  intros Hg Ha. destruct (located_ok _ _ accounts_is_path (base_fits Hfit) a Ha) as (E1 & E2 & Hp & Hl).
  unfold find_account. rewrite E1. unfold storage_get. cbn [layers base_storage last].
  unfold layer_get. rewrite E2. rewrite (law_has h _ _ Hp) by lia.
  destruct (has_subtree_res _) eqn:Hk.
  - exists (Some (located EVM_ACCOUNTS_PATH a)). split; [done |]. unfold comp_bind, on_account.
    pose proof (nonce_spec _ _ Hp Hl h _ (Hg a Ha)) as En. pose proof (balance_spec _ _ Hp Hl h _ (Hg a Ha)) as Eb.
    pose proof (code_exists_spec _ _ Hp Hl h _ (Hg a Ha)) as Ec.
    change (mkAccount (account (located EVM_ACCOUNTS_PATH a))) with (located EVM_ACCOUNTS_PATH a) in *.
    by rewrite En, Eb, Ec.
  - exists None. split; [done |]. destruct (no_subtree _ _ (Hg a Ha) Hk) as (-> & -> & ->). done.
Qed.

(** A transaction that passes the checks. *)
Lemma valid_inv h g tx bc price delayed c gl h' : book h g ->
  is_valid_ethereum_transaction_common base_storage tx bc price delayed h = Ret (Valid c gl) h' ->
  h' = h /\ is_h160 c /\ caller tx = Some (Ok c) /\
  (chain_id tx = None \/ chain_id tx = Some (block_chain_id bc)) /\
  base_fee_per_gas (block_fees bc) <= max_fee_per_gas tx /\
  s_nonce (g c) = tx_nonce tx /\ s_code (g c) = None /\
  saturating_mul 256 (gas_limit tx) price <= s_balance (g c) /\
  saturating_mul 256 (gas_limit tx) (max_fee_per_gas tx) <= s_balance (g c) /\
  tx_execution_gas_limit tx (block_fees bc) delayed = Some (Ok gl).
Proof using HLL KLL Hfit.
  intros Hg. unfold is_valid_ethereum_transaction_common.
  destruct (_ && _) eqn:Hchain; [done |].
  destruct (Z.ltb_spec (max_fee_per_gas tx) (base_fee_per_gas (block_fees bc))) as [|Hfee]; [done |].
  destruct (caller tx) as [[a|e]|] eqn:Hc; cbn [panic_or]; [| done | done].
  pose proof (caller_is_address tx a Hc) as Ha. destruct (account_facts h g a Hg Ha) as (o & E1 & E2).
  unfold comp_bind at 1. rewrite E1. unfold comp_bind at 1. rewrite E2. cbv beta iota.
  destruct (Z.eqb_spec (s_nonce (g a)) (tx_nonce tx)) as [Hn|]; cbn [negb]; [| done]. unfold gas_limit_with_fees.
  destruct (Z.ltb_spec (s_balance (g a)) (saturating_mul 256 (gas_limit tx) price)) as [|Hcost]; [done |].
  destruct (Z.ltb_spec (s_balance (g a)) (saturating_mul 256 (gas_limit tx) (max_fee_per_gas tx))) as [|Hmax]; [done |].
  cbn [orb]. destruct (bool_decide_reflect (is_Some (s_code (g a)))) as [|Hcode]; [done |].
  destruct (tx_execution_gas_limit tx (block_fees bc) delayed) as [[l|]|]; cbn [panic_or]; [| done | done].
  intros [= <- <- <-]. split_and!; try done.
  - destruct (chain_id tx) as [i|]; [| by left]. right. rewrite bool_decide_true in Hchain by eauto. cbn [andb] in Hchain.
    apply bool_decide_eq_false, dec_stable in Hchain. congruence.
  - destruct (s_code (g a)); [| done]. destruct Hcode. eauto.
Qed.

(** *** Payments *)
Lemma get_or_create_ok a h : is_h160 a -> get_or_create_account a base_storage h = Ret (located EVM_ACCOUNTS_PATH a) h.
Proof using HLL Hfit.
  intros Ha. destruct (located_ok _ _ accounts_is_path (base_fits Hfit) a Ha) as (E1 & _).
  unfold get_or_create_account. rewrite E1.
  by rewrite (get_or_create_located _ _ accounts_is_path (base_fits Hfit) base_storage a eq_refl Ha).
Qed.

Lemma remove_from h g a amount : book h g -> is_h160 a -> in_u 256 amount -> amount <= s_balance (g a) ->
  exists h', balance_remove (located EVM_ACCOUNTS_PATH a) amount h = Ret true h' /\
    book h' (upd g a (pay (g a) amount)) /\ outside ACCOUNTS h h'.
Proof using HLL Hfit.
  intros Hg Ha Hu Hle. destruct (located_ok _ _ accounts_is_path (base_fits Hfit) a Ha) as (_ & _ & Hp & Hl).
  pose proof (balance_remove_spec _ _ Hp Hl h _ amount (Hg a Ha) Hu) as Hr.
  apply Z.leb_le in Hle. rewrite Hle in Hr. destruct Hr as (h' & E & Hr). exists h'. split; [exact E |].
  by apply (ledger_reached ACCOUNTS).
Qed.

Lemma add_to h g a amount : book h g -> is_h160 a -> in_u 256 amount ->
  if s_balance (g a) + amount <? 2 ^ 256
  then exists h', balance_add (located EVM_ACCOUNTS_PATH a) amount h = Ret tt h' /\
    book h' (upd g a (earn (g a) amount)) /\ outside ACCOUNTS h h'
  else balance_add (located EVM_ACCOUNTS_PATH a) amount h = Throw BalanceOverflow h.
Proof using HLL Hfit.
  intros Hg Ha Hu. destruct (located_ok _ _ accounts_is_path (base_fits Hfit) a Ha) as (_ & _ & Hp & Hl).
  pose proof (balance_add_spec _ _ Hp Hl h _ amount (Hg a Ha) Hu) as Hr.
  destruct (_ <? _); [| exact Hr]. destruct Hr as (h' & E & Hr). exists h'. split; [exact E |].
  by apply (ledger_reached ACCOUNTS).
Qed.

Lemma pre_pay_ok h g a gas price : book h g -> is_h160 a -> 0 <= gas * price <= s_balance (g a) ->
  gas * price < 2 ^ 256 ->
  exists h', pre_pay_transactions base_storage a (Some gas) price h = Ret true h' /\
    book h' (upd g a (pay (g a) (gas * price))) /\ outside ACCOUNTS h h'.
Proof using HLL Hfit.
  intros Hg Ha Hle Hu. unfold pre_pay_transactions, u256_checked_mul. destruct (Z.ltb_spec (gas * price) (2 ^ 256)); [| lia].
  unfold comp_bind. rewrite get_or_create_ok by done. unfold on_account.
  destruct (remove_from h g a (gas * price) Hg Ha) as (h' & -> & Hh'); [unfold in_u; lia | lia | by exists h'].
Qed.

Lemma repay_ok h g a gas price : book h g -> is_h160 a -> 0 <= gas * price ->
  s_balance (g a) + gas * price < 2 ^ 256 -> 0 <= s_balance (g a) ->
  exists h', repay_gas base_storage a (Some gas) price h = Ret tt h' /\
    book h' (upd g a (earn (g a) (gas * price))) /\ outside ACCOUNTS h h'.
Proof using HLL Hfit.
  intros Hg Ha H0 Hu Hb. unfold repay_gas, u256_checked_mul. destruct (Z.ltb_spec (gas * price) (2 ^ 256)); [| lia].
  unfold comp_bind. rewrite get_or_create_ok by done. unfold on_account.
  pose proof (add_to h g a (gas * price) Hg Ha ltac:(unfold in_u; lia)) as Hadd.
  destruct (Z.ltb_spec (s_balance (g a) + gas * price) (2 ^ 256)); [| lia].
  destruct Hadd as (h' & -> & Hh'). by exists h'.
Qed.

Lemma deposit_spec h g d : book h g -> is_h160 (receiver d) -> in_u 256 (amount d) ->
  exists h', outside ACCOUNTS h h' /\
  if s_balance (g (receiver d)) + amount d <? 2 ^ 256
  then do_deposit base_storage d h = Ret true h' /\ book h' (upd g (receiver d) (earn (g (receiver d)) (amount d)))
  else do_deposit base_storage d h = Ret false h /\ h' = h.
Proof using HLL Hfit.
  intros Hg Ha Hu. unfold do_deposit, comp_bind. rewrite get_or_create_ok by done. unfold on_account.
  pose proof (add_to h g (receiver d) (amount d) Hg Ha Hu) as Hadd. destruct (_ <? _).
  - destruct Hadd as (h' & -> & Hb & Ho). by exists h'.
  - rewrite Hadd. exists h. split; [apply outside_refl | done].
Qed.

(** *** The index of accounts *)
Definition INDEX_PATH : Path := ascii_bytes "/evm/world_state/indexes/accounts".
Definition INDEX : list bytes := [ascii_bytes "evm"; ascii_bytes "world_state"; ascii_bytes "indexes"; ascii_bytes "accounts"].

Lemma init_account_index_ok : init_account_index = Ok (mkIndexable INDEX_PATH).
Proof. vm_compute. reflexivity. Qed.

Lemma index_is_path : is_path INDEX_PATH INDEX.
Proof. closed_path. Qed.

Lemma index_fits : len INDEX_PATH + 21 <= limit (H := H).
Proof using Hfit. change (len INDEX_PATH) with 33. lia. Qed.

Lemma accounts_index_diverge : diverge ACCOUNTS INDEX.
Proof. by apply (diverge_by _ _ 2 (ascii_bytes "eth_accounts") (ascii_bytes "indexes")). Qed.

Lemma index_frame h h' l : holds INDEX h l -> outside ACCOUNTS h h' -> holds INDEX h' l.
Proof.
  intros [Hl Hv] Hf. assert (Hsame : forall s, value_at (view h') (INDEX ++ [s]) = value_at (view h) (INDEX ++ [s])).
  { intros s. unfold value_at. by rewrite Hf by (apply diverge_app_r, accounts_index_diverge). }
  split; [by rewrite Hsame |]. intros i v Hi. rewrite Hsame. by apply Hv.
Qed.

Lemma book_index_frame h h' g : book h g -> (forall q, diverge INDEX q -> subtree (view h') q = subtree (view h) q) -> book h' g.
Proof. intros Hg Hf a Ha. rewrite Hf by (apply diverge_sym, diverge_app_l, accounts_index_diverge). by apply Hg. Qed.

Lemma from_address_located a : is_h160 a -> from_address a = Ok (located EVM_ACCOUNTS_PATH a).
Proof using HLL Hfit.
  intros Ha. destruct (located_ok _ _ accounts_is_path (base_fits Hfit) a Ha) as (E1 & E2 & _).
  unfold from_address. by rewrite E1, E2.
Qed.

Lemma book_ext h g g' : book h g -> (forall a, g a = g' a) -> book h g'.
Proof. intros Hg He a Ha. rewrite <- He. by apply Hg. Qed.

Lemma index_account_spec h g l a : book h g -> holds INDEX h l -> is_h160 a -> in_u 64 (len l + 1) ->
  exists h', index_account a (mkIndexable INDEX_PATH) h = Ret tt h' /\
    book h' (upd g a (with_indexed (g a))) /\ holds INDEX h' (if s_indexed (g a) then l else l ++ [a]).
Proof using HLL Hfit.
  intros Hg Hh Ha Hu. unfold index_account. rewrite from_address_located by done.
  destruct (located_ok _ _ accounts_is_path (base_fits Hfit) a Ha) as (_ & _ & Hp & Hl).
  pose proof (indexed_spec _ _ Hp Hl h _ (Hg a Ha)) as Ei.
  change (mkAccount (account (located EVM_ACCOUNTS_PATH a))) with (located EVM_ACCOUNTS_PATH a) in Ei.
  unfold comp_bind, of_account. rewrite Ei. destruct (s_indexed (g a)) eqn:Eg.
  - exists h. split_and!; [done | | done]. eapply book_ext; [exact Hg |]. intros b. unfold upd.
    destruct (decide (a = b)) as [<-|]; [| done]. unfold with_indexed. destruct (g a). cbn in *. by subst.
  - destruct (push_value_spec _ _ index_is_path index_fits h l a Hh Hu) as (h1 & E1 & Hh1 & _ & F1).
    pose proof (book_index_frame h h1 g Hg F1) as Hg1.
    destruct (set_indexed_spec _ _ Hp Hl h1 _ (Hg1 a Ha)) as (h2 & E2 & Hr2).
    change (mkAccount (account (located EVM_ACCOUNTS_PATH a))) with (located EVM_ACCOUNTS_PATH a) in E2.
    destruct (ledger_reached ACCOUNTS h1 h2 g a _ Hg1 Ha Hr2) as [Hg2 F2].
    exists h2. unfold kindex. rewrite E1, E2. split_and!; [done | done |]. by apply (index_frame h1).
Qed.

(** Many receipts. *)
Record Receipt : Type := mkReceipt { r_caller : bytes; r_to : option bytes; r_new : option bytes }.

Definition mentioned (r : Receipt) : list bytes := r_caller r :: option_list (r_to r) ++ option_list (r_new r).

Fixpoint index_all (rs : list Receipt) : KM (H := H) unit :=
  match rs with
  | [] => comp_ret tt
  | r :: rs => index_new_accounts (mkIndexable INDEX_PATH) (r_caller r) (r_to r) (r_new r) ;;; index_all rs
  end.

(** The index and the marks of the accounts agree: a list without duplicates of exactly the
    marked accounts. *)
Definition indexed_as h g l : Prop :=
  book h g /\ holds INDEX h l /\ NoDup l /\ forall a, is_h160 a -> (a ∈ l <-> s_indexed (g a) = true).

Lemma index_one h g l a : indexed_as h g l -> is_h160 a -> in_u 64 (len l + 1) ->
  exists h' g' l', index_account a (mkIndexable INDEX_PATH) h = Ret tt h' /\ indexed_as h' g' l' /\
    (forall b, b ∈ l' <-> b ∈ l \/ b = a) /\ len l' <= len l + 1.
Proof using HLL Hfit.
  intros (Hg & Hh & Hd & Hi) Ha Hu. destruct (index_account_spec h g l a Hg Hh Ha Hu) as (h' & E & Hg' & Hh').
  pose proof (Hi a Ha) as Hia. eexists h', _, _. split; [exact E |]. split; [split; [exact Hg' | split; [exact Hh' |]] |].
  all: destruct (s_indexed (g a)) eqn:Eg.
  - split; [done |]. intros b Hb. unfold upd. destruct (decide (a = b)) as [<-|Hne]; [| by apply Hi].
    cbn. split; [done |]. intros _. by apply Hia.
  - assert (Hna : a ∉ l) by (intros Hin; apply Hia in Hin; done). split.
    + apply NoDup_app. split_and!; [done | | by apply NoDup_singleton].
      intros b Hb ->%list_elem_of_singleton. done.
    + intros b Hb. rewrite elem_of_app, list_elem_of_singleton. unfold upd.
      destruct (decide (a = b)) as [<-|Hne]; cbn; [by split; auto |]. rewrite <- (Hi b Hb). split; [intros [Hin|Heq]; [done | by destruct Hne] | by left].
  - split; [| lia]. intros b. split; [by left |]. intros [Hb| ->]; [done | by apply Hia].
  - split; [| rewrite length_app; cbn; lia]. intros b. by rewrite elem_of_app, list_elem_of_singleton.
Qed.

Lemma index_many l0 : Forall is_h160 l0 -> forall h g l, indexed_as h g l -> len l + len l0 < 2 ^ 64 ->
  exists h' g' l', foldr (fun a k => index_account a (mkIndexable INDEX_PATH) ;;; k) (comp_ret tt) l0 h = Ret tt h' /\
    indexed_as h' g' l' /\ (forall b, b ∈ l' <-> b ∈ l \/ b ∈ l0) /\ len l' <= len l + len l0.
Proof using HLL Hfit.
  induction 1 as [|a l0 Ha _ IH]; intros h g l Hl Hlen; cbn [foldr].
  - exists h, g, l. split_and!; [done | done | | cbn; lia]. intros b. rewrite elem_of_nil. tauto.
  - cbn [length] in Hlen. destruct (index_one h g l a Hl Ha) as (h1 & g1 & l1 & E1 & H1 & M1 & L1); [unfold in_u; lia |].
    destruct (IH h1 g1 l1 H1 ltac:(lia)) as (h2 & g2 & l2 & E2 & H2 & M2 & L2).
    exists h2, g2, l2. unfold comp_bind. rewrite E1. split_and!; [exact E2 | done | | cbn [length]; lia].
    intros b. rewrite M2, M1, elem_of_cons. tauto.
Qed.

Lemma index_receipt r h (k : KM (H := H) unit) : (index_new_accounts (mkIndexable INDEX_PATH) (r_caller r) (r_to r) (r_new r) ;;; k) h =
  foldr (fun a k => index_account a (mkIndexable INDEX_PATH) ;;; k) k (mentioned r) h.
Proof.
  unfold index_new_accounts, mentioned, comp_bind, comp_ret. cbn [foldr].
  destruct (index_account (r_caller r) _ h) as [? h1| |]; [| done | done].
  destruct (r_to r) as [t|], (r_new r) as [n|]; cbn; try done;
    by destruct (index_account t _ h1) as [[] h2| |].
Qed.

Lemma index_all_fold rs h : index_all rs h =
  foldr (fun a k => index_account a (mkIndexable INDEX_PATH) ;;; k) (comp_ret tt) (flat_map mentioned rs) h.
Proof.
  revert h. induction rs as [|r rs IH]; intros h; [done |]. cbn [index_all flat_map].
  rewrite index_receipt, foldr_app. revert h. generalize (mentioned r) as l. intros l.
  induction l as [|a l IHl]; intros h; cbn [foldr]; [apply IH |]. unfold comp_bind.
  destruct (index_account a _ h); [apply IHl | done | done].
Qed.

End Checks.

End EvmApply.
Export EvmApply.
