(* ===== verification/EvmGasPrice.v ===== *)
(** The price of gas in response to load ([src/etherlink/kernel_evm/kernel/src/gas_price.rs]).

    A float is the number of its 64 bits.  The crate [softfloat] is not part of the sources:
    [SoftFloat] is the product, the exponential and the constant [ALPHA] it reads from a
    literal. *)

From Stdlib Require Import String Ascii.
From stdpp Require Import strings.
From S2P Require Import Prelude SdkPath SdkStore SdkHost SdkRuntime SdkMock SdkStorage EvmIndexable EvmRlp EvmLinkedList EvmAccount EvmStorage EvmFees.

Open Scope Z_scope.

Module EvmGasPrice.

Class SoftFloat := { f64_mul : Z -> Z -> Z; f64_exp : Z -> Z; ALPHA : Z }.

Definition ERC20_TICKS : Z := 40000000.
Definition SPEED_LIMIT : Z := 50 * ERC20_TICKS.
Definition TOLERANCE : Z := 10 * SPEED_LIMIT.

(** Saturating operations on [u64]. *)
Definition sat_sub (a b : Z) : Z := Z.max 0 (a - b).
Definition sat_mul (a b : Z) : Z := Z.min (2 ^ 64 - 1) (a * b).
Definition sat_add (a b : Z) : Z := Z.min (2 ^ 64 - 1) (a + b).

(** [Timestamp::as_u64], of a signed number. *)
Definition timestamp_as_u64 (t : Z) : Z := wrap 64 t.

(** ** Conversions of floats *)
Definition leading_zeros (i : Z) : Z := 63 - Z.log2 i.

Definition shl (a n : Z) : Z := wrap 64 (Z.shiftl a n).

Definition u64_to_f64_bits (i : Z) : Z :=
  if i =? 0 then 0
  else
    let n := leading_zeros i in
    let a := Z.shiftr (shl i n) 11 in
    let b := shl (shl i n) 53 in
    let m := a + Z.shiftr (b - Z.land (Z.shiftr b 63) (wrap 64 (Z.lnot a))) 63 in
    let e := 1085 - n in
    shl e 52 + m.

Definition f64_to_u64 (fbits : Z) : Z :=
  if fbits <? Z.shiftl 1023 52 then 0
  else if fbits <? Z.shiftl 1087 52 then
    let m := Z.lor (Z.shiftl 1 63) (shl fbits 11) in
    let s := 1086 - Z.shiftr fbits 52 in
    Z.shiftr m s
  else if fbits <=? Z.shiftl 2047 52 then 2 ^ 64 - 1
  else 0.

Section Price.
Context {SF : SoftFloat}.

Definition price_from_tick_backlog (backlog minimum : Z) : Z :=
  if backlog <=? TOLERANCE then minimum
  else
    let min := u64_to_f64_bits minimum in
    let price := f64_mul min (f64_exp (f64_mul ALPHA (u64_to_f64_bits (backlog - TOLERANCE)))) in
    let price := f64_to_u64 price in
    if price <? minimum then minimum else price.

Context {H : Type} {R : Runtime H}.

Definition backlog_with_time_elapsed (extra_ticks current_timestamp last_timestamp : Z) : KM (H := H) Z :=
  let diff := sat_mul (sat_sub current_timestamp last_timestamp) SPEED_LIMIT in
  let! backlog := unwrap_or read_tick_backlog 0 in
  comp_ret (sat_add (sat_sub backlog diff) extra_ticks).

(** [base_fee_per_gas]: [p.as_u64()] panics when the stored minimum does not fit. *)
Definition compute_base_fee_per_gas (timestamp : Z) : KM (H := H) Z :=
  let timestamp := timestamp_as_u64 timestamp in
  let! last_timestamp := unwrap_or read_tick_backlog_timestamp timestamp in
  let! backlog := backlog_with_time_elapsed 0 timestamp last_timestamp in
  fun h =>
    match read_minimum_base_fee_per_gas h with
    | Panic => Panic
    | Ret p h => or_panic (as_u64 p) (fun minimum => comp_ret (price_from_tick_backlog backlog minimum)) h
    | Throw _ h => Ret (price_from_tick_backlog backlog MINIMUM_BASE_FEE_PER_GAS) h
    end.

(** [.ok()]. *)
Definition ok {A} (c : KM (H := H) A) : KM (H := H) (option A) :=
  fun h => match c h with Ret a h => Ret (Some a) h | Throw _ h => Ret None h | Panic => Panic end.

Definition update_tick_backlog (ticks_in_block timestamp : Z) : KM (H := H) unit :=
  let timestamp := timestamp_as_u64 timestamp in
  let! last_timestamp_opt := ok read_tick_backlog_timestamp in
  let last_timestamp := default timestamp last_timestamp_opt in
  (if bool_decide (last_timestamp_opt = None) || (last_timestamp <? timestamp)
   then store_tick_backlog_timestamp timestamp else comp_ret tt) ;;;
  (let! backlog := backlog_with_time_elapsed ticks_in_block timestamp last_timestamp in
   store_tick_backlog backlog).

(** [register_block]: the length of the queue of the block, its ticks and its timestamp; the
    error is the bail. *)
Definition register_block (queue_length estimated_ticks_in_block timestamp : Z)
    : comp H (option KernelError) unit :=
  if 0 <? queue_length then comp_throw None
  else fun h =>
    match update_tick_backlog estimated_ticks_in_block timestamp h with
    | Ret a h => Ret a h
    | Throw e h => Throw (Some e) h
    | Panic => Panic
    end.

Definition store_new_base_fee_per_gas (gas_price : Z) (constants : BlockFees) : KM (H := H) BlockFees :=
  store_base_fee_per_gas gas_price ;;; comp_ret (set_base_fee_per_gas constants gas_price).

End Price.

(** ** Numbers below [2 ^ 53] are exact *)
Lemma leading_shift i : 0 < i < 2 ^ 64 -> 0 <= leading_zeros i <= 63 /\ 2 ^ 63 <= i * 2 ^ leading_zeros i < 2 ^ 64.
Proof.
  intros Hi. unfold leading_zeros. destruct (Z.log2_spec i ltac:(lia)) as [Hl Hu].
  assert (Hb : 0 <= Z.log2 i <= 63) by (split; [apply Z.log2_nonneg | apply Z.lt_succ_r, Z.log2_lt_pow2; lia]).
  split; [lia |]. set (k := Z.log2 i) in *.
  assert (E : 2 ^ k * 2 ^ (63 - k) = 2 ^ 63) by (rewrite <- Z.pow_add_r by lia; f_equal; lia).
  assert (0 < 2 ^ (63 - k)) by (apply Z.pow_pos_nonneg; lia). rewrite Z.pow_succ_r in Hu by lia. nia.
Qed.

Lemma shl_small a n : 0 <= a -> 0 <= n -> a * 2 ^ n < 2 ^ 64 -> shl a n = a * 2 ^ n.
Proof.
  intros Ha Hn Hs. unfold shl. rewrite Z.shiftl_mul_pow2 by lia. apply wrap_small.
  unfold in_u. assert (0 < 2 ^ n) by (apply Z.pow_pos_nonneg; lia). nia.
Qed.

(** The encoding of an exact number: its exponent, and its bits from the first one on. *)
Lemma u64_to_f64_bits_exact i : 0 < i < 2 ^ 53 ->
  let n := leading_zeros i in
  11 <= n <= 63 /\ 2 ^ 52 <= i * 2 ^ (n - 11) < 2 ^ 53 /\
  u64_to_f64_bits i = (1085 - n) * 2 ^ 52 + i * 2 ^ (n - 11).
Proof.
  intros Hi n. destruct (leading_shift i ltac:(lia)) as [Hn Hs]. fold n in Hn, Hs.
  assert (Hn11 : 11 <= n).
  { unfold n, leading_zeros. assert (Z.log2 i < 53) by (apply Z.log2_lt_pow2; lia). lia. }
  assert (E11 : 2 ^ n = 2 ^ (n - 11) * 2 ^ 11) by (rewrite <- Z.pow_add_r by lia; f_equal; lia).
  assert (Hm : 2 ^ 52 <= i * 2 ^ (n - 11) < 2 ^ 53) by (rewrite E11 in Hs; lia).
  split_and!; [lia | lia | lia | lia |]. unfold u64_to_f64_bits. fold n.
  destruct (Z.eqb_spec i 0); [lia |]. rewrite (shl_small i n) by lia.
  set (m := i * 2 ^ (n - 11)) in *. replace (i * 2 ^ n) with (m * 2 ^ 11) by (unfold m; rewrite E11; lia).
  assert (Ea : Z.shiftr (m * 2 ^ 11) 11 = m) by (rewrite Z.shiftr_div_pow2 by lia; apply Z.div_mul; lia).
  assert (Eb : shl (m * 2 ^ 11) 53 = 0).
  { unfold shl. rewrite Z.shiftl_mul_pow2 by lia. unfold wrap.
    replace (m * 2 ^ 11 * 2 ^ 53) with (m * 2 ^ 64) by lia. apply Z.mod_mul. lia. }
  rewrite Ea, Eb. change (Z.shiftr 0 63) with 0. rewrite Z.land_0_l. change (Z.shiftr (0 - 0) 63) with 0.
  rewrite shl_small by lia. lia.
Qed.

Lemma lor_high q low : 0 <= low < 2 ^ 63 -> Z.lor (2 ^ 63) ((q * 2 ^ 63 + low) mod 2 ^ 64) = 2 ^ 63 + low.
Proof.
  intros Hl. assert (Hbit : forall k, 63 <= k -> Z.testbit low k = false).
  { intros k Hk. rewrite <- (Z.mod_small low (2 ^ 63)) by done. apply Z.mod_pow2_bits_high. lia. }
  assert (Hsum : 2 ^ 63 + low = Z.lor (2 ^ 63) low).
  { assert (Hland : Z.land (2 ^ 63) low = 0).
    { apply Z.bits_inj'. intros k Hk. rewrite Z.land_spec, Z.bits_0, Z.pow2_bits_eqb by lia.
      destruct (Z.eqb_spec 63 k) as [<-|]; [by rewrite Hbit | done]. }
    by rewrite Z.add_nocarry_lxor, Z.lxor_lor. }
  rewrite Hsum. apply Z.bits_inj'. intros k Hk. rewrite !Z.lor_spec, Z.pow2_bits_eqb by lia.
  destruct (Z.eqb_spec 63 k) as [<-|Hne]; [done |]. cbn [orb].
  destruct (decide (k < 63)) as [Hlt|Hge].
  - rewrite Z.mod_pow2_bits_low by lia. rewrite <- (Z.mod_pow2_bits_low _ 63) by lia.
    by rewrite Z.add_comm, Z.mod_add, Z.mod_small by lia.
  - rewrite Z.mod_pow2_bits_high by lia. by rewrite Hbit by lia.
Qed.

(** The conversions between integers and floats of the price are exact on the numbers a
    float holds exactly, those below two to the power 53: the minimal price of one gwei is one
    of them, so that without load beyond the tolerance no price is lost in a conversion. *)
Theorem float_conversions_are_exact i : 0 <= i < 2 ^ 53 -> f64_to_u64 (u64_to_f64_bits i) = i.
Proof.
  intros Hi. destruct (decide (i = 0)) as [->|Hne]; [done |].
  destruct (u64_to_f64_bits_exact i ltac:(lia)) as (Hn & Hm & ->). set (n := leading_zeros i) in *.
  set (m := i * 2 ^ (n - 11)) in *. set (f := (1085 - n) * 2 ^ 52 + m).
  assert (Ef : f = (1086 - n) * 2 ^ 52 + (m - 2 ^ 52)) by (unfold f; lia).
  unfold f64_to_u64. rewrite !Z.shiftl_mul_pow2 by lia.
  destruct (Z.ltb_spec f (1023 * 2 ^ 52)); [lia |]. destruct (Z.ltb_spec f (1087 * 2 ^ 52)); [| lia].
  assert (Es : Z.shiftr f 52 = 1086 - n).
  { rewrite Z.shiftr_div_pow2 by lia. symmetry. apply (Z.div_unique_pos _ _ _ (m - 2 ^ 52)); lia. }
  rewrite Es. replace (1086 - (1086 - n)) with n by lia.
  assert (El : Z.lor (1 * 2 ^ 63) (shl f 11) = m * 2 ^ 11).
  { unfold shl. rewrite Z.shiftl_mul_pow2 by lia. unfold wrap. set (low := (m - 2 ^ 52) * 2 ^ 11).
    assert (Hlow : 0 <= low < 2 ^ 63) by (unfold low; lia).
    replace (f * 2 ^ 11) with ((1086 - n) * 2 ^ 63 + low) by (unfold low; rewrite Ef; lia).
    rewrite Z.mul_1_l, lor_high by done. unfold low. lia. }
  rewrite El. rewrite Z.shiftr_div_pow2 by lia. unfold m.
  replace (i * 2 ^ (n - 11) * 2 ^ 11) with (i * 2 ^ n).
  - apply Z.div_mul. assert (0 < 2 ^ n) by (apply Z.pow_pos_nonneg; lia). lia.
  - replace n with ((n - 11) + 11) at 1 by lia. rewrite Z.pow_add_r by lia. lia.
Qed.

Lemma float_conversions_are_exact_witness : f64_to_u64 (u64_to_f64_bits MINIMUM_BASE_FEE_PER_GAS) = MINIMUM_BASE_FEE_PER_GAS.
Proof. apply float_conversions_are_exact. vm_compute. split; [discriminate | reflexivity]. Defined.

(** ** The price is at least the minimum *)
Lemma price_at_least_minimum {SF : SoftFloat} backlog minimum : minimum <= price_from_tick_backlog backlog minimum.
Proof.
  unfold price_from_tick_backlog. destruct (backlog <=? TOLERANCE); [lia |].
  match goal with |- context [?p <? minimum] => destruct (Z.ltb_spec p minimum) end; lia.
Qed.

Lemma price_without_load {SF : SoftFloat} backlog minimum : backlog <= TOLERANCE ->
  price_from_tick_backlog backlog minimum = minimum.
Proof. intros Hb. unfold price_from_tick_backlog. apply Z.leb_le in Hb. by rewrite Hb. Qed.

(** ** The backlog in the storage *)
Definition FEES : list bytes := [ascii_bytes "evm"; ascii_bytes "world_state"; ascii_bytes "fees"].
Definition BACKLOG : list bytes := FEES ++ [ascii_bytes "backlog"].
Definition LAST : list bytes := FEES ++ [ascii_bytes "last_timestamp"].
Definition MINIMUM : list bytes := FEES ++ [ascii_bytes "minimum_base_fee_per_gas"].

Lemma backlog_is_path : is_path TICK_BACKLOG_PATH BACKLOG.
Proof. closed_path. Qed.

Lemma last_is_path : is_path TICK_BACKLOG_TIMESTAMP_PATH LAST.
Proof. closed_path. Qed.

Lemma minimum_is_path : is_path EVM_MINIMUM_BASE_FEE_PER_GAS MINIMUM.
Proof. closed_path. Qed.

Section Backlog.
Context {SF : SoftFloat} {H : Type} {R : Runtime H} {L : RuntimeLaws H}.
Context (Hfit : 64 <= limit (H := H)).
Implicit Types (h : H).

(** A number of eight bytes, or nothing. *)
Definition word (o : option Z) : option bytes := le_bytes 8 <$> o.

Lemma read_word h p ps o : is_path p ps -> len p <= limit -> slot (view h) ps (word o) ->
  (forall z, o = Some z -> in_u 64 z) ->
  k_read_u64 p h = match o with Some z => Ret z h | None => Throw (runtime_error (HostErr StoreNotAValue)) h end.
Proof.
  intros Hp Hl Hs Hu. unfold k_read_u64, comp_bind, kread.
  rewrite (law_read_slice h p ps 0 _ Hp Hl) by (done || by rewrite length_replicate).
  unfold slot in Hs. unfold value_at. rewrite Hs. destruct o as [z|]; cbn [word fmap option_fmap option_map value plain node_default]; [| done].
  rewrite length_le_bytes. change (Z.of_nat 8 <? 0) with false. cbv iota zeta.
  rewrite drop_0, length_replicate, take_ge by (by rewrite length_le_bytes).
  unfold comp_ret, fill. cbn [snd]. rewrite length_le_bytes, drop_ge, app_nil_r by done.
  rewrite le_value_bytes. by rewrite wrap_small by (by apply Hu).
Qed.

Lemma write_word h p ps o z : is_path p ps -> len p <= limit -> slot (view h) ps (word o) ->
  exists h', write_u64 p z h = Ret tt h' /\ slot (view h') ps (word (Some z)) /\
    forall q, diverge ps q -> subtree (view h') q = subtree (view h) q.
Proof.
  intros Hp Hl Hs. destruct (law_write_all h p ps (le_bytes 8 z) Hp Hl) as (h' & E & Hv). exists h'.
  unfold write_u64, kruntime. rewrite E. split_and!; [done | |].
  - unfold slot in *. rewrite Hv. apply subtree_set_plain. rewrite Hs. destruct o; cbn; eauto.
  - intros q Hq. rewrite Hv. by apply subtree_set_diverge.
Qed.

(** The backlog and the time of the last block, if there are any, and the minimal price. *)
Record priced h (b t : option Z) (m : Z) : Prop := {
  priced_backlog : slot (view h) BACKLOG (word b);
  priced_last : slot (view h) LAST (word t);
  priced_range z : b = Some z \/ t = Some z -> in_u 64 z;
  priced_minimum : (m = MINIMUM_BASE_FEE_PER_GAS /\ slot (view h) MINIMUM None) \/
                   (in_u 64 m /\ slot (view h) MINIMUM (Some (le_bytes 32 m)))
}.

Lemma path_fits (p : Path) : len p <= 64 -> len p <= limit (H := H).
Proof using Hfit. lia. Qed.

Lemma read_minimum h b t m : priced h b t m ->
  (read_minimum_base_fee_per_gas h = Ret m h /\ in_u 64 m) \/
  (exists e, read_minimum_base_fee_per_gas h = Throw e h) /\ m = MINIMUM_BASE_FEE_PER_GAS.
Proof using Hfit.
  intros [_ _ _ Hm]. unfold read_minimum_base_fee_per_gas, k_read_u256, comp_bind, kread.
  rewrite (law_read h _ _ 0 32 minimum_is_path (path_fits EVM_MINIMUM_BASE_FEE_PER_GAS ltac:(done))) by lia.
  unfold value_at. destruct Hm as [[-> Hs]|[Hu Hs]]; unfold slot in Hs; rewrite Hs; cbn [value plain node_default].
  - right. eauto.
  - left. split; [| done]. rewrite length_le_bytes. change (Z.of_nat 32 <? 0) with false. rewrite drop_0.
    change (Z.to_nat (Z.min MAX_FILE_CHUNK_SIZE 32)) with 32%nat. rewrite take_ge by (by rewrite length_le_bytes).
    unfold comp_ret. rewrite le_value_bytes. rewrite wrap_small; [done |]. unfold in_u in *.
    change (8 * Z.of_nat 32) with 256. lia.
Qed.

Lemma read_last h b t m : priced h b t m ->
  read_tick_backlog_timestamp h =
  match t with Some z => Ret z h | None => Throw (runtime_error (HostErr StoreNotAValue)) h end.
Proof using Hfit.
  intros [_ Ht Hr _]. apply (read_word h _ _ _ last_is_path (path_fits TICK_BACKLOG_TIMESTAMP_PATH ltac:(done)) Ht). auto.
Qed.

(** What is left of a backlog after some time, with the ticks of a block. *)
Definition elapse (b ticks now last : Z) : Z := sat_add (sat_sub b (sat_mul (sat_sub now last) SPEED_LIMIT)) ticks.

Lemma elapse_range b ticks now last : in_u 64 b -> in_u 64 ticks -> in_u 64 (elapse b ticks now last).
Proof. unfold in_u, elapse, sat_add, sat_sub, sat_mul. lia. Qed.

Lemma read_backlog h b t m ticks now last : priced h b t m ->
  backlog_with_time_elapsed ticks now last h = Ret (elapse (default 0 b) ticks now last) h.
Proof using Hfit.
  intros [Hb _ Hr _]. unfold backlog_with_time_elapsed, comp_bind, unwrap_or, read_tick_backlog.
  rewrite (read_word h _ _ _ backlog_is_path (path_fits TICK_BACKLOG_PATH ltac:(done)) Hb) by auto. by destruct b.
Qed.

Lemma store_last h b t m now : priced h b t m -> in_u 64 now ->
  exists h', store_tick_backlog_timestamp now h = Ret tt h' /\ priced h' b (Some now) m.
Proof using Hfit.
  intros [Hb Ht Hr Hm] Hn.
  destruct (write_word h _ _ _ now last_is_path (path_fits TICK_BACKLOG_TIMESTAMP_PATH ltac:(done)) Ht) as (h' & E & S & F).
  exists h'. split; [exact E |]. split; unfold slot in *; try (rewrite F by (apply diverge_snoc; discriminate)); try done.
  intros z [->|[= <-]]; auto.
Qed.

Lemma store_backlog h b t m z : priced h b t m -> in_u 64 z ->
  exists h', store_tick_backlog z h = Ret tt h' /\ priced h' (Some z) t m.
Proof using Hfit.
  intros [Hb Ht Hr Hm] Hn.
  destruct (write_word h _ _ _ z backlog_is_path (path_fits TICK_BACKLOG_PATH ltac:(done)) Hb) as (h' & E & S & F).
  exists h'. split; [exact E |]. split; unfold slot in *; try (rewrite F by (apply diverge_snoc; discriminate)); try done.
  intros z' [[= <-]| ->]; auto.
Qed.

(** One block. *)
Lemma update_spec h b t m ticks now : priced h b t m -> in_u 64 ticks -> in_u 64 now ->
  exists h', update_tick_backlog ticks now h = Ret tt h' /\
    priced h' (Some (elapse (default 0 b) ticks now (default now t))) (Some (Z.max now (default now t))) m.
Proof using Hfit.
  intros Hp Hti Hno. unfold update_tick_backlog, timestamp_as_u64. rewrite (wrap_small 64 now) by done.
  assert (Hb : in_u 64 (default 0 b)) by (destruct b; cbn; [by apply (priced_range _ _ _ _ Hp); left | done]).
  assert (Hlast : exists h1, (if bool_decide (t = None) || (default now t <? now)
      then store_tick_backlog_timestamp now else comp_ret tt) h = Ret tt h1 /\ priced h1 b (Some (Z.max now (default now t))) m).
  { destruct (store_last h b t m now Hp Hno) as (h1 & E1 & Hp1). destruct t as [t|]; cbn [from_option id].
    - rewrite bool_decide_false by done. cbn [orb]. destruct (Z.ltb_spec t now).
      + exists h1. split; [done |]. by rewrite Z.max_l by lia.
      + exists h. split; [done |]. by rewrite Z.max_r by lia.
    - exists h1. rewrite bool_decide_true by done. split; [done |]. by rewrite Z.max_id. }
  destruct Hlast as (h1 & E1 & Hp1).
  destruct (store_backlog h1 _ _ _ (elapse (default 0 b) ticks now (default now t)) Hp1) as (h2 & E2 & Hp2);
    [by apply elapse_range |].
  exists h2. split; [| exact Hp2]. unfold comp_bind, ok. rewrite (read_last h b t m Hp).
  unfold KM in E1. destruct t as [t|]; cbn [from_option id] in *; rewrite E1, (read_backlog h1 _ _ _ _ _ _ Hp1); exact E2.
Qed.

(** The price at a time. *)
Lemma base_fee_spec h b t m now : priced h b t m -> in_u 64 now ->
  compute_base_fee_per_gas now h = Ret (price_from_tick_backlog (elapse (default 0 b) 0 now (default now t)) m) h.
Proof using Hfit.
  intros Hp Hn. unfold compute_base_fee_per_gas, timestamp_as_u64. rewrite (wrap_small 64 now) by done.
  unfold comp_bind, unwrap_or. rewrite (read_last h b t m Hp).
  destruct t as [t|]; cbn [from_option id]; rewrite (read_backlog h _ _ _ _ _ _ Hp);
    (destruct (read_minimum h _ _ m Hp) as [[-> Hm]|[(e & ->) ->]]; [| done]);
    unfold as_u64; (destruct (Z.ltb_spec m (2 ^ 64)); [done | unfold in_u in Hm; lia]).
Qed.

(** Blocks one after the other: ticks and times. *)
Fixpoint register_all (blocks : list (Z * Z)) : comp H (option KernelError) unit :=
  match blocks with
  | [] => comp_ret tt
  | (ticks, now) :: blocks => register_block 0 ticks now ;;; register_all blocks
  end.

Definition total_ticks (blocks : list (Z * Z)) : Z := foldr (fun x acc => fst x + acc) 0 blocks.
Definition latest (blocks : list (Z * Z)) : Z := foldr (fun x acc => Z.max (snd x) acc) 0 blocks.

Lemma latest_nonneg blocks : 0 <= latest blocks.
Proof. induction blocks as [|x l IH]; [done |]. change (0 <= Z.max (snd x) (latest l)). apply Z.le_trans with (latest l); [done | apply Z.le_max_r]. Qed.

Lemma register_all_spec blocks : Forall (fun x => in_u 64 (fst x) /\ in_u 64 (snd x)) blocks -> forall h b t m,
  priced h b t m ->
  exists h' b' t', register_all blocks h = Ret tt h' /\ priced h' b' t' m /\
    default 0 b' <= default 0 b + total_ticks blocks /\
    default 0 t' <= Z.max (default 0 t) (latest blocks) /\ (is_Some t \/ blocks <> [] -> is_Some t').
Proof using Hfit.
  induction 1 as [|[ticks now] blocks [Hti Hno] _ IH]; intros h b t m Hp; cbn [register_all fst snd] in *.
  - exists h, b, t. split_and!; [done | done | cbn; lia | cbn; lia |]. by intros [?|?].
  - destruct (update_spec h b t m ticks now Hp Hti Hno) as (h1 & E1 & Hp1).
    destruct (IH h1 _ _ m Hp1) as (h2 & b2 & t2 & E2 & Hp2 & Hb2 & Ht2 & Hs2).
    exists h2, b2, t2. unfold comp_bind, register_block. cbn [Z.ltb Z.compare]. rewrite E1, E2.
    change (total_ticks ((ticks, now) :: blocks)) with (ticks + total_ticks blocks).
    change (latest ((ticks, now) :: blocks)) with (Z.max now (latest blocks)).
    cbn [from_option id] in Hb2, Ht2. split_and!; [done | done | | | eauto].
    + assert (0 <= default 0 b) by (destruct b; cbn; [apply (priced_range _ _ _ _ Hp); by left | done]).
      assert (elapse (default 0 b) ticks now (default now t) <= default 0 b + ticks); [| lia].
      assert (0 <= sat_sub now (default now t) * SPEED_LIMIT) by
        (apply Z.mul_nonneg_nonneg; [unfold sat_sub; lia | done]).
      unfold in_u in Hti. unfold elapse, sat_add, sat_mul. unfold sat_sub at 1. lia.
    + unfold in_u in *. destruct t; cbn [from_option id] in *; lia.
Qed.

End Backlog.

End EvmGasPrice.
Export EvmGasPrice.
