(* ===== verification/EvmSamples.v ===== *)
(** Concrete libraries for accounts and transactions, and sample values, on which the code
    runs. *)

From Stdlib Require Import String Ascii.
From stdpp Require Import strings.
From S2P Require Import Prelude SdkPath SdkStore SdkHost SdkRuntime SdkMock SdkStorage EvmIndexable EvmRlp EvmLinkedList EvmConcrete EvmAccount EvmTx EvmStorage EvmInbox EvmFees EvmApply EvmGasPrice.

Open Scope Z_scope.

Module EvmSamples.

(** A hash of 32 bytes. *)
#[export] Instance concrete_keccak : KeccakLib := {
  keccak256 bs := le_bytes 32 (fold_left (fun acc b => Z.land (acc * 257 + b + 1) (Z.ones 60)) bs 1)
}.

#[export] Instance concrete_keccak_laws : KeccakLaws.
Proof.
  constructor; intros bs; cbn [keccak256 concrete_keccak]; [by rewrite length_le_bytes | apply le_bytes_ok].
Qed.

(** Numbers as items. *)
#[export] Instance concrete_scalars : RlpScalars := {
  scalar_out z := RData [z];
  scalar_in w i := match i with RData [z] => if (0 <=? z) && (z <? 2 ^ w) then Some z else None | _ => None end;
  rlp_iter i := match i with RList l => l | RData _ => [] end
}.

#[export] Instance concrete_scalars_laws : RlpScalarsLaws.
Proof.
  constructor.
  - intros w z [H1 H2]. cbn. destruct (Z.leb_spec 0 z), (Z.ltb_spec z (2 ^ w)); done || lia.
  - intros w [[|z [|? ?]]|] z'; cbn; try done.
    destruct (Z.leb_spec 0 z), (Z.ltb_spec z (2 ^ w)); try done. by intros [= <-].
  - done.
  - intros l. by exists 3, (flat_map tagged l ++ [4]).
Qed.

(** Two keys, each of which signs with itself. *)
#[export] Instance concrete_secp : Secp := {
  Scalar := bool;
  SecretKey := bool;
  PublicKey := bool;
  scalar_of_b32 bs := bool_decide (bs = replicate 32 1);
  b32 s := replicate 32 (if s : bool then 1 else 2);
  is_high _ := false;
  hex_decode bs := Some bs;
  parse_secret bs := match bs with [1] => Some true | [2] => Some false | _ => None end;
  parse_recovery p := if (0 <=? p) && (p <? 4) then Some p else None;
  ec_sign _ sk := ((sk, sk), 0);
  ec_recover _ rs _ := Some (fst rs);
  public_key sk := sk;
  serialize pk := 4 :: replicate 64 (if pk : bool then 1 else 2)
}.

#[export] Instance concrete_secp_laws : SecpLaws.
Proof.
  constructor.
  - intros []; cbn [scalar_of_b32 b32 concrete_secp]; [by rewrite bool_decide_true | by rewrite bool_decide_false].
  - by intros [].
  - intros []; by repeat constructor.
  - intros p Hp. cbn. destruct (Z.leb_spec 0 p), (Z.ltb_spec p 4); done || lia.
  - intros m sk. cbn. lia.
  - done.
  - intros m []; split; cbn; discriminate.
  - done.
Qed.

(** Floats whose product is their first factor. *)
#[export] Instance concrete_floats : SoftFloat := { f64_mul a _ := a; f64_exp a := a; ALPHA := 0 }.

(** Addresses, a transaction and its signer. *)
Definition alice : bytes := replicate 20 10.
Definition bob : bytes := replicate 20 11.

Definition sample_tx : EthereumTransactionCommon :=
  mkTx Eip1559 (Some 1337) 0 1 5 30000 (Some bob) 7 [1; 2; 3] [mkAccess bob [replicate 32 9]] None.

Definition signed_tx : EthereumTransactionCommon := with_signature sample_tx (Some (mkSig 0 (replicate 32 1) (replicate 32 1))).

(** The address of the key that signs. *)
Definition signer : bytes := address_of_key (true : PublicKey).

Lemma alice_ok : is_h160 alice.
Proof. split; [done | by repeat constructor]. Qed.

Lemma bob_ok : is_h160 bob.
Proof. split; [done | by repeat constructor]. Qed.

Lemma sample_call tx : tx = sample_tx \/ tx = signed_tx -> call_ok tx.
Proof.
  intros [-> | ->]; unfold call_ok, in_u; cbn [tx_nonce max_fee_per_gas gas_limit to tx_value sample_tx signed_tx with_signature];
    split_and!; done || lia.
Qed.

Lemma sample_signable : signable sample_tx.
Proof.
  split; [apply sample_call; auto |]. cbn [type_ sample_tx signed_tx with_signature]. split; [| unfold in_u; cbn [max_priority_fee_per_gas sample_tx signed_tx with_signature]; lia].
  split_and!; [exists 1337; split; [done | unfold in_u; lia] | | done].
  constructor; [| done]. split; [done | by constructor].
Qed.

Lemma signed_ok_sample : tx_ok signed_tx.
Proof.
  split; [apply sample_call; auto |]. cbn [type_ sample_tx signed_tx with_signature]. split; [| unfold in_u; cbn [max_priority_fee_per_gas sample_tx signed_tx with_signature]; lia].
  split_and!; [exists 1337; split; [done | unfold in_u; lia] | constructor; [split; [done | by constructor] | done] |].
  unfold sig_ok, in_u. cbn [tx_signature signed_tx with_signature sig_v sig_r sig_s].
  split_and!; [lia | lia | done | done | discriminate | discriminate].
Qed.

End EvmSamples.
Export EvmSamples.
