(* ===== verification/EvmLedgerProps.v ===== *)
(** What the accounts, the fees and the price of gas of the Etherlink kernel guarantee. *)

From Stdlib Require Import String Ascii.
From stdpp Require Import strings.
From S2P Require Import Prelude SdkPath SdkStore SdkHost SdkRuntime SdkMock SdkStorage EvmIndexable EvmRlp EvmLinkedList EvmConcrete EvmAccount EvmTx EvmStorage EvmInbox EvmChunks EvmFees EvmApply EvmGasPrice EvmSamples.

Open Scope Z_scope.

Module EvmLedgerProps.

Section Accounts.
Context {H : Type} {R : Runtime H} {L : RuntimeLaws H}.
Context {HL : HexLib} {HLL : HexLaws} {KL : KeccakLib} {KLL : KeccakLaws}.
Context (Hfit : 143 <= limit (H := H)).
Implicit Types (h : H) (g : bytes -> AccountState).

(** C5: from a storage without accounts, any sequence of operations on accounts (reads and
    writes of nonces, balances, codes, words of contract storage and index marks, at any
    addresses) succeeds or fails as it does on a map of records, with the same answers: nonces
    and balances overflow as errors and not by wrapping, a balance that is too low refuses a
    withdrawal, a word set to the default is as if it was never set, and no operation on an
    address is seen at another one.  Nothing outside the accounts changes. *)
Theorem accounts_are_records h os :
  subtree (view h) ACCOUNTS = node_default -> Forall ledger_op_ok os ->
  Forall (fun x => from_address (fst x) = Ok (located EVM_ACCOUNTS_PATH (fst x))) os /\
  exists h', ledger_exec EVM_ACCOUNTS_PATH os h = Some (fst (ledger_run os (fun _ => empty_account)), h') /\
    outside ACCOUNTS h h'.
Proof using All.
  intros He Hos. split.
  - eapply Forall_impl; [exact Hos |]. intros [a o] [Ha _]. by apply (from_address_located Hfit).
  - destruct (ledger_refines _ _ accounts_is_path (base_fits Hfit) os h _ (ledger_empty ACCOUNTS h He) Hos)
      as (h' & E & _ & F). by exists h'.
Qed.

(** C17: from an index and accounts that agree, indexing the accounts that any sequence of
    receipts mentions (callers, recipients, created contracts) succeeds, and the index is then
    a list without duplicates of exactly the accounts that were indexed before or are
    mentioned; it still agrees with the marks of the accounts. *)
Theorem accounts_are_indexed_once h g l rs :
  indexed_as h g l -> Forall (fun r => Forall is_h160 (mentioned r)) rs ->
  len l + len (flat_map mentioned rs) < 2 ^ 64 ->
  init_account_index = Ok (mkIndexable INDEX_PATH) /\
  exists h' g' l', index_all rs h = Ret tt h' /\ indexed_as h' g' l' /\ NoDup l' /\
    (forall a, a ∈ l' <-> a ∈ l \/ exists r, r ∈ rs /\ a ∈ mentioned r) /\
    indexable_length (mkIndexable INDEX_PATH) h' = Ok (len l').
Proof using HLL Hfit.
  intros Hi Hrs Hlen. split; [apply init_account_index_ok |].
  assert (Hall : Forall is_h160 (flat_map mentioned rs)).
  { clear Hlen. induction Hrs as [|r rs Hr _ IH]; cbn [flat_map]; [done |]. by apply Forall_app. }
  destruct (index_many Hfit _ Hall h g l Hi Hlen) as (h' & g' & l' & E & Hi' & Hm & Hl').
  exists h', g', l'. rewrite index_all_fold, E. pose proof Hi' as (_ & Hh' & Hd & _). split_and!; [done | done | done | |].
  - intros a. rewrite Hm. assert (Hf : a ∈ flat_map mentioned rs <-> exists r, r ∈ rs /\ a ∈ mentioned r).
    { rewrite list_elem_of_In, in_flat_map. split; intros (r & H1 & H2); exists r;
        [by rewrite !list_elem_of_In | by apply list_elem_of_In in H1, H2]. }
    by rewrite Hf.
  - apply (indexable_length_spec _ _ index_is_path (index_fits Hfit) h' l' Hh'). unfold in_u. lia.
Qed.

End Accounts.

(** ** Fees *)

(** The data availability fee of a transaction: delayed transactions pay none. *)
Definition content_of (delayed : bool) (tx : EthereumTransactionCommon) : TransactionContent :=
  if delayed then EthereumDelayed tx else Ethereum tx.

Definition da_of (delayed : bool) (tx : EthereumTransactionCommon) (bf : BlockFees) : Z :=
  if delayed then 0 else da_fee (da_fee_per_byte bf) (tx_data tx) (access_list tx).

(** The fee updates of a transaction whose fees fit. *)
Lemma fee_updates_spec delayed tx bf gas : fits bf gas (da_of delayed tx bf) ->
  let price := base_fee_per_gas bf in
  let used := gas + ceiling (da_of delayed tx bf) price in
  exists f, fee_updates (content_of delayed tx) bf gas = Some f /\
    overall_gas_price f = price /\ overall_gas_used f = used /\
    compensate_sequencer_amount f = da_of delayed tx bf /\
    charge_user_amount f = price * used - gas * price /\
    burn_amount f = price * used - da_of delayed tx bf /\
    da_of delayed tx bf <= price * ceiling (da_of delayed tx bf) price < da_of delayed tx bf + price.
Proof.
  intros Hf price used. pose proof Hf as (Hg & Hd & Hp & Hmax). fold price in Hp, Hmax.
  exists (mkUpdates price used (price * used - da_of delayed tx bf) (price * used - gas * price) (da_of delayed tx bf)).
  destruct (ceiling_spec (da_of delayed tx bf) price Hd Hp) as [Hc _]. split_and!; try done; try lia.
  pose proof (of_gas_and_da_fee_spec bf gas _ Hf) as E. cbn zeta in E. fold price in E.
  rewrite used_is_sum in E by done. fold used in E.
  replace (gas * price + price * used - (da_of delayed tx bf + gas * price)) with (price * used - da_of delayed tx bf) in E by lia.
  destruct delayed; exact E.
Qed.

Lemma fees_in_range bf gas da used : fits bf gas da -> used = gas + ceiling da (base_fee_per_gas bf) ->
  let price := base_fee_per_gas bf in
  in_u 256 (price * used - gas * price) /\ in_u 256 (price * used - da) /\ in_u 256 da /\
  gas * price <= price * used - da < gas * price + price.
Proof.
  intros (Hg & Hd & Hp & Hmax) -> price. fold price in Hp, Hmax |- *.
  destruct (ceiling_spec da price Hd Hp) as [Hc _]. unfold in_u.
  assert (0 <= gas * price) by nia. rewrite Z.mul_add_distr_l. lia.
Qed.

Section Fees.
Context {H : Type} {R : Runtime H} {L : RuntimeLaws H}.
Context {HL : HexLib} {HLL : HexLaws} {KL : KeccakLib} {KLL : KeccakLaws}.
Context {RL : RlpLib} {RS : RlpScalars} {SE : Secp}.
Context (Hfit : 143 <= limit (H := H)).
Implicit Types (h : H) (g : bytes -> AccountState).

Abbreviation book := (ledger ACCOUNTS).

(** C11: the books balance.  For a transaction that used some execution gas, the fee updates
    charge what, with the execution fees the caller already paid, is the gas of the receipt at
    its price, and this is what is burned and what compensates the sequencer; what is burned
    covers the execution and exceeds it by less than the price of one gas.  Applying them when
    the caller cannot pay fails and changes nothing; when it can, the caller loses the charge,
    then the sequencer pool, which may be the caller, gets the data availability fee, or it is
    burned too when there is no pool, and no other account changes.  The price of the block is
    positive and its amounts fit 256 bits ([fits]), and so do the burned fees and the balance
    of the pool. *)
Theorem fees_are_conserved h g b delayed tx bf gas caller :
  book h g -> burned h b -> is_h160 caller -> fits bf gas (da_of delayed tx bf) ->
  exists f, fee_updates (content_of delayed tx) bf gas = Some f /\
    charge_user_amount f + gas * base_fee_per_gas bf = overall_gas_used f * overall_gas_price f /\
    overall_gas_used f * overall_gas_price f = burn_amount f + compensate_sequencer_amount f /\
    gas * base_fee_per_gas bf <= burn_amount f < gas * base_fee_per_gas bf + base_fee_per_gas bf /\
    (s_balance (g caller) < charge_user_amount f ->
       apply f base_storage caller h = Throw (FailedToCharge caller (charge_user_amount f)) h) /\
    (charge_user_amount f <= s_balance (g caller) -> pool_of (subtree (view h) POOL) = None ->
       b + burn_amount f + compensate_sequencer_amount f < 2 ^ 256 ->
       exists h', apply f base_storage caller h = Ret tt h' /\
         book h' (upd g caller (pay (g caller) (charge_user_amount f))) /\
         burned h' (b + burn_amount f + compensate_sequencer_amount f)) /\
    (charge_user_amount f <= s_balance (g caller) -> forall s, pool_of (subtree (view h) POOL) = Some s ->
       let g1 := upd g caller (pay (g caller) (charge_user_amount f)) in
       is_h160 s -> b + burn_amount f < 2 ^ 256 ->
       s_balance (g1 s) + compensate_sequencer_amount f < 2 ^ 256 ->
       exists h', apply f base_storage caller h = Ret tt h' /\
         book h' (upd g1 s (earn (g1 s) (compensate_sequencer_amount f))) /\
         burned h' (b + burn_amount f)).
Proof using HLL KLL Hfit.
  intros Hg Hb Hc Hf. destruct (fee_updates_spec delayed tx bf gas Hf) as (f & E & Ep & Eu & Eco & Ech & Ebu & Hce).
  destruct (fees_in_range bf gas _ _ Hf eq_refl) as (Uch & Ubu & Uco & Hburn). cbn zeta in *.
  rewrite <- Eu in *. rewrite <- Ech in Uch. rewrite <- Ebu in Ubu, Hburn. rewrite <- Eco in Uco, Ebu.
  assert (0 <= b) by (destruct Hb as (o & _ & Hn); destruct Hn as [[? ?] _]; done).
  pose proof (apply_spec Hfit f h g b caller Hg Hb Hc Uch Ubu Uco) as Ha. cbn zeta in Ha.
  exists f. rewrite Ep. split_and!; try done; try lia.
  - intros Hlow. apply Z.ltb_lt in Hlow. by rewrite Hlow in Ha.
  - intros Hpay Hpool Hsum. apply Z.ltb_ge in Hpay. rewrite Hpay, Hpool in Ha. destruct Ha as (h' & Ea & Hg' & Hb').
    exists h'. split_and!; [done | done |]. unfold saturating_add, in_u in *.
    by rewrite !Z.min_r, Z.add_assoc in Hb' by lia.
  - cbv zeta. intros Hpay s Hpool Hs Hsum Hcap. apply Z.ltb_ge in Hpay. rewrite Hpay, Hpool in Ha.
    destruct (Ha Hs) as (h' & Hb' & Hrest).
    apply Z.ltb_lt in Hcap. rewrite Hcap in Hrest. destruct Hrest as [Ea Hg'].
    exists h'. split_and!; [done | done |]. unfold saturating_add, in_u in *. by rewrite Z.min_r in Hb' by lia.
Qed.

Lemma book_balance h g a : book h g -> is_h160 a -> in_u 256 (s_balance (g a)).
Proof. intros Hg Ha. by destruct (Hg a Ha FBalance I) as (o & _ & Hz & _). Qed.

(** The execution gas and the gas for fees are the gas limit. *)
Lemma execution_gas_limit_spec delayed tx bf gl : fits bf (gas_limit tx) (da_of delayed tx bf) ->
  tx_execution_gas_limit tx bf delayed = Some (Ok gl) ->
  0 <= gl /\ gl + ceiling (da_of delayed tx bf) (base_fee_per_gas bf) = gas_limit tx.
Proof.
  intros (Hg & Hd & Hp & Hmax). unfold tx_execution_gas_limit, gas_limit_with_fees.
  assert (0 <= gas_limit tx * base_fee_per_gas bf) by nia. destruct delayed; cbn [da_of] in *.
  - intros [= <-]. split; [lia |]. unfold ceiling. rewrite Z.div_small by lia. lia.
  - unfold gas_for_fees. rewrite cdiv_ceiling by lia.
    destruct (gas_as_u64 _) as [g|] eqn:Eg; [| done]. unfold gas_as_u64 in Eg. destruct (_ <? _); [| done]. injection Eg as <-.
    unfold checked_sub. set (k := ceiling _ _). destruct (Z.leb_spec k (gas_limit tx)) as [Hle|]; [| done]. intros [= <-]. lia.
Qed.

(** What the caller gets of the data availability fee: all of it when it is the pool. *)
Definition returned (c : bytes) (pool : Node) (da : Z) : Z := if bool_decide (pool_of pool = Some c) then da else 0.

(** Charging the fees of a caller that has enough. *)
Lemma charge_fees h g b delayed tx bf gas c : book h g -> burned h b -> is_h160 c -> fits bf gas (da_of delayed tx bf) ->
  let price := base_fee_per_gas bf in
  let used := gas + ceiling (da_of delayed tx bf) price in
  price * used - gas * price <= s_balance (g c) ->
  match pool_of (subtree (view h) POOL) with
  | None => True
  | Some s => is_h160 s /\ (s <> c -> s_balance (g s) + da_of delayed tx bf < 2 ^ 256)
  end ->
  exists f h' g', fee_updates (content_of delayed tx) bf gas = Some f /\ overall_gas_used f = used /\
    apply f base_storage c h = Ret tt h' /\ book h' g' /\
    s_balance (g' c) = s_balance (g c) - (price * used - gas * price) + returned c (subtree (view h) POOL) (da_of delayed tx bf).
Proof using HLL KLL Hfit.
  intros Hg Hb Hc Hf price used Hpay Hpool.
  destruct (fee_updates_spec delayed tx bf gas Hf) as (f & Ef & _ & Eu & Eco & Ech & Ebu & _).
  destruct (fees_in_range bf gas _ _ Hf eq_refl) as (Uch & Ubu & Uco & _). cbn zeta in *. fold price used in Eu, Ech, Ebu, Uch, Ubu.
  pose proof (ceiling_spec (da_of delayed tx bf) price ltac:(apply Hf) ltac:(apply Hf)) as [Hce _].
  unfold returned. rewrite <- Eco in Uco, Hpool, Hce |- *. rewrite <- Ech in Uch, Hpay |- *. rewrite <- Ebu in Ubu.
  pose proof (apply_spec Hfit f h g b c Hg Hb Hc Uch Ubu Uco) as Ha. cbn zeta in Ha.
  apply Z.ltb_ge in Hpay. rewrite Hpay in Ha. destruct (pool_of (subtree (view h) POOL)) as [s|].
  - destruct Hpool as (Hs & Hcap). destruct (Ha Hs) as (h' & _ & Hrest).
    destruct (decide (s = c)) as [->|Hne].
    + assert (Hfee : compensate_sequencer_amount f <= charge_user_amount f)
        by (rewrite Ech; unfold used; rewrite <- Eco, Z.mul_add_distr_l; lia).
      pose proof (book_balance h g c Hg Hc) as Ubal. rewrite upd_eq in Hrest.
      change (s_balance (pay (g c) (charge_user_amount f))) with (s_balance (g c) - charge_user_amount f) in Hrest.
      destruct (Z.ltb_spec (s_balance (g c) - charge_user_amount f + compensate_sequencer_amount f) (2 ^ 256)) as [_|Hbig];
        [| unfold in_u in Ubal; lia]. destruct Hrest as [Ea Hg'].
      eexists f, h', _. split_and!; [done | done | done | exact Hg' |]. by rewrite upd_eq, bool_decide_true.
    + rewrite upd_ne in Hrest by done. specialize (Hcap Hne). apply Z.ltb_lt in Hcap. rewrite Hcap in Hrest.
      destruct Hrest as [Ea Hg']. eexists f, h', _. split_and!; [done | done | done | exact Hg' |].
      rewrite upd_ne, upd_eq, bool_decide_false by congruence. cbn. lia.
  - destruct Ha as (h' & Ea & Hg' & _). eexists f, h', _. split_and!; [done | done | done | exact Hg' |].
    rewrite upd_eq, bool_decide_false by done. cbn. lia.
Qed.

(** C10: a transaction that passes the checks can pay for itself.  Its caller has its nonce, no
    code and the right chain, and can pre-pay the execution gas; after an execution that used
    some of this gas and left the rest of the caller's balance alone, the unused gas is repaid,
    the gas of the receipt is at most the gas limit of the transaction, and the fees are
    charged without failing: in the end the caller has paid exactly the gas of the receipt at
    the price of the block, and got the data availability fee back if it is the sequencer pool
    itself.  The price of the block is positive and its amounts fit 256 bits ([fits]), and so
    does the balance of a pool that gets the fee. *)
Theorem valid_transactions_settle h g delayed tx bc c gl h0 :
  let price := base_fee_per_gas (block_fees bc) in
  book h g -> fits (block_fees bc) (gas_limit tx) (da_of delayed tx (block_fees bc)) ->
  is_valid_ethereum_transaction_common base_storage tx bc price delayed h = Ret (Valid c gl) h0 ->
  h0 = h /\ caller tx = Some (Ok c) /\ s_nonce (g c) = tx_nonce tx /\ s_code (g c) = None /\
  price <= max_fee_per_gas tx /\ (chain_id tx = None \/ chain_id tx = Some (block_chain_id bc)) /\
  exists h1, pre_pay_transactions base_storage c (Some gl) price h = Ret true h1 /\
    book h1 (upd g c (pay (g c) (gl * price))) /\
    forall gas h2 g2 b, 0 <= gas <= gl -> book h2 g2 -> burned h2 b ->
      s_balance (g2 c) = s_balance (g c) - gl * price ->
      match pool_of (subtree (view h2) POOL) with
      | None => True
      | Some s => is_h160 s /\ (s <> c -> s_balance (g2 s) + da_of delayed tx (block_fees bc) < 2 ^ 256)
      end ->
      exists f h3 h4 g4, repay_gas base_storage c (Some (gl - gas)) price h2 = Ret tt h3 /\
        fee_updates (content_of delayed tx) (block_fees bc) gas = Some f /\ overall_gas_used f <= gas_limit tx /\
        apply f base_storage c h3 = Ret tt h4 /\ book h4 g4 /\
        s_balance (g4 c) = s_balance (g c) - overall_gas_used f * price +
          (if bool_decide (pool_of (subtree (view h2) POOL) = Some c) then da_of delayed tx (block_fees bc) else 0).
Proof using HLL KLL Hfit.
  intros price Hg Hf Hv. destruct (valid_inv Hfit h g tx bc price delayed c gl h0 Hg Hv)
    as (-> & Hc & Hcaller & Hchain & Hfee & Hn & Hcode & Hcost & _ & Hlim).
  destruct (execution_gas_limit_spec _ _ _ _ Hf Hlim) as [Hgl Hsum]. pose proof Hf as (Hgas0 & Hd0 & Hp & Hmax).
  fold price in Hsum, Hp, Hmax. pose proof (book_balance h g c Hg Hc) as Ubal.
  set (da := da_of delayed tx (block_fees bc)) in *. destruct (ceiling_spec da price Hd0 Hp) as [Hce Hce0].
  assert (Hprod : gas_limit tx * price = gl * price + price * ceiling da price) by (rewrite <- Hsum; lia).
  assert (Hgp : 0 <= gl * price) by nia.
  assert (Hbal : gas_limit tx * price <= s_balance (g c)) by (unfold saturating_mul in Hcost; lia).
  split_and!; try done. destruct (pre_pay_ok Hfit h g c gl price Hg Hc) as (h1 & E1 & Hg1 & _); [lia | unfold in_u in *; lia |].
  exists h1. split_and!; [done | done |]. intros gas h2 g2 b Hgas Hg2 Hb2 Hs2 Hpool.
  assert (Hle : gas * price <= gl * price) by (apply Z.mul_le_mono_nonneg_r; lia).
  assert (Hgas_p : 0 <= gas * price) by nia.
  destruct (repay_ok Hfit h2 g2 c (gl - gas) price Hg2 Hc) as (h3 & E3 & Hg3 & F3);
    [rewrite Z.mul_sub_distr_r; lia | rewrite Z.mul_sub_distr_r, Hs2; unfold in_u in *; lia | rewrite Hs2; lia |].
  assert (Hfg : fits (block_fees bc) gas da) by (unfold fits; fold price; lia).
  set (g3 := upd g2 c (earn (g2 c) ((gl - gas) * price))) in *.
  assert (Hs3 : s_balance (g3 c) = s_balance (g c) - gas * price).
  { unfold g3. rewrite upd_eq. cbn. rewrite Hs2, Z.mul_sub_distr_r. lia. }
  destruct (charge_fees h3 g3 b delayed tx (block_fees bc) gas c Hg3 (burned_frame h2 h3 b Hb2 F3) Hc Hfg)
    as (f & h4 & g4 & Ef & Eu & Ea & Hg4 & Hs4).
  - fold price da. rewrite Hs3, Z.mul_add_distr_l. lia.
  - rewrite F3 by apply accounts_pool. destruct (pool_of (subtree (view h2) POOL)) as [s|]; [| done].
    destruct Hpool as (Hs & Hcap). split; [done |]. intros Hne. unfold g3. rewrite upd_ne by done. by apply Hcap.
  - fold price da in Eu, Hs4. exists f, h3, h4, g4. split_and!; [done | done | lia | done | done |].
    rewrite Hs4, Hs3, Eu. unfold returned. rewrite (F3 POOL) by apply accounts_pool. lia.
Qed.

End Fees.

(** ** The price of gas *)

(** C18: whatever blocks are registered, the base fee per gas is never below the minimal price,
    and it falls back to it: once the time since the latest block is enough to absorb, at the
    speed limit, the ticks of all the blocks beyond the tolerance, the base fee is the minimal
    price again. *)
Theorem gas_price_returns_to_minimum {SF : SoftFloat} {H : Type} {R : Runtime H} {L : RuntimeLaws H} (h : H) m blocks :
  64 <= limit (H := H) -> priced h None None m ->
  Forall (fun x => in_u 64 (fst x) /\ in_u 64 (snd x)) blocks ->
  exists h', register_all blocks h = Ret tt h' /\
    forall now, in_u 64 now -> exists price, compute_base_fee_per_gas now h' = Ret price h' /\ m <= price /\
      (latest blocks <= now -> total_ticks blocks <= TOLERANCE + (now - latest blocks) * SPEED_LIMIT -> price = m).
Proof.
  intros Hfit Hp Hbs. destruct (register_all_spec Hfit blocks Hbs h None None m Hp) as (h' & b & t & E & Hp' & Hb & Ht & Hs).
  exists h'. split; [done |]. intros now Hn. rewrite (base_fee_spec Hfit h' b t m now Hp' Hn).
  eexists. split_and!; [done | apply price_at_least_minimum |]. intros Hlate Henough. apply price_without_load.
  cbn [from_option id] in Hb, Ht. pose proof (latest_nonneg blocks) as Hl.
  assert (Ub : 0 <= default 0 b < 2 ^ 64) by (destruct b; cbn; [by apply (priced_range _ _ _ _ Hp'); left | done]).
  assert (Hdrain : default 0 b <= TOLERANCE + sat_mul (sat_sub now (default now t)) SPEED_LIMIT).
  { destruct blocks as [|x blocks].
    - assert (0 <= sat_mul (sat_sub now (default now t)) SPEED_LIMIT); [| cbn in Hb; change TOLERANCE with 20000000000; lia].
      unfold sat_mul. apply Z.min_glb; [done |]. apply Z.mul_nonneg_nonneg; [unfold sat_sub; lia | done].
    - destruct Hs as [t' ->]; [by right |]. cbn [from_option id] in *. rewrite Z.max_r in Ht by lia.
      unfold sat_mul, sat_sub. rewrite Z.max_r by lia.
      assert ((now - latest (x :: blocks)) * SPEED_LIMIT <= (now - t') * SPEED_LIMIT) by (apply Z.mul_le_mono_nonneg_r; [done | lia]).
      change TOLERANCE with 20000000000 in *. lia. }
  unfold elapse, sat_add, sat_sub at 1. change TOLERANCE with 20000000000 in *. lia.
Qed.

(** ** Levels *)

(** C37: the kernel keeps, with the timestamp of the last level, statistics from which
    [current_timestamp] adds an average block time to it.  The timestamp is written before the
    difference with the previous one is computed, so that every difference is zero: after any
    sequence of levels the total is zero, and the current timestamp is the last one, without
    any average. *)
Theorem average_block_time_is_zero {H : Type} {R : Runtime H} {L : RuntimeLaws H} (h : H) t ts :
  64 <= limit (H := H) -> levels h None None None -> Forall (in_s 64) (t :: ts) -> len ts < 2 ^ 32 ->
  exists h', store_levels (t :: ts) h = Ret tt h' /\
    read_last_info_per_level_timestamp_stats h' = Ret (1 + len ts, 0) h' /\
    current_timestamp h' = Ret (List.last ts t) h'.
Proof.
  intros Hfit Hl [Ht Hts]%Forall_cons Hlen. cbn [store_levels]. unfold comp_bind at 1.
  destruct (store_level_spec Hfit h None None t Hl Ht) as (h1 & -> & L1); [cbn; lia |]. cbn [from_option id] in L1.
  destruct (store_levels_spec Hfit ts Hts h1 t 1 L1) as (h2 & -> & L2 & U2); [lia | lia | done |].
  assert (Hst : read_last_info_per_level_timestamp_stats h2 = Ret (1 + len ts, 0) h2).
  { apply (read_stats Hfit h2 _ _ _ L2); unfold in_s; lia. }
  exists h2. split_and!; [done | done |]. unfold current_timestamp, comp_bind, unwrap_or.
  rewrite (read_timestamp Hfit h2 _ _ _ L2 U2), Hst. destruct (Z.eqb_spec (1 + len ts) 0); [lia |].
  rewrite Z.quot_0_l by lia. change (i64_checked 0) with (Some 0). cbn [or_panic].
  rewrite Z.add_0_r, i64_checked_in by done. done.
Qed.

(** ** Samples *)
Lemma host_fits : 143 <= limit (H := HostState).
Proof. vm_compute. discriminate. Qed.

Lemma host_fits_short : 64 <= limit (H := HostState).
Proof. vm_compute. discriminate. Qed.

Lemma empty_book : ledger ACCOUNTS (H := HostState) empty_host (fun _ => empty_account).
Proof. apply ledger_empty, subtree_default. Qed.

Definition account_ops : list (bytes * AccountOp) :=
  [(alice, BalanceAdd 5); (bob, Balance); (alice, BalanceRemove 7); (alice, SetStorage (replicate 32 1) (replicate 32 2));
   (bob, GetStorage (replicate 32 1)); (alice, Balance)].

Lemma account_ops_ok : Forall ledger_op_ok account_ops.
Proof.
  assert (Hw : forall b, in_u 8 b -> is_h256 (replicate 32 b)).
  { intros b Hb. split; [apply length_replicate | by apply Forall_replicate]. }
  repeat (constructor; [split; [apply alice_ok || apply bob_ok | cbn [snd account_op_ok]; unfold in_u; try done;
    try (split; apply Hw; done); try (apply Hw; done); try lia] |]). constructor.
Qed.

Lemma accounts_are_records_witness :
  exists h', ledger_exec (H := HostState) EVM_ACCOUNTS_PATH account_ops empty_host =
    Some ([RUnit; RNum 0; RBool false; RUnit; RBytes (replicate 32 0); RNum 5], h').
Proof.
  destruct (accounts_are_records (H := HostState) host_fits empty_host account_ops) as (_ & h' & E & _).
  - apply subtree_default.
  - exact account_ops_ok.
  - exists h'. rewrite E. vm_compute. reflexivity.
Defined.

Definition sample_receipts : list Receipt := [mkReceipt alice (Some bob) None; mkReceipt bob None (Some alice)].

Lemma empty_indexed : indexed_as (H := HostState) empty_host (fun _ => empty_account) [].
Proof.
  split; [exact empty_book |]. split; [| split; [constructor |]].
  - split; [right; split; [reflexivity | apply value_at_default] | done].
  - intros a _. rewrite elem_of_nil. done.
Qed.

Lemma accounts_are_indexed_once_witness :
  exists h' l', index_all (H := HostState) sample_receipts empty_host = Ret tt h' /\ NoDup l' /\ alice ∈ l' /\
    indexable_length (mkIndexable INDEX_PATH) h' = Ok (len l').
Proof.
  destruct (accounts_are_indexed_once (H := HostState) host_fits empty_host (fun _ => empty_account) [] sample_receipts)
    as (_ & h' & g' & l' & E & _ & Hd & Hm & El).
  - exact empty_indexed.
  - repeat (constructor; [repeat (constructor; [apply alice_ok || apply bob_ok |]); constructor |]). constructor.
  - vm_compute. reflexivity.
  - exists h', l'. split; [exact E |]. split; [exact Hd |]. split; [| exact El]. apply Hm. right.
    exists (mkReceipt alice (Some bob) None). split; left.
Defined.

(** A host where an account has a balance. *)
Definition funded (a : bytes) (b : Z) : HostState :=
  match account_exec (SetBalance b) (located EVM_ACCOUNTS_PATH a) empty_host with Some (_, h) => h | None => empty_host end.

Definition funds (a : bytes) (b : Z) : bytes -> AccountState := upd (fun _ => empty_account) a (with_balance empty_account b).

Lemma funded_book a b : is_h160 a -> in_u 256 b ->
  ledger ACCOUNTS (funded a b) (funds a b) /\ outside ACCOUNTS empty_host (funded a b).
Proof.
  intros Ha Hb. destruct (ledger_step _ _ accounts_is_path (base_fits host_fits) empty_host _ a (SetBalance b) empty_book Ha Hb)
    as (h' & E & Hg & Ho). unfold funded. rewrite E. split; [exact Hg | exact Ho].
Qed.

Lemma funded_burned a b : is_h160 a -> in_u 256 b -> burned (funded a b) 0.
Proof.
  intros Ha Hb. apply (burned_frame empty_host); [| by apply funded_book].
  exists None. split; [apply subtree_default | split; [done | by right]].
Qed.

Lemma funded_pool a b : is_h160 a -> in_u 256 b -> pool_of (subtree (view (funded a b)) POOL) = None.
Proof. intros Ha Hb. destruct (funded_book a b Ha Hb) as [_ Ho]. by rewrite Ho by apply accounts_pool. Qed.

Definition sample_fees : BlockFees := mkFees 1 2 3.

Lemma sample_fits gas delayed : 0 <= gas <= 30000 -> fits sample_fees gas (da_of delayed sample_tx sample_fees).
Proof.
  intros Hg. assert (Hda : 0 <= da_of delayed sample_tx sample_fees <= 615) by (destruct delayed; vm_compute; split; discriminate).
  unfold fits, sample_fees in *. cbn [base_fee_per_gas] in *. lia.
Qed.

Lemma fees_are_conserved_witness :
  exists f h', fee_updates (Ethereum sample_tx) sample_fees 21000 = Some f /\ charge_user_amount f = 616 /\
    apply (H := HostState) f base_storage alice (funded alice 1000) = Ret tt h' /\ burned h' 42616.
Proof.
  assert (Hb : in_u 256 1000) by (unfold in_u; lia).
  destruct (fees_are_conserved (H := HostState) host_fits (funded alice 1000) (funds alice 1000) 0 false sample_tx sample_fees 21000 alice)
    as (f & Ef & _ & _ & _ & _ & Hnone & _).
  - apply funded_book; [exact alice_ok | exact Hb].
  - apply funded_burned; [exact alice_ok | exact Hb].
  - exact alice_ok.
  - apply sample_fits. lia.
  - assert (E : Some f = Some (mkUpdates 2 21308 42001 616 615)) by (rewrite <- Ef; vm_compute; reflexivity).
    injection E as ->. destruct Hnone as (h' & Ea & _ & Hb').
    + vm_compute. discriminate.
    + apply funded_pool; [exact alice_ok | exact Hb].
    + vm_compute. reflexivity.
    + exists (mkUpdates 2 21308 42001 616 615), h'. split; [exact Ef |]. split; [reflexivity |]. split; [exact Ea | exact Hb'].
Defined.

Definition sample_constants : BlockConstants := mkConstants 1337 sample_fees.

Lemma signer_ok : is_h160 signer.
Proof. split; [reflexivity | repeat constructor]; unfold in_u; lia || done. Qed.

Lemma sample_valid : is_valid_ethereum_transaction_common (H := HostState) base_storage signed_tx sample_constants 2 false
  (funded signer 200000) = Ret (Valid signer 29692) (funded signer 200000).
Proof. vm_compute. reflexivity. Qed.

Lemma valid_transactions_settle_witness :
  exists h1, pre_pay_transactions (H := HostState) base_storage signer (Some 29692) 2 (funded signer 200000) = Ret true h1 /\
    ledger ACCOUNTS h1 (upd (funds signer 200000) signer (pay (funds signer 200000 signer) 59384)).
Proof.
  destruct (valid_transactions_settle (H := HostState) host_fits (funded signer 200000) (funds signer 200000) false
    signed_tx sample_constants signer 29692 (funded signer 200000)) as (_ & _ & _ & _ & _ & _ & h1 & E1 & Hg1 & _).
  - apply funded_book; [exact signer_ok | unfold in_u; lia].
  - apply (sample_fits 30000 false). lia.
  - exact sample_valid.
  - exists h1. split; [exact E1 | exact Hg1].
Defined.

Lemma empty_priced : priced (H := HostState) empty_host None None MINIMUM_BASE_FEE_PER_GAS.
Proof.
  split; [apply subtree_default | apply subtree_default | by intros z [?|?] |].
  left. split; [reflexivity | apply subtree_default].
Qed.

Lemma gas_price_returns_to_minimum_witness :
  exists h', register_all (H := HostState) [(3 * TOLERANCE, 1000); (7, 1001)] empty_host = Ret tt h' /\
    compute_base_fee_per_gas 2000 h' = Ret MINIMUM_BASE_FEE_PER_GAS h'.
Proof.
  destruct (gas_price_returns_to_minimum (H := HostState) empty_host MINIMUM_BASE_FEE_PER_GAS
    [(3 * TOLERANCE, 1000); (7, 1001)] host_fits_short empty_priced) as (h' & E & Hp).
  - repeat (constructor; [split; split; vm_compute; discriminate || reflexivity |]). constructor.
  - exists h'. split; [exact E |]. destruct (Hp 2000) as (price & Ep & _ & Hm); [unfold in_u; lia |].
    rewrite Ep, Hm; [reflexivity | vm_compute; discriminate | vm_compute; discriminate].
Defined.

Lemma empty_levels : levels (H := HostState) empty_host None None None.
Proof. split; apply subtree_default. Qed.

Lemma average_block_time_is_zero_witness :
  exists h', store_levels (H := HostState) [1000; 1015; 1030] empty_host = Ret tt h' /\
    read_last_info_per_level_timestamp_stats h' = Ret (3, 0) h' /\ current_timestamp h' = Ret 1030 h'.
Proof.
  destruct (average_block_time_is_zero (H := HostState) empty_host 1000 [1015; 1030] host_fits_short empty_levels)
    as (h' & E & Es & Ec).
  - repeat (constructor; [unfold in_s; lia |]). constructor.
  - vm_compute. reflexivity.
  - exists h'. split; [exact E |]. split; [exact Es | exact Ec].
Defined.

End EvmLedgerProps.
Export EvmLedgerProps.
