(* ===== verification/EvmInboxProps.v ===== *)
(** What the inbox of the Etherlink kernel guarantees for transactions: their encodings, their
    signatures, and their delivery in chunks. *)

From Stdlib Require Import String Ascii.
From stdpp Require Import strings.
From S2P Require Import Prelude SdkPath SdkStore SdkHost SdkRuntime SdkMock SdkStorage EvmIndexable EvmRlp EvmLinkedList EvmConcrete EvmAccount EvmTx EvmStorage EvmInbox EvmChunks EvmSamples.

Open Scope Z_scope.

Module EvmInboxProps.

(** ** Encodings *)
Section Encodings.
Context {RL : RlpLib} {RLL : RlpLaws} {RS : RlpScalars} {RSL : RlpScalarsLaws}.

(** C15: the transactions of the inbox, as they are stored in blueprints and in the delayed
    inbox (legacy, EIP-2930 and EIP-1559 transactions, signed or not, delayed or not, and
    deposits), are exactly those that encode to something that decodes back to them: a
    well-formed transaction is encoded, and its encoding decodes to it; a transaction whose
    own encoding decodes to it is well-formed. *)
Theorem inbox_transactions_round_trip t : transaction_ok t <->
  exists i, transaction_out t = Some i /\ rlp_in (rlp_out i) = Some i /\ transaction_in i = Some t.
Proof using RLL RSL.
  split.
  - intros Ht. destruct (transaction_round_trip t Ht) as (i & -> & E). exists i. split_and!; [done | apply rlp_in_out | done].
  - destruct t as [h c]. unfold transaction_ok, transaction_in, decode_tx_hash. intros (i & Ho & _ & E). destruct i as [|[|x [|y [|? ?]]]]; try done.
    destruct (hash_in TRANSACTION_HASH_SIZE x) eqn:Ex; [| done]. destruct (content_in y) eqn:Ey; [| done].
    injection E as -> ->. split; [by eapply hash_in_length | by eapply content_in_ok].
Qed.

Context {KL : KeccakLib} {KLL : KeccakLaws} {SE : Secp} {SEL : SecpLaws}.

(** C16: a transaction that is signed, encoded and sent to the rollup in an external message is
    received as this transaction, and its caller is recovered as the address of the key that
    signed it.  (For a legacy transaction the recovery id of the signature is 0 or 1.) *)
Theorem signed_transactions_recover_their_signer tx string_sk sk tx' address :
  signable tx -> match hex_decode string_sk with Some b => parse_secret b | None => None end = Some sk ->
  (forall mes, type_ tx = Legacy -> message tx = Some mes -> snd (ec_sign mes sk) < 2) ->
  sign_transaction tx string_sk = Some (Ok tx') -> length address = 20%nat ->
  exists bs, to_bytes tx' = Some bs /\
    parse_external (framed address (SIMPLE_TRANSACTION_TAG :: keccak256 bs ++ bs)) address =
      ModeSpecific (SimpleTransaction (mkTransaction (keccak256 bs) (Ethereum tx'))) /\
    caller tx' = Some (Ok (address_of_key (public_key sk))).
Proof using RLL RSL KLL SEL.
  intros Hs Hk Hlow Hsign Ha. destruct (sign_then_caller tx string_sk sk tx' Hs Hk Hlow Hsign) as [Hok Hc].
  destruct (from_to_bytes tx' Hok) as (bs & Eb & E). exists bs. split_and!; [done | | done].
  rewrite parse_framed by done.
  change (proxy_parse_external SIMPLE_TRANSACTION_TAG ?m) with (parse_simple_transaction m).
  unfold parse_simple_transaction, parsable, TRANSACTION_HASH_SIZE.
  rewrite (split_at_app (keccak256 bs)) by apply keccak_length_nat.
  rewrite bool_decide_false by (by intros []). by rewrite E.
Qed.

End Encodings.

(** ** Chunks *)
Section Delivery.
Context {H : Type} {R : Runtime H} {L : RuntimeLaws H}.
Context {RL : RlpLib} {RS : RlpScalars} {HL : HexLib} {HLL : HexLaws} {KL : KeccakLib} {KLL : KeccakLaws}.

(** C7: a transaction too large for one message is announced with the hashes of its chunks and
    sent in chunks.  Whatever the order of the chunks and however often each comes, the
    transaction enters the inbox exactly once, when the last missing chunk comes, and not at
    all when a chunk never comes; once it has, nothing of it is left in the storage, and
    nothing else in the storage changes. *)
Theorem chunked_transactions_are_delivered_once (h : H) address cs tx order inbox :
  let txh := keccak256 (List.concat cs) in
  164 <= limit (H := H) -> length address = 20%nat -> cs <> [] -> len cs + 2 < 2 ^ 16 ->
  (forall i d, cs !! i = Some d ->
     len d <= 2 * MAX_FILE_CHUNK_SIZE /\ ((S i < length cs)%nat -> MAX_SIZE_PER_CHUNK <= len d)) ->
  from_bytes (List.concat cs) = Some tx -> subtree (view h) (ts txh) = node_default ->
  Forall (fun i => i < length cs)%nat order ->
  let complete := forallb (fun i => bool_decide (i ∈ order)) (seq 0 (length cs)) in
  exists h', process address (framed address (announcement txh cs) :: map (message_of txh cs address) order) inbox h =
      Ret (inbox ++ if complete then [mkTransaction txh (Ethereum tx)] else []) h' /\
    (complete = true -> subtree (view h') (ts txh) = node_default) /\
    (forall q, diverge (ts txh) q -> subtree (view h') q = subtree (view h) q).
Proof using HLL KLL.
  intros txh Hfit Ha Hne Hn Hsizes Htx Hempty Horder complete.
  pose proof (keccak_length_nat (List.concat cs)) as Ht. fold txh in Ht.
  destruct (create_spec Hfit txh Ht cs h Hne Hempty) as (h1 & E1 & Hp1 & F1).
  assert (Hnot : (∅ : gmap nat bytes) <> full cs).
  { intros E. apply (f_equal base.size) in E. rewrite full_size, map_size_empty in E. by destruct cs. }
  destruct (chunks_run Hfit txh Ht cs Hn Hsizes address Ha _ _ h1 inbox ∅ (own_suits cs Hsizes ∅ order Horder) Hp1
    (map_empty_subseteq _) Hnot) as (h2 & E2 & Hd2 & F2).
  rewrite own_indices in E2, Hd2. rewrite own_messages in E2. unfold whole in E2. rewrite bool_decide_true, Htx in E2 by done.
  assert (Hc : all_there cs order ∅ = complete).
  { unfold all_there, complete. generalize (seq 0 (length cs)) as l. induction l as [|i l IH]; cbn [forallb]; [done |].
    by rewrite IH, lookup_empty, (bool_decide_false (is_Some None)), orb_false_r by (by intros [? ?]). }
  rewrite Hc in *. exists h2. split_and!; [| done | intros q Hq; by rewrite F2, F1].
  cbn [process]. rewrite parse_announcement by (done || lia). unfold comp_bind, handle_input, comp_bind.
  change (len cs) with (count cs). fold (hashes cs). rewrite E1. exact E2.
Qed.

(** A chunk that took the place of another one: the chunks under their own indices still suit,
    though one of them is ignored. *)
Lemma misplaced_suits cs k d order : (k < length cs)%nat ->
  (forall i d, cs !! i = Some d ->
     len d <= 2 * MAX_FILE_CHUNK_SIZE /\ ((S i < length cs)%nat -> MAX_SIZE_PER_CHUNK <= len d)) ->
  Forall (fun i => i < length cs)%nat order ->
  Forall (suits (<[k := d]> cs) (hashes cs) {[k := d]}) (map (own cs) order).
Proof.
  intros Hk Hsizes Ho. pose proof (own_suits cs Hsizes ∅ order Ho) as Hs. eapply Forall_impl; [exact Hs |].
  intros [i e] (d0 & Hd & [He|[? He]] & Hrest); cbn [fst snd] in *; [| by rewrite lookup_empty in He]. subst e.
  unfold suits. cbn [fst snd]. rewrite length_insert. destruct (decide (k = i)) as [<-|Hne].
  - exists d. rewrite list_lookup_insert_eq, lookup_singleton_eq by done. split_and!; [done | right; eauto | apply Hrest ..].
  - exists d0. rewrite list_lookup_insert_ne by done. split_and!; [done | by left | apply Hrest ..].
Qed.

Lemma all_but_one cs k d order : (forall i, (i < length cs)%nat -> i <> k -> i ∈ order) ->
  all_there (<[k := d]> cs) order {[k := d]} = true.
Proof.
  intros Hall. apply all_there_iff. rewrite length_insert. intros i Hi.
  destruct (decide (k = i)) as [<-|Hne]; [right; rewrite lookup_singleton_eq; eauto | left; by apply Hall].
Qed.

Lemma misplaced_sizes (cs : list bytes) j k d : (forall i d, cs !! i = Some d ->
     len d <= 2 * MAX_FILE_CHUNK_SIZE /\ ((S i < length cs)%nat -> MAX_SIZE_PER_CHUNK <= len d)) ->
  cs !! j = Some d -> (k < length cs)%nat -> ((S k < length cs)%nat -> MAX_SIZE_PER_CHUNK <= len d) ->
  forall i e, <[k := d]> cs !! i = Some e ->
    len e <= 2 * MAX_FILE_CHUNK_SIZE /\ ((S i < length (<[k := d]> cs))%nat -> MAX_SIZE_PER_CHUNK <= len e).
Proof.
  intros Hsizes Hd Hk Hbig i e Hi. rewrite length_insert. destruct (decide (k = i)) as [<-|Hne].
  - rewrite list_lookup_insert_eq in Hi by done. injection Hi as <-. split; [apply (Hsizes j d Hd) | done].
  - rewrite list_lookup_insert_ne in Hi by done. by apply Hsizes.
Qed.

(** The misplaced chunk is stored, or ends the transaction when it has a single chunk. *)
Lemma misplaced_first (h1 : H) (cs : list bytes) j k d : let txh := keccak256 (List.concat cs) in
  164 <= limit (H := H) -> len cs + 2 < 2 ^ 16 -> (forall i d, cs !! i = Some d ->
     len d <= 2 * MAX_FILE_CHUNK_SIZE /\ ((S i < length cs)%nat -> MAX_SIZE_PER_CHUNK <= len d)) ->
  cs !! j = Some d -> (k < length cs)%nat -> ((S k < length cs)%nat -> MAX_SIZE_PER_CHUNK <= len d) ->
  keccak256 (List.concat (<[k := d]> cs)) <> txh -> pending txh h1 (count cs) (hashes cs) ∅ ->
  exists h2, handle_transaction_chunk txh (Z.of_nat k) (keccak256 d) d h1 = Ret None h2 /\
    (forall q, diverge (ts txh) q -> subtree (view h2) q = subtree (view h1) q) /\
    if bool_decide ({[k := d]} = full (<[k := d]> cs)) then subtree (view h2) (ts txh) = node_default
    else pending txh h2 (count (<[k := d]> cs)) (hashes cs) {[k := d]}.
Proof using HLL KLL.
  intros txh Hfit Hn Hsizes Hd Hk Hbig Hother Hp. pose proof (keccak_length_nat (List.concat cs)) as Ht. fold txh in Ht.
  pose proof (misplaced_sizes cs j k d Hsizes Hd Hk Hbig) as Hstored. set (stored := <[k := d]> cs) in *.
  assert (Hlen : length stored = length cs) by apply length_insert.
  assert (Hp' : pending txh h1 (count stored) (hashes cs) ∅) by (unfold count; by rewrite Hlen).
  assert (Hfirst : suits stored (hashes cs) ∅ (k, d)).
  { exists d. cbn [fst snd]. rewrite Hlen. split_and!; [by apply list_lookup_insert_eq | by left | | apply (Hsizes j d Hd) | done].
    apply list_elem_of_In, in_map_iff. exists d. split; [done |]. apply list_elem_of_In. by apply (list_elem_of_lookup_2 _ j). }
  destruct (handle_chunk Hfit txh Ht stored ltac:(rewrite Hlen; lia) Hstored (hashes cs) h1 ∅ (k, d) Hp' (map_empty_subseteq _) Hfirst)
    as (h2 & d0 & Hd0 & F2 & Hst). cbn [fst snd] in *. unfold stored in Hd0 at 1. rewrite list_lookup_insert_eq in Hd0 by done.
  injection Hd0 as <-. rewrite insert_empty in Hst. unfold whole in Hst. rewrite (bool_decide_false _ Hother) in Hst.
  exists h2. by destruct (bool_decide _); destruct Hst as [-> ?].
Qed.

(** C38: the index of a chunk is not tied to its hash.  When a chunk of an announced
    transaction comes with the index of another one first, it is stored in the place of the
    latter, provided that it is long enough for this index.  Whichever chunks come afterwards
    under their own indices, in whatever order and however often, the transaction never enters
    the inbox, and once all the other chunks have come it is removed from the storage; without
    the misplaced chunk it would be delivered ([chunked_transactions_are_delivered_once]).
    (The chunks with this one repeated do not have the same hash as the transaction.) *)
Theorem misplaced_chunk_drops_the_transaction (h : H) address cs j k d order inbox :
  let txh := keccak256 (List.concat cs) in
  164 <= limit (H := H) -> length address = 20%nat -> len cs + 2 < 2 ^ 16 ->
  (forall i d, cs !! i = Some d ->
     len d <= 2 * MAX_FILE_CHUNK_SIZE /\ ((S i < length cs)%nat -> MAX_SIZE_PER_CHUNK <= len d)) ->
  subtree (view h) (ts txh) = node_default ->
  cs !! j = Some d -> (k < length cs)%nat -> ((S k < length cs)%nat -> MAX_SIZE_PER_CHUNK <= len d) ->
  keccak256 (List.concat (<[k := d]> cs)) <> txh ->
  Forall (fun i => i < length cs)%nat order ->
  exists h', process address (framed address (announcement txh cs) :: framed address (chunk_message txh k d) ::
                              map (message_of txh cs address) order) inbox h = Ret inbox h' /\
    ((forall i, (i < length cs)%nat -> i <> k -> i ∈ order) -> subtree (view h') (ts txh) = node_default) /\
    (forall q, diverge (ts txh) q -> subtree (view h') q = subtree (view h) q).
Proof using HLL KLL.
  intros txh Hfit Ha Hn Hsizes Hempty Hd Hk Hbig Hother Horder.
  pose proof (keccak_length_nat (List.concat cs)) as Ht. fold txh in Ht.
  destruct (create_spec Hfit txh Ht cs h ltac:(by destruct cs) Hempty) as (h1 & E1 & Hp1 & F1).
  destruct (misplaced_first h1 cs j k d Hfit Hn Hsizes Hd Hk Hbig Hother Hp1) as (h2 & E2 & F2 & Hst).
  pose proof (misplaced_suits cs k d order Hk Hsizes Horder) as Hsuit.
  assert (Hcs : Z.of_nat (length (<[k := d]> cs)) + 2 < 2 ^ 16) by (rewrite length_insert; lia).
  assert (Hrun : exists h3, process address (map (message_of txh cs address) order) inbox h2 = Ret inbox h3 /\
    ((forall i, (i < length cs)%nat -> i <> k -> i ∈ order) -> subtree (view h3) (ts txh) = node_default) /\
    (forall q, diverge (ts txh) q -> subtree (view h3) q = subtree (view h2) q)).
  { rewrite <- own_messages. destruct (bool_decide_reflect ({[k := d]} = full (<[k := d]> cs))) as [Hfull|Hnot].
    - exists h2. rewrite (late_chunks Hfit txh Ht (<[k := d]> cs) Hcs address Ha); [done | | done].
      eapply Forall_impl; [exact Hsuit | intros y; apply suits_index].
    - destruct (chunks_run Hfit txh Ht (<[k := d]> cs) Hcs (misplaced_sizes cs j k d Hsizes Hd Hk Hbig) address Ha (hashes cs)
        (map (own cs) order) h2 inbox {[k := d]} Hsuit Hst) as (h3 & E3 & Hd3 & F3); [| done |].
      + apply map_singleton_subseteq_l. unfold full. rewrite lookup_map_seq_0. by apply list_lookup_insert_eq.
      + exists h3. rewrite E3. unfold whole. rewrite (bool_decide_false _ Hother), own_indices in *.
        split_and!; [by case_match; rewrite app_nil_r | | done]. intros Hall. by apply Hd3, all_but_one. }
  destruct Hrun as (h3 & E3 & Hd3 & F3). exists h3. split_and!; [| done | intros q Hq; by rewrite F3, F2, F1].
  cbn [process]. rewrite parse_announcement by (done || lia). unfold comp_bind, handle_input, comp_bind.
  change (len cs) with (count cs). fold (hashes cs). rewrite E1. cbn [comp_ret]. rewrite parse_chunk by (done || lia).
  fold txh in E2. rewrite E2. exact E3.
Qed.

End Delivery.

(** ** Samples *)
Definition rollup : bytes := replicate 20 7.

Definition sample_bytes : bytes := default [] (to_bytes signed_tx).

Lemma sample_bytes_ok : from_bytes sample_bytes = Some signed_tx.
Proof. vm_compute. reflexivity. Qed.

Lemma inbox_transactions_round_trip_witness :
  exists i, transaction_out (mkTransaction (replicate 32 5) (EthereumDelayed signed_tx)) = Some i /\
    transaction_in i = Some (mkTransaction (replicate 32 5) (EthereumDelayed signed_tx)).
Proof.
  destruct (proj1 (inbox_transactions_round_trip (mkTransaction (replicate 32 5) (EthereumDelayed signed_tx))))
    as (i & E1 & _ & E2); [split; [reflexivity | exact signed_ok_sample] |]. exists i. split; [exact E1 | exact E2].
Defined.

Lemma sample_signed : sign_transaction sample_tx [1] = Some (Ok signed_tx).
Proof. vm_compute. reflexivity. Qed.

Lemma signed_transactions_recover_their_signer_witness :
  exists bs, to_bytes signed_tx = Some bs /\ caller signed_tx = Some (Ok signer).
Proof.
  destruct (signed_transactions_recover_their_signer (SE := concrete_secp) sample_tx [1] true signed_tx rollup) as (bs & E & _ & Ec).
  - exact sample_signable.
  - reflexivity.
  - intros mes Hl. discriminate Hl.
  - exact sample_signed.
  - reflexivity.
  - exists bs. split; [exact E | exact Ec].
Defined.

Lemma sample_chunk_size i d : [sample_bytes] !! i = Some d ->
  len d <= 2 * MAX_FILE_CHUNK_SIZE /\ ((S i < 1)%nat -> MAX_SIZE_PER_CHUNK <= len d).
Proof.
  intros Hd. split; [| lia]. destruct i as [|i]; [| done]. injection Hd as <-. vm_compute. discriminate.
Qed.

Lemma chunked_transactions_are_delivered_once_witness :
  exists h', process (H := HostState) rollup
      (framed rollup (announcement (keccak256 sample_bytes) [sample_bytes]) ::
       map (message_of (keccak256 sample_bytes) [sample_bytes] rollup) [0%nat; 0%nat]) [] empty_host =
    Ret [mkTransaction (keccak256 sample_bytes) (Ethereum signed_tx)] h'.
Proof.
  destruct (chunked_transactions_are_delivered_once (H := HostState) empty_host rollup [sample_bytes] signed_tx [0; 0]%nat [])
    as (h' & E & _).
  - vm_compute. discriminate.
  - reflexivity.
  - discriminate.
  - vm_compute. reflexivity.
  - exact sample_chunk_size.
  - cbn [List.concat]. rewrite app_nil_r. exact sample_bytes_ok.
  - apply subtree_default.
  - repeat constructor.
  - exists h'. cbn [List.concat] in E. rewrite app_nil_r in E. exact E.
Defined.

(** A transaction of two chunks. *)
Definition large_tx : EthereumTransactionCommon :=
  mkTx Eip1559 (Some 1337) 0 1 5 30000 (Some bob) 7 (replicate 2200 1) [] None.

Definition large_bytes : bytes := default [] (to_bytes large_tx).
Definition chunk0 : bytes := take (Z.to_nat MAX_SIZE_PER_CHUNK) large_bytes.
Definition chunk1 : bytes := drop (Z.to_nat MAX_SIZE_PER_CHUNK) large_bytes.
Definition large_hash : bytes := keccak256 large_bytes.

Lemma large_sizes i d : [chunk0; chunk1] !! i = Some d ->
  len d <= 2 * MAX_FILE_CHUNK_SIZE /\ ((S i < 2)%nat -> MAX_SIZE_PER_CHUNK <= len d).
Proof.
  intros Hd. destruct i as [|[|i]]; [| | done]; injection Hd as <-; (split; [vm_compute; discriminate |]).
  - intros _. vm_compute. discriminate.
  - lia.
Qed.

(** The first chunk is sent with the index of the second one. *)
Lemma misplaced_chunk_drops_the_transaction_witness :
  exists h', process (H := HostState) rollup
      (framed rollup (announcement large_hash [chunk0; chunk1]) :: framed rollup (chunk_message large_hash 1 chunk0) ::
       map (message_of large_hash [chunk0; chunk1] rollup) [0; 1]%nat) [] empty_host = Ret [] h'.
Proof.
  assert (E : keccak256 (List.concat [chunk0; chunk1]) = large_hash) by (vm_compute; reflexivity).
  destruct (misplaced_chunk_drops_the_transaction (H := HostState) empty_host rollup [chunk0; chunk1] 0 1 chunk0 [0; 1]%nat [])
    as (h' & E' & _).
  - vm_compute. discriminate.
  - reflexivity.
  - vm_compute. reflexivity.
  - exact large_sizes.
  - apply subtree_default.
  - reflexivity.
  - cbn. lia.
  - cbn. lia.
  - vm_compute. discriminate.
  - repeat constructor.
  - rewrite E in E'. exists h'. exact E'.
Defined.

End EvmInboxProps.
Export EvmInboxProps.
