(* ===== verification/EvmDelayed.v ===== *)
(** Events, upgrades and the delayed inbox of the Etherlink kernel
    ([src/etherlink/kernel_evm/kernel/src/event.rs], [upgrade.rs], [fallback_upgrade.rs],
    [delayed_inbox.rs], and the helpers for little-endian numbers of
    [src/etherlink/kernel_evm/ethereum/src/rlp_helpers.rs]).

    The delayed inbox is a linked list of transactions, by their hashes, that arrived through
    the layer one.  The sequencer includes them in its blueprints; when the oldest one has
    waited too long they are forced into blueprints of their own. *)

From Stdlib Require Import String Ascii.
From stdpp Require Import strings.
From S2P Require Import Prelude SdkPath SdkStore SdkHost SdkRuntime SdkMock SdkStorage EvmIndexable EvmRlp EvmLinkedList EvmAccount EvmTx EvmStorage EvmInbox EvmChunks EvmGasPrice.

Open Scope Z_scope.

(** ** Events and upgrades *)
Module EvmUpgrade.

(** The public keys and the signatures of [tezos_crypto_rs], and the base58 of the former. *)
Class TezosKeys := {
  TzPublicKey : Type;
  to_b58check : TzPublicKey -> bytes;
  from_b58check : bytes -> option TzPublicKey;
  TzSignature : Type;
  signature_bytes : TzSignature -> bytes;
  signature_try_from : bytes -> option TzSignature
}.

(** [U256::from_little_endian] of the crate [primitive_types]: [None] when it panics. *)
Class U256Lib := { u256_from_little_endian : bytes -> option Z }.

Class U256Laws {UL : U256Lib} := {
  u256_from_le bs : (length bs <= 32)%nat -> u256_from_little_endian bs = Some (le_value bs);
  u256_too_long bs : (32 < length bs)%nat -> u256_from_little_endian bs = None
}.

Class TezosKeysLaws {TK : TezosKeys} := {
  b58_round_trip k : from_b58check (to_b58check k) = Some k;
  b58_short k : len (to_b58check k) <= 100;
  signature_round_trip s : signature_try_from (signature_bytes s) = Some s
}.

(** *** Numbers in little-endian order *)
Definition append_le (n : nat) (v : Z) : Rlp := RData (le_bytes n v).

Definition decode_le (n : nat) (i : Rlp) : option Z :=
  match data_in i with Some bs => if bool_decide (length bs = n) then Some (le_value bs) else None | None => None end.

Definition append_u256_le : Z -> Rlp := append_le 32.

(** [None] is the panic of the conversion, [Some None] a failure of the decoder. *)
Definition decode_field_u256_le {UL : U256Lib} (i : Rlp) : option (option Z) :=
  match data_in i with
  | None => Some None
  | Some bs => match u256_from_little_endian bs with Some n => Some (Some n) | None => None end
  end.

Definition append_u64_le : Z -> Rlp := append_le 8.
Definition decode_field_u64_le : Rlp -> option Z := decode_le 8.
Definition append_u32_le : Z -> Rlp := append_le 4.
Definition decode_field_u32_le : Rlp -> option Z := decode_le 4.
Definition append_u16_le : Z -> Rlp := append_le 2.
Definition decode_field_u16_le : Rlp -> option Z := decode_le 2.

Definition append_timestamp : Z -> Rlp := append_le 8.

Definition decode_timestamp (i : Rlp) : option Z :=
  match decode_le 8 i with Some t => Some (sint 64 t) | None => None end.

(** [decode_h160]: missing leading zeroes are added. *)
Definition decode_h160 (i : Rlp) : option bytes :=
  match data_in i with
  | None => None
  | Some bs =>
      if bool_decide (length bs = 20%nat) then Some bs
      else if bool_decide (length bs < 20)%nat && bool_decide (0 < length bs)%nat
      then Some (zeros (20 - length bs) ++ bs)
      else None
  end.

(** *** Upgrades *)
Definition PREIMAGE_HASH_SIZE : nat := 33.

Record KernelUpgrade : Type := mkKernelUpgrade { preimage_hash : bytes; ku_activation : Z }.

Definition kernel_upgrade_out (u : KernelUpgrade) : Rlp :=
  RList [RData (preimage_hash u); append_timestamp (ku_activation u)].

Definition kernel_upgrade_in (i : Rlp) : option KernelUpgrade :=
  match i with
  | RList [h; t] =>
      match hash_in PREIMAGE_HASH_SIZE h, decode_timestamp t with
      | Some h, Some t => Some (mkKernelUpgrade h t)
      | _, _ => None
      end
  | _ => None
  end.

#[export] Instance kernel_upgrade_codec : Codec KernelUpgrade :=
  { enc := kernel_upgrade_out; dec := kernel_upgrade_in }.

Section Keys.
Context {TK : TezosKeys}.

Definition append_public_key (k : TzPublicKey) : Rlp := RData (to_b58check k).

Definition decode_public_key (i : Rlp) : option TzPublicKey :=
  match data_in i with Some bs => from_b58check bs | None => None end.

Record SequencerUpgrade : Type := mkSequencerUpgrade {
  su_sequencer : TzPublicKey; su_pool_address : bytes; su_activation : Z
}.

Definition sequencer_upgrade_out (u : SequencerUpgrade) : Rlp :=
  RList [append_public_key (su_sequencer u); RData (su_pool_address u); append_timestamp (su_activation u)].

Definition sequencer_upgrade_in (i : Rlp) : option SequencerUpgrade :=
  match i with
  | RList [k; a; t] =>
      match decode_public_key k, decode_h160 a, decode_timestamp t with
      | Some k, Some a, Some t => Some (mkSequencerUpgrade k a t)
      | _, _, _ => None
      end
  | _ => None
  end.

#[export] Instance sequencer_upgrade_codec : Codec SequencerUpgrade :=
  { enc := sequencer_upgrade_out; dec := sequencer_upgrade_in }.

(** *** Events *)
Definition UPGRADE_TAG : Z := 1.
Definition SEQUENCER_UPGRADE_TAG : Z := 2.
Definition BLUEPRINT_APPLIED_TAG : Z := 3.
Definition NEW_DELAYED_TRANSACTION_TAG : Z := 4.

Inductive Event : Type :=
| EUpgrade (u : KernelUpgrade)
| ESequencerUpgrade (u : SequencerUpgrade)
| EBlueprintApplied (number : Z) (hash : bytes)
| ENewDelayedTransaction (tx : Transaction).

Context {RL : RlpLib} {RS : RlpScalars}.

(** [None] is the panic of the encoding of a transaction. *)
Definition event_out (e : Event) : option Rlp :=
  match e with
  | EUpgrade u => Some (RList [scalar_out UPGRADE_TAG; kernel_upgrade_out u])
  | ESequencerUpgrade u => Some (RList [scalar_out SEQUENCER_UPGRADE_TAG; sequencer_upgrade_out u])
  | EBlueprintApplied number hash =>
      Some (RList [scalar_out BLUEPRINT_APPLIED_TAG; RList [append_u256_le number; RData hash]])
  | ENewDelayedTransaction tx =>
      match transaction_out tx with
      | Some i => Some (RList [scalar_out NEW_DELAYED_TRANSACTION_TAG; i])
      | None => None
      end
  end.

(** What can fail in this part of the kernel ([anyhow::Error]). *)
Inductive AnyError : Type :=
| AKernel (e : KernelError)
| ARlp (e : KError)
| NotDelayed (tx_hash : bytes)
| InternalUpgrade.

Context {H : Type} {R : Runtime H}.

Definition XM (A : Type) : Type := comp H AnyError A.

Definition any_kernel {A} (c : KM A) : XM A :=
  fun h => match c h with Ret a h => Ret a h | Throw e h => Throw (AKernel e) h | Panic => Panic end.

Definition any_rlp {A} (c : comp H KError A) : XM A :=
  fun h => match c h with Ret a h => Ret a h | Throw e h => Throw (ARlp e) h | Panic => Panic end.

Definition any_runtime {A} (c : comp H RuntimeError A) : XM A := any_kernel (kruntime c).

Definition or_panics {S E A B} (o : option A) (k : A -> comp S E B) : comp S E B :=
  match o with Some a => k a | None => fun _ => Panic end.

Definition store_event (e : Event) : XM unit :=
  or_panics (event_out e) (fun i => any_kernel (kindex (push_value (indexable_new EVENTS) (rlp_out i)))).

(** *** The storage of upgrades *)
Definition KERNEL_UPGRADE : Path := ascii_bytes "/evm/kernel_upgrade".
Definition KERNEL_ROOT_HASH : Path := ascii_bytes "/evm/kernel_root_hash".
Definition SEQUENCER_UPGRADE : Path := ascii_bytes "/evm/sequencer_upgrade".
Definition SEQUENCER : Path := ascii_bytes "/evm/sequencer".

Definition store_kernel_upgrade (u : KernelUpgrade) : XM unit :=
  store_event (EUpgrade u) ;;; any_runtime (store_write_all KERNEL_UPGRADE (rlp_out (kernel_upgrade_out u))).

Definition read_kernel_upgrade_at (path : Path) : XM (option KernelUpgrade) :=
  any_rlp (reads (fun h => read_optional_rlp h path)).

Definition read_kernel_upgrade : XM (option KernelUpgrade) := read_kernel_upgrade_at KERNEL_UPGRADE.

Definition store_sequencer_upgrade (u : SequencerUpgrade) : XM unit :=
  let bs := rlp_out (sequencer_upgrade_out u) in
  store_event (ESequencerUpgrade u) ;;; any_runtime (store_write_all SEQUENCER_UPGRADE bs).

Definition read_sequencer_upgrade : XM (option SequencerUpgrade) :=
  any_rlp (reads (fun h => read_optional_rlp h SEQUENCER_UPGRADE)).

Definition delete_sequencer_upgrade : XM unit := any_runtime (store_delete SEQUENCER_UPGRADE).

Definition store_sequencer (k : TzPublicKey) : XM unit := any_runtime (store_write_all SEQUENCER (to_b58check k)).

(** [sequencer]: bytes that are not a key are an absent sequencer. *)
Definition read_sequencer : XM (option TzPublicKey) :=
  let! v := any_kernel (kread (fun h => store_has h SEQUENCER)) in
  match v with
  | Some _ => let! bs := any_kernel (kread_all SEQUENCER) in comp_ret (from_b58check bs)
  | None => comp_ret None
  end.

Definition remove_sequencer : XM unit := any_runtime (store_delete SEQUENCER).

Definition sequencer_upgrade (pool_address : bytes) (sequencer : TzPublicKey) : XM unit :=
  store_sequencer sequencer ;;;
  any_kernel (store_sequencer_pool_address pool_address) ;;;
  delete_sequencer_upgrade.

(** *** The backup of the kernel *)
Definition KERNEL_BOOT_PATH : Path := ascii_bytes "/kernel/boot.wasm".
Definition BACKUP_KERNEL_BOOT_PATH : Path := ascii_bytes "/__backup_kernel/boot.wasm".
Definition BACKUP_KERNEL_ROOT_HASH : Path := ascii_bytes "/__backup_kernel/root_hash".

Definition backup_current_kernel : comp H RuntimeError unit :=
  fun h =>
    match store_has h KERNEL_ROOT_HASH with
    | Err e => Throw e h
    | Ok v =>
        ((match v with
          | Some _ => store_copy KERNEL_ROOT_HASH BACKUP_KERNEL_ROOT_HASH
          | None => store_write_all BACKUP_KERNEL_ROOT_HASH (zeros PREIMAGE_HASH_SIZE)
          end) ;;;
         store_copy KERNEL_BOOT_PATH BACKUP_KERNEL_BOOT_PATH) h
    end.

Definition fallback_backup_kernel : comp H RuntimeError unit :=
  store_copy BACKUP_KERNEL_ROOT_HASH KERNEL_ROOT_HASH ;;; store_copy BACKUP_KERNEL_BOOT_PATH KERNEL_BOOT_PATH.

(** [upgrade], over the evaluation of the installer's configuration, a function of the SDK. *)
Definition upgrade (evaluate : bytes -> comp H unit unit) (root_hash : bytes) : XM unit :=
  any_runtime backup_current_kernel ;;;
  (fun h =>
     match evaluate root_hash h with Ret _ h => Ret tt h | Throw _ h => Throw InternalUpgrade h | Panic => Panic end) ;;;
  any_runtime (store_write_all KERNEL_ROOT_HASH root_hash) ;;;
  any_runtime (store_delete KERNEL_UPGRADE) ;;;
  any_runtime mark_for_reboot.

(** [force_kernel_upgrade] of [inbox.rs]: a day after its activation. *)
Definition force_kernel_upgrade (evaluate : bytes -> comp H unit unit) : XM unit :=
  let! u := read_kernel_upgrade in
  match u with
  | Some u =>
      let! current_timestamp := any_kernel read_last_info_per_level_timestamp in
      or_panics (i64_checked (ku_activation u + 86400)) (fun t =>
        if t <=? current_timestamp then upgrade evaluate (preimage_hash u) else comp_ret tt)
  | None => comp_ret tt
  end.

End Keys.

End EvmUpgrade.
Export EvmUpgrade.

(** ** The delayed inbox *)
Module EvmDelayed.

(** [Hash]: an array of 32 bytes. *)
Definition hash_okb (bs : bytes) : bool :=
  bool_decide (length bs = 32%nat) && forallb (fun b => (0 <=? b) && (b <? 256)) bs.

Record Hash : Type := mkHash { hash_bytes : bytes; hash_ok : hash_okb hash_bytes = true }.

(** [try_into] to an array. *)
Definition to_hash (bs : bytes) : option Hash :=
  match hash_okb bs as b return hash_okb bs = b -> option Hash with
  | true => fun E => Some (mkHash bs E)
  | false => fun _ => None
  end eq_refl.

#[export] Instance hash_codec : Codec Hash := {
  enc h := RData (hash_bytes h);
  dec i := match data_in i with Some bs => to_hash bs | None => None end
}.

#[export] Instance hash_as_ref : AsRef Hash := { as_ref := hash_bytes }.

Inductive DelayedTransaction : Type :=
| DEthereum (tx : EthereumTransactionCommon)
| DDeposit (d : Deposit).

Record DelayedInboxItem : Type := mkItem { di_transaction : DelayedTransaction; di_timestamp : Z; di_level : Z }.

Definition DELAYED_INBOX_PATH : Path := ascii_bytes "/evm/delayed-inbox".
Definition MAX_DELAYED_INBOX_BLUEPRINT_LENGTH : Z := 1000.
Definition DELAYED_TRANSACTION_TAG : Z := 1.
Definition DELAYED_DEPOSIT_TAG : Z := 2.

Section Codecs.
Context {RL : RlpLib} {RS : RlpScalars}.

(** [None] is the panic of [to_bytes]. *)
Definition delayed_out (t : DelayedTransaction) : option Rlp :=
  match t with
  | DEthereum tx =>
      match to_bytes tx with Some bs => Some (RList [scalar_out DELAYED_TRANSACTION_TAG; RData bs]) | None => None end
  | DDeposit d => Some (RList [scalar_out DELAYED_DEPOSIT_TAG; deposit_out d])
  end.

Definition delayed_in (i : Rlp) : option DelayedTransaction :=
  match i with
  | RList [t; payload] =>
      match scalar_in 8 t with
      | None => None
      | Some tag =>
          if tag =? DELAYED_TRANSACTION_TAG
          then match ethereum_in payload with Some tx => Some (DEthereum tx) | None => None end
          else if tag =? DELAYED_DEPOSIT_TAG
          then match deposit_in payload with Some d => Some (DDeposit d) | None => None end
          else None
      end
  | _ => None
  end.

Definition item_out (x : DelayedInboxItem) : option Rlp :=
  match delayed_out (di_transaction x) with
  | Some t => Some (RList [t; append_timestamp (di_timestamp x); append_u32_le (di_level x)])
  | None => None
  end.

Definition item_in (i : Rlp) : option DelayedInboxItem :=
  match i with
  | RList [t; ts; l] =>
      match delayed_in t, decode_timestamp ts, decode_field_u32_le l with
      | Some t, Some ts, Some l => Some (mkItem t ts l)
      | _, _, _ => None
      end
  | _ => None
  end.

(** The encoding of the elements of the list; [save_transaction] panics before an element
    without an encoding is stored. *)
#[export] Instance item_codec : Codec DelayedInboxItem := { enc x := default (RData []) (item_out x); dec := item_in }.

End Codecs.

(** [DelayedInbox], a list of items by their hashes. *)
Abbreviation DelayedInbox := (LinkedList Hash).

Section Inbox.
Context {H : Type} {R : Runtime H} {RL : RlpLib} {RS : RlpScalars} {HL : HexLib} {TK : TezosKeys}.

(** The methods work on the inbox and the host. *)
Definition DM (A : Type) : Type := comp (DelayedInbox * H) AnyError A.

Definition on_list {A} (c : LLM (H := H) (Id := Hash) A) : DM A :=
  fun s => match c s with Ret a s => Ret a s | Throw e s => Throw (ARlp e) s | Panic => Panic end.

Definition on_host {A} (c : XM (H := H) A) : DM A :=
  fun '(l, h) => match c h with Ret a h => Ret a (l, h) | Throw e h => Throw e (l, h) | Panic => Panic end.

Definition delayed_inbox_new : XM (H := H) DelayedInbox := any_rlp (list_new DELAYED_INBOX_PATH).

Definition save_transaction (tx : Transaction) (timestamp level : Z) : DM unit :=
  let save transaction :=
    let item := mkItem transaction timestamp level in
    on_host (store_event (ENewDelayedTransaction tx)) ;;;
    or_panics (item_out item) (fun _ =>
      or_panics (to_hash (tx_hash tx)) (fun hash => on_list (list_push hash item))) in
  match tx_content tx with
  | Ethereum _ => comp_throw (NotDelayed (tx_hash tx))
  | EthereumDelayed tx => save (DEthereum tx)
  | TDeposit deposit => save (DDeposit deposit)
  end.

Definition transaction_from_delayed (hash : Hash) (delayed : DelayedTransaction) : Transaction :=
  match delayed with
  | DEthereum tx => mkTransaction (hash_bytes hash) (EthereumDelayed tx)
  | DDeposit deposit => mkTransaction (hash_bytes hash) (TDeposit deposit)
  end.

Definition find_and_remove_transaction (hash : Hash) : DM (option (Transaction * Z)) :=
  let! item := on_list (list_remove hash) in
  comp_ret (match item with
            | Some x => Some (transaction_from_delayed hash (di_transaction x), di_timestamp x)
            | None => None
            end).

(** Both subtractions are checked; the second one is only computed when the first test holds. *)
Definition first_if_timed_out (now timeout current_level min_levels : Z) : DM (option (Hash * DelayedTransaction)) :=
  let! first := on_list list_first_with_id in
  match first with
  | None => comp_ret None
  | Some (hash, x) =>
      or_panics (checked_sub (timestamp_as_u64 now) (timestamp_as_u64 (di_timestamp x))) (fun waited =>
        if timeout <=? waited then
          or_panics (checked_sub current_level (di_level x)) (fun levels =>
            comp_ret (if min_levels <=? levels then Some (hash, di_transaction x) else None))
        else comp_ret None)
  end.

Definition pop_first : DM (option Transaction) :=
  let! to_pop := on_list list_first_with_id in
  match to_pop with
  | None => comp_ret None
  | Some (hash, x) =>
      (let! _ := on_list (list_remove (Elt := DelayedInboxItem) hash) in
       comp_ret (Some (transaction_from_delayed hash (di_transaction x))))
  end.

Definition first_has_timed_out : DM bool :=
  let! now := on_host (any_kernel current_timestamp) in
  let! timeout := on_host (any_kernel delayed_inbox_timeout) in
  let! current_level := on_host (any_kernel read_l1_level) in
  let! min_levels := on_host (any_kernel delayed_inbox_min_levels) in
  let! popped := first_if_timed_out now timeout current_level min_levels in
  comp_ret (bool_decide (is_Some popped)).

(** The loop, with room for [S n] more transactions. *)
Fixpoint pop_transactions (n : nat) (popped : list Transaction) : DM (list Transaction) :=
  let! tx := pop_first in
  match tx with
  | None => comp_ret popped
  | Some tx =>
      let popped := popped ++ [tx] in
      match n with O => comp_ret popped | S n => pop_transactions n popped end
  end.

Definition next_delayed_inbox_blueprint : DM (option (list Transaction)) :=
  let! popped := pop_transactions (Z.to_nat MAX_DELAYED_INBOX_BLUEPRINT_LENGTH - 1) [] in
  comp_ret (match popped with [] => None | _ => Some popped end).

Definition delayed_inbox_delete : DM unit := on_list list_delete.

End Inbox.

(** ** The sizes of encodings *)

(** A bound on the length of an encoded item: headers take at most nine bytes. *)
Fixpoint rlp_weight (i : Rlp) : Z :=
  match i with
  | RData bs => 2 * len bs + 9
  | RList items => fold_right (fun i w => rlp_weight i + w) 9 items
  end.

Class RlpSize {RL : RlpLib} := { rlp_size i : len (rlp_out i) <= rlp_weight i }.

(** ** Hashes are identifiers *)
Lemma to_hash_bytes (h : Hash) : to_hash (hash_bytes h) = Some h.
Proof.
  destruct h as [bs E]. unfold to_hash. cbn [hash_bytes].
  assert (Hgen : forall b (Eb : hash_okb bs = b), b = true ->
    match b as c return hash_okb bs = c -> option Hash with
    | true => fun E => Some (mkHash bs E)
    | false => fun _ => None
    end Eb = Some (mkHash bs E)).
  { intros [] Eb Hb; [| done]. do 2 f_equal. apply proof_irrel. }
  by apply Hgen.
Qed.

Lemma to_hash_some bs : hash_okb bs = true -> exists h, to_hash bs = Some h /\ hash_bytes h = bs.
Proof. intros E. exists (mkHash bs E). split; [apply (to_hash_bytes (mkHash bs E)) | done]. Qed.

Lemma hash_inj (h k : Hash) : hash_bytes h = hash_bytes k -> h = k.
Proof. intros E. pose proof (to_hash_bytes h) as E1. rewrite E, to_hash_bytes in E1. by injection E1. Qed.

Lemma hash_h256 (h : Hash) : is_h256 (hash_bytes h).
Proof.
  destruct h as [bs E]. cbn [hash_bytes]. unfold hash_okb in E. apply andb_true_iff in E as [E1 E2].
  split; [by apply bool_decide_eq_true in E1 |]. apply Forall_forall. intros b Hb. rewrite forallb_forall in E2.
  apply list_elem_of_In in Hb. specialize (E2 b Hb). unfold in_u. lia.
Qed.

#[export] Instance Hash_eq_dec : EqDecision Hash.
Proof.
  intros h k. destruct (decide (hash_bytes h = hash_bytes k)) as [E|N]; [left; by apply hash_inj | right; congruence].
Defined.

#[export] Instance hash_codec_laws : CodecLaws Hash.
Proof. constructor. intros h. apply to_hash_bytes. Qed.

#[export] Instance hash_id_laws : IdLaws Hash.
Proof.
  constructor.
  - intros h. apply hash_h256.
  - apply hash_inj.
  - intros h. destruct (hash_h256 h) as [E _]. cbn. lia.
  - intros h. destruct (hash_h256 h) as [E _]. cbn. by destruct (hash_bytes h).
Qed.

Section Sizes.
Context {RL : RlpLib} {SZ : RlpSize}.

Lemma hash_weight (h : Hash) : rlp_weight (enc h) = 73.
Proof. destruct (hash_h256 h) as [E _]. cbn [enc hash_codec rlp_weight]. by rewrite E. Qed.

Lemma option_weight (o : option Hash) : rlp_weight (append_option o) <= 73.
Proof. destruct o as [h|]; cbn [append_option]; [by rewrite hash_weight | cbn; lia]. Qed.

Lemma pointer_weight (x : Pointer Hash) : rlp_weight (enc x) <= 228.
Proof.
  destruct x as [i p n]. cbn [enc pointer_codec rlp_weight fold_right ptr_id ptr_previous ptr_next].
  pose proof (hash_weight i). pose proof (option_weight p). pose proof (option_weight n). lia.
Qed.

Lemma pointer_short_hash (x : Pointer Hash) : len (rlp_out (enc x)) < 2 ^ 31.
Proof using SZ. pose proof (rlp_size (enc x)). pose proof (pointer_weight x). lia. Qed.

Lemma inbox_short (o : option (ListPointers Hash)) : len (rlp_out (enc (mkList DELAYED_INBOX_PATH o))) < 2 ^ 31.
Proof using SZ.
  pose proof (rlp_size (enc (mkList DELAYED_INBOX_PATH o))) as Hs.
  enough (rlp_weight (enc (mkList DELAYED_INBOX_PATH o)) <= 1000) by lia. clear Hs.
  cbn [enc list_codec rlp_weight fold_right ll_path pointers].
  change (2 * len DELAYED_INBOX_PATH + 9) with 45. destruct o as [[f b]|]; cbn; [| lia].
  pose proof (pointer_weight f) as Hf. pose proof (pointer_weight b) as Hb.
  cbn [enc pointer_codec rlp_weight fold_right] in Hf, Hb. cbn in Hf, Hb |- *. lia.
Qed.

End Sizes.

(** ** Well-formed elements *)
Definition delayed_ok (t : DelayedTransaction) : Prop :=
  match t with DEthereum tx => tx_ok tx | DDeposit d => in_u 256 (amount d) /\ length (receiver d) = 20%nat end.

Lemma decode_le_append n z : in_u (8 * Z.of_nat n) z -> decode_le n (append_le n z) = Some z.
Proof.
  intros Hz. unfold decode_le, append_le. cbn [data_in]. rewrite bool_decide_true by apply length_le_bytes.
  by rewrite le_value_bytes, wrap_small.
Qed.

Lemma timestamp_round_trip t : in_s 64 t -> decode_timestamp (append_timestamp t) = Some t.
Proof.
  intros Ht. unfold decode_timestamp, append_timestamp, decode_le, append_le. cbn [data_in].
  rewrite bool_decide_true by apply length_le_bytes. rewrite le_value_bytes. change (8 * Z.of_nat 8) with 64.
  by rewrite sint_wrap, sint_small.
Qed.

Section Elements.
Context {RL : RlpLib} {RLL : RlpLaws} {RS : RlpScalars} {RSL : RlpScalarsLaws}.

Definition item_ok (x : DelayedInboxItem) : Prop :=
  delayed_ok (di_transaction x) /\ in_s 64 (di_timestamp x) /\ in_u 32 (di_level x) /\
  len (rlp_out (enc x)) < 2 ^ 31.

Lemma delayed_round_trip t : delayed_ok t -> exists i, delayed_out t = Some i /\ delayed_in i = Some t.
Proof using RLL RSL.
  destruct t as [tx|d]; cbn [delayed_ok delayed_out].
  - intros Hok. destruct (from_to_bytes tx Hok) as (bs & -> & E). eexists. split; [done |].
    cbn [delayed_in]. rewrite scalar_tag by done. cbn. unfold ethereum_in. cbn. by rewrite E.
  - intros [Ha Hr]. eexists. split; [done |]. cbn [delayed_in]. rewrite scalar_tag by done.
    change (DELAYED_DEPOSIT_TAG =? DELAYED_TRANSACTION_TAG) with false. rewrite Z.eqb_refl.
    unfold deposit_out, deposit_in. rewrite scalar_in_out, hash_in_exact by done. by destruct d.
Qed.

Lemma item_encodes x : item_ok x -> exists i, item_out x = Some i /\ item_in i = Some x.
Proof using RLL RSL.
  intros (Ht & Hts & Hl & _). destruct (delayed_round_trip _ Ht) as (i & Ho & Hi). unfold item_out. rewrite Ho.
  eexists. split; [done |]. cbn [item_in]. rewrite Hi, timestamp_round_trip by done.
  unfold decode_field_u32_le, append_u32_le. rewrite decode_le_append by done. by destruct x.
Qed.

Lemma item_storable x : item_ok x -> storable x.
Proof using RLL RSL.
  intros Hx. destruct (item_encodes x Hx) as (i & Ho & Hi). destruct Hx as (_ & _ & _ & Hs). split; [done |].
  cbn [enc dec item_codec]. by rewrite Ho.
Qed.

End Elements.

(** ** The inbox is a sequence *)
Section Spec.
Context {H : Type} {R : Runtime H} {L : RuntimeLaws H}.
Context {RL : RlpLib} {RLL : RlpLaws} {SZ : RlpSize} {RS : RlpScalars} {RSL : RlpScalarsLaws}.
Context {HL : HexLib} {HLL : HexLaws} {TK : TezosKeys}.
Context (Hfit : 91 <= limit (H := H)).
Implicit Types (h : H) (xs : list (Hash * DelayedInboxItem)) (gone : list Hash).

Definition DELAYED : list bytes := [ascii_bytes "evm"; ascii_bytes "delayed-inbox"].

Lemma delayed_path : is_path DELAYED_INBOX_PATH DELAYED.
Proof. closed_path. Qed.

Lemma delayed_fits : len DELAYED_INBOX_PATH + 73 <= limit (H := H).
Proof using Hfit. change (len DELAYED_INBOX_PATH) with 18. lia. Qed.

(** The inbox in memory and the storage hold the sequence [xs]; [gone] were removed. *)
Definition inbox (l : DelayedInbox) h xs gone : Prop :=
  rel DELAYED_INBOX_PATH DELAYED (subtree (view h)) l h xs gone.

Definition away h h' : Prop := forall q, diverge DELAYED q -> subtree (view h') q = subtree (view h) q.

(** The storage after an operation, framed by the one before, and by itself. *)
Lemma inbox_rebase l h h' xs gone : rel DELAYED_INBOX_PATH DELAYED (subtree (view h)) l h' xs gone ->
  inbox l h' xs gone /\ away h h'.
Proof.
  intros Hr. split; [| exact (rel_outside _ _ _ _ _ _ _ Hr)]. by apply (rel_frame _ _ _ _ _ _ _ _ _ Hr).
Qed.

(** Changes elsewhere in the storage. *)
Lemma inbox_frame l h h' xs gone : inbox l h xs gone -> subtree (view h') DELAYED = subtree (view h) DELAYED ->
  inbox l h' xs gone.
Proof. intros Hr E. by apply (rel_frame _ _ _ _ _ _ _ _ _ Hr). Qed.

Lemma empty_inbox h : subtree (view h) DELAYED = node_default -> inbox (mkList DELAYED_INBOX_PATH None) h [] [].
Proof. intros He. by apply empty_rel. Qed.

Lemma delayed_inbox_new_spec l h xs gone : inbox l h xs gone -> delayed_inbox_new h = Ret l h.
Proof using RLL SZ HLL Hfit.
  intros Hi. unfold delayed_inbox_new, any_rlp.
  by rewrite (new_spec _ _ delayed_path delayed_fits pointer_short_hash inbox_short _ _ _ _ _ Hi).
Qed.

Definition to_transaction (x : Hash * DelayedInboxItem) : Transaction :=
  transaction_from_delayed (fst x) (di_transaction (snd x)).

Lemma first_item l h xs gone : inbox l h xs gone ->
  on_list (H := H) (list_first_with_id (Elt := DelayedInboxItem)) (l, h) = Ret (head xs) (l, h).
Proof using RLL SZ HLL Hfit.
  intros Hi. unfold on_list.
  by rewrite (first_spec _ _ delayed_path delayed_fits pointer_short_hash inbox_short _ _ _ _ _ Hi).
Qed.

Lemma remove_item l h xs gone k hash x : inbox l h xs gone -> xs !! k = Some (hash, x) ->
  k = 0%nat \/ S (S k) <> length xs ->
  exists l' h', on_list (H := H) (list_remove (Elt := DelayedInboxItem) hash) (l, h) = Ret (Some x) (l', h') /\
    inbox l' h' (base.delete k xs) (hash :: gone) /\ away h h'.
Proof using RLL SZ HLL Hfit.
  intros Hi Hk Hsafe. unfold on_list.
  destruct (remove_spec _ _ delayed_path delayed_fits pointer_short_hash inbox_short _ _ _ _ _ _ _ _ Hi Hk Hsafe)
    as (l' & h' & -> & Hr). exists l', h'. split; [done |]. by apply inbox_rebase.
Qed.

Lemma find_and_remove_spec l h xs gone k hash x : inbox l h xs gone -> xs !! k = Some (hash, x) ->
  k = 0%nat \/ S (S k) <> length xs ->
  exists l' h', find_and_remove_transaction hash (l, h) = Ret (Some (to_transaction (hash, x), di_timestamp x)) (l', h') /\
    inbox l' h' (base.delete k xs) (hash :: gone) /\ away h h'.
Proof using RLL SZ HLL Hfit.
  intros Hi Hk Hsafe. unfold find_and_remove_transaction, comp_bind.
  destruct (remove_item l h xs gone k hash x Hi Hk Hsafe) as (l' & h' & -> & Hr). by exists l', h'.
Qed.

Lemma find_and_remove_absent l h xs gone hash : inbox l h xs gone -> hash ∉ ids xs ->
  find_and_remove_transaction hash (l, h) = Ret None (l, h).
Proof using RLL SZ HLL Hfit.
  intros Hi Ha. unfold find_and_remove_transaction, comp_bind, on_list.
  by rewrite (remove_absent _ _ delayed_path delayed_fits pointer_short_hash inbox_short _ _ _ _ _ _ Hi Ha).
Qed.

Lemma pop_spec l h x xs gone : inbox l h (x :: xs) gone ->
  exists l' h', pop_first (l, h) = Ret (Some (to_transaction x)) (l', h') /\
    inbox l' h' xs (fst x :: gone) /\ away h h'.
Proof using RLL SZ HLL Hfit.
  destruct x as [hash x]. intros Hi. unfold pop_first, comp_bind. rewrite (first_item l h _ gone Hi). cbn [head].
  destruct (remove_item l h _ gone 0 hash x Hi eq_refl ltac:(by left)) as (l' & h' & -> & Hr). by exists l', h'.
Qed.

Lemma pop_none l h gone : inbox l h [] gone -> pop_first (l, h) = Ret None (l, h).
Proof using RLL SZ HLL Hfit. intros Hi. unfold pop_first, comp_bind. by rewrite (first_item l h _ gone Hi). Qed.

Lemma pop_transactions_spec n : forall popped l h xs gone, inbox l h xs gone ->
  exists l' h' gone', pop_transactions n popped (l, h) = Ret (popped ++ map to_transaction (take (S n) xs)) (l', h') /\
    inbox l' h' (drop (S n) xs) gone' /\ away h h'.
Proof using RLL SZ HLL Hfit.
  induction n as [|n IH]; intros popped l h xs gone Hi; cbn [pop_transactions]; unfold comp_bind;
    (destruct xs as [|x xs];
     [rewrite (pop_none l h gone Hi); exists l, h, gone; cbn [take map]; by rewrite app_nil_r |]);
    destruct (pop_spec l h x xs gone Hi) as (l1 & h1 & -> & Hi1 & A1); cbv zeta.
  - exists l1, h1, (fst x :: gone). by cbn [take drop map].
  - destruct (IH (popped ++ [to_transaction x]) l1 h1 xs _ Hi1) as (l2 & h2 & gone2 & -> & Hi2 & A2).
    exists l2, h2, gone2. cbn [take map]. rewrite <- app_assoc. split_and!; [done | done |].
    intros q Hq. by rewrite A2, A1.
Qed.

(** At most a thousand of the oldest transactions. *)
Definition BATCH : nat := Z.to_nat MAX_DELAYED_INBOX_BLUEPRINT_LENGTH.

Lemma next_blueprint_spec l h xs gone : inbox l h xs gone ->
  exists l' h' gone', next_delayed_inbox_blueprint (l, h) =
      Ret (match xs with [] => None | _ => Some (map to_transaction (take BATCH xs)) end) (l', h') /\
    inbox l' h' (drop BATCH xs) gone' /\ away h h'.
Proof using RLL SZ HLL Hfit.
  intros Hi. unfold next_delayed_inbox_blueprint, comp_bind. fold BATCH.
  assert (HB : S (BATCH - 1) = BATCH) by (vm_compute; reflexivity).
  destruct (pop_transactions_spec (BATCH - 1) [] l h xs gone Hi) as (l' & h' & gone' & -> & Hi' & Ha).
  rewrite HB in *. exists l', h', gone'. split_and!; [| done | done]. unfold comp_ret. cbn [app]. f_equal.
  destruct xs as [|x xs]; [done |]. destruct BATCH; done.
Qed.

(** The oldest transaction has waited long enough, in time and in levels. *)
Definition timed_out (now timeout level min_levels : Z) xs : bool :=
  match xs with
  | [] => false
  | (_, x) :: _ =>
      (timeout <=? timestamp_as_u64 now - timestamp_as_u64 (di_timestamp x)) && (min_levels <=? level - di_level x)
  end.

Lemma timed_out_spec l h xs gone now timeout level min_levels : inbox l h xs gone ->
  current_timestamp h = Ret now h -> delayed_inbox_timeout h = Ret timeout h ->
  read_l1_level h = Ret level h -> delayed_inbox_min_levels h = Ret min_levels h ->
  Forall (fun x => timestamp_as_u64 (di_timestamp (snd x)) <= timestamp_as_u64 now /\ di_level (snd x) <= level) xs ->
  first_has_timed_out (l, h) = Ret (timed_out now timeout level min_levels xs) (l, h).
Proof using RLL SZ HLL Hfit.
  intros Hi E1 E2 E3 E4 Hpast. unfold first_has_timed_out, comp_bind at 1 2 3 4, on_host, any_kernel. rewrite E1, E2, E3, E4.
  unfold comp_bind at 1, first_if_timed_out, comp_bind. rewrite (first_item l h xs gone Hi).
  destruct xs as [|[hash x] xs]; [done |]. cbn [head]. apply Forall_cons in Hpast as [[Ht Hl] _]. cbn [snd] in *.
  unfold checked_sub. destruct (Z.leb_spec (timestamp_as_u64 (di_timestamp x)) (timestamp_as_u64 now)); [| lia]. cbn [or_panics].
  cbn [timed_out]. destruct (timeout <=? _); [| done]. destruct (Z.leb_spec (di_level x) level); [| lia]. cbn [or_panics andb].
  by destruct (min_levels <=? _).
Qed.

(** *** A new transaction *)
Definition EVENTS_AT : list bytes := [ascii_bytes "evm"; ascii_bytes "events"].

Lemma events_path : is_path EVENTS EVENTS_AT.
Proof. closed_path. Qed.

Lemma events_fit : len EVENTS + 21 <= limit (H := H).
Proof using Hfit. change (len EVENTS) with 11. lia. Qed.

Lemma events_delayed : diverge EVENTS_AT DELAYED.
Proof. apply diverge_cons. right. apply diverge_cons. left. vm_compute. discriminate. Qed.

Lemma holds_frame ps h h' (vs : list bytes) : holds ps h vs -> subtree (view h') ps = subtree (view h) ps -> holds ps h' vs.
Proof.
  intros [H1 H2] E. assert (Hv : forall s, value_at (view h') (ps ++ [s]) = value_at (view h) (ps ++ [s])).
  { intros s. unfold value_at. by rewrite !subtree_app, E. }
  split; [by rewrite Hv | intros i v Hi; rewrite Hv; by apply H2].
Qed.

(** The event of a new transaction. *)
Definition new_event (tx : Transaction) : bytes := rlp_out (default (RData []) (event_out (ENewDelayedTransaction tx))).

Definition delayed_of (c : TransactionContent) : option DelayedTransaction :=
  match c with Ethereum _ => None | EthereumDelayed tx => Some (DEthereum tx) | TDeposit d => Some (DDeposit d) end.

Lemma delayed_of_ok c d : content_ok c -> delayed_of c = Some d -> delayed_ok d.
Proof. destruct c; intros Hc [= <-]; done. Qed.

Lemma to_transaction_of tx d hash ts lv : delayed_of (tx_content tx) = Some d -> hash_bytes hash = tx_hash tx ->
  to_transaction (hash, mkItem d ts lv) = tx.
Proof. destruct tx as [th [tx|d'|tx]]; intros [= <-] Hh; unfold to_transaction; cbn in *; by rewrite Hh. Qed.

Lemma save_unfold tx d ts lv s : delayed_of (tx_content tx) = Some d ->
  save_transaction tx ts lv s =
  (on_host (store_event (ENewDelayedTransaction tx)) ;;;
   or_panics (item_out (mkItem d ts lv)) (fun _ =>
     or_panics (to_hash (tx_hash tx)) (fun hash => on_list (H := H) (list_push hash (mkItem d ts lv))))) s.
Proof. unfold save_transaction. destruct (tx_content tx); by intros [= <-]. Qed.

Lemma store_new_event h tx evs : transaction_ok tx -> holds EVENTS_AT h evs -> in_u 64 (len evs + 1) ->
  exists h', store_event (ENewDelayedTransaction tx) h = Ret tt h' /\ holds EVENTS_AT h' (evs ++ [new_event tx]) /\
    (forall q, diverge EVENTS_AT q -> subtree (view h') q = subtree (view h) q).
Proof using RLL RSL Hfit.
  intros Ht He Hlen. destruct (transaction_round_trip tx Ht) as (i & Ei & _). unfold store_event.
  assert (Eo : event_out (ENewDelayedTransaction tx) = Some (RList [scalar_out NEW_DELAYED_TRANSACTION_TAG; i]))
    by (cbn [event_out]; by rewrite Ei).
  unfold new_event. rewrite Eo. cbn [or_panics from_option id]. unfold any_kernel, kindex, indexable_new.
  destruct (push_value_spec _ _ events_path events_fit h evs (rlp_out (RList [scalar_out NEW_DELAYED_TRANSACTION_TAG; i])) He Hlen)
    as (h' & -> & Hh & _ & Hf). by exists h'.
Qed.

Lemma save_spec l h xs gone tx d hash ts lv evs : inbox l h xs gone -> holds EVENTS_AT h evs -> in_u 64 (len evs + 1) ->
  transaction_ok tx -> delayed_of (tx_content tx) = Some d -> to_hash (tx_hash tx) = Some hash ->
  item_ok (mkItem d ts lv) -> hash ∉ gone ->
  exists l' h', save_transaction tx ts lv (l, h) = Ret tt (l', h') /\
    inbox l' h' (if decide (hash ∈ ids xs) then xs else xs ++ [(hash, mkItem d ts lv)]) gone /\
    holds EVENTS_AT h' (evs ++ [new_event tx]) /\
    (forall q, diverge DELAYED q -> diverge EVENTS_AT q -> subtree (view h') q = subtree (view h) q).
Proof using RLL SZ RSL HLL Hfit.
  intros Hi He Hlen Ht Hd Hh Hx Hg. rewrite (save_unfold tx d) by done.
  destruct (store_new_event h tx evs Ht He Hlen) as (h1 & E1 & He1 & F1).
  unfold comp_bind, on_host. rewrite E1, Hh. destruct (item_encodes _ Hx) as (i & -> & _). cbn [or_panics].
  assert (Hi1 : inbox l h1 xs gone) by (apply (inbox_frame l h); [done | apply F1, events_delayed]).
  unfold on_list. case_decide as Hin.
  - exists l, h1. rewrite (push_present _ _ delayed_path delayed_fits pointer_short_hash inbox_short _ _ _ _ _ _ _ Hi1 Hin).
    split_and!; [done | done | done | intros q _ Hq; by apply F1].
  - destruct (push_spec _ _ delayed_path delayed_fits pointer_short_hash inbox_short _ _ _ _ _ _ _ Hi1 Hin Hg (item_storable _ Hx))
      as (l2 & h2 & -> & Hr). apply inbox_rebase in Hr as [Hi2 A2]. exists l2, h2. split_and!; [done | done | |].
    + apply (holds_frame _ h1); [done |]. apply A2, diverge_sym, events_delayed.
    + intros q Hq Hq'. by rewrite A2, F1.
Qed.

End Spec.

End EvmDelayed.
Export EvmDelayed.
