(* ===== verification/EvmBlueprint.v ===== *)
(** Blueprints of the Etherlink kernel: their encodings, their storage, and where they come from
    ([src/etherlink/kernel_evm/kernel/src/blueprint.rs], [sequencer_blueprint.rs],
    [blueprint_storage.rs], [configuration.rs], [stage_one.rs], and the sequencer mode of
    [parsing.rs] and [inbox.rs], with its ticks from [tick_model.rs]).

    A sequencer sends blueprints in signed chunks, and names the delayed transactions by their
    hashes; the kernel puts the chunks together, checks the parent and fetches the delayed
    transactions from the delayed inbox. *)

From Stdlib Require Import String Ascii.
From stdpp Require Import strings fin_maps.
From S2P Require Import Prelude SdkPath SdkStore SdkHost SdkRuntime SdkMock SdkStorage SdkTxn EvmIndexable EvmRlp EvmLinkedList EvmAccount EvmTx EvmStorage EvmInbox EvmChunks EvmGasPrice EvmDelayed.

Open Scope Z_scope.

Module EvmBlueprint.

(** ** Blueprints *)
Record Blueprint : Type := mkBlueprint { transactions : list Transaction; bp_timestamp : Z }.

Record BlueprintWithDelayedHashes : Type := mkWithHashes {
  parent_hash : bytes; delayed_hashes : list Hash; with_blueprint : Blueprint
}.

Record UnsignedSequencerBlueprint : Type := mkUnsigned { chunk : bytes; number : Z; nb_chunks : Z; chunk_index : Z }.

Record SequencerBlueprint {TK : TezosKeys} : Type := mkSigned {
  sb_blueprint : UnsignedSequencerBlueprint; sb_signature : TzSignature
}.

(** The store representation of a blueprint. *)
Inductive StoreBlueprint : Type :=
| SequencerChunk (chunk : bytes)
| InboxBlueprint (blueprint : Blueprint).

Definition SEQUENCER_CHUNK_TAG : Z := 0.
Definition INBOX_BLUEPRINT_TAG : Z := 1.

Section Codecs.
Context {RL : RlpLib} {RS : RlpScalars} {UL : U256Lib} {TK : TezosKeys}.

(** [None] is the panic of the encoding of a transaction. *)
Definition blueprint_out (b : Blueprint) : option Rlp :=
  match mapM transaction_out (transactions b) with
  | Some txs => Some (RList [RList txs; append_timestamp (bp_timestamp b)])
  | None => None
  end.

Definition blueprint_in (i : Rlp) : option Blueprint :=
  match i with
  | RList [txs; t] =>
      match decode_list transaction_in txs, decode_timestamp t with
      | Some txs, Some t => Some (mkBlueprint txs t)
      | _, _ => None
      end
  | _ => None
  end.

Definition with_hashes_out (b : BlueprintWithDelayedHashes) : option Rlp :=
  match mapM transaction_out (transactions (with_blueprint b)) with
  | Some txs =>
      Some (RList [append_h256 (parent_hash b); RList (map enc (delayed_hashes b)); RList txs;
                   append_timestamp (bp_timestamp (with_blueprint b))])
  | None => None
  end.

Definition with_hashes_in (i : Rlp) : option BlueprintWithDelayedHashes :=
  match i with
  | RList [p; hs; txs; t] =>
      match decode_h256 p, decode_list dec hs, decode_list transaction_in txs, decode_timestamp t with
      | Some p, Some hs, Some txs, Some t => Some (mkWithHashes p hs (mkBlueprint txs t))
      | _, _, _, _ => None
      end
  | _ => None
  end.

Definition unsigned_out (b : UnsignedSequencerBlueprint) : Rlp :=
  RList [RData (chunk b); append_u256_le (number b); append_u16_le (nb_chunks b); append_u16_le (chunk_index b)].

Definition signed_out (b : SequencerBlueprint) : Rlp :=
  let u := sb_blueprint b in
  RList [RData (chunk u); append_u256_le (number u); append_u16_le (nb_chunks u); append_u16_le (chunk_index u);
         RData (signature_bytes (sb_signature b))].

(** [None] is the panic of the conversion of the number, [Some None] a failure of the decoder. *)
Definition signed_in (i : Rlp) : option (option SequencerBlueprint) :=
  match i with
  | RList [c; n; nb; ci; s] =>
      match data_in c with
      | None => Some None
      | Some c =>
          match decode_field_u256_le n with
          | None => None
          | Some None => Some None
          | Some (Some n) =>
              Some (match decode_field_u16_le nb, decode_field_u16_le ci, data_in s with
                    | Some nb, Some ci, Some s =>
                        match signature_try_from s with
                        | Some s => Some (mkSigned TK (mkUnsigned c n nb ci) s)
                        | None => None
                        end
                    | _, _, _ => None
                    end)
          end
      end
  | _ => Some None
  end.

Definition store_blueprint_out (b : StoreBlueprint) : option Rlp :=
  match b with
  | SequencerChunk c => Some (RList [scalar_out SEQUENCER_CHUNK_TAG; RData c])
  | InboxBlueprint b =>
      match blueprint_out b with Some i => Some (RList [scalar_out INBOX_BLUEPRINT_TAG; i]) | None => None end
  end.

Definition store_blueprint_in (i : Rlp) : option StoreBlueprint :=
  match i with
  | RList [t; rest] =>
      match scalar_in 8 t with
      | None => None
      | Some tag =>
          if tag =? SEQUENCER_CHUNK_TAG
          then match data_in rest with Some c => Some (SequencerChunk c) | None => None end
          else if tag =? INBOX_BLUEPRINT_TAG
          then match blueprint_in rest with Some b => Some (InboxBlueprint b) | None => None end
          else None
      end
  | _ => None
  end.

(** The functions that store a blueprint panic on one without an encoding. *)
#[export] Instance store_blueprint_codec : Codec StoreBlueprint :=
  { enc b := default (RData []) (store_blueprint_out b); dec := store_blueprint_in }.

End Codecs.

(** ** The configuration *)
Inductive ConfigurationMode {TK : TezosKeys} : Type :=
| Proxy
| Sequencer (delayed_bridge : bytes) (delayed_inbox : DelayedInbox) (sequencer : TzPublicKey).

(** ** The storage of blueprints *)
Definition EVM_BLUEPRINTS : Path := ascii_bytes "/evm/blueprints".
Definition EVM_BLUEPRINT_NB_CHUNKS : Path := ascii_bytes "/nb_chunks".
Definition EVM_NODE_FLAG : Path := ascii_bytes "/__evm_node".

Section Storage.
Context {H : Type} {R : Runtime H} {RL : RlpLib} {RS : RlpScalars} {HL : HexLib} {TK : TezosKeys}.

(** [None] is the panic of [assert_from]. *)
Definition below (path : Path) (n : Z) : option (result Path PathError) :=
  match assert_from (47 :: decimal n) with Some s => Some (concat path s) | None => None end.

Definition kpath_or_panic {A} (p : option (result Path PathError)) (k : Path -> KM (H := H) A) : KM (H := H) A :=
  or_panics p (fun p => kpath p k).

Definition blueprint_path (number : Z) : option (result Path PathError) := below EVM_BLUEPRINTS number.
Definition blueprint_chunk_path (path : Path) (chunk_index : Z) : option (result Path PathError) := below path chunk_index.
Definition blueprint_nb_chunks_path (path : Path) : result Path PathError := concat path EVM_BLUEPRINT_NB_CHUNKS.

Definition read_blueprint_nb_chunks (path : Path) : KM (H := H) Z :=
  kpath (blueprint_nb_chunks_path path) (fun p => let! buffer := read_exact p 2 in comp_ret (le_value buffer)).

Definition store_blueprint_nb_chunks (path : Path) (nb_chunks : Z) : KM (H := H) unit :=
  kpath (blueprint_nb_chunks_path path) (fun p => kruntime (store_write_all p (le_bytes 2 nb_chunks))).

(** [store_rlp] on a blueprint, which may panic. *)
Definition store_chunk (path : Path) (chunk_index : Z) (b : StoreBlueprint) : XM (H := H) unit :=
  or_panics (blueprint_chunk_path path chunk_index) (fun p =>
    match p with
    | Err e => comp_throw (AKernel (path_err e))
    | Ok p => or_panics (store_blueprint_out b) (fun _ => any_rlp (store_rlp b p))
    end).

(** A computation at the path of a blueprint. *)
Definition at_blueprint {A} (number : Z) (k : Path -> XM (H := H) A) : XM (H := H) A :=
  or_panics (blueprint_path number) (fun p => match p with Err e => comp_throw (AKernel (path_err e)) | Ok p => k p end).

Definition store_sequencer_blueprint (b : SequencerBlueprint) : XM (H := H) unit :=
  let u := sb_blueprint b in
  at_blueprint (number u) (fun path =>
    any_kernel (store_blueprint_nb_chunks path (nb_chunks u)) ;;;
    store_chunk path (chunk_index u) (SequencerChunk (chunk u))).

Definition store_inbox_blueprint_by_number (b : Blueprint) (number : Z) : XM (H := H) unit :=
  at_blueprint number (fun path =>
    any_kernel (store_blueprint_nb_chunks path 1) ;;; store_chunk path 0 (InboxBlueprint b)).

Definition read_next_blueprint_number : KM (H := H) Z :=
  fun h =>
    match read_current_block_number h with
    | Throw (EStorage (KRuntime (HostErr StoreNotAValue))) h => Ret 0 h
    | Throw e h => Throw e h
    | Ret block_number h => Ret (saturating_add 256 block_number 1) h
    | Panic => Panic
    end.

Definition store_inbox_blueprint (b : Blueprint) : XM (H := H) unit :=
  let! number := any_kernel read_next_blueprint_number in store_inbox_blueprint_by_number b number.

Definition store_immediate_blueprint (b : Blueprint) (number : Z) : XM (H := H) unit :=
  at_blueprint number (fun path =>
    any_kernel (store_blueprint_nb_chunks path 1) ;;; store_chunk path 0 (InboxBlueprint b)).

(** [BlueprintValidity]. *)
Inductive BlueprintValidity : Type :=
| Valid (b : Blueprint)
| InvalidParentHash
| BlueprintDecoderError
| DelayedHashMissing (hash : Hash)
| UnexpectedDeposit.

Definition GENESIS_PARENT : bytes := replicate 32 255.

Definition valid_parent_hash (b : BlueprintWithDelayedHashes) : KM (H := H) bool :=
  let! current_block_hash := unwrap_or read_current_block_hash GENESIS_PARENT in
  comp_ret (bool_decide (current_block_hash = parent_hash b)).

(** The loop over the delayed hashes: the transactions, or the hash that is missing. *)
Fixpoint fetch_hashes (hashes : list Hash) (delayed_txs : list Transaction) : DM (H := H) (list Transaction + Hash) :=
  match hashes with
  | [] => comp_ret (inl delayed_txs)
  | tx_hash :: hashes =>
      let! tx := find_and_remove_transaction tx_hash in
      match tx with
      | Some (tx, _) => fetch_hashes hashes (delayed_txs ++ [tx])
      | None => comp_ret (inr tx_hash)
      end
  end.

Definition fetch_delayed_txs (b : BlueprintWithDelayedHashes) : DM (H := H) BlueprintValidity :=
  let! r := fetch_hashes (delayed_hashes b) [] in
  match r with
  | inr tx_hash => comp_ret (DelayedHashMissing tx_hash)
  | inl delayed_txs =>
      let! flag := on_host (any_kernel (kread (fun h => store_has h EVM_NODE_FLAG))) in
      if negb (bool_decide (is_Some flag)) && existsb is_delayed (transactions (with_blueprint b))
      then comp_ret UnexpectedDeposit
      else comp_ret (Valid (mkBlueprint (delayed_txs ++ transactions (with_blueprint b))
                                        (bp_timestamp (with_blueprint b))))
  end.

Definition parse_and_validate_blueprint (bs : bytes) : DM (H := H) BlueprintValidity :=
  match rlp_in bs with
  | None => comp_ret BlueprintDecoderError
  | Some i =>
      match with_hashes_in i with
      | None => comp_ret BlueprintDecoderError
      | Some b =>
          let! valid := on_host (any_kernel (valid_parent_hash b)) in
          if (valid : bool) then fetch_delayed_txs b else comp_ret InvalidParentHash
      end
  end.

(** The loop [for i in 0..nb_chunks]: the chunks, or the blueprint of the inbox. *)
Fixpoint read_stored_chunks (path : Path) (n : nat) (i : Z) (chunks : list bytes) : XM (H := H) (Blueprint + list bytes) :=
  match n with
  | O => comp_ret (inr chunks)
  | S n =>
      or_panics (blueprint_chunk_path path i) (fun p =>
        match p with
        | Err e => comp_throw (AKernel (path_err e))
        | Ok p =>
            let! stored_chunk := any_rlp (reads (fun h => read_rlp h p)) in
            match stored_chunk with
            | InboxBlueprint b => comp_ret (inl b)
            | SequencerChunk c => read_stored_chunks path n (i + 1) (chunks ++ [c])
            end
        end)
  end.

(** The state of these functions: the configuration, with the delayed inbox, and the host. *)
Definition CM (A : Type) : Type := comp (ConfigurationMode * H) AnyError A.

Definition in_config {A} (c : XM (H := H) A) : CM A :=
  fun '(m, h) => match c h with Ret a h => Ret a (m, h) | Throw e h => Throw e (m, h) | Panic => Panic end.

(** A method of the delayed inbox of the configuration. *)
Definition in_inbox {A} (bridge : bytes) (l : DelayedInbox) (k : TzPublicKey) (c : DM (H := H) A) : CM A :=
  fun '(_, h) =>
    match c (l, h) with
    | Ret a (l, h) => Ret a (Sequencer bridge l k, h)
    | Throw e (l, h) => Throw e (Sequencer bridge l k, h)
    | Panic => Panic
    end.

Definition read_all_chunks_and_validate (path : Path) (nb_chunks : Z) : CM (option Blueprint) :=
  let! r := in_config (read_stored_chunks path (Z.to_nat nb_chunks) 0 []) in
  match r with
  | inl b => comp_ret (Some b)
  | inr chunks => fun '(m, h) =>
      match m with
      | Proxy => Ret None (m, h)
      | Sequencer bridge l k =>
          (let! validity := in_inbox bridge l k (parse_and_validate_blueprint (List.concat chunks)) in
           match validity with
           | Valid b => comp_ret (Some b)
           | _ => in_config (any_runtime (store_delete path)) ;;; comp_ret None
           end) (m, h)
      end
  end.

(** [n_subkeys as u16 - 1] is checked. *)
Definition read_next_blueprint : CM (option Blueprint) :=
  let! number := in_config (any_kernel read_next_blueprint_number) in
  or_panics (blueprint_path number) (fun p =>
    match p with
    | Err e => comp_throw (AKernel (path_err e))
    | Ok path =>
        let! exists_ := in_config (any_kernel (kread (fun h => store_has h path))) in
        match exists_ with
        | None => comp_ret None
        | Some _ =>
            let! nb_chunks := in_config (any_kernel (read_blueprint_nb_chunks path)) in
            let! n_subkeys := in_config (any_kernel (kread (fun h => store_count_subkeys h path))) in
            or_panics (checked_sub (wrap 16 n_subkeys) 1) (fun available_chunks =>
              if available_chunks =? nb_chunks then read_all_chunks_and_validate path nb_chunks
              else
                (if nb_chunks <? available_chunks then in_config (any_runtime (store_delete path)) else comp_ret tt) ;;;
                comp_ret None)
        end
    end).

Definition drop_blueprint (number : Z) : XM (H := H) unit := at_blueprint number (fun path => any_runtime (store_delete path)).

Definition clear_all_blueprint : XM (H := H) unit :=
  let! v := any_kernel (kread (fun h => store_has h EVM_BLUEPRINTS)) in
  match v with Some _ => any_runtime (store_delete EVM_BLUEPRINTS) | None => comp_ret tt end.

(** [possible_sequencer_upgrade] of [upgrade.rs]. *)
Definition possible_sequencer_upgrade : XM (H := H) unit :=
  let! u := read_sequencer_upgrade in
  match u with
  | Some u =>
      let! ipl_timestamp := any_kernel read_last_info_per_level_timestamp in
      if su_activation u <=? ipl_timestamp
      then sequencer_upgrade (su_pool_address u) (su_sequencer u) ;;; clear_all_blueprint
      else comp_ret tt
  | None => comp_ret tt
  end.

(** ** Forced blueprints *)

(** The loop of [fetch_delayed_transactions], with a bound on its turns. *)
Fixpoint force_blueprints (fuel : nat) (timestamp base offset : Z) : DM (H := H) unit :=
  match fuel with
  | O => fun _ => Panic
  | S fuel =>
      let! timed_out := next_delayed_inbox_blueprint in
      match timed_out with
      | None => comp_ret tt
      | Some timed_out =>
          or_panics (checked_add 256 base offset) (fun number =>
            on_host (store_immediate_blueprint (mkBlueprint timed_out timestamp) number) ;;;
            or_panics (checked_add 32 offset 1) (fun offset => force_blueprints fuel timestamp base offset))
      end
  end.

Definition fetch_delayed_transactions (fuel : nat) : DM (H := H) unit :=
  let! timestamp := on_host (any_kernel current_timestamp) in
  let! base := on_host (any_kernel read_next_blueprint_number) in
  force_blueprints fuel timestamp base 0.

(** [fetch_sequencer_blueprints] once the inbox was read. *)
Definition force_timed_out (fuel : nat) : DM (H := H) unit :=
  let! timed_out := first_has_timed_out in
  if (timed_out : bool) then fetch_delayed_transactions fuel else comp_ret tt.

(** ** Inputs of the sequencer mode *)
Inductive SequencerInput : Type :=
| DelayedInput (tx : Transaction)
| SequencerBlueprintInput (b : SequencerBlueprint).

Definition TICKS_FOR_CRYPTO : Z := 25000000.
Definition TICKS_FOR_INBOX_READ_PER_BYTE : Z := 1000.
Definition TICKS_PER_BYTE_FOR_CHUNK_STORE : Z := 1000.
Definition SEQUENCER_BLUEPRINT_TAG : Z := 3.

Definition ticks_of_blueprint_chunk (chunk_size : Z) : Z :=
  sat_add (sat_add TICKS_FOR_CRYPTO (sat_mul TICKS_FOR_INBOX_READ_PER_BYTE chunk_size))
          (sat_mul TICKS_PER_BYTE_FOR_CHUNK_STORE chunk_size).

Definition ticks_of_delayed_input (input_size : Z) : Z :=
  sat_add (sat_mul TICKS_FOR_INBOX_READ_PER_BYTE input_size) (sat_mul TICKS_PER_BYTE_FOR_CHUNK_STORE input_size).

Definition maximum_ticks_for_sequencer_chunk : Z := ticks_of_blueprint_chunk 4096.

Record SequencerParsingContext : Type := mkContext {
  ctx_sequencer : TzPublicKey; ctx_delayed_bridge : bytes; allocated_ticks : Z
}.

(** The context after an input that costs some ticks. *)
Definition spend (c : SequencerParsingContext) (ticks : Z) : SequencerParsingContext :=
  mkContext (ctx_sequencer c) (ctx_delayed_bridge c) (sat_sub (allocated_ticks c) ticks).

Context {UL : U256Lib} {KL : KeccakLib}.

(** The check of a signature and the hash of a blueprint, [verify_signature] and [digest_256]
    of [tezos_crypto_rs]. *)
Context (verify_signature : TzPublicKey -> TzSignature -> bytes -> option bool) (digest_256 : bytes -> bytes).

(** [None] is a panic of the decoder; a pair whose first part is [None] is an input that cannot
    be parsed. *)
Definition parse_sequencer_blueprint_input (bs : bytes) (context : SequencerParsingContext)
    : option (option SequencerInput * SequencerParsingContext) :=
  let context := spend context (ticks_of_blueprint_chunk (len bs)) in
  match (match rlp_in bs with Some i => signed_in i | None => Some None end) with
  | None => None
  | Some None => Some (None, context)
  | Some (Some b) =>
      let msg := digest_256 (rlp_out (unsigned_out (sb_blueprint b))) in
      if default false (verify_signature (ctx_sequencer context) (sb_signature b) msg)
      then Some (Some (SequencerBlueprintInput b), context) else Some (None, context)
  end.

Definition sequencer_parse_external (tag : Z) (input : bytes) (context : SequencerParsingContext)
    : option (option SequencerInput * SequencerParsingContext) :=
  if tag =? SEQUENCER_BLUEPRINT_TAG then parse_sequencer_blueprint_input input context else Some (None, context).

Definition sequencer_parse_internal_bytes (source bs : bytes) (context : SequencerParsingContext)
    : option SequencerInput * SequencerParsingContext :=
  let context := spend context (ticks_of_delayed_input (len bs)) in
  (if bool_decide (ctx_delayed_bridge context <> source) then None
   else match from_bytes bs with
        | None => None
        | Some tx => Some (DelayedInput (mkTransaction (keccak256 bs) (EthereumDelayed tx)))
        end, context).

Definition sequencer_handle_input (input : SequencerInput) : DM (H := H) unit :=
  match input with
  | DelayedInput tx =>
      let! previous_timestamp := on_host (any_kernel read_last_info_per_level_timestamp) in
      let! level := on_host (any_kernel read_l1_level) in
      save_transaction tx previous_timestamp level
  | SequencerBlueprintInput b => on_host (store_sequencer_blueprint b)
  end.

Definition sequencer_handle_deposit (deposit : Deposit) : DM (H := H) unit :=
  let! previous_timestamp := on_host (any_kernel read_last_info_per_level_timestamp) in
  let! level := on_host (any_kernel read_l1_level) in
  let! tx := on_host (any_kernel (handle_deposit deposit)) in
  save_transaction tx previous_timestamp level.

(** [InputResult::parse_external] in the sequencer mode; [None] is a panic. *)
Inductive SequencerResult : Type :=
| SInput (i : SequencerInput)
| SForceKernelUpgrade
| SUnparsable.

Definition sequencer_parse (input smart_rollup_address : bytes) (context : SequencerParsingContext)
    : option (SequencerResult * SequencerParsingContext) :=
  match parse_frame input with
  | Some (address, remaining) =>
      if bool_decide (address = smart_rollup_address) then
        match remaining with
        | [] => Some (SUnparsable, context)
        | transaction_tag :: remaining =>
            if transaction_tag =? FORCE_KERNEL_UPGRADE_TAG then Some (SForceKernelUpgrade, context)
            else
              match sequencer_parse_external transaction_tag remaining context with
              | None => None
              | Some (o, context) => Some (match o with Some i => SInput i | None => SUnparsable end, context)
              end
        end
      else Some (SUnparsable, context)
  | None => Some (SUnparsable, context)
  end.

(** [handle_input] of [inbox.rs] on the external messages of the sequencer mode. *)
Definition sequencer_dispatch (evaluate : bytes -> comp H unit unit) (r : SequencerResult) : DM (H := H) unit :=
  match r with
  | SInput i => sequencer_handle_input i
  | SForceKernelUpgrade => on_host (force_kernel_upgrade evaluate)
  | SUnparsable => comp_ret tt
  end.

End Storage.

(** ** The node of a stored blueprint *)
Definition NB : bytes := ascii_bytes "nb_chunks".

Lemma nb_not_chunk i : NB <> chunk_step i.
Proof. apply not_a_chunk. right. vm_compute. discriminate. Qed.

(** The number of chunks, and the chunks that are there. *)
Definition bp_node (n : Z) (rec : gmap nat bytes) : Node :=
  mkNode None (<[NB := plain (le_bytes 2 n)]> (chunk_nodes rec)).

Lemma child_at nd s : subtree nd [s] = default node_default (inner nd !! s).
Proof. unfold subtree. cbn [node_at]. by destruct (inner nd !! s). Qed.

Lemma bp_node_nb n rec : subtree (bp_node n rec) [NB] = plain (le_bytes 2 n).
Proof. rewrite child_at. cbn [inner bp_node]. by rewrite lookup_insert_eq. Qed.

Lemma bp_node_chunk n rec i :
  subtree (bp_node n rec) [chunk_step i] = match rec !! i with Some d => plain d | None => node_default end.
Proof.
  rewrite child_at. cbn [inner bp_node]. rewrite lookup_insert_ne by apply nb_not_chunk.
  rewrite chunk_nodes_lookup. by destruct (rec !! i).
Qed.

Lemma bp_node_size n rec : base.size (inner (bp_node n rec)) = S (base.size rec).
Proof.
  cbn [inner bp_node]. rewrite map_size_insert_None by (apply chunk_nodes_none, nb_not_chunk). f_equal.
  unfold chunk_nodes. rewrite <- length_map_to_list, (Permutation_length (map_to_list_kmap chunk_step _)).
  by rewrite length_fmap, length_map_to_list, map_size_fmap.
Qed.

(** A value written at a child that has nothing below it. *)
Lemma set_child nd s v : (subtree nd [s] = node_default \/ exists w, subtree nd [s] = plain w) ->
  set_at nd [s] v = with_inner nd (<[s := plain v]> (inner nd)).
Proof.
  intros Hs. pose proof (subtree_set_plain nd [s] v Hs) as E. unfold set_at in *. cbn [insert_at] in *.
  rewrite child_at in E. cbn [with_inner inner] in E. rewrite lookup_insert_eq in E. cbn [from_option id] in E. by rewrite E.
Qed.

Lemma set_nb n rec n' : set_at (bp_node n rec) [NB] (le_bytes 2 n') = bp_node n' rec.
Proof.
  rewrite set_child by (right; eexists; apply bp_node_nb). unfold bp_node, with_inner. cbn [value inner].
  by rewrite insert_insert_eq.
Qed.

Lemma set_nb_empty n : set_at node_default [NB] (le_bytes 2 n) = bp_node n ∅.
Proof.
  rewrite set_child by (left; by rewrite subtree_default). unfold bp_node, with_inner, node_default. cbn [value inner].
  by f_equal.
Qed.

Lemma set_chunk n rec i d : set_at (bp_node n rec) [chunk_step i] d = bp_node n (<[i := d]> rec).
Proof.
  rewrite set_child by (rewrite bp_node_chunk; destruct (rec !! i); eauto). unfold bp_node, with_inner. cbn [value inner].
  f_equal. rewrite insert_insert_ne by (apply not_eq_sym, nb_not_chunk). f_equal. unfold chunk_nodes.
  by rewrite fmap_insert, (kmap_insert chunk_step).
Qed.

(** ** Paths *)
Section Spec.
Context {H : Type} {R : Runtime H} {L : RuntimeLaws H}.
Context {RL : RlpLib} {RLL : RlpLaws} {SZ : RlpSize} {RS : RlpScalars} {RSL : RlpScalarsLaws}.
Context {HL : HexLib} {HLL : HexLaws} {TK : TezosKeys}.
Context (Hfit : 91 <= limit (H := H)).
Implicit Types (h : H) (rec : gmap nat bytes).

Lemma below_ok P ps n : is_path P ps -> len P + 21 <= limit (H := H) -> in_u 64 n ->
  below P n = Some (Ok (P ++ 47 :: decimal n)) /\ is_path (P ++ 47 :: decimal n) (ps ++ [decimal n]) /\
  len (P ++ 47 :: decimal n) <= len P + 21.
Proof.
  intros HP Hl Hn. pose proof limit_max as Hm. destruct (decimal_step n Hn) as (Hs & Hr & Hlen).
  assert (Hlq : len (P ++ 47 :: decimal n) <= len P + 21) by (rewrite length_app; cbn [length]; lia).
  assert (Hp : is_path (47 :: decimal n) [decimal n]).
  { split; [| done]. split_and!; [unfold join; cbn; by rewrite app_nil_r | done | by constructor |].
    change PATH_MAX_SIZE with 242. cbn [length]. lia. }
  assert (E : concat P (47 :: decimal n) = Ok (P ++ 47 :: decimal n)).
  { unfold concat. destruct (Z.leb_spec (len (P ++ 47 :: decimal n)) PATH_MAX_SIZE); [done | lia]. }
  split_and!; [| | done].
  - unfold below, assert_from. by rewrite (is_path_validate _ [decimal n] Hp), E.
  - destruct Hp as [Hg _]. by apply (concat_is_path _ _ _ _ _ HP Hg E).
Qed.

Definition BLUEPRINTS : list bytes := [ascii_bytes "evm"; ascii_bytes "blueprints"].

Lemma blueprints_path : is_path EVM_BLUEPRINTS BLUEPRINTS.
Proof. closed_path. Qed.

Definition bp_path (n : Z) : Path := EVM_BLUEPRINTS ++ 47 :: decimal n.
Definition bp_at (n : Z) : list bytes := BLUEPRINTS ++ [decimal n].

Lemma bp_path_ok n : in_u 64 n ->
  blueprint_path n = Some (Ok (bp_path n)) /\ is_path (bp_path n) (bp_at n) /\ len (bp_path n) <= 36 /\
  len (bp_path n) <= limit (H := H).
Proof using Hfit.
  intros Hn. destruct (below_ok EVM_BLUEPRINTS BLUEPRINTS n blueprints_path) as (E & Hp & Hl); [| done |].
  - change (len EVM_BLUEPRINTS) with 15. lia.
  - change (len EVM_BLUEPRINTS) with 15 in Hl. fold (bp_path n) in Hl. split_and!; [done | done | lia | lia].
Qed.

Lemma chunk_path_spec n i : in_u 64 n -> Z.of_nat i < 2 ^ 16 ->
  exists p, blueprint_chunk_path (bp_path n) (Z.of_nat i) = Some (Ok p) /\
    is_path p (bp_at n ++ [chunk_step i]) /\ len p <= limit (H := H).
Proof using Hfit.
  intros Hn Hi. destruct (bp_path_ok n Hn) as (_ & Hp & Hl & Hlim).
  destruct (below_ok (bp_path n) (bp_at n) (Z.of_nat i) Hp) as (E & Hq & Hlq); [lia | unfold in_u; lia |].
  eexists. split; [exact E |]. split; [exact Hq | lia].
Qed.

Lemma nb_path_spec n : in_u 64 n ->
  exists p, blueprint_nb_chunks_path (bp_path n) = Ok p /\ is_path p (bp_at n ++ [NB]) /\ len p <= limit (H := H).
Proof using Hfit.
  intros Hn. pose proof limit_max as Hm. destruct (bp_path_ok n Hn) as (_ & Hp & Hl & Hlim). exists (bp_path n ++ EVM_BLUEPRINT_NB_CHUNKS).
  assert (Hlen : len (bp_path n ++ EVM_BLUEPRINT_NB_CHUNKS) <= 46)
    by (rewrite length_app; change (length EVM_BLUEPRINT_NB_CHUNKS) with 10%nat; lia).
  assert (E : concat (bp_path n) EVM_BLUEPRINT_NB_CHUNKS = Ok (bp_path n ++ EVM_BLUEPRINT_NB_CHUNKS)).
  { unfold concat. change PATH_MAX_SIZE with 242. destruct (Z.leb_spec (len (bp_path n ++ EVM_BLUEPRINT_NB_CHUNKS)) 242); [done | lia]. }
  split_and!; [done | | lia]. apply (concat_is_path (bp_path n) (bp_at n) EVM_BLUEPRINT_NB_CHUNKS [NB] _ Hp); [| done].
  split_and!; [done | done | by constructor | done].
Qed.

(** ** What is stored for a blueprint *)
Definition shows_bp h (n : Z) (o : option (Z * gmap nat bytes)) : Prop :=
  subtree (view h) (bp_at n) = match o with Some (nb, rec) => bp_node nb rec | None => node_default end.

Definition elsewhere h h' (n : Z) : Prop := forall q, diverge (bp_at n) q -> subtree (view h') q = subtree (view h) q.

Lemma store_nb_spec h n o nb : in_u 64 n -> shows_bp h n o ->
  exists h', store_blueprint_nb_chunks (bp_path n) nb h = Ret tt h' /\
    shows_bp h' n (Some (nb, match o with Some (_, rec) => rec | None => ∅ end)) /\ elsewhere h h' n.
Proof using Hfit.
  intros Hn Hs. destruct (nb_path_spec n Hn) as (p & E & Hp & Hl). unfold store_blueprint_nb_chunks, kpath, kruntime.
  rewrite E. destruct (law_write_all h p _ (le_bytes 2 nb) Hp Hl) as (h' & -> & Hv). exists h'. split_and!; [done | |].
  - unfold shows_bp. rewrite Hv, subtree_set_below, Hs. destruct o as [[nb0 rec]|]; [apply set_nb | apply set_nb_empty].
  - intros q Hq. rewrite Hv. apply subtree_set_diverge. by apply diverge_app_l.
Qed.

Definition bp_ok (b : StoreBlueprint) : Prop := storable b /\ is_Some (store_blueprint_out b).

Lemma stored_chunk_spec h n nb rec i b : in_u 64 n -> shows_bp h n (Some (nb, rec)) -> Z.of_nat i < 2 ^ 16 -> bp_ok b ->
  exists h', store_chunk (bp_path n) (Z.of_nat i) b h = Ret tt h' /\
    shows_bp h' n (Some (nb, <[i := rlp_out (enc b)]> rec)) /\ elsewhere h h' n.
Proof using Hfit.
  intros Hn Hs Hi [_ [x Hx]]. destruct (chunk_path_spec n i Hn Hi) as (p & E & Hp & Hl).
  unfold store_chunk. rewrite E, Hx. cbn [or_panics]. unfold any_rlp.
  destruct (store_rlp_spec h b p _ Hp Hl) as (h' & -> & Hv). exists h'. split_and!; [done | |].
  - unfold shows_bp. by rewrite Hv, subtree_set_below, Hs, set_chunk.
  - intros q Hq. rewrite Hv. apply subtree_set_diverge. by apply diverge_app_l.
Qed.

(** Storing a chunk of a blueprint: the number of chunks is written again. *)
Lemma store_at_spec h n o nb i b : in_u 64 n -> shows_bp h n o -> Z.of_nat i < 2 ^ 16 -> bp_ok b ->
  exists h', at_blueprint n (fun path => any_kernel (store_blueprint_nb_chunks path nb) ;;; store_chunk path (Z.of_nat i) b) h = Ret tt h' /\
    shows_bp h' n (Some (nb, <[i := rlp_out (enc b)]> (match o with Some (_, rec) => rec | None => ∅ end))) /\
    elsewhere h h' n.
Proof using Hfit.
  intros Hn Hs Hi Hb. destruct (bp_path_ok n Hn) as (E & _). unfold at_blueprint. rewrite E. cbn [or_panics].
  destruct (store_nb_spec h n o nb Hn Hs) as (h1 & E1 & Hs1 & F1). unfold comp_bind, any_kernel at 1. rewrite E1.
  destruct (stored_chunk_spec h1 n nb _ i b Hn Hs1 Hi Hb) as (h2 & -> & Hs2 & F2).
  exists h2. split_and!; [done | done |]. intros q Hq. by rewrite F2, F1.
Qed.

Lemma read_nb_spec h n nb rec : in_u 64 n -> shows_bp h n (Some (nb, rec)) -> in_u 16 nb ->
  read_blueprint_nb_chunks (bp_path n) h = Ret nb h.
Proof using Hfit.
  intros Hn Hs Hu. destruct (nb_path_spec n Hn) as (p & E & Hp & Hl). unfold read_blueprint_nb_chunks, kpath. rewrite E.
  unfold comp_bind. assert (Hv : value_at (view h) (bp_at n ++ [NB]) = Some (le_bytes 2 nb)).
  { unfold value_at. by rewrite subtree_app, Hs, bp_node_nb. }
  pose proof (read_exact_spec h _ _ _ Hp Hl Hv) as Hr. rewrite length_le_bytes in Hr. rewrite Hr by done.
  unfold comp_ret. by rewrite le_value_bytes, wrap_small.
Qed.

Lemma read_stored_spec h n nb rec : in_u 64 n -> shows_bp h n (Some (nb, rec)) ->
  forall k i chunks cs, Z.of_nat (i + k) <= 2 ^ 16 -> length cs = k ->
  (forall j c, cs !! j = Some c -> rec !! (i + j)%nat = Some (rlp_out (enc (SequencerChunk c))) /\ bp_ok (SequencerChunk c)) ->
  read_stored_chunks (bp_path n) k (Z.of_nat i) chunks h = Ret (inr (chunks ++ cs)) h.
Proof using RLL Hfit.
  intros Hn Hs. induction k as [|k IH]; intros i chunks cs Hk Hlen Hcs; cbn [read_stored_chunks].
  - destruct cs; [| done]. by rewrite app_nil_r.
  - destruct cs as [|c cs]; [done |]. destruct (chunk_path_spec n i Hn ltac:(lia)) as (p & E & Hp & Hl). rewrite E. cbn [or_panics].
    destruct (Hcs 0%nat c eq_refl) as [Hr [Hst _]]. rewrite Nat.add_0_r in Hr. unfold comp_bind, any_rlp, reads.
    assert (Hstored : stored (view h) (bp_at n ++ [chunk_step i]) (SequencerChunk c)).
    { split; [| done]. by rewrite subtree_app, Hs, bp_node_chunk, Hr. }
    rewrite (read_rlp_spec h p _ _ Hp Hl Hstored). replace (Z.of_nat i + 1) with (Z.of_nat (S i)) by lia.
    rewrite (IH (S i) (chunks ++ [c]) cs); [by rewrite <- app_assoc | lia | by injection Hlen |].
    intros j d Hj. rewrite Nat.add_succ_l, <- Nat.add_succ_r. by apply Hcs.
Qed.

Lemma read_inbox_blueprint h n nb rec b : in_u 64 n -> shows_bp h n (Some (nb, rec)) ->
  rec !! 0%nat = Some (rlp_out (enc (InboxBlueprint b))) -> bp_ok (InboxBlueprint b) ->
  read_stored_chunks (bp_path n) 1 0 [] h = Ret (inl b) h.
Proof using RLL Hfit.
  intros Hn Hs Hr [Hst _]. cbn [read_stored_chunks]. destruct (chunk_path_spec n 0 Hn ltac:(lia)) as (p & E & Hp & Hl).
  change (Z.of_nat 0) with 0 in E. rewrite E. cbn [or_panics]. unfold comp_bind, any_rlp, reads.
  assert (Hstored : stored (view h) (bp_at n ++ [chunk_step 0]) (InboxBlueprint b)).
  { split; [| done]. by rewrite subtree_app, Hs, bp_node_chunk, Hr. }
  by rewrite (read_rlp_spec h p _ _ Hp Hl Hstored).
Qed.

(** ** Reading the next blueprint *)
Lemma kind_of_bp nb rec : exists k, kind_of (bp_node nb rec) = Some k.
Proof.
  unfold kind_of. cbn [value bp_node]. rewrite bp_node_size. cbn. eauto.
Qed.

Lemma node_at_bp h n nb rec : shows_bp h n (Some (nb, rec)) -> node_at (view h) (bp_at n) = Some (bp_node nb rec).
Proof.
  intros Hs. unfold shows_bp, subtree in Hs. destruct (node_at (view h) (bp_at n)) as [m|]; cbn in Hs; [by subst |].
  apply (f_equal inner) in Hs. symmetry in Hs. cbn [inner bp_node node_default] in Hs. by apply insert_non_empty in Hs.
Qed.

Lemma next_absent (m : ConfigurationMode) h n : in_u 64 n -> read_next_blueprint_number h = Ret n h -> shows_bp h n None ->
  read_next_blueprint (m, h) = Ret None (m, h).
Proof using Hfit.
  intros Hn En Hs. destruct (bp_path_ok n Hn) as (E & Hp & Hl & Hlim). unfold read_next_blueprint, comp_bind, in_config, any_kernel, kread.
  rewrite En, E. cbn [or_panics]. by rewrite (law_has h _ _ Hp Hlim), Hs.
Qed.

(** What is done with a blueprint depends on how many of its chunks are there. *)
Lemma next_present (m : ConfigurationMode) h n nb rec : in_u 64 n -> read_next_blueprint_number h = Ret n h ->
  shows_bp h n (Some (nb, rec)) -> in_u 16 nb -> Z.of_nat (base.size rec) + 1 < 2 ^ 16 ->
  read_next_blueprint (m, h) =
  if Z.of_nat (base.size rec) =? nb then read_all_chunks_and_validate (bp_path n) nb (m, h)
  else if nb <? Z.of_nat (base.size rec)
       then (in_config (any_runtime (store_delete (bp_path n))) ;;; comp_ret None) (m, h)
       else Ret None (m, h).
Proof using Hfit.
  intros Hn En Hs Hnb Hsz. destruct (bp_path_ok n Hn) as (E & Hp & Hl & Hlim). unfold read_next_blueprint.
  unfold comp_bind at 1, in_config at 1, any_kernel at 1. rewrite En, E. cbn [or_panics].
  unfold comp_bind at 1, in_config at 1, any_kernel at 1, kread at 1. rewrite (law_has h _ _ Hp Hlim), Hs.
  destruct (kind_of_bp nb rec) as [k ->]. unfold comp_bind at 1, in_config at 1, any_kernel at 1.
  rewrite (read_nb_spec h n nb rec Hn Hs Hnb). unfold comp_bind at 1, in_config at 1, any_kernel at 1, kread at 1.
  rewrite (law_count h _ _ Hp Hlim), (node_at_bp h n nb rec Hs), bp_node_size.
  rewrite wrap_small by (unfold in_u; lia). unfold checked_sub.
  destruct (Z.leb_spec 1 (Z.of_nat (S (base.size rec)))); [| lia]. cbn [or_panics].
  replace (Z.of_nat (S (base.size rec)) - 1) with (Z.of_nat (base.size rec)) by lia.
  destruct (_ =? nb); [done |]. by destruct (nb <? _).
Qed.

(** Deleting a blueprint. *)
Lemma delete_bp h n nb rec : in_u 64 n -> shows_bp h n (Some (nb, rec)) ->
  exists h', store_delete (bp_path n) h = Ret tt h' /\ shows_bp h' n None /\ elsewhere h h' n.
Proof using Hfit.
  intros Hn Hs. destruct (bp_path_ok n Hn) as (_ & Hp & Hl & Hlim). pose proof (law_delete h _ _ Hp Hlim) as Hd.
  destruct (is_default _) eqn:Ed.
  - apply is_default_true in Ed. rewrite Hs in Ed. apply (f_equal inner) in Ed. cbn [inner bp_node node_default] in Ed.
    by apply insert_non_empty in Ed.
  - destruct Hd as (h' & -> & Hv). exists h'. split_and!; [done | |].
    + unfold shows_bp. rewrite Hv. apply subtree_del. by intros [? ?]%app_nil.
    + intros q Hq. rewrite Hv. by apply subtree_del_diverge.
Qed.

(** A blueprint of the inbox is read back, in any mode. *)
Lemma next_inbox (m : ConfigurationMode) h n b : in_u 64 n -> read_next_blueprint_number h = Ret n h ->
  shows_bp h n (Some (1, {[0%nat := rlp_out (enc (InboxBlueprint b))]})) -> bp_ok (InboxBlueprint b) ->
  read_next_blueprint (m, h) = Ret (Some b) (m, h).
Proof using RLL Hfit.
  intros Hn En Hs Hb. rewrite (next_present m h n _ _ Hn En Hs); [| unfold in_u; lia | rewrite map_size_singleton; lia].
  rewrite map_size_singleton. change (Z.of_nat 1 =? 1) with true. cbv iota.
  unfold read_all_chunks_and_validate, comp_bind, in_config. change (Z.to_nat 1) with 1%nat.
  by rewrite (read_inbox_blueprint h n _ _ b Hn Hs) by (rewrite ?lookup_singleton_eq; done).
Qed.

(** ** Well-formed blueprints *)
Lemma mapM_transactions txs : Forall transaction_ok txs ->
  exists items, mapM transaction_out txs = Some items /\ mapM transaction_in items = Some txs.
Proof using RLL RSL.
  induction 1 as [|tx txs Ht _ (items & E1 & E2)]; [by exists [] |].
  destruct (transaction_round_trip tx Ht) as (i & Eo & Ei). exists (i :: items). cbn. by rewrite Eo, E1, Ei, E2.
Qed.

Definition blueprint_ok (b : Blueprint) : Prop := Forall transaction_ok (transactions b) /\ in_s 64 (bp_timestamp b).

Lemma blueprint_round_trip b : blueprint_ok b -> exists i, blueprint_out b = Some i /\ blueprint_in i = Some b.
Proof using RLL RSL.
  intros [Ht Hs]. destruct (mapM_transactions _ Ht) as (items & E1 & E2). unfold blueprint_out. rewrite E1.
  eexists. split; [done |]. cbn [blueprint_in]. unfold decode_list. rewrite rlp_iter_list, E2, timestamp_round_trip by done.
  by destruct b.
Qed.

Lemma inbox_blueprint_ok b : blueprint_ok b -> len (rlp_out (enc (InboxBlueprint b))) < 2 ^ 31 -> bp_ok (InboxBlueprint b).
Proof using RLL RSL.
  intros Hb Hs. destruct (blueprint_round_trip b Hb) as (i & Eo & Ei). split; [split; [done |] |].
  - cbn [enc dec store_blueprint_codec store_blueprint_out]. rewrite Eo. cbn [from_option id store_blueprint_in].
    rewrite scalar_tag by done. change (INBOX_BLUEPRINT_TAG =? SEQUENCER_CHUNK_TAG) with false.
    by rewrite Z.eqb_refl, Ei.
  - cbn [store_blueprint_out]. rewrite Eo. eauto.
Qed.

Lemma sequencer_chunk_ok c : len (rlp_out (enc (SequencerChunk c))) < 2 ^ 31 -> bp_ok (SequencerChunk c).
Proof using RSL.
  intros Hs. split; [split; [done |] | cbn; eauto]. cbn [enc dec store_blueprint_codec store_blueprint_out from_option id store_blueprint_in].
  by rewrite scalar_tag by done.
Qed.

(** ** Reads of the current block *)
Lemma read_exact_same h h' p ps size : is_path p ps -> len p <= limit (H := H) -> Z.of_nat size <= MAX_FILE_CHUNK_SIZE ->
  value_at (view h') ps = value_at (view h) ps ->
  read_exact p size h' =
  match read_exact p size h with Ret v _ => Ret v h' | Throw e _ => Throw e h' | Panic => Panic end.
Proof.
  intros Hp Hl Hs Hv. unfold read_exact, comp_bind, kread.
  rewrite !(law_read_slice _ p ps 0 _ Hp Hl) by (lia || by rewrite length_replicate). rewrite Hv.
  destruct (value_at (view h) ps) as [v|]; [| done]. destruct (len v <? 0); [done |]. cbv zeta.
  cbv beta iota. by case_match.
Qed.

Definition CURRENT : list bytes :=
  [ascii_bytes "evm"; ascii_bytes "world_state"; ascii_bytes "blocks"; ascii_bytes "current"].
Definition NUMBER_AT : list bytes := CURRENT ++ [ascii_bytes "number"].
Definition HASH_AT : list bytes := CURRENT ++ [ascii_bytes "hash"].

Lemma number_path : exists p, concat EVM_CURRENT_BLOCK BLOCK_NUMBER = Ok p /\ is_path p NUMBER_AT /\ len p = 38.
Proof. eexists. split; [vm_compute; reflexivity |]. split; [closed_path | vm_compute; reflexivity]. Qed.

Lemma hash_path : exists p, concat EVM_CURRENT_BLOCK BLOCK_HASH = Ok p /\ is_path p HASH_AT /\ len p = 36.
Proof. eexists. split; [vm_compute; reflexivity |]. split; [closed_path | vm_compute; reflexivity]. Qed.

(** The next number and the parent only depend on the current block. *)
Definition same_block h h' : Prop := subtree (view h') CURRENT = subtree (view h) CURRENT.

Lemma same_block_value h h' s : same_block h h' -> value_at (view h') (CURRENT ++ [s]) = value_at (view h) (CURRENT ++ [s]).
Proof. intros E. unfold value_at. by rewrite !subtree_app, E. Qed.

Lemma next_number_same h h' n : same_block h h' -> read_next_blueprint_number h = Ret n h ->
  read_next_blueprint_number h' = Ret n h'.
Proof using Hfit.
  intros Hb. unfold read_next_blueprint_number, read_current_block_number, kpath.
  destruct number_path as (p & -> & Hp & Hl). unfold comp_bind.
  rewrite (read_exact_same h h' p _ 8 Hp) by (try done; try lia; by apply same_block_value).
  destruct (read_exact p 8 h) as [v h0|e h0|]; [| | done].
  - by intros [= <- _].
  - by repeat case_match; intros; simplify_eq.
Qed.

Lemma parent_same h h' b v : same_block h h' -> valid_parent_hash b h = Ret v h -> valid_parent_hash b h' = Ret v h'.
Proof using Hfit.
  intros Hb. unfold valid_parent_hash, read_current_block_hash, unwrap_or, kpath, comp_bind.
  destruct hash_path as (p & -> & Hp & Hl).
  rewrite (read_exact_same h h' p _ 32 Hp) by (try done; try lia; by apply same_block_value).
  destruct (read_exact p 32 h) as [w h0|e h0|]; [| | done]; by intros [= -> _].
Qed.

(** *** Where things are *)
Lemma bp_diverge a b : 0 <= a -> 0 <= b -> a <> b -> diverge (bp_at a) (bp_at b).
Proof.
  intros Ha Hb Hne. apply diverge_app_same, diverge_cons. left. intros E. by apply decimal_inj in E.
Qed.

Lemma bp_delayed n : diverge (bp_at n) DELAYED.
Proof. apply diverge_cons. right. apply diverge_cons. left. vm_compute. discriminate. Qed.

Lemma bp_current n : diverge (bp_at n) CURRENT.
Proof. apply diverge_cons. right. apply diverge_cons. left. vm_compute. discriminate. Qed.

Lemma delayed_current : diverge DELAYED CURRENT.
Proof. apply diverge_cons. right. apply diverge_cons. left. vm_compute. discriminate. Qed.

End Spec.

End EvmBlueprint.
Export EvmBlueprint.
