(* ===== verification/EvmSequencerProps.v ===== *)
(** What the sequencer mode of the Etherlink kernel guarantees: blueprints are put together from
    signed chunks, and delayed transactions are forced when the sequencer ignores them. *)

From Stdlib Require Import String Ascii.
From stdpp Require Import strings fin_maps.
From S2P Require Import Prelude SdkPath SdkStore SdkHost SdkRuntime SdkMock SdkStorage SdkTxn EvmIndexable EvmRlp EvmLinkedList EvmConcrete EvmAccount EvmTx EvmStorage EvmInbox EvmChunks EvmGasPrice EvmSamples EvmDelayed EvmBlueprint.

Open Scope Z_scope.

Module EvmSequencerProps.

Lemma insert_size_bounds (rec : gmap nat bytes) (j : nat) d : (0 < j)%nat -> j ∈ dom rec ->
  (1 < base.size (<[0%nat := d]> rec) <= S (base.size rec))%nat.
Proof.
  intros Hj Hdom. split; [| rewrite map_size_insert; case_match; cbn [id]; lia].
  assert (Hsub : {[0%nat; j]} ⊆ dom (<[0%nat := d]> rec)).
  { intros x [->%elem_of_singleton | ->%elem_of_singleton]%elem_of_union; apply elem_of_dom; [by rewrite lookup_insert_eq; eauto |].
    rewrite lookup_insert_ne by lia. by apply elem_of_dom. }
  apply subseteq_size in Hsub. rewrite size_dom, size_union, !size_singleton in Hsub; [lia |].
  apply disjoint_singleton_l, not_elem_of_singleton. lia.
Qed.

(** ** Forced transactions *)
Section Forced.
Context {H : Type} {R : Runtime H} {L : RuntimeLaws H}.
Context {RL : RlpLib} {RLL : RlpLaws} {SZ : RlpSize} {RS : RlpScalars} {RSL : RlpScalarsLaws}.
Context {HL : HexLib} {HLL : HexLaws} {TK : TezosKeys}.
Context (Hfit : 91 <= limit (H := H)).
Implicit Types (h : H) (xs : list (Hash * DelayedInboxItem)).

(** The transactions of the [i]-th forced blueprint. *)
Definition batch (i : nat) xs : list Transaction := map to_transaction (take BATCH (drop (i * BATCH) xs)).

Definition forced (ts : Z) (i : nat) xs : Blueprint := mkBlueprint (batch i xs) ts.

Lemma batch_step i xs : batch (S i) xs = batch i (drop BATCH xs).
Proof. unfold batch. by rewrite drop_drop. Qed.

Lemma BATCH_pos : (0 < BATCH)%nat.
Proof. apply Nat.ltb_lt. vm_compute. reflexivity. Qed.

(** The batches are the whole sequence, in order. *)
Lemma batches_all k : forall xs, (length xs <= k)%nat ->
  List.concat (map (fun i => batch i xs) (seq 0 k)) = map to_transaction xs.
Proof.
  induction k as [|k IH]; intros xs Hk; [destruct xs; cbn in *; [done | lia] |]. pose proof BATCH_pos as HB.
  cbn [seq map List.concat]. rewrite <- seq_shift, map_map.
  rewrite (map_ext _ (fun i => batch i (drop BATCH xs))) by (intros i; apply batch_step).
  destruct xs as [|x xs].
  - rewrite drop_nil, IH by (cbn; lia). unfold batch. cbn [Nat.mul]. by rewrite drop_0, take_nil.
  - rewrite IH by (rewrite length_drop; cbn [length] in *; lia). unfold batch at 1. cbn [Nat.mul]. rewrite drop_0.
    by rewrite <- map_app, take_drop.
Qed.

Lemma to_transaction_ok x : delayed_ok (di_transaction (snd x)) -> transaction_ok (to_transaction x).
Proof.
  destruct x as [hash [d ts lv]]. cbn. intros Hd. destruct (hash_h256 hash) as [Hl _]. unfold to_transaction, transaction_ok.
  by destruct d.
Qed.

Lemma forced_ok ts i xs : in_s 64 ts -> Forall (fun x => item_ok (snd x)) xs -> blueprint_ok (forced ts i xs).
Proof.
  intros Ht Hx. split; [| done]. cbn [transactions forced]. unfold batch. apply Forall_forall. intros tx Htx.
  apply list_elem_of_In, in_map_iff in Htx as (x & <- & Hin). apply to_transaction_ok.
  apply list_elem_of_In in Hin. assert (Hin' : x ∈ xs).
  { rewrite <- (take_drop (i * BATCH) xs). apply elem_of_app. right.
    rewrite <- (take_drop BATCH (drop _ xs)). apply elem_of_app. by left. }
  rewrite Forall_forall in Hx. destruct (Hx x Hin') as [Hd _]. exact Hd.
Qed.

(** What is stored for a forced blueprint, where [o] was stored before: the blueprint is the
    only chunk, but the chunks with other indices stay. *)
Definition forced_at h (n : Z) (o : option (Z * gmap nat bytes)) (b : Blueprint) : Prop :=
  shows_bp h n (Some (1, <[0%nat := rlp_out (enc (InboxBlueprint b))]> (match o with Some (_, rec) => rec | None => ∅ end))).

(** What the loop leaves alone: everything but the inbox and the blueprints from [n] on. *)
Definition kept h h' (n : Z) : Prop :=
  forall q, diverge DELAYED q -> (forall m, n <= m -> diverge (bp_at m) q) -> subtree (view h') q = subtree (view h) q.

Lemma store_forced h n o b : in_u 64 n -> shows_bp h n o -> bp_ok (InboxBlueprint b) ->
  exists h', store_immediate_blueprint b n h = Ret tt h' /\ forced_at h' n o b /\ elsewhere h h' n.
Proof using Hfit.
  intros Hn Hs Hb. destruct (store_at_spec Hfit h n o 1 0 (InboxBlueprint b) Hn Hs ltac:(lia) Hb) as (h' & E & Hs' & F).
  exists h'. change (Z.of_nat 0) with 0 in E. split_and!; [exact E | exact Hs' | exact F].
Qed.

Lemma force_spec ts base (prev : Z -> option (Z * gmap nat bytes)) : in_s 64 ts -> forall fuel xs l h gone offset, inbox l h xs gone -> (length xs < fuel)%nat ->
  Forall (fun x => item_ok (snd x)) xs -> 0 <= base -> 0 <= offset -> offset + len xs < 2 ^ 32 -> base + offset + len xs < 2 ^ 64 ->
  (forall i, (i * BATCH < length xs)%nat -> shows_bp h (base + offset + Z.of_nat i) (prev (base + offset + Z.of_nat i)) /\
     len (rlp_out (enc (InboxBlueprint (forced ts i xs)))) < 2 ^ 31) ->
  exists l' h' gone', force_blueprints fuel ts base offset (l, h) = Ret tt (l', h') /\ inbox l' h' [] gone' /\
    (forall i, (i * BATCH < length xs)%nat -> forced_at h' (base + offset + Z.of_nat i) (prev (base + offset + Z.of_nat i)) (forced ts i xs)) /\
    kept h h' (base + offset).
Proof using RLL SZ RSL HLL Hfit.
  intros Hts. pose proof BATCH_pos as HB. induction fuel as [|fuel IH]; [lia |].
  intros xs l h gone offset Hi Hf Hok Hb Ho Hoff Hnum Hfree. cbn [force_blueprints]. unfold comp_bind at 1.
  destruct (next_blueprint_spec Hfit l h xs gone Hi) as (l1 & h1 & g1 & E1 & Hi1 & A1). rewrite E1. clear E1.
  destruct xs as [|x xs].
  { exists l1, h1, g1. split_and!; [done | done | cbn; lia | intros q Hq _; by apply A1]. }
  set (ys := x :: xs) in *. change (map to_transaction (take BATCH ys)) with (batch 0 ys).
  assert (Hlen : (length (drop BATCH ys) < length ys)%nat) by (rewrite length_drop; cbn [length ys]; lia).
  destruct (Hfree 0%nat ltac:(cbn; lia)) as [Hs0 Hsz0]. rewrite Z.add_0_r in Hs0.
  unfold checked_add at 1. destruct (Z.ltb_spec (base + offset) (2 ^ 256)); [| cbn [length] in *; lia]. cbn [or_panics].
  assert (Hs1 : shows_bp h1 (base + offset) (prev (base + offset))).
  { unfold shows_bp. rewrite A1; [exact Hs0 | apply diverge_sym, bp_delayed]. }
  assert (Hn : in_u 64 (base + offset)) by (unfold in_u; lia).
  destruct (store_forced h1 (base + offset) _ (forced ts 0 ys) Hn Hs1) as (h2 & E2 & Hs2 & F2).
  { apply inbox_blueprint_ok; [by apply forced_ok | done]. }
  unfold comp_bind, on_host. unfold forced in E2 at 1. rewrite E2. unfold checked_add.
  destruct (Z.ltb_spec (offset + 1) (2 ^ 32)); [| cbn [length ys] in *; lia]. cbn [or_panics].
  assert (Hi2 : inbox l1 h2 (drop BATCH ys) g1) by (apply (inbox_frame l1 h1); [done | apply F2, bp_delayed]).
  destruct (IH (drop BATCH ys) l1 h2 g1 (offset + 1) Hi2) as (l3 & h3 & g3 & E3 & Hi3 & Hs3 & K3); try lia.
  - by apply Forall_drop.
  - intros i Hlt. rewrite length_drop in Hlt. destruct (Hfree (S i) ltac:(cbn [Nat.mul]; lia)) as [Hs Hsz]. split.
    + replace (base + (offset + 1) + Z.of_nat i) with (base + offset + Z.of_nat (S i)) by lia.
      unfold shows_bp. rewrite F2 by (apply bp_diverge; lia). rewrite A1; [exact Hs | apply diverge_sym, bp_delayed].
    + unfold forced in *. by rewrite <- batch_step.
  - exists l3, h3, g3. split_and!; [done | done | |].
    + intros [|i] Hlt.
      * rewrite Z.add_0_r. unfold forced_at, shows_bp. rewrite K3; [exact Hs2 | apply diverge_sym, bp_delayed |].
        intros m Hm. apply bp_diverge; lia.
      * replace (base + offset + Z.of_nat (S i)) with (base + (offset + 1) + Z.of_nat i) by lia.
        unfold forced. rewrite batch_step. apply Hs3. rewrite length_drop. cbn [Nat.mul] in Hlt. lia.
    + intros q Hq Hm. rewrite K3; [| done | intros m Hmm; apply Hm; lia]. rewrite F2 by (apply Hm; lia). by apply A1.
Qed.

(** What is known when the oldest transaction may have timed out: the clock, the level, the
    settings and the number of the next blueprint can be read, no transaction is from the
    future, the numbers of the blueprints fit in 64 bits, and the blueprints can be stored. *)
Record forcing h l xs gone (now timeout level min_levels base : Z) (fuel : nat) : Prop := {
  forcing_inbox : inbox l h xs gone;
  forcing_now : current_timestamp h = Ret now h;
  forcing_timeout : delayed_inbox_timeout h = Ret timeout h;
  forcing_level : read_l1_level h = Ret level h;
  forcing_min_levels : delayed_inbox_min_levels h = Ret min_levels h;
  forcing_number : read_next_blueprint_number h = Ret base h;
  forcing_clock : in_s 64 now;
  forcing_past : Forall (fun x => item_ok (snd x) /\ timestamp_as_u64 (di_timestamp (snd x)) <= timestamp_as_u64 now /\
                                  di_level (snd x) <= level) xs;
  forcing_base : 0 <= base;
  forcing_numbers : base + len xs < 2 ^ 64;
  forcing_count : len xs < 2 ^ 32;
  forcing_fuel : (length xs < fuel)%nat;
  forcing_sizes i : (i * BATCH < length xs)%nat -> len (rlp_out (enc (InboxBlueprint (forced now i xs)))) < 2 ^ 31
}.

Lemma forcing_spec h l xs gone now timeout level min_levels base fuel prev :
  forcing h l xs gone now timeout level min_levels base fuel ->
  (forall i, (i * BATCH < length xs)%nat -> shows_bp h (base + Z.of_nat i) (prev (base + Z.of_nat i))) ->
  if timed_out now timeout level min_levels xs
  then exists l' h' gone', force_timed_out fuel (l, h) = Ret tt (l', h') /\ inbox l' h' [] gone' /\
    (forall i, (i * BATCH < length xs)%nat -> in_u 64 (base + Z.of_nat i) /\ bp_ok (InboxBlueprint (forced now i xs)) /\
       forced_at h' (base + Z.of_nat i) (prev (base + Z.of_nat i)) (forced now i xs)) /\
    kept h h' base
  else force_timed_out fuel (l, h) = Ret tt (l, h).
Proof using RLL SZ RSL HLL Hfit.
  intros [Hi E1 E2 E3 E4 E5 Hnow Hall Hb Hnum Hlen Hf Hsz] Hprev.
  assert (Hok : Forall (fun x => item_ok (snd x)) xs) by (eapply Forall_impl; [exact Hall | by intros x (Hx & _)]).
  assert (Hpast : Forall (fun x => timestamp_as_u64 (di_timestamp (snd x)) <= timestamp_as_u64 now /\ di_level (snd x) <= level) xs)
    by (eapply Forall_impl; [exact Hall | by intros x (_ & Hx)]).
  unfold force_timed_out, comp_bind.
  rewrite (timed_out_spec Hfit l h xs gone now timeout level min_levels Hi E1 E2 E3 E4 Hpast).
  destruct (timed_out _ _ _ _ _); [| done].
  unfold fetch_delayed_transactions, comp_bind, on_host, any_kernel. rewrite E1, E5.
  destruct (force_spec now base prev Hnow fuel xs l h gone 0 Hi Hf Hok Hb) as (l' & h' & gone' & E & Hi' & Hs & Hk); try lia.
  { intros i Hlt. rewrite Z.add_0_r. split; [by apply Hprev | by apply Hsz]. }
  rewrite Z.add_0_r in Hk. exists l', h', gone'. split_and!; [done | done | | done].
  intros i Hlt. specialize (Hs i Hlt). rewrite Z.add_0_r in Hs. split_and!; [| | exact Hs].
  - pose proof BATCH_pos. unfold in_u. nia.
  - apply inbox_blueprint_ok; [by apply forced_ok | by apply Hsz].
Qed.

(** C3: delayed transactions cannot be ignored for ever.  Once the oldest transaction of the
    delayed inbox has waited for the timeout and the minimal number of levels, every
    transaction of the inbox is put, in order, in the next blueprints, at most a thousand in
    each: the inbox is left empty, and whatever happens elsewhere in the storage, the kernel
    reads these blueprints when it comes to their numbers, in both modes.  (No chunk with
    these numbers has been stored before: see [delayed_transactions_can_be_lost].)  Before
    the timeout nothing changes.  Nothing but the inbox and the blueprints from the next one on is touched. *)
Theorem timed_out_transactions_are_forced h l xs gone now timeout level min_levels base fuel :
  inbox l h xs gone -> current_timestamp h = Ret now h -> delayed_inbox_timeout h = Ret timeout h ->
  read_l1_level h = Ret level h -> delayed_inbox_min_levels h = Ret min_levels h ->
  read_next_blueprint_number h = Ret base h -> in_s 64 now ->
  Forall (fun x => item_ok (snd x) /\ timestamp_as_u64 (di_timestamp (snd x)) <= timestamp_as_u64 now /\ di_level (snd x) <= level) xs ->
  0 <= base -> base + len xs < 2 ^ 64 -> len xs < 2 ^ 32 -> (length xs < fuel)%nat ->
  (forall i, (i * BATCH < length xs)%nat -> shows_bp h (base + Z.of_nat i) None /\
     len (rlp_out (enc (InboxBlueprint (forced now i xs)))) < 2 ^ 31) ->
  if timed_out now timeout level min_levels xs
  then exists l' h' gone', force_timed_out fuel (l, h) = Ret tt (l', h') /\ inbox l' h' [] gone' /\
    List.concat (map (fun i => transactions (forced now i xs)) (seq 0 (length xs))) = map to_transaction xs /\
    (forall i m h'', (i * BATCH < length xs)%nat -> read_next_blueprint_number h'' = Ret (base + Z.of_nat i) h'' ->
       subtree (view h'') (bp_at (base + Z.of_nat i)) = subtree (view h') (bp_at (base + Z.of_nat i)) ->
       (length (transactions (forced now i xs)) <= 1000)%nat /\
       read_next_blueprint (m, h'') = Ret (Some (forced now i xs)) (m, h'')) /\
    kept h h' base
  else force_timed_out fuel (l, h) = Ret tt (l, h).
Proof using RLL SZ RSL HLL Hfit.
  intros Hi E1 E2 E3 E4 E5 Hnow Hall Hb Hnum Hlen Hf Hfree.
  assert (Hfg : forcing h l xs gone now timeout level min_levels base fuel) by (constructor; try done; intros i Hlt; by apply Hfree).
  pose proof (forcing_spec _ _ _ _ _ _ _ _ _ _ (fun _ => None) Hfg ltac:(intros i Hlt; by apply Hfree)) as Hspec.
  destruct (timed_out _ _ _ _ _); [| done]. destruct Hspec as (l' & h' & gone' & E & Hi' & Hs & Hk).
  exists l', h', gone'. split_and!; [done | done | by apply batches_all | | done].
  intros i m h'' Hlt En Hsub. split.
  { cbn [transactions forced]. unfold batch. rewrite length_map, length_take. change BATCH with 1000%nat. lia. }
  destruct (Hs i Hlt) as (Hi64 & Hbp & Hat).
  apply (next_inbox Hfit m h'' (base + Z.of_nat i)); [done | done | | done].
  unfold shows_bp. rewrite Hsub. unfold forced_at in Hat. rewrite insert_empty in Hat. exact Hat.
Qed.

(** C39: a forced blueprint can be lost, and its transactions with it.  In the situation of
    [timed_out_transactions_are_forced], but with a chunk, other than the first one, that the
    sequencer has already sent for the number of one of the forced blueprints: the inbox is
    emptied all the same, and when the kernel comes to this number it finds more chunks than
    the forced blueprint has, deletes the blueprint and returns none, in both modes.  The
    transactions of this batch are then neither in the delayed inbox nor in a blueprint. *)
Theorem delayed_transactions_can_be_lost h l xs gone now timeout level min_levels base fuel prev k nb rec :
  forcing h l xs gone now timeout level min_levels base fuel ->
  (forall i, (i * BATCH < length xs)%nat -> shows_bp h (base + Z.of_nat i) (prev (base + Z.of_nat i))) ->
  timed_out now timeout level min_levels xs = true ->
  (k * BATCH < length xs)%nat -> prev (base + Z.of_nat k) = Some (nb, rec) ->
  (exists j, (0 < j)%nat /\ j ∈ dom rec) -> Z.of_nat (base.size rec) + 2 < 2 ^ 16 ->
  exists l' h' gone', force_timed_out fuel (l, h) = Ret tt (l', h') /\ inbox l' h' [] gone' /\
    (0 < length (transactions (forced now k xs)))%nat /\
    forall m h'', read_next_blueprint_number h'' = Ret (base + Z.of_nat k) h'' ->
      subtree (view h'') (bp_at (base + Z.of_nat k)) = subtree (view h') (bp_at (base + Z.of_nat k)) ->
      exists h3, read_next_blueprint (m, h'') = Ret None (m, h3) /\ shows_bp h3 (base + Z.of_nat k) None /\
        elsewhere h'' h3 (base + Z.of_nat k).
Proof using RLL SZ RSL HLL Hfit.
  intros Hfg Hprev Ht Hk Ek (j & Hj & Hdom) Hsz. pose proof (forcing_spec _ _ _ _ _ _ _ _ _ _ prev Hfg Hprev) as Hspec.
  rewrite Ht in Hspec. destruct Hspec as (l' & h' & gone' & E & Hi' & Hs & _).
  exists l', h', gone'. split_and!; [done | done | |].
  { cbn [transactions forced]. unfold batch. pose proof BATCH_pos. rewrite length_map, length_take, length_drop. lia. }
  intros m h'' En Hsub. destruct (Hs k Hk) as (Hi64 & _ & Hat). rewrite Ek in Hat. unfold forced_at, shows_bp in Hat.
  rewrite <- Hsub in Hat. set (d := rlp_out _) in Hat.
  assert (Hmany : (1 < base.size (<[0%nat := d]> rec) <= S (base.size rec))%nat) by (by apply insert_size_bounds with j).
  rewrite (next_present Hfit m h'' _ _ _ Hi64 En Hat) by (unfold in_u; lia).
  destruct (Z.eqb_spec (Z.of_nat (base.size (<[0%nat := d]> rec))) 1); [lia |].
  destruct (Z.ltb_spec 1 (Z.of_nat (base.size (<[0%nat := d]> rec)))); [| lia].
  destruct (delete_bp Hfit h'' _ _ _ Hi64 Hat) as (h3 & Ed & Hgone & F). exists h3. split_and!; [| done | done].
  unfold comp_bind, in_config, any_runtime, any_kernel, kruntime. by rewrite Ed.
Qed.

End Forced.

(** ** Blueprints of the sequencer *)
Section Assembled.
Context {H : Type} {R : Runtime H} {L : RuntimeLaws H}.
Context {RL : RlpLib} {RLL : RlpLaws} {SZ : RlpSize} {RS : RlpScalars} {RSL : RlpScalarsLaws}.
Context {HL : HexLib} {HLL : HexLaws} {TK : TezosKeys} {TKL : TezosKeysLaws} {UL : U256Lib} {ULL : U256Laws} {KL : KeccakLib}.
Context (verify_signature : TzPublicKey -> TzSignature -> bytes -> option bool) (digest_256 : bytes -> bytes).
Context (evaluate : bytes -> comp H unit unit).
Context (Hfit : 91 <= limit (H := H)).
Implicit Types (h : H) (xs : list (Hash * DelayedInboxItem)) (rec : gmap nat bytes).

(** External messages one after the other; an input that fails is ignored. *)
Fixpoint receive (address : bytes) (messages : list bytes) (context : SequencerParsingContext) : DM (H := H) unit :=
  match messages with
  | [] => comp_ret tt
  | m :: messages =>
      or_panics (sequencer_parse verify_signature digest_256 m address context) (fun '(r, context) s =>
        match sequencer_dispatch evaluate r s with
        | Ret _ s | Throw _ s => receive address messages context s
        | Panic => Panic
        end)
  end.

(** *** Encodings *)
Definition unsigned_ok (u : UnsignedSequencerBlueprint) : Prop :=
  in_u 256 (number u) /\ in_u 16 (nb_chunks u) /\ in_u 16 (chunk_index u).

Lemma signed_round_trip b : unsigned_ok (sb_blueprint b) -> signed_in (signed_out b) = Some (Some b).
Proof using TKL ULL.
  destruct b as [[c n nb ci] s]. cbn [sb_blueprint sb_signature]. intros (Hn & Hnb & Hci).
  cbn [number nb_chunks chunk_index] in *.
  unfold signed_out, signed_in, decode_field_u256_le, append_u256_le, decode_field_u16_le, append_u16_le, append_le at 1.
  cbn [sb_blueprint sb_signature chunk number nb_chunks chunk_index data_in].
  rewrite u256_from_le by (rewrite length_le_bytes; lia). rewrite le_value_bytes, !decode_le_append by done.
  rewrite signature_round_trip, wrap_small by done. done.
Qed.

Definition with_hashes_ok (b : BlueprintWithDelayedHashes) : Prop :=
  length (parent_hash b) = 32%nat /\ blueprint_ok (with_blueprint b).

Lemma with_hashes_round_trip b : with_hashes_ok b -> exists i, with_hashes_out b = Some i /\ with_hashes_in i = Some b.
Proof using RLL RSL.
  intros [Hp [Ht Hs]]. destruct (mapM_transactions _ Ht) as (items & E1 & E2). unfold with_hashes_out. rewrite E1.
  eexists. split; [done |]. cbn [with_hashes_in]. unfold decode_list. rewrite !rlp_iter_list, E2, timestamp_round_trip by done.
  assert (Eh : decode_h256 (append_h256 (parent_hash b)) = Some (parent_hash b)).
  { unfold append_h256. case_bool_decide as Hz; [by rewrite Hz | by apply decode_h256_exact]. }
  assert (Ehs : mapM dec (map enc (delayed_hashes b)) = Some (delayed_hashes b)).
  { apply mapM_Some. induction (delayed_hashes b) as [|x hs IH]; constructor; [apply to_hash_bytes | exact IH]. }
  rewrite Eh, Ehs. by destruct b as [? ? []].
Qed.

(** *** Messages of the sequencer *)
Definition signed_message (address : bytes) (b : SequencerBlueprint) : bytes :=
  framed address (SEQUENCER_BLUEPRINT_TAG :: rlp_out (signed_out b)).

Definition verified (k : TzPublicKey) (b : SequencerBlueprint) : Prop :=
  verify_signature k (sb_signature b) (digest_256 (rlp_out (unsigned_out (sb_blueprint b)))) = Some true.

Lemma parse_signed address b context : length address = 20%nat -> unsigned_ok (sb_blueprint b) ->
  verified (ctx_sequencer context) b ->
  exists ticks, sequencer_parse verify_signature digest_256 (signed_message address b) address context =
    Some (SInput (SequencerBlueprintInput b), mkContext (ctx_sequencer context) (ctx_delayed_bridge context) ticks).
Proof using RLL TKL ULL.
  intros Ha Hu Hv. eexists. unfold sequencer_parse, signed_message, framed, parse_frame.
  rewrite Z.eqb_refl, split_at_app, bool_decide_true by done.
  change (SEQUENCER_BLUEPRINT_TAG =? FORCE_KERNEL_UPGRADE_TAG) with false. cbv iota.
  unfold sequencer_parse_external. rewrite Z.eqb_refl. unfold parse_sequencer_blueprint_input.
  rewrite rlp_in_out, signed_round_trip by done. unfold spend. cbn [ctx_sequencer]. rewrite Hv. cbn [from_option id]. done.
Qed.

(** A well-formed blueprint that the expected key did not sign is refused. *)
Lemma parse_forged address b context : length address = 20%nat -> unsigned_ok (sb_blueprint b) ->
  ~ verified (ctx_sequencer context) b ->
  exists ticks, sequencer_parse verify_signature digest_256 (signed_message address b) address context =
    Some (SUnparsable, mkContext (ctx_sequencer context) (ctx_delayed_bridge context) ticks).
Proof using RLL TKL ULL.
  intros Ha Hu Hv. eexists. unfold sequencer_parse, signed_message, framed, parse_frame.
  rewrite Z.eqb_refl, split_at_app, bool_decide_true by done.
  change (SEQUENCER_BLUEPRINT_TAG =? FORCE_KERNEL_UPGRADE_TAG) with false. cbv iota.
  unfold sequencer_parse_external. rewrite Z.eqb_refl. unfold parse_sequencer_blueprint_input.
  rewrite rlp_in_out, signed_round_trip by done. unfold spend. cbn [ctx_sequencer]. unfold verified in Hv.
  destruct (verify_signature _ _ _) as [[]|]; [by destruct Hv | done | done].
Qed.

(** Messages that carry no blueprint: for another rollup, of another kind, with contents that
    are not the encoding of five fields, or with fields of the wrong sizes or no signature. *)
Inductive noise (address : bytes) : bytes -> Prop :=
| noise_frame m : parse_frame m = None -> noise address m
| noise_address m a c : parse_frame m = Some (a, c) -> a <> address -> noise address m
| noise_empty : noise address (framed address [])
| noise_tag t c : t <> FORCE_KERNEL_UPGRADE_TAG -> t <> SEQUENCER_BLUEPRINT_TAG -> noise address (framed address (t :: c))
| noise_rlp c : rlp_in c = None -> noise address (framed address (SEQUENCER_BLUEPRINT_TAG :: c))
| noise_fields i : (forall c n nb ci s, i <> RList [c; n; nb; ci; s]) ->
    noise address (framed address (SEQUENCER_BLUEPRINT_TAG :: rlp_out i))
| noise_sizes c n nb ci s : (length n <= 32)%nat -> length nb <> 2%nat \/ length ci <> 2%nat \/ signature_try_from s = None ->
    noise address (framed address (SEQUENCER_BLUEPRINT_TAG :: rlp_out (RList [RData c; RData n; RData nb; RData ci; RData s]))).

Lemma malformed c n nb ci s : (length n <= 32)%nat -> length nb <> 2%nat \/ length ci <> 2%nat \/ signature_try_from s = None ->
  signed_in (RList [RData c; RData n; RData nb; RData ci; RData s]) = Some None.
Proof using ULL.
  intros Hn' Hbad. cbn [signed_in data_in]. unfold decode_field_u256_le, decode_field_u16_le, decode_le. cbn [data_in].
  rewrite u256_from_le by done. destruct Hbad as [Hb|[Hb| ->]].
  - by rewrite (bool_decide_false _ Hb).
  - rewrite (bool_decide_false (length ci = 2%nat) Hb). by destruct (bool_decide (length nb = 2%nat)).
  - by destruct (bool_decide (length nb = 2%nat)), (bool_decide (length ci = 2%nat)).
Qed.

Lemma parse_noise address m context : length address = 20%nat -> noise address m ->
  exists ticks, sequencer_parse verify_signature digest_256 m address context =
    Some (SUnparsable, mkContext (ctx_sequencer context) (ctx_delayed_bridge context) ticks).
Proof using RLL ULL.
  intros Ha Hm. destruct context as [k br t0]. unfold sequencer_parse.
  assert (Hfr : forall c, parse_frame (framed address c) = Some (address, c)).
  { intros c. unfold framed, parse_frame. by rewrite Z.eqb_refl, split_at_app. }
  destruct Hm as [m E | m a c E Hne | | t c Ht1 Ht2 | c E | i Hi | c n nb ci s Hn Hbad]; try rewrite Hfr, bool_decide_true by done.
  - rewrite E. by exists t0.
  - rewrite E, bool_decide_false by done. by exists t0.
  - by exists t0.
  - apply Z.eqb_neq in Ht1, Ht2. rewrite Ht1. unfold sequencer_parse_external. rewrite Ht2. by exists t0.
  - change (SEQUENCER_BLUEPRINT_TAG =? FORCE_KERNEL_UPGRADE_TAG) with false. cbv iota.
    unfold sequencer_parse_external. rewrite Z.eqb_refl. unfold parse_sequencer_blueprint_input. rewrite E. by eexists.
  - change (SEQUENCER_BLUEPRINT_TAG =? FORCE_KERNEL_UPGRADE_TAG) with false. cbv iota.
    unfold sequencer_parse_external. rewrite Z.eqb_refl. unfold parse_sequencer_blueprint_input. rewrite rlp_in_out.
    assert (Es : signed_in i = Some None).
    { destruct i as [|[|c [|n' [|nb [|ci [|s [|? ?]]]]]]]; try done. by destruct (Hi c n' nb ci s). }
    rewrite Es. by eexists.
  - change (SEQUENCER_BLUEPRINT_TAG =? FORCE_KERNEL_UPGRADE_TAG) with false. cbv iota.
    unfold sequencer_parse_external. rewrite Z.eqb_refl. unfold parse_sequencer_blueprint_input.
    rewrite rlp_in_out, malformed by done. by eexists.
Qed.

(** C40: anybody can make the kernel panic.  A message with the tag of a blueprint
    whose chunk is a byte string and whose number has more than 32 bytes panics in the
    conversion to [U256], whatever its other three fields are: the number is decoded before
    the signature is looked at.  The
    kernel panics in any state and for any sequencer key, and handles no message after it. *)
Theorem oversized_number_panics address c number nb ci s msgs context st : length address = 20%nat ->
  (32 < length number)%nat ->
  let m := framed address (SEQUENCER_BLUEPRINT_TAG :: rlp_out (RList [RData c; RData number; nb; ci; s])) in
  sequencer_parse verify_signature digest_256 m address context = None /\
  receive address (m :: msgs) context st = Panic.
Proof using RLL ULL.
  intros Ha Hlong m.
  assert (E : sequencer_parse verify_signature digest_256 m address context = None).
  { unfold sequencer_parse, m, framed, parse_frame. rewrite Z.eqb_refl, split_at_app, bool_decide_true by done.
    change (SEQUENCER_BLUEPRINT_TAG =? FORCE_KERNEL_UPGRADE_TAG) with false. cbv iota.
    unfold sequencer_parse_external. rewrite Z.eqb_refl. unfold parse_sequencer_blueprint_input. rewrite rlp_in_out.
    cbn [signed_in data_in]. unfold decode_field_u256_le. cbn [data_in]. by rewrite u256_too_long. }
  split; [done |]. cbn [receive]. by rewrite E.
Qed.

(** *** Fetching the oldest delayed transactions *)
Lemma fetch_prefix j : forall xs acc l h gone, inbox l h xs gone ->
  exists l' h' gone', fetch_hashes (ids (take j xs)) acc (l, h) = Ret (inl (acc ++ map to_transaction (take j xs))) (l', h') /\
    inbox l' h' (drop j xs) gone' /\ away h h'.
Proof using RLL SZ HLL Hfit.
  induction j as [|j IH]; intros xs acc l h gone Hi; cbn [take ids map fetch_hashes].
  { exists l, h, gone. by rewrite drop_0, app_nil_r. }
  destruct xs as [|[hash x] xs]; cbn [take ids map fetch_hashes].
  { exists l, h, gone. by rewrite app_nil_r. }
  fold (ids (take j xs)). unfold comp_bind. cbn [fst].
  destruct (find_and_remove_spec Hfit l h _ gone 0 hash x Hi eq_refl ltac:(by left)) as (l1 & h1 & -> & Hi1 & A1).
  destruct (IH xs (acc ++ [to_transaction (hash, x)]) l1 h1 _ Hi1) as (l2 & h2 & g2 & -> & Hi2 & A2).
  exists l2, h2, g2. rewrite <- app_assoc. split_and!; [done | done |]. intros q Hq. by rewrite A2, A1.
Qed.

Lemma fetch_hashes_app hashes rest : forall acc s txs s', fetch_hashes hashes acc s = Ret (inl txs) s' ->
  fetch_hashes (hashes ++ rest) acc s = fetch_hashes rest txs s'.
Proof.
  induction hashes as [|x hashes IH]; intros acc s txs s' E; cbn [fetch_hashes app] in *; [by injection E as <- <- |].
  unfold comp_bind in *. destruct (find_and_remove_transaction x s) as [[[tx ?]|] s1|? ?|]; try done. by apply IH.
Qed.

(** The transactions before a hash that is missing are removed. *)
Lemma fetch_missing j xs l h gone missing rest : inbox l h xs gone -> missing ∉ ids xs ->
  exists l' h' gone', fetch_hashes (ids (take j xs) ++ missing :: rest) [] (l, h) = Ret (inr missing) (l', h') /\
    inbox l' h' (drop j xs) gone' /\ away h h'.
Proof using RLL SZ HLL Hfit.
  intros Hi Hm. destruct (fetch_prefix j xs [] l h gone Hi) as (l1 & h1 & g1 & E1 & Hi1 & A1). exists l1, h1, g1.
  rewrite (fetch_hashes_app _ _ _ _ _ _ E1). cbn [fetch_hashes]. unfold comp_bind.
  rewrite (find_and_remove_absent Hfit l1 h1 _ g1 missing Hi1); [by split_and! |].
  intros Hin. apply Hm. unfold ids in *. rewrite <- (take_drop j xs), map_app. apply elem_of_app. by right.
Qed.

Definition NODE_FLAG : list bytes := [ascii_bytes "__evm_node"].

Lemma flag_path : is_path EVM_NODE_FLAG NODE_FLAG.
Proof. closed_path. Qed.

Lemma flag_delayed : diverge DELAYED NODE_FLAG.
Proof. apply diverge_cons. left. vm_compute. discriminate. Qed.

Lemma fetch_delayed_spec j xs l h gone b : inbox l h xs gone -> subtree (view h) NODE_FLAG = node_default ->
  delayed_hashes b = ids (take j xs) -> existsb is_delayed (transactions (with_blueprint b)) = false ->
  exists l' h' gone', fetch_delayed_txs b (l, h) =
      Ret (Valid (mkBlueprint (map to_transaction (take j xs) ++ transactions (with_blueprint b)) (bp_timestamp (with_blueprint b)))) (l', h') /\
    inbox l' h' (drop j xs) gone' /\ away h h'.
Proof using RLL SZ HLL Hfit.
  intros Hi Hf Hd Hn. unfold fetch_delayed_txs, comp_bind. rewrite Hd.
  destruct (fetch_prefix j xs [] l h gone Hi) as (l1 & h1 & g1 & -> & Hi1 & A1). exists l1, h1, g1.
  unfold on_host, any_kernel, kread. assert (Hlim : len EVM_NODE_FLAG <= limit (H := H)) by (change (len EVM_NODE_FLAG) with 11; lia).
  rewrite (law_has h1 _ _ flag_path Hlim), A1, Hf by apply flag_delayed.
  change (kind_of node_default) with (@None ValueType). rewrite Hn, andb_false_r. by split_and!.
Qed.

(** *** The chunks of one blueprint *)
Context (address : bytes) (Ha : length address = 20%nat) (key : TzPublicKey) (bridge : bytes).
Context (n : Z) (Hn : in_u 64 n) (cs : list bytes) (Hlen : len cs + 1 < 2 ^ 16).
Context (Hshort : Forall (fun c => len (rlp_out (enc (SequencerChunk c))) < 2 ^ 31) cs).
Context (signature_of : nat -> TzSignature).

Definition signed_chunk (i : nat) : SequencerBlueprint :=
  mkSigned TK (mkUnsigned (default [] (cs !! i)) n (len cs) (Z.of_nat i)) (signature_of i).

(** A message is a chunk signed by the sequencer, any blueprint, for this number or another
    one, that it did not sign, or carries no blueprint. *)
Inductive Incoming : Type := Chunk (i : nat) | Forged (b : SequencerBlueprint) | Noise (m : bytes).

Definition to_message (x : Incoming) : bytes :=
  match x with
  | Chunk i => signed_message address (signed_chunk i)
  | Forged b => signed_message address b
  | Noise m => m
  end.

Definition incoming_ok (x : Incoming) : Prop :=
  match x with
  | Chunk i => (i < length cs)%nat /\ verified key (signed_chunk i)
  | Forged b => unsigned_ok (sb_blueprint b) /\ ~ verified key b
  | Noise m => noise address m
  end.

Definition indices (msgs : list Incoming) : list nat := omap (fun x => match x with Chunk i => Some i | _ => None end) msgs.

Definition encoded : list bytes := map (fun c => rlp_out (enc (SequencerChunk c))) cs.

(** The chunks that are stored. *)
Definition collected h rec : Prop := (rec = ∅ /\ shows_bp h n None) \/ shows_bp h n (Some (len cs, rec)).

Lemma collect h rec i : collected h rec -> (i < length cs)%nat -> rec ⊆ full encoded ->
  exists h' d, store_sequencer_blueprint (signed_chunk i) h = Ret tt h' /\ collected h' (<[i := d]> rec) /\
    <[i := d]> rec ⊆ full encoded /\ elsewhere h h' n.
Proof using RLL RSL Hfit Hn Hlen Hshort.
  intros Hc Hi Hr. destruct (lookup_lt_is_Some_2 cs i Hi) as [c Ec].
  assert (Hb : bp_ok (SequencerChunk c)).
  { apply sequencer_chunk_ok. rewrite Forall_lookup in Hshort. by apply (Hshort i). }
  assert (Hs : exists o, shows_bp h n o /\ match o with Some (_, r) => r | None => ∅ end = rec).
  { destruct Hc as [[-> Hs]|Hs]; [by exists None | by exists (Some (len cs, rec))]. }
  destruct Hs as (o & Hs & Er).
  destruct (store_at_spec Hfit h n o (len cs) i (SequencerChunk c) Hn Hs ltac:(clear Ha; lia) Hb) as (h' & E & Hs' & F).
  exists h', (rlp_out (enc (SequencerChunk c))). rewrite Er in Hs'. split_and!; [| by right | | done].
  - unfold store_sequencer_blueprint, signed_chunk. cbn [sb_blueprint number nb_chunks chunk_index chunk]. rewrite Ec. exact E.
  - apply partial_insert; [done |]. unfold encoded. by rewrite list_lookup_fmap, Ec.
Qed.

Lemma receive_run msgs : Forall incoming_ok msgs -> forall l h ticks rec, collected h rec -> rec ⊆ full encoded ->
  exists h' rec', receive address (map to_message msgs) (mkContext key bridge ticks) (l, h) = Ret tt (l, h') /\
    collected h' rec' /\ rec' ⊆ full encoded /\ all_there encoded [] rec' = all_there encoded (indices msgs) rec /\
    elsewhere h h' n.
Proof using RLL RSL TKL ULL Hfit Ha Hn Hlen Hshort.
  induction 1 as [|x msgs Hx _ IH]; intros l h ticks rec Hc Hr; cbn [map receive].
  { exists h, rec. by split_and!. }
  assert (Hskip : forall m t r, sequencer_parse verify_signature digest_256 m address (mkContext key bridge ticks) =
      Some (SUnparsable, mkContext key bridge t) -> receive address (map to_message msgs) (mkContext key bridge t) (l, h) = r ->
      or_panics (sequencer_parse verify_signature digest_256 m address (mkContext key bridge ticks)) (fun '(r, context) s =>
        match sequencer_dispatch evaluate r s with
        | Ret _ s | Throw _ s => receive address (map to_message msgs) context s
        | Panic => Panic
        end) (l, h) = r) by (intros m t r -> <-; done).
  destruct x as [i|b|m]; cbn [to_message incoming_ok indices omap list_omap] in *.
  - destruct Hx as [Hi Hv].
    destruct (parse_signed address (signed_chunk i) (mkContext key bridge ticks) Ha) as (t & Ep); [| done |].
    { unfold unsigned_ok, in_u in *. cbn. lia. }
    rewrite Ep. cbn [ctx_sequencer ctx_delayed_bridge or_panics]. cbn [sequencer_dispatch sequencer_handle_input].
    destruct (collect h rec i Hc Hi Hr) as (h1 & d & E1 & Hc1 & Hr1 & F1). unfold on_host. rewrite E1.
    destruct (IH l h1 t _ Hc1 Hr1) as (h2 & rec2 & -> & Hc2 & Hr2 & Hall & F2). exists h2, rec2.
    split_and!; [done | done | done | | intros q Hq; by rewrite F2, F1].
    rewrite Hall. symmetry. apply all_there_cons.
  - destruct Hx as [Hu Hv]. destruct (parse_forged address b (mkContext key bridge ticks) Ha Hu Hv) as (t & Ep).
    destruct (IH l h t rec Hc Hr) as (h' & rec' & E & Hrest). exists h', rec'. split; [by apply (Hskip _ t) | exact Hrest].
  - destruct (parse_noise address m (mkContext key bridge ticks) Ha Hx) as (t & Ep).
    destruct (IH l h t rec Hc Hr) as (h' & rec' & E & Hrest). exists h', rec'. split; [by apply (Hskip _ t) | exact Hrest].
Qed.

(** Not all chunks are there. *)
Lemma next_waiting (m : ConfigurationMode) h rec : read_next_blueprint_number h = Ret n h -> collected h rec ->
  rec ⊆ full encoded -> rec <> full encoded -> read_next_blueprint (m, h) = Ret None (m, h).
Proof using Hfit Hn Hlen.
  clear Ha. intros En [[_ Hs]|Hs] Hr Hne; [by apply (next_absent Hfit m h n) |].
  assert (Hsz : (base.size rec < length cs)%nat).
  { pose proof (map_subseteq_size _ _ Hr) as Hle. rewrite full_size in Hle. unfold encoded in Hle at 1. rewrite length_map in Hle.
    destruct (decide (base.size rec = length cs)) as [E|]; [| lia]. destruct Hne. apply map_subseteq_size_eq; [done |].
    rewrite full_size. unfold encoded. rewrite length_map. lia. }
  rewrite (next_present Hfit m h n _ _ Hn En Hs); [| unfold in_u; lia | lia].
  destruct (Z.eqb_spec (Z.of_nat (base.size rec)) (len cs)); [lia |].
  destruct (Z.ltb_spec (len cs) (Z.of_nat (base.size rec))); [lia | done].
Qed.

(** All chunks are there: they are read back in order. *)
Lemma next_ready (m : ConfigurationMode) h : read_next_blueprint_number h = Ret n h -> cs <> [] ->
  collected h (full encoded) -> read_next_blueprint (m, h) =
  match m with
  | Proxy => Ret None (m, h)
  | Sequencer br l k =>
      (let! validity := in_inbox br l k (parse_and_validate_blueprint (List.concat cs)) in
       match validity with
       | Valid b => comp_ret (Some b)
       | _ => in_config (any_runtime (store_delete (bp_path n))) ;;; comp_ret None
       end) (m, h)
  end.
Proof using RLL RSL Hfit Hn Hlen Hshort.
  clear Ha. intros En Hne Hc.
  assert (Hl : length encoded = length cs) by apply length_map.
  assert (Hs : shows_bp h n (Some (len cs, full encoded))).
  { destruct Hc as [[He _]|Hs]; [| done]. apply (f_equal base.size) in He. rewrite full_size, Hl, map_size_empty in He. by destruct cs. }
  rewrite (next_present Hfit m h n _ _ Hn En Hs); rewrite ?full_size, ?Hl; [| unfold in_u; lia | lia].
  rewrite Z.eqb_refl. unfold read_all_chunks_and_validate. unfold comp_bind at 1, in_config at 1. rewrite Nat2Z.id.
  change 0 with (Z.of_nat 0). rewrite (read_stored_spec Hfit h n _ _ Hn Hs _ _ _ cs); [by destruct m | cbn [Nat.add]; lia | done |].
  intros j c Hj. cbn [Nat.add]. split.
  - unfold full, encoded. by rewrite lookup_map_seq_0, list_lookup_fmap, Hj.
  - apply sequencer_chunk_ok. rewrite Forall_lookup in Hshort. by apply (Hshort j).
Qed.

(** C4: a blueprint is put together from the messages of the sequencer only.  A blueprint that
    names the oldest delayed transactions by their hashes is cut into chunks, each of which is
    signed by the sequencer; the messages come in any order, any number of times, among
    blueprints, with any number and chunk, that the sequencer did not sign, and messages that
    carry no blueprint ([noise]).  Nothing but the storage of this blueprint changes.  While a
    chunk is missing there is no next blueprint; once every chunk has come, the next blueprint
    has the delayed transactions first, then the transactions of the sequencer, and exactly
    these delayed transactions have left the inbox.  The blueprint is the next one, its parent
    is the current block ([valid_parent_hash]), its own transactions are not delayed ones, no
    chunk with its number is stored at the start, and the kernel does not run in a node
    ([NODE_FLAG]).  Not among the messages are requests to force a kernel upgrade, which have
    an effect of their own, blueprints that the sequencer signed with another number, which
    are stored too, and numbers of more than 32 bytes, which make the kernel panic. *)
Theorem signed_blueprints_are_assembled h l xs gone b item j msgs ticks :
  inbox l h xs gone -> subtree (view h) NODE_FLAG = node_default -> shows_bp h n None ->
  read_next_blueprint_number h = Ret n h -> valid_parent_hash b h = Ret true h ->
  with_hashes_ok b -> with_hashes_out b = Some item -> List.concat cs = rlp_out item -> cs <> [] ->
  delayed_hashes b = ids (take j xs) -> existsb is_delayed (transactions (with_blueprint b)) = false ->
  Forall incoming_ok msgs ->
  exists h1, receive address (map to_message msgs) (mkContext key bridge ticks) (l, h) = Ret tt (l, h1) /\
    elsewhere h h1 n /\ inbox l h1 xs gone /\
    if forallb (fun i => bool_decide (i ∈ indices msgs)) (seq 0 (length cs))
    then exists l2 h2 gone2, read_next_blueprint (Sequencer bridge l key, h1) =
        Ret (Some (mkBlueprint (map to_transaction (take j xs) ++ transactions (with_blueprint b)) (bp_timestamp (with_blueprint b))))
          (Sequencer bridge l2 key, h2) /\
      inbox l2 h2 (drop j xs) gone2 /\ away h1 h2
    else read_next_blueprint (Sequencer bridge l key, h1) = Ret None (Sequencer bridge l key, h1).
Proof using All.
  intros Hi Hf Hs En Hp Hok Ho Hcat Hne Hd Hnd Hmsgs.
  destruct (receive_run msgs Hmsgs l h ticks ∅) as (h1 & rec & E1 & Hc & Hr & Hall & F1);
    [by left | apply map_empty_subseteq |].
  assert (Hb : same_block h h1) by apply F1, bp_current.
  assert (Hi1 : inbox l h1 xs gone) by (apply (inbox_frame l h); [done | apply F1, bp_delayed]).
  pose proof (next_number_same Hfit h h1 n Hb En) as En1. exists h1. split_and!; [done | done | done |].
  assert (Hcomplete : forallb (fun i => bool_decide (i ∈ indices msgs)) (seq 0 (length cs)) = bool_decide (rec = full encoded)).
  { rewrite <- all_there_nil, Hall by done. unfold all_there, encoded. rewrite length_map.
    generalize (seq 0 (length cs)) as idx. induction idx as [|i idx IH]; cbn [forallb]; [done |].
    by rewrite IH, lookup_empty, (bool_decide_false (is_Some None)), orb_false_r by (by intros [? ?]). }
  rewrite Hcomplete. case_bool_decide as Hfull; [| by apply (next_waiting _ h1 rec)].
  rewrite Hfull in Hc. rewrite (next_ready _ h1 En1 Hne Hc). unfold comp_bind at 1, in_inbox, parse_and_validate_blueprint.
  rewrite Hcat, rlp_in_out. destruct (with_hashes_round_trip b Hok) as (i & Eo & Ei).
  rewrite Ho in Eo. injection Eo as <-. rewrite Ei. unfold comp_bind at 1, on_host, any_kernel.
  rewrite (parent_same Hfit h h1 b true Hb Hp).
  destruct (fetch_delayed_spec j xs l h1 gone b Hi1) as (l2 & h2 & g2 & -> & Hi2 & A2); [| done | done |].
  - rewrite F1; [done |]. apply diverge_cons. left. vm_compute. discriminate.
  - by exists l2, h2, g2.
Qed.

(** A blueprint that names an unknown hash takes known transactions with it.  All
    the chunks of the next blueprint are stored, it can be decoded and its parent is the
    current block; it names the [j] oldest delayed transactions, then a hash that is not in
    the delayed inbox.  The blueprint is deleted and there is no next blueprint, but the [j]
    transactions have left the delayed inbox. *)
Theorem unknown_hash_loses_known_transactions h l xs gone b item j missing rest :
  inbox l h xs gone -> shows_bp h n (Some (len cs, full encoded)) ->
  read_next_blueprint_number h = Ret n h -> valid_parent_hash b h = Ret true h ->
  with_hashes_ok b -> with_hashes_out b = Some item -> List.concat cs = rlp_out item -> cs <> [] ->
  delayed_hashes b = ids (take j xs) ++ missing :: rest -> missing ∉ ids xs ->
  exists l2 h2 gone2, read_next_blueprint (Sequencer bridge l key, h) = Ret None (Sequencer bridge l2 key, h2) /\
    inbox l2 h2 (drop j xs) gone2 /\ shows_bp h2 n None.
Proof using RLL SZ RSL HLL Hfit Hn Hlen Hshort.
  clear Ha. intros Hi Hs En Hp Hok Ho Hcat Hne Hd Hm.
  rewrite (next_ready _ h En Hne) by (by right). unfold comp_bind at 1, in_inbox, parse_and_validate_blueprint.
  rewrite Hcat, rlp_in_out. destruct (with_hashes_round_trip b Hok) as (i & Eo & Ei).
  rewrite Ho in Eo. injection Eo as <-. rewrite Ei. unfold comp_bind at 1, on_host, any_kernel. rewrite Hp.
  destruct (fetch_missing j xs l h gone missing rest Hi Hm) as (l1 & h1 & g1 & E1 & Hi1 & A1).
  unfold fetch_delayed_txs. unfold comp_bind at 1. rewrite Hd, E1. cbn [comp_ret].
  assert (Hs1 : shows_bp h1 n (Some (len cs, full encoded))) by (unfold shows_bp; rewrite A1 by apply diverge_sym, bp_delayed; exact Hs).
  destruct (delete_bp Hfit h1 n _ _ Hn Hs1) as (h2 & Ed & Hs2 & F2).
  exists l1, h2, g1. unfold comp_bind, in_config, any_runtime, any_kernel, kruntime. rewrite Ed.
  split_and!; [done | | done]. apply (inbox_frame l1 h1); [done | apply F2, bp_delayed].
Qed.

End Assembled.

(** ** Samples *)
#[export] Instance concrete_size : RlpSize (RL := concrete_rlp).
Proof.
  constructor. fix IH 1. intros [bs|items]; cbn [rlp_out concrete_rlp tagged rlp_weight].
  - cbn [length]. rewrite length_app. cbn [length].
    assert (E : length (flat_map (fun b => [1; b]) bs) = (2 * length bs)%nat) by (induction bs; cbn; lia). lia.
  - cbn [length]. rewrite length_app. cbn [length]. revert items. fix IHl 1. intros [|i items]; cbn [flat_map fold_right].
    + cbn. lia.
    + specialize (IH i). specialize (IHl items). cbn [rlp_out concrete_rlp] in IH. rewrite length_app. lia.
Qed.

#[export] Instance concrete_keys : TezosKeys := {
  TzPublicKey := bool;
  to_b58check k := if k : bool then [1] else [2];
  from_b58check bs := match bs with [1] => Some true | [2] => Some false | _ => None end;
  TzSignature := bool;
  signature_bytes s := if s : bool then [1] else [2];
  signature_try_from bs := match bs with [1] => Some true | [2] => Some false | _ => None end
}.

#[export] Instance concrete_keys_laws : TezosKeysLaws.
Proof. constructor; by intros []. Qed.

#[export] Instance concrete_u256 : U256Lib :=
  { u256_from_little_endian bs := if bool_decide (length bs <= 32)%nat then Some (le_value bs) else None }.

#[export] Instance concrete_u256_laws : U256Laws.
Proof. constructor; intros bs Hb; cbn; [by rewrite bool_decide_true | by rewrite bool_decide_false by lia]. Qed.

(** Each key signs with itself. *)
Definition sample_verify (k : TzPublicKey) (s : TzSignature) (_ : bytes) : option bool := Some (eqb k s).
Definition sample_evaluate (_ : bytes) : comp HostState unit unit := comp_ret tt.

Definition DAY : Z := 86400.

(** A host at the level 800, a day after the start. *)
Definition clock_host : HostState :=
  match (store_last_info_per_level_timestamp DAY ;;; store_l1_level 800) empty_host with Ret _ h => h | _ => empty_host end.

(** A transaction that came on the first level. *)
Definition late_tx : Transaction := mkTransaction (replicate 32 5) (EthereumDelayed signed_tx).
Definition late_item : DelayedInboxItem := mkItem (DEthereum signed_tx) 100 1.
Definition late_hash : Hash := mkHash (replicate 32 5) eq_refl.
Definition missing_hash : Hash := mkHash (replicate 32 6) eq_refl.

Definition no_inbox : DelayedInbox := mkList DELAYED_INBOX_PATH None.

Definition saved : DelayedInbox * HostState :=
  match save_transaction late_tx 100 1 (no_inbox, clock_host) with Ret _ s => s | _ => (no_inbox, clock_host) end.

Lemma fit_host : 91 <= limit (H := HostState).
Proof. vm_compute. discriminate. Qed.

Lemma late_item_ok : item_ok late_item.
Proof. split_and!; [exact signed_ok_sample | unfold in_s; cbn; lia | unfold in_u; cbn; lia | vm_compute; reflexivity]. Qed.

Lemma saved_inbox : inbox (fst saved) (snd saved) [(late_hash, late_item)] [].
Proof.
  destruct (save_spec fit_host no_inbox clock_host [] [] late_tx (DEthereum signed_tx) late_hash 100 1 []) as (l & h & E & Hi & _).
  - apply empty_inbox. vm_compute. reflexivity.
  - split; [| by intros i v Hv]. right. split; [done | vm_compute; reflexivity].
  - unfold in_u. cbn. lia.
  - split; [done | exact signed_ok_sample].
  - done.
  - apply (to_hash_bytes late_hash).
  - exact late_item_ok.
  - by intros ?%not_elem_of_nil.
  - unfold saved. rewrite E. exact Hi.
Qed.

Lemma timed_out_transactions_are_forced_witness :
  exists l' h', force_timed_out (H := HostState) 2 saved = Ret tt (l', h') /\
    read_next_blueprint (Proxy, h') = Ret (Some (mkBlueprint [late_tx] DAY)) (Proxy, h').
Proof.
  pose proof (timed_out_transactions_are_forced (H := HostState) fit_host (snd saved) (fst saved) [(late_hash, late_item)] []
    DAY 43200 800 720 0 2) as Hf.
  destruct Hf as (l' & h' & gone' & E & _ & _ & Hread & Hk).
  - exact saved_inbox.
  - vm_compute. reflexivity.
  - vm_compute. reflexivity.
  - vm_compute. reflexivity.
  - vm_compute. reflexivity.
  - vm_compute. reflexivity.
  - unfold in_s, DAY. lia.
  - constructor; [| constructor]. split; [exact late_item_ok |]. vm_compute. split; discriminate.
  - lia.
  - vm_compute. reflexivity.
  - vm_compute. reflexivity.
  - cbn. lia.
  - intros i Hi. assert (i = 0%nat) as ->.
    { change (length _) with 1%nat in Hi. pose proof BATCH_pos. nia. }
    split; vm_compute; reflexivity.
  - exists l', h'. replace saved with (fst saved, snd saved) by (vm_compute; reflexivity). split; [exact E |].
    apply (Hread 0%nat Proxy h').
    + pose proof BATCH_pos. cbn. lia.
    + apply (next_number_same fit_host (snd saved)).
      * apply Hk; [apply delayed_current | intros m _; apply bp_current].
      * vm_compute. reflexivity.
    + reflexivity.
Defined.

(** *** A blueprint in two chunks *)
Definition sample_blueprint : BlueprintWithDelayedHashes :=
  mkWithHashes GENESIS_PARENT [late_hash] (mkBlueprint [mkTransaction (replicate 32 7) (Ethereum signed_tx)] 90000).

Definition blueprint_item : Rlp := default (RData []) (with_hashes_out sample_blueprint).

Definition sample_chunks : list bytes := [take 100 (rlp_out blueprint_item); drop 100 (rlp_out blueprint_item)].

(** A blueprint with the number of the next one, signed by another key. *)
Definition forged_blueprint : SequencerBlueprint := mkSigned _ (mkUnsigned [1] 0 2 0) false.

Definition sample_messages : list Incoming := [Noise [0; 1]; Forged forged_blueprint; Chunk 1; Chunk 0; Chunk 1].

Definition rollup_address : bytes := replicate 20 9.

Lemma sample_incoming_ok :
  Forall (incoming_ok sample_verify (fun bs => bs) rollup_address true 0 sample_chunks (fun _ => true)) sample_messages.
Proof.
  repeat (apply List.Forall_cons; [| try apply List.Forall_nil]); cbn [incoming_ok].
  - apply noise_frame. reflexivity.
  - split; [unfold unsigned_ok, in_u; cbn; lia | by vm_compute].
  - split; [cbn; lia | reflexivity].
  - split; [cbn; lia | reflexivity].
  - split; [cbn; lia | reflexivity].
Qed.

Lemma signed_blueprints_are_assembled_witness :
  exists h1 l2 h2, receive sample_verify (fun bs => bs) sample_evaluate rollup_address
      (map (to_message rollup_address 0 sample_chunks (fun _ => true)) sample_messages) (mkContext true [] 0) saved = Ret tt (fst saved, h1) /\
    read_next_blueprint (Sequencer [] (fst saved) true, h1) =
      Ret (Some (mkBlueprint [late_tx; mkTransaction (replicate 32 7) (Ethereum signed_tx)] 90000)) (Sequencer [] l2 true, h2).
Proof.
  destruct (signed_blueprints_are_assembled (H := HostState) sample_verify (fun bs => bs) sample_evaluate fit_host
    rollup_address eq_refl true [] 0 ltac:(unfold in_u; lia) sample_chunks ltac:(vm_compute; reflexivity)
    ltac:(repeat constructor; vm_compute; reflexivity) (fun _ => true)
    (snd saved) (fst saved) [(late_hash, late_item)] [] sample_blueprint blueprint_item 1 sample_messages 0)
    as (h1 & E1 & _ & _ & l2 & h2 & gone2 & E2 & _).
  - exact saved_inbox.
  - vm_compute. reflexivity.
  - vm_compute. reflexivity.
  - vm_compute. reflexivity.
  - vm_compute. reflexivity.
  - split; [done |]. split; [| unfold in_s; cbn; lia]. constructor; [| constructor]. split; [done | exact signed_ok_sample].
  - vm_compute. reflexivity.
  - apply take_drop.
  - discriminate.
  - reflexivity.
  - reflexivity.
  - exact sample_incoming_ok.
  - exists h1, l2, h2. replace saved with (fst saved, snd saved) at 1 by (vm_compute; reflexivity). split; [exact E1 | exact E2].
Defined.

(** *** Lost transactions *)

(** The host when the sequencer has sent a chunk of the next blueprint, of [nb] chunks. *)
Definition with_chunk (bs : bytes) (nb i : Z) : HostState :=
  match store_sequencer_blueprint (mkSigned _ (mkUnsigned bs 0 nb i) true) (snd saved) with Ret _ h => h | _ => snd saved end.

Lemma delayed_transactions_can_be_lost_witness :
  exists l' h', force_timed_out (H := HostState) 2 (fst saved, with_chunk [1] 2 1) = Ret tt (l', h') /\
    exists h3, read_next_blueprint (Proxy, h') = Ret None (Proxy, h3).
Proof.
  assert (Hblock : forall l' h', force_timed_out (H := HostState) 2 (fst saved, with_chunk [1] 2 1) = Ret tt (l', h') ->
    read_next_blueprint_number h' = Ret 0 h').
  { assert (E : match force_timed_out 2 (fst saved, with_chunk [1] 2 1) with
                | Ret _ (_, h') => read_next_blueprint_number h' = Ret 0 h' | _ => False end) by (vm_compute; reflexivity).
    intros l' h' E'. rewrite E' in E. exact E. }
  destruct (delayed_transactions_can_be_lost (H := HostState) fit_host (with_chunk [1] 2 1) (fst saved) [(late_hash, late_item)] []
    DAY 43200 800 720 0 2 (fun _ => Some (2, {[1%nat := rlp_out (enc (SequencerChunk [1]))]})) 0 2
    {[1%nat := rlp_out (enc (SequencerChunk [1]))]}) as (l' & h' & gone' & E & _ & _ & Hread).
  - constructor.
    + apply (inbox_frame _ (snd saved)); [exact saved_inbox | vm_compute; reflexivity].
    + vm_compute. reflexivity.
    + vm_compute. reflexivity.
    + vm_compute. reflexivity.
    + vm_compute. reflexivity.
    + vm_compute. reflexivity.
    + unfold in_s, DAY. lia.
    + constructor; [| constructor]. split; [exact late_item_ok |]. vm_compute. split; discriminate.
    + lia.
    + vm_compute. reflexivity.
    + vm_compute. reflexivity.
    + cbn. lia.
    + intros i Hi. assert (i = 0%nat) as ->.
      { change (length _) with 1%nat in Hi. pose proof BATCH_pos. nia. }
      vm_compute. reflexivity.
  - intros i Hi. assert (i = 0%nat) as ->.
    { change (length _) with 1%nat in Hi. pose proof BATCH_pos. nia. }
    vm_compute. reflexivity.
  - vm_compute. reflexivity.
  - pose proof BATCH_pos. cbn. lia.
  - reflexivity.
  - exists 1%nat. split; [lia |]. apply elem_of_dom. by rewrite lookup_singleton_eq.
  - rewrite map_size_singleton. lia.
  - exists l', h'. split; [exact E |]. destruct (Hread Proxy h' (Hblock l' h' E) eq_refl) as (h3 & E3 & _). by exists h3.
Defined.

Definition unknown_blueprint : BlueprintWithDelayedHashes :=
  mkWithHashes GENESIS_PARENT [late_hash; missing_hash] (mkBlueprint [] 0).
Definition unknown_item : Rlp := default (RData []) (with_hashes_out unknown_blueprint).

Lemma unknown_hash_loses_known_transactions_witness :
  exists l2 h2 gone2, read_next_blueprint (Sequencer [] (fst saved) true, with_chunk (rlp_out unknown_item) 1 0) =
      Ret None (Sequencer [] l2 true, h2) /\ inbox l2 h2 [] gone2 /\ shows_bp h2 0 None.
Proof.
  apply (unknown_hash_loses_known_transactions (H := HostState) (TK := concrete_keys) fit_host true [] 0 ltac:(unfold in_u; lia)
    [rlp_out unknown_item] ltac:(vm_compute; reflexivity) ltac:(repeat constructor; vm_compute; reflexivity)
    (with_chunk (rlp_out unknown_item) 1 0) (fst saved) [(late_hash, late_item)] [] unknown_blueprint unknown_item 1 missing_hash []).
  - apply (inbox_frame _ (snd saved)); [exact saved_inbox | vm_compute; reflexivity].
  - vm_compute. reflexivity.
  - vm_compute. reflexivity.
  - vm_compute. reflexivity.
  - split; [done |]. split; [constructor | unfold in_s; cbn; lia].
  - vm_compute. reflexivity.
  - apply app_nil_r.
  - discriminate.
  - reflexivity.
  - by intros ?%list_elem_of_singleton.
Defined.

Lemma oversized_number_panics_witness :
  receive sample_verify (fun bs => bs) sample_evaluate rollup_address
    [framed rollup_address (SEQUENCER_BLUEPRINT_TAG :: rlp_out (RList [RData []; RData (replicate 33 0); RData []; RData []; RData []]))]
    (mkContext true [] 0) saved = Panic.
Proof.
  apply (oversized_number_panics (H := HostState) (TK := concrete_keys) sample_verify (fun bs => bs) sample_evaluate rollup_address
    [] (replicate 33 0) (RData []) (RData []) (RData []) [] (mkContext (TK := concrete_keys) true [] 0) saved); [reflexivity | cbn; lia].
Defined.

End EvmSequencerProps.
Export EvmSequencerProps.
